(* ===== verification/_CoqProject ===== *)
-Q . S2P
Prelude.v
Spsc.v
SpscThreads.v
Extern.v
BitUtils.v
CryptoHash.v
Nonce.v
Types.v
Serializer.v
BinaryWriter.v
WriterSpec.v
NomCrate.v
NomReader.v
ExternRef.v
Zarith.v
WriterFacts.v
DeriveMake.v
Derive.v
RoundTrip.v
DerivedCodec.v
MerklePath.v
Canonical.v
Messages.v
BinaryMessage.v
ChunkStream.v
PublicKeys.v
MessageFits.v
MessageTypes.v
MessageRead.v
Generator.v
GeneratorFacts.v
PeerFuzz.v
PeerFuzzFacts.v
ProtocolConstants.v
ConstantsFacts.v
ContextStore.v
ContextGc.v
ContextHash.v
OrdMapFacts.v
WorkingTree.v
ContextContent.v
ContextRep.v
ContextEdit.v
ContextWalk.v
ContextHashing.v
ContextCommit.v
TezedgeContext.v
ContextSpec.v
ContextRefine.v
ContextFindings.v
ApiTypes.v
Environment.v
EnvironmentFacts.v
Rpc.v
ProtocolService.v
ProtocolServiceFacts.v
ContextService.v
InitLock.v
RunnerPool.v
ReadonlyIpc.v
KeyValueStore.v
ContextListener.v
OcamlRuntime.v
Interop.v
ContextFfi.v
RpcFuzz.v
RpcFuzzFacts.v
RpcBodies.v
RpcMain.v
Timing.v
TimingFacts.v
TimingChannel.v
Identity.v
Rights.v
PeerWorker.v
BuildScript.v
Codec.v
ContextStats.v
OcamlConv.v
OcamlConvFacts.v
