(* ===== verification/Prelude.v ===== *)
(** * TezEdge node fuzzer: a verification library

    The repository has two fuzzers for TezEdge nodes together with the parts of the
    node they are built from.  One generates P2P messages and talks to a node over
    encrypted connections, the other sends it HTTP requests made from its OpenAPI
    schemas.  The parts of the node are its encoding stack, its cryptography, its
    protocol constants, its storage of the chain's context, and the protocol runners:
    processes that run the OCaml protocols and answer the node's calls.  This library
    models these parts and proves what makes them correct.  Sources are named
    relative to [src/].

    ** Conventions

    Machine integers are [Z] with their wrap-around, checks and widths written out;
    bytes are [list Z].  [result E A] is Rust's [Result], with the error first; a
    panic is a constructor of an error or of an outcome.  Third-party crates and the
    operating system are classes: the functions the sources call, and the documented
    laws the proofs rely on.  Every class has a reference instance, on which the
    witnesses of the theorems evaluate.  The name spaces of the sources are Modules;
    names are those of the sources where Rocq allows it.

    ** The ring buffer ([tezos/spsc/src/lib.rs])

    [Spsc.v] has every operation of the queue on its packed 64-bit positions, the
    representation invariant, and the refinement of a bounded list
    ([queue_refines_fifo]).  [SpscThreads.v] cuts [push], [push_slice], [pop] and [len]
    at their atomic accesses, a slice at every slot it copies, and runs a producer
    and a consumer in any interleaving: the buffer holds what was pushed and not
    popped, in order ([threads_fifo]), the two never touch the same slot
    ([threads_race_free]), and [len] errs on the safe side for each of them
    ([threads_len]); a lost close is the one flaw.  Memory orderings are sequentially
    consistent, and slices are no longer than the queue's capacity.

    ** Cryptography ([crypto/src])

    [CryptoHash.v]: typed hashes and base58check.  [Nonce.v]: nonces, the crypto box,
    proofs of work and the steps of block locators, with round trips, agreement of
    the two ends of a connection, termination of the search for a proof of work and
    overflow of the steps.

    ** The encoding stack ([tezos/encoding/src], [tezos/encoding-derive/src])

    [Types.v] and [Serializer.v] turn a Rust value into a [Value] as serde does;
    [BinaryWriter.v] writes it along an [Encoding] into a buffer with patched length
    fields; [WriterSpec.v] is the format without buffer and patching, and
    [WriterFacts.v] the refinement between the two.  [NomCrate.v] and [NomReader.v]
    are the readers, [Zarith.v] the variable-length numbers, [BitUtils.v] the bit
    operations they use, [Extern.v] and [ExternRef.v] the crates.  [DeriveMake.v] and
    [Derive.v] are the two halves of the derive macro: from a declaration with its
    attributes to the macro's tree, and from the tree to the generated writer and
    reader.  [RoundTrip.v] and [DerivedCodec.v] prove that what the macro generates
    for any well-formed declaration reads back what it writes; [Canonical.v] that it
    accepts nothing else.

    ** Messages and connections ([tezos/messages/src/p2p], [p2p_fuzzer/src])

    [Messages.v] feeds every declaration of a P2P message to the macro and concludes
    that all of them round-trip; [MerklePath.v] is the one codec written by hand.
    [BinaryMessage.v] is the interface of messages and chunks, with the predicted
    sizes.  [ChunkStream.v] is how a message travels: cut into pieces, encrypted with
    consecutive nonces, sent as chunks through a socket that delivers pieces of any
    size, and joined again ([peer_message_travels]); a first chunk too short for the
    length of the message makes the receiver panic.

    ** Generating messages and fuzzing a peer ([generator/src], [p2p_fuzzer/src])

    [MessageTypes.v] has the Rust types of the messages with their serialization, and
    the size of every message in bytes; [MessageFits.v] is the judgement that proves
    such sizes along a declaration, and [MessageRead.v] recovers a message from what
    the reader gives.  [Generator.v] is the generator: a state with the random number
    generator, the blocks made so far and what the peer has said, and a computation
    over it for every [Generator] and [Mutator] of the source.  [GeneratorFacts.v]
    proves of each that it never panics, never runs out of rounds and makes a message
    of the right type within the limits, as total correctness ([gens]).

    [PeerFuzz.v] is a session of the P2P fuzzer: handshake, replies, bursts.
    [PeerFuzzFacts.v] puts the parts together: every message that can be pushed is
    generated, and written unless it mutates a head or a protocol of the peer beyond
    the limits ([generated_message_written]), the generator's state stays
    sound however generating and hearing alternate ([session_invariant]), the first
    message of a handshake is readable ([first_message_readable]), a burst on a
    healthy connection is sent to its end or stops at a message that cannot be
    written ([burst_is_sent]); and what a peer or an
    option can do to it: heads that make it panic, mempools that cannot be written,
    requests it never answers, bursts that never end.  [PeerWorker.v] is the loop of
    a worker, in which a session that stops hands its generator to the next, and what
    [main] reads and starts; it carries the soundness of the
    generator through every way a session can end ([worker_stays_sound]), for peers
    that send usable messages: the largest predicate on connections that reading and
    writing keep ([usable_peer]).

    ** Keys and protocol constants ([tezos/messages/src/base], [protocol])

    [PublicKeys.v]: keys of three curves and their hashes as text.
    [ProtocolConstants.v] has the constants of ten protocols as declarations, with
    their defaults and JSON maps; [ConstantsFacts.v] says what the RPC answers for
    any bytes.

    ** The context ([tezos/new_context/src])

    [ContextStore.v]: hash ids, the in-memory repository and the garbage collector's
    thread; [ContextGc.v] proves that marking terminates and reaches what it should,
    and that a new cycle loses no id.  [ContextHash.v], [WorkingTree.v] and
    [TezedgeContext.v] are the code over them: nodes are shared and mutable and live
    in a heap, with cached entries and hashes; changing a path makes new nodes;
    hashing fills caches; committing writes what is not written yet.

    The contract of contexts is [ContextSpec.v]: directories without nodes, ids or
    sharing.  [ContextContent.v] is the data of the contract with its pure hash,
    [ContextRep.v] the worlds that relate nodes and ids to contents,
    [ContextEdit.v], [ContextWalk.v], [ContextHashing.v] and [ContextCommit.v] the
    specifications of the operations, and [ContextRefine.v] the refinement: every
    sequence of calls answers as the contract does.  [ContextFindings.v] has runs in
    which the code breaks its promises: [hash] before [commit], the collector, and
    three documented behaviours.  [OrdMapFacts.v] has the laws of ordered maps.

    ** The interface of the protocols ([tezos/api/src])

    [ApiTypes.v] has the requests, responses and errors of the OCaml interface, the
    merge of validation results, which is a keyed update ([merge_items_keyed]), and the
    keys of the router's cache, which forget the chain and the block;
    [Environment.v] the networks with their configurations, the parser of bootstrap
    addresses and the search for the zcash parameters.
    [EnvironmentFacts.v]: every network is configured, names parse whatever their
    case, and addresses are read back as they were written
    ([parse_bootstrap_addr_port_written]).

    ** Protocol runners ([tezos/wrapper/src], [tezos/interop/src], [tezos/client/src])

    [Rpc.v] has a channel between two processes: what was sent and not yet received,
    and a reader that gives up when the other side has not answered in time; and
    what follows for any server that answers each request once: a client in step
    gets its answer, and one that has given up stays behind.  [ProtocolService.v] is
    the runner's loop and the controller's calls over it, [ProtocolServiceFacts.v]
    the theorems: in step a call is the function it calls ([calls_answer]); the
    number of unanswered requests never goes down ([exchange_unanswered]).
    [InitLock.v] is the lock that makes readers wait for the first write, as a step
    relation on the threads ([readers_after_write]).  [RunnerPool.v] has the
    sub-processes, the connections and the pooled client, to which a late answer of
    another caller can be given ([late_answer_reaches_next_client]).
    [OcamlRuntime.v] is the thread that runs OCaml code for futures: a step relation
    of the executor, the callers and the wakers ([no_lost_wakeup]).  [Interop.v] has
    the calls into OCaml and the client over them, with the outcome of each;
    [OcamlConv.v] the conversions of their arguments and results, and
    [OcamlConvFacts.v] that what goes to OCaml and back is unchanged
    ([ocaml_returns]) and that requests arrive whole ([requests_determined]).

    ** Contexts across processes ([new_context/src])

    [ContextService.v] puts the index of [TezedgeContext.v] behind the runner's
    messages: what the node reads is what was committed ([node_reads_committed]).
    [ReadonlyIpc.v] is the repository of a readonly runner, which asks the writer for
    the writer's ids ([readonly_reads_writer]) and keeps its own
    ([readonly_keeps_own]).  [KeyValueStore.v] is the interface that contexts have to
    a repository, a class with its laws: both repositories, and the choice between
    them, are instances and implement a map of hashes as long as the freed ids that
    are used again have slots ([repository_stores]).
    [ContextListener.v] is the writer's listener with a thread for each reader, as a
    step relation in which every answer is compared with the contents of the
    repository ([readers_hear_truth]).  [ContextFfi.v] has the functions exported to OCaml, with
    the walkers OCaml holds as mutable handles, each of which deals out its own fold
    whatever the others do ([walkers_fold]).
    [Codec.v] has the codecs of keys and values with the laws a store relies on, and
    the order they give to numbers; [ContextStats.v] the statistics of a context and
    that they are those of what was measured ([statistics_complete]).

    ** Timing ([tezos/timing/src], [new_context/src/timings.rs])

    [Timing.v] has the hooks, the thread that receives their messages, its statistics
    in [f64] (IEEE binary64, by the Standard Library's [SpecFloat]) and the
    statements it executes, whose effect on the tables is that of their SQL texts.
    [TimingFacts.v]: ids and hashes stay unique and the current rows exist whatever
    messages arrive, and a block is recorded with the sums of its actions
    ([block_is_recorded]).  [TimingChannel.v] is the channel between the two and the
    opening of the database: what the thread has done is always what it does with a
    prefix of what was sent ([timing_in_order]).

    ** Identities and rights ([tezos/identity], [identity_tool], [messages/src])

    [Identity.v]: generating an identity ends when some stamp meets the target, and
    the file it is stored in gives it back ([identity_generated]).  [Rights.v]: the
    maps of baking and endorsing rights, which every protocol declares with the same
    text, and how values are written as JSON.

    ** The RPC fuzzer ([rpc_fuzzer/src])

    [RpcFuzz.v] goes from the schemas to the rounds of a worker: random arguments,
    numbers, strings and bodies, the request, and the hashes collected from replies.
    [RpcFuzzFacts.v] has a total-correctness judgement for the random functions
    ([draws]) and concludes that replies are searched completely
    ([reply_is_collected]) and that a worker keeps going ([worker_keeps_going]).
    [RpcBodies.v] has an acceptor of JSON and the bodies it refuses
    ([object_body_malformed]).  [RpcMain.v] has the options and the workers that are
    started.

    ** The build script ([tezos/sys/build.rs])

    [BuildScript.v]: the choice of a library for the platform, downloads that are
    compared with published checksums, and the copy to the output directory, with the
    commands it starts as a class.  The parameter files it leaves are the published
    ones ([params_verified]); the library may be missing, and for three platforms it
    is not in the distribution.

    ** Fuel

    Loops over nodes, over partitions of directories, over a socket and over nonces
    run on fuel and report running out.  Theorems bound it: the nesting of a
    directory, the number of steps of a walk, the references of the marked entries
    ([mark_fuel]), the number of nonces (2^192) or the bytes a message can have.  The
    generator's loops have constant rounds: a fitness of 28 bytes has room for five
    elements ([FITNESS_ROUNDS]), a protocol for one component in nine bytes
    ([COMPONENT_ROUNDS]), a list of operations for eight of them
    ([OPERATION_ROUNDS]).  A burst of n messages ends within n + 1 rounds.  Bodies of
    HTTP requests run on fuel because a body without a schema can nest without a
    bound; for the schemas of the theorems the nesting of the schema is enough.
    Channels take the rounds of the other side as an argument: none is a call that
    times out.  A theorem that a loop does not end says that no fuel is enough.

    ** Not modelled

    The mutex of the generator.  The conversions of [new_context/src/from_ocaml.rs]
    and the registration of exported functions, which live in the memory of the OCaml
    runtime, and [tezos/sys/src], which links it.  The text of the SQL schema that
    [tezos/timing] runs when it opens its file.  The votes and contracts of the later
    protocols, which repeat the modelled ones.  The builder calls with which
    [tezos/wrapper] configures [r2d2].  Conversions between error types, [Debug] and
    [Display] output, and logging.  Tests and benchmarks, and the Python scripts. *)

From Stdlib Require Import ZArith Lia List String Bool.
From stdpp Require Import base option list numbers.

#[global] Set Default Goal Selector "!".

(** ** Results

    Rust's [Result<A, E>] with the error type first, so that [result E] is a
    functor and stdpp's monad notations apply to it: [x ← m; k] is the [?]
    operator. *)
Inductive result (E A : Type) : Type :=
| Ok (a : A)
| Err (e : E).
Arguments Ok {E A} a.
Arguments Err {E A} e.

#[export] Instance result_ret {E} : MRet (result E) := fun _ a => Ok a.
#[export] Instance result_bind {E} : MBind (result E) :=
  fun _ _ f m => match m with Ok a => f a | Err e => Err e end.
#[export] Instance result_fmap {E} : FMap (result E) :=
  fun _ _ f m => match m with Ok a => Ok (f a) | Err e => Err e end.

Definition map_err {E F A} (f : E -> F) (m : result E A) : result F A :=
  match m with Ok a => Ok a | Err e => Err (f e) end.

Definition ok_or {E A} (o : option A) (e : E) : result E A :=
  match o with Some a => Ok a | None => Err e end.

Definition is_ok {E A} (m : result E A) : bool :=
  match m with Ok _ => true | Err _ => false end.

#[export] Instance result_eq_dec {E A} `{EqDecision E, EqDecision A} :
  EqDecision (result E A).
Proof. solve_decision. Defined.

(** ** Tactics

    [inv_res H] peels the binds of a successful computation off [H], naming
    each intermediate result; [ssplit] splits conjunctions. *)
Ltac inv_res1 H :=
  match type of H with
  | mbind _ ?m = Ok _ =>
      let E := fresh "E" in
      destruct m eqn:E; simpl in H; [|discriminate H]
  | (match ?m with Ok _ => _ | Err _ => _ end) = Ok _ =>
      let E := fresh "E" in
      destruct m eqn:E; simpl in H; [|discriminate H]
  | (if ?b then _ else _) = Ok _ =>
      let E := fresh "E" in destruct b eqn:E; simpl in H; try discriminate H
  | Ok _ = Ok _ => injection H as H; subst
  | Err _ = Ok _ => discriminate H
  end.
Ltac inv_res H := repeat inv_res1 H.

Ltac ssplit := repeat match goal with |- _ /\ _ => split end.

Create HintDb tez discriminated.
Create Rewrite HintDb tezrw.

(** ** Machine integers

    A [w]-bit unsigned integer is a [Z] in [0, 2^w); signed integers are
    [Z]s in [-2^(w-1), 2^(w-1)).  [usize] is 64 bits wide. *)
Open Scope Z_scope.

Definition uwrap (w z : Z) : Z := z mod 2 ^ w.
Definition swrap (w z : Z) : Z :=
  let u := z mod 2 ^ w in if u <? 2 ^ (w - 1) then u else u - 2 ^ w.

Definition in_u (w z : Z) : Prop := 0 <= z < 2 ^ w.
Definition in_s (w z : Z) : Prop := - 2 ^ (w - 1) <= z < 2 ^ (w - 1).

Definition in_ub (w z : Z) : bool := (0 <=? z) && (z <? 2 ^ w).
Definition in_sb (w z : Z) : bool := (- 2 ^ (w - 1) <=? z) && (z <? 2 ^ (w - 1)).

Lemma in_ub_spec w z : in_ub w z = true <-> in_u w z.
Proof. unfold in_ub, in_u. rewrite andb_true_iff, Z.leb_le, Z.ltb_lt. lia. Qed.

Lemma in_sb_spec w z : in_sb w z = true <-> in_s w z.
Proof. unfold in_sb, in_s. rewrite andb_true_iff, Z.leb_le, Z.ltb_lt. lia. Qed.

Definition usize_max : Z := 2 ^ 64 - 1.

(** [usize::checked_add] and [usize::checked_sub]. *)
Definition checked_add (a b : Z) : option Z :=
  if a + b <=? usize_max then Some (a + b) else None.
Definition checked_sub (a b : Z) : option Z :=
  if b <=? a then Some (a - b) else None.

Lemma checked_sub_app (a b : Z) : 0 <= b -> checked_sub (a + b) a = Some b.
Proof.
  intros H. unfold checked_sub.
  destruct (Z.leb_spec a (a + b)); [f_equal; lia|lia].
Qed.

Lemma swrap_id w z : 0 < w -> in_s w z -> swrap w (z mod 2 ^ w) = z.
Proof.
  unfold in_s, swrap. intros Hw Hz.
  assert (Hp : 2 ^ w = 2 * 2 ^ (w - 1)).
  { rewrite <- Z.pow_succ_r by lia. f_equal. lia. }
  assert (0 < 2 ^ (w - 1)) by (apply Z.pow_pos_nonneg; lia).
  rewrite Z.mod_mod by lia.
  destruct (Z.ltb_spec z 0).
  - replace (z mod 2 ^ w) with (z + 2 ^ w).
    + destruct (Z.ltb_spec (z + 2 ^ w) (2 ^ (w - 1))); lia.
    + rewrite <- (Z.mod_small (z + 2 ^ w) (2 ^ w)) by lia.
      rewrite <- (Z.mul_1_l (2 ^ w)) at 1. now rewrite Z.mod_add by lia.
  - rewrite Z.mod_small by lia.
    destruct (Z.ltb_spec z (2 ^ (w - 1))); lia.
Qed.

(** ** Bytes *)

Definition is_byte (b : Z) : Prop := 0 <= b < 256.
Definition is_byteb (b : Z) : bool := (0 <=? b) && (b <? 256).

Abbreviation bytes := (list Z).
Definition are_bytes (l : bytes) : Prop := Forall is_byte l.

Lemma is_byteb_spec b : is_byteb b = true <-> is_byte b.
Proof. unfold is_byteb, is_byte. rewrite andb_true_iff, Z.leb_le, Z.ltb_lt. lia. Qed.

Definition are_bytesb (l : bytes) : bool := forallb is_byteb l.
Lemma are_bytesb_spec l : are_bytesb l = true <-> are_bytes l.
Proof.
  unfold are_bytesb, are_bytes. rewrite forallb_forall, List.Forall_forall.
  split; intros H x Hx; specialize (H x Hx); now apply is_byteb_spec.
Qed.

Definition zlen {A} (l : list A) : Z := Z.of_nat (length l).
#[global] Arguments zlen : simpl never.

Lemma zlen_app {A} (l k : list A) : zlen (l ++ k) = zlen l + zlen k.
Proof. unfold zlen. rewrite length_app. lia. Qed.
Lemma zlen_nonneg {A} (l : list A) : 0 <= zlen l.
Proof. unfold zlen. lia. Qed.
Lemma zlen_cons {A} (x : A) l : zlen (x :: l) = 1 + zlen l.
Proof. unfold zlen. simpl length. lia. Qed.
Lemma zlen_nil {A} : zlen (@nil A) = 0.
Proof. reflexivity. Qed.

#[export] Hint Rewrite @zlen_app @zlen_cons @zlen_nil : tezrw.

(** Big-endian and little-endian images ([to_be_bytes], [from_be_bytes], ...)
    of an [n]-byte unsigned integer. *)
Fixpoint le_bytes (n : nat) (z : Z) : bytes :=
  match n with
  | O => []
  | S n => (z mod 256) :: le_bytes n (z / 256)
  end.
Definition be_bytes (n : nat) (z : Z) : bytes := rev (le_bytes n z).

Fixpoint le_val (l : bytes) : Z :=
  match l with
  | [] => 0
  | b :: l => b + 256 * le_val l
  end.
Definition be_val (l : bytes) : Z := le_val (rev l).

Lemma le_bytes_length n z : length (le_bytes n z) = n.
Proof. revert z. induction n as [|n IH]; intros z; simpl; [done|]. now rewrite IH. Qed.

Lemma le_bytes_are_bytes n z : are_bytes (le_bytes n z).
Proof.
  revert z. induction n as [|n IH]; intros z; simpl; constructor; [|apply IH].
  unfold is_byte. pose proof (Z.mod_pos_bound z 256 ltac:(lia)). lia.
Qed.

Lemma pow256_S n : 256 ^ Z.of_nat (S n) = 256 * 256 ^ Z.of_nat n.
Proof. rewrite Nat2Z.inj_succ, Z.pow_succ_r by lia. reflexivity. Qed.

Lemma le_val_le_bytes n z : le_val (le_bytes n z) = z mod 256 ^ Z.of_nat n.
Proof.
  revert z. induction n as [|n IH]; intros z.
  - simpl. now rewrite Z.mod_1_r.
  - cbn [le_bytes le_val]. rewrite IH, pow256_S.
    assert (0 < 256 ^ Z.of_nat n) by (apply Z.pow_pos_nonneg; lia).
    rewrite Z.rem_mul_r by lia. lia.
Qed.

Lemma le_bytes_le_val l : are_bytes l -> le_bytes (length l) (le_val l) = l.
Proof.
  induction 1 as [|b l Hb _ IH]; simpl; [done|]. unfold is_byte in Hb.
  assert (Hd : (b + 256 * le_val l) / 256 = le_val l).
  { symmetry. apply (Z.div_unique_pos _ 256 _ b); lia. }
  assert (Hm : (b + 256 * le_val l) mod 256 = b).
  { symmetry. apply (Z.mod_unique_pos _ 256 (le_val l)); lia. }
  now rewrite Hd, Hm, IH.
Qed.

Lemma le_val_bound l : are_bytes l -> 0 <= le_val l < 256 ^ zlen l.
Proof.
  unfold zlen. induction 1 as [|b l Hb _ IH]; simpl length.
  - simpl. lia.
  - rewrite pow256_S. simpl. unfold is_byte in Hb. lia.
Qed.

Lemma be_bytes_length n z : length (be_bytes n z) = n.
Proof. unfold be_bytes. rewrite length_rev. apply le_bytes_length. Qed.

Lemma zlen_be_bytes n z : zlen (be_bytes n z) = Z.of_nat n.
Proof. unfold zlen. now rewrite be_bytes_length. Qed.

Lemma are_bytes_rev l : are_bytes l -> are_bytes (rev l).
Proof. unfold are_bytes. rewrite !List.Forall_forall. intros H x Hx. apply H. now apply in_rev. Qed.

Lemma be_bytes_are_bytes n z : are_bytes (be_bytes n z).
Proof. apply are_bytes_rev, le_bytes_are_bytes. Qed.

Lemma be_val_be_bytes n z : be_val (be_bytes n z) = z mod 256 ^ Z.of_nat n.
Proof. unfold be_val, be_bytes. now rewrite rev_involutive, le_val_le_bytes. Qed.

Lemma be_val_be_bytes_small n z :
  0 <= z < 256 ^ Z.of_nat n -> be_val (be_bytes n z) = z.
Proof. intros. rewrite be_val_be_bytes. now apply Z.mod_small. Qed.

Lemma be_bytes_be_val l : are_bytes l -> be_bytes (length l) (be_val l) = l.
Proof.
  intros H. unfold be_bytes, be_val. rewrite <- length_rev.
  rewrite le_bytes_le_val by now apply are_bytes_rev. apply rev_involutive.
Qed.

Lemma be_val_bound l : are_bytes l -> 0 <= be_val l < 256 ^ zlen l.
Proof.
  intros H. unfold be_val. rewrite <- (rev_involutive l) at 3.
  unfold zlen. rewrite length_rev. apply le_val_bound. now apply are_bytes_rev.
Qed.

Lemma zlen_rev {A} (l : list A) : zlen (rev l) = zlen l.
Proof. unfold zlen. by rewrite length_rev. Qed.

Lemma le_val_app l k : le_val (l ++ k) = le_val l + 256 ^ zlen l * le_val k.
Proof.
  induction l as [|x l IH]; simpl; [change (zlen []) with 0; lia|].
  rewrite IH, zlen_cons, Z.pow_add_r by (pose proof (zlen_nonneg l); lia). lia.
Qed.

Lemma be_val_app l k : be_val (l ++ k) = be_val l * 256 ^ zlen k + be_val k.
Proof. unfold be_val. rewrite rev_app_distr, le_val_app, zlen_rev. lia. Qed.

Lemma be_val_cons b l : be_val (b :: l) = b * 256 ^ zlen l + be_val l.
Proof.
  change (b :: l) with ([b] ++ l). rewrite be_val_app.
  replace (be_val [b]) with b by (unfold be_val; simpl; lia). done.
Qed.

Lemma be_bytes_mod n z : be_bytes n (z mod 256 ^ Z.of_nat n) = be_bytes n z.
Proof.
  pose proof (be_bytes_be_val (be_bytes n z) (be_bytes_are_bytes n z)) as E.
  now rewrite be_bytes_length, be_val_be_bytes in E.
Qed.

Lemma be_bytes_app n m z :
  be_bytes (n + m) z = be_bytes n (z / 256 ^ Z.of_nat m) ++ be_bytes m z.
Proof.
  assert (Hm : 0 < 256 ^ Z.of_nat m) by (apply Z.pow_pos_nonneg; lia).
  assert (Hn : 0 < 256 ^ Z.of_nat n) by (apply Z.pow_pos_nonneg; lia).
  rewrite <- (be_bytes_be_val (be_bytes n (z / 256 ^ Z.of_nat m) ++ be_bytes m z))
    by (apply List.Forall_app; split; apply be_bytes_are_bytes).
  rewrite List.length_app, !be_bytes_length, be_val_app, !be_val_be_bytes, zlen_be_bytes.
  rewrite <- (be_bytes_mod (n + m) z). f_equal.
  rewrite Nat2Z.inj_add, Z.pow_add_r, (Z.mul_comm (256 ^ Z.of_nat n)), Z.rem_mul_r by lia. lia.
Qed.

#[export] Hint Rewrite be_bytes_length zlen_be_bytes @zlen_rev : tezrw.
#[export] Hint Resolve be_bytes_are_bytes le_bytes_are_bytes : tez.

#[global] Opaque be_bytes.

(** ** Lists *)

Lemma take_app_len {A} (l k : list A) : take (length l) (l ++ k) = l.
Proof. rewrite take_app_length. done. Qed.

Lemma drop_app_len {A} (l k : list A) : drop (length l) (l ++ k) = k.
Proof. rewrite drop_app_length. done. Qed.

#[export] Hint Rewrite @take_app_len @drop_app_len : tezrw.

(** ** Mapping a fallible function over a list, first error first *)
Section TryMap.
Context {E A B : Type} (f : A -> result E B).

Fixpoint try_map (l : list A) : result E (list B) :=
  match l with
  | [] => Ok []
  | a :: l => match f a with
              | Ok b => match try_map l with Ok bs => Ok (b :: bs) | Err e => Err e end
              | Err e => Err e
              end
  end.

Lemma try_map_Forall2 l k : try_map l = Ok k <-> Forall2 (fun a b => f a = Ok b) l k.
Proof.
  revert k. induction l as [|a l IH]; intros k; simpl.
  - split; [intros [= <-]; constructor|]. by inversion 1.
  - destruct (f a) as [b|e] eqn:Ea.
    + split.
      * intros H. destruct (try_map l) as [bs|]; [|done]. injection H as <-.
        constructor; [done|]. by apply IH.
      * inversion 1 as [|? b' ? k' Hb Hk]; subst. rewrite Ea in Hb. injection Hb as <-.
        by rewrite (proj2 (IH k') Hk).
    + split; [done|]. inversion 1 as [|? b' ? k' Hb Hk]; subst. congruence.
Qed.
End TryMap.
