(* ===== verification/Spsc.v ===== *)
(** * The single-producer single-consumer ring buffer ([tezos/spsc/src/lib.rs])

    [Queue] keeps two positions, [head] and [tail], as 64-bit words: the low
    bits (below [mask_bit], a power of two larger than the capacity) are an
    index into the buffer, the bits above count the laps around it, and the top
    bit of [tail] is the closed flag.  [rep] relates that layout to the
    bounded FIFO list a client sees; every operation is proved against it.
    [SpscThreads.v] runs a producer and a consumer as two threads. *)

From Stdlib Require Import ZArith Lia.
From stdpp Require Import base option list numbers.
From S2P Require Import Prelude.

(** ** Words *)

Definition SHIFT : Z := 8 * 8 - 1.
Definition CLOSED_BIT : Z := Z.shiftl 1 SHIFT.

Definition not64 (x : Z) : Z := Z.lxor x (Z.ones 64).
Definition wrapping_add (a b : Z) : Z := (a + b) mod 2 ^ 64.
Definition wrapping_sub (a b : Z) : Z := (a - b) mod 2 ^ 64.

(** [usize::next_power_of_two]: the smallest power of two [>=] its argument. *)
Definition next_power_of_two (n : Z) : Z := 2 ^ Z.log2_up n.

(** What running an operation can do besides returning: a Rust panic (an
    out-of-range slice index) or reading a slot that was never written. *)
Inductive outcome (A : Type) : Type :=
| Return (a : A)
| Panic
| Uninit.
Arguments Return {A} a.
Arguments Panic {A}.
Arguments Uninit {A}.

Inductive PushError (T : Type) : Type :=
| Full (x : T)
| PushClosed (x : T).
Arguments Full {T} x.
Arguments PushClosed {T} x.

Inductive PopError : Type :=
| Empty
| PopClosed.

Record Queue (T : Type) : Type := mkQueue {
  head : Z;
  tail : Z;
  buffer : list (option T);
  mask_bit : Z;
}.
Arguments mkQueue {T} _ _ _ _.
Arguments head {T} _.
Arguments tail {T} _.
Arguments buffer {T} _.
Arguments mask_bit {T} _.

Section Operations.
Context {T : Type}.
Implicit Types (q : Queue T) (e : T).

Definition blen q : Z := zlen (buffer q).
Definition set_head q h : Queue T := mkQueue h (tail q) (buffer q) (mask_bit q).
Definition set_tail q t : Queue T := mkQueue (head q) t (buffer q) (mask_bit q).
Definition set_buffer q b : Queue T := mkQueue (head q) (tail q) b (mask_bit q).

(** [Queue::new_queue]; the assertion [capacity > 0] panics otherwise. *)
Definition new_queue (capacity : Z) : outcome (Queue T) :=
  if 0 <? capacity
  then Return (mkQueue 0 0 (replicate (Z.to_nat capacity) None)
                       (next_power_of_two (capacity + 1)))
  else Panic.

Definition set_closed q : Queue T := set_tail q (Z.lor (tail q) CLOSED_BIT).

(** What [len] computes from the two words it loaded. *)
Definition len_of q (t h : Z) : Z :=
  if wrapping_sub t (mask_bit q) =? h then blen q
  else
    let t := Z.land t (mask_bit q - 1) in
    let h := Z.land h (mask_bit q - 1) in
    if t <? h then (t + blen q) - h else t - h.

Definition queue_len q : Z :=
  let t := tail q in
  let h := head q in
  len_of q t h.

Definition is_empty q : bool := queue_len q =? 0.
Definition available q : Z := blen q - queue_len q.

(** The position after [p]: the next slot, or the start of the next lap. *)
Definition advance q (p : Z) : Z :=
  let index := Z.land p (mask_bit q - 1) in
  if index + 1 <? blen q then p + 1
  else wrapping_add (Z.land p (not64 (mask_bit q - 1))) (mask_bit q).

(** The decision [push] takes from the two words it loaded. *)
Definition push_check q (t h : Z) e : result (PushError T) unit :=
  if negb (Z.land t CLOSED_BIT =? 0) then Err (PushClosed e)
  else if wrapping_add h (mask_bit q) =? t then Err (Full e)
  else Ok tt.

(** The unsynchronised write of [push] into its slot. *)
Definition push_write q (t : Z) e : outcome (Queue T) :=
  let index := Z.land t (mask_bit q - 1) in
  if index <? blen q
  then Return (set_buffer q (<[Z.to_nat index := Some e]> (buffer q)))
  else Panic.

Definition push q e : outcome (Queue T * result (PushError T) unit) :=
  let t := tail q in
  let h := head q in
  match push_check q t h e with
  | Err err => Return (q, Err err)
  | Ok _ =>
      match push_write q t e with
      | Return q' => Return (set_tail q' (advance q t), Ok tt)
      | Panic => Panic
      | Uninit => Uninit
      end
  end.

Definition pop_check (h t : Z) : result PopError unit :=
  if Z.land t (not64 CLOSED_BIT) =? h
  then (if negb (Z.land t CLOSED_BIT =? 0) then Err PopClosed else Err Empty)
  else Ok tt.

(** The read of [pop]: [data.read().assume_init()]. *)
Definition pop_read q (h : Z) : outcome T :=
  let index := Z.land h (mask_bit q - 1) in
  match buffer q !! Z.to_nat index with
  | None => Panic
  | Some None => Uninit
  | Some (Some v) => Return v
  end.

Definition pop q : outcome (Queue T * result PopError T) :=
  let h := head q in
  let t := tail q in
  match pop_check h t with
  | Err err => Return (q, Err err)
  | Ok _ =>
      match pop_read q h with
      | Return v => Return (set_head q (advance q h), Ok v)
      | Panic => Panic
      | Uninit => Uninit
      end
  end.

(** [dst[from..from+n].copy_from_slice(src)]: panics unless the range is
    inside [dst] and as long as [src]. *)
Definition copy_range (dst : list (option T)) (from to : Z) (src : list T)
  : outcome (list (option T)) :=
  if (0 <=? from) && (from <=? to) && (to <=? zlen dst) && (zlen src =? to - from)
  then Return (take (Z.to_nat from) dst ++ map Some src ++ drop (Z.to_nat to) dst)
  else Panic.

Definition slice_write q (index : Z) (slice : list T) : outcome (list (option T)) :=
  let buffer_length := blen q in
  let slice_length := zlen slice in
  if buffer_length <? index + slice_length then
    let length := buffer_length - index in
    match copy_range (buffer q) index buffer_length (take (Z.to_nat length) slice) with
    | Return b => copy_range b 0 (slice_length - length) (drop (Z.to_nat length) slice)
    | other => other
    end
  else copy_range (buffer q) index (index + slice_length) slice.

Definition slice_next_tail q (t slice_length : Z) : Z :=
  let buffer_length := blen q in
  let index := Z.land t (mask_bit q - 1) in
  if index + slice_length <? buffer_length then t + slice_length
  else wrapping_add
         (wrapping_add (Z.land t (not64 (mask_bit q - 1))) (mask_bit q))
         ((index + slice_length) mod buffer_length).

(** The decision [push_slice] takes from the two words it loaded; when it goes
    on, the tail it will store. *)
Definition slice_check q (t h : Z) (slice : list T) : result (PushError unit) Z :=
  if negb (Z.land t CLOSED_BIT =? 0) then Err (PushClosed tt)
  else
    let next_tail := slice_next_tail q t (zlen slice) in
    if wrapping_add h (mask_bit q) <? next_tail then Err (Full tt)
    else Ok next_tail.

Definition push_slice q (slice : list T) : outcome (Queue T * result (PushError unit) unit) :=
  let t := tail q in
  let h := head q in
  match slice_check q t h slice with
  | Err err => Return (q, Err err)
  | Ok next_tail =>
      match slice_write q (Z.land t (mask_bit q - 1)) slice with
      | Return b => Return (set_tail (set_buffer q b) next_tail, Ok tt)
      | Panic => Panic
      | Uninit => Uninit
      end
  end.

(** [impl Drop for Queue]: pop until an error; [fuel] bounds the loop. *)
Fixpoint drop_queue (fuel : nat) q (dropped : list T) : outcome (Queue T * list T) :=
  match fuel with
  | O => Panic
  | S fuel =>
      match pop q with
      | Return (q', Ok v) => drop_queue fuel q' (dropped ++ [v])
      | Return (q', Err _) => Return (q', dropped)
      | Panic => Panic
      | Uninit => Uninit
      end
  end.
End Operations.

Example slices_test :
  match @new_queue Z 5 with
  | Return q =>
      match push_slice q [1; 2; 3] with
      | Return (q, Ok _) =>
          match push q 4 with
          | Return (q, Ok _) =>
              match push_slice q [5] with
              | Return (q, Ok _) =>
                  match drop_queue 10 q [] with
                  | Return (_, l) => l = [1; 2; 3; 4; 5]
                  | _ => False
                  end
              | _ => False
              end
          | _ => False
          end
      | _ => False
      end
  | _ => False
  end.
Proof. vm_compute. reflexivity. Qed.

(** ** Bit-level facts *)

Lemma CLOSED_BIT_val : CLOSED_BIT = 2 ^ 63.
Proof. reflexivity. Qed.

Lemma land_closed t : 0 <= t < 2 ^ 63 -> Z.land t CLOSED_BIT = 0.
Proof.
  intros Ht. rewrite CLOSED_BIT_val. apply Z.bits_inj'. intros i Hi.
  rewrite Z.land_spec, Z.bits_0, Z.pow2_bits_eqb by lia.
  destruct (Z.eqb_spec 63 i) as [<-|]; [|apply andb_false_r].
  rewrite andb_true_r. destruct (Z.eq_dec t 0) as [->|]; [apply Z.bits_0|].
  apply Z.bits_above_log2; [lia|]. apply Z.log2_lt_pow2; lia.
Qed.

Lemma lor_closed t : 0 <= t < 2 ^ 63 -> Z.lor t CLOSED_BIT = t + 2 ^ 63.
Proof.
  intros Ht. pose proof (Z.add_lor_land t CLOSED_BIT) as H.
  rewrite land_closed in H by lia. rewrite CLOSED_BIT_val in *. lia.
Qed.

Lemma land_closed_set t : 0 <= t < 2 ^ 63 -> Z.land (t + 2 ^ 63) CLOSED_BIT = 2 ^ 63.
Proof.
  intros Ht. rewrite <- lor_closed by done. rewrite Z.land_lor_distr_l.
  rewrite land_closed by done. now rewrite Z.land_diag.
Qed.

Lemma land_not64 w x : 0 <= w < 2 ^ 64 -> Z.land w (not64 x) = Z.ldiff w x.
Proof.
  intros Hw. apply Z.bits_inj'. intros i Hi. unfold not64.
  rewrite Z.land_spec, Z.lxor_spec, Z.ldiff_spec, Z.testbit_ones_nonneg by lia.
  destruct (Z.ltb_spec i 64); [destruct (Z.testbit w i), (Z.testbit x i); done|].
  replace (Z.testbit w i) with false; [done|]. symmetry.
  destruct (Z.eq_dec w 0) as [->|]; [apply Z.bits_0|].
  apply Z.bits_above_log2; [lia|].
  assert (Z.log2 w < 64) by (apply Z.log2_lt_pow2; lia). lia.
Qed.

Lemma ldiff_closed t : 0 <= t < 2 ^ 63 -> Z.land (t + 2 ^ 63) (not64 CLOSED_BIT) = t.
Proof.
  intros Ht. rewrite land_not64 by lia. rewrite <- lor_closed by done.
  apply Z.bits_inj'. intros i Hi. rewrite Z.ldiff_spec, Z.lor_spec.
  pose proof (f_equal (fun z => Z.testbit z i) (land_closed t Ht)) as H.
  simpl in H. rewrite Z.land_spec, Z.bits_0 in H.
  destruct (Z.testbit t i), (Z.testbit CLOSED_BIT i); done.
Qed.

Lemma ldiff_open t : 0 <= t < 2 ^ 63 -> Z.land t (not64 CLOSED_BIT) = t.
Proof.
  intros Ht. rewrite land_not64 by lia. apply Z.bits_inj'. intros i Hi.
  rewrite Z.ldiff_spec.
  pose proof (f_equal (fun z => Z.testbit z i) (land_closed t Ht)) as H.
  simpl in H. rewrite Z.land_spec, Z.bits_0 in H.
  destruct (Z.testbit t i), (Z.testbit CLOSED_BIT i); done.
Qed.

Lemma land_mask k w : 0 <= k -> Z.land w (2 ^ k - 1) = w mod 2 ^ k.
Proof.
  intros Hk. rewrite <- Z.land_ones by lia. f_equal.
  rewrite Z.ones_equiv. lia.
Qed.

Lemma land_not_mask k w :
  0 <= k -> 0 <= w < 2 ^ 64 -> Z.land w (not64 (2 ^ k - 1)) = (w / 2 ^ k) * 2 ^ k.
Proof.
  intros Hk Hw. rewrite land_not64 by done.
  replace (2 ^ k - 1) with (Z.ones k) by (rewrite Z.ones_equiv; lia).
  rewrite Z.ldiff_ones_r by done.
  now rewrite Z.shiftl_mul_pow2, Z.shiftr_div_pow2 by done.
Qed.

(** ** Positions

    The [n]-th push (and the [n]-th pop) happens at position [pos n]: lap
    [n / cap], slot [n mod cap]. *)
Definition pos (cap k n : Z) : Z := (n / cap) * 2 ^ k + n mod cap.
#[global] Arguments pos : simpl never.

(** A capacity [cap] and a lap size [2^k] that can hold it below the closed
    bit. *)
Definition geometry (cap k : Z) : Prop := 0 < cap < 2 ^ k /\ 0 <= k < 63.

Section Positions.
Context (cap k : Z) (G : geometry cap k).
#[local] Abbreviation pos := (pos cap k).

Lemma geo_cap : 0 < cap < 2 ^ k.
Proof using G. exact (proj1 G). Qed.
Lemma geo_k : 0 <= k < 63.
Proof using G. exact (proj2 G). Qed.

Lemma slot_bound n : 0 <= n mod cap < cap.
Proof using G. pose proof geo_cap. apply Z.mod_pos_bound. lia. Qed.

Lemma pos_nonneg n : 0 <= n -> 0 <= pos n.
Proof using G.
  pose proof geo_cap as Hcap. pose proof geo_k as Hk.
  intros Hn. unfold pos. pose proof (slot_bound n).
  assert (0 <= n / cap) by (apply Z.div_pos; lia). nia.
Qed.

Lemma pos_mod n : pos n mod 2 ^ k = n mod cap.
Proof using G.
  pose proof geo_cap as Hcap. pose proof geo_k as Hk.
  unfold pos. rewrite Z.add_comm, Z.mod_add by lia.
  pose proof (slot_bound n). apply Z.mod_small. lia.
Qed.

Lemma pos_div n : pos n / 2 ^ k = n / cap.
Proof using G.
  pose proof geo_cap as Hcap. pose proof geo_k as Hk.
  unfold pos. rewrite Z.add_comm, Z.div_add by lia.
  pose proof (slot_bound n). rewrite Z.div_small by lia. lia.
Qed.

Lemma pos_inj n m : pos n = pos m -> n = m.
Proof using G.
  pose proof geo_cap as Hcap. pose proof geo_k as Hk.
  intros H. rewrite (Z.div_mod n cap), (Z.div_mod m cap) by lia.
  now rewrite <- !pos_div, <- !pos_mod, H.
Qed.

Lemma pos_lap n : pos (n + cap) = pos n + 2 ^ k.
Proof using G.
  pose proof geo_cap as Hcap. pose proof geo_k as Hk.
  unfold pos. replace (n + cap) with (n + 1 * cap) by lia.
  rewrite Z.div_add, Z.mod_add by lia. lia.
Qed.

Lemma pos_mono n m : 0 <= n -> n < m -> pos n < pos m.
Proof using G.
  pose proof geo_cap as Hcap. pose proof geo_k as Hk.
  intros Hn Hlt. unfold pos.
  pose proof (slot_bound n). pose proof (slot_bound m).
  pose proof (Z.div_mod n cap ltac:(lia)). pose proof (Z.div_mod m cap ltac:(lia)).
  assert (n / cap <= m / cap) by (apply Z.div_le_mono; lia).
  destruct (Z.eq_dec (n / cap) (m / cap)) as [E|]; [rewrite E in *; lia|].
  assert (n / cap + 1 <= m / cap) by lia. nia.
Qed.

Lemma pos_ltb n m : 0 <= n -> 0 <= m -> (pos n <? pos m) = (n <? m).
Proof using G.
  pose proof geo_cap as Hcap. pose proof geo_k as Hk.
  intros Hn Hm. destruct (Z.ltb_spec n m) as [|Hge].
  - apply Z.ltb_lt. now apply pos_mono.
  - apply Z.ltb_ge. destruct (Z.eq_dec n m) as [->|]; [lia|].
    pose proof (pos_mono m n Hm). lia.
Qed.

Lemma pos_eqb n m : (pos n =? pos m) = (n =? m).
Proof using G.
  pose proof geo_cap as Hcap. pose proof geo_k as Hk.
  destruct (Z.eqb_spec n m) as [->|Hne]; [apply Z.eqb_refl|].
  apply Z.eqb_neq. intros H. now apply Hne, pos_inj.
Qed.

(** Stepping [j <= cap] slots: inside the lap, or into the next one. *)
Lemma pos_step_in n j :
  0 <= j -> n mod cap + j < cap -> pos (n + j) = pos n + j.
Proof using G.
  pose proof geo_cap as Hcap. pose proof geo_k as Hk.
  intros Hj Hlt. pose proof (slot_bound n).
  assert (Hq : (n + j) / cap = n / cap).
  { symmetry. apply (Z.div_unique_pos _ cap _ (n mod cap + j)); [lia|].
    pose proof (Z.div_mod n cap ltac:(lia)). lia. }
  assert (Hm : (n + j) mod cap = n mod cap + j).
  { symmetry. apply (Z.mod_unique_pos _ cap (n / cap)); [lia|].
    pose proof (Z.div_mod n cap ltac:(lia)). lia. }
  unfold pos. rewrite Hq, Hm. lia.
Qed.

Lemma pos_step_over n j :
  j <= cap -> cap <= n mod cap + j ->
  pos (n + j) = (n / cap) * 2 ^ k + 2 ^ k + (n mod cap + j) mod cap.
Proof using G.
  pose proof geo_cap as Hcap. pose proof geo_k as Hk.
  intros Hj Hge. pose proof (slot_bound n).
  pose proof (Z.div_mod n cap ltac:(lia)) as Hdm.
  assert (Hq : (n + j) / cap = n / cap + 1).
  { symmetry. apply (Z.div_unique_pos _ cap _ (n mod cap + j - cap)); lia. }
  assert (Hm : (n + j) mod cap = (n mod cap + j) mod cap).
  { rewrite Hdm at 1.
    replace (cap * (n / cap) + n mod cap + j) with (n mod cap + j + (n / cap) * cap) by lia.
    now rewrite Z.mod_add by lia. }
  unfold pos. rewrite Hq, Hm. lia.
Qed.
End Positions.

(** Side conditions on positions: the geometry, then linear arithmetic. *)
Ltac slia := first [assumption | done | lia].

(** ** The queue as a bounded FIFO *)
Section Rep.
Context {T : Type}.
Implicit Types (q : Queue T) (xs : list T) (e : T).

(** [rep cap k q n xs closed]: [q] has capacity [cap] and lap size [2^k], [n]
    elements have been popped so far, [xs] are the elements inside, oldest
    first, and [closed] tells whether a side was dropped.  The last bound
    says the lap counter has not reached the closed bit. *)
Record rep (cap k : Z) q (n : Z) xs (closed : bool) : Prop := {
  rep_geo : geometry cap k;
  rep_blen : blen q = cap;
  rep_mask : mask_bit q = 2 ^ k;
  rep_n : 0 <= n;
  rep_head : head q = pos cap k n;
  rep_tail : tail q = pos cap k (n + zlen xs) + (if closed then 2 ^ 63 else 0);
  rep_fits : zlen xs <= cap;
  rep_laps : pos cap k (n + zlen xs) < 2 ^ 63;
  rep_slots : forall i x, xs !! i = Some x ->
    buffer q !! Z.to_nat ((n + Z.of_nat i) mod cap) = Some (Some x);
}.

Section WithRep.
Context {cap k : Z} {q : Queue T} {n : Z} {xs : list T} {closed : bool}.
Context (R : rep cap k q n xs closed).

Lemma rep_pos_bound m : 0 <= m <= n + zlen xs -> 0 <= pos cap k m < 2 ^ 63.
Proof.
  destruct R as [G _ _ Hn _ _ _ Hl _]. pose proof (geo_cap _ _ G). pose proof (geo_k _ _ G). intros Hm. split.
  - apply pos_nonneg; slia.
  - destruct (Z.eq_dec m (n + zlen xs)) as [->|]; [done|].
    pose proof (pos_mono cap k G m (n + zlen xs) ltac:(slia) ltac:(slia)). lia.
Qed.

Lemma rep_tail_bound : 0 <= pos cap k (n + zlen xs) < 2 ^ 63.
Proof.
  apply rep_pos_bound. pose proof (zlen_nonneg xs).
  destruct R as [_ _ _ Hn _ _ Hf _ _]. lia.
Qed.

Lemma rep_lap_size : 2 ^ k <= 2 ^ 62.
Proof.
  destruct R as [G _ _ _ _ _ _ _ _]. pose proof (geo_k _ _ G).
  apply Z.pow_le_mono_r; lia.
Qed.

Lemma rep_wrap : wrapping_add (head q) (mask_bit q) = pos cap k (n + cap).
Proof.
  pose proof (zlen_nonneg xs). pose proof rep_lap_size.
  pose proof R as [G _ Hm Hn Hh _ _ _ _].
  pose proof (rep_pos_bound n ltac:(lia)) as Hb.
  unfold wrapping_add. rewrite Hh, Hm, <- pos_lap by slia.
  apply Z.mod_small. rewrite pos_lap by slia. lia.
Qed.

Lemma rep_index m : 0 <= m -> Z.land (pos cap k m) (mask_bit q - 1) = m mod cap.
Proof.
  destruct R as [G _ Hm _ _ _ _ _ _]. pose proof (geo_cap _ _ G). pose proof (geo_k _ _ G). intros. rewrite Hm.
  rewrite land_mask by slia. now apply pos_mod.
Qed.

Lemma rep_advance m :
  0 <= m <= n + zlen xs -> advance q (pos cap k m) = pos cap k (m + 1).
Proof.
  intros Hm. unfold advance. rewrite rep_index by lia.
  pose proof (rep_pos_bound m Hm) as Hb. pose proof rep_lap_size.
  destruct R as [G Hbl Hmask _ _ _ _ _ _]. pose proof (geo_cap _ _ G).
  rewrite Hbl.
  destruct (Z.ltb_spec (m mod cap + 1) cap) as [Hlt|Hge].
  - symmetry. apply pos_step_in; slia.
  - pose proof (slot_bound cap k G m).
    pose proof (pos_step_over cap k G m 1 ltac:(lia) ltac:(lia)) as Hs.
    replace (m mod cap + 1) with cap in Hs by lia.
    rewrite Z.mod_same, Z.add_0_r in Hs by lia.
    pose proof (geo_k _ _ G).
    rewrite Hs, Hmask, land_not_mask, pos_div by slia.
    unfold wrapping_add. apply Z.mod_small.
    unfold pos in Hb. nia.
Qed.

(** Two of the last [cap] positions never share a slot. *)
Lemma slots_distinct i j :
  0 <= i < cap -> 0 <= j < cap -> (n + i) mod cap = (n + j) mod cap -> i = j.
Proof.
  destruct R as [G _ _ _ _ _ _ _ _]. pose proof (geo_cap _ _ G). pose proof (geo_k _ _ G). intros Hi Hj E.
  pose proof (Z.div_mod (n + i) cap ltac:(slia)).
  pose proof (Z.div_mod (n + j) cap ltac:(slia)).
  assert (cap * ((n + i) / cap - (n + j) / cap) = i - j) by slia.
  assert ((n + i) / cap - (n + j) / cap = 0) by nia. lia.
Qed.
End WithRep.

Lemma rep_new cap :
  0 < cap < 2 ^ 61 ->
  exists q, new_queue cap = Return q /\
    rep cap (Z.log2_up (cap + 1)) q 0 [] false.
Proof.
  intros Hcap. unfold new_queue.
  destruct (Z.ltb_spec 0 cap); [|lia].
  eexists. split; [reflexivity|].
  pose proof (Z.log2_up_spec (cap + 1) ltac:(slia)) as [_ Hp].
  assert (Hl : 0 <= Z.log2_up (cap + 1) <= 61).
  { split; [apply Z.log2_up_nonneg|].
    apply (Z.log2_up_le_pow2 (cap + 1) 61); lia. }
  assert (2 ^ Z.log2_up (cap + 1) <= 2 ^ 61) by (apply Z.pow_le_mono_r; lia).
  assert (Hgeo : geometry cap (Z.log2_up (cap + 1))) by (split; lia).
  assert (Hp0 : pos cap (Z.log2_up (cap + 1)) 0 = 0)
    by (unfold pos; rewrite Z.div_0_l, Z.mod_0_l; lia).
  constructor; simpl head; simpl tail; simpl mask_bit; try done; try lia.
  - unfold blen, zlen. simpl. rewrite length_replicate. lia.
  - rewrite zlen_nil. lia.
Qed.

Lemma rep_set_closed cap k q n xs closed :
  rep cap k q n xs closed -> rep cap k (set_closed q) n xs true.
Proof.
  intros R. pose proof (rep_tail_bound R) as Hb.
  destruct R as [? ? ? ? ? Ht ? ? ?].
  constructor; simpl; try done. rewrite Ht. destruct closed.
  - rewrite <- lor_closed by slia.
    now rewrite <- Z.lor_assoc, Z.lor_diag.
  - rewrite Z.add_0_r. now apply lor_closed.
Qed.

Lemma rep_push_closed cap k q n xs e :
  rep cap k q n xs true -> push q e = Return (q, Err (PushClosed e)).
Proof.
  intros R. pose proof (rep_tail_bound R) as Hb.
  unfold push, push_check. rewrite (rep_tail _ _ _ _ _ _ R), land_closed_set by slia.
  reflexivity.
Qed.

Lemma rep_push_check cap k q n xs e :
  rep cap k q n xs false ->
  push_check q (tail q) (head q) e = if zlen xs =? cap then Err (Full e) else Ok tt.
Proof.
  intros R. pose proof (rep_tail_bound R) as Hb.
  unfold push_check. rewrite (rep_wrap R).
  rewrite (rep_tail _ _ _ _ _ _ R), Z.add_0_r, land_closed by slia. simpl.
  rewrite pos_eqb by apply R.
  destruct (Z.eqb_spec (zlen xs) cap), (Z.eqb_spec (n + cap) (n + zlen xs)); done || lia.
Qed.

Lemma rep_push_full cap k q n xs e :
  rep cap k q n xs false -> zlen xs = cap -> push q e = Return (q, Err (Full e)).
Proof.
  intros R Hf. unfold push. rewrite (rep_push_check _ _ _ _ _ _ R), Hf.
  now rewrite Z.eqb_refl.
Qed.

(** The write of [push] touches no occupied slot ... *)
Lemma rep_push_write cap k q n xs closed e :
  rep cap k q n xs closed -> zlen xs < cap ->
  exists q', push_write q (pos cap k (n + zlen xs)) e = Return q' /\
    rep cap k q' n xs closed /\
    buffer q' !! Z.to_nat ((n + zlen xs) mod cap) = Some (Some e).
Proof.
  intros R Hlt. pose proof (zlen_nonneg xs) as Hz.
  pose proof R as [G Hbl Hm Hn Hh Ht Hf Hl Hs]. pose proof (geo_cap _ _ G).
  pose proof (slot_bound cap k G (n + zlen xs)) as Hsb.
  unfold push_write. rewrite (rep_index R), Hbl by lia.
  destruct (Z.ltb_spec ((n + zlen xs) mod cap) cap); [|lia].
  assert (Hlen : (Z.to_nat ((n + zlen xs) mod cap) < length (buffer q))%nat)
    by (unfold blen, zlen in *; lia).
  eexists. ssplit; [reflexivity| |simpl; now apply list_lookup_insert_eq].
  constructor; simpl; try done.
  - unfold blen, zlen. simpl. rewrite length_insert. exact Hbl.
  - intros i x Hi. pose proof (lookup_lt_Some _ _ _ Hi).
    rewrite list_lookup_insert_ne; [now apply Hs|].
    intros E. apply Z2Nat.inj in E; [|lia|apply Z.mod_pos_bound; lia].
    apply (slots_distinct R) in E; unfold zlen in *; lia.
Qed.

(** ... and the store of [tail] publishes the written slot. *)
Lemma rep_push_store cap k q n xs closed e :
  rep cap k q n xs closed -> zlen xs < cap ->
  buffer q !! Z.to_nat ((n + zlen xs) mod cap) = Some (Some e) ->
  pos cap k (n + zlen xs + 1) < 2 ^ 63 ->
  rep cap k (set_tail q (advance q (pos cap k (n + zlen xs)))) n (xs ++ [e]) false.
Proof.
  intros R Hlt Hslot Hlap. pose proof (zlen_nonneg xs) as Hz.
  pose proof R as [G Hbl Hm Hn Hh Ht Hf Hl Hs].
  rewrite (rep_advance R) by lia.
  constructor; simpl; try done.
  - rewrite zlen_app, zlen_cons, zlen_nil. rewrite Z.add_0_r. f_equal. lia.
  - rewrite zlen_app, zlen_cons, zlen_nil. lia.
  - rewrite zlen_app, zlen_cons, zlen_nil, Z.add_0_r, Z.add_assoc. done.
  - intros i x Hi. apply lookup_app_Some in Hi as [Hi|[Hge Hi]]; [now apply Hs|].
    assert (i = length xs) as ->.
    { apply lookup_lt_Some in Hi. simpl in Hi. lia. }
    rewrite Nat.sub_diag in Hi. simpl in Hi. simplify_eq. exact Hslot.
Qed.

Lemma rep_push_ok cap k q n xs e :
  rep cap k q n xs false -> zlen xs < cap ->
  pos cap k (n + zlen xs + 1) < 2 ^ 63 ->
  exists q', push q e = Return (q', Ok tt) /\ rep cap k q' n (xs ++ [e]) false.
Proof.
  intros R Hlt Hlap. unfold push. rewrite (rep_push_check _ _ _ _ _ _ R).
  destruct (Z.eqb_spec (zlen xs) cap); [lia|].
  destruct (rep_push_write _ _ _ _ _ _ e R Hlt) as (q' & Hw & R' & Hslot).
  pose proof (rep_tail _ _ _ _ _ _ R) as Ht. rewrite Z.add_0_r in Ht.
  rewrite Ht, Hw. eexists. split; [reflexivity|].
  pose proof (rep_push_store _ _ _ _ _ _ _ R' Hlt Hslot Hlap) as R''.
  rewrite (rep_advance R') in R'' by (pose proof (zlen_nonneg xs); pose proof (rep_n _ _ _ _ _ _ R); lia).
  now rewrite (rep_advance R) by (pose proof (zlen_nonneg xs); pose proof (rep_n _ _ _ _ _ _ R); lia).
Qed.

Lemma rep_pop_read cap k q n x xs closed :
  rep cap k q n (x :: xs) closed -> pop_read q (pos cap k n) = Return x.
Proof.
  intros R. pose proof R as [G Hbl Hm Hn Hh Ht Hf Hl Hs].
  unfold pop_read. rewrite (rep_index R) by lia.
  pose proof (Hs O x eq_refl) as Hs0. rewrite Z.add_0_r in Hs0. now rewrite Hs0.
Qed.

Lemma rep_pop_store cap k q n x xs closed :
  rep cap k q n (x :: xs) closed ->
  rep cap k (set_head q (advance q (pos cap k n))) (n + 1) xs closed.
Proof.
  intros R. pose proof (rep_tail_bound R) as Hb. pose proof (zlen_nonneg xs) as Hz.
  pose proof R as [G Hbl Hm Hn Hh Ht Hf Hl Hs].
  rewrite zlen_cons in *.
  rewrite (rep_advance R) by (rewrite zlen_cons; lia).
  constructor; simpl; try done; try lia.
  - rewrite Ht. f_equal. f_equal. lia.
  - replace (n + 1 + zlen xs) with (n + (1 + zlen xs)) by lia. lia.
  - intros i y Hi. specialize (Hs (S i) y Hi). rewrite <- Hs.
    replace (n + 1 + Z.of_nat i) with (n + Z.of_nat (S i)) by lia. done.
Qed.

(** The decision of [pop] on a position word, with or without closed bit. *)
Lemma pop_check_pos cap k n m (closed : bool) :
  geometry cap k -> 0 <= pos cap k m < 2 ^ 63 ->
  pop_check (pos cap k n) (pos cap k m + (if closed then 2 ^ 63 else 0)) =
  if m =? n then Err (if closed then PopClosed else Empty) else Ok tt.
Proof.
  intros G Hb. unfold pop_check. destruct closed.
  - rewrite ldiff_closed, pos_eqb, land_closed_set by slia. now destruct (m =? n).
  - rewrite Z.add_0_r, ldiff_open, pos_eqb, land_closed by slia. now destruct (m =? n).
Qed.

Lemma rep_pop_empty cap k q n closed :
  rep cap k q n [] closed ->
  pop q = Return (q, Err (if closed then PopClosed else Empty)).
Proof.
  intros R. pose proof (rep_tail_bound R) as Hb.
  pose proof R as [G Hbl Hm Hn Hh Ht Hf Hl Hs].
  unfold pop. rewrite Ht, Hh, pop_check_pos by done.
  rewrite zlen_nil, Z.add_0_r, Z.eqb_refl. reflexivity.
Qed.

Lemma rep_pop_ok cap k q n x xs closed :
  rep cap k q n (x :: xs) closed ->
  exists q', pop q = Return (q', Ok x) /\ rep cap k q' (n + 1) xs closed.
Proof.
  intros R. pose proof (rep_tail_bound R) as Hb. pose proof (zlen_nonneg xs) as Hz.
  pose proof R as [G Hbl Hm Hn Hh Ht Hf Hl Hs].
  unfold pop. rewrite Ht, Hh, pop_check_pos by done. rewrite zlen_cons.
  destruct (Z.eqb_spec (n + (1 + zlen xs)) n); [lia|].
  rewrite (rep_pop_read _ _ _ _ _ _ _ R).
  eexists. split; [reflexivity|]. exact (rep_pop_store _ _ _ _ _ _ _ R).
Qed.
End Rep.

(** ** Slices *)
Section Slices.
Context {T : Type}.
Implicit Types (q : Queue T) (xs slice : list T).

Lemma copy_range_spec (dst : list (option T)) from to (src : list T) :
  0 <= from <= to -> to <= zlen dst -> zlen src = to - from ->
  exists b, copy_range dst from to src = Return b /\ length b = length dst /\
    (forall j x, src !! j = Some x -> b !! (Z.to_nat from + j)%nat = Some (Some x)) /\
    (forall i, (i < Z.to_nat from \/ Z.to_nat to <= i)%nat -> b !! i = dst !! i).
Proof.
  intros H1 H2 H3. unfold copy_range.
  replace (_ && _ && _ && _) with true.
  2:{ symmetry. repeat (apply andb_true_intro; split);
      apply Z.leb_le || apply Z.eqb_eq; lia. }
  unfold zlen in *. eexists. split; [reflexivity|].
  assert (Ht : length (take (Z.to_nat from) dst) = Z.to_nat from)
    by (rewrite length_take; lia).
  ssplit.
  - rewrite !length_app, length_map, length_drop, Ht. lia.
  - intros j x Hj. rewrite lookup_app_r by (rewrite Ht; lia).
    rewrite Ht. replace (Z.to_nat from + j - Z.to_nat from)%nat with j by lia.
    rewrite lookup_app_l by (rewrite length_map; eapply lookup_lt_Some; exact Hj).
    change (map Some src) with (Some <$> src). now rewrite list_lookup_fmap, Hj.
  - intros i [Hi|Hi].
    + rewrite lookup_app_l by (rewrite Ht; lia). now rewrite lookup_take_lt by lia.
    + rewrite lookup_app_r by (rewrite Ht; lia).
      rewrite lookup_app_r by (rewrite Ht, length_map; lia).
      rewrite lookup_drop, Ht, length_map. f_equal. lia.
Qed.

(** What a slice write does to the slots, for a slice that fits the buffer. *)
Record slice_written (b0 b : list (option T)) (cap index : Z) slice : Prop := {
  sw_length : length b = length b0;
  sw_in : forall j x, slice !! j = Some x ->
    b !! Z.to_nat ((index + Z.of_nat j) mod cap) = Some (Some x);
  sw_out : forall i, 0 <= i < cap ->
    (forall j, 0 <= j < zlen slice -> (index + j) mod cap <> i) ->
    b !! Z.to_nat i = b0 !! Z.to_nat i;
}.

Lemma mod_small_or cap i : 0 <= i < 2 * cap -> i mod cap = if i <? cap then i else i - cap.
Proof.
  intros H. destruct (Z.ltb_spec i cap); [apply Z.mod_small; lia|].
  symmetry. apply (Z.mod_unique_pos _ cap 1); lia.
Qed.

Lemma slice_write_flat q cap index slice :
  blen q = cap -> 0 <= index < cap -> index + zlen slice <= cap ->
  exists b, slice_write q index slice = Return b /\
    slice_written (buffer q) b cap index slice.
Proof.
  intros Hbl Hi Hle. pose proof (zlen_nonneg slice). unfold slice_write. rewrite Hbl.
  destruct (Z.ltb_spec cap (index + zlen slice)); [lia|].
  destruct (copy_range_spec (buffer q) index (index + zlen slice) slice)
    as (b & Hb & Hlen & Hin & Hout); [lia|unfold blen in *; lia|lia|].
  exists b. split; [done|]. constructor; [done| |].
  - intros j x Hj. pose proof (lookup_lt_Some _ _ _ Hj) as Hlt.
    unfold zlen in *. rewrite Z.mod_small by lia.
    rewrite Z2Nat.inj_add, Nat2Z.id by lia. now apply Hin.
  - intros i Hic Hne. apply Hout.
    destruct (Z.ltb_spec i index); [lia|].
    destruct (Z.leb_spec (index + zlen slice) i); [lia|].
    exfalso. apply (Hne (i - index)); [lia|]. rewrite Z.mod_small by lia. lia.
Qed.

Lemma slice_write_wrap q cap index slice :
  blen q = cap -> 0 <= index < cap -> cap < index + zlen slice -> zlen slice <= cap ->
  exists b, slice_write q index slice = Return b /\
    slice_written (buffer q) b cap index slice.
Proof.
  intros Hbl Hi Hgt Hle. unfold slice_write. rewrite Hbl.
  destruct (Z.ltb_spec cap (index + zlen slice)); [|lia].
  set (len := cap - index).
  assert (Htake : zlen (take (Z.to_nat len) slice) = len).
  { unfold zlen in *. rewrite length_take. lia. }
  assert (Hdrop : zlen (drop (Z.to_nat len) slice) = zlen slice - len).
  { unfold zlen in *. rewrite length_drop. lia. }
  destruct (copy_range_spec (buffer q) index cap (take (Z.to_nat len) slice))
    as (b1 & Hb1 & Hlen1 & Hin1 & Hout1); [lia|unfold blen in *; lia|lia|].
  rewrite Hb1.
  destruct (copy_range_spec b1 0 (zlen slice - len) (drop (Z.to_nat len) slice))
    as (b & Hb & Hlen & Hin & Hout); [lia|unfold blen, zlen in *; lia|lia|].
  exists b. split; [done|]. constructor; [congruence| |].
  - intros j x Hj. pose proof (lookup_lt_Some _ _ _ Hj) as Hlt.
    unfold zlen in *. rewrite mod_small_or by lia.
    destruct (Z.ltb_spec (index + Z.of_nat j) cap).
    + rewrite Hout by lia. rewrite Z2Nat.inj_add, Nat2Z.id by lia.
      apply Hin1. now rewrite lookup_take_lt by lia.
    + replace (Z.to_nat (index + Z.of_nat j - cap))
        with (Z.to_nat 0 + (j - Z.to_nat len))%nat by lia.
      apply Hin. rewrite lookup_drop, <- Hj. f_equal. lia.
  - intros i Hic Hne.
    destruct (Z.ltb_spec i index) as [Hlt|Hge].
    + destruct (Z.ltb_spec i (zlen slice - len)) as [Hlt'|].
      * exfalso. apply (Hne (i + len)); [lia|].
        rewrite mod_small_or by lia.
        destruct (Z.ltb_spec (index + (i + len)) cap); lia.
      * rewrite Hout by lia. apply Hout1. lia.
    + exfalso. apply (Hne (i - index)); [lia|].
      replace (index + (i - index)) with i by lia. apply Z.mod_small. lia.
Qed.

Lemma slice_write_ok q cap index slice :
  blen q = cap -> 0 <= index < cap -> zlen slice <= cap ->
  exists b, slice_write q index slice = Return b /\
    slice_written (buffer q) b cap index slice.
Proof.
  intros. destruct (Z.le_gt_cases (index + zlen slice) cap).
  - now apply slice_write_flat.
  - apply slice_write_wrap; [done|done|lia|done].
Qed.

Lemma rep_slice_next_tail cap k q n xs closed j :
  rep cap k q n xs closed -> 0 <= j <= cap ->
  slice_next_tail q (pos cap k (n + zlen xs)) j = pos cap k (n + zlen xs + j).
Proof.
  intros R Hj. pose proof (rep_tail_bound R) as Hb. pose proof (zlen_nonneg xs).
  pose proof (rep_lap_size R).
  pose proof R as [G Hbl Hm Hn Hh Ht Hf Hl Hs].
  pose proof (geo_cap _ _ G). pose proof (geo_k _ _ G).
  pose proof (slot_bound cap k G (n + zlen xs)).
  unfold slice_next_tail. rewrite (rep_index R), Hbl by lia.
  destruct (Z.ltb_spec ((n + zlen xs) mod cap + j) cap).
  - symmetry. apply pos_step_in; slia.
  - rewrite (pos_step_over cap k G (n + zlen xs) j) by lia.
    rewrite Hm, land_not_mask, pos_div by slia.
    pose proof (slot_bound cap k G ((n + zlen xs) mod cap + j)).
    unfold wrapping_add. unfold pos in Hb.
    assert (0 <= (n + zlen xs) / cap * 2 ^ k).
    { apply Z.mul_nonneg_nonneg; [apply Z.div_pos; lia|lia]. }
    rewrite (Z.mod_small (_ + 2 ^ k)) by lia. apply Z.mod_small. lia.
Qed.

Lemma rep_push_slice cap k q n xs slice :
  rep cap k q n xs false -> zlen slice <= cap ->
  pos cap k (n + zlen xs + zlen slice) < 2 ^ 63 ->
  if zlen xs + zlen slice <=? cap
  then exists q', push_slice q slice = Return (q', Ok tt) /\
         rep cap k q' n (xs ++ slice) false
  else push_slice q slice = Return (q, Err (Full tt)).
Proof.
  intros R Hsl Hlap. pose proof (rep_tail_bound R) as Hb.
  pose proof (zlen_nonneg xs). pose proof (zlen_nonneg slice).
  pose proof R as [G Hbl Hm Hn Hh Ht Hf Hl Hs].
  pose proof (geo_cap _ _ G). pose proof (geo_k _ _ G).
  assert (Hpush : push_slice q slice =
    if wrapping_add (head q) (mask_bit q) <? pos cap k (n + zlen xs + zlen slice)
    then Return (q, Err (Full tt))
    else match slice_write q ((n + zlen xs) mod cap) slice with
         | Return b =>
             Return (set_tail (set_buffer q b) (pos cap k (n + zlen xs + zlen slice)), Ok tt)
         | Panic => Panic | Uninit => Uninit
         end).
  { unfold push_slice, slice_check. rewrite Ht, Z.add_0_r.
    rewrite (rep_slice_next_tail _ _ _ _ _ _ _ R) by lia.
    rewrite land_closed, (rep_index R) by slia. simpl.
    by destruct (_ <? _). }
  rewrite Hpush, (rep_wrap R), pos_ltb by slia.
  destruct (Z.leb_spec (zlen xs + zlen slice) cap) as [Hle|Hgt].
  - destruct (Z.ltb_spec (n + cap) (n + zlen xs + zlen slice)); [lia|].
    destruct (slice_write_ok q cap ((n + zlen xs) mod cap) slice Hbl)
      as (b & Hw & [Hwl Hwi Hwo]); [apply (slot_bound cap k G)|done|].
    rewrite Hw. eexists. split; [reflexivity|].
    assert (Hidx : forall j, ((n + zlen xs) mod cap + j) mod cap = (n + zlen xs + j) mod cap).
    { intros j. now rewrite Z.add_mod_idemp_l by lia. }
    constructor; simpl; try done.
    + unfold blen, zlen. simpl. rewrite Hwl. exact Hbl.
    + rewrite zlen_app. rewrite Z.add_0_r. f_equal. lia.
    + rewrite zlen_app. lia.
    + rewrite zlen_app, Z.add_assoc. done.
    + intros i x Hi. destruct (decide (i < length xs)%nat) as [Hlt|Hge].
      * rewrite lookup_app_l in Hi by done.
        rewrite Hwo; [now apply Hs| |].
        -- apply (slot_bound cap k G).
        -- intros j Hj E. rewrite Hidx, <- Z.add_assoc in E.
           apply (slots_distinct R) in E; unfold zlen in *; lia.
      * rewrite lookup_app_r in Hi by lia. apply Hwi in Hi.
        rewrite Hidx in Hi. rewrite <- Hi. unfold zlen. do 3 f_equal. lia.
  - destruct (Z.ltb_spec (n + cap) (n + zlen xs + zlen slice)); [done|lia].
Qed.

(** [len] of the words of two positions [d <= cap] apart is [d], unless they
    are a whole lap apart and the closed bit is set. *)
Lemma len_of_pos cap k q n d (closed : bool) :
  geometry cap k -> blen q = cap -> mask_bit q = 2 ^ k -> 0 <= n -> 0 <= d <= cap ->
  pos cap k (n + d) < 2 ^ 63 -> (closed = true -> d < cap) ->
  len_of q (pos cap k (n + d) + (if closed then 2 ^ 63 else 0)) (pos cap k n) = d.
Proof.
  intros G Hbl Hm Hn Hd Hl Hcl.
  pose proof (geo_cap _ _ G). pose proof (geo_k _ _ G).
  pose proof (pos_nonneg cap k G n Hn). pose proof (pos_nonneg cap k G (n + d) ltac:(lia)).
  assert (2 ^ k <= 2 ^ 62) by (apply Z.pow_le_mono_r; lia).
  pose proof (pos_lap cap k G n) as Hlap.
  assert (Hge : pos cap k n <= pos cap k (n + d)).
  { destruct (Z.eq_dec d 0) as [->|]; [rewrite Z.add_0_r; lia|].
    apply Z.lt_le_incl, (pos_mono cap k G); lia. }
  unfold len_of, wrapping_sub. rewrite Hm, Hbl.
  rewrite !land_mask, (pos_mod cap k G n) by lia.
  assert (Hmask : (pos cap k (n + d) + (if closed then 2 ^ 63 else 0)) mod 2 ^ k
                  = (n + d) mod cap).
  { destruct closed.
    - replace (2 ^ 63) with (2 ^ (63 - k) * 2 ^ k)
        by (rewrite <- Z.pow_add_r by lia; f_equal; lia).
      rewrite Z.mod_add by lia. now apply pos_mod.
    - rewrite Z.add_0_r. now apply pos_mod. }
  rewrite Hmask.
  assert (Heq : ((pos cap k (n + d) + (if closed then 2 ^ 63 else 0) - 2 ^ k) mod 2 ^ 64
                 =? pos cap k n) = (d =? cap)).
  { destruct (Z.eqb_spec d cap) as [E|Hne].
    - destruct closed; [specialize (Hcl eq_refl); lia|].
      rewrite E, Hlap, Z.add_0_r. apply Z.eqb_eq.
      replace (pos cap k n + 2 ^ k - 2 ^ k) with (pos cap k n) by lia.
      apply Z.mod_small. lia.
    - assert (Hlt : pos cap k (n + d) < pos cap k n + 2 ^ k).
      { rewrite <- Hlap. apply (pos_mono cap k G); lia. }
      apply Z.eqb_neq. intros E.
      set (e := pos cap k (n + d) + (if closed then 2 ^ 63 else 0) - 2 ^ k) in *.
      assert (He : e < 2 ^ 64 /\ - 2 ^ 62 <= e) by (unfold e; destruct closed; lia).
      destruct (Z.ltb_spec e 0).
      + rewrite <- (Z.mod_add e 1), Z.mod_small in E by lia.
        unfold e in *. destruct closed; lia.
      + rewrite Z.mod_small in E by lia. unfold e in *. destruct closed; lia. }
  rewrite Heq. destruct (Z.eqb_spec d cap); [lia|].
  pose proof (slot_bound cap k G n).
  assert (Hmm : (n + d) mod cap = (n mod cap + d) mod cap)
    by (now rewrite Z.add_mod_idemp_l by lia).
  rewrite Hmm, mod_small_or by lia.
  destruct (Z.ltb_spec (n mod cap + d) cap);
    destruct (Z.ltb_spec (n mod cap + d) (n mod cap));
    try destruct (Z.ltb_spec (n mod cap + d - cap) (n mod cap)); lia.
Qed.

(** [len] is exact on a queue that is open or not full ... *)
Lemma rep_len cap k q n xs closed :
  rep cap k q n xs closed -> (closed = true -> zlen xs < cap) ->
  queue_len q = zlen xs.
Proof.
  intros R Hcl. pose proof (zlen_nonneg xs).
  pose proof R as [G Hbl Hm Hn Hh Ht Hf Hl Hs].
  unfold queue_len. rewrite Ht, Hh. apply (len_of_pos cap k); done || lia.
Qed.

(** ... and zero on a full queue once a side has been dropped. *)
Lemma len_of_closed_full cap k q n :
  geometry cap k -> mask_bit q = 2 ^ k -> 0 <= n -> pos cap k (n + cap) < 2 ^ 63 ->
  len_of q (pos cap k (n + cap) + 2 ^ 63) (pos cap k n) = 0.
Proof.
  intros G Hm Hn Hl. pose proof (geo_cap _ _ G). pose proof (geo_k _ _ G).
  pose proof (pos_nonneg cap k G n Hn). pose proof (pos_lap cap k G n) as Hlap.
  unfold len_of, wrapping_sub. rewrite Hm, Hlap in *.
  replace (pos cap k n + 2 ^ k + 2 ^ 63 - 2 ^ k) with (pos cap k n + 2 ^ 63) by lia.
  rewrite Z.mod_small by lia.
  destruct (Z.eqb_spec (pos cap k n + 2 ^ 63) (pos cap k n)); [lia|].
  rewrite !land_mask by lia.
  replace (pos cap k n + 2 ^ k + 2 ^ 63) with (pos cap k n + (1 + 2 ^ (63 - k)) * 2 ^ k).
  2:{ rewrite Z.mul_add_distr_r, <- Z.pow_add_r by lia.
      replace (63 - k + k) with 63 by lia. lia. }
  rewrite Z.mod_add by lia. rewrite Z.ltb_irrefl. lia.
Qed.

Lemma rep_len_closed_full cap k q n xs :
  rep cap k q n xs true -> zlen xs = cap -> queue_len q = 0.
Proof.
  intros R Hfull. pose proof R as [G Hbl Hm Hn Hh Ht Hf Hl Hs].
  unfold queue_len. rewrite Ht, Hh, Hfull in *. by apply len_of_closed_full.
Qed.

(** Dropping the queue pops everything that is left, oldest first. *)
Lemma rep_drop cap k : forall xs q n closed acc fuel,
  rep cap k q n xs closed -> (length xs < fuel)%nat ->
  exists q', drop_queue fuel q acc = Return (q', acc ++ xs) /\
    rep cap k q' (n + zlen xs) [] closed.
Proof.
  induction xs as [|x xs IH]; intros q n closed acc fuel R Hf.
  - destruct fuel; [simpl in Hf; lia|]. simpl.
    rewrite (rep_pop_empty _ _ _ _ _ R). rewrite zlen_nil, app_nil_r, Z.add_0_r. eauto.
  - destruct fuel; [simpl in Hf; lia|]. simpl.
    destruct (rep_pop_ok _ _ _ _ _ _ _ R) as (q' & Hp & R'). rewrite Hp.
    destruct (IH q' (n + 1) closed (acc ++ [x]) fuel R' ltac:(simpl in Hf; lia))
      as (q'' & Hd & R'').
    exists q''. rewrite Hd, <- app_assoc. split; [done|].
    rewrite zlen_cons. now rewrite Z.add_assoc.
Qed.
End Slices.

(** ** Refinement of a bounded FIFO

    [fifo] is what the queue promises its clients: a list with a capacity and
    a closed flag.  [op] are the calls a client makes, [fifo_step] what they
    should answer, [queue_step] what the code answers. *)
Record fifo (T : Type) : Type := mkFifo {
  f_cap : Z;
  f_items : list T;
  f_closed : bool;
}.
Arguments mkFifo {T} _ _ _.
Arguments f_cap {T} _.
Arguments f_items {T} _.
Arguments f_closed {T} _.

Inductive op (T : Type) : Type :=
| OpPush (e : T)
| OpPushSlice (l : list T)
| OpPop
| OpClose.
Arguments OpPush {T} e.
Arguments OpPushSlice {T} l.
Arguments OpPop {T}.
Arguments OpClose {T}.

Inductive answer (T : Type) : Type :=
| APush (r : result (PushError T) unit)
| APushSlice (r : result (PushError unit) unit)
| APop (r : result PopError T)
| AClose.
Arguments APush {T} r.
Arguments APushSlice {T} r.
Arguments APop {T} r.
Arguments AClose {T}.

Section Refinement.
Context {T : Type}.

Definition op_size (o : op T) : Z :=
  match o with OpPush _ => 1 | OpPushSlice l => zlen l | _ => 0 end.

Definition fifo_step (f : fifo T) (o : op T) : fifo T * answer T :=
  match o with
  | OpPush e =>
      if f_closed f then (f, APush (Err (PushClosed e)))
      else if zlen (f_items f) =? f_cap f then (f, APush (Err (Full e)))
      else (mkFifo (f_cap f) (f_items f ++ [e]) false, APush (Ok tt))
  | OpPushSlice l =>
      if f_closed f then (f, APushSlice (Err (PushClosed tt)))
      else if zlen (f_items f) + zlen l <=? f_cap f
      then (mkFifo (f_cap f) (f_items f ++ l) false, APushSlice (Ok tt))
      else (f, APushSlice (Err (Full tt)))
  | OpPop =>
      match f_items f with
      | [] => (f, APop (Err (if f_closed f then PopClosed else Empty)))
      | x :: xs => (mkFifo (f_cap f) xs (f_closed f), APop (Ok x))
      end
  | OpClose => (mkFifo (f_cap f) (f_items f) true, AClose)
  end.

Definition queue_step (q : Queue T) (o : op T) : outcome (Queue T * answer T) :=
  match o with
  | OpPush e =>
      match push q e with
      | Return (q', r) => Return (q', APush r) | Panic => Panic | Uninit => Uninit
      end
  | OpPushSlice l =>
      match push_slice q l with
      | Return (q', r) => Return (q', APushSlice r) | Panic => Panic | Uninit => Uninit
      end
  | OpPop =>
      match pop q with
      | Return (q', r) => Return (q', APop r) | Panic => Panic | Uninit => Uninit
      end
  | OpClose => Return (set_closed q, AClose)
  end.

Fixpoint fifo_run (f : fifo T) (ops : list (op T)) : list (answer T) :=
  match ops with
  | [] => []
  | o :: ops => let (f', a) := fifo_step f o in a :: fifo_run f' ops
  end.

Fixpoint queue_run (q : Queue T) (ops : list (op T)) : outcome (list (answer T)) :=
  match ops with
  | [] => Return []
  | o :: ops =>
      match queue_step q o with
      | Return (q', a) =>
          match queue_run q' ops with
          | Return l => Return (a :: l) | Panic => Panic | Uninit => Uninit
          end
      | Panic => Panic
      | Uninit => Uninit
      end
  end.

Definition ops_size (ops : list (op T)) : Z := foldr (fun o n => op_size o + n) 0 ops.

Lemma op_size_nonneg o : 0 <= op_size o.
Proof. destruct o; simpl; try lia. apply zlen_nonneg. Qed.

Lemma ops_size_nonneg ops : 0 <= ops_size ops.
Proof. induction ops as [|o ops IH]; simpl; [lia|]. pose proof (op_size_nonneg o). lia. Qed.

(** One call: the code gives the specified answer and stays related, and the
    total of elements ever stored grows by at most the size of the call. *)
Lemma step_refines cap k q n f o :
  rep cap k q n (f_items f) (f_closed f) -> f_cap f = cap -> op_size o <= cap ->
  pos cap k (n + zlen (f_items f) + op_size o) < 2 ^ 63 ->
  exists q' n', queue_step q o = Return (q', snd (fifo_step f o)) /\
    rep cap k q' n' (f_items (fst (fifo_step f o))) (f_closed (fst (fifo_step f o))) /\
    f_cap (fst (fifo_step f o)) = cap /\
    0 <= n' + zlen (f_items (fst (fifo_step f o))) <=
      n + zlen (f_items f) + op_size o.
Proof.
  destruct f as [c xs closed]. simpl f_items. simpl f_closed. simpl f_cap.
  intros R -> Hsz Hlap. pose proof (zlen_nonneg xs). pose proof (rep_n _ _ _ _ _ _ R).
  destruct o as [e|l| |]; simpl.
  - destruct closed; simpl.
    { rewrite (rep_push_closed _ _ _ _ _ _ R). exists q, n. ssplit; done || lia. }
    destruct (Z.eqb_spec (zlen xs) cap) as [E|Hne]; simpl.
    + rewrite (rep_push_full _ _ _ _ _ _ R E). exists q, n. ssplit; done || lia.
    + pose proof (rep_fits _ _ _ _ _ _ R).
      destruct (rep_push_ok _ _ _ _ _ e R ltac:(lia) Hlap) as (q' & -> & R').
      exists q', n. assert (zlen (xs ++ [e]) = zlen xs + 1) by (rewrite zlen_app, zlen_cons, zlen_nil; lia). ssplit; done || lia.
  - destruct closed; simpl.
    { unfold push_slice, slice_check.
      rewrite (rep_tail _ _ _ _ _ _ R), land_closed_set by exact (rep_tail_bound R).
      exists q, n. pose proof (zlen_nonneg l). ssplit; done || lia. }
    pose proof (rep_push_slice _ _ _ _ _ l R Hsz Hlap) as Hp. pose proof (zlen_nonneg l).
    destruct (Z.leb_spec (zlen xs + zlen l) cap); simpl.
    + destruct Hp as (q' & -> & R'). exists q', n. rewrite zlen_app. ssplit; done || lia.
    + rewrite Hp. exists q, n. ssplit; done || lia.
  - destruct xs as [|x xs]; simpl.
    + rewrite (rep_pop_empty _ _ _ _ _ R). exists q, n. ssplit; done || lia.
    + destruct (rep_pop_ok _ _ _ _ _ _ _ R) as (q' & -> & R').
      rewrite zlen_cons in *. exists q', (n + 1). pose proof (zlen_nonneg xs). ssplit; done || lia.
  - exists (set_closed q), n. ssplit; [done|exact (rep_set_closed _ _ _ _ _ _ R)|done|lia|lia].
Qed.

Lemma run_refines cap k : forall ops q n f,
  rep cap k q n (f_items f) (f_closed f) -> f_cap f = cap ->
  Forall (fun o => op_size o <= cap) ops ->
  pos cap k (n + zlen (f_items f) + ops_size ops) < 2 ^ 63 ->
  queue_run q ops = Return (fifo_run f ops).
Proof.
  induction ops as [|o ops IH]; intros q n f R Hc Hops Hlap; [done|].
  inversion Hops as [|? ? Ho Hops']; subst. simpl in Hlap.
  pose proof (zlen_nonneg (f_items f)). pose proof (rep_n _ _ _ _ _ _ R).
  pose proof (op_size_nonneg o). pose proof (ops_size_nonneg ops).
  assert (Hle : forall a b, 0 <= a <= b -> pos (f_cap f) k b < 2 ^ 63 -> pos (f_cap f) k a < 2 ^ 63).
  { intros a b Hab Hb. destruct (Z.eq_dec a b) as [->|]; [done|].
    pose proof (pos_mono _ _ (rep_geo _ _ _ _ _ _ R) a b). lia. }
  destruct (step_refines _ _ _ _ f o R eq_refl Ho) as (q' & n' & Hq & R' & Hc' & Hn').
  { eapply Hle; [|exact Hlap]. lia. }
  simpl. rewrite Hq. destruct (fifo_step f o) as [f' a]. simpl in *.
  erewrite IH; [done|exact R'|done|done|]. eapply Hle; [|exact Hlap]. lia.
Qed.
End Refinement.

Lemma geometry_new cap : 0 < cap < 2 ^ 61 -> 2 ^ Z.log2_up (cap + 1) <= 2 * cap.
Proof.
  intros Hcap.
  assert (Hs : Z.log2_up (cap + 1) = Z.succ (Z.log2 cap)).
  { rewrite Z.log2_up_eqn by lia. do 2 f_equal. lia. }
  rewrite Hs, Z.pow_succ_r by apply Z.log2_nonneg.
  pose proof (Z.log2_spec cap ltac:(lia)). lia.
Qed.

(** Sixty-one bits of pushes stay clear of the closed bit. *)
Lemma laps_enough cap total :
  0 < cap < 2 ^ 61 -> 0 <= total < 2 ^ 61 -> pos cap (Z.log2_up (cap + 1)) total < 2 ^ 63.
Proof.
  intros Hcap Ht. pose proof (geometry_new cap Hcap) as Hg. unfold pos.
  pose proof (Z.mod_pos_bound total cap ltac:(lia)).
  pose proof (Z.div_mod total cap ltac:(lia)).
  assert (0 <= total / cap) by (apply Z.div_pos; lia).
  assert (total / cap * 2 ^ Z.log2_up (cap + 1) <= total / cap * (2 * cap)) by nia.
  nia.
Qed.

(** (C6) A queue made by [Queue::new_queue] refines the bounded FIFO: any
    sequence of [push], [push_slice] (of slices no longer than the capacity),
    [pop] and [set_closed] calls neither panics nor reads an unwritten slot, and
    answers each call exactly as the FIFO list does - elements come out in the
    order they went in, [Full] and [Empty] exactly when the list is full or
    empty, [Closed] once a side is dropped - as long as fewer than 2^61
    elements are pushed in total (the lap counter then stays below the closed
    bit). *)
Theorem queue_refines_fifo {T} (cap : Z) (ops : list (op T)) :
  0 < cap < 2 ^ 61 ->
  Forall (fun o => op_size o <= cap) ops ->
  ops_size ops < 2 ^ 61 ->
  exists q, new_queue cap = Return q /\
    queue_run q ops = Return (fifo_run (mkFifo cap [] false) ops).
Proof.
  intros Hcap Hops Hsz. destruct (@rep_new T cap Hcap) as (q & Hq & R).
  exists q. split; [done|].
  eapply run_refines; [exact R|done|done|].
  simpl. change (zlen []) with 0. apply laps_enough; [done|].
  pose proof (ops_size_nonneg ops). lia.
Qed.

Example queue_refines_fifo_witness :
  exists q, new_queue 2 = Return q /\
    queue_run q [OpPush 1; OpPushSlice [2]; OpPush 3; OpPop; OpClose; OpPop; OpPop] =
    Return (fifo_run (mkFifo 2 [] false)
      [OpPush 1; OpPushSlice [2]; OpPush 3; OpPop; OpClose; OpPop; OpPop]).
Proof.
  apply (queue_refines_fifo 2 [OpPush 1; OpPushSlice [2]; OpPush 3; OpPop; OpClose; OpPop; OpPop]).
  - lia.
  - repeat constructor; vm_compute; discriminate.
  - vm_compute. reflexivity.
Defined.

(** [len] and [available] count the elements inside exactly, on every
    queue that is open, or closed but not full. *)
Theorem queue_len_exact {T} cap k (q : Queue T) n xs closed :
  rep cap k q n xs closed ->
  (closed = true -> zlen xs < cap) ->
  queue_len q = zlen xs /\ available q = cap - zlen xs /\
  (is_empty q = true <-> xs = []).
Proof.
  intros R Hcl. pose proof (rep_len _ _ _ _ _ _ R Hcl) as Hlen.
  unfold available, is_empty. rewrite Hlen, (rep_blen _ _ _ _ _ _ R).
  ssplit; [done|done|]. rewrite Z.eqb_eq.
  destruct xs; [done|]. rewrite zlen_cons. pose proof (zlen_nonneg xs).
  split; [lia|discriminate].
Qed.

Example queue_len_exact_witness :
  exists q : Queue Z, queue_len q = 0 /\ available q = 3 - 0 /\ (is_empty q = true <-> @nil Z = []).
Proof.
  destruct (@rep_new Z 3 ltac:(lia)) as (q & _ & R). exists q.
  apply (queue_len_exact 3 _ q 0 [] false R). discriminate.
Defined.

(** On a full queue whose other side has been dropped, [len] answers 0 and
    [available] the whole capacity, although [cap] elements are still inside:
    the test [tail.wrapping_sub(mask_bit) == head] compares a tail that carries
    the closed bit. *)
Theorem queue_len_closed_full {T} cap k (q : Queue T) n xs :
  rep cap k q n xs false -> zlen xs = cap ->
  queue_len q = cap /\ queue_len (set_closed q) = 0 /\ available (set_closed q) = cap.
Proof.
  intros R Hf. pose proof (rep_set_closed _ _ _ _ _ _ R) as R'.
  pose proof (rep_len_closed_full _ _ _ _ _ R' Hf) as H0.
  unfold available. rewrite H0, (rep_blen _ _ _ _ _ _ R').
  ssplit; [|done|lia]. rewrite <- Hf. eapply rep_len; [exact R|discriminate].
Qed.

Example queue_len_closed_full_witness :
  exists q : Queue Z, queue_len q = 1 /\ queue_len (set_closed q) = 0 /\
    available (set_closed q) = 1.
Proof.
  destruct (@rep_new Z 1 ltac:(lia)) as (q & _ & R).
  destruct (rep_push_ok _ _ _ _ _ 7 R ltac:(rewrite zlen_nil; lia)
              ltac:(vm_compute; reflexivity)) as (q' & _ & R').
  exists q'. apply (queue_len_closed_full 1 _ q' 0 [7] R'). reflexivity.
Defined.

(** The capacity test of [push_slice] computes the new tail modulo the
    capacity, so it accepts a slice twice as long as an empty queue's capacity:
    the call answers [Ok] and the first half of the slice is lost. *)
Theorem push_slice_overlong_loses (a b : Z) :
  exists q q' : Queue Z, new_queue 1 = Return q /\
    push_slice q [a; b] = Return (q', Ok tt) /\
    match pop q' with
    | Return (q'', r) => r = Ok b /\ pop q'' = Return (q'', Err Empty)
    | _ => False
    end.
Proof.
  eexists. eexists. ssplit; [reflexivity|reflexivity|]. vm_compute. done.
Qed.

(** Dropping the queue terminates and drops exactly the elements that were
    inside, oldest first. *)
Theorem drop_queue_drains {T} cap k (q : Queue T) n xs closed :
  rep cap k q n xs closed ->
  exists q', drop_queue (S (length xs)) q [] = Return (q', xs) /\
    rep cap k q' (n + zlen xs) [] closed.
Proof.
  intros R. apply (rep_drop cap k xs q n closed [] _ R). lia.
Qed.

Example drop_queue_drains_witness :
  exists q q' : Queue Z, drop_queue 1 q [] = Return (q', []) /\
    rep 3 (Z.log2_up 4) q' (0 + zlen (@nil Z)) [] false.
Proof.
  destruct (@rep_new Z 3 ltac:(lia)) as (q & _ & R). exists q.
  apply (drop_queue_drains 3 _ q 0 [] false R).
Defined.
