(* ===== verification/SpscThreads.v ===== *)
(** * Producer and consumer threads over the ring buffer

    [tezos/spsc/src/lib.rs] lets one producer thread call [push], [push_slice]
    and [len] while one consumer thread calls [pop] and [len], and either side
    drops its handle at any time.  Here each call is cut at its atomic accesses
    - load [tail], load [head], write the slot, store [tail], and the mirror
    image for [pop] - and the two threads' steps interleave arbitrarily; the
    copy of [push_slice] is cut further, one slot at a time.  Each access acts
    on one shared queue (sequentially consistent accesses; the weaker orderings
    the code passes to the hardware are not modelled).  [produced] and
    [consumed] are the histories of the completed calls, and [longest] the
    length of the longest slice any [push_slice] was called with. *)

From Stdlib Require Import ZArith Lia.
From stdpp Require Import base option list numbers.
From S2P Require Import Prelude Spsc.

Section Threads.
Context {T : Type}.

(** Where the producer is in [push], in [push_slice] (of [PSCopy l t i] the
    first [i] elements of [l] are copied) or in [len]. *)
Inductive ppc : Type :=
| PIdle
| PGotTail (e : T) (t : Z)
| PGotHead (e : T) (t h : Z)
| PWrote (e : T) (t : Z)
| PSGotTail (l : list T) (t : Z)
| PSGotHead (l : list T) (t h : Z)
| PSCopy (l : list T) (t next_tail : Z) (i : nat)
| PLenTail (t : Z)
| PLenAnswer (t v : Z).

(** Where the consumer is in [pop] or in [len]. *)
Inductive cpc : Type :=
| CIdle
| CGotHead (h : Z)
| CGotTail (h t : Z)
| CRead (h : Z) (v : T)
| CLenTail (t : Z)
| CLenAnswer (v : Z).

Record sys : Type := mkSys {
  queue : Queue T;
  producer : ppc;
  consumer : cpc;
  produced : list T;
  consumed : list T;
  longest : Z;
}.

Definition start (q : Queue T) : sys := mkSys q PIdle CIdle [] [] 0.

(** The slot the [i]-th element of a slice goes to: one range of the buffer,
    or the rest of the buffer and then its start; [None] where the second
    range is not inside the buffer and slicing it panics. *)
Definition slice_slot (q : Queue T) (index : Z) (slice : list T) (i : nat) : option Z :=
  let buffer_length := blen q in
  let slice_length := zlen slice in
  if buffer_length <? index + slice_length then
    let length := buffer_length - index in
    if Z.of_nat i <? length then Some (index + Z.of_nat i)
    else if slice_length - length <=? buffer_length then Some (Z.of_nat i - length)
    else None
  else Some (index + Z.of_nat i).

Inductive step : sys -> sys -> Prop :=
| p_load_tail q c P C L e :
    step (mkSys q PIdle c P C L) (mkSys q (PGotTail e (tail q)) c P C L)
| p_load_head q c P C L e t :
    step (mkSys q (PGotTail e t) c P C L) (mkSys q (PGotHead e t (head q)) c P C L)
| p_refuse q c P C L e t h err :
    push_check q t h e = Err err ->
    step (mkSys q (PGotHead e t h) c P C L) (mkSys q PIdle c P C L)
| p_write q q' c P C L e t h :
    push_check q t h e = Ok tt ->
    push_write q t e = Return q' ->
    step (mkSys q (PGotHead e t h) c P C L) (mkSys q' (PWrote e t) c P C L)
| p_store q c P C L e t :
    step (mkSys q (PWrote e t) c P C L)
         (mkSys (set_tail q (advance q t)) PIdle c (P ++ [e]) C L)
| ps_load_tail q c P C L l :
    step (mkSys q PIdle c P C L)
         (mkSys q (PSGotTail l (tail q)) c P C (Z.max L (zlen l)))
| ps_load_head q c P C L l t :
    step (mkSys q (PSGotTail l t) c P C L) (mkSys q (PSGotHead l t (head q)) c P C L)
| ps_refuse q c P C L l t h err :
    slice_check q t h l = Err err ->
    step (mkSys q (PSGotHead l t h) c P C L) (mkSys q PIdle c P C L)
| ps_accept q c P C L l t h next_tail :
    slice_check q t h l = Ok next_tail ->
    step (mkSys q (PSGotHead l t h) c P C L) (mkSys q (PSCopy l t next_tail 0) c P C L)
| ps_copy q c P C L l t next_tail i x j :
    l !! i = Some x ->
    slice_slot q (Z.land t (mask_bit q - 1)) l i = Some j ->
    step (mkSys q (PSCopy l t next_tail i) c P C L)
         (mkSys (set_buffer q (<[Z.to_nat j := Some x]> (buffer q)))
                (PSCopy l t next_tail (S i)) c P C L)
| ps_store q c P C L l t next_tail :
    step (mkSys q (PSCopy l t next_tail (length l)) c P C L)
         (mkSys (set_tail q next_tail) PIdle c (P ++ l) C L)
| p_len_tail q c P C L :
    step (mkSys q PIdle c P C L) (mkSys q (PLenTail (tail q)) c P C L)
| p_len_head q c P C L t :
    step (mkSys q (PLenTail t) c P C L)
         (mkSys q (PLenAnswer t (len_of q t (head q))) c P C L)
| p_len_return q c P C L t v :
    step (mkSys q (PLenAnswer t v) c P C L) (mkSys q PIdle c P C L)
| c_load_head q p P C L :
    step (mkSys q p CIdle P C L) (mkSys q p (CGotHead (head q)) P C L)
| c_load_tail q p P C L h :
    step (mkSys q p (CGotHead h) P C L) (mkSys q p (CGotTail h (tail q)) P C L)
| c_refuse q p P C L h t err :
    pop_check h t = Err err ->
    step (mkSys q p (CGotTail h t) P C L) (mkSys q p CIdle P C L)
| c_read q p P C L h t v :
    pop_check h t = Ok tt ->
    pop_read q h = Return v ->
    step (mkSys q p (CGotTail h t) P C L) (mkSys q p (CRead h v) P C L)
| c_store q p P C L h v :
    step (mkSys q p (CRead h v) P C L)
         (mkSys (set_head q (advance q h)) p CIdle P (C ++ [v]) L)
| c_len_tail q p P C L :
    step (mkSys q p CIdle P C L) (mkSys q p (CLenTail (tail q)) P C L)
| c_len_head q p P C L t :
    step (mkSys q p (CLenTail t) P C L)
         (mkSys q p (CLenAnswer (len_of q t (head q))) P C L)
| c_len_return q p P C L v :
    step (mkSys q p (CLenAnswer v) P C L) (mkSys q p CIdle P C L)
| p_drop q c P C L :
    step (mkSys q PIdle c P C L) (mkSys (set_closed q) PIdle c P C L)
| c_drop q p P C L :
    step (mkSys q p CIdle P C L) (mkSys (set_closed q) p CIdle P C L).

Inductive reachable (s0 : sys) : sys -> Prop :=
| reach_refl : reachable s0 s0
| reach_step s s' : reachable s0 s -> step s s' -> reachable s0 s'.

Lemma reach_front s0 s1 s2 : step s0 s1 -> reachable s1 s2 -> reachable s0 s2.
Proof.
  intros Hs. induction 1 as [|s s' _ IH Hss].
  - eapply reach_step; [apply reach_refl|exact Hs].
  - eapply reach_step; [exact IH|exact Hss].
Qed.

(** ** The invariant *)
Section Invariant.
Context (cap k : Z).
Implicit Types (q : Queue T) (xs : list T) (e : T).

(** A tail word: the position of the [m]-th push, closed bit or not. *)
Definition tail_word (m t : Z) : Prop :=
  exists closed : bool, t = pos cap k m + (if closed then 2 ^ 63 else 0).

(** The elements of [l] are in the slots from position [m] on. *)
Definition slots_from (q : Queue T) (m : Z) (l : list T) : Prop :=
  forall i x, l !! i = Some x ->
    buffer q !! Z.to_nat ((m + Z.of_nat i) mod cap) = Some (Some x).

Definition pinv (q : Queue T) (n : Z) (xs : list T) (p : ppc) : Prop :=
  match p with
  | PIdle => True
  | PGotTail e t => tail_word (n + zlen xs) t
  | PGotHead e t h =>
      tail_word (n + zlen xs) t /\
      exists m, 0 <= m <= n /\ h = pos cap k m /\ n + zlen xs <= m + cap
  | PWrote e t =>
      t = pos cap k (n + zlen xs) /\ zlen xs < cap /\
      buffer q !! Z.to_nat ((n + zlen xs) mod cap) = Some (Some e)
  | PSGotTail l t => zlen l <= cap /\ tail_word (n + zlen xs) t
  | PSGotHead l t h =>
      zlen l <= cap /\ tail_word (n + zlen xs) t /\
      exists m, 0 <= m <= n /\ h = pos cap k m /\ n + zlen xs <= m + cap
  | PSCopy l t next_tail i =>
      t = pos cap k (n + zlen xs) /\ next_tail = pos cap k (n + zlen xs + zlen l) /\
      zlen xs + zlen l <= cap /\ slots_from q (n + zlen xs) (take i l)
  | PLenTail t => tail_word (n + zlen xs) t
  | PLenAnswer t v => Z.land t CLOSED_BIT = 0 -> zlen xs <= v <= cap
  end.

Definition cinv (n : Z) (xs : list T) (c : cpc) : Prop :=
  match c with
  | CIdle => True
  | CGotHead h => h = pos cap k n
  | CGotTail h t =>
      h = pos cap k n /\ exists m, n <= m <= n + zlen xs /\ tail_word m t
  | CRead h v => h = pos cap k n /\ exists xs', xs = v :: xs'
  | CLenTail t => exists m, n <= m <= n + zlen xs /\ m <= n + cap /\ tail_word m t
  | CLenAnswer v => 0 <= v <= zlen xs
  end.

Definition inv_at (s : sys) (xs : list T) (closed : bool) : Prop :=
  produced s = consumed s ++ xs /\
  rep cap k (queue s) (zlen (consumed s)) xs closed /\
  pinv (queue s) (zlen (consumed s)) xs (producer s) /\
  cinv (zlen (consumed s)) xs (consumer s).

Definition inv (s : sys) : Prop := exists xs closed, inv_at s xs closed.

Lemma tail_word_tail q n xs closed :
  rep cap k q n xs closed -> tail_word (n + zlen xs) (tail q).
Proof. intros R. exists closed. exact (rep_tail _ _ _ _ _ _ R). Qed.

(** A [push] that its two loads allow has room for its element. *)
Lemma push_check_room q n xs closed e t h m :
  rep cap k q n xs closed -> tail_word (n + zlen xs) t ->
  0 <= m <= n -> h = pos cap k m -> n + zlen xs <= m + cap ->
  push_check q t h e = Ok tt ->
  t = pos cap k (n + zlen xs) /\ zlen xs < cap.
Proof.
  intros R [c ->] Hm -> Hle Hok. pose proof (zlen_nonneg xs).
  pose proof (rep_tail_bound R) as Hb.
  pose proof (rep_pos_bound R m ltac:(lia)) as Hbm.
  pose proof (rep_lap_size R). pose proof (rep_geo _ _ _ _ _ _ R) as G.
  unfold push_check in Hok. destruct c.
  { rewrite land_closed_set in Hok by done. discriminate. }
  rewrite Z.add_0_r, land_closed in Hok by done. simpl in Hok.
  rewrite (rep_mask _ _ _ _ _ _ R) in Hok. unfold wrapping_add in Hok.
  rewrite Z.mod_small, <- (pos_lap cap k G), pos_eqb in Hok by slia.
  destruct (Z.eqb_spec (m + cap) (n + zlen xs)); [discriminate|].
  split; [apply Z.add_0_r|lia].
Qed.

(** A [pop] that its two loads allow finds an element. *)
Lemma pop_check_some q n xs closed t m :
  rep cap k q n xs closed -> n <= m <= n + zlen xs -> tail_word m t ->
  pop_check (pos cap k n) t = Ok tt -> exists x xs', xs = x :: xs'.
Proof.
  intros R Hm [c ->] Hok. pose proof (rep_n _ _ _ _ _ _ R).
  rewrite (pop_check_pos cap k n m c (rep_geo _ _ _ _ _ _ R)) in Hok
    by (apply (rep_pos_bound R); lia).
  destruct (Z.eqb_spec m n); [discriminate|].
  destruct xs as [|x xs]; [rewrite zlen_nil in Hm; lia|eauto].
Qed.

(** A [push_slice] that its two loads allow has room for the whole slice. *)
Lemma slice_check_room q n xs closed l t h m next_tail :
  rep cap k q n xs closed -> zlen l <= cap -> tail_word (n + zlen xs) t ->
  0 <= m <= n -> h = pos cap k m -> n + zlen xs <= m + cap ->
  slice_check q t h l = Ok next_tail ->
  t = pos cap k (n + zlen xs) /\ next_tail = pos cap k (n + zlen xs + zlen l) /\
  zlen xs + zlen l <= cap.
Proof.
  intros R Hl [c ->] Hm -> Hle Hok. pose proof (zlen_nonneg xs). pose proof (zlen_nonneg l).
  pose proof (rep_tail_bound R) as Hb.
  pose proof (rep_pos_bound R m ltac:(lia)) as Hbm.
  pose proof (rep_lap_size R). pose proof (rep_geo _ _ _ _ _ _ R) as G.
  pose proof (geo_cap _ _ G).
  unfold slice_check in Hok. destruct c.
  { rewrite land_closed_set in Hok by done. discriminate. }
  rewrite Z.add_0_r, land_closed in Hok by done. simpl in Hok.
  rewrite (rep_slice_next_tail _ _ _ _ _ _ _ R), (rep_mask _ _ _ _ _ _ R) in Hok by lia.
  unfold wrapping_add in Hok.
  rewrite Z.mod_small, <- (pos_lap cap k G), pos_ltb in Hok by slia.
  destruct (Z.ltb_spec (m + cap) (n + zlen xs + zlen l)); [discriminate|].
  simplify_eq. rewrite Z.add_0_r. ssplit; [done|done|lia].
Qed.

(** The slots of an accepted slice are the ones after the last element. *)
Lemma slice_slot_pos q n xs closed l i :
  rep cap k q n xs closed -> zlen xs + zlen l <= cap -> (i < length l)%nat ->
  slice_slot q (Z.land (pos cap k (n + zlen xs)) (mask_bit q - 1)) l i =
  Some ((n + zlen xs + Z.of_nat i) mod cap).
Proof.
  intros R Hfit Hi. pose proof (zlen_nonneg xs). pose proof R as [G Hbl _ Hn _ _ _ _ _].
  pose proof (geo_cap _ _ G). pose proof (slot_bound cap k G (n + zlen xs)).
  unfold slice_slot. rewrite (rep_index R), Hbl by lia.
  rewrite <- (Z.add_mod_idemp_l (n + zlen xs)) by lia.
  set (index := (n + zlen xs) mod cap) in *. unfold zlen in *.
  rewrite mod_small_or by lia.
  repeat match goal with
  | |- context [?a <? ?b] => destruct (Z.ltb_spec a b)
  | |- context [?a <=? ?b] => destruct (Z.leb_spec a b)
  end; try (f_equal; lia); lia.
Qed.

(** Writing a slot after the last element disturbs nothing that is inside. *)
Lemma rep_write_free q n xs closed d x :
  rep cap k q n xs closed -> zlen xs <= d < cap ->
  rep cap k (set_buffer q (<[Z.to_nat ((n + d) mod cap) := Some x]> (buffer q))) n xs closed.
Proof.
  intros R Hd. pose proof (zlen_nonneg xs). pose proof R as [G Hbl Hm Hn Hh Ht Hf Hl Hs].
  pose proof (geo_cap _ _ G). constructor; simpl; try done.
  - unfold blen, zlen. simpl. rewrite length_insert. exact Hbl.
  - intros i y Hi. pose proof (lookup_lt_Some _ _ _ Hi).
    rewrite list_lookup_insert_ne; [now apply Hs|].
    intros E. apply Z2Nat.inj in E; [|apply (slot_bound cap k G)..].
    apply (slots_distinct R) in E; unfold zlen in *; lia.
Qed.

Lemma slots_from_write q n xs closed d l i x :
  rep cap k q n xs closed -> zlen xs <= d -> d + Z.of_nat i < cap ->
  l !! i = Some x -> slots_from q (n + d) (take i l) ->
  slots_from (set_buffer q (<[Z.to_nat ((n + d + Z.of_nat i) mod cap) := Some x]> (buffer q)))
    (n + d) (take (S i) l).
Proof.
  intros R Hd Hfit Hx Hs j y Hj. pose proof (zlen_nonneg xs).
  pose proof R as [G Hbl _ Hn _ _ _ _ _]. pose proof (geo_cap _ _ G).
  rewrite (take_S_r _ _ _ Hx) in Hj. pose proof (lookup_lt_Some _ _ _ Hx).
  apply lookup_app_Some in Hj as [Hj|[Hge Hj]]; simpl.
  - pose proof (lookup_lt_Some _ _ _ Hj) as Hlt. rewrite length_take in Hlt.
    rewrite list_lookup_insert_ne; [now apply Hs|].
    intros E. apply Z2Nat.inj in E; [|apply (slot_bound cap k G)..].
    rewrite <- !Z.add_assoc in E. apply (slots_distinct R) in E; lia.
  - rewrite length_take in Hge, Hj. apply list_lookup_singleton_Some in Hj as [Hj ->].
    replace j with i by lia. apply list_lookup_insert_eq.
    pose proof (slot_bound cap k G (n + d + Z.of_nat i)). unfold blen, zlen in *. lia.
Qed.

(** The store of [push_slice] publishes the copied slots. *)
Lemma rep_slice_store q n xs closed l :
  rep cap k q n xs closed -> zlen xs + zlen l <= cap ->
  slots_from q (n + zlen xs) l -> pos cap k (n + zlen xs + zlen l) < 2 ^ 63 ->
  rep cap k (set_tail q (pos cap k (n + zlen xs + zlen l))) n (xs ++ l) false.
Proof.
  intros R Hfit Hs Hlap. pose proof R as [G Hbl Hm Hn Hh Ht Hf Hl Hsl].
  constructor; simpl; rewrite ?zlen_app, ?Z.add_assoc, ?Z.add_0_r; try done.
  intros i x Hi. apply lookup_app_Some in Hi as [Hi|[Hge Hi]]; [now apply Hsl|].
  apply Hs in Hi. rewrite <- Hi. unfold zlen. do 3 f_equal. lia.
Qed.

(** The answers of [len] from words loaded at different times. *)
Lemma producer_len q n xs closed t :
  rep cap k q n xs closed -> tail_word (n + zlen xs) t ->
  Z.land t CLOSED_BIT = 0 -> zlen xs <= len_of q t (head q) <= cap.
Proof.
  intros R [c ->] Hc. pose proof (zlen_nonneg xs). pose proof (rep_tail_bound R) as Hb.
  pose proof R as [G Hbl Hm Hn Hh Ht Hf Hl _].
  destruct c; [rewrite land_closed_set in Hc by done; discriminate|].
  rewrite Hh, (len_of_pos cap k q n (zlen xs) false); done || lia.
Qed.

Lemma consumer_len q n xs closed m t :
  rep cap k q n xs closed -> n <= m <= n + zlen xs -> m <= n + cap -> tail_word m t ->
  0 <= len_of q t (head q) <= zlen xs.
Proof.
  intros R Hm Hc [c ->]. pose proof (rep_pos_bound R m) as Hb.
  pose proof R as [G Hbl Hmask Hn Hh Ht Hf Hl _].
  replace m with (n + (m - n)) in * by lia. rewrite Hh.
  destruct (decide (c = true /\ m - n = cap)) as [[-> E]|Hne].
  - rewrite E in *. rewrite (len_of_closed_full cap k q n); done || lia.
  - rewrite (len_of_pos cap k q n (m - n) c); try done; try lia.
    intros ->. destruct (Z.eq_dec (m - n) cap); [exfalso; auto|lia].
Qed.

Lemma cinv_push n xs l c : cinv n xs c -> cinv n (xs ++ l) c.
Proof.
  pose proof (zlen_nonneg l).
  destruct c as [|h|h t|h v|t|v]; simpl; rewrite ?zlen_app; [done|done| | | |lia].
  - intros [-> (m & Hm & Ht)]. split; [done|]. exists m. split; [lia|done].
  - intros [-> [xs' ->]]. split; [done|]. now exists (xs' ++ l).
  - intros (m & Hm & Hc & Ht). exists m. ssplit; done || lia.
Qed.

Lemma pinv_pop q q' n x xs p :
  buffer q' = buffer q -> 0 <= n ->
  pinv q n (x :: xs) p -> pinv q' (n + 1) xs p.
Proof.
  intros Hbuf Hn. assert (E : n + zlen (x :: xs) = n + 1 + zlen xs)
    by (rewrite zlen_cons; lia).
  destruct p; simpl; unfold slots_from; rewrite ?E, ?Hbuf, ?zlen_cons; try done.
  - intros [Ht (m & Hm & -> & Hle)]. split; [done|]. exists m. ssplit; [lia|lia|done|lia].
  - intros (-> & Hlt & Hs). ssplit; [done|lia|done].
  - intros (Hl & Ht & m & Hm & -> & Hle). ssplit; [done..|]. exists m. ssplit; [lia|lia|done|lia].
  - intros (-> & -> & Hfit & Hs). ssplit; [done|done|lia|done].
  - intros Hv Hc. specialize (Hv Hc). lia.
Qed.

Lemma pinv_tail q t n xs p : pinv q n xs p -> pinv (set_tail q t) n xs p.
Proof. by destruct p. Qed.

(** The steps of a [push_slice] and of the two [len]s keep the invariant. *)
Lemma slice_step_inv q c P C L l t nt i x j :
  l !! i = Some x -> slice_slot q (Z.land t (mask_bit q - 1)) l i = Some j ->
  inv (mkSys q (PSCopy l t nt i) c P C L) ->
  inv (mkSys (set_buffer q (<[Z.to_nat j := Some x]> (buffer q))) (PSCopy l t nt (S i)) c P C L).
Proof.
  intros Hx Hj (xs & closed & Hh & R & Hp & Hc). simpl in Hh, R, Hp, Hc.
  destruct Hp as (-> & -> & Hfit & Hs).
  pose proof (lookup_lt_Some _ _ _ Hx) as Hi. pose proof (zlen_nonneg xs).
  rewrite (slice_slot_pos _ _ _ _ _ _ R Hfit Hi) in Hj. simplify_eq.
  exists xs, closed. unfold inv_at, pinv. ssplit; simpl; try done.
  - rewrite <- Z.add_assoc. apply (rep_write_free _ _ _ closed); [done|]. unfold zlen in *; lia.
  - ssplit; [done..|]. apply (slots_from_write _ _ _ _ _ _ _ _ R); try done; unfold zlen in *; lia.
Qed.

Lemma slice_store_inv q c P C L l t nt :
  pos cap k (zlen (P ++ l)) < 2 ^ 63 ->
  inv (mkSys q (PSCopy l t nt (length l)) c P C L) ->
  inv (mkSys (set_tail q nt) PIdle c (P ++ l) C L).
Proof.
  intros Hlap (xs & closed & Hh & R & Hp & Hc). simpl in Hh, R, Hp, Hc.
  destruct Hp as (-> & -> & Hfit & Hs).
  rewrite take_ge in Hs by done. exists (xs ++ l), false.
  unfold inv_at. ssplit; simpl; [by rewrite Hh, <- app_assoc| |done|by apply cinv_push].
  apply (rep_slice_store _ _ _ closed); try done. by rewrite Hh, !zlen_app in Hlap.
Qed.

Lemma step_inv s s' :
  step s s' -> pos cap k (zlen (produced s')) < 2 ^ 63 -> longest s' <= cap ->
  inv s -> inv s'.
Proof.
  intros Hstep Hlap Hlong Hinv.
  destruct Hstep; try (by eapply slice_step_inv); try (by eapply slice_store_inv);
    destruct Hinv as (xs & closed & Hh & R & Hp & Hc); unfold inv, inv_at;
    pose proof (zlen_nonneg xs) as Hz; simpl in *;
    pose proof (rep_n _ _ _ _ _ _ R) as Hn;
    pose proof (rep_fits _ _ _ _ _ _ R) as Hfit.
  - exists xs, closed. ssplit; try done. simpl. eapply tail_word_tail, R.
  - exists xs, closed. ssplit; try done.
    exists (zlen C). ssplit; [lia|lia|exact (rep_head _ _ _ _ _ _ R)|lia].
  - exists xs, closed. ssplit; done.
  - destruct Hp as [Ht (m & Hm & -> & Hle)].
    destruct (push_check_room _ _ _ _ _ _ _ m R Ht Hm eq_refl Hle H) as [-> Hroom].
    destruct (rep_push_write _ _ _ _ _ _ e R Hroom) as (q1 & Hw & R' & Hslot).
    rewrite Hw in H0. simplify_eq. exists xs, closed. ssplit; done.
  - destruct Hp as (-> & Hroom & Hslot). exists (xs ++ [e]), false.
    ssplit; [by rewrite Hh, <- app_assoc| |done|by apply cinv_push].
    apply (rep_push_store _ _ _ _ _ closed); try done.
    rewrite Hh, !zlen_app, zlen_cons, zlen_nil in Hlap.
    replace (zlen C + zlen xs + 1) with (zlen C + zlen xs + (1 + 0)) by lia. done.
  - exists xs, closed. ssplit; try done; [lia|]. eapply tail_word_tail, R.
  - destruct Hp as [Hl Ht]. exists xs, closed. ssplit; try done.
    exists (zlen C). ssplit; [lia|lia|exact (rep_head _ _ _ _ _ _ R)|lia].
  - exists xs, closed. ssplit; done.
  - destruct Hp as (Hl & Ht & m & Hm & -> & Hle).
    destruct (slice_check_room _ _ _ _ _ _ _ m _ R Hl Ht Hm eq_refl Hle H) as (-> & -> & Hroom).
    exists xs, closed. ssplit; done.
  - exists xs, closed. ssplit; try done. eapply tail_word_tail, R.
  - exists xs, closed. ssplit; try done. intros Ho.
    exact (producer_len _ _ _ _ _ R Hp Ho).
  - exists xs, closed. ssplit; done.
  - exists xs, closed. ssplit; try done. exact (rep_head _ _ _ _ _ _ R).
  - exists xs, closed. ssplit; try done.
    exists (zlen C + zlen xs). split; [lia|]. eapply tail_word_tail, R.
  - exists xs, closed. ssplit; done.
  - destruct Hc as [-> (m & Hm & Ht)].
    destruct (pop_check_some _ _ _ _ _ m R Hm Ht H) as (x & xs' & ->).
    rewrite (rep_pop_read _ _ _ _ _ _ _ R) in H0. simplify_eq.
    exists (v :: xs'), closed. ssplit; try done. simpl. eauto.
  - destruct Hc as [-> [xs' ->]]. exists xs', closed.
    rewrite zlen_app, zlen_cons, zlen_nil, Z.add_0_r.
    ssplit; [by rewrite Hh, <- app_assoc|exact (rep_pop_store _ _ _ _ _ _ _ R)| |done].
    eapply pinv_pop; [|done|exact Hp]. done.
  - exists xs, closed. ssplit; try done.
    exists (zlen C + zlen xs). ssplit; [lia|lia|lia|]. eapply tail_word_tail, R.
  - destruct Hc as (m & Hm & Hcap & Ht). exists xs, closed.
    pose proof (consumer_len _ _ _ _ _ _ R Hm Hcap Ht). ssplit; done || lia.
  - exists xs, closed. ssplit; done.
  - exists xs, true. ssplit; try done. eapply rep_set_closed, R.
  - exists xs, true. ssplit; [done|eapply rep_set_closed, R|by apply pinv_tail|done].
Qed.

Lemma step_grows s s' :
  step s s' -> zlen (produced s) <= zlen (produced s') /\ longest s <= longest s'.
Proof.
  destruct 1; simpl; rewrite ?zlen_app; try lia.
  - pose proof (zlen_nonneg [e]). lia.
  - pose proof (zlen_nonneg l). lia.
Qed.

Lemma reachable_inv q s :
  rep cap k q 0 [] false -> reachable (start q) s ->
  pos cap k (zlen (produced s)) < 2 ^ 63 -> longest s <= cap -> inv s.
Proof.
  intros R. induction 1 as [|s s' Hr IH Hs]; intros Hlap Hlong.
  - exists [], false. ssplit; done.
  - destruct (step_grows _ _ Hs). pose proof (zlen_nonneg (produced s)).
    eapply step_inv; [exact Hs|done|done|]. apply IH; [|lia].
    destruct (Z.eq_dec (zlen (produced s)) (zlen (produced s'))) as [->|]; [done|].
    pose proof (pos_mono cap k (rep_geo _ _ _ _ _ _ R)
      (zlen (produced s)) (zlen (produced s')) ltac:(lia) ltac:(lia)). lia.
Qed.
End Invariant.

(** The slot a thread is about to touch without synchronisation. *)
Definition writing (s : sys) : option Z :=
  match producer s with
  | PGotHead e t h =>
      match push_check (queue s) t h e with
      | Ok _ => Some (Z.land t (mask_bit (queue s) - 1))
      | Err _ => None
      end
  | PSCopy l t _ i =>
      if (i <? length l)%nat
      then slice_slot (queue s) (Z.land t (mask_bit (queue s) - 1)) l i
      else None
  | _ => None
  end.

Definition reading (s : sys) : option Z :=
  match consumer s with
  | CGotTail h t =>
      match pop_check h t with
      | Ok _ => Some (Z.land h (mask_bit (queue s) - 1))
      | Err _ => None
      end
  | _ => None
  end.
End Threads.

(** What holds of every state two threads reach: the invariant, from a new
    queue, while fewer than 2^61 elements are pushed and no slice is longer
    than the queue. *)
Lemma threads_inv {T} cap (q : Queue T) s :
  0 < cap < 2 ^ 61 -> new_queue cap = Return q ->
  reachable (start q) s -> zlen (produced s) < 2 ^ 61 -> longest s <= cap ->
  exists xs closed, inv_at cap (Z.log2_up (cap + 1)) s xs closed.
Proof.
  intros Hcap Hq Hr Hsz Hlong. destruct (@rep_new T cap Hcap) as (q0 & Hq0 & R).
  rewrite Hq in Hq0. simplify_eq.
  apply (reachable_inv _ _ _ _ R Hr); [|done].
  apply laps_enough; [done|]. pose proof (zlen_nonneg (produced s)). lia.
Qed.

Section Slots.
Context {T : Type} (cap k : Z) (s : @sys T) (xs : list T) (closed : bool).
Context (I : inv_at cap k s xs closed).

(** The slot being written is one of the free ones after the last element ... *)
Lemma writing_slot i :
  writing s = Some i ->
  exists d, zlen xs <= d < cap /\ i = (zlen (consumed s) + d) mod cap.
Proof using I.
  destruct I as (_ & R & Hp & _). pose proof (rep_n _ _ _ _ _ _ R).
  pose proof (zlen_nonneg xs).
  unfold writing. destruct (producer s) as [| |e t h| | | |l t nt j| |]; try done.
  - destruct (push_check _ _ _ _) as [[]|] eqn:E; [|done]. intros [= <-].
    destruct Hp as [Ht (m & Hm & -> & Hle)].
    destruct (push_check_room _ _ _ _ _ _ _ _ _ m R Ht Hm eq_refl Hle E) as [-> Hroom].
    exists (zlen xs). split; [lia|]. apply (rep_index R). lia.
  - destruct Hp as (-> & -> & Hfit & _).
    destruct (Nat.ltb_spec j (length l)) as [Hj|]; [|done].
    rewrite (slice_slot_pos _ _ _ _ _ _ _ _ R Hfit Hj). intros [= <-].
    exists (zlen xs + Z.of_nat j). split; [unfold zlen in *; lia|]. f_equal. lia.
Qed.

(** ... and the slot being read is the one of the oldest element. *)
Lemma reading_slot j :
  reading s = Some j ->
  exists h t x xs', consumer s = CGotTail h t /\
    h = pos cap k (zlen (consumed s)) /\ xs = x :: xs' /\ j = zlen (consumed s) mod cap.
Proof using I.
  destruct I as (_ & R & _ & Hc). pose proof (rep_n _ _ _ _ _ _ R).
  unfold reading. destruct (consumer s) as [|h|h t|h v|t|v]; try done.
  destruct (pop_check _ _) as [[]|] eqn:E; [|done]. intros [= <-].
  destruct Hc as [-> (m & Hm & Ht)].
  destruct (pop_check_some _ _ _ _ _ _ _ m R Hm Ht E) as (x & xs' & ->).
  exists (pos cap k (zlen (consumed s))), t, x, xs'.
  ssplit; try done. apply (rep_index R). lia.
Qed.
End Slots.

(** (C31) Under every interleaving of one producer calling [push], [push_slice]
    and [len] and one consumer calling [pop] and [len], including both sides
    dropping their handles, the slots of the buffer from the consumer's
    position on hold, in order, exactly what the producer has pushed and the
    consumer not yet popped: at most [cap] elements, each in its slot, and
    draining the queue as it stands pops exactly them, oldest first.  So
    nothing is lost, duplicated or reordered.  Conditions: fewer than 2^61
    elements are pushed (the lap counter stays below the closed bit) and no
    slice is longer than the queue's capacity (longer ones are lost:
    [push_slice_overlong_loses]). *)
Theorem threads_fifo {T} cap (q : Queue T) s :
  0 < cap < 2 ^ 61 -> new_queue cap = Return q ->
  reachable (start q) s -> zlen (produced s) < 2 ^ 61 -> longest s <= cap ->
  exists xs, produced s = consumed s ++ xs /\ zlen xs <= cap /\
    (forall i x, xs !! i = Some x ->
       buffer (queue s) !! Z.to_nat ((zlen (consumed s) + Z.of_nat i) mod cap)
       = Some (Some x)) /\
    exists q', drop_queue (S (length xs)) (queue s) [] = Return (q', xs).
Proof.
  intros Hcap Hq Hr Hsz Hlong.
  destruct (threads_inv cap q s Hcap Hq Hr Hsz Hlong) as (xs & c & Hh & R & _ & _).
  exists xs. ssplit; [done|exact (rep_fits _ _ _ _ _ _ R)|exact (rep_slots _ _ _ _ _ _ R)|].
  destruct (rep_drop _ _ xs _ _ _ [] (S (length xs)) R ltac:(lia)) as (q' & Hd & _).
  exists q'. exact Hd.
Qed.

(** (C32) Data-race freedom of the unsynchronised accesses: whenever the producer
    is about to write a slot (for [push], or any one of a slice's) and the
    consumer is about to read one, the two slots are different; the write is in
    bounds, and the read finds an initialised slot holding the oldest element
    not yet popped.  Same conditions as for the order of the elements. *)
Theorem threads_race_free {T} cap (q : Queue T) s :
  0 < cap < 2 ^ 61 -> new_queue cap = Return q ->
  reachable (start q) s -> zlen (produced s) < 2 ^ 61 -> longest s <= cap ->
  (forall i j, writing s = Some i -> reading s = Some j -> i <> j) /\
  (forall i, writing s = Some i -> 0 <= i < cap) /\
  (forall j, reading s = Some j ->
     match consumer s with
     | CGotTail h _ => exists x, pop_read (queue s) h = Return x /\
         produced s !! length (consumed s) = Some x
     | _ => False
     end).
Proof.
  intros Hcap Hq Hr Hsz Hlong.
  destruct (threads_inv cap q s Hcap Hq Hr Hsz Hlong) as (xs & c & I).
  pose proof I as (Hh & R & _ & _). pose proof (rep_geo _ _ _ _ _ _ R) as G.
  pose proof (geo_cap _ _ G). ssplit.
  - intros i j Hi Hj. destruct (writing_slot _ _ _ _ _ I _ Hi) as (d & Hd & ->).
    destruct (reading_slot _ _ _ _ _ I _ Hj) as (h & t & x & xs' & _ & _ & -> & ->).
    rewrite <- (Z.add_0_r (zlen (consumed s))) at 2. intros E.
    rewrite zlen_cons in Hd. pose proof (zlen_nonneg xs').
    apply (slots_distinct R) in E; lia.
  - intros i Hi. destruct (writing_slot _ _ _ _ _ I _ Hi) as (d & _ & ->).
    apply (slot_bound cap _ G).
  - intros j Hj. destruct (reading_slot _ _ _ _ _ I _ Hj) as (h & t & x & xs' & -> & -> & -> & _).
    exists x. split; [exact (rep_pop_read _ _ _ _ _ _ _ R)|].
    rewrite Hh, lookup_app_r, Nat.sub_diag by lia. done.
Qed.

(** (C33) What the two sides are told by [len] while the other side runs: the
    producer of a queue that was open when it loaded [tail] is never told of
    fewer elements than there are (so [available] never promises room that is
    not there), and the consumer is never told of more. *)
Theorem threads_len {T} cap (q : Queue T) s :
  0 < cap < 2 ^ 61 -> new_queue cap = Return q ->
  reachable (start q) s -> zlen (produced s) < 2 ^ 61 -> longest s <= cap ->
  (forall t v, producer s = PLenAnswer t v -> Z.land t CLOSED_BIT = 0 ->
     zlen (produced s) - zlen (consumed s) <= v <= cap) /\
  (forall v, consumer s = CLenAnswer v ->
     0 <= v <= zlen (produced s) - zlen (consumed s)).
Proof.
  intros Hcap Hq Hr Hsz Hlong.
  destruct (threads_inv cap q s Hcap Hq Hr Hsz Hlong) as (xs & c & Hh & R & Hp & Hc).
  rewrite Hh, zlen_app. split.
  - intros t v E Ho. rewrite E in Hp. specialize (Hp Ho). lia.
  - intros v E. rewrite E in Hc. simpl in Hc. lia.
Qed.

(** A run of a one-slot-free queue: one element pushed, the producer about to
    copy a one-element slice while the consumer is about to read the first. *)
Lemma both_threads_inside :
  exists q s, @new_queue Z 2 = Return q /\ reachable (start q) s /\
    produced s = [7] /\ consumed s = [] /\ longest s = 1 /\
    writing s = Some 1 /\ reading s = Some 0.
Proof.
  eexists. eexists. split; [reflexivity|]. split.
  - eapply reach_front; [apply (p_load_tail _ _ _ _ _ 7)|].
    eapply reach_front; [apply p_load_head|].
    eapply reach_front; [eapply p_write; reflexivity|].
    eapply reach_front; [apply p_store|].
    eapply reach_front; [apply (ps_load_tail _ _ _ _ _ [8])|].
    eapply reach_front; [apply ps_load_head|].
    eapply reach_front; [eapply ps_accept; reflexivity|].
    eapply reach_front; [apply c_load_head|].
    eapply reach_front; [apply c_load_tail|].
    apply reach_refl.
  - vm_compute. done.
Qed.

Example threads_fifo_witness :
  exists (s : @sys Z) xs, produced s = [7] /\ produced s = consumed s ++ xs /\
    exists q', drop_queue (S (length xs)) (queue s) [] = Return (q', xs).
Proof.
  destruct both_threads_inside as (q & s & Hq & Hr & Hp & _ & Hl & _).
  destruct (threads_fifo 2 q s ltac:(lia) Hq Hr) as (xs & Hxs & _ & _ & Hd).
  - rewrite Hp. vm_compute. reflexivity.
  - rewrite Hl. lia.
  - exists s, xs. split; [exact Hp|]. split; [exact Hxs|exact Hd].
Defined.

Example threads_race_free_witness :
  exists s : @sys Z, writing s = Some 1 /\ reading s = Some 0 /\ 1 <> 0 /\
    (exists h t x, consumer s = CGotTail h t /\ pop_read (queue s) h = Return x).
Proof.
  destruct both_threads_inside as (q & s & Hq & Hr & Hp & _ & Hl & Hw & Hrd).
  destruct (threads_race_free 2 q s ltac:(lia) Hq Hr) as (Hne & _ & Hread).
  - rewrite Hp. vm_compute. reflexivity.
  - rewrite Hl. lia.
  - exists s. split; [exact Hw|]. split; [exact Hrd|]. split; [exact (Hne _ _ Hw Hrd)|].
    specialize (Hread _ Hrd). destruct (consumer s); try contradiction.
    destruct Hread as (x & Hx & _). eexists _, _, x. split; [reflexivity|exact Hx].
Defined.

(** Both sides inside [len], the producer after its first push. *)
Lemma both_threads_count :
  exists q s t, @new_queue Z 2 = Return q /\ reachable (start q) s /\
    produced s = [7] /\ consumed s = [] /\ longest s = 0 /\
    producer s = PLenAnswer t 1 /\ Z.land t CLOSED_BIT = 0 /\ consumer s = CLenAnswer 0.
Proof.
  eexists. eexists. exists 1. split; [reflexivity|]. split.
  - eapply reach_front; [apply c_len_tail|].
    eapply reach_front; [apply (p_load_tail _ _ _ _ _ 7)|].
    eapply reach_front; [apply p_load_head|].
    eapply reach_front; [eapply p_write; reflexivity|].
    eapply reach_front; [apply p_store|].
    eapply reach_front; [apply c_len_head|].
    eapply reach_front; [apply p_len_tail|].
    eapply reach_front; [apply p_len_head|].
    apply reach_refl.
  - vm_compute. done.
Qed.

Example threads_len_witness :
  exists s : @sys Z, consumer s = CLenAnswer 0 /\
    0 <= 0 <= zlen (produced s) - zlen (consumed s).
Proof.
  destruct both_threads_count as (q & s & t & Hq & Hr & Hp & _ & Hl & _ & _ & Hc).
  destruct (threads_len 2 q s ltac:(lia) Hq Hr) as [_ Hlen].
  - rewrite Hp. vm_compute. reflexivity.
  - rewrite Hl. lia.
  - exists s. split; [exact Hc|exact (Hlen _ Hc)].
Defined.

(** The copy of a slice takes every slot in turn: two elements of a slice
    written across the end of the buffer. *)
Example slice_across_end :
  exists q s, @new_queue Z 2 = Return q /\ reachable (start q) s /\
    produced s = [7; 8; 9] /\ consumed s = [7] /\ buffer (queue s) = [Some 9; Some 8].
Proof.
  eexists. eexists. split; [reflexivity|]. split.
  - eapply reach_front; [apply (p_load_tail _ _ _ _ _ 7)|].
    eapply reach_front; [apply p_load_head|].
    eapply reach_front; [eapply p_write; reflexivity|].
    eapply reach_front; [apply p_store|].
    eapply reach_front; [apply c_load_head|].
    eapply reach_front; [apply c_load_tail|].
    eapply reach_front; [eapply c_read; reflexivity|].
    eapply reach_front; [apply c_store|].
    eapply reach_front; [apply (ps_load_tail _ _ _ _ _ [8; 9])|].
    eapply reach_front; [apply ps_load_head|].
    eapply reach_front; [eapply ps_accept; reflexivity|].
    eapply reach_front; [eapply ps_copy; reflexivity|].
    eapply reach_front; [eapply ps_copy; reflexivity|].
    eapply reach_front; [apply ps_store|].
    apply reach_refl.
  - vm_compute. done.
Qed.

(** A close can be lost: the consumer drops its handle, setting the closed
    bit, after the producer has loaded [tail] and before it stores the next
    tail; the store overwrites the bit, and the producer's next [push] is
    accepted although nobody will ever pop it. *)
Theorem close_lost :
  exists (q : Queue Z) s1 s2 s3 q4,
    new_queue 2 = Return q /\ reachable (start q) s1 /\
    step s1 s2 /\ queue s2 = set_closed (queue s1) /\
    negb (Z.land (tail (queue s2)) CLOSED_BIT =? 0) = true /\
    step s2 s3 /\ Z.land (tail (queue s3)) CLOSED_BIT = 0 /\
    push (queue s3) 8 = Return (q4, Ok tt).
Proof.
  eexists. eexists. eexists. eexists. eexists. split; [reflexivity|]. split.
  { eapply reach_front; [apply (p_load_tail _ _ _ _ _ 7)|].
    eapply reach_front; [apply p_load_head|].
    eapply reach_front; [eapply p_write; reflexivity|].
    apply reach_refl. }
  split; [apply c_drop|]. split; [reflexivity|]. split; [reflexivity|].
  split; [apply p_store|]. split; reflexivity.
Qed.
