(* ===== verification/Extern.v ===== *)
(** * The crates the encoding stack calls

    [bytes], [byteorder], [bit_vec], [num_bigint] and [hex] are third-party
    crates.  Each is a class: the functions the sources call, and the documented
    behaviour the proofs rely on.  The [reference_*] instances give one concrete
    implementation of each class, on which witnesses evaluate. *)

From Stdlib Require Import ZArith Lia List Bool.
From stdpp Require Import base option list numbers.
From S2P Require Import Prelude.

(** ** [bytes::BufMut] for [Vec<u8>], [bytes::Buf] for [&[u8]] and
    [byteorder::WriteBytesExt] for [&mut [u8]]

    Floats are their IEEE bit patterns. *)
Class BytesCrate : Type := {
  put_u8 : bytes -> Z -> bytes;
  put_i8 : bytes -> Z -> bytes;
  put_u16 : bytes -> Z -> bytes;
  put_i16 : bytes -> Z -> bytes;
  put_u32 : bytes -> Z -> bytes;
  put_i32 : bytes -> Z -> bytes;
  put_i64 : bytes -> Z -> bytes;
  put_f64 : bytes -> Z -> bytes;
  put_slice : bytes -> bytes -> bytes;
  get_u16 : bytes -> Z;
  write_u32_be : bytes -> Z -> option bytes;

  put_u8_spec d v : put_u8 d v = d ++ be_bytes 1 v;
  put_i8_spec d v : put_i8 d v = d ++ be_bytes 1 v;
  put_u16_spec d v : put_u16 d v = d ++ be_bytes 2 v;
  put_i16_spec d v : put_i16 d v = d ++ be_bytes 2 v;
  put_u32_spec d v : put_u32 d v = d ++ be_bytes 4 v;
  put_i32_spec d v : put_i32 d v = d ++ be_bytes 4 v;
  put_i64_spec d v : put_i64 d v = d ++ be_bytes 8 v;
  put_f64_spec d v : put_f64 d v = d ++ be_bytes 8 v;
  put_slice_spec d s : put_slice d s = d ++ s;
  get_u16_spec d : 2 <= zlen d -> get_u16 d = be_val (take 2 d);
  write_u32_be_spec d v :
    4 <= zlen d -> write_u32_be d v = Some (be_bytes 4 v ++ drop 4 d);
}.

Create Rewrite HintDb putrw.
#[export] Hint Rewrite @put_u8_spec @put_i8_spec @put_u16_spec @put_i16_spec
  @put_u32_spec @put_i32_spec @put_i64_spec @put_f64_spec @put_slice_spec : putrw.

Definition reference_bytes : BytesCrate.
Proof.
  refine {|
    put_u8 d v := d ++ be_bytes 1 v;
    put_i8 d v := d ++ be_bytes 1 v;
    put_u16 d v := d ++ be_bytes 2 v;
    put_i16 d v := d ++ be_bytes 2 v;
    put_u32 d v := d ++ be_bytes 4 v;
    put_i32 d v := d ++ be_bytes 4 v;
    put_i64 d v := d ++ be_bytes 8 v;
    put_f64 d v := d ++ be_bytes 8 v;
    put_slice d s := d ++ s;
    get_u16 d := be_val (take 2 d);
    write_u32_be d v :=
      if 4 <=? zlen d then Some (be_bytes 4 v ++ drop 4 d) else None;
  |}; intros; try reflexivity.
  destruct (Z.leb_spec 4 (zlen d)); [done|lia].
Defined.

(** ** Bits of numbers *)

(** The value of a bit string, least significant bit first. *)
Fixpoint lsb_val (l : list bool) : Z :=
  match l with
  | [] => 0
  | b :: l => Z.b2z b + 2 * lsb_val l
  end.

(** The value of a bit string, most significant bit first. *)
Definition bits_val (l : list bool) : Z := lsb_val (rev l).

(** The bits of a byte, most significant first. *)
Definition byte_bits (b : Z) : list bool :=
  map (fun i => Z.testbit b i) [7; 6; 5; 4; 3; 2; 1; 0].

(** ** [bit_vec::BitVec] *)
Class BitVecCrate : Type := {
  BitVec : Type;
  bv_new : BitVec;
  bv_iter : BitVec -> list bool;
  bv_push : BitVec -> bool -> BitVec;
  bv_pop : BitVec -> option (bool * BitVec);
  bv_append : BitVec -> BitVec -> BitVec;
  bv_from_elem : Z -> bool -> BitVec;
  bv_from_bytes : bytes -> BitVec;
  bv_to_bytes : BitVec -> bytes;

  bv_new_spec : bv_iter bv_new = [];
  bv_push_spec v b : bv_iter (bv_push v b) = bv_iter v ++ [b];
  bv_pop_none v : bv_iter v = [] -> bv_pop v = None;
  bv_pop_some v l b : bv_iter v = l ++ [b] ->
    exists v', bv_pop v = Some (b, v') /\ bv_iter v' = l;
  bv_append_spec v w : bv_iter (bv_append v w) = bv_iter v ++ bv_iter w;
  bv_from_elem_spec n b : bv_iter (bv_from_elem n b) = replicate (Z.to_nat n) b;
  bv_from_bytes_spec l : bv_iter (bv_from_bytes l) = flat_map byte_bits l;
  bv_to_bytes_spec v : zlen (bv_iter v) mod 8 = 0 ->
    are_bytes (bv_to_bytes v) /\ flat_map byte_bits (bv_to_bytes v) = bv_iter v;
}.

(** [BitVec::len]. *)
Definition bv_len `{BitVecCrate} (v : BitVec) : Z := zlen (bv_iter v).

(** ** Hexadecimal digits (ASCII) *)
Definition hex_digit (c : Z) : option Z :=
  if (48 <=? c) && (c <=? 57) then Some (c - 48)
  else if (97 <=? c) && (c <=? 102) then Some (c - 87)
  else if (65 <=? c) && (c <=? 70) then Some (c - 55)
  else None.

Definition hex_digit_val (c : Z) : Z := default 0 (hex_digit c).
Definition is_hex_digit (c : Z) : Prop := is_Some (hex_digit c).

Fixpoint hex_val_acc (acc : Z) (l : bytes) : Z :=
  match l with
  | [] => acc
  | c :: l => hex_val_acc (16 * acc + hex_digit_val c) l
  end.
Definition hex_val (l : bytes) : Z := hex_val_acc 0 l.

(** A canonical numeral: hexadecimal digits without superfluous leading zero. *)
Definition hex_numeral (l : bytes) : Prop :=
  Forall is_hex_digit l /\ l <> [] /\ (hd 48 l = 48 -> l = [48]).

(** ** [num_bigint::BigInt], a signed integer of any size *)
Inductive Sign : Type := Minus | NoSign | Plus.

Class BigIntCrate : Type := {
  from_bytes_be : Sign -> bytes -> Z;
  to_str_radix_16 : Z -> bytes;
  from_bytes_be_plus l : are_bytes l -> from_bytes_be Plus l = be_val l;
  from_bytes_be_minus l : are_bytes l -> from_bytes_be Minus l = - be_val l;
  to_str_radix_16_spec z :
    exists ds, to_str_radix_16 z = (if z <? 0 then [45] else []) ++ ds /\
      hex_numeral ds /\ hex_val ds = Z.abs z;
}.

(** ** [hex::decode] *)
Inductive FromHexError : Type := InvalidHexCharacter | OddLength.

Class HexCrate : Type := {
  hex_decode : bytes -> result FromHexError bytes;
  hex_decode_ok l :
    Forall is_hex_digit l -> Nat.even (length l) = true ->
    exists bs, hex_decode l = Ok bs /\ are_bytes bs /\
      2 * zlen bs = zlen l /\ be_val bs = hex_val l;
  hex_decode_odd l :
    Nat.even (length l) = false -> hex_decode l = Err OddLength;
  hex_decode_bad l :
    Nat.even (length l) = true -> ~ Forall is_hex_digit l ->
    hex_decode l = Err InvalidHexCharacter;
}.

Section BitValues.
Implicit Types (l : list bool).

Lemma lsb_val_app l k : lsb_val (l ++ k) = lsb_val l + 2 ^ zlen l * lsb_val k.
Proof.
  induction l as [|b l IH]; simpl.
  - change (zlen []) with 0. lia.
  - rewrite IH, zlen_cons, Z.pow_add_r by (pose proof (zlen_nonneg l); lia). lia.
Qed.

Lemma lsb_val_bound l : 0 <= lsb_val l < 2 ^ zlen l.
Proof.
  induction l as [|b l IH]; simpl.
  - change (zlen []) with 0. lia.
  - rewrite zlen_cons, Z.pow_add_r by (pose proof (zlen_nonneg l); lia).
    destruct b; simpl Z.b2z; lia.
Qed.

Lemma lsb_val_replicate n : lsb_val (replicate n false) = 0.
Proof. induction n as [|n IH]; simpl; [done|]. rewrite IH. done. Qed.

Lemma lsb_val_bit l i :
  Z.testbit (lsb_val l) (Z.of_nat i) = default false (l !! i).
Proof.
  revert i. induction l as [|b l IH]; intros i; simpl.
  - apply Z.bits_0.
  - replace (Z.b2z b + 2 * lsb_val l) with (2 * lsb_val l + Z.b2z b) by lia.
    destruct i as [|i].
    + apply Z.testbit_0_r.
    + rewrite Nat2Z.inj_succ, Z.testbit_succ_r by lia. apply IH.
Qed.

Lemma bits_val_app l k : bits_val (l ++ k) = bits_val l * 2 ^ zlen k + bits_val k.
Proof. unfold bits_val. rewrite rev_app_distr, lsb_val_app, zlen_rev. lia. Qed.

Lemma bits_val_bound l : 0 <= bits_val l < 2 ^ zlen l.
Proof. unfold bits_val. rewrite <- (zlen_rev l). apply lsb_val_bound. Qed.

Lemma byte_bits_length b : length (byte_bits b) = 8%nat.
Proof. done. Qed.

Lemma byte_bits_val b : is_byte b -> bits_val (byte_bits b) = b.
Proof.
  intros [H0 H1]. apply Z.bits_inj'. intros i Hi.
  rewrite <- (Z2Nat.id i) by lia. unfold bits_val. rewrite lsb_val_bit.
  destruct (decide (i < 8)).
  - assert (Hc : i = 0 \/ i = 1 \/ i = 2 \/ i = 3 \/ i = 4 \/ i = 5 \/ i = 6 \/ i = 7) by lia.
    by destruct Hc as [->|[->|[->|[->|[->|[->|[->| ->]]]]]]].
  - rewrite lookup_ge_None_2 by (simpl; lia). simpl.
    rewrite <- (Z.mod_small b (2 ^ 8)) by lia. symmetry. apply Z.mod_pow2_bits_high. lia.
Qed.

Lemma zlen_bytes_bits (bs : bytes) : zlen (flat_map byte_bits bs) = 8 * zlen bs.
Proof.
  induction bs as [|b bs IH]; cbn [flat_map]; [done|].
  rewrite zlen_app, zlen_cons, IH. unfold zlen at 1. rewrite byte_bits_length. lia.
Qed.

Lemma bytes_bits_val bs : are_bytes bs -> bits_val (flat_map byte_bits bs) = be_val bs.
Proof.
  induction 1 as [|b bs Hb Hbs IH]; [done|]. cbn [flat_map].
  rewrite bits_val_app, byte_bits_val, IH, be_val_cons, zlen_bytes_bits by done.
  rewrite Z.pow_mul_r by (pose proof (zlen_nonneg bs); lia). done.
Qed.
End BitValues.
