(* ===== verification/BitUtils.v ===== *)
(** * Bit utilities ([tezos/encoding/src/bit_utils.rs])

    [Bits] is the trait with its three implementations (the width is its
    parameter); [reverse], [trim_left] and [to_byte_vec] are the extension
    traits of [BitVec]. *)

From Stdlib Require Import ZArith Lia List Bool.
From stdpp Require Import base option list numbers.
From S2P Require Import Prelude Extern.

Inductive BitsError : Type := IndexOutOfRange.

Module Bits.
(** [Bits::WIDTH] of [u8], [u16] and [u32]. *)
Inductive prim : Type := U8 | U16 | U32.

Definition WIDTH (p : prim) : Z :=
  match p with U8 => 8 | U16 => 16 | U32 => 32 end.
Definition BITS (p : prim) : Z :=
  match p with U8 => 3 | U16 => 4 | U32 => 5 end.
Definition MASK (p : prim) : Z := WIDTH p - 1.
Definition MAX_ELT (p : prim) : Z := Z.shiftr usize_max (BITS p).

(** [!x] at the width of the type. *)
Definition bnot (p : prim) (x : Z) : Z := Z.lxor x (Z.ones (WIDTH p)).

(** [self << place], truncated to the width. *)
Definition bshl (p : prim) (x place : Z) : Z := Z.shiftl x place mod 2 ^ WIDTH p.

Definition set (p : prim) (x place : Z) (value : bool) : result BitsError Z :=
  if MASK p <? place then Err IndexOutOfRange
  else
    let x := Z.land x (bnot p (bshl p 1 place)) in
    Ok (Z.lor x (bshl p (Z.b2z value) place)).

Definition get (p : prim) (x place : Z) : result BitsError bool :=
  if MASK p <? place then Err IndexOutOfRange
  else Ok (Z.land (Z.shiftr x place) 1 =? 1).

Definition take (p : prim) (x place : Z) : result BitsError (bool * Z) :=
  if MASK p <? place then Err IndexOutOfRange
  else
    let mask := bshl p 1 place in
    let neg_mask := bnot p mask in
    let mask := Z.land mask x in
    Ok (negb (mask =? 0), Z.land x neg_mask).

(** ** Facts *)

Lemma BITS_WIDTH p : 2 ^ BITS p = WIDTH p.
Proof. by destruct p. Qed.

Lemma WIDTH_pos p : 8 <= WIDTH p.
Proof. destruct p; simpl; lia. Qed.

Lemma bshl_bit p v place i :
  0 <= place <= MASK p -> 0 <= i ->
  Z.testbit (bshl p (Z.b2z v) place) i = v && (i =? place).
Proof.
  unfold MASK, bshl. intros Hp Hi. pose proof (WIDTH_pos p).
  destruct (Z.ltb_spec i (WIDTH p)).
  - rewrite Z.mod_pow2_bits_low, Z.shiftl_spec by lia.
    destruct (Z.eqb_spec i place) as [->|Hne].
    + rewrite Z.sub_diag, Z.b2z_bit0. by destruct v.
    + rewrite andb_false_r. destruct (Z.ltb_spec i place).
      * apply Z.testbit_neg_r. lia.
      * destruct v; [|apply Z.bits_0].
        change (Z.b2z true) with (2 ^ 0). apply Z.pow2_bits_false. lia.
  - rewrite Z.mod_pow2_bits_high by lia.
    destruct (Z.eqb_spec i place); [lia|]. by rewrite andb_false_r.
Qed.

Lemma bnot_bit p x i : 0 <= i < WIDTH p -> Z.testbit (bnot p x) i = negb (Z.testbit x i).
Proof.
  intros Hi. unfold bnot. rewrite Z.lxor_spec, Z.ones_spec_low by lia. apply xorb_true_r.
Qed.

Lemma high_bits p x i : in_u (WIDTH p) x -> WIDTH p <= i -> Z.testbit x i = false.
Proof.
  intros Hx Hi. pose proof (WIDTH_pos p). unfold in_u in Hx.
  rewrite <- (Z.mod_small x (2 ^ WIDTH p)) by lia. apply Z.mod_pow2_bits_high. lia.
Qed.

Lemma bounded_bits w x :
  0 <= w -> 0 <= x -> (forall i, w <= i -> Z.testbit x i = false) -> in_u w x.
Proof.
  intros Hw Hx Hb. split; [done|].
  assert (x = x mod 2 ^ w) as ->; [|apply Z.mod_pos_bound; lia].
  apply Z.bits_inj'. intros i Hi. destruct (Z.ltb_spec i w).
  - by rewrite Z.mod_pow2_bits_low by lia.
  - rewrite Z.mod_pow2_bits_high by lia. apply Hb. lia.
Qed.

(** [get] reads the bit. *)
Lemma get_ok p x place :
  0 <= place <= MASK p -> get p x place = Ok (Z.testbit x place).
Proof.
  unfold get. intros H. destruct (Z.ltb_spec (MASK p) place); [lia|]. f_equal.
  change 1 with (Z.ones 1). rewrite Z.land_ones by lia.
  rewrite <- Z.bit0_mod, Z.shiftr_spec, Z.add_0_l by lia.
  by destruct (Z.testbit x place).
Qed.

(** [set] changes that bit only. *)
Lemma set_ok p x place v :
  in_u (WIDTH p) x -> 0 <= place <= MASK p ->
  exists x', set p x place v = Ok x' /\ in_u (WIDTH p) x' /\
    (forall i, 0 <= i -> Z.testbit x' i = if i =? place then v else Z.testbit x i).
Proof.
  intros Hx Hp. pose proof (WIDTH_pos p). unfold set.
  destruct (Z.ltb_spec (MASK p) place); [lia|]. eexists. split; [reflexivity|].
  assert (Hbits : forall i, 0 <= i ->
    Z.testbit (Z.lor (Z.land x (bnot p (bshl p 1 place))) (bshl p (Z.b2z v) place)) i =
    if i =? place then v else Z.testbit x i).
  { intros i Hi. rewrite Z.lor_spec, Z.land_spec, bshl_bit by lia.
    destruct (Z.ltb_spec i (WIDTH p)).
    - rewrite bnot_bit by lia. change 1 with (Z.b2z true). rewrite bshl_bit by lia.
      destruct (Z.eqb_spec i place); simpl; [by destruct (Z.testbit x i), v|].
      by rewrite andb_true_r, andb_false_r, orb_false_r.
    - unfold MASK in *. destruct (Z.eqb_spec i place); [lia|].
      rewrite (high_bits p x i) by (done || lia). simpl. by rewrite andb_false_r. }
  split; [|exact Hbits]. apply bounded_bits; [lia| |].
  - apply Z.lor_nonneg. split; [apply Z.land_nonneg; left; apply Hx|].
    unfold bshl. apply Z.mod_pos_bound. lia.
  - intros i Hi. rewrite Hbits by lia. unfold MASK in *.
    destruct (Z.eqb_spec i place); [lia|]. by apply (high_bits p).
Qed.

(** [take] reads the bit and clears it. *)
Lemma take_ok p x place :
  in_u (WIDTH p) x -> 0 <= place <= MASK p ->
  take p x place = Ok (Z.testbit x place, Z.clearbit x place).
Proof.
  intros Hx Hp. pose proof (WIDTH_pos p). unfold take.
  destruct (Z.ltb_spec (MASK p) place); [lia|].
  assert (Hm : Z.land (bshl p 1 place) x = Z.b2z (Z.testbit x place) * 2 ^ place).
  { apply Z.bits_inj'. intros i Hi. rewrite Z.land_spec.
    change 1 with (Z.b2z true). rewrite bshl_bit, <- Z.shiftl_mul_pow2, Z.shiftl_spec by lia.
    destruct (Z.eqb_spec i place) as [->|]; simpl.
    - by rewrite Z.sub_diag, Z.b2z_bit0.
    - destruct (Z.ltb_spec i place); [by rewrite Z.testbit_neg_r by lia|].
      destruct (Z.testbit x place); [|by rewrite Z.bits_0].
      change (Z.b2z true) with (2 ^ 0). by rewrite Z.pow2_bits_false by lia. }
  rewrite Hm. do 2 f_equal.
  - assert (0 < 2 ^ place) by (apply Z.pow_pos_nonneg; lia).
    destruct (Z.testbit x place); simpl; [|done].
    destruct (Z.eqb_spec (1 * 2 ^ place) 0); [lia|done].
  - apply Z.bits_inj'. intros i Hi. rewrite Z.land_spec, Z.clearbit_eqb.
    destruct (Z.ltb_spec i (WIDTH p)).
    + rewrite bnot_bit by lia. change 1 with (Z.b2z true). rewrite bshl_bit by lia.
      by rewrite Z.eqb_sym.
    + by rewrite (high_bits p x i) by (done || lia).
Qed.

(** Every operation refuses an index past the width. *)
Lemma out_of_range p x place v :
  MASK p < place ->
  set p x place v = Err IndexOutOfRange /\ get p x place = Err IndexOutOfRange /\
  take p x place = Err IndexOutOfRange.
Proof.
  intros H. unfold set, get, take. destruct (Z.ltb_spec (MASK p) place); [done|lia].
Qed.
End Bits.

(** ** Extensions of [BitVec] *)
Section BitVectors.
Context `{BitVecCrate}.

Definition reverse (v : BitVec) : BitVec :=
  fold_left bv_push (rev (bv_iter v)) bv_new.

(** The loop of [trim_left], with its [notrim] flag. *)
Fixpoint trim_loop (bits : list bool) (trimmed : BitVec) (notrim : bool) : BitVec :=
  match bits with
  | [] => trimmed
  | bit :: bits =>
      if bit then trim_loop bits (bv_push trimmed bit) true
      else if notrim then trim_loop bits (bv_push trimmed bit) notrim
      else trim_loop bits trimmed notrim
  end.
Definition trim_left (v : BitVec) : BitVec := trim_loop (bv_iter v) bv_new false.

(** The loop of [to_byte_vec]: the bytes so far, the byte being filled and the
    [offset] of the last bit written.  [byte.set] cannot fail here
    ([unreachable!]), its error keeps the byte. *)
Fixpoint byte_loop (bits : list bool) (idx_bit : Z) (bs : bytes) (byte offset : Z)
  : bytes * Z * Z :=
  match bits with
  | [] => (bs, byte, offset)
  | bit :: bits =>
      let idx_byte := idx_bit mod 8 in
      let byte := match Bits.set Bits.U8 byte idx_byte bit with Ok b => b | Err _ => byte end in
      if idx_byte =? 7 then byte_loop bits (idx_bit + 1) (bs ++ [byte]) 0 idx_byte
      else byte_loop bits (idx_bit + 1) bs byte idx_byte
  end.
Definition to_byte_vec (v : BitVec) : bytes :=
  let '(bs, byte, offset) := byte_loop (rev (bv_iter v)) 0 [] 0 0 in
  let bs := if negb (offset =? 7) then bs ++ [byte] else bs in
  rev bs.

Lemma push_all_iter l v : bv_iter (fold_left bv_push l v) = bv_iter v ++ l.
Proof.
  revert v. induction l as [|b l IH]; intros v; simpl; [by rewrite app_nil_r|].
  by rewrite IH, bv_push_spec, <- app_assoc.
Qed.

Lemma reverse_iter v : bv_iter (reverse v) = rev (bv_iter v).
Proof. unfold reverse. by rewrite push_all_iter, bv_new_spec. Qed.

Fixpoint drop_zeros (l : list bool) : list bool :=
  match l with false :: l => drop_zeros l | _ => l end.

Lemma trim_loop_iter l v notrim :
  bv_iter (trim_loop l v notrim) = bv_iter v ++ (if notrim then l else drop_zeros l).
Proof.
  revert v notrim. induction l as [|[|] l IH]; intros v notrim; simpl.
  - destruct notrim; by rewrite app_nil_r.
  - rewrite IH, bv_push_spec, <- app_assoc. by destruct notrim.
  - destruct notrim; rewrite IH, ?bv_push_spec, <- ?app_assoc; done.
Qed.

Lemma trim_left_iter v : bv_iter (trim_left v) = drop_zeros (bv_iter v).
Proof. unfold trim_left. by rewrite trim_loop_iter, bv_new_spec. Qed.

Lemma drop_zeros_val l : bits_val (drop_zeros l) = bits_val l.
Proof.
  induction l as [|[|] l IH]; simpl; [done|done|].
  rewrite IH. change (false :: l) with ([false] ++ l). rewrite bits_val_app.
  change (bits_val [false]) with 0. lia.
Qed.

Lemma drop_zeros_head l : drop_zeros l = [] \/ exists k, drop_zeros l = true :: k.
Proof. induction l as [|[|] l IH]; simpl; eauto. Qed.

(** After trimming, the length of the vector is the bit size of the number. *)
Lemma drop_zeros_len l :
  drop_zeros l <> [] -> 2 ^ (zlen (drop_zeros l) - 1) <= bits_val l < 2 ^ zlen (drop_zeros l).
Proof.
  intros Hne. rewrite <- drop_zeros_val. split; [|apply bits_val_bound].
  destruct (drop_zeros_head l) as [?|[k ->]]; [done|].
  change (true :: k) with ([true] ++ k). rewrite bits_val_app, zlen_app.
  change (zlen [true]) with 1. change (bits_val [true]) with 1.
  replace (1 + zlen k - 1) with (zlen k) by lia. pose proof (bits_val_bound k). lia.
Qed.

Lemma set_next_bit byte n b :
  0 <= n < 8 -> 0 <= byte < 2 ^ n ->
  Bits.set Bits.U8 byte n b = Ok (byte + 2 ^ n * Z.b2z b).
Proof.
  intros Hn Hb. assert (2 ^ n <= 2 ^ 7) by (apply Z.pow_le_mono_r; lia).
  destruct (Bits.set_ok Bits.U8 byte n b) as (x & -> & _ & Hx).
  { unfold in_u. simpl. lia. }
  { unfold Bits.MASK. simpl. lia. }
  f_equal. apply Z.bits_inj'. intros i Hi. rewrite Hx by done.
  assert (Hlow : forall j, n <= j -> Z.testbit byte j = false).
  { intros j Hj. rewrite <- (Z.mod_small byte (2 ^ n)) by lia.
    apply Z.mod_pow2_bits_high. lia. }
  replace (byte + 2 ^ n * Z.b2z b) with (Z.lor byte (Z.shiftl (Z.b2z b) n)).
  - rewrite Z.lor_spec, Z.shiftl_spec by done. destruct (Z.eqb_spec i n) as [->|].
    + by rewrite Z.sub_diag, Z.b2z_bit0, Hlow by lia.
    + destruct (Z.ltb_spec i n).
      * by rewrite (Z.testbit_neg_r _ (i - n)), orb_false_r by lia.
      * rewrite Hlow by lia. destruct b; [|by rewrite Z.bits_0].
        change (Z.b2z true) with (2 ^ 0). by rewrite Z.pow2_bits_false by lia.
  - rewrite Z.mul_comm, <- Z.shiftl_mul_pow2 by lia.
    assert (Hand : Z.land byte (Z.shiftl (Z.b2z b) n) = 0).
    { apply Z.bits_inj'. intros j Hj. rewrite Z.land_spec, Z.bits_0.
      destruct (Z.ltb_spec j n); [|by rewrite Hlow by lia].
      rewrite Z.shiftl_spec, (Z.testbit_neg_r _ (j - n)) by lia. apply andb_false_r. }
    rewrite <- Z.lxor_lor, Z.add_nocarry_lxor; done.
Qed.

Lemma byte_loop_spec bits : forall idx bs byte offset,
  0 <= idx -> 0 <= byte < 2 ^ (idx mod 8) -> are_bytes bs -> zlen bs = idx / 8 ->
  let '(bs', byte', offset') := byte_loop bits idx bs byte offset in
  let n := idx + zlen bits in
  are_bytes bs' /\ zlen bs' = n / 8 /\ 0 <= byte' < 2 ^ (n mod 8) /\
  le_val bs' + 256 ^ zlen bs' * byte' =
    le_val bs + 256 ^ zlen bs * byte + 2 ^ idx * lsb_val bits /\
  offset' = (if bits is [] then offset else (n - 1) mod 8).
Proof.
  induction bits as [|b bits IH]; intros idx bs byte offset Hi Hb Hbs Hl.
  { simpl. change (zlen []) with 0. rewrite Z.add_0_r. ssplit; try done; lia. }
  cbn [byte_loop]. pose proof (Z.mod_pos_bound idx 8 ltac:(lia)) as Hm.
  pose proof (Z.div_mod idx 8 ltac:(lia)) as Hdm.
  rewrite set_next_bit by lia.
  assert (Hpow : 256 ^ zlen bs * 2 ^ (idx mod 8) = 2 ^ idx).
  { rewrite Hl. change 256 with (2 ^ 8).
    rewrite <- Z.pow_mul_r, <- Z.pow_add_r by (try apply Z.div_pos; lia). f_equal. lia. }
  assert (Hn : idx + zlen (b :: bits) = idx + 1 + zlen bits) by (rewrite zlen_cons; lia).
  assert (Hoff : forall off, off = idx mod 8 ->
    (if bits is [] then off else (idx + 1 + zlen bits - 1) mod 8) = (idx + 1 + zlen bits - 1) mod 8).
  { intros off ->. destruct bits; [|done]. change (zlen []) with 0. f_equal. lia. }
  set (byte1 := byte + 2 ^ (idx mod 8) * Z.b2z b).
  assert (Hb1 : 0 <= byte1 < 2 ^ (idx mod 8 + 1)).
  { unfold byte1. rewrite Z.pow_add_r by lia. destruct b; simpl Z.b2z; lia. }
  destruct (Z.eqb_spec (idx mod 8) 7) as [H7|H7].
  - assert (Hnext : (idx + 1) / 8 = idx / 8 + 1).
    { symmetry. apply (Z.div_unique_pos _ _ _ 0); lia. }
    assert (Hmod : (idx + 1) mod 8 = 0).
    { symmetry. apply (Z.mod_unique_pos _ _ (idx / 8 + 1)); lia. }
    rewrite H7 in Hb1. change (2 ^ (7 + 1)) with 256 in Hb1.
    specialize (IH (idx + 1) (bs ++ [byte1]) 0 (idx mod 8)).
    rewrite Hn. destruct (byte_loop bits _ _ _ _) as [[bs' byte'] off'].
    destruct IH as (IH1 & IH2 & IH3 & IH4 & IH5).
    + lia.
    + rewrite Hmod. simpl. lia.
    + apply Forall_app. split; [done|]. apply List.Forall_cons; [done|constructor].
    + rewrite zlen_app, Hl, Hnext. done.
    + split; [done|]. split; [done|]. split; [done|]. split; [|rewrite IH5; by apply Hoff].
      rewrite IH4, le_val_app, zlen_app, Z.pow_add_r by (pose proof (zlen_nonneg bs); unfold zlen; simpl; lia).
      rewrite (Z.pow_add_r 2 idx 1) by lia. cbn [le_val lsb_val].
      unfold byte1. rewrite <- Hpow. lia.
  - assert (Hnext : (idx + 1) / 8 = idx / 8).
    { symmetry. apply (Z.div_unique_pos _ _ _ (idx mod 8 + 1)); lia. }
    assert (Hmod : (idx + 1) mod 8 = idx mod 8 + 1).
    { symmetry. apply (Z.mod_unique_pos _ _ (idx / 8)); lia. }
    specialize (IH (idx + 1) bs byte1 (idx mod 8)).
    rewrite Hn. destruct (byte_loop bits _ _ _ _) as [[bs' byte'] off'].
    destruct IH as (IH1 & IH2 & IH3 & IH4 & IH5); [lia|by rewrite Hmod|done|by rewrite Hnext|].
    split; [done|]. split; [done|]. split; [done|]. split; [|rewrite IH5; by apply Hoff].
    rewrite IH4, (Z.pow_add_r 2 idx 1) by lia. cbn [lsb_val].
    unfold byte1. rewrite <- Hpow. lia.
Qed.

(** [to_byte_vec] is the big-endian byte string of the number the bits write,
    in as few bytes as hold the bits, and in one zero byte when there are none. *)
Lemma to_byte_vec_spec v :
  are_bytes (to_byte_vec v) /\ be_val (to_byte_vec v) = bits_val (bv_iter v) /\
  zlen (to_byte_vec v) = Z.max 1 ((zlen (bv_iter v) + 7) / 8).
Proof.
  unfold to_byte_vec, bits_val. rewrite <- (zlen_rev (bv_iter v)).
  generalize (rev (bv_iter v)) as l. intros l.
  pose proof (byte_loop_spec l 0 [] 0 0) as Hs.
  destruct (byte_loop l 0 [] 0 0) as [[bs byte] off].
  destruct Hs as (H1 & H2 & H3 & H4 & H5);
    [lia|vm_compute; done|constructor|reflexivity|].
  change (zlen []) with 0 in H4. simpl in H4. rewrite Z.add_0_l in *.
  pose proof (zlen_nonneg l) as Hz. pose proof (Z.mod_pos_bound (zlen l) 8 ltac:(lia)).
  pose proof (Z.div_mod (zlen l) 8 ltac:(lia)).
  assert (Hoff : off = 7 <-> l <> [] /\ zlen l mod 8 = 0).
  { destruct l as [|b l']; [subst off; split; [lia|intros [? _]; done]|].
    rewrite H5. split.
    - intros H7. split; [done|]. pose proof (Z.div_mod (zlen (b :: l') - 1) 8 ltac:(lia)).
      symmetry. apply (Z.mod_unique_pos _ _ ((zlen (b :: l') - 1) / 8 + 1)); lia.
    - intros [_ Hz0]. symmetry. apply (Z.mod_unique_pos _ _ (zlen (b :: l') / 8 - 1)); lia. }
  assert (Hpow : 2 ^ (zlen l mod 8) <= 2 ^ 7) by (apply Z.pow_le_mono_r; lia).
  destruct (Z.eqb_spec off 7) as [E|E]; cbn [negb].
  - destruct (proj1 Hoff E) as [Hne Hz0]. rewrite Hz0 in H3.
    change (2 ^ 0) with 1 in H3. assert (byte = 0) by lia. subst byte.
    split; [by apply are_bytes_rev|]. split; [unfold be_val; rewrite rev_involutive; lia|].
    rewrite zlen_rev, H2. replace ((zlen l + 7) / 8) with (zlen l / 8).
    + assert (zlen l <> 0) by (destruct l; [done|rewrite zlen_cons; pose proof (zlen_nonneg l); lia]). lia.
    + apply (Z.div_unique_pos _ _ _ 7); lia.
  - split; [|split].
    + apply are_bytes_rev, Forall_app. split; [done|]. apply List.Forall_cons; [|constructor]. unfold is_byte. lia.
    + unfold be_val. rewrite rev_involutive, le_val_app. simpl. lia.
    + rewrite zlen_rev, zlen_app, H2. change (zlen [byte]) with 1.
      destruct (Z.eq_dec (zlen l mod 8) 0) as [Hz0|Hz0].
      * assert (l = []) as -> by (destruct l; [done|]; exfalso; apply E, Hoff; done). done.
      * replace ((zlen l + 7) / 8) with (zlen l / 8 + 1); [lia|].
        apply (Z.div_unique_pos _ _ _ (zlen l mod 8 - 1)); lia.
Qed.
End BitVectors.

#[global] Opaque Bits.set Bits.get Bits.take.
