(* ===== verification/CryptoHash.v ===== *)
(** * Hashes ([crypto/src/hash.rs], [base58.rs], [blake2b.rs])

    [HashType] with its sizes and prefixes, typed hashes (a byte string of the
    right size), their base58check text form, and the Blake2b digests they come
    from.  The [base58] crate and libsodium are classes. *)

From Stdlib Require Import ZArith Lia List Bool.
From stdpp Require Import base option list numbers.
From S2P Require Import Prelude Extern.

(** ** The crates *)
Class Base58Crate : Type := {
  to_base58 : bytes -> bytes;
  from_base58 : bytes -> option bytes;
  from_to_base58 d : from_base58 (to_base58 d) = Some d;
  to_from_base58 s d : from_base58 s = Some d -> to_base58 d = s;
  to_base58_len d : zlen d <= zlen (to_base58 d) <= 2 * zlen d;
}.

Class Sodium : Type := {
  sha256 : bytes -> bytes;
  gh_state : Type;
  state_new : Z -> option gh_state;
  state_update : gh_state -> bytes -> option gh_state;
  state_finalize : gh_state -> option bytes;
  sha256_len d : zlen (sha256 d) = 32;
  sha256_bytes d : are_bytes (sha256 d);
  state_new_range n : is_Some (state_new n) <-> 16 <= n <= 64;
  generichash_ok n s d : state_new n = Some s ->
    exists s' h, state_update s d = Some s' /\ state_finalize s' = Some h /\
      zlen h = n /\ are_bytes h;
}.

#[export] Instance reference_base58 : Base58Crate.
Proof.
  refine {| to_base58 d := d; from_base58 s := Some s |}.
  - done.
  - intros s d [= ->]. done.
  - intros d. pose proof (zlen_nonneg d). lia.
Defined.

(** A stand-in digest for witnesses: the input's bytes, cut or padded. *)
Definition pad_to (n : Z) (d : bytes) : bytes :=
  take (Z.to_nat n) (map (fun b => b mod 256) d ++ replicate (Z.to_nat n) 0).

Lemma pad_to_len n d : 0 <= n -> zlen (pad_to n d) = n.
Proof.
  intros Hn. unfold zlen, pad_to. rewrite length_take, length_app, length_replicate. lia.
Qed.

Lemma pad_to_bytes n d : are_bytes (pad_to n d).
Proof.
  unfold pad_to, are_bytes. apply Forall_take, Forall_app. split.
  - apply Forall_map, list.Forall_true. intros b. unfold is_byte. simpl.
    pose proof (Z.mod_pos_bound b 256). lia.
  - apply Forall_replicate. unfold is_byte. lia.
Qed.

#[export] Instance reference_sodium : Sodium.
Proof.
  refine {|
    sha256 d := pad_to 32 d;
    gh_state := (Z * bytes)%type;
    state_new n := if (16 <=? n) && (n <=? 64) then Some (n, []) else None;
    state_update s d := Some (s.1, s.2 ++ d);
    state_finalize s := Some (pad_to s.1 s.2);
  |}.
  - intros d. by apply pad_to_len.
  - intros d. apply pad_to_bytes.
  - intros n. destruct (Z.leb_spec 16 n), (Z.leb_spec n 64); simpl; split; intros Hs;
      try lia; try (by destruct Hs); eauto.
  - intros n s d Hs. destruct (Z.leb_spec 16 n), (Z.leb_spec n 64); simpl in Hs; try done.
    simplify_eq. eexists _, _. split; [done|].
    split; [done|]. split; [apply pad_to_len; lia|apply pad_to_bytes].
Defined.

(** ** [HashType] *)
Inductive HashType : Type :=
| ChainId | BlockHash | BlockMetadataHash | ProtocolHash | ContextHash
| OperationHash | OperationListListHash | OperationMetadataHash
| OperationMetadataListListHash | CryptoboxPublicKeyHash | ContractKt1Hash
| ContractTz1Hash | ContractTz2Hash | ContractTz3Hash | PublicKeyEd25519
| PublicKeySecp256k1 | PublicKeyP256.

#[export] Instance HashType_eq_dec : EqDecision HashType.
Proof. solve_decision. Defined.

Definition base58check_prefix (t : HashType) : bytes :=
  match t with
  | ChainId => [87; 82; 0]
  | BlockHash => [1; 52]
  | BlockMetadataHash => [234; 249]
  | ContextHash => [79; 199]
  | ProtocolHash => [2; 170]
  | OperationHash => [5; 116]
  | OperationListListHash => [29; 159; 109]
  | OperationMetadataHash => [5; 183]
  | OperationMetadataListListHash => [29; 159; 182]
  | CryptoboxPublicKeyHash => [153; 103]
  | ContractKt1Hash => [2; 90; 121]
  | ContractTz1Hash => [6; 161; 159]
  | ContractTz2Hash => [6; 161; 161]
  | ContractTz3Hash => [6; 161; 164]
  | PublicKeyEd25519 => [13; 15; 37; 217]
  | PublicKeySecp256k1 => [3; 254; 226; 86]
  | PublicKeyP256 => [3; 178; 139; 127]
  end.

Definition hash_size (t : HashType) : Z :=
  match t with
  | ChainId => 4
  | BlockHash | BlockMetadataHash | ContextHash | ProtocolHash | OperationHash
  | OperationListListHash | OperationMetadataHash | OperationMetadataListListHash
  | PublicKeyEd25519 => 32
  | CryptoboxPublicKeyHash => 16
  | ContractKt1Hash | ContractTz1Hash | ContractTz2Hash | ContractTz3Hash => 20
  | PublicKeySecp256k1 | PublicKeyP256 => 33
  end.

Inductive FromBytesError : Type := InvalidSize.

Inductive FromBase58CheckError : Type :=
| InvalidBase58
| InvalidChecksum
| MissingChecksum
| FromDataTooLong
| MismatchedLength (expected actual : Z).

Inductive ToBase58CheckError : Type := ToDataTooLong.

(** What [hash_to_b58check] can end in besides its result: the error, or the
    [unreachable!] of its closure. *)
Inductive B58Outcome : Type :=
| B58Text (s : bytes)
| B58Error (e : FromBytesError)
| B58Unreachable.

(** [from_bytes] and [from_vec] of a typed hash; the hash is its bytes. *)
Definition hash_from_bytes (t : HashType) (data : bytes) : result FromBytesError bytes :=
  if zlen data =? hash_size t then Ok data else Err InvalidSize.

Section Base58Check.
Context `{Base58Crate, Sodium}.

Definition double_sha256 (data : bytes) : bytes := sha256 (sha256 data).

Definition CHECKSUM_BYTE_SIZE : Z := 4.

Definition to_base58check (data : bytes) : result ToBase58CheckError bytes :=
  if 128 <? zlen data then Err ToDataTooLong
  else Ok (to_base58 (data ++ take 4 (double_sha256 data))).

Definition from_base58check (s : bytes) : result FromBase58CheckError bytes :=
  if 128 <? zlen s then Err FromDataTooLong
  else
    match from_base58 s with
    | Some payload =>
        if CHECKSUM_BYTE_SIZE <=? zlen payload then
          let data_len := zlen payload - CHECKSUM_BYTE_SIZE in
          let data := take (Z.to_nat data_len) payload in
          let checksum_provided := drop (Z.to_nat data_len) payload in
          let checksum_expected := take 4 (double_sha256 data) in
          if decide (checksum_expected = checksum_provided) then Ok data
          else Err InvalidChecksum
        else Err MissingChecksum
    | None => Err InvalidBase58
    end.

Definition hash_to_b58check (t : HashType) (data : bytes) : B58Outcome :=
  if negb (hash_size t =? zlen data) then B58Error InvalidSize
  else
    match to_base58check (base58check_prefix t ++ data) with
    | Ok s => B58Text s
    | Err _ => B58Unreachable
    end.

Definition b58check_to_hash (t : HashType) (s : bytes) : result FromBase58CheckError bytes :=
  hash ← from_base58check s;
  let expected_len := hash_size t + zlen (base58check_prefix t) in
  if negb (expected_len =? zlen hash) then Err (MismatchedLength expected_len (zlen hash))
  else Ok (drop (length (base58check_prefix t)) hash).

(** ** Blake2b *)
Inductive Blake2bError : Type := InvalidLenght | Blake2bOther.

Definition digest (data : bytes) (out_len : Z) : result Blake2bError bytes :=
  hasher ← ok_or (state_new out_len) InvalidLenght;
  hasher ← ok_or (state_update hasher data) Blake2bOther;
  ok_or (state_finalize hasher) Blake2bOther.

Definition digest_256 (data : bytes) : result Blake2bError bytes := digest data 32.
Definition digest_160 (data : bytes) : result Blake2bError bytes := digest data 20.
Definition digest_128 (data : bytes) : result Blake2bError bytes := digest data 16.

Definition chain_id_from_block_hash (block_hash : bytes) : result Blake2bError bytes :=
  res ← digest_256 block_hash;
  match hash_from_bytes ChainId (take (Z.to_nat (hash_size ChainId)) res) with
  | Ok h => Ok h
  | Err _ => Err Blake2bOther
  end.

(** ** Facts *)

Lemma hash_size_bounds t : 4 <= hash_size t <= 33.
Proof. destruct t; simpl; lia. Qed.

Lemma prefix_bounds t : 2 <= zlen (base58check_prefix t) <= 4.
Proof. destruct t; vm_compute; split; discriminate. Qed.

Lemma checksum_len d : length (take 4 (double_sha256 d)) = 4%nat.
Proof.
  rewrite length_take. pose proof (sha256_len (sha256 d)) as E.
  unfold double_sha256, zlen in *. lia.
Qed.

(** Decoding undoes encoding, for every payload short enough for its text. *)
Lemma base58check_roundtrip d s :
  to_base58check d = Ok s -> zlen d <= 60 -> from_base58check s = Ok d.
Proof.
  unfold to_base58check, from_base58check. intros Hs Hd. inv_res Hs.
  set (c := take 4 (double_sha256 d)) in *.
  assert (Hc : zlen c = 4) by (unfold zlen, c; by rewrite checksum_len).
  pose proof (to_base58_len (d ++ c)) as Hl. rewrite zlen_app, Hc in Hl.
  destruct (Z.ltb_spec 128 (zlen (to_base58 (d ++ c)))); [lia|].
  rewrite from_to_base58, zlen_app, Hc. unfold CHECKSUM_BYTE_SIZE.
  pose proof (zlen_nonneg d). destruct (Z.leb_spec 4 (zlen d + 4)); [|lia].
  replace (Z.to_nat (zlen d + 4 - 4)) with (length d) by (unfold zlen; lia).
  rewrite take_app_len, drop_app_len. by rewrite decide_True.
Qed.

(** Whatever [from_base58check] accepts is the text of what it returns. *)
Lemma from_base58check_sound s d :
  from_base58check s = Ok d -> to_base58check d = Ok s.
Proof.
  unfold to_base58check, from_base58check. intros Hs.
  destruct (Z.ltb_spec 128 (zlen s)); [done|].
  destruct (from_base58 s) as [p|] eqn:Ep; [|done].
  destruct (Z.leb_spec CHECKSUM_BYTE_SIZE (zlen p)) as [Hp|]; [|done].
  case_decide as Hck; [|done]. simplify_eq. apply to_from_base58 in Ep. subst s.
  set (n := Z.to_nat (zlen p - CHECKSUM_BYTE_SIZE)) in *.
  pose proof (to_base58_len p) as Hl. unfold CHECKSUM_BYTE_SIZE, zlen in *.
  rewrite length_take. destruct (Z.ltb_spec 128 (Z.of_nat (n `min` length p))); [lia|].
  rewrite Hck. by rewrite take_drop.
Qed.

Lemma hash_to_b58check_text t h :
  zlen h = hash_size t ->
  exists s, hash_to_b58check t h = B58Text s /\
    from_base58check s = Ok (base58check_prefix t ++ h).
Proof.
  intros Hh. unfold hash_to_b58check. rewrite Hh, Z.eqb_refl. simpl.
  pose proof (hash_size_bounds t). pose proof (prefix_bounds t).
  destruct (to_base58check (base58check_prefix t ++ h)) as [s|] eqn:E.
  - exists s. split; [done|]. apply base58check_roundtrip; [done|]. rewrite zlen_app. lia.
  - unfold to_base58check in E. rewrite zlen_app in E.
    destruct (Z.ltb_spec 128 (zlen (base58check_prefix t) + zlen h)); [lia|done].
Qed.

Lemma b58check_to_hash_of t u h :
  hash_size t = hash_size u ->
  length (base58check_prefix t) = length (base58check_prefix u) ->
  zlen h = hash_size t ->
  exists s, hash_to_b58check t h = B58Text s /\ b58check_to_hash u s = Ok h.
Proof.
  intros Hsz Hpl Hh. destruct (hash_to_b58check_text t h Hh) as (s & Hs & Hf).
  exists s. split; [done|]. unfold b58check_to_hash. rewrite Hf. simpl.
  rewrite zlen_app, Hh, Hsz. unfold zlen at 1 2. rewrite Hpl.
  rewrite Z.add_comm, Z.eqb_refl. simpl. by rewrite <- Hpl, drop_app_len.
Qed.

Lemma digest_ok data n : 16 <= n <= 64 ->
  exists h, digest data n = Ok h /\ zlen h = n /\ are_bytes h.
Proof.
  intros Hn. apply state_new_range in Hn as [s Hs].
  destruct (generichash_ok n s data Hs) as (s' & h & Hu & Hf & Hl & Hb).
  exists h. unfold digest. rewrite Hs. simpl. rewrite Hu. simpl. by rewrite Hf.
Qed.
End Base58Check.

(** Every typed hash survives its text form: writing a hash of the right
    size as base58check never fails, and reading the text back as the same type
    gives the hash. *)
Theorem hash_text_roundtrip `{Base58Crate, Sodium} (t : HashType) (h : bytes) :
  zlen h = hash_size t ->
  exists s, hash_to_b58check t h = B58Text s /\ b58check_to_hash t s = Ok h.
Proof. intros Hh. by apply b58check_to_hash_of. Qed.

Example hash_text_roundtrip_witness :
  exists s, hash_to_b58check ChainId [142; 206; 218; 47] = B58Text s /\
    b58check_to_hash ChainId s = Ok [142; 206; 218; 47].
Proof. apply (hash_text_roundtrip ChainId [142; 206; 218; 47]). reflexivity. Defined.

(** [b58check_to_hash] never looks at the prefix: the text of a tz1
    address is accepted as a tz2 (and as a tz3) address with the same bytes. *)
Theorem b58_prefix_ignored `{Base58Crate, Sodium} (h : bytes) :
  zlen h = 20 ->
  exists s, hash_to_b58check ContractTz1Hash h = B58Text s /\
    b58check_to_hash ContractTz2Hash s = Ok h /\
    b58check_to_hash ContractTz3Hash s = Ok h.
Proof.
  intros Hh. destruct (b58check_to_hash_of ContractTz1Hash ContractTz2Hash h) as (s & Hs & H2);
    [done|done|done|].
  destruct (b58check_to_hash_of ContractTz1Hash ContractTz3Hash h) as (s' & Hs' & H3);
    [done|done|done|].
  rewrite Hs in Hs'. simplify_eq. eauto.
Qed.

Example b58_prefix_ignored_witness :
  exists s, hash_to_b58check ContractTz1Hash (replicate 20 7) = B58Text s /\
    b58check_to_hash ContractTz2Hash s = Ok (replicate 20 7) /\
    b58check_to_hash ContractTz3Hash s = Ok (replicate 20 7).
Proof. apply (b58_prefix_ignored (replicate 20 7)). reflexivity. Defined.
