(* ===== verification/Nonce.v ===== *)
(** * Nonces, keys, proofs of work, steps
    ([crypto/src/nonce.rs], [crypto_box.rs], [proof_of_work.rs],
    [seeded_step.rs])

    [num_bigint] and the [box] functions of [sodiumoxide] are the classes
    [BigUintCrate] and [BoxCrate].  The theorems: nonces are their 24-byte
    big-endian numbers until they overflow, both ends of a connection derive the
    same pair crosswise, what one end encrypts the other decrypts, a proof of
    work that is generated passes the check, and the steps of a block locator
    stay positive until their counter overflows. *)

From Stdlib Require Import ZArith Lia List Bool.
From stdpp Require Import base option list numbers.
From S2P Require Import Prelude Extern CryptoHash.

#[local] Open Scope Z_scope.

(** ** Third-party code *)

(** [num_bigint::BigUint]; its arithmetic is that of [Z]. *)
Class BigUintCrate : Type := {
  biguint_from_bytes_be : bytes -> Z;
  biguint_from_bytes_le : bytes -> Z;
  biguint_to_bytes_be : Z -> bytes;
  biguint_from_be_spec l : are_bytes l -> biguint_from_bytes_be l = be_val l;
  biguint_from_le_spec l : are_bytes l -> biguint_from_bytes_le l = le_val l;
  biguint_to_be_spec n : 0 <= n ->
    are_bytes (biguint_to_bytes_be n) /\ be_val (biguint_to_bytes_be n) = n;
  (* no leading zero, except for zero itself: a single byte *)
  biguint_to_be_short n : 0 <= n ->
    (length (biguint_to_bytes_be n) = 1)%nat \/
    exists b l, biguint_to_bytes_be n = b :: l /\ b <> 0;
}.

(** [sodiumoxide::crypto::box_]: authenticated encryption. *)
Class BoxCrate : Type := {
  seal_precomputed : bytes -> bytes -> bytes -> bytes;
  open_precomputed : bytes -> bytes -> bytes -> option bytes;
  seal_len m nonce key : zlen (seal_precomputed m nonce key) = zlen m + 16;
  seal_bytes m nonce key : are_bytes m -> are_bytes (seal_precomputed m nonce key);
  open_seal m nonce key : open_precomputed (seal_precomputed m nonce key) nonce key = Some m;
}.

Inductive CryptoError : Type :=
| InvalidKeySize (expected actual : Z)
| InvalidNonceSize (expected actual : Z)
| FailedToDecrypt.

(** ** [nonce.rs] *)
Definition NONCE_SIZE : Z := 24.
(* b"Init -> Resp", b"Resp -> Init" *)
Definition INIT_TO_RESP_SEED : bytes := [73; 110; 105; 116; 32; 45; 62; 32; 82; 101; 115; 112].
Definition RESP_TO_INIT_SEED : bytes := [82; 101; 115; 112; 32; 45; 62; 32; 73; 110; 105; 116].

Module Nonce.
Record t : Type := mk { value : Z }.

Section Ops.
Context `{BigUintCrate}.

Definition new (bs : bytes) : t := mk (biguint_from_bytes_be bs).

Definition increment (n : t) : t := mk (value n + 1).

Definition get_bytes (n : t) : result CryptoError bytes :=
  let bs := biguint_to_bytes_be (value n) in
  match zlen bs ?= NONCE_SIZE with
  | Gt => Err (InvalidNonceSize NONCE_SIZE (zlen bs))
  | c =>
      let bs := match c with
                | Lt => replicate (Z.to_nat (NONCE_SIZE - zlen bs)) 0 ++ bs
                | _ => bs
                end in
      if negb (zlen bs =? NONCE_SIZE) then Err (InvalidNonceSize NONCE_SIZE (zlen bs)) else Ok bs
  end.
End Ops.
End Nonce.

Record NoncePair : Type := mkNoncePair { local : Nonce.t; remote : Nonce.t }.

Section Generate.
Context `{BigUintCrate, Sodium}.

(** [None] as an error: the slice [[0..NONCE_SIZE]] of the digest panics. *)
Inductive NonceError : Type := NonceBlake2b (e : Blake2bError) | NoncePanicked.

Definition nonce_digest (init_msg resp_msg seed : bytes) : result NonceError bytes :=
  d ← map_err NonceBlake2b (digest_256 (init_msg ++ resp_msg ++ seed));
  if zlen d <? NONCE_SIZE then Err NoncePanicked else Ok (take (Z.to_nat NONCE_SIZE) d).

Definition generate_nonces (sent_msg recv_msg : bytes) (incoming : bool)
  : result NonceError NoncePair :=
  let (init_msg, resp_msg) := if incoming then (recv_msg, sent_msg) else (sent_msg, recv_msg) in
  nonce_init_to_resp ← nonce_digest init_msg resp_msg INIT_TO_RESP_SEED;
  nonce_resp_to_init ← nonce_digest init_msg resp_msg RESP_TO_INIT_SEED;
  Ok (if incoming
      then mkNoncePair (Nonce.new nonce_init_to_resp) (Nonce.new nonce_resp_to_init)
      else mkNoncePair (Nonce.new nonce_resp_to_init) (Nonce.new nonce_init_to_resp)).
End Generate.

(** ** [crypto_box.rs] *)
Definition BOX_ZERO_BYTES : Z := 32.
Definition CRYPTO_KEY_SIZE : Z := 32.

Section Box.
Context `{BigUintCrate, BoxCrate, Sodium}.

Definition ensure_crypto_key_bytes (buf : bytes) : result CryptoError bytes :=
  if negb (zlen buf =? CRYPTO_KEY_SIZE) then Err (InvalidKeySize CRYPTO_KEY_SIZE (zlen buf))
  else Ok buf.

Definition encrypt (key msg : bytes) (nonce : Nonce.t) : result CryptoError bytes :=
  box_nonce ← Nonce.get_bytes nonce; Ok (seal_precomputed msg box_nonce key).

Definition decrypt (key enc : bytes) (nonce : Nonce.t) : result CryptoError bytes :=
  box_nonce ← Nonce.get_bytes nonce;
  match open_precomputed enc box_nonce key with
  | Some msg => Ok msg
  | None => Err FailedToDecrypt
  end.

(** [PublicKey::public_key_hash]. *)
Inductive PublicKeyError : Type := PKHashError (e : FromBytesError) | PKBlake2b (e : Blake2bError).
Definition public_key_hash (key : bytes) : result PublicKeyError bytes :=
  d ← map_err PKBlake2b (digest_128 key);
  map_err PKHashError (hash_from_bytes CryptoboxPublicKeyHash d).
End Box.

(** ** [seeded_step.rs] *)
Module Step.
Record t : Type := mk { step : Z; counter : Z; seed : bytes }.

Section Ops.
Context `{Sodium}.

Definition init (sender_id receiver_id block_hash : bytes) : t :=
  mk 1 9 (sha256 (sender_id ++ receiver_id ++ block_hash)).

(** [None]: an arithmetic overflow, or a division by zero. *)
Definition i32 (z : Z) : option Z := if in_sb 32 z then Some z else None.

Definition random_gap (s : t) : option (Z * bytes) :=
  if step s <=? 1 then Some (0, seed s)
  else
    n ← i32 (Z.quot (step s) 2 + 1);
    if zlen (seed s) <? 4 then None
    else
      if n =? 0 then None
      else Some (Z.rem (swrap 32 (be_val (take 4 (seed s)))) n, sha256 (seed s)).

Definition next (s : t) : option (Z * t) :=
  r ← random_gap s;
  let (gap, seed) := (r : Z * bytes) in
  '(old_step, s') ←
    (if counter s =? 0 then
       new_step ← i32 (step s * 2); Some (step s, mk new_step 9 seed)
     else
       counter ← i32 (counter s - 1); Some (step s, mk (step s) counter seed));
  v ← i32 (old_step - gap);
  Some (v, s').
End Ops.
End Step.

(** ** Steps *)
Section Steps.
Context `{Sodium}.

(** The state after [i] calls of [next]. *)
Fixpoint after (i : nat) (s : Step.t) : option Step.t :=
  match i with
  | O => Some s
  | S i => s' ← after i s; snd <$> Step.next s'
  end.

Lemma after_S i s : after (S i) s = (s' ← after i s; snd <$> Step.next s').
Proof. done. Qed.

Definition step_shape (i : Z) (s : Step.t) : Prop :=
  Step.step s = 2 ^ (i / 10) /\ Step.counter s = 9 - i mod 10 /\
  zlen (Step.seed s) = 32 /\ are_bytes (Step.seed s).

(** The value returned by a call: half a step around the step. *)
Definition step_range (i v : Z) : Prop :=
  2 ^ (i / 10) - 2 ^ (i / 10) / 2 <= v <= 2 ^ (i / 10) + 2 ^ (i / 10) / 2.

Lemma step_size i : 0 <= i <= 309 -> 1 <= 2 ^ (i / 10) <= 2 ^ 30.
Proof.
  intros Hi. assert (0 <= i / 10 < 31) by (split; [apply Z.div_pos|apply Z.div_lt_upper_bound]; lia).
  split; [|apply Z.pow_le_mono_r; lia]. pose proof (Z.pow_pos_nonneg 2 (i / 10)). lia.
Qed.

Lemma i32_ok z : - 2 ^ 31 <= z < 2 ^ 31 -> Step.i32 z = Some z.
Proof.
  intros Hz. unfold Step.i32. rewrite (proj2 (in_sb_spec 32 z)); [done|exact Hz].
Qed.

Lemma gap_shape i s : 0 <= i <= 309 -> step_shape i s ->
  exists gap seed, Step.random_gap s = Some (gap, seed) /\
    - (2 ^ (i / 10) / 2) <= gap <= 2 ^ (i / 10) / 2 /\ zlen seed = 32 /\ are_bytes seed.
Proof.
  intros Hi (Es & Ec & El & Eb). pose proof (step_size i Hi) as Hs. unfold Step.random_gap.
  rewrite Es. destruct (Z.leb_spec (2 ^ (i / 10)) 1) as [H1|H1].
  - exists 0, (Step.seed s). split; [done|]. split; [|done].
    pose proof (Z.div_pos (2 ^ (i / 10)) 2). lia.
  - rewrite Z.quot_div_nonneg by lia.
    assert (Hd : 1 <= 2 ^ (i / 10) / 2 <= 2 ^ 29).
    { split; [apply Z.div_le_lower_bound|apply Z.div_le_upper_bound]; lia. }
    rewrite i32_ok by lia. cbn [mbind option_bind]. rewrite El. simpl.
    destruct (Z.eqb_spec (2 ^ (i / 10) / 2 + 1) 0); [lia|].
    eexists _, _. split; [reflexivity|]. split; [|split; [apply sha256_len|apply sha256_bytes]].
    set (m := 2 ^ (i / 10) / 2 + 1).
    pose proof (Z.rem_bound_abs (swrap 32 (be_val (take 4 (Step.seed s)))) m). lia.
Qed.

Lemma next_shape i s : 0 <= i < 309 -> step_shape i s ->
  exists v s', Step.next s = Some (v, s') /\ step_shape (i + 1) s' /\ step_range i v.
Proof.
  intros Hi Hsh. destruct (gap_shape i s) as (gap & seed & Eg & Hg & Hl & Hb); [lia|done|].
  destruct Hsh as (Es & Ec & _ & _). pose proof (step_size i) as Hs.
  assert (Hh : 0 <= 2 ^ (i / 10) / 2 <= 2 ^ 29).
  { split; [apply Z.div_pos; lia|apply Z.div_le_upper_bound; lia]. }
  unfold Step.next. rewrite Eg. cbn [mbind option_bind]. rewrite Ec, Es.
  pose proof (Z.mod_pos_bound i 10). pose proof (Z.div_mod i 10).
  destruct (Z.eqb_spec (9 - i mod 10) 0) as [E0|E0].
  - assert (Hi1 : (i + 1) / 10 = i / 10 + 1 /\ (i + 1) mod 10 = 0).
    { split; [symmetry; apply Z.div_unique with 0; lia|symmetry; apply Z.mod_unique with (i / 10 + 1); lia]. }
    assert (Hp : 2 ^ (i / 10) * 2 = 2 ^ (i / 10 + 1)).
    { rewrite Z.pow_add_r by (try apply Z.div_pos; lia). lia. }
    assert (i / 10 <= 29) by lia.
    assert (2 ^ (i / 10 + 1) <= 2 ^ 30) by (apply Z.pow_le_mono_r; lia).
    rewrite i32_ok by lia. cbn [mbind option_bind]. rewrite i32_ok by lia. cbn [mbind option_bind].
    eexists _, _. split; [reflexivity|]. split; [|unfold step_range; lia].
    unfold step_shape. cbn [Step.step Step.counter Step.seed]. destruct Hi1 as [-> ->].
    rewrite Hp. done.
  - assert (Hi1 : (i + 1) / 10 = i / 10 /\ (i + 1) mod 10 = i mod 10 + 1).
    { split; [symmetry; apply Z.div_unique with (i mod 10 + 1); lia
             |symmetry; apply Z.mod_unique with (i / 10); lia]. }
    rewrite i32_ok by lia. cbn [mbind option_bind]. rewrite i32_ok by lia. cbn [mbind option_bind].
    eexists _, _. split; [reflexivity|]. split; [|unfold step_range; lia].
    unfold step_shape. cbn [Step.step Step.counter Step.seed]. destruct Hi1 as [-> ->].
    repeat split; done || lia.
Qed.

Lemma init_shape a b c : step_shape 0 (Step.init a b c).
Proof. repeat split; [apply sha256_len|apply sha256_bytes]. Qed.

Lemma after_shape i s : step_shape 0 s -> Z.of_nat i <= 309 ->
  exists s', after i s = Some s' /\ step_shape (Z.of_nat i) s'.
Proof.
  intros Hs. induction i as [|i IH]; intros Hi; [by exists s|].
  destruct IH as (s' & E & Hs'); [lia|]. cbn [after]. rewrite E. cbn [mbind option_bind].
  destruct (next_shape (Z.of_nat i) s') as (v & s'' & En & Hs'' & _); [lia|done|].
  rewrite En. exists s''. split; [done|]. by replace (Z.of_nat (S i)) with (Z.of_nat i + 1) by lia.
Qed.
End Steps.

(** (C35) The steps of a block locator: each of the first 309 calls of [next]
    returns a positive number within half a step of the step, which doubles
    every ten calls; the 310th call overflows [i32]. *)
Theorem step_sequence `{Sodium} (sender receiver block : bytes) :
  (forall i : nat, Z.of_nat i < 309 ->
     exists s v s', after i (Step.init sender receiver block) = Some s /\
       Step.next s = Some (v, s') /\ step_range (Z.of_nat i) v /\ 1 <= v) /\
  after 310 (Step.init sender receiver block) = None.
Proof.
  split.
  - intros i Hi. destruct (after_shape i _ (init_shape sender receiver block)) as (s & Es & Hs); [lia|].
    destruct (next_shape (Z.of_nat i) s) as (v & s' & En & _ & Hv); [lia|done|].
    exists s, v, s'. do 3 (split; [done|]). pose proof (step_size (Z.of_nat i)).
    unfold step_range in Hv. pose proof (Z.div_lt (2 ^ (Z.of_nat i / 10)) 2). lia.
  - destruct (after_shape 309 _ (init_shape sender receiver block)) as (s & Es & Hs); [lia|].
    rewrite (after_S 309), Es. cbn [mbind option_bind].
    destruct (gap_shape 309 s) as (gap & seed & Eg & _); [lia|done|].
    destruct Hs as (E1 & E2 & _). unfold Step.next. rewrite Eg. cbn [mbind option_bind].
    rewrite E1, E2. reflexivity.
Qed.

Example step_sequence_witness :
  (forall i : nat, Z.of_nat i < 309 ->
     exists s v s', after i (Step.init [1] [2] [3]) = Some s /\
       Step.next s = Some (v, s') /\ step_range (Z.of_nat i) v /\ 1 <= v) /\
  after 310 (Step.init [1] [2] [3]) = None.
Proof. apply (step_sequence [1] [2] [3]). Defined.

(** ** Reference implementations *)

Definition byte_count (n : Z) : nat := Z.to_nat (Z.log2 n / 8 + 1).

Lemma byte_count_bound n : 0 <= n -> 0 <= n < 256 ^ Z.of_nat (byte_count n).
Proof.
  intros Hn. split; [done|]. unfold byte_count. pose proof (Z.log2_nonneg n) as Hl.
  pose proof (Z.div_pos (Z.log2 n) 8 Hl). rewrite Z2Nat.id by lia.
  change 256 with (2 ^ 8). rewrite <- Z.pow_mul_r by lia.
  destruct (Z.eq_dec n 0) as [->|]; [apply Z.pow_pos_nonneg; lia|].
  apply Z.log2_lt_pow2; [lia|]. pose proof (Z.div_mod (Z.log2 n) 8).
  pose proof (Z.mod_pos_bound (Z.log2 n) 8). lia.
Qed.

Lemma byte_count_low n : 0 < n -> 256 ^ (Z.of_nat (byte_count n) - 1) <= n.
Proof.
  intros Hn. unfold byte_count. pose proof (Z.log2_nonneg n) as Hl.
  pose proof (Z.div_pos (Z.log2 n) 8 Hl). rewrite Z2Nat.id by lia.
  replace (Z.log2 n / 8 + 1 - 1) with (Z.log2 n / 8) by lia.
  change 256 with (2 ^ 8). rewrite <- Z.pow_mul_r by lia.
  etransitivity; [|apply (Z.log2_spec n Hn)]. apply Z.pow_le_mono_r; [lia|].
  pose proof (Z.div_mod (Z.log2 n) 8). pose proof (Z.mod_pos_bound (Z.log2 n) 8). lia.
Qed.

#[export] Instance reference_biguint : BigUintCrate.
Proof.
  refine {| biguint_from_bytes_be := be_val; biguint_from_bytes_le := le_val;
            biguint_to_bytes_be n := be_bytes (byte_count n) n |}; try done.
  - intros n Hn. split; [apply be_bytes_are_bytes|].
    apply be_val_be_bytes_small, byte_count_bound, Hn.
  - intros n Hn. destruct (Z.eq_dec n 0) as [->|Hne].
    { left. by rewrite be_bytes_length. }
    right. pose proof (byte_count_low n) as Hlow. pose proof (byte_count_bound n Hn) as Hb.
    destruct (be_bytes (byte_count n) n) as [|b l] eqn:E.
    { pose proof (be_bytes_length (byte_count n) n) as Hl. rewrite E in Hl.
      assert (Hz : byte_count n = 0%nat) by done. rewrite Hz in Hb. simpl in Hb. lia. }
    exists b, l. split; [done|]. intros ->.
    pose proof (be_val_be_bytes_small _ _ Hb) as Hv. rewrite E in Hv.
    rewrite be_val_cons, Z.mul_0_l, Z.add_0_l in Hv.
    pose proof (be_bytes_are_bytes (byte_count n) n) as Ha. rewrite E in Ha.
    inversion Ha as [|? ? _ Ha']; subst. pose proof (be_val_bound l Ha') as Hlt.
    pose proof (be_bytes_length (byte_count (be_val l)) (be_val l)) as Hlen. rewrite E in Hlen.
    simpl in Hlen. rewrite <- Hlen in Hlow.
    replace (Z.of_nat (S (length l)) - 1) with (zlen l) in Hlow by (unfold zlen; lia).
    assert (0 < be_val l) by lia. specialize (Hlow ltac:(done)). lia.
Defined.

#[export] Instance reference_box : BoxCrate.
Proof.
  refine {| seal_precomputed m _ _ := m ++ replicate 16 0;
            open_precomputed c _ _ :=
              if 16 <=? zlen c then Some (take (length c - 16) c) else None |}.
  - intros m _ _. rewrite zlen_app. done.
  - intros m _ _ Hm. apply Forall_app. split; [done|]. apply Forall_replicate. unfold is_byte. lia.
  - intros m _ _. rewrite zlen_app. change (zlen (replicate 16 0)) with 16.
    pose proof (zlen_nonneg m). destruct (Z.leb_spec 16 (zlen m + 16)); [|lia].
    rewrite length_app, length_replicate. replace (length m + 16 - 16)%nat with (length m) by lia.
    by rewrite take_app_len.
Defined.

(** ** Nonces *)
Section NonceFacts.
Context `{BigUintCrate, BoxCrate, Sodium}.

Lemma be_val_zeros n l : be_val (replicate n 0 ++ l) = be_val l.
Proof.
  induction n as [|n IH]; [done|]. simpl. by rewrite be_val_cons, IH.
Qed.

Lemma to_be_long n k : 0 <= n -> (k < length (biguint_to_bytes_be n))%nat -> (0 < k)%nat ->
  256 ^ Z.of_nat k <= n.
Proof.
  intros Hn Hk Hk0. destruct (biguint_to_be_spec n Hn) as [Hb Hv].
  destruct (biguint_to_be_short n Hn) as [E|(b & l & E & Hne)]; [lia|].
  rewrite E in *. rewrite be_val_cons in Hv. simpl in Hk.
  inversion Hb as [|? ? Hb1 Hb2]; subst. pose proof (be_val_bound l Hb2).
  assert (256 ^ Z.of_nat k <= 256 ^ zlen l) by (apply Z.pow_le_mono_r; unfold zlen; lia).
  unfold is_byte in Hb1. nia.
Qed.

Lemma get_bytes_fits n : 0 <= n < 256 ^ 24 -> Nonce.get_bytes (Nonce.mk n) = Ok (be_bytes 24 n).
Proof.
  intros Hn. unfold Nonce.get_bytes, NONCE_SIZE. cbn [Nonce.value].
  destruct (biguint_to_be_spec n) as [Hb Hv]; [lia|].
  set (bs := biguint_to_bytes_be n) in *.
  assert (Hl : (length bs <= 24)%nat).
  { destruct (Nat.le_gt_cases (length bs) 24) as [|Hgt]; [done|].
    pose proof (to_be_long n 24 (proj1 Hn) Hgt). change (Z.of_nat 24) with 24 in *. lia. }
  assert (Hpad : forall z, be_val z = n -> are_bytes z -> length z = 24%nat -> z = be_bytes 24 n).
  { intros z Hz Hzb Hzl. rewrite <- Hz, <- Hzl. by rewrite be_bytes_be_val. }
  destruct (Z.compare_spec (zlen bs) 24) as [E|E|E].
  - rewrite E, Z.eqb_refl. cbn [negb]. f_equal. apply Hpad; [done|done|unfold zlen in E; lia].
  - set (z := replicate (Z.to_nat (24 - zlen bs)) 0 ++ bs).
    assert (Hz : length z = 24%nat).
    { unfold z. rewrite length_app, length_replicate. unfold zlen in *. lia. }
    assert (Hzz : zlen z = 24) by (unfold zlen; lia). rewrite Hzz, Z.eqb_refl. cbn [negb]. f_equal.
    apply Hpad; [unfold z; by rewrite be_val_zeros| |done].
    apply Forall_app. split; [apply Forall_replicate; unfold is_byte; lia|done].
  - unfold zlen in E. lia.
Qed.

Lemma get_bytes_overflow n : 256 ^ 24 <= n ->
  exists len, Nonce.get_bytes (Nonce.mk n) = Err (InvalidNonceSize 24 len) /\ 24 < len.
Proof.
  intros Hn. unfold Nonce.get_bytes, NONCE_SIZE. cbn [Nonce.value].
  destruct (biguint_to_be_spec n) as [Hb Hv]; [lia|].
  set (bs := biguint_to_bytes_be n) in *. pose proof (be_val_bound bs Hb) as Hlt.
  assert (Hl : 24 < zlen bs).
  { destruct (Z.lt_ge_cases 24 (zlen bs)) as [|Hle]; [done|].
    assert (256 ^ zlen bs <= 256 ^ 24) by (apply Z.pow_le_mono_r; lia). lia. }
  exists (zlen bs). split; [|done].
  by destruct (Z.compare_spec (zlen bs) 24); [lia|lia|].
Qed.

Lemma digest_256_total d : exists h, digest_256 d = Ok h /\ zlen h = 32 /\ are_bytes h.
Proof.
  unfold digest_256, digest. destruct (proj2 (state_new_range 32)) as [s Es]; [lia|]. rewrite Es.
  destruct (generichash_ok 32 s d Es) as (s' & h & E1 & E2 & E3 & E4). simpl. rewrite E1. simpl.
  rewrite E2. by exists h.
Qed.

Lemma nonce_digest_total a b s : exists h, nonce_digest a b s = Ok h /\ zlen h = 24 /\ are_bytes h.
Proof.
  unfold nonce_digest. destruct (digest_256_total (a ++ b ++ s)) as (h & -> & Hl & Hb). simpl.
  rewrite Hl. simpl. eexists. split; [done|]. split.
  - unfold zlen in *. rewrite length_take. unfold NONCE_SIZE. lia.
  - by apply Forall_take.
Qed.

Lemma encrypt_decrypt key m n c : encrypt key m n = Ok c -> decrypt key c n = Ok m.
Proof.
  unfold encrypt, decrypt. destruct (Nonce.get_bytes n) as [bn|]; [|done]. intros [= <-]. simpl.
  by rewrite open_seal.
Qed.
End NonceFacts.

(** A nonce made from bytes and incremented [k] times is sent as its 24-byte
    big-endian number, until it no longer fits, when [get_bytes] fails with the
    size it would need. *)
Theorem nonce_bytes `{BigUintCrate} (bs : bytes) (k : nat) :
  are_bytes bs ->
  match Nonce.get_bytes (Nat.iter k Nonce.increment (Nonce.new bs)) with
  | Ok l => l = be_bytes 24 (be_val bs + Z.of_nat k) /\ be_val bs + Z.of_nat k < 2 ^ 192
  | Err e => 2 ^ 192 <= be_val bs + Z.of_nat k /\ exists len, e = InvalidNonceSize 24 len /\ 24 < len
  end.
Proof.
  intros Hb. pose proof (be_val_bound bs Hb).
  assert (Hi : Nat.iter k Nonce.increment (Nonce.new bs) = Nonce.mk (be_val bs + Z.of_nat k)).
  { induction k as [|k IH]; simpl.
    - unfold Nonce.new. rewrite biguint_from_be_spec by done. f_equal. lia.
    - rewrite IH. unfold Nonce.increment. cbn [Nonce.value]. f_equal. lia. }
  rewrite Hi. change (2 ^ 192) with (256 ^ 24).
  destruct (Z.lt_ge_cases (be_val bs + Z.of_nat k) (256 ^ 24)) as [Hl|Hl].
  - rewrite get_bytes_fits by lia. done.
  - destruct (get_bytes_overflow _ Hl) as (len & -> & Hlen). eauto.
Qed.

Lemma nonce_bytes_witness :
  match Nonce.get_bytes (Nat.iter 2 Nonce.increment (Nonce.new [1; 255])) with
  | Ok l => l = be_bytes 24 (be_val [1; 255] + Z.of_nat 2) /\ be_val [1; 255] + Z.of_nat 2 < 2 ^ 192
  | Err e =>
      2 ^ 192 <= be_val [1; 255] + Z.of_nat 2 /\ exists len, e = InvalidNonceSize 24 len /\ 24 < len
  end.
Proof. apply (nonce_bytes [1; 255] 2). repeat constructor; done. Defined.

(** The two ends of a connection derive the same nonces, crosswise: what one
    end encrypts with its [local] nonce after [k] messages, the other decrypts
    with its [remote] nonce after [k] messages.  Deriving never fails. *)
Theorem nonces_agree `{BigUintCrate, BoxCrate, Sodium} (sent recv : bytes) :
  exists p q, generate_nonces sent recv false = Ok p /\ generate_nonces recv sent true = Ok q /\
    local p = remote q /\ remote p = local q /\
    forall key m k c,
      (encrypt key m (Nat.iter k Nonce.increment (local p)) = Ok c ->
       decrypt key c (Nat.iter k Nonce.increment (remote q)) = Ok m) /\
      (encrypt key m (Nat.iter k Nonce.increment (local q)) = Ok c ->
       decrypt key c (Nat.iter k Nonce.increment (remote p)) = Ok m).
Proof.
  unfold generate_nonces.
  destruct (nonce_digest_total sent recv INIT_TO_RESP_SEED) as (h & E1 & _).
  destruct (nonce_digest_total sent recv RESP_TO_INIT_SEED) as (h' & E2 & _).
  rewrite E1, E2. cbn [mbind result_bind]. eexists _, _. do 2 (split; [reflexivity|]).
  cbn [local remote]. do 2 (split; [done|]). intros key m k c.
  split; apply encrypt_decrypt.
Qed.

Example nonces_agree_witness :
  exists p q, generate_nonces [1] [2] false = Ok p /\ generate_nonces [2] [1] true = Ok q /\
    local p = remote q /\ remote p = local q /\
    forall key m k c,
      (encrypt key m (Nat.iter k Nonce.increment (local p)) = Ok c ->
       decrypt key c (Nat.iter k Nonce.increment (remote q)) = Ok m) /\
      (encrypt key m (Nat.iter k Nonce.increment (local q)) = Ok c ->
       decrypt key c (Nat.iter k Nonce.increment (remote p)) = Ok m).
Proof. apply (nonces_agree [1] [2]). Defined.

(** ** [proof_of_work.rs] *)
Module Pow.
Definition POW_SIZE : Z := NONCE_SIZE.
Definition u64_max : Z := 2 ^ 64 - 1.

(** What [make_target] computes with its [f64]: whether the fractional part is
    zero, the floor, and [2.0f64.powf(54.0 - frac) as u64]. *)
Record target : Type := mkTarget { frac_zero : bool; floor : Z; powf : Z }.

Definition make_target (t : target) : Z :=
  let m := if frac_zero t then Z.shiftl 1 54 - 1 else powf t in
  let shift := floor t in
  if shift <? 202 then Z.lor (Z.shiftl m (202 - shift)) (Z.shiftl 1 (202 - shift) - 1)
  else Z.shiftr m (shift - 202).

Inductive PowError : Type := CheckFailed | Blake2b (e : Blake2bError).

Section Check.
Context `{BigUintCrate, Sodium}.

Definition check_proof_of_work_inner (data : bytes) (target_number : Z) : result PowError unit :=
  hash ← map_err Blake2b (digest_256 data);
  if biguint_from_bytes_le hash <=? target_number then Ok tt else Err CheckFailed.

Definition check_proof_of_work (data : bytes) (t : target) : result PowError unit :=
  check_proof_of_work_inner data (make_target t).

Definition check (pow public_key : bytes) (t : target) : result PowError unit :=
  check_proof_of_work (public_key ++ pow) t.

(** [data[off..off+8]] as a number, and its replacement. *)
Definition u64_at (data : bytes) (off : nat) : Z := be_val (take 8 (drop off data)).
Definition set_u64 (data : bytes) (off : nat) (v : Z) : bytes :=
  take off data ++ be_bytes 8 v ++ drop (off + 8) data.

Definition increment (data : bytes) : bytes :=
  let c := u64_at data 0x30 in
  if c =? u64_max then
    let b := u64_at data 0x28 in
    if b =? u64_max then
      let a := u64_at data 0x20 in
      let a := if a =? u64_max then 0 else a + 1 in
      let data := set_u64 data 0x20 a in
      let data := set_u64 data 0x28 0 in
      set_u64 data 0x30 0
    else
      let data := set_u64 data 0x28 (b + 1) in
      set_u64 data 0x30 0
  else set_u64 data 0x30 (c + 1).

(** The loop of [generate], at most [rounds] times. *)
Fixpoint generate_loop (rounds : nat) (data : bytes) (target_number : Z) : option bytes :=
  match rounds with
  | O => None
  | S rounds =>
      match check_proof_of_work_inner data target_number with
      | Ok _ => Some (drop (Z.to_nat CRYPTO_KEY_SIZE) data)
      | Err _ => generate_loop rounds (increment data) target_number
      end
  end.

(** [random]: the 24 bytes of [randombytes]. *)
Definition generate (rounds : nat) (public_key random : bytes) (t : target) : option bytes :=
  generate_loop rounds (public_key ++ random) (make_target t).
End Check.
End Pow.

Section PowFacts.
Context `{BigUintCrate, Sodium}.

Lemma u64_at_mid (l r : bytes) v off : length l = off -> 0 <= v < 2 ^ 64 ->
  Pow.u64_at (l ++ be_bytes 8 v ++ r) off = v.
Proof.
  intros <- Hv. unfold Pow.u64_at. rewrite drop_app_len.
  replace 8%nat with (length (be_bytes 8 v)) at 1 by apply be_bytes_length.
  rewrite take_app_len. by apply be_val_be_bytes_small.
Qed.

Lemma set_u64_mid (l m r : bytes) v off : length l = off -> length m = 8%nat ->
  Pow.set_u64 (l ++ m ++ r) off v = l ++ be_bytes 8 v ++ r.
Proof.
  intros <- Hm. unfold Pow.set_u64. rewrite take_app_len. do 2 f_equal.
  rewrite app_assoc. replace (length l + 8)%nat with (length (l ++ m)) by (rewrite length_app; lia).
  by rewrite drop_app_len.
Qed.

(** Three 64-bit words are one 192-bit number. *)
Lemma words n :
  be_bytes 24 n = be_bytes 8 (n / 2 ^ 128) ++ be_bytes 8 (n / 2 ^ 64) ++ be_bytes 8 n.
Proof.
  change 24%nat with (8 + (8 + 8))%nat. rewrite !be_bytes_app. done.
Qed.

Lemma words_of a b c : 0 <= a < 2 ^ 64 -> 0 <= b < 2 ^ 64 -> 0 <= c < 2 ^ 64 ->
  be_bytes 8 a ++ be_bytes 8 b ++ be_bytes 8 c = be_bytes 24 (a * 2 ^ 128 + b * 2 ^ 64 + c).
Proof.
  intros Ha Hb Hc. rewrite words. f_equal; [|f_equal].
  - f_equal. apply Z.div_unique with (b * 2 ^ 64 + c); lia.
  - replace ((a * 2 ^ 128 + b * 2 ^ 64 + c) / 2 ^ 64) with (b + a * 256 ^ Z.of_nat 8).
    + by rewrite <- (be_bytes_mod 8 (b + _)), Z_mod_plus_full, be_bytes_mod.
    + apply Z.div_unique with c; change (256 ^ Z.of_nat 8) with (2 ^ 64); lia.
  - rewrite <- (be_bytes_mod 8 (_ + c)).
    replace (a * 2 ^ 128 + b * 2 ^ 64 + c) with (c + (a * 2 ^ 64 + b) * 256 ^ Z.of_nat 8).
    + by rewrite Z_mod_plus_full, be_bytes_mod.
    + change (256 ^ Z.of_nat 8) with (2 ^ 64). lia.
Qed.

(** The part after the key counts up by one, modulo [2 ^ 192]. *)
Lemma increment_counts key n : length key = 32%nat -> 0 <= n < 2 ^ 192 ->
  Pow.increment (key ++ be_bytes 24 n) = key ++ be_bytes 24 ((n + 1) mod 2 ^ 192).
Proof.
  intros Hk Hn. set (a := n / 2 ^ 128). set (b := n / 2 ^ 64 mod 2 ^ 64). set (c := n mod 2 ^ 64).
  assert (Ha : 0 <= a < 2 ^ 64).
  { split; [apply Z.div_pos; lia|apply Z.div_lt_upper_bound; lia]. }
  assert (Hb : 0 <= b < 2 ^ 64) by (apply Z.mod_pos_bound; lia).
  assert (Hc : 0 <= c < 2 ^ 64) by (apply Z.mod_pos_bound; lia).
  assert (En : n = a * 2 ^ 128 + b * 2 ^ 64 + c).
  { pose proof (Z.div_mod n (2 ^ 64)). pose proof (Z.div_mod (n / 2 ^ 64) (2 ^ 64)) as E2.
    rewrite Z.div_div in E2 by lia. change (2 ^ 64 * 2 ^ 64) with (2 ^ 128) in E2.
    unfold a, b, c. lia. }
  rewrite En at 1. rewrite <- words_of by done.
  assert (Hl1 : length (key ++ be_bytes 8 a) = 40%nat) by (rewrite length_app, be_bytes_length; lia).
  assert (Hl2 : length ((key ++ be_bytes 8 a) ++ be_bytes 8 b) = 48%nat)
    by (rewrite length_app, be_bytes_length; lia).
  assert (Hset : forall x y z v, Pow.set_u64 (key ++ be_bytes 8 x ++ be_bytes 8 y ++ be_bytes 8 z) 0x30 v
    = key ++ be_bytes 8 x ++ be_bytes 8 y ++ be_bytes 8 v).
  { intros x y z v. rewrite !app_assoc, <- (app_nil_r (be_bytes 8 z)).
    rewrite set_u64_mid by (rewrite ?length_app, ?be_bytes_length; lia). by rewrite app_nil_r. }
  assert (Hset' : forall x y z v, Pow.set_u64 (key ++ be_bytes 8 x ++ be_bytes 8 y ++ be_bytes 8 z) 0x28 v
    = key ++ be_bytes 8 x ++ be_bytes 8 v ++ be_bytes 8 z).
  { intros x y z v. rewrite app_assoc.
    rewrite set_u64_mid by (rewrite ?length_app, ?be_bytes_length; lia). by rewrite <- app_assoc. }
  assert (Hc' : Pow.u64_at (key ++ be_bytes 8 a ++ be_bytes 8 b ++ be_bytes 8 c) 0x30 = c).
  { rewrite !app_assoc, <- (app_nil_r (be_bytes 8 c)). by apply u64_at_mid. }
  assert (Hb' : Pow.u64_at (key ++ be_bytes 8 a ++ be_bytes 8 b ++ be_bytes 8 c) 0x28 = b).
  { rewrite app_assoc. by apply u64_at_mid. }
  assert (Ha' : Pow.u64_at (key ++ be_bytes 8 a ++ be_bytes 8 b ++ be_bytes 8 c) 0x20 = a).
  { by apply u64_at_mid. }
  unfold Pow.increment, Pow.u64_max. rewrite Hc', Hb', Ha'.
  destruct (Z.eqb_spec c (2 ^ 64 - 1)) as [Ec|Ec]; [destruct (Z.eqb_spec b (2 ^ 64 - 1)) as [Eb|Eb]|].
  - rewrite (set_u64_mid key) by (rewrite ?be_bytes_length; lia). rewrite Hset', Hset.
    destruct (Z.eqb_spec a (2 ^ 64 - 1)) as [Ea|Ea]; rewrite words_of by lia; do 2 f_equal.
    + symmetry. rewrite En, Ea, Eb, Ec. reflexivity.
    + rewrite Z.mod_small by lia. lia.
  - rewrite Hset', Hset, words_of by lia. do 2 f_equal. rewrite Z.mod_small by lia. lia.
  - rewrite Hset, words_of by lia. do 2 f_equal. rewrite Z.mod_small by lia. lia.
Qed.

(** The loop reaches a number [k] steps ahead. *)
Lemma generate_reaches key target : length key = 32%nat -> forall k n,
  0 <= n < 2 ^ 192 ->
  Pow.check_proof_of_work_inner (key ++ be_bytes 24 ((n + Z.of_nat k) mod 2 ^ 192)) target = Ok tt ->
  exists j m, (j <= k)%nat /\ 0 <= m < 2 ^ 192 /\
    Pow.generate_loop (S j) (key ++ be_bytes 24 n) target = Some (be_bytes 24 m) /\
    Pow.check_proof_of_work_inner (key ++ be_bytes 24 m) target = Ok tt.
Proof.
  intros Hk k. assert (Hdrop : forall l : bytes, drop (Z.to_nat CRYPTO_KEY_SIZE) (key ++ l) = l).
  { intros l. change (Z.to_nat CRYPTO_KEY_SIZE) with 32%nat. rewrite <- Hk. apply drop_app_len. }
  induction k as [|k IH]; intros n Hn Hc.
  - rewrite Z.add_0_r, Z.mod_small in Hc by done. exists 0%nat, n. split; [lia|]. split; [done|].
    split; [|done]. cbn [Pow.generate_loop]. by rewrite Hc, Hdrop.
  - destruct (Pow.check_proof_of_work_inner (key ++ be_bytes 24 n) target) as [[]|e] eqn:E.
    + exists 0%nat, n. split; [lia|]. split; [done|]. split; [|done].
      cbn [Pow.generate_loop]. by rewrite E, Hdrop.
    + destruct (IH ((n + 1) mod 2 ^ 192)) as (j & m & Hj & Hm & Hg & Hcm).
      * apply Z.mod_pos_bound. lia.
      * rewrite Zplus_mod_idemp_l. by replace (n + 1 + Z.of_nat k) with (n + Z.of_nat (S k)) by lia.
      * exists (S j), m. split; [lia|]. split; [done|]. split; [|done].
        rewrite <- Hg, <- increment_counts by done.
        change (Pow.generate_loop (S (S j)) (key ++ be_bytes 24 n) target) with
          (match Pow.check_proof_of_work_inner (key ++ be_bytes 24 n) target with
           | Ok _ => Some (drop (Z.to_nat CRYPTO_KEY_SIZE) (key ++ be_bytes 24 n))
           | Err _ => Pow.generate_loop (S j) (Pow.increment (key ++ be_bytes 24 n)) target
           end).
        by rewrite E.
Qed.

Lemma make_target_integer t p : 0 <= t < 256 ->
  Pow.make_target (Pow.mkTarget true t p) = 2 ^ (256 - t) - 1.
Proof.
  intros Ht. unfold Pow.make_target. cbn [Pow.frac_zero Pow.floor].
  change (Z.shiftl 1 54 - 1) with (Z.ones 54). destruct (Z.ltb_spec t 202).
  - rewrite Z.shiftl_1_l. replace (2 ^ (202 - t) - 1) with (Z.ones (202 - t)) by (rewrite Z.ones_equiv; lia).
    replace (2 ^ (256 - t) - 1) with (Z.ones (256 - t)) by (rewrite Z.ones_equiv; lia).
    apply Z.bits_inj'. intros i Hi. rewrite Z.lor_spec, Z.shiftl_spec by done.
    destruct (Z.lt_ge_cases i (202 - t)).
    + rewrite (Z.ones_spec_low (202 - t)), (Z.ones_spec_low (256 - t)) by lia. apply orb_true_r.
    + rewrite (Z.ones_spec_high (202 - t)) by lia. rewrite orb_false_r.
      destruct (Z.lt_ge_cases i (256 - t)).
      * by rewrite !Z.ones_spec_low by lia.
      * by rewrite !Z.ones_spec_high by lia.
  - replace (2 ^ (256 - t) - 1) with (Z.ones (256 - t)) by (rewrite Z.ones_equiv; lia).
    apply Z.bits_inj'. intros i Hi. rewrite Z.shiftr_spec by done.
    destruct (Z.lt_ge_cases i (256 - t)).
    + by rewrite !Z.ones_spec_low by lia.
    + by rewrite !Z.ones_spec_high by lia.
Qed.
End PowFacts.

(** Generating a proof of work terminates whenever some nonce meets the
    target, within [2 ^ 192] rounds whatever nonce it starts from, and its result
    passes [check]. *)
Theorem pow_generate_finds `{BigUintCrate, Sodium} (key random : bytes) (t : Pow.target) (good : bytes) :
  length key = 32%nat -> length random = 24%nat -> are_bytes random ->
  length good = 24%nat -> are_bytes good -> Pow.check good key t = Ok tt ->
  exists rounds pow, 0 < Z.of_nat rounds <= 2 ^ 192 /\
    Pow.generate rounds key random t = Some pow /\ Pow.check pow key t = Ok tt.
Proof.
  intros Hk Hr Hrb Hg Hgb Hc. pose proof (be_val_bound random Hrb) as Hn.
  pose proof (be_val_bound good Hgb) as Hm. unfold zlen in *. rewrite Hr in Hn. rewrite Hg in Hm.
  change (256 ^ Z.of_nat 24) with (2 ^ 192) in *.
  set (k := Z.to_nat ((be_val good - be_val random) mod 2 ^ 192)).
  assert (Hk' : Z.of_nat k = (be_val good - be_val random) mod 2 ^ 192).
  { unfold k. rewrite Z2Nat.id; [done|]. apply Z.mod_pos_bound. lia. }
  pose proof (be_bytes_be_val good Hgb) as Eg. rewrite Hg in Eg.
  pose proof (be_bytes_be_val random Hrb) as Er. rewrite Hr in Er.
  destruct (generate_reaches key (Pow.make_target t) Hk k (be_val random)) as (j & m & Hj & Hmm & Hgen & Hck).
  - done.
  - rewrite Hk', Zplus_mod_idemp_r. replace (be_val random + _) with (be_val good) by lia.
    rewrite Z.mod_small, Eg by done. exact Hc.
  - exists (S j), (be_bytes 24 m). split.
    + pose proof (Z.mod_pos_bound (be_val good - be_val random) (2 ^ 192)). lia.
    + unfold Pow.generate. rewrite <- Er. split; [exact Hgen|]. exact Hck.
Qed.

Lemma pow_generate_finds_witness :
  let key := repeat 0 32 in let random := repeat 255 24 in
  let t := Pow.mkTarget true 0 0 in
  exists rounds pow, 0 < Z.of_nat rounds <= 2 ^ 192 /\
    Pow.generate rounds key random t = Some pow /\ Pow.check pow key t = Ok tt.
Proof.
  apply (pow_generate_finds (repeat 0 32) (repeat 255 24) (Pow.mkTarget true 0 0) (repeat 7 24)).
  - reflexivity.
  - reflexivity.
  - repeat constructor; unfold is_byte; lia.
  - reflexivity.
  - repeat constructor; unfold is_byte; lia.
  - vm_compute. reflexivity.
Defined.

(** With a whole number [t] of bits as the target, the check accepts exactly
    the data whose digest, as a little-endian number, is below [2 ^ (256 - t)]. *)
Theorem pow_check_integer_target `{BigUintCrate, Sodium} (data : bytes) (t p : Z) :
  0 <= t < 256 ->
  exists h, digest_256 data = Ok h /\
    (Pow.check_proof_of_work data (Pow.mkTarget true t p) = Ok tt <-> le_val h < 2 ^ (256 - t)).
Proof.
  intros Ht. destruct (digest_256_total data) as (h & Eh & _ & Hb). exists h. split; [done|].
  unfold Pow.check_proof_of_work, Pow.check_proof_of_work_inner. rewrite Eh, make_target_integer by done.
  cbn [map_err mbind result_bind]. rewrite biguint_from_le_spec by done.
  destruct (Z.leb_spec (le_val h) (2 ^ (256 - t) - 1)); split; intros; try done; lia.
Qed.

Lemma pow_check_integer_target_witness :
  exists h, digest_256 [1; 2; 3] = Ok h /\
    (Pow.check_proof_of_work [1; 2; 3] (Pow.mkTarget true 232 0) = Ok tt <-> le_val h < 2 ^ (256 - 232)).
Proof. apply (pow_check_integer_target [1; 2; 3] 232 0). lia. Defined.
