(* ===== verification/Types.v ===== *)
(** * The intermediate format and the schemas
    ([tezos/encoding/src/types.rs], [encoding.rs])

    [Value] is the data a Rust value is first turned into, [Encoding] the schema
    that says how to write it, [TagMap] the two hash maps of an enum's tags.
    Rust strings are their UTF-8 bytes; field, variant and type names are Rocq
    strings; floats are bit patterns. *)

From Stdlib Require Import ZArith Lia List Bool String.
From stdpp Require Import base option list numbers strings.
From S2P Require Import Prelude Extern CryptoHash.

#[global] Open Scope Z_scope.
Set Warnings "-register-all".

Definition BYTE_VAL_TRUE : Z := 0xFF.
Definition BYTE_VAL_FALSE : Z := 0.
Definition BYTE_VAL_SOME : Z := 1.
Definition BYTE_VAL_NONE : Z := 0.
Definition BYTE_FIELD_SOME : Z := 0xFF.
Definition BYTE_FIELD_NONE : Z := 0.

(** ** [Value] *)
Inductive Value : Type :=
| VUnit
| VInt8 (z : Z)
| VUint8 (z : Z)
| VInt16 (z : Z)
| VUint16 (z : Z)
| VInt31 (z : Z)
| VInt32 (z : Z)
| VInt64 (z : Z)
| VRangedInt (z : Z)
| VFloat (bits : Z)
| VRangedFloat (bits : Z)
| VBool (b : bool)
| VString (s : bytes)
| VBytes (l : bytes)
| VOption (o : option Value)
| VList (l : list Value)
| VEnum (name : option string) (ordinal : option Z)
| VTag (variant : string) (v : Value)
| VRecord (fields : list (string * Value))
| VTuple (l : list Value).

(** ** Hash maps

    [HashMap::insert] replaces the entry of its key and returns the old one. *)
Section HashMap.
Context {K V : Type} `{EqDecision K}.

Fixpoint hm_get (k : K) (m : list (K * V)) : option V :=
  match m with
  | [] => None
  | (k', v) :: m => if decide (k = k') then Some v else hm_get k m
  end.

Definition hm_remove (k : K) (m : list (K * V)) : list (K * V) :=
  filter (fun kv => kv.1 <> k) m.

Definition hm_insert (k : K) (v : V) (m : list (K * V)) : list (K * V) :=
  (k, v) :: hm_remove k m.

Lemma hm_get_insert_eq k v m : hm_get k (hm_insert k v m) = Some v.
Proof. unfold hm_insert. simpl. by rewrite decide_True. Qed.

Lemma hm_get_insert_ne k k' v m : k <> k' -> hm_get k (hm_insert k' v m) = hm_get k m.
Proof.
  intros Hne. unfold hm_insert. simpl. rewrite decide_False by done.
  induction m as [|[k1 v1] m IH]; simpl; [done|]. unfold hm_remove in *.
  rewrite filter_cons. case_decide as Hc; simpl in *.
  - by rewrite IH.
  - rewrite IH. destruct (decide (k = k1)); [congruence|done].
Qed.
End HashMap.
#[global] Arguments hm_insert : simpl never.

(** ** Errors of the writer ([ser::Error], [EncodingError])

    One constructor per message the sources build, with the data the message
    prints (the text itself is not kept), and the location the context methods
    accumulate.  [Panicked] is a Rust panic instead of an error. *)
Inductive Error : Type :=
| EncodingMismatch
| Unimplemented (method : string)
| U64TooLarge
| NoValueFor (field : string)
| SizeOverflow
| BoundExceeded (max actual : Z)
| OutsideInt31
| OutsideUint32
| NotImplemented (encoding : string)
| OrdinalTooLarge (ordinal : Z)
| NoOrdinal
| NotBytes
| WrongSize (expected actual : Z)
| NoTagFor (variant : string)
| NoVariantName
| UnsupportedTagSize (sz : Z)
| EmptyNumber
| HexError (e : FromHexError)
| NotEnoughBits
| BitsFailure
| WriteFailed
| PathTooLong (max : Z)
| Panicked.

Record EncodingError : Type := mkEncodingError { kind : Error; location : string }.

(** [ErrorInfo::from], [field] and [element_of]. *)
Definition error_info (e : Error) : EncodingError := mkEncodingError e "".

Open Scope string_scope.

Definition at_field (name : string) (e : EncodingError) : EncodingError :=
  mkEncodingError (kind e)
    (if decide (location e = "") then "field `" ++ name ++ "`"
     else location e ++ " @ field `" ++ name ++ "`").

Definition element_of (e : EncodingError) : EncodingError :=
  mkEncodingError (kind e)
    (if decide (location e = "") then "list element"
     else location e ++ " @ list element").

Close Scope string_scope.

(** ** [Encoding]

    A [TagMap] is nested inside [ETags] as its two maps.  [ECustom] carries the
    codec's [encode] applied to the encoding it sits in, which is how the writer
    always calls it. *)
Inductive Encoding : Type :=
| EUnit | EInt8 | EUint8 | EInt16 | EUint16 | EInt31 | EInt32 | EUint32 | EInt64
| ERangedInt | EZ | EMutez | EFloat | ERangedFloat | EBool | EString
| EBoundedString (max : Z)
| EBytes
| ETags (tag_sz : Z) (id_to_tag : list (Z * (Z * string * Encoding)))
    (variant_to_id : list (string * Z))
| EList (e : Encoding)
| EBoundedList (max : Z) (e : Encoding)
| EEnum
| EOption (e : Encoding)
| EOptionalField (e : Encoding)
| EObj (name : string) (schema : list (string * Encoding))
| ETup (es : list Encoding)
| EDynamic (e : Encoding)
| EBoundedDynamic (max : Z) (e : Encoding)
| ESized (size : Z) (e : Encoding)
| EBounded (max : Z) (e : Encoding)
| EGreedy (e : Encoding)
| EHash (t : HashType)
| ETimestamp
| ECustom (encode : bytes -> Value -> result Error (bytes * Z)).

(** [Tag] : the id, the variant's name and the encoding of its payload. *)
Abbreviation Tag := (Z * string * Encoding)%type.
Definition get_id (t : Tag) : Z := t.1.1.
Definition get_variant (t : Tag) : string := t.1.2.
Definition get_encoding (t : Tag) : Encoding := t.2.

Record TagMap : Type := mkTagMap {
  id_to_tag : list (Z * Tag);
  variant_to_id : list (string * Z);
}.

(** [TagMap::new]; a duplicated id trips the [debug_assert]. *)
Definition tag_map_step (m : option TagMap) (tag : Tag) : option TagMap :=
  tm ← m;
  if hm_get (get_id tag) (id_to_tag tm) is Some _ then None
  else Some (mkTagMap (hm_insert (get_id tag) tag (id_to_tag tm))
                      (hm_insert (get_variant tag) (get_id tag) (variant_to_id tm))).
Definition tag_map_new (tags : list Tag) : option TagMap :=
  fold_left tag_map_step tags (Some (mkTagMap [] [])).

Definition find_by_id (m : TagMap) (id : Z) : option Tag := hm_get id (id_to_tag m).
Definition find_by_variant (m : TagMap) (variant : string) : option Tag :=
  id ← hm_get variant (variant_to_id m); hm_get id (id_to_tag m).

(** [Encoding::Tags(size, TagMap::new(tags))]. *)
Definition tags (sz : Z) (m : TagMap) : Encoding := ETags sz (id_to_tag m) (variant_to_id m).

(** ** Tag maps *)

Lemma tag_map_none l : fold_left tag_map_step l None = None.
Proof. by induction l. Qed.

Lemma tag_map_fold l : forall m,
  NoDup (get_id <$> l) -> (forall t, t ∈ l -> hm_get (get_id t) (id_to_tag m) = None) ->
  exists m', fold_left tag_map_step l (Some m) = Some m' /\
    (forall id, find_by_id m' id =
       match list_find (fun t => get_id t = id) l with
       | Some (_, t) => Some t | None => find_by_id m id
       end) /\
    (NoDup (get_variant <$> l) -> forall v,
       hm_get v (variant_to_id m') =
       match list_find (fun t => get_variant t = v) l with
       | Some (_, t) => Some (get_id t) | None => hm_get v (variant_to_id m)
       end).
Proof.
  induction l as [|t l IH]; intros m Hnd Hfresh; cbn [fold_left].
  { exists m. split; [done|]. split; intros; done. }
  rewrite fmap_cons in Hnd. apply NoDup_cons in Hnd as [Hnin Hnd].
  unfold tag_map_step at 2. simpl. rewrite (Hfresh t) by (left).
  set (m1 := mkTagMap _ _). destruct (IH m1) as (m' & Hf & Hid & Hv); [done| |].
  { intros t' Ht'. unfold m1. cbn [id_to_tag].
    rewrite hm_get_insert_ne; [apply Hfresh; by right|].
    intros E. apply Hnin. rewrite <- E. by apply list_elem_of_fmap_2. }
  assert (Hm1 : forall id, find_by_id m1 id =
    if decide (get_id t = id) then Some t else find_by_id m id).
  { intros id. unfold find_by_id, m1. cbn [id_to_tag].
    case_decide; [subst; apply hm_get_insert_eq|by apply hm_get_insert_ne]. }
  assert (Hm2 : forall v, hm_get v (variant_to_id m1) =
    if decide (get_variant t = v) then Some (get_id t) else hm_get v (variant_to_id m)).
  { intros v. unfold m1. cbn [variant_to_id].
    case_decide; [subst; apply hm_get_insert_eq|by apply hm_get_insert_ne]. }
  exists m'. split; [exact Hf|]. clear Hf IH. clearbody m1. split.
  - intros id. rewrite Hid, Hm1. cbn [list_find]. case_decide as Hc.
    + destruct (list_find _ l) as [[i t']|] eqn:Ef; [|done].
      exfalso. apply list_find_Some in Ef as (Hl & He & _). apply Hnin.
      rewrite Hc, <- He. apply list_elem_of_fmap_2. by eapply list_elem_of_lookup_2.
    + by destruct (list_find _ l) as [[i t']|].
  - intros Hndv v. apply NoDup_cons in Hndv as [Hninv Hndv].
    rewrite (Hv Hndv), Hm2. cbn [list_find]. case_decide as Hc.
    + destruct (list_find _ l) as [[i t']|] eqn:Ef; [|done].
      exfalso. apply list_find_Some in Ef as (Hl & He & _). apply Hninv.
      rewrite Hc, <- He. apply list_elem_of_fmap_2. by eapply list_elem_of_lookup_2.
    + by destruct (list_find _ l) as [[i t']|].
Qed.

(** A map built from tags with distinct ids and distinct names finds each tag by
    its id and by its name, and finds nothing else. *)
Lemma tag_map_lookup l :
  NoDup (get_id <$> l) -> NoDup (get_variant <$> l) ->
  exists m, tag_map_new l = Some m /\
    (forall t, t ∈ l -> find_by_id m (get_id t) = Some t /\
                        find_by_variant m (get_variant t) = Some t) /\
    (forall v, v ∉ (get_variant <$> l) -> find_by_variant m v = None).
Proof.
  intros Hid Hv. destruct (tag_map_fold l (mkTagMap [] []) Hid) as (m & Hm & Hi & Hn); [done|].
  specialize (Hn Hv). exists m. split; [done|].
  assert (Huniq : forall (f : Tag -> string) t, NoDup (f <$> l) -> t ∈ l ->
    forall i t', list_find (fun x => f x = f t) l = Some (i, t') -> t' = t).
  { intros f t Hnd Ht i t' Hf. apply list_find_Some in Hf as (Hl & He & _).
    apply list_elem_of_lookup in Ht as [j Hj].
    assert (i = j) as ->; [|congruence]. eapply (NoDup_lookup (f <$> l)); [done| |].
    - by rewrite list_lookup_fmap, Hl.
    - rewrite list_lookup_fmap, Hj. simpl. by rewrite He. }
  assert (Huniq' : forall t, t ∈ l ->
    forall i t', list_find (fun x => get_id x = get_id t) l = Some (i, t') -> t' = t).
  { intros t Ht i t' Hf. apply list_find_Some in Hf as (Hl & He & _).
    apply list_elem_of_lookup in Ht as [j Hj].
    assert (i = j) as ->; [|congruence]. eapply (NoDup_lookup (get_id <$> l)); [done| |].
    - by rewrite list_lookup_fmap, Hl.
    - rewrite list_lookup_fmap, Hj. simpl. by rewrite He. }
  assert (Hex : forall (P : Tag -> Prop) `{forall x, Decision (P x)} t, t ∈ l -> P t ->
    exists i t', list_find P l = Some (i, t')).
  { intros P HP t Ht Hp. destruct (list_find_elem_of P l t Ht Hp) as [[i t'] Hf]. eauto. }
  assert (Hbyid : forall t, t ∈ l -> find_by_id m (get_id t) = Some t).
  { intros t Ht. rewrite Hi.
    destruct (Hex (fun x => get_id x = get_id t) _ t Ht eq_refl) as (i & t' & Hf).
    rewrite Hf. f_equal. by eapply Huniq'. }
  split.
  - intros t Ht. split; [by apply Hbyid|]. unfold find_by_variant. rewrite Hn.
    destruct (Hex (fun x => get_variant x = get_variant t) _ t Ht eq_refl) as (i & t' & Hf).
    rewrite Hf. simpl. rewrite (Huniq get_variant t Hv Ht _ _ Hf). by apply Hbyid.
  - intros v Hnin. unfold find_by_variant. rewrite Hn.
    destruct (list_find _ l) as [[i t']|] eqn:Ef; [|done]. exfalso.
    apply list_find_Some in Ef as (Hl & <- & _). apply Hnin.
    apply list_elem_of_fmap_2. by eapply list_elem_of_lookup_2.
Qed.
