(* ===== verification/Serializer.v ===== *)
(** * The serde serializer ([tezos/encoding/src/ser.rs])

    [rval] is a Rust value as its [Serialize] implementation presents it: one
    constructor per method of serde's [Serializer] trait, and one for each type
    with a hand-written implementation ([types::BigInt], which presents itself
    as a hexadecimal string, and [Path] of the messages, which checks its
    length and then presents a sequence).  [serialize] is what the methods of
    [Serializer], [SeqSerializer] and [StructSerializer] make of it. *)

From Stdlib Require Import ZArith Lia List Bool String.
From stdpp Require Import base option list numbers strings.
From S2P Require Import Prelude Extern CryptoHash Types.

Set Warnings "-register-all".

Inductive rval : Type :=
| RBool (b : bool)
| RI8 (z : Z)
| RI16 (z : Z)
| RI32 (z : Z)
| RI64 (z : Z)
| RU8 (z : Z)
| RU16 (z : Z)
| RU32 (z : Z)
| RU64 (z : Z)
| RF64 (bits : Z)
| RChar (code : Z)
| RStr (s : bytes)
| RBytes (l : bytes)
| RNone
| RSome (v : rval)
| RUnit
| RUnitStruct
| RUnitVariant (index : Z) (variant : string)
| RNewtypeStruct (v : rval)
| RNewtypeVariant (index : Z) (variant : string) (v : rval)
| RSeq (l : list rval)
| RTuple (l : list rval)
| RTupleStruct (l : list rval)
| RTupleVariant (l : list rval)
| RMap (l : list (rval * rval))
| RStruct (fields : list (string * rval))
| RStructVariant (fields : list (string * rval))
| RBigInt (z : Z)
| RPath (items : list rval).

(** The longest [Path] that is written ([operations_for_blocks.rs]). *)
Definition MAX_PASS_MERKLE_DEPTH : option Z := Some 3.

Definition path_fits (n : Z) : bool :=
  match MAX_PASS_MERKLE_DEPTH with Some max => n <=? max | None => true end.

Definition i32_max : Z := 2 ^ 31 - 1.
Definition i64_max : Z := 2 ^ 63 - 1.

Section Serialize.
Context `{BigIntCrate}.

Definition serialize_u32 (v : Z) : result Error Value :=
  if v <=? i32_max then Ok (VInt32 v) else Ok (VInt64 v).

Definition serialize_u64 (v : Z) : result Error Value :=
  if v <=? i64_max then Ok (VInt64 v) else Err U64TooLarge.

Fixpoint serialize (v : rval) : result Error Value :=
  match v with
  | RBool b => Ok (VBool b)
  | RI8 z => Ok (VInt8 z)
  | RI16 z => Ok (VInt16 z)
  | RI32 z => Ok (VInt32 z)
  | RI64 z => Ok (VInt64 z)
  | RU8 z => Ok (VUint8 z)
  | RU16 z => Ok (VUint16 z)
  | RU32 z => serialize_u32 z
  | RU64 z => serialize_u64 z
  | RF64 b => Ok (VFloat b)
  | RChar c => Ok (VUint8 (c mod 256))
  | RStr s => Ok (VString s)
  | RBytes l => Ok (VBytes l)
  | RNone => Ok (VOption None)
  | RSome v => x ← serialize v; Ok (VOption (Some x))
  | RUnit => Ok VUnit
  | RUnitStruct => Ok VUnit
  | RUnitVariant index variant => Ok (VEnum (Some variant) (Some index))
  | RNewtypeStruct v => serialize v
  | RNewtypeVariant _ variant v => x ← serialize v; Ok (VTag variant x)
  | RSeq l | RTuple l | RTupleStruct l => xs ← try_map serialize l; Ok (VList xs)
  | RTupleVariant _ => Err (Unimplemented "Serializer::serialize_tuple_variant")
  | RMap _ => Err (Unimplemented "Serializer::serialize_map")
  | RStruct fields =>
      xs ← try_map (fun nv => x ← serialize nv.2; Ok (nv.1, x)) fields; Ok (VRecord xs)
  | RStructVariant _ => Err (Unimplemented "Serializer::serialize_struct_variant")
  | RBigInt z => Ok (VString (to_str_radix_16 z))
  | RPath items =>
      if negb (path_fits (zlen items))
      then Err (PathTooLong (default 0 MAX_PASS_MERKLE_DEPTH))
      else xs ← try_map serialize items; Ok (VList xs)
  end.

(** ** The serializers of compounds

    [serialize] above says what comes out; these are the objects a [Serialize]
    implementation drives element by element. *)
Record SeqSerializer : Type := mkSeqSerializer { seq_items : list Value }.
Record StructSerializer : Type := mkStructSerializer { struct_fields : list (string * Value) }.

(** [SeqSerializer::new]; the capacity does not matter. *)
Definition seq_new (len : option Z) : SeqSerializer := mkSeqSerializer [].
Definition struct_new (len : Z) : StructSerializer := mkStructSerializer [].

(** [SerializeSeq] *)
Definition seq_serialize_element (value : rval) (self : SeqSerializer) : result Error SeqSerializer :=
  v ← serialize value; Ok (mkSeqSerializer (seq_items self ++ [v])).
Definition seq_end (self : SeqSerializer) : result Error Value := Ok (VList (seq_items self)).

(** [SerializeTuple] and [SerializeTupleStruct] *)
Definition tuple_serialize_element : rval -> SeqSerializer -> result Error SeqSerializer := seq_serialize_element.
Definition tuple_end : SeqSerializer -> result Error Value := seq_end.
Definition tuple_struct_serialize_field : rval -> SeqSerializer -> result Error SeqSerializer := seq_serialize_element.
Definition tuple_struct_end : SeqSerializer -> result Error Value := seq_end.

(** [SerializeStruct] *)
Definition struct_serialize_field (name : string) (value : rval) (self : StructSerializer)
  : result Error StructSerializer :=
  v ← serialize value; Ok (mkStructSerializer (struct_fields self ++ [(name, v)])).
Definition struct_end (self : StructSerializer) : result Error Value := Ok (VRecord (struct_fields self)).

(** The methods of the trait that start a compound. *)
Definition serialize_seq (len : option Z) : result Error SeqSerializer := Ok (seq_new len).
Definition serialize_tuple (len : Z) : result Error SeqSerializer := serialize_seq (Some len).
Definition serialize_tuple_struct (len : Z) : result Error SeqSerializer := serialize_seq (Some len).
Definition serialize_struct (len : Z) : result Error StructSerializer := Ok (struct_new len).

(** How a [Serialize] implementation drives them. *)
Definition drive {S X} (step : X -> S -> result Error S) (l : list X) (s : S) : result Error S :=
  fold_left (fun r x => s ← r; step x s) l (Ok s).

Lemma drive_cons {S X} (step : X -> S -> result Error S) x l s :
  drive step (x :: l) s = (s ← step x s; drive step l s).
Proof.
  unfold drive. cbn [fold_left mbind result_bind]. destruct (step x s) as [s'|e]; [done|].
  cbn. induction l as [|y l IH]; [done|]. exact IH.
Qed.

Lemma drive_seq l : forall s, drive seq_serialize_element l s =
  (xs ← try_map serialize l; Ok (mkSeqSerializer (seq_items s ++ xs))).
Proof.
  induction l as [|v l IH]; intros s; [cbn; rewrite app_nil_r; by destruct s|]. rewrite drive_cons.
  change (seq_serialize_element v s) with (x ← serialize v; Ok (mkSeqSerializer (seq_items s ++ [x]))).
  cbn [try_map]. destruct (serialize v) as [x|e]; [|done].
  cbn [mbind result_bind].
  rewrite IH. cbn [seq_items]. destruct (try_map serialize l) as [xs|e]; [|done]. cbn. by rewrite <- app_assoc.
Qed.

Lemma drive_struct l : forall s, drive (fun nv => struct_serialize_field nv.1 nv.2) l s =
  (xs ← try_map (fun nv => x ← serialize nv.2; Ok (nv.1, x)) l; Ok (mkStructSerializer (struct_fields s ++ xs))).
Proof.
  induction l as [|[n v] l IH]; intros s; [cbn; rewrite app_nil_r; by destruct s|]. rewrite drive_cons.
  cbn [fst snd]. change (struct_serialize_field n v s) with
    (x ← serialize v; Ok (mkStructSerializer (struct_fields s ++ [(n, x)]))). cbn [try_map fst snd]. destruct (serialize v) as [x|e]; cbn [mbind result_bind]; [|done].
  rewrite IH. cbn [struct_fields].
  destruct (try_map _ l) as [xs|e]; [|done]. cbn. by rewrite <- app_assoc.
Qed.

(** Driving the objects gives what [serialize] says. *)
Lemma serialize_driven l fields :
  (s ← serialize_seq None; s ← drive seq_serialize_element l s; seq_end s) = serialize (RSeq l) /\
  (s ← serialize_tuple (zlen l); s ← drive tuple_serialize_element l s; tuple_end s) = serialize (RTuple l) /\
  (s ← serialize_tuple_struct (zlen l); s ← drive tuple_struct_serialize_field l s; tuple_struct_end s) =
    serialize (RTupleStruct l) /\
  (s ← serialize_struct (zlen fields); s ← drive (fun nv => struct_serialize_field nv.1 nv.2) fields s;
   struct_end s) = serialize (RStruct fields).
Proof.
  unfold tuple_serialize_element, tuple_struct_serialize_field. cbn [serialize_seq serialize_tuple mbind result_bind
    serialize_tuple_struct serialize_struct]. rewrite !drive_seq, drive_struct. cbn [serialize].
  split; [by destruct (try_map serialize l)|]. split; [by destruct (try_map serialize l)|].
  split; [by destruct (try_map serialize l)|]. by destruct (try_map _ fields).
Qed.
End Serialize.
