(* ===== verification/BinaryWriter.v ===== *)
(** * The binary writer ([tezos/encoding/src/binary_writer.rs])

    [encode_value] writes a [Value] into a growing buffer along an [Encoding],
    exactly as the source does: it appends, counts bytes, and patches the length
    fields of dynamic blocks in place.  [WriterSpec.v] gives the same format as a
    function from values to byte strings, without buffer, counters or patching. *)

From Stdlib Require Import ZArith Lia List Bool String.
From stdpp Require Import base option list numbers strings.
From S2P Require Import Prelude Extern BitUtils CryptoHash Types Serializer.

Set Warnings "-register-all".

(** The Unicode tables of the standard library: whether the first character of
    a string that does not start with an ASCII byte is alphanumeric. *)
Class UnicodeTables : Type := { nonascii_alphanumeric : bytes -> bool }.

Definition ascii_alphanumeric (c : Z) : bool :=
  ((48 <=? c) && (c <=? 57)) || ((65 <=? c) && (c <=? 90)) || ((97 <=? c) && (c <=? 122)).

Definition u32_max : Z := 2 ^ 32 - 1.

(** [hm_get] with a continuation, so that a recursive call can go through it. *)
Section GetWith.
Context {K V B : Type} `{EqDecision K} (f : V -> B).

Fixpoint hm_get_with (k : K) (m : list (K * V)) : option B :=
  match m with
  | [] => None
  | (k', v) :: m => if decide (k = k') then Some (f v) else hm_get_with k m
  end.

Lemma hm_get_with_spec k m : hm_get_with k m = f <$> hm_get k m.
Proof. induction m as [|[k' v] m IH]; simpl; [done|]. by case_decide. Qed.
End GetWith.

Definition find_value_in_record_values (name : string) (values : list (string * Value))
  : option Value := hm_get name values.

Section Writer.
Context `{BytesCrate, BitVecCrate, HexCrate, UnicodeTables}.

Definition wres : Type := result EncodingError (bytes * Z).

Definition fail {A} (e : Error) : result EncodingError A := Err (error_info e).

(** [?] on a [ser::Error]. *)
Definition lift {A} (r : result Error A) : result EncodingError A := map_err error_info r.

(** ** Zarith numbers *)

Definition first_alphanumeric (value : bytes) : bool :=
  match value with
  | [] => false
  | c :: _ => if c <? 128 then ascii_alphanumeric c else nonascii_alphanumeric value
  end.

(** [for bit_idx in 0..count { n.set(bit_idx, bits.pop()?)? }] *)
Fixpoint pop_bits (count : nat) (bit_idx n : Z) (bits : BitVec) : result Error (Z * BitVec) :=
  match count with
  | O => Ok (n, bits)
  | S count =>
      match bv_pop bits with
      | None => Err NotEnoughBits
      | Some (b, bits) =>
          match Bits.set Bits.U8 n bit_idx b with
          | Ok n => pop_bits count (bit_idx + 1) n bits
          | Err _ => Err BitsFailure
          end
      end
  end.

(** [for chunk_idx in chunk_idx..=last_chunk_idx]; [todo] chunks are left. *)
Fixpoint encode_chunks (todo : nat) (chunk_idx last_chunk_idx : Z) (bits : BitVec)
  (data : bytes) : result Error bytes :=
  match todo with
  | O => Ok data
  | S todo =>
      let bit_count := Z.min 7 (bv_len bits) in
      r ← pop_bits (Z.to_nat bit_count) 0 0 bits;
      let '(n, bits) := r in
      n ← (if negb (chunk_idx =? last_chunk_idx)
           then map_err (fun _ => BitsFailure) (Bits.set Bits.U8 n 7 true) else Ok n);
      encode_chunks todo (chunk_idx + 1) last_chunk_idx bits (put_u8 data n)
  end.

(** The branch of [encode_z] for numbers of more than six bits.  With no bit
    left after the first byte, [bits.len() - 1] underflows. *)
Definition encode_z_long (data : bytes) (negative : bool) (bs : bytes)
  : result Error (bytes * Z) :=
  let data_len_before_write := zlen data in
  let bits := trim_left (bv_from_bytes bs) in
  let n := if negative then 0xC0 else 0x80 in
  r ← pop_bits 6 0 n bits;
  let '(n, bits) := r in
  let data := put_u8 data n in
  if bv_len bits =? 0 then Err Panicked
  else
    let last_chunk_idx := (bv_len bits - 1) / 7 in
    data ← encode_chunks (Z.to_nat (last_chunk_idx + 1)) 0 last_chunk_idx bits data;
    sz ← ok_or (checked_sub (zlen data) data_len_before_write) SizeOverflow;
    Ok (data, sz).

Definition encode_z (data value : bytes) : result Error (bytes * Z) :=
  match value with
  | [] => Err EmptyNumber
  | sign :: _ =>
      let '(decode_offset, negative) :=
        if first_alphanumeric value then (0%nat, false)
        else if sign =? 45 then (1%nat, true)
        else (1%nat, false) in
      (* slicing a string inside its first character panics *)
      if (128 <=? sign) && (Nat.eqb decode_offset 1) then Err Panicked
      else
      let hex_value := drop decode_offset value in
      let hex_value := if Nat.odd (length hex_value) then 48 :: hex_value else hex_value in
      bs ← map_err HexError (hex_decode hex_value);
      if (zlen bs =? 1) && (hd 0 bs <=? 0x3F)
      then Ok (put_u8 data (if negative then Z.lor (hd 0 bs) 0x40 else hd 0 bs), 1)
      else encode_z_long data negative bs
  end.

(** ** The pieces of [encode_value] *)

Definition write_tag_id (data : bytes) (tag_sz tag_id : Z) : result Error bytes :=
  if tag_sz =? 1 then Ok (put_u8 data (tag_id mod 256))
  else if tag_sz =? 2 then Ok (put_u16 data tag_id)
  else Err (UnsupportedTagSize tag_sz).

(** [data.len().checked_sub(data_len_before_write)] *)
Definition written (data : bytes) (data_len_before_write : Z) : wres :=
  sz ← lift (ok_or (checked_sub (zlen data) data_len_before_write) SizeOverflow);
  Ok (data, sz).

(** The loop of [Encoding::Bytes] and [Encoding::Hash]. *)
Fixpoint put_u8_values (data : bytes) (values : list Value) : result EncodingError bytes :=
  match values with
  | [] => Ok data
  | VUint8 b :: values => put_u8_values (put_u8 data b) values
  | _ :: _ => fail NotBytes
  end.

Definition encode_string (data s : bytes) : wres :=
  let data := put_slice (put_u32 data (zlen s mod 2 ^ 32)) s in
  sz ← lift (ok_or (checked_add 4 (zlen s)) SizeOverflow);
  Ok (data, sz).

(** The loop over the elements of a list, given the element's encoder. *)
Section Elements.
Context (encode : Value -> bytes -> wres).

Fixpoint encode_elements (values : list Value) (data : bytes) : result EncodingError bytes :=
  match values with
  | [] => Ok data
  | v :: values =>
      r ← map_err element_of (encode v data);
      encode_elements values r.1
  end.
End Elements.

(** [encode_record] and [encode_tuple], given [encode_any]. *)
Section Fields.
Context (encode_any : Encoding -> Value -> bytes -> wres).

Fixpoint record_loop (values : list (string * Value)) (schema : list (string * Encoding))
  (bytes_sz : Z) (data : bytes) : wres :=
  match schema with
  | [] => Ok (data, bytes_sz)
  | (name, encoding) :: schema =>
      value ← lift (ok_or (find_value_in_record_values name values) (NoValueFor name));
      r ← map_err (at_field name) (encode_any encoding value data);
      bytes_sz ← lift (ok_or (checked_add bytes_sz r.2) SizeOverflow);
      record_loop values schema bytes_sz r.1
  end.

Definition encode_record (schema : list (string * Encoding)) (value : Value) (data : bytes)
  : wres :=
  match value with
  | VRecord values => record_loop values schema 0 data
  | _ => fail EncodingMismatch
  end.

Fixpoint tuple_loop (encodings : list Encoding) (values : list Value) (bytes_sz : Z)
  (data : bytes) : wres :=
  match encodings with
  | [] => Ok (data, bytes_sz)
  | encoding :: encodings =>
      match values with
      | value :: values =>
          r ← encode_any encoding value data;
          bytes_sz ← lift (ok_or (checked_add bytes_sz r.2) SizeOverflow);
          tuple_loop encodings values bytes_sz r.1
      | [] => fail EncodingMismatch
      end
  end.

Definition encode_tuple (encodings : list Encoding) (value : Value) (data : bytes) : wres :=
  match value with
  | VTuple values => tuple_loop encodings values 0 data
  | _ => fail EncodingMismatch
  end.
End Fields.

(** Overwrites the length placeholder of a dynamic block
    ([data[before..after].write_u32::<BigEndian>(bytes_sz)]). *)
Definition patch_size (data : bytes) (before after bytes_sz : Z) : result EncodingError bytes :=
  if u32_max <? bytes_sz then fail SizeOverflow
  else
    let slice := take (Z.to_nat (after - before)) (drop (Z.to_nat before) data) in
    slice ← lift (ok_or (write_u32_be slice bytes_sz) WriteFailed);
    Ok (take (Z.to_nat before) data ++ slice ++ drop (Z.to_nat after) data).

Definition put_and_count (put : bytes -> Z -> bytes) (sz : Z) (data : bytes) (v : Z) : wres :=
  Ok (put data v, sz).

(** ** [encode_value]

    [encode_any] hands [Obj] and [Tup] to [encode_record] and [encode_tuple] and
    everything else to [encode_value], which does the same with [Obj] and [Tup];
    the recursive calls below are therefore written with [encode_value]. *)
Fixpoint encode_value (encoding : Encoding) (value : Value) (data : bytes) : wres :=
  match encoding with
  | EUnit => Ok (data, 0)
  | EInt8 => match value with VInt8 v => put_and_count put_i8 1 data v
             | _ => fail EncodingMismatch end
  | EUint8 => match value with VUint8 v => put_and_count put_u8 1 data v
              | _ => fail EncodingMismatch end
  | EInt16 => match value with VInt16 v => put_and_count put_i16 2 data v
              | _ => fail EncodingMismatch end
  | EUint16 => match value with VUint16 v => put_and_count put_u16 2 data v
               | _ => fail EncodingMismatch end
  | EInt32 => match value with VInt32 v => put_and_count put_i32 4 data v
              | _ => fail EncodingMismatch end
  | EInt31 =>
      match value with
      | VInt32 v => if Z.land v 0x7FFFFFFF =? v then put_and_count put_i32 4 data v
                    else fail OutsideInt31
      | _ => fail EncodingMismatch
      end
  | EUint32 =>
      match value with
      | VInt32 v => if 0 <=? v then put_and_count put_i32 4 data v else fail OutsideUint32
      | _ => fail EncodingMismatch
      end
  | ERangedInt => fail (NotImplemented "RangedInt")
  | ERangedFloat => fail (NotImplemented "RangedFloat")
  | EInt64 | ETimestamp =>
      match value with VInt64 v => put_and_count put_i64 8 data v
      | _ => fail EncodingMismatch end
  | EFloat => match value with VFloat v => put_and_count put_f64 8 data v
              | _ => fail EncodingMismatch end
  | EBool =>
      match value with
      | VBool v => Ok (put_u8 data (if v then BYTE_VAL_TRUE else BYTE_VAL_FALSE), 1)
      | _ => fail EncodingMismatch
      end
  | EZ | EMutez =>
      match value with VString v => lift (encode_z data v) | _ => fail EncodingMismatch end
  | EString =>
      match value with VString v => encode_string data v | _ => fail EncodingMismatch end
  | EBoundedString max =>
      match value with
      | VString v => if max <? zlen v then fail (BoundExceeded max (zlen v))
                     else encode_string data v
      | _ => fail EncodingMismatch
      end
  | EEnum =>
      match value with
      | VEnum _ (Some ordinal) =>
          if ordinal <=? 255 then Ok (put_u8 data ordinal, 1) else fail (OrdinalTooLarge ordinal)
      | VEnum _ None => fail NoOrdinal
      | _ => fail EncodingMismatch
      end
  | EList inner =>
      match value with
      | VList values =>
          data' ← encode_elements (encode_value inner) values data;
          written data' (zlen data)
      | _ => fail EncodingMismatch
      end
  | EBoundedList max inner =>
      match value with
      | VList values =>
          if max <? zlen values then fail (BoundExceeded max (zlen values))
          else
            data' ← encode_elements (encode_value inner) values data;
            written data' (zlen data)
      | _ => fail EncodingMismatch
      end
  | EBytes =>
      match value with
      | VList values => data' ← put_u8_values data values; written data' (zlen data)
      | _ => fail EncodingMismatch
      end
  | EHash t =>
      match value with
      | VList values =>
          data' ← put_u8_values data values;
          r ← written data' (zlen data);
          if r.2 =? hash_size t then Ok r else fail (WrongSize (hash_size t) r.2)
      | _ => fail EncodingMismatch
      end
  | EOption inner =>
      match value with
      | VOption (Some v) =>
          r ← encode_value inner v (put_u8 data BYTE_VAL_SOME);
          sz ← lift (ok_or (checked_add 1 r.2) SizeOverflow);
          Ok (r.1, sz)
      | VOption None => Ok (put_u8 data BYTE_VAL_NONE, 1)
      | _ => fail EncodingMismatch
      end
  | EOptionalField inner =>
      match value with
      | VOption (Some v) =>
          r ← encode_value inner v (put_u8 data BYTE_FIELD_SOME);
          sz ← lift (ok_or (checked_add 1 r.2) SizeOverflow);
          Ok (r.1, sz)
      | VOption None => Ok (put_u8 data BYTE_FIELD_NONE, 1)
      | _ => fail EncodingMismatch
      end
  | EDynamic inner =>
      let before := zlen data in
      let data := put_u32 data 0 in
      let after := zlen data in
      r ← encode_value inner value data;
      data' ← patch_size r.1 before after r.2;
      written data' before
  | EBoundedDynamic max inner =>
      let before := zlen data in
      let data := put_u32 data 0 in
      let after := zlen data in
      r ← encode_value inner value data;
      if max <? r.2 then fail (BoundExceeded max r.2)
      else
        data' ← patch_size r.1 before after r.2;
        written data' before
  | ESized size inner =>
      r ← encode_value inner value data;
      (* the message prints the two numbers in this order *)
      if r.2 =? size then Ok r else fail (WrongSize r.2 size)
  | EBounded max inner =>
      r ← encode_value inner value data;
      if r.2 <=? max then Ok r else fail (BoundExceeded max r.2)
  | EGreedy inner => encode_value inner value data
  | ETags tag_sz id_to_tag variant_to_id =>
      match value with
      | VTag variant v =>
          match hm_get variant variant_to_id with
          | Some id =>
              match hm_get_with (fun t => (t.1.1, encode_value t.2)) id id_to_tag with
              | Some (tag_id, encode) =>
                  data' ← lift (write_tag_id data tag_sz tag_id);
                  r ← encode v data';
                  written r.1 (zlen data)
              | None => fail (NoTagFor variant)
              end
          | None => fail (NoTagFor variant)
          end
      | VEnum variant _ =>
          variant ← lift (ok_or variant NoVariantName);
          match find_by_variant (mkTagMap id_to_tag variant_to_id) variant with
          | Some tag =>
              data' ← lift (write_tag_id data tag_sz (get_id tag));
              written data' (zlen data)
          | None => fail (NoTagFor variant)
          end
      | _ => fail EncodingMismatch
      end
  | ECustom encode => lift (encode data value)
  | EObj _ schema => encode_record encode_value schema value data
  | ETup encodings => encode_tuple encode_value encodings value data
  end.

Definition encode_any (encoding : Encoding) (value : Value) (data : bytes) : wres :=
  match encoding with
  | EObj _ schema => encode_record encode_value schema value data
  | ETup encodings => encode_tuple encode_value encodings value data
  | _ => encode_value encoding value data
  end.

Context `{BigIntCrate}.

(** [binary_writer::write]. *)
Definition write (data : rval) (encoding : Encoding) : result EncodingError bytes :=
  value ← lift (serialize data);
  r ← encode_any encoding value [];
  Ok r.1.
End Writer.
