(* ===== verification/WriterSpec.v ===== *)
(** * What the writer writes

    [write_spec] is the format of [binary_writer.rs] as a function from schemas
    and values to byte strings: no buffer, no counters, no patching.  The
    refinement lemma [encode_value_appends] says that [encode_value] appends
    exactly these bytes to whatever the buffer holds and answers their number,
    errors and error locations included. *)

From Stdlib Require Import ZArith Lia List Bool String.
From stdpp Require Import base option list numbers strings.
From S2P Require Import Prelude Extern BitUtils CryptoHash Types Serializer BinaryWriter.

(** Induction over [Encoding] with hypotheses for nested encodings. *)
Section EncodingInd.
Context (P : Encoding -> Prop).
Context (Hleaf : forall e,
  match e with
  | ETags _ _ _ | EList _ | EBoundedList _ _ | EOption _ | EOptionalField _
  | EObj _ _ | ETup _ | EDynamic _ | EBoundedDynamic _ _ | ESized _ _
  | EBounded _ _ | EGreedy _ => True
  | _ => P e
  end).
Context (Htags : forall sz i2t v2i, Forall (fun kt => P kt.2.2) i2t -> P (ETags sz i2t v2i)).
Context (Hlist : forall e, P e -> P (EList e)).
Context (Hblist : forall max e, P e -> P (EBoundedList max e)).
Context (Hoption : forall e, P e -> P (EOption e)).
Context (Hofield : forall e, P e -> P (EOptionalField e)).
Context (Hobj : forall n schema, Forall (fun f => P f.2) schema -> P (EObj n schema)).
Context (Htup : forall es, Forall P es -> P (ETup es)).
Context (Hdyn : forall e, P e -> P (EDynamic e)).
Context (Hbdyn : forall max e, P e -> P (EBoundedDynamic max e)).
Context (Hsized : forall n e, P e -> P (ESized n e)).
Context (Hbounded : forall n e, P e -> P (EBounded n e)).
Context (Hgreedy : forall e, P e -> P (EGreedy e)).

Fixpoint encoding_strong_ind (e : Encoding) : P e :=
  match e with
  | ETags sz i2t v2i =>
      Htags sz i2t v2i
        ((fix go (l : list (Z * (Z * string * Encoding))) : Forall (fun kt => P kt.2.2) l :=
          match l with
          | [] => List.Forall_nil _
          | x :: l => List.Forall_cons _ x l (encoding_strong_ind x.2.2) (go l)
          end) i2t)
  | EList e => Hlist e (encoding_strong_ind e)
  | EBoundedList m e => Hblist m e (encoding_strong_ind e)
  | EOption e => Hoption e (encoding_strong_ind e)
  | EOptionalField e => Hofield e (encoding_strong_ind e)
  | EObj n schema =>
      Hobj n schema
        ((fix go (l : list (string * Encoding)) : Forall (fun f => P f.2) l :=
          match l with
          | [] => List.Forall_nil _
          | x :: l => List.Forall_cons _ x l (encoding_strong_ind x.2) (go l)
          end) schema)
  | ETup es =>
      Htup es
        ((fix go (l : list Encoding) : Forall P l :=
          match l with
          | [] => List.Forall_nil _
          | x :: l => List.Forall_cons _ x l (encoding_strong_ind x) (go l)
          end) es)
  | EDynamic e => Hdyn e (encoding_strong_ind e)
  | EBoundedDynamic m e => Hbdyn m e (encoding_strong_ind e)
  | ESized n e => Hsized n e (encoding_strong_ind e)
  | EBounded n e => Hbounded n e (encoding_strong_ind e)
  | EGreedy e => Hgreedy e (encoding_strong_ind e)
  | e => Hleaf e
  end.
End EncodingInd.

Section Spec.
Context `{BytesCrate, BitVecCrate, HexCrate, UnicodeTables}.

Definition bres : Type := result EncodingError bytes.

(** Sizes are [usize]s. *)
Definition guard_size (bs : bytes) : bres :=
  if zlen bs <=? usize_max then Ok bs else fail SizeOverflow.

Definition string_bytes (s : bytes) : bres :=
  if 4 + zlen s <=? usize_max then Ok (be_bytes 4 (zlen s) ++ s) else fail SizeOverflow.

Fixpoint u8_values (values : list Value) : bres :=
  match values with
  | [] => Ok []
  | VUint8 b :: values => bs ← u8_values values; Ok (be_bytes 1 b ++ bs)
  | _ :: _ => fail NotBytes
  end.

Definition tag_bytes (sz id : Z) : bres :=
  if sz =? 1 then Ok (be_bytes 1 id) else if sz =? 2 then Ok (be_bytes 2 id)
  else fail (UnsupportedTagSize sz).

Definition block_bytes (bs : bytes) : bres :=
  if u32_max <? zlen bs then fail SizeOverflow else Ok (be_bytes 4 (zlen bs) ++ bs).

(** A number's bytes: [encode_z] on an empty buffer. *)
Definition z_bytes (v : bytes) : result Error bytes := r ← encode_z [] v; Ok r.1.

Section Loops.
Context (spec : Encoding -> Value -> bres).

Fixpoint record_spec (values : list (string * Value)) (schema : list (string * Encoding))
  (acc : bytes) : bres :=
  match schema with
  | [] => Ok acc
  | (name, encoding) :: schema =>
      value ← lift (ok_or (find_value_in_record_values name values) (NoValueFor name));
      bs ← map_err (at_field name) (spec encoding value);
      acc ← guard_size (acc ++ bs);
      record_spec values schema acc
  end.

Fixpoint tuple_spec (encodings : list Encoding) (values : list Value) (acc : bytes) : bres :=
  match encodings with
  | [] => Ok acc
  | encoding :: encodings =>
      match values with
      | value :: values =>
          bs ← spec encoding value;
          acc ← guard_size (acc ++ bs);
          tuple_spec encodings values acc
      | [] => fail EncodingMismatch
      end
  end.
End Loops.

Fixpoint write_spec (encoding : Encoding) (value : Value) : bres :=
  match encoding with
  | EUnit => Ok []
  | EInt8 => match value with VInt8 v => Ok (be_bytes 1 v) | _ => fail EncodingMismatch end
  | EUint8 => match value with VUint8 v => Ok (be_bytes 1 v) | _ => fail EncodingMismatch end
  | EInt16 => match value with VInt16 v => Ok (be_bytes 2 v) | _ => fail EncodingMismatch end
  | EUint16 => match value with VUint16 v => Ok (be_bytes 2 v) | _ => fail EncodingMismatch end
  | EInt32 => match value with VInt32 v => Ok (be_bytes 4 v) | _ => fail EncodingMismatch end
  | EInt31 =>
      match value with
      | VInt32 v => if Z.land v 0x7FFFFFFF =? v then Ok (be_bytes 4 v) else fail OutsideInt31
      | _ => fail EncodingMismatch
      end
  | EUint32 =>
      match value with
      | VInt32 v => if 0 <=? v then Ok (be_bytes 4 v) else fail OutsideUint32
      | _ => fail EncodingMismatch
      end
  | ERangedInt => fail (NotImplemented "RangedInt")
  | ERangedFloat => fail (NotImplemented "RangedFloat")
  | EInt64 | ETimestamp =>
      match value with VInt64 v => Ok (be_bytes 8 v) | _ => fail EncodingMismatch end
  | EFloat => match value with VFloat v => Ok (be_bytes 8 v) | _ => fail EncodingMismatch end
  | EBool =>
      match value with
      | VBool v => Ok (be_bytes 1 (if v then BYTE_VAL_TRUE else BYTE_VAL_FALSE))
      | _ => fail EncodingMismatch
      end
  | EZ | EMutez =>
      match value with VString v => lift (z_bytes v) | _ => fail EncodingMismatch end
  | EString => match value with VString v => string_bytes v | _ => fail EncodingMismatch end
  | EBoundedString max =>
      match value with
      | VString v => if max <? zlen v then fail (BoundExceeded max (zlen v)) else string_bytes v
      | _ => fail EncodingMismatch
      end
  | EEnum =>
      match value with
      | VEnum _ (Some ordinal) =>
          if ordinal <=? 255 then Ok (be_bytes 1 ordinal) else fail (OrdinalTooLarge ordinal)
      | VEnum _ None => fail NoOrdinal
      | _ => fail EncodingMismatch
      end
  | EList inner =>
      match value with
      | VList values =>
          bss ← try_map (fun v => map_err element_of (write_spec inner v)) values;
          Ok (concat bss)
      | _ => fail EncodingMismatch
      end
  | EBoundedList max inner =>
      match value with
      | VList values =>
          if max <? zlen values then fail (BoundExceeded max (zlen values))
          else
            bss ← try_map (fun v => map_err element_of (write_spec inner v)) values;
            Ok (concat bss)
      | _ => fail EncodingMismatch
      end
  | EBytes =>
      match value with VList values => u8_values values | _ => fail EncodingMismatch end
  | EHash t =>
      match value with
      | VList values =>
          bs ← u8_values values;
          if zlen bs =? hash_size t then Ok bs else fail (WrongSize (hash_size t) (zlen bs))
      | _ => fail EncodingMismatch
      end
  | EOption inner =>
      match value with
      | VOption (Some v) => bs ← write_spec inner v; guard_size (be_bytes 1 BYTE_VAL_SOME ++ bs)
      | VOption None => Ok (be_bytes 1 BYTE_VAL_NONE)
      | _ => fail EncodingMismatch
      end
  | EOptionalField inner =>
      match value with
      | VOption (Some v) =>
          bs ← write_spec inner v; guard_size (be_bytes 1 BYTE_FIELD_SOME ++ bs)
      | VOption None => Ok (be_bytes 1 BYTE_FIELD_NONE)
      | _ => fail EncodingMismatch
      end
  | EDynamic inner => bs ← write_spec inner value; block_bytes bs
  | EBoundedDynamic max inner =>
      bs ← write_spec inner value;
      if max <? zlen bs then fail (BoundExceeded max (zlen bs)) else block_bytes bs
  | ESized size inner =>
      bs ← write_spec inner value;
      if zlen bs =? size then Ok bs else fail (WrongSize (zlen bs) size)
  | EBounded max inner =>
      bs ← write_spec inner value;
      if zlen bs <=? max then Ok bs else fail (BoundExceeded max (zlen bs))
  | EGreedy inner => write_spec inner value
  | ETags tag_sz id_to_tag variant_to_id =>
      match value with
      | VTag variant v =>
          match hm_get variant variant_to_id with
          | Some id =>
              match hm_get_with (fun t => (t.1.1, write_spec t.2)) id id_to_tag with
              | Some (tag_id, spec) =>
                  tag ← tag_bytes tag_sz tag_id; bs ← spec v; Ok (tag ++ bs)
              | None => fail (NoTagFor variant)
              end
          | None => fail (NoTagFor variant)
          end
      | VEnum variant _ =>
          variant ← lift (ok_or variant NoVariantName);
          match find_by_variant (mkTagMap id_to_tag variant_to_id) variant with
          | Some tag => tag_bytes tag_sz (get_id tag)
          | None => fail (NoTagFor variant)
          end
      | _ => fail EncodingMismatch
      end
  | ECustom encode => r ← lift (encode [] value); Ok r.1
  | EObj _ schema =>
      match value with
      | VRecord values => record_spec write_spec values schema []
      | _ => fail EncodingMismatch
      end
  | ETup encodings =>
      match value with
      | VTuple values => tuple_spec write_spec encodings values []
      | _ => fail EncodingMismatch
      end
  end.

(** A custom codec that appends the same bytes to every buffer, and counts them. *)
Definition appends (encode : bytes -> Value -> result Error (bytes * Z)) : Prop :=
  forall data v, encode data v = (r ← encode [] v; Ok (data ++ r.1, zlen r.1)).

Fixpoint customs_append (e : Encoding) : Prop :=
  match e with
  | ECustom encode => appends encode
  | ETags _ i2t _ => foldr (fun kt P => customs_append kt.2.2 /\ P) True i2t
  | EObj _ schema => foldr (fun f P => customs_append f.2 /\ P) True schema
  | ETup es => foldr (fun e P => customs_append e /\ P) True es
  | EList e | EBoundedList _ e | EOption e | EOptionalField e | EDynamic e
  | EBoundedDynamic _ e | ESized _ e | EBounded _ e | EGreedy e => customs_append e
  | _ => True
  end.

(** What it means for an encoder to append [spec]'s bytes. *)
Definition appended (r : bres) (data : bytes) : wres :=
  bs ← r; Ok (data ++ bs, zlen bs).

(** ** The refinement *)

Lemma written_app data bs : written (data ++ bs) (zlen data) = Ok (data ++ bs, zlen bs).
Proof.
  unfold written. rewrite zlen_app, checked_sub_app by apply zlen_nonneg. done.
Qed.

Lemma put_u8_values_spec values : forall data,
  put_u8_values data values = (bs ← u8_values values; Ok (data ++ bs)).
Proof.
  induction values as [|v values IH]; intros data; simpl; [by rewrite app_nil_r|].
  destruct v; try done. rewrite IH, put_u8_spec. destruct (u8_values values); simpl; [|done].
  by rewrite <- app_assoc.
Qed.

Lemma encode_elements_spec encode spec values :
  (forall v data, encode v data = appended (spec v) data) -> forall data,
  encode_elements encode values data =
    (bss ← try_map (fun v => map_err element_of (spec v)) values; Ok (data ++ concat bss)).
Proof.
  intros Henc. induction values as [|v values IH]; intros data; simpl; [by rewrite app_nil_r|].
  rewrite Henc. unfold appended. destruct (spec v) as [bs|]; simpl; [|done].
  rewrite IH. destruct (try_map _ values) as [bss|]; simpl; [|done]. by rewrite app_assoc.
Qed.

Lemma record_loop_spec schema values : forall acc data,
  Forall (fun f => forall v data, encode_value f.2 v data = appended (write_spec f.2 v) data)
    schema ->
  record_loop encode_value values schema (zlen acc) (data ++ acc) =
    appended (record_spec write_spec values schema acc) data.
Proof.
  induction schema as [|[name e] schema IH]; intros acc data Hall; simpl; [done|].
  inversion Hall as [|? ? He Hall']; subst. simpl in He.
  destruct (find_value_in_record_values name values) as [v|]; simpl; [|done].
  rewrite He. unfold appended. destruct (write_spec e v) as [bs|]; simpl; [|done].
  unfold checked_add, guard_size. rewrite zlen_app.
  destruct (zlen acc + zlen bs <=? usize_max); simpl; [|done].
  rewrite <- app_assoc, <- zlen_app. by rewrite IH.
Qed.

Lemma tuple_loop_spec es : forall values acc data,
  Forall (fun e => forall v data, encode_value e v data = appended (write_spec e v) data) es ->
  tuple_loop encode_value es values (zlen acc) (data ++ acc) =
    appended (tuple_spec write_spec es values acc) data.
Proof.
  induction es as [|e es IH]; intros values acc data Hall; simpl; [done|].
  inversion Hall as [|? ? He Hall']; subst.
  destruct values as [|v values]; simpl; [done|].
  rewrite He. unfold appended. destruct (write_spec e v) as [bs|]; simpl; [|done].
  unfold checked_add, guard_size. rewrite zlen_app.
  destruct (zlen acc + zlen bs <=? usize_max); simpl; [|done].
  rewrite <- app_assoc, <- zlen_app. by rewrite IH.
Qed.

Lemma patch_size_spec data bs :
  (data' ← patch_size (data ++ be_bytes 4 0 ++ bs) (zlen data) (zlen (data ++ be_bytes 4 0))
     (zlen bs);
   written data' (zlen data)) = appended (block_bytes bs) data.
Proof.
  unfold patch_size, block_bytes, appended.
  destruct (u32_max <? zlen bs); simpl; [done|].
  rewrite zlen_app, zlen_be_bytes.
  replace (Z.to_nat (zlen data)) with (length data) by (unfold zlen; lia).
  replace (Z.to_nat (zlen data + Z.of_nat 4 - zlen data)) with 4%nat by lia.
  rewrite drop_app_len.
  rewrite (take_app_le (be_bytes 4 0)) by (rewrite be_bytes_length; lia).
  rewrite (take_ge (be_bytes 4 0)) by (rewrite be_bytes_length; lia).
  rewrite write_u32_be_spec by (rewrite zlen_be_bytes; lia).
  rewrite (drop_ge (be_bytes 4 0)) by (rewrite be_bytes_length; lia).
  rewrite app_nil_r. simpl. rewrite take_app_len.
  replace (Z.to_nat (zlen data + Z.of_nat 4)) with (length (data ++ be_bytes 4 0))
    by (rewrite length_app, be_bytes_length; unfold zlen; lia).
  rewrite (app_assoc data (be_bytes 4 0) bs), drop_app_len, written_app. done.
Qed.

Lemma write_tag_id_spec data sz id :
  lift (write_tag_id data sz id) = (bs ← tag_bytes sz id; Ok (data ++ bs)).
Proof.
  unfold write_tag_id, tag_bytes. destruct (sz =? 1); simpl.
  { rewrite put_u8_spec. change 256 with (256 ^ Z.of_nat 1). by rewrite be_bytes_mod. }
  destruct (sz =? 2); simpl; [|done]. by rewrite put_u16_spec.
Qed.

Lemma encode_string_spec data s : encode_string data s = appended (string_bytes s) data.
Proof.
  unfold encode_string, string_bytes, appended, checked_add.
  destruct (4 + zlen s <=? usize_max); simpl; [|done].
  rewrite put_slice_spec, put_u32_spec, <- app_assoc, zlen_app, zlen_be_bytes.
  change (2 ^ 32) with (256 ^ Z.of_nat 4). by rewrite be_bytes_mod.
Qed.

Lemma encode_chunks_frame todo : forall i last bits data,
  encode_chunks todo i last bits data =
    (bs ← encode_chunks todo i last bits []; Ok (data ++ bs)).
Proof.
  induction todo as [|todo IH]; intros i last bits data; simpl; [by rewrite app_nil_r|].
  destruct (pop_bits _ 0 0 bits) as [[n bits']|]; simpl; [|done].
  destruct (if negb (i =? last) then _ else _) as [n'|]; simpl; [|done].
  rewrite IH, (IH _ _ _ (put_u8 [] n')), !put_u8_spec. simpl.
  destruct (encode_chunks todo _ _ _ []); simpl; [|done]. by rewrite <- app_assoc.
Qed.

Lemma encode_z_frame data v : lift (encode_z data v) = appended (lift (z_bytes v)) data.
Proof.
  unfold z_bytes, encode_z, appended. destruct v as [|sign v]; [done|].
  destruct (if first_alphanumeric _ then _ else _) as [off negative].
  destruct ((128 <=? sign) && (off =? 1)%nat); simpl; [done|].
  destruct (map_err HexError _) as [bs|]; simpl; [|done].
  destruct ((zlen bs =? 1) && (hd 0 bs <=? 63)); simpl.
  { by rewrite !put_u8_spec. }
  unfold encode_z_long. destruct (pop_bits 6 _ _ _) as [[n bits]|]; simpl; [|done].
  destruct (bv_len bits =? 0); simpl; [done|].
  rewrite encode_chunks_frame, (encode_chunks_frame _ _ _ _ (put_u8 [] n)).
  destruct (encode_chunks _ _ _ _ []) as [cs|]; simpl; [|done].
  rewrite !put_u8_spec. simpl. rewrite <- app_assoc.
  change (zlen []) with 0. rewrite zlen_app, checked_sub_app by apply zlen_nonneg.
  unfold checked_sub. rewrite (proj2 (Z.leb_le _ _)) by apply zlen_nonneg. done.
Qed.

Lemma customs_all {A} (f : A -> Encoding) (Q : Encoding -> Prop) (l : list A) :
  Forall (fun a => customs_append (f a) -> Q (f a)) l ->
  foldr (fun a P => customs_append (f a) /\ P) True l ->
  Forall (fun a => Q (f a)) l.
Proof.
  induction 1 as [|a l Ha _ IH]; simpl; [constructor|]. intros [Hc Hr].
  constructor; [by apply Ha|by apply IH].
Qed.

(** [Encoding::Option] and [Encoding::OptionalField] differ in their marks. *)
Lemma option_value_spec e v data :
  (forall v data, encode_value e v data = appended (write_spec e v) data) ->
  encode_value (EOption e) v data = appended (write_spec (EOption e) v) data /\
  encode_value (EOptionalField e) v data = appended (write_spec (EOptionalField e) v) data.
Proof.
  intros He. split; unfold appended; simpl; destruct v as [| | | | | | | | | | | | | |[x|]| | | | |];
    try done; simpl; rewrite ?put_u8_spec; try (by rewrite zlen_be_bytes);
    rewrite He; unfold appended, guard_size, checked_add;
    (destruct (write_spec e x) as [bs|]; simpl; [|done]);
    rewrite zlen_app, zlen_be_bytes; change (Z.of_nat 1) with 1;
    (destruct (1 + zlen bs <=? usize_max); simpl; [|done]);
    by rewrite <- app_assoc, zlen_app, zlen_be_bytes.
Qed.

(** The writer appends what [write_spec] says, with its size, or fails with the
    same error at the same location. *)
Lemma encode_value_appends e : customs_append e ->
  forall v data, encode_value e v data = appended (write_spec e v) data.
Proof.
  revert e. refine (encoding_strong_ind (fun e => customs_append e ->
    forall v data, encode_value e v data = appended (write_spec e v) data) _ _ _ _ _ _ _ _ _ _ _ _ _).
  - intros e. destruct e; try done; intros Hc v data; unfold appended; simpl;
      [by rewrite app_nil_r|..];
      try (rewrite Hc; by destruct (encode [] v));
      destruct v; try done;
      unfold put_and_count; autorewrite with putrw; rewrite ?zlen_be_bytes; try done.
    + by destruct (Z.land z 2147483647 =? z).
    + by destruct (0 <=? z).
    + apply encode_z_frame.
    + apply encode_z_frame.
    + apply encode_string_spec.
    + destruct (max <? zlen s); [done|]. apply encode_string_spec.
    + rewrite put_u8_values_spec. destruct (u8_values l); simpl; [|done]. apply written_app.
    + destruct ordinal as [o|]; [|done]. rewrite put_u8_spec. by destruct (o <=? 255).
    + rewrite put_u8_values_spec. destruct (u8_values l) as [bs|]; simpl; [|done].
      rewrite written_app. simpl. by destruct (zlen bs =? hash_size t).
  - intros sz i2t v2i IH Hc v data. simpl in Hc. unfold appended. simpl.
    destruct v; try done; simpl.
    + destruct name as [name|]; simpl; [|done].
      destruct (find_by_variant _ _) as [t|]; simpl; [|done].
      rewrite write_tag_id_spec. destruct (tag_bytes _ _); simpl; [|done]. apply written_app.
    + destruct (hm_get variant v2i) as [id|]; [|done]. rewrite !hm_get_with_spec.
      assert (Ht : forall t, hm_get id i2t = Some t ->
        forall v data, encode_value t.2 v data = appended (write_spec t.2 v) data).
      { clear -IH Hc. induction i2t as [|[k t'] i2t IHl]; simpl; [done|].
        inversion IH as [|? ? Ht Hl]; subst. simpl in Hc. destruct Hc as [Hc1 Hc2].
        case_decide; [|by apply IHl]. intros t [= <-]. by apply Ht. }
      destruct (hm_get id i2t) as [t|]; simpl; [|done]. specialize (Ht t eq_refl).
      rewrite write_tag_id_spec. destruct (tag_bytes _ _) as [tb|]; simpl; [|done].
      rewrite Ht. unfold appended. destruct (write_spec t.2 v) as [bs|]; simpl; [|done].
      rewrite <- app_assoc. apply written_app.
  - intros e IH Hc v data. unfold appended. simpl. destruct v; try done.
    rewrite (encode_elements_spec _ (write_spec e)) by (intros; by apply IH).
    destruct (try_map _ l) as [bss|]; simpl; [|done]. apply written_app.
  - intros max e IH Hc v data. unfold appended. simpl. destruct v; try done.
    destruct (max <? zlen l); [done|].
    rewrite (encode_elements_spec _ (write_spec e)) by (intros; by apply IH).
    destruct (try_map _ l) as [bss|]; simpl; [|done]. apply written_app.
  - intros e IH Hc v data. apply option_value_spec. intros. by apply IH.
  - intros e IH Hc v data. apply option_value_spec. intros. by apply IH.
  - intros n schema IH Hc v data. unfold appended. simpl. destruct v; try done. simpl.
    rewrite <- (app_nil_r data) at 1. change 0 with (zlen (@nil Z)).
    apply record_loop_spec. exact (customs_all snd (fun e => forall v data, encode_value e v data = appended (write_spec e v) data) _ IH Hc).
  - intros es IH Hc v data. unfold appended. simpl. destruct v; try done. simpl.
    rewrite <- (app_nil_r data) at 1. change 0 with (zlen (@nil Z)).
    apply tuple_loop_spec. exact (customs_all (fun e => e) (fun e => forall v data, encode_value e v data = appended (write_spec e v) data) _ IH Hc).
  - intros e IH Hc v data. simpl. rewrite IH by done. unfold appended at 1.
    destruct (write_spec e v) as [bs|]; simpl; [|done].
    rewrite put_u32_spec, <- app_assoc. apply patch_size_spec.
  - intros max e IH Hc v data. simpl. rewrite IH by done. unfold appended at 1.
    destruct (write_spec e v) as [bs|]; simpl; [|done].
    destruct (max <? zlen bs); simpl; [done|].
    rewrite put_u32_spec, <- app_assoc. apply patch_size_spec.
  - intros n e IH Hc v data. simpl. rewrite IH by done. unfold appended.
    destruct (write_spec e v) as [bs|]; simpl; [|done]. by destruct (zlen bs =? n).
  - intros n e IH Hc v data. simpl. rewrite IH by done. unfold appended.
    destruct (write_spec e v) as [bs|]; simpl; [|done]. by destruct (zlen bs <=? n).
  - intros e IH Hc v data. simpl. by apply IH.
Qed.

Lemma encode_any_value e v data : encode_any e v data = encode_value e v data.
Proof. by destruct e. Qed.
End Spec.
