(* ===== verification/NomCrate.v ===== *)
(** * The [nom] parser combinators

    [nom] (version 6) is a third-party crate: the combinators the sources use
    are the class [NomCrate], with the behaviour its documentation gives them.
    The error type they are used at is [DecodeError] of
    [tezos/encoding/src/nom.rs], so the two [ParseError] methods of that file,
    [from_error_kind] and [append], and [from_external_error] are defined here.
    [reference_nom] is one implementation of the class. *)

From Stdlib Require Import ZArith Lia List Bool String.
From stdpp Require Import base option list numbers strings.
From S2P Require Import Prelude Extern BitUtils Serializer.

Set Warnings "-register-all".

(** [nom::error::ErrorKind], the kinds the combinators below report. *)
Inductive ErrorKind : Type :=
| KTag | KMapRes | KComplete | KEof | KAlt | KMany0 | KManyMN | KManyTill | KVerify.

(** ** [tezos_encoding::nom::error] *)
Inductive BoundedEncodingKind : Type := BString | BList | BDynamic | BBounded.

Inductive DecodeErrorKind : Type :=
| DNom (k : ErrorKind)
| DUtf8 (k : ErrorKind)
| DBoundary (b : BoundedEncodingKind)
| DBits (e : BitsError)
| DField (name : string)
| DVariant (name : string)
| DUnknownTag (tag : string)
| DInvalidTag (tag : string).

Inductive DecodeError : Type :=
  mkDecodeError { input : bytes; de_kind : DecodeErrorKind; other : option DecodeError }.

Definition add_field (name : string) (e : DecodeError) : DecodeError :=
  mkDecodeError (input e) (DField name) (Some e).
Definition add_variant (name : string) (e : DecodeError) : DecodeError :=
  mkDecodeError (input e) (DVariant name) (Some e).
Definition limit (i : bytes) (b : BoundedEncodingKind) : DecodeError :=
  mkDecodeError i (DBoundary b) None.
Definition unknown_tag (i : bytes) (tag : string) : DecodeError :=
  mkDecodeError i (DUnknownTag tag) None.
Definition invalid_tag (i : bytes) (tag : string) : DecodeError :=
  mkDecodeError i (DInvalidTag tag) None.
Definition get_unknown_tag (e : DecodeError) : option string :=
  match de_kind e with DUnknownTag tag => Some tag | _ => None end.

Definition from_error_kind (i : bytes) (k : ErrorKind) : DecodeError :=
  mkDecodeError i (DNom k) None.
Definition append (i : bytes) (k : ErrorKind) (e : DecodeError) : DecodeError :=
  mkDecodeError i (DNom k) (Some e).
Definition from_external_error (i : bytes) (k : ErrorKind) : DecodeError :=
  mkDecodeError i (DUtf8 k) None.

(** [nom::Err] and [IResult]. *)
Inductive NErr : Type :=
| Incomplete
| NError (e : DecodeError)
| NFailure (e : DecodeError).

Definition NomResult (A : Type) : Type := result NErr (bytes * A).
Definition parser (A : Type) : Type := bytes -> NomResult A.

(** The big-endian numbers of [nom::number::complete]. *)
Inductive number : Type := NU8 | NI8 | NU16 | NI16 | NU32 | NI32 | NI64 | NF64.

Definition number_size (k : number) : nat :=
  match k with
  | NU8 | NI8 => 1 | NU16 | NI16 => 2 | NU32 | NI32 => 4 | NI64 | NF64 => 8
  end.

Definition number_val (k : number) (bs : bytes) : Z :=
  match k with
  | NU8 | NU16 | NU32 | NF64 => be_val bs
  | NI8 => swrap 8 (be_val bs)
  | NI16 => swrap 16 (be_val bs)
  | NI32 => swrap 32 (be_val bs)
  | NI64 => swrap 64 (be_val bs)
  end.

Class NomCrate : Type := {
  nom_number : number -> parser Z;
  nom_take : Z -> parser bytes;
  nom_tag : bytes -> parser bytes;
  nom_rest : parser bytes;
  nom_success : forall {A}, A -> parser A;
  nom_map : forall {A B}, parser A -> (A -> B) -> parser B;
  nom_map_res : forall {A B}, parser A -> (A -> option B) -> parser B;
  nom_complete : forall {A}, parser A -> parser A;
  nom_all_consuming : forall {A}, parser A -> parser A;
  nom_alt : forall {A}, parser A -> parser A -> parser A;
  nom_alt3 : forall {A}, parser A -> parser A -> parser A -> parser A;
  nom_preceded : forall {A B}, parser A -> parser B -> parser B;
  nom_tuple : forall {A}, list (parser A) -> parser (list A);
  nom_map_parser : forall {A}, parser bytes -> parser A -> parser A;
  nom_flat_map : forall {A B}, parser A -> (A -> parser B) -> parser B;
  nom_verify : forall {A}, parser A -> (A -> bool) -> parser A;
  nom_length_data : parser Z -> parser bytes;
  nom_length_value : forall {A}, parser Z -> parser A -> parser A;
  nom_fold_many0 : forall {A R}, parser A -> R -> (R -> A -> R) -> parser R;
  nom_fold_many_m_n : forall {A R}, Z -> Z -> parser A -> R -> (R -> A -> R) -> parser R;
  nom_many_till : forall {A B}, parser A -> parser B -> parser (list A * B);
  (* [Finish::finish]; [None] is its panic *)
  nom_finish : forall {A}, NomResult A -> option (result DecodeError (bytes * A));

  (* numbers, bytes, tags *)
  nom_number_ok k bs i : length bs = number_size k ->
    nom_number k (bs ++ i) = Ok (i, number_val k bs);
  nom_number_short k i : (length i < number_size k)%nat ->
    nom_number k i = Err (NError (from_error_kind i KEof));
  nom_take_ok n bs i : zlen bs = n -> nom_take n (bs ++ i) = Ok (i, bs);
  nom_take_short n i : zlen i < n ->
    nom_take n i = Err (NError (from_error_kind i KEof));
  nom_tag_ok t i : nom_tag t (t ++ i) = Ok (i, t);
  nom_tag_bad t i : (forall r, i <> t ++ r) ->
    nom_tag t i = Err (NError (from_error_kind i KTag));
  nom_rest_ok i : nom_rest i = Ok ([], i);
  (* combinators *)
  nom_success_ok {A} (a : A) i : nom_success a i = Ok (i, a);
  nom_map_ok {A B} (p : parser A) (f : A -> B) i :
    nom_map p f i = match p i with Ok (i, a) => Ok (i, f a) | Err e => Err e end;
  nom_map_res_ok {A B} (p : parser A) (f : A -> option B) i :
    nom_map_res p f i =
      match p i with
      | Ok (i', a) => match f a with
                      | Some b => Ok (i', b)
                      | None => Err (NError (from_external_error i KMapRes))
                      end
      | Err e => Err e
      end;
  nom_complete_ok {A} (p : parser A) i :
    nom_complete p i =
      match p i with
      | Err Incomplete => Err (NError (from_error_kind i KComplete))
      | r => r
      end;
  nom_all_consuming_ok {A} (p : parser A) i :
    nom_all_consuming p i =
      match p i with
      | Ok ([], a) => Ok ([], a)
      | Ok (i', _) => Err (NError (from_error_kind i' KEof))
      | Err e => Err e
      end;
  nom_alt_ok {A} (p q : parser A) i :
    nom_alt p q i =
      match p i with
      | Err (NError _) =>
          match q i with
          | Err (NError e) => Err (NError (append i KAlt e))
          | r => r
          end
      | r => r
      end;
  nom_alt3_ok {A} (p q r : parser A) i :
    nom_alt3 p q r i =
      match p i with
      | Err (NError _) =>
          match q i with
          | Err (NError _) =>
              match r i with
              | Err (NError e) => Err (NError (append i KAlt e))
              | x => x
              end
          | x => x
          end
      | x => x
      end;
  nom_preceded_ok {A B} (p : parser A) (q : parser B) i :
    nom_preceded p q i = match p i with Ok (i, _) => q i | Err e => Err e end;
  nom_tuple_nil {A} i : nom_tuple (@nil (parser A)) i = Ok (i, []);
  nom_tuple_cons {A} (p : parser A) ps i :
    nom_tuple (p :: ps) i =
      match p i with
      | Ok (i, a) => match nom_tuple ps i with
                     | Ok (i, l) => Ok (i, a :: l)
                     | Err e => Err e
                     end
      | Err e => Err e
      end;
  nom_map_parser_ok {A} (p : parser bytes) (q : parser A) i :
    nom_map_parser p q i =
      match p i with
      | Ok (i, bs) => match q bs with Ok (_, a) => Ok (i, a) | Err e => Err e end
      | Err e => Err e
      end;
  nom_flat_map_ok {A B} (p : parser A) (q : A -> parser B) i :
    nom_flat_map p q i = match p i with Ok (i, a) => q a i | Err e => Err e end;
  nom_verify_ok {A} (p : parser A) (f : A -> bool) i :
    nom_verify p f i =
      match p i with
      | Ok (i', a) => if f a then Ok (i', a)
                      else Err (NError (from_error_kind i KVerify))
      | Err e => Err e
      end;
  nom_length_data_ok (p : parser Z) i :
    nom_length_data p i =
      match p i with
      | Ok (i', n) => if zlen i' <? n then Err Incomplete
                      else Ok (drop (Z.to_nat n) i', take (Z.to_nat n) i')
      | Err e => Err e
      end;
  nom_length_value_ok {A} (p : parser Z) (q : parser A) i :
    nom_length_value p q i =
      match p i with
      | Ok (i', n) =>
          if zlen i' <? n then Err Incomplete
          else
            match q (take (Z.to_nat n) i') with
            | Ok (_, a) => Ok (drop (Z.to_nat n) i', a)
            | Err Incomplete =>
                Err (NError (from_error_kind (take (Z.to_nat n) i') KComplete))
            | Err e => Err e
            end
      | Err e => Err e
      end;
  (* repetition; a parser never gives back more input than it got *)
  nom_fold_many0_stop {A R} (p : parser A) (r : R) f i e :
    p i = Err (NError e) -> nom_fold_many0 p r f i = Ok (i, r);
  nom_fold_many0_fail {A R} (p : parser A) (r : R) f i e :
    p i = Err e -> (forall e', e <> NError e') -> nom_fold_many0 p r f i = Err e;
  nom_fold_many0_stuck {A R} (p : parser A) (r : R) f i a :
    p i = Ok (i, a) -> nom_fold_many0 p r f i = Err (NError (from_error_kind i KMany0));
  nom_fold_many0_step {A R} (p : parser A) (r : R) f i i' a :
    p i = Ok (i', a) -> (length i' < length i)%nat ->
    nom_fold_many0 p r f i = nom_fold_many0 p (f r a) f i';
  nom_fold_many_m_n_done {A R} (p : parser A) (r : R) f i :
    nom_fold_many_m_n 0 0 p r f i = Ok (i, r);
  nom_fold_many_m_n_stop {A R} n (p : parser A) (r : R) f i e :
    0 < n -> p i = Err (NError e) -> nom_fold_many_m_n 0 n p r f i = Ok (i, r);
  nom_fold_many_m_n_fail {A R} n (p : parser A) (r : R) f i e :
    0 < n -> p i = Err e -> (forall e', e <> NError e') ->
    nom_fold_many_m_n 0 n p r f i = Err e;
  nom_fold_many_m_n_step {A R} n (p : parser A) (r : R) f i i' a :
    0 < n -> p i = Ok (i', a) -> (length i' < length i)%nat ->
    nom_fold_many_m_n 0 n p r f i = nom_fold_many_m_n 0 (n - 1) p (f r a) f i';
  nom_many_till_stop {A B} (p : parser A) (q : parser B) i i' b :
    q i = Ok (i', b) -> nom_many_till p q i = Ok (i', ([], b));
  nom_many_till_step {A B} (p : parser A) (q : parser B) i i' a e :
    q i = Err (NError e) -> p i = Ok (i', a) -> (length i' < length i)%nat ->
    nom_many_till p q i =
      match nom_many_till p q i' with
      | Ok (i'', (l, b)) => Ok (i'', (a :: l, b))
      | Err e => Err e
      end;
  nom_many_till_fail {A B} (p : parser A) (q : parser B) i e e' :
    q i = Err (NError e) -> p i = Err (NError e') ->
    nom_many_till p q i = Err (NError (append i KManyTill e'));
  nom_finish_ok {A} (r : NomResult A) :
    nom_finish r =
      match r with
      | Ok x => Some (Ok x)
      | Err (NError e) | Err (NFailure e) => Some (Err e)
      | Err Incomplete => None
      end;
}.

(** ** A reference implementation *)
Section Reference.
Context {A B R : Type}.

Fixpoint ref_fold_many0 (fuel : nat) (p : parser A) (r : R) (f : R -> A -> R) (i : bytes)
  : NomResult R :=
  match fuel with
  | O => Err Incomplete
  | S fuel =>
      match p i with
      | Err (NError _) => Ok (i, r)
      | Err e => Err e
      | Ok (i', a) =>
          if Nat.ltb (length i') (length i) then ref_fold_many0 fuel p (f r a) f i'
          else Err (NError (from_error_kind i KMany0))
      end
  end.

Fixpoint ref_fold_many_m_n (n : nat) (p : parser A) (r : R) (f : R -> A -> R) (i : bytes)
  : NomResult R :=
  match n with
  | O => Ok (i, r)
  | S n =>
      match p i with
      | Err (NError _) => Ok (i, r)
      | Err e => Err e
      | Ok (i', a) =>
          if Nat.ltb (length i') (length i) then ref_fold_many_m_n n p (f r a) f i'
          else Err (NError (from_error_kind i KManyMN))
      end
  end.

Fixpoint ref_many_till (fuel : nat) (p : parser A) (q : parser B) (i : bytes)
  : NomResult (list A * B) :=
  match fuel with
  | O => Err Incomplete
  | S fuel =>
      match q i with
      | Ok (i', b) => Ok (i', ([], b))
      | Err (NError _) =>
          match p i with
          | Err (NError e) => Err (NError (append i KManyTill e))
          | Err e => Err e
          | Ok (i', a) =>
              if Nat.ltb (length i') (length i) then
                match ref_many_till fuel p q i' with
                | Ok (i'', (l, b)) => Ok (i'', (a :: l, b))
                | Err e => Err e
                end
              else Err (NError (from_error_kind i KManyTill))
          end
      | Err e => Err e
      end
  end.

Lemma ref_fold_many0_fuel p r f : forall n m i,
  (length i < n)%nat -> (length i < m)%nat ->
  ref_fold_many0 n p r f i = ref_fold_many0 m p r f i.
Proof.
  intros n m. revert m r. induction n as [|n IH]; intros [|m] r i Hn Hm; try lia. simpl.
  destruct (p i) as [[i' a]|[]]; try done.
  destruct (Nat.ltb_spec (length i') (length i)); [|done]. apply IH; lia.
Qed.

Lemma ref_many_till_fuel p q : forall n m i,
  (length i < n)%nat -> (length i < m)%nat ->
  ref_many_till n p q i = ref_many_till m p q i.
Proof.
  induction n as [|n IH]; intros [|m] i Hn Hm; try lia. simpl.
  destruct (q i) as [[i' b]|[]]; try done.
  destruct (p i) as [[i' a]|[]]; try done.
  destruct (Nat.ltb_spec (length i') (length i)); [|done]. rewrite (IH m); [done|lia|lia].
Qed.
End Reference.

Section ReferenceTuple.
Context {A : Type}.
Fixpoint ref_tuple (ps : list (parser A)) : parser (list A) :=
  match ps with
  | [] => fun i => Ok (i, [])
  | p :: ps => fun i =>
      match p i with
      | Ok (i, a) => match ref_tuple ps i with
                     | Ok (i, l) => Ok (i, a :: l)
                     | Err e => Err e
                     end
      | Err e => Err e
      end
  end.
End ReferenceTuple.

Lemma ltb_refl_false n : Nat.ltb n n = false.
Proof. apply Nat.ltb_irrefl. Qed.

#[export] Instance reference_nom : NomCrate.
Proof.
  refine {|
    nom_number k i :=
      if Nat.ltb (length i) (number_size k) then Err (NError (from_error_kind i KEof))
      else Ok (drop (number_size k) i, number_val k (take (number_size k) i));
    nom_take n i :=
      if zlen i <? n then Err (NError (from_error_kind i KEof))
      else Ok (drop (Z.to_nat n) i, take (Z.to_nat n) i);
    nom_tag t i :=
      if decide (take (length t) i = t) then Ok (drop (length t) i, t)
      else Err (NError (from_error_kind i KTag));
    nom_rest i := Ok ([], i);
    nom_success A a i := Ok (i, a);
    nom_map A B p f i := match p i with Ok (i, a) => Ok (i, f a) | Err e => Err e end;
    nom_map_res A B p f i :=
      match p i with
      | Ok (i', a) => match f a with
                      | Some b => Ok (i', b)
                      | None => Err (NError (from_external_error i KMapRes))
                      end
      | Err e => Err e
      end;
    nom_complete A p i :=
      match p i with
      | Err Incomplete => Err (NError (from_error_kind i KComplete))
      | r => r
      end;
    nom_all_consuming A p i :=
      match p i with
      | Ok ([], a) => Ok ([], a)
      | Ok (i', _) => Err (NError (from_error_kind i' KEof))
      | Err e => Err e
      end;
    nom_alt A p q i :=
      match p i with
      | Err (NError _) =>
          match q i with
          | Err (NError e) => Err (NError (append i KAlt e))
          | r => r
          end
      | r => r
      end;
    nom_alt3 A p q r i :=
      match p i with
      | Err (NError _) =>
          match q i with
          | Err (NError _) =>
              match r i with
              | Err (NError e) => Err (NError (append i KAlt e))
              | x => x
              end
          | x => x
          end
      | x => x
      end;
    nom_preceded A B p q i := match p i with Ok (i, _) => q i | Err e => Err e end;
    nom_tuple A ps := ref_tuple ps;
    nom_map_parser A p q i :=
      match p i with
      | Ok (i, bs) => match q bs with Ok (_, a) => Ok (i, a) | Err e => Err e end
      | Err e => Err e
      end;
    nom_flat_map A B p q i := match p i with Ok (i, a) => q a i | Err e => Err e end;
    nom_verify A p f i :=
      match p i with
      | Ok (i', a) => if f a then Ok (i', a)
                      else Err (NError (from_error_kind i KVerify))
      | Err e => Err e
      end;
    nom_length_data p i :=
      match p i with
      | Ok (i', n) => if zlen i' <? n then Err Incomplete
                      else Ok (drop (Z.to_nat n) i', take (Z.to_nat n) i')
      | Err e => Err e
      end;
    nom_length_value A p q i :=
      match p i with
      | Ok (i', n) =>
          if zlen i' <? n then Err Incomplete
          else
            match q (take (Z.to_nat n) i') with
            | Ok (_, a) => Ok (drop (Z.to_nat n) i', a)
            | Err Incomplete =>
                Err (NError (from_error_kind (take (Z.to_nat n) i') KComplete))
            | Err e => Err e
            end
      | Err e => Err e
      end;
    nom_fold_many0 A R p r f i := ref_fold_many0 (S (length i)) p r f i;
    nom_fold_many_m_n A R m n p r f i := ref_fold_many_m_n (Z.to_nat n) p r f i;
    nom_many_till A B p q i := ref_many_till (S (length i)) p q i;
    nom_finish A r :=
      match r with
      | Ok x => Some (Ok x)
      | Err (NError e) | Err (NFailure e) => Some (Err e)
      | Err Incomplete => None
      end;
  |}; try reflexivity.
  - intros k bs i Hl. destruct (Nat.ltb_spec (length (bs ++ i)) (number_size k)) as [H|H].
    + rewrite length_app in H. lia.
    + by rewrite <- Hl, drop_app_len, take_app_len.
  - intros k i Hl. by destruct (Nat.ltb_spec (length i) (number_size k)); [|lia].
  - intros n bs i Hl. destruct (Z.ltb_spec (zlen (bs ++ i)) n) as [H|H].
    + rewrite zlen_app in H. pose proof (zlen_nonneg i). lia.
    + replace (Z.to_nat n) with (length bs) by (unfold zlen in Hl; lia).
      by rewrite drop_app_len, take_app_len.
  - intros n i Hl. by destruct (Z.ltb_spec (zlen i) n); [|lia].
  - intros t i. by rewrite take_app_len, decide_True, drop_app_len.
  - intros t i Hn. rewrite decide_False; [done|]. intros E.
    apply (Hn (drop (length t) i)). rewrite <- E at 1. by rewrite take_drop.
  - intros A R p r f i e E. simpl. by rewrite E.
  - intros A R p r f i e E He. simpl. rewrite E. destruct e; try done. by destruct (He e).
  - intros A R p r f i a E. simpl. by rewrite E, ltb_refl_false.
  - intros A R p r f i i' a E Hl.
    transitivity (ref_fold_many0 (length i) p (f r a) f i'); [|apply ref_fold_many0_fuel; lia].
    cbn [ref_fold_many0]. rewrite E. by destruct (Nat.ltb_spec (length i') (length i)); [|lia].
  - intros A R n p r f i e Hn E. destruct (Z.to_nat n) eqn:En; [lia|]. simpl. by rewrite E.
  - intros A R n p r f i e Hn E He. destruct (Z.to_nat n) eqn:En; [lia|]. simpl.
    rewrite E. destruct e; try done. by destruct (He e).
  - intros A R n p r f i i' a Hn E Hl. destruct (Z.to_nat n) as [|k] eqn:En; [lia|]. simpl.
    rewrite E. destruct (Nat.ltb_spec (length i') (length i)); [|lia].
    by replace (Z.to_nat (n - 1)) with k by lia.
  - intros A B p q i i' b E. simpl. by rewrite E.
  - intros A B p q i i' a e Eq Ep Hl.
    rewrite (ref_many_till_fuel p q (S (length i')) (length i) i') by lia.
    cbn [ref_many_till]. rewrite Eq, Ep.
    by destruct (Nat.ltb_spec (length i') (length i)); [|lia].
  - intros A B p q i e e' Eq Ep. simpl. by rewrite Eq, Ep.
Defined.
