(* ===== verification/NomReader.v ===== *)
(** * The reading primitives ([tezos/encoding/src/nom.rs])

    Booleans, byte strings, sizes, strings, optional fields, lists, dynamic and
    bounded blocks, field and variant contexts, and the two variable-length
    numbers, each composed of [nom] combinators as the source composes them. *)

From Stdlib Require Import ZArith Lia List Bool String.
From stdpp Require Import base option list numbers strings.
From S2P Require Import Prelude Extern BitUtils CryptoHash Types Serializer NomCrate.

(** ** [std::str::from_utf8]

    Well-formed UTF-8 (Unicode table 3-7), the check [from_utf8] makes. *)
Definition cont (b : Z) : bool := (128 <=? b) && (b <=? 191).
Definition within (lo hi b : Z) : bool := (lo <=? b) && (b <=? hi).

Fixpoint utf8_valid (s : bytes) : bool :=
  match s with
  | [] => true
  | a :: s =>
      if within 0 127 a then utf8_valid s
      else if within 194 223 a then
        match s with b :: s => cont b && utf8_valid s | _ => false end
      else if within 224 239 a then
        match s with
        | b :: c :: s =>
            (if a =? 224 then within 160 191 b
             else if a =? 237 then within 128 159 b else cont b)
            && cont c && utf8_valid s
        | _ => false
        end
      else if within 240 244 a then
        match s with
        | b :: c :: d :: s =>
            (if a =? 240 then within 144 191 b
             else if a =? 244 then within 128 143 b else cont b)
            && cont c && cont d && utf8_valid s
        | _ => false
        end
      else false
  end.

Definition from_utf8 (bs : bytes) : option bytes := if utf8_valid bs then Some bs else None.

Section Reader.
Context `{NomCrate}.

(** [hash_nom_reader!]: the bytes taken have the size [try_from_bytes] checks,
    so its [unwrap] cannot panic; the error keeps the bytes. *)
Definition hash_nom_read (t : HashType) : parser bytes :=
  nom_map (nom_take (hash_size t))
    (fun bs => match hash_from_bytes t bs with Ok h => h | Err _ => bs end).

Definition boolean : parser bool :=
  nom_alt (nom_map (nom_tag [BYTE_VAL_TRUE]) (fun _ => true))
          (nom_map (nom_tag [BYTE_VAL_FALSE]) (fun _ => false)).

Definition bytes_ : parser bytes := nom_map nom_rest (fun bs => bs).

Definition size : parser Z := nom_number NU32.

Definition bounded_size (kind : BoundedEncodingKind) (max : Z) : parser Z := fun i =>
  match size i with
  | Ok (i', n) => if n <=? max then Ok (i', n) else Err (NError (limit i kind))
  | Err e => Err e
  end.

Definition string_ : parser bytes :=
  nom_map_res (nom_complete (nom_length_data size)) from_utf8.

Definition bounded_string (max : Z) : parser bytes :=
  nom_map_res (nom_complete (nom_length_data (bounded_size BString max))) from_utf8.

Section Combinators.
Context {O : Type}.

Definition sized (n : Z) (f : parser O) : parser O := nom_map_parser (nom_take n) f.

Definition optional_field (p : parser O) : parser (option O) :=
  nom_alt (nom_preceded (nom_tag [0x00]) (nom_success None))
          (nom_preceded (nom_tag [0xff]) (nom_map p Some)).

Definition push_back (l : list O) (x : O) : list O := l ++ [x].

Definition list_ (f : parser O) : parser (list O) := nom_fold_many0 f [] push_back.

Definition bounded_list (max : Z) (f : parser O) : parser (list O) := fun i =>
  match nom_fold_many_m_n 0 max f [] push_back i with
  | Ok (i', l) =>
      if 0 <? zlen i' then Err (NError (mkDecodeError i' (DBoundary BList) None))
      else Ok (i', l)
  | Err e => Err e
  end.

Definition dynamic (f : parser O) : parser O := nom_length_value size (nom_all_consuming f).

Definition bounded_dynamic (max : Z) (f : parser O) : parser O :=
  nom_length_value (bounded_size BDynamic max) (nom_all_consuming f).

Definition bounded (max : Z) (f : parser O) : parser O := fun i =>
  let max := Z.min max (zlen i) in
  match f (take (Z.to_nat max) i) with
  | Ok (rest, parsed) => Ok (drop (Z.to_nat (max - zlen rest)) i, parsed)
  | Err (NError (mkDecodeError i' (DNom KEof) o)) =>
      Err (NError (mkDecodeError i' (DBoundary BBounded) o))
  | Err e => Err e
  end.

(** [nom::Err::map]. *)
Definition err_map (f : DecodeError -> DecodeError) (e : NErr) : NErr :=
  match e with
  | Incomplete => Incomplete
  | NError e => NError (f e)
  | NFailure e => NFailure (f e)
  end.

Definition field (name : string) (p : parser O) : parser O :=
  fun i => map_err (err_map (add_field name)) (p i).

Definition variant (name : string) (p : parser O) : parser O :=
  fun i => map_err (err_map (add_variant name)) (p i).
End Combinators.

(** ** Variable-length numbers *)
Context `{BitVecCrate, BigIntCrate}.

Definition map_bits_err (i : bytes) (e : BitsError) : NErr :=
  NError (mkDecodeError i (DBits e) None).

(** [for i in i..i+count { bits.push(byte.get(i)?) }] *)
Fixpoint push_bits (count : nat) (idx byte : Z) (bits : BitVec) : result BitsError BitVec :=
  match count with
  | O => Ok bits
  | S count =>
      b ← Bits.get Bits.U8 byte idx;
      push_bits count (idx + 1) byte (bv_push bits b)
  end.

(** The [while has_next] loop of [zarith] and [mutez]; [fuel] bounds the bytes
    it can read. *)
Fixpoint bits_loop (fuel : nat) (has_next : bool) (i : bytes) (bits : BitVec)
  : NomResult BitVec :=
  if has_next then
    match fuel with
    | O => Err Incomplete
    | S fuel =>
        match nom_number NU8 i with
        | Err e => Err e
        | Ok (i', byte) =>
            match push_bits 7 0 byte bits with
            | Err e => Err (map_bits_err i e)
            | Ok bits =>
                match Bits.get Bits.U8 byte 7 with
                | Err e => Err (map_bits_err i e)
                | Ok has_next => bits_loop fuel has_next i' bits
                end
            end
        end
    end
  else Ok (i, bits).

(** Pads with zeros to whole bytes, reverses, and reads the number. *)
Definition bits_number (sign : Sign) (bits : BitVec) : Z :=
  let pad := bv_len bits mod 8 in
  let bits := if negb (pad =? 0) then bv_append bits (bv_from_elem (8 - pad) false) else bits in
  from_bytes_be sign (bv_to_bytes (reverse bits)).

Definition zarith : parser Z := fun i =>
  match nom_number NU8 i with
  | Err e => Err e
  | Ok (i1, first) =>
      match Bits.take Bits.U8 first 7 with
      | Err e => Err (map_bits_err i e)
      | Ok (has_next, first) =>
          match Bits.take Bits.U8 first 6 with
          | Err e => Err (map_bits_err i e)
          | Ok (negative, first) =>
              if negb has_next then Ok (i1, if negative then - first else first)
              else
                match push_bits 6 0 first bv_new with
                | Err e => Err (map_bits_err i e)
                | Ok bits =>
                    match bits_loop (S (length i1)) has_next i1 bits with
                    | Err e => Err e
                    | Ok (i2, bits) =>
                        Ok (i2, bits_number (if negative then Minus else Plus) bits)
                    end
                end
          end
      end
  end.

Definition mutez : parser Z := fun i =>
  match bits_loop (S (length i)) true i bv_new with
  | Err e => Err e
  | Ok (i', bits) => Ok (i', bits_number Plus bits)
  end.
End Reader.
