(* ===== verification/ExternRef.v ===== *)
(** * Reference implementations of the crate classes

    One executable implementation of each class of [Extern], proved to satisfy
    its laws; the witnesses of the development evaluate on them. *)

From Stdlib Require Import ZArith Lia List Bool.
From stdpp Require Import base option list numbers.
From S2P Require Import Prelude Extern.

#[export] Existing Instance reference_bytes.

(** ** [bit_vec]: a list of bits *)

Fixpoint pop_last (l : list bool) : option (bool * list bool) :=
  match l with
  | [] => None
  | [b] => Some (b, [])
  | b :: l => match pop_last l with Some (x, k) => Some (x, b :: k) | None => None end
  end.

Lemma pop_last_app l b : pop_last (l ++ [b]) = Some (b, l).
Proof.
  induction l as [|x l IH]; [done|]. simpl. rewrite IH. by destruct (l ++ [b]) eqn:E; [destruct l|].
Qed.

(** Eight bits at a time; the bits of an incomplete last byte are dropped, the
    law says nothing about them. *)
Fixpoint pack (l : list bool) : bytes :=
  match l with
  | b7 :: b6 :: b5 :: b4 :: b3 :: b2 :: b1 :: b0 :: l =>
      bits_val [b7; b6; b5; b4; b3; b2; b1; b0] :: pack l
  | _ => []
  end.

Lemma pack_byte b7 b6 b5 b4 b3 b2 b1 b0 :
  byte_bits (bits_val [b7; b6; b5; b4; b3; b2; b1; b0]) = [b7; b6; b5; b4; b3; b2; b1; b0].
Proof. by destruct b7, b6, b5, b4, b3, b2, b1, b0. Qed.

Lemma pack_spec n : forall l, length l = (8 * n)%nat ->
  are_bytes (pack l) /\ flat_map byte_bits (pack l) = l.
Proof.
  induction n as [|n IH]; intros l Hl.
  - destruct l; [|simpl in Hl; lia]. split; [constructor|done].
  - do 8 (destruct l as [|? l]; [simpl in Hl; lia|]).
    destruct (IH l) as [Hb Hf]; [simpl in Hl; lia|]. cbn [pack flat_map]. split.
    + constructor; [|done]. pose proof (bits_val_bound [b; b0; b1; b2; b3; b4; b5; b6]) as Hv.
      exact Hv.
    + by rewrite pack_byte, Hf.
Qed.

#[export] Instance reference_bitvec : BitVecCrate.
Proof.
  refine {|
    BitVec := list bool;
    bv_new := [];
    bv_iter v := v;
    bv_push v b := v ++ [b];
    bv_pop := pop_last;
    bv_append v w := v ++ w;
    bv_from_elem n b := replicate (Z.to_nat n) b;
    bv_from_bytes l := flat_map byte_bits l;
    bv_to_bytes := pack;
  |}; try done.
  - intros v ->. done.
  - intros v l b ->. exists l. by rewrite pop_last_app.
  - intros v Hv. apply (pack_spec (length v / 8)).
    unfold zlen in Hv. pose proof (Nat.div_mod (length v) 8 ltac:(lia)).
    assert (length v mod 8 = 0)%nat by (change 8%Z with (Z.of_nat 8) in Hv; rewrite <- Nat2Z.inj_mod in Hv; lia). lia.
Defined.

(** ** [num_bigint] *)

Definition hex_char (d : Z) : Z := if d <? 10 then 48 + d else 87 + d.

Fixpoint hex_digits (fuel : nat) (n : Z) (acc : bytes) : bytes :=
  match fuel with
  | O => acc
  | S fuel =>
      if n <? 16 then hex_char n :: acc
      else hex_digits fuel (n / 16) (hex_char (n mod 16) :: acc)
  end.

Definition hex_string (n : Z) : bytes := hex_digits (S (Z.to_nat (Z.log2 n))) n [].

Lemma hex_char_digit d : 0 <= d < 16 -> hex_digit (hex_char d) = Some d.
Proof.
  intros Hd. unfold hex_char, hex_digit.
  destruct (Z.ltb_spec d 10), (Z.leb_spec 48 (if d <? 10 then 48 + d else 87 + d)) in *;
  destruct (Z.ltb_spec d 10); try lia;
  repeat match goal with |- context [Z.leb ?a ?b] => destruct (Z.leb_spec a b) end;
  simpl; f_equal; lia.
Qed.

Lemma hex_val_acc_app l k acc : hex_val_acc acc (l ++ k) = hex_val_acc (hex_val_acc acc l) k.
Proof. revert acc. induction l as [|c l IH]; intros acc; simpl; [done|]. apply IH. Qed.

Lemma hex_digits_spec fuel : forall n acc,
  0 <= n < 16 ^ Z.of_nat fuel -> Forall is_hex_digit acc ->
  exists ds, hex_digits fuel n acc = ds ++ acc /\ Forall is_hex_digit ds /\
    hex_val ds = n /\ (fuel <> O -> ds <> []) /\ (hd 48 ds = 48 -> ds = [] \/ ds = [48]).
Proof.
  induction fuel as [|fuel IH]; intros n acc Hn Hacc; cbn [hex_digits].
  { exists []. ssplit; try done; [simpl in *; unfold hex_val; simpl; lia|auto]. }
  destruct (Z.ltb_spec n 16).
  - assert (Hd : hex_digit (hex_char n) = Some n) by (apply hex_char_digit; lia).
    exists [hex_char n]. ssplit; try done.
    + constructor; [by exists n|constructor].
    + unfold hex_val. simpl. unfold hex_digit_val. by rewrite Hd.
    + simpl. intros ->. auto.
  - pose proof (Z.mod_pos_bound n 16 ltac:(lia)) as Hm.
    pose proof (Z.div_mod n 16 ltac:(lia)) as Hdm.
    assert (Hd : hex_digit (hex_char (n mod 16)) = Some (n mod 16)) by (by apply hex_char_digit).
    destruct (IH (n / 16) (hex_char (n mod 16) :: acc)) as (ds & Hds & Hall & Hval & Hne & Hlead).
    + rewrite Nat2Z.inj_succ, Z.pow_succ_r in Hn by lia. lia.
    + constructor; [by exists (n mod 16)|done].
    + exists (ds ++ [hex_char (n mod 16)]). rewrite Hds, <- app_assoc. ssplit; try done.
      * apply Forall_app. split; [done|]. constructor; [by exists (n mod 16)|constructor].
      * unfold hex_val in *. rewrite hex_val_acc_app, Hval. simpl. unfold hex_digit_val.
        rewrite Hd. simpl. lia.
      * by destruct ds.
      * destruct ds as [|c ds]; simpl.
        -- unfold hex_val in Hval. simpl in Hval. lia.
        -- simpl in Hlead. intros ->. destruct (Hlead eq_refl) as [?|E]; [done|].
           rewrite E in Hval. change (hex_val [48]) with 0 in Hval. lia.
Qed.

#[export] Instance reference_bigint : BigIntCrate.
Proof.
  refine {|
    from_bytes_be s l := match s with Minus => - be_val l | _ => be_val l end;
    to_str_radix_16 z := (if z <? 0 then [45] else []) ++ hex_string (Z.abs z);
  |}; try done.
  intros z. exists (hex_string (Z.abs z)). split; [done|]. unfold hex_string.
  destruct (hex_digits_spec (S (Z.to_nat (Z.log2 (Z.abs z)))) (Z.abs z) [])
    as (ds & -> & Hall & Hval & Hne & Hlead).
  - split; [lia|]. rewrite Nat2Z.inj_succ, Z2Nat.id by apply Z.log2_nonneg.
    destruct (Z.eq_dec (Z.abs z) 0) as [->|]; [done|].
    pose proof (Z.log2_spec (Z.abs z) ltac:(lia)) as [_ Hl].
    eapply Z.lt_le_trans; [exact Hl|]. apply Z.pow_le_mono_l. lia.
  - constructor.
  - rewrite app_nil_r. split; [|done]. split; [done|]. split; [by apply Hne|].
    intros E. destruct (Hlead E) as [->|]; [by destruct (Hne ltac:(done))|done].
Defined.

(** ** [hex] *)

Fixpoint hex_pairs (l : bytes) : option bytes :=
  match l with
  | [] => Some []
  | a :: b :: l =>
      match hex_digit a, hex_digit b, hex_pairs l with
      | Some x, Some y, Some k => Some (16 * x + y :: k)
      | _, _, _ => None
      end
  | [_] => None
  end.

Lemma hex_digit_range c v : hex_digit c = Some v -> 0 <= v < 16.
Proof.
  unfold hex_digit.
  repeat match goal with |- context [Z.leb ?a ?b] => destruct (Z.leb_spec a b) end;
  simpl; intros; simplify_eq; lia.
Qed.

Lemma hex_val_acc_shift l acc : hex_val_acc acc l = acc * 16 ^ zlen l + hex_val l.
Proof.
  unfold hex_val. revert acc. induction l as [|c l IH]; intros acc; cbn [hex_val_acc].
  - change (zlen []) with 0. lia.
  - rewrite (IH (16 * acc + _)), (IH (16 * 0 + _)), zlen_cons, Z.pow_add_r
      by (pose proof (zlen_nonneg l); lia). lia.
Qed.

Lemma hex_pairs_ok n : forall l, length l = (2 * n)%nat -> Forall is_hex_digit l ->
  exists bs, hex_pairs l = Some bs /\ are_bytes bs /\ 2 * zlen bs = zlen l /\
    be_val bs = hex_val l.
Proof.
  induction n as [|n IH]; intros l Hl Hall.
  - destruct l; [|simpl in Hl; lia]. exists []. ssplit; try done. constructor.
  - destruct l as [|a [|b l]]; [simpl in Hl; lia|simpl in Hl; lia|].
    inversion Hall as [|? ? [x Hx] Hall']; subst. inversion Hall' as [|? ? [y Hy] Hall'']; subst.
    destruct (IH l) as (bs & Hbs & Hby & Hlen & Hval); [simpl in Hl; lia|done|].
    pose proof (hex_digit_range a x Hx). pose proof (hex_digit_range b y Hy).
    exists (16 * x + y :: bs). simpl. rewrite Hx, Hy, Hbs. ssplit; try done.
    + constructor; [unfold is_byte; lia|done].
    + rewrite !zlen_cons. lia.
    + unfold hex_val. cbn [hex_val_acc]. rewrite hex_val_acc_shift, be_val_cons, <- Hval.
      unfold hex_digit_val. rewrite Hx, Hy, <- Hlen, Z.pow_mul_r by (pose proof (zlen_nonneg bs); lia).
      change (16 ^ 2) with 256. unfold default, id. simpl from_option. lia.
Qed.

Lemma hex_pairs_bad n : forall l, length l = (2 * n)%nat -> ~ Forall is_hex_digit l ->
  hex_pairs l = None.
Proof.
  induction n as [|n IH]; intros l Hl Hbad.
  - destruct l; [|simpl in Hl; lia]. by destruct Hbad.
  - destruct l as [|a [|b l]]; [simpl in Hl; lia|simpl in Hl; lia|]. simpl.
    destruct (hex_digit a) eqn:Ea, (hex_digit b) eqn:Eb; try done.
    rewrite IH; [done|simpl in Hl; lia|]. intros Hl'. apply Hbad.
    constructor; [by eexists|]. constructor; [by eexists|done].
Qed.

#[export] Instance reference_hex : HexCrate.
Proof.
  refine {|
    hex_decode l :=
      if Nat.even (length l) then ok_or (hex_pairs l) InvalidHexCharacter else Err OddLength
  |}.
  - intros l Hall He. rewrite He. apply Nat.even_spec in He as [n Hn].
    destruct (hex_pairs_ok n l Hn Hall) as (bs & -> & Hbs). exists bs. done.
  - intros l ->. done.
  - intros l He Hbad. rewrite He. apply Nat.even_spec in He as [n Hn].
    by rewrite (hex_pairs_bad n l Hn Hbad).
Defined.
