(* ===== verification/Zarith.v ===== *)
(** * Variable-length numbers: the writer against the readers

    [encode_z] of [binary_writer.rs] writes a number (as a hexadecimal string)
    six bits in the first byte and seven in each following one; [zarith] and
    [mutez] of [nom.rs] read such numbers back.  [z_image] is the byte string
    as a function of the number. *)

From Stdlib Require Import ZArith Lia List Bool String.
From stdpp Require Import base option list numbers strings.
From S2P Require Import Prelude Extern BitUtils CryptoHash Types Serializer BinaryWriter WriterSpec NomCrate NomReader ExternRef.

(** ** Bits of bytes *)

(** The [k] low bits of [x], lowest first. *)
Definition low_bits (k : nat) (x : Z) : list bool :=
  map (fun i => Z.testbit x (Z.of_nat i)) (seq 0 k).

Lemma low_bits_lookup k x i : (i < k)%nat -> low_bits k x !! i = Some (Z.testbit x (Z.of_nat i)).
Proof.
  intros Hi. unfold low_bits. change (map ?f ?l) with (f <$> l).
  rewrite list_lookup_fmap, (lookup_seq_lt 0 k i) by done. done.
Qed.

Lemma low_bits_length k x : length (low_bits k x) = k.
Proof. unfold low_bits. by rewrite length_map, length_seq. Qed.

Lemma low_bits_val l c :
  low_bits (length l) (lsb_val l + 2 ^ zlen l * c) = l.
Proof.
  apply list_eq. intros i. destruct (decide (i < length l)%nat).
  - rewrite low_bits_lookup by done.
    rewrite <- (Z.mod_pow2_bits_low _ (zlen l)) by (unfold zlen; lia).
    assert (0 < 2 ^ zlen l) by (apply Z.pow_pos_nonneg; [lia|apply zlen_nonneg]).
    rewrite (Z.mul_comm (2 ^ zlen l)), Z.mod_add by lia.
    rewrite Z.mod_small by apply lsb_val_bound. rewrite lsb_val_bit.
    by destruct (lookup_lt_is_Some_2 l i) as [b ->].
  - rewrite !lookup_ge_None_2; [done|lia|rewrite low_bits_length; lia].
Qed.

Lemma low_bits_pad l k :
  (length l <= k)%nat -> low_bits k (lsb_val l) = l ++ replicate (k - length l) false.
Proof.
  intros Hl. assert (Hv : lsb_val (l ++ replicate (k - length l) false) = lsb_val l).
  { rewrite lsb_val_app, lsb_val_replicate. lia. }
  rewrite <- Hv, <- (Z.add_0_r (lsb_val _)), <- (Z.mul_0_r (2 ^ zlen (l ++ replicate (k - length l) false))).
  replace k with (length (l ++ replicate (k - length l) false)) at 1.
  - apply low_bits_val.
  - rewrite length_app, length_replicate. lia.
Qed.

(** Setting a bit that is clear adds its weight. *)
Lemma set_clear_bit x n b :
  in_u 8 x -> 0 <= n < 8 -> Z.testbit x n = false ->
  Bits.set Bits.U8 x n b = Ok (x + 2 ^ n * Z.b2z b).
Proof.
  intros Hx Hn Hc.
  destruct (Bits.set_ok Bits.U8 x n b) as (y & -> & _ & Hy); [done|unfold Bits.MASK; simpl; lia|].
  f_equal. rewrite Z.mul_comm, <- Z.shiftl_mul_pow2 by lia.
  assert (Hb : forall i, 0 <= i -> Z.testbit (Z.shiftl (Z.b2z b) n) i = b && (i =? n)).
  { intros i Hi. rewrite Z.shiftl_spec by done. destruct (Z.eqb_spec i n) as [->|].
    - by rewrite Z.sub_diag, Z.b2z_bit0, andb_true_r.
    - rewrite andb_false_r. destruct (Z.ltb_spec i n); [by rewrite Z.testbit_neg_r by lia|].
      destruct b; [|by rewrite Z.bits_0]. change (Z.b2z true) with (2 ^ 0).
      by rewrite Z.pow2_bits_false by lia. }
  assert (Hand : Z.land x (Z.shiftl (Z.b2z b) n) = 0).
  { apply Z.bits_inj'. intros i Hi. rewrite Z.land_spec, Z.bits_0, Hb by done.
    destruct (Z.eqb_spec i n) as [->|]; [by rewrite Hc|by rewrite !andb_false_r]. }
  rewrite Z.add_nocarry_lxor, Z.lxor_lor by done.
  apply Z.bits_inj'. intros i Hi. rewrite Hy, Z.lor_spec, Hb by done.
  destruct (Z.eqb_spec i n) as [->|]; [rewrite Hc|rewrite andb_false_r, orb_false_r]; by destruct b.
Qed.

Lemma add_clear_bit x n : 0 <= x -> 0 <= n -> Z.testbit x n = false ->
  x + 2 ^ n = Z.setbit x n.
Proof.
  intros Hx Hn Hc. rewrite Z.setbit_spec'. assert (Hand : Z.land x (2 ^ n) = 0).
  { apply Z.bits_inj'. intros i Hi. rewrite Z.land_spec, Z.bits_0, Z.pow2_bits_eqb by done.
    destruct (Z.eqb_spec n i) as [<-|]; [by rewrite Hc|apply andb_false_r]. }
  by rewrite Z.add_nocarry_lxor, Z.lxor_lor.
Qed.

Lemma small_bit x n : 0 <= x < 2 ^ n -> 0 <= n -> Z.testbit x n = false.
Proof.
  intros Hx Hn. rewrite <- (Z.mod_small x (2 ^ n)) by lia. apply Z.mod_pow2_bits_high. lia.
Qed.

Lemma clear_added_bit x n (b : bool) : 0 <= x -> 0 <= n -> Z.testbit x n = false ->
  Z.testbit (x + (if b then 2 ^ n else 0)) n = b /\
  Z.clearbit (x + (if b then 2 ^ n else 0)) n = x.
Proof.
  intros Hx Hn Hc. destruct b.
  - rewrite add_clear_bit by done. split; [apply Z.setbit_eq; lia|].
    apply Z.bits_inj'. intros i Hi. rewrite Z.clearbit_eqb, Z.setbit_eqb by done.
    destruct (Z.eqb_spec n i) as [<-|]; simpl; [by rewrite Hc|]. by rewrite andb_true_r.
  - rewrite Z.add_0_r. split; [done|]. apply Z.bits_inj'. intros i Hi.
    rewrite Z.clearbit_eqb. destruct (Z.eqb_spec n i) as [<-|]; simpl; [by rewrite Hc|].
    by rewrite andb_true_r.
Qed.

Section Numbers.
Context `{BytesCrate, BitVecCrate, HexCrate, UnicodeTables, BigIntCrate, NomCrate}.

(** ** The writer *)

(** Popping bits off the end of the vector fills the byte from bit [idx] up. *)
Lemma pop_bits_spec k : forall idx n bits r,
  bv_iter bits = rev r -> (k <= length r)%nat -> 0 <= idx -> idx + Z.of_nat k <= 8 ->
  in_u 8 n -> (forall j, idx <= j < idx + Z.of_nat k -> Z.testbit n j = false) ->
  exists bits', pop_bits k idx n bits = Ok (n + 2 ^ idx * lsb_val (take k r), bits') /\
    bv_iter bits' = rev (drop k r).
Proof.
  induction k as [|k IH]; intros idx n bits r Hit Hk Hi H8 Hn Hfree; cbn [pop_bits].
  { exists bits. simpl. rewrite drop_0, Z.mul_0_r, Z.add_0_r. done. }
  destruct r as [|b r]; [simpl in Hk; lia|]. simpl in Hit.
  destruct (bv_pop_some _ _ _ Hit) as (bits1 & -> & Hit1).
  rewrite set_clear_bit by (try apply Hfree; done || lia).
  destruct (Bits.set_ok Bits.U8 n idx b Hn) as (n1 & Hset & Hn1 & Hbit).
  { unfold Bits.MASK. simpl. lia. }
  rewrite set_clear_bit in Hset by (try apply Hfree; done || lia). simplify_eq.
  destruct (IH (idx + 1) (n + 2 ^ idx * Z.b2z b) bits1 r) as (bits' & Hp & Hit').
  - done.
  - simpl in Hk. lia.
  - lia.
  - lia.
  - done.
  - intros j Hj. rewrite Hbit by lia. destruct (Z.eqb_spec j idx); [lia|]. apply Hfree. lia.
  - exists bits'. rewrite Hp. split; [|done]. do 2 f_equal.
    cbn [take lsb_val]. rewrite Z.pow_add_r by lia. lia.
Qed.

(** The bytes after the first one, from the bits that are left, lowest first. *)
Fixpoint chunks (fuel : nat) (r : list bool) : bytes :=
  match fuel with
  | O => []
  | S fuel =>
      if Nat.leb (length r) 7 then [lsb_val r]
      else (128 + lsb_val (take 7 r)) :: chunks fuel (drop 7 r)
  end.

Lemma byte_be b : is_byte b -> be_bytes 1 b = [b].
Proof.
  intros Hb. pose proof (be_bytes_be_val [b] (List.Forall_cons _ _ _ Hb (List.Forall_nil _))) as E.
  transitivity (be_bytes 1 (be_val [b])); [|exact E]. f_equal. unfold be_val. simpl. lia.
Qed.

Lemma take_bits_bound k r : (k <= 7)%nat -> 0 <= lsb_val (take k r) < 128.
Proof.
  intros Hk. pose proof (lsb_val_bound (take k r)) as Hb.
  assert (2 ^ zlen (take k r) <= 2 ^ 7); [|lia].
  apply Z.pow_le_mono_r; [lia|]. unfold zlen. rewrite length_take. lia.
Qed.

Lemma encode_chunks_spec todo : forall bits r i last data,
  bv_iter bits = rev r -> r <> [] -> (zlen r - 1) / 7 = last - i ->
  Z.of_nat todo = last - i + 1 -> 0 <= i ->
  encode_chunks todo i last bits data = Ok (data ++ chunks todo r).
Proof.
  induction todo as [|todo IH]; intros bits r i last data Hit Hne Hlast Htodo Hi.
  { assert (Hp : 0 < zlen r) by (destruct r; [done|rewrite zlen_cons; pose proof (zlen_nonneg r); lia]).
    assert (0 <= (zlen r - 1) / 7) by (apply Z.div_pos; lia). lia. }
  cbn [encode_chunks chunks]. unfold bv_len. rewrite Hit, zlen_rev.
  assert (Hlen : zlen r = Z.of_nat (length r)) by done.
  assert (Hp : 0 < zlen r) by (destruct r; [done|rewrite zlen_cons; pose proof (zlen_nonneg r); lia]).
  pose proof (Z.div_mod (zlen r - 1) 7 ltac:(lia)) as Hdm.
  pose proof (Z.mod_pos_bound (zlen r - 1) 7 ltac:(lia)) as Hm.
  destruct (pop_bits_spec (Z.to_nat (Z.min 7 (zlen r))) 0 0 bits r) as (bits' & -> & Hit');
    [done|lia|lia|lia|unfold in_u; lia|intros; apply Z.bits_0|].
  simpl. rewrite Z.mul_1_l. destruct (Nat.leb_spec (length r) 7).
  - replace (Z.to_nat (Z.min 7 (zlen r))) with (length r) by lia.
    assert ((zlen r - 1) / 7 = 0) by (apply Z.div_small; lia).
    assert (i = last) as -> by lia. assert (todo = 0%nat) as -> by lia.
    rewrite Z.eqb_refl, firstn_all. simpl. rewrite put_u8_spec, byte_be; [done|].
    pose proof (take_bits_bound (length r) r ltac:(lia)) as Hb. rewrite firstn_all in Hb.
    unfold is_byte. lia.
  - replace (Z.to_nat (Z.min 7 (zlen r))) with 7%nat in * by lia.
    pose proof (take_bits_bound 7 r ltac:(lia)) as Hb.
    assert (7 <= zlen r - 1) by lia.
    assert (1 <= (zlen r - 1) / 7) by (apply Z.div_le_lower_bound; lia).
    destruct (Z.eqb_spec i last); [lia|]. simpl.
    rewrite set_clear_bit; [|unfold in_u; lia|lia|].
    + simpl. rewrite put_u8_spec, (IH bits' (drop 7 r)).
      * rewrite byte_be by (unfold is_byte; lia). rewrite <- app_assoc.
        by replace (0 + lsb_val (take 7 r) + 2 ^ 7 * 1) with (128 + lsb_val (take 7 r)) by lia.
      * done.
      * intros E. apply (f_equal length) in E. rewrite length_drop in E. simpl in E. lia.
      * unfold zlen. rewrite length_drop.
        replace (Z.of_nat (length r - 7) - 1) with (zlen r - 1 + (-1) * 7) by lia.
        rewrite Z.div_add by lia. lia.
      * lia.
      * lia.
    + rewrite <- (Z.mod_small (lsb_val _) (2 ^ 7)) by lia. apply Z.mod_pow2_bits_high. lia.
Qed.

(** The bytes of the bits [r] of a number of at least seven bits. *)
Definition long_image (negative : bool) (r : list bool) : bytes :=
  ((if negative then 0xC0 else 0x80) + lsb_val (take 6 r)) :: chunks (length r) (drop 6 r).

Lemma chunks_fuel n : forall m r,
  r <> [] -> (length r <= 7 * n)%nat -> (length r <= 7 * m)%nat -> chunks n r = chunks m r.
Proof.
  induction n as [|n IH]; intros [|m] r Hne Hn Hm;
    try (destruct r; [done|simpl in *; lia]). cbn [chunks].
  destruct (Nat.leb_spec (length r) 7); [done|]. f_equal. apply IH.
  - intros E. apply (f_equal length) in E. rewrite length_drop in E. simpl in E. lia.
  - rewrite length_drop. lia.
  - rewrite length_drop. lia.
Qed.

Lemma encode_z_long_spec negative bs r :
  rev r = drop_zeros (flat_map byte_bits bs) -> (7 <= length r)%nat ->
  encode_z_long [] negative bs = Ok (long_image negative r, zlen (long_image negative r)).
Proof.
  intros Hr Hl. unfold encode_z_long.
  destruct (pop_bits_spec 6 0 (if negative then 0xC0 else 0x80)
    (trim_left (bv_from_bytes bs)) r) as (bits & -> & Hit).
  - by rewrite trim_left_iter, bv_from_bytes_spec.
  - lia.
  - lia.
  - lia.
  - unfold in_u. destruct negative; lia.
  - intros j Hj. assert (Hc : j = 0 \/ j = 1 \/ j = 2 \/ j = 3 \/ j = 4 \/ j = 5) by lia.
    destruct negative, Hc as [->|[->|[->|[->|[->| ->]]]]]; done.
  - simpl. unfold bv_len. rewrite Hit, zlen_rev.
    assert (Hd : zlen (drop 6 r) = Z.of_nat (length r) - 6) by (unfold zlen; rewrite length_drop; lia).
    destruct (Z.eqb_spec (zlen (drop 6 r)) 0); [lia|].
    assert (Hdiv : 0 <= (zlen (drop 6 r) - 1) / 7) by (apply Z.div_pos; lia).
    pose proof (Z.div_mod (zlen (drop 6 r) - 1) 7 ltac:(lia)).
    pose proof (Z.mod_pos_bound (zlen (drop 6 r) - 1) 7 ltac:(lia)).
    assert (Hne : drop 6 r <> []).
    { intros E. rewrite E in Hd. change (zlen []) with 0 in Hd. lia. }
    rewrite (encode_chunks_spec _ bits (drop 6 r)) by (done || lia). simpl.
    rewrite put_u8_spec. simpl. change (zlen []) with 0.
    pose proof (take_bits_bound 6 r ltac:(lia)).
    assert (Hb : lsb_val (take 6 r) < 64).
    { pose proof (lsb_val_bound (take 6 r)) as Hb.
      assert (2 ^ zlen (take 6 r) = 2 ^ 6); [|lia]. f_equal. unfold zlen. rewrite length_take. lia. }
    rewrite byte_be by (unfold is_byte; destruct negative; lia).
    unfold long_image. rewrite (chunks_fuel (Z.to_nat _) (length r)) by (done || unfold zlen in *; lia).
    unfold checked_sub. rewrite (proj2 (Z.leb_le _ _)) by apply zlen_nonneg.
    by rewrite Z.sub_0_r, Z.pow_0_r, Z.mul_1_l.
Qed.

(** ** Hexadecimal numerals *)

Lemma hex_digit_cases c : is_hex_digit c ->
  (48 <= c <= 57 /\ hex_digit_val c = c - 48) \/ (97 <= c <= 102 /\ hex_digit_val c = c - 87) \/
  (65 <= c <= 70 /\ hex_digit_val c = c - 55).
Proof.
  unfold is_hex_digit, hex_digit_val, hex_digit. intros [v Hv].
  destruct (Z.leb_spec 48 c), (Z.leb_spec c 57), (Z.leb_spec 97 c), (Z.leb_spec c 102),
    (Z.leb_spec 65 c), (Z.leb_spec c 70); simpl in *; try done; lia.
Qed.

Lemma hex_digit_val_bound c : is_hex_digit c -> 0 <= hex_digit_val c < 16.
Proof. intros Hc. pose proof (hex_digit_cases c Hc). lia. Qed.

Lemma hex_val_acc_bound l acc :
  Forall is_hex_digit l -> acc * 16 ^ zlen l <= hex_val_acc acc l < (acc + 1) * 16 ^ zlen l.
Proof.
  intros Hl. revert acc. induction Hl as [|c l Hc _ IH]; intros acc; simpl.
  - change (zlen []) with 0. lia.
  - pose proof (hex_digit_val_bound c Hc). specialize (IH (16 * acc + hex_digit_val c)).
    rewrite zlen_cons, Z.pow_add_r by (pose proof (zlen_nonneg l); lia).
    assert (0 < 16 ^ zlen l) by (apply Z.pow_pos_nonneg; [lia|apply zlen_nonneg]). nia.
Qed.

Lemma hex_digit_zero c : is_hex_digit c -> hex_digit_val c = 0 -> c = 48.
Proof. intros Hc. pose proof (hex_digit_cases c Hc). lia. Qed.

(** A canonical numeral of a small number is short. *)
Lemma hex_numeral_short ds : hex_numeral ds -> hex_val ds <= 63 -> zlen ds <= 2.
Proof.
  intros (Hd & Hne & Hz) Hv. destruct ds as [|c ds]; [done|].
  inversion Hd as [|? ? Hc Hds]; subst. unfold hex_val in Hv. cbn [hex_val_acc] in Hv.
  pose proof (hex_digit_val_bound c Hc) as Hb.
  pose proof (hex_val_acc_bound ds (16 * 0 + hex_digit_val c) Hds) as Hl.
  destruct (Z.eq_dec (hex_digit_val c) 0) as [E|E].
  - apply hex_digit_zero in E; [|done]. simpl in Hz. rewrite Hz by done. vm_compute. discriminate.
  - rewrite zlen_cons. destruct (Z.le_gt_cases (zlen ds) 1); [lia|exfalso].
    assert (16 ^ 2 <= 16 ^ zlen ds) by (apply Z.pow_le_mono_r; lia). nia.
Qed.

(** What [encode_z] makes of a numeral: the bytes of its value. *)
Lemma hex_bytes ds : hex_numeral ds ->
  exists bs, hex_decode (if Nat.odd (length ds) then 48 :: ds else ds) = Ok bs /\
    are_bytes bs /\ be_val bs = hex_val ds /\ (hex_val ds <= 63 -> zlen bs = 1).
Proof.
  intros (Hd & Hne & Hz).
  assert (Hshort := hex_numeral_short ds (conj Hd (conj Hne Hz))).
  assert (Hp : 0 < zlen ds) by (destruct ds; [done|rewrite zlen_cons; pose proof (zlen_nonneg ds); lia]).
  destruct (Nat.odd (length ds)) eqn:Eo.
  - destruct (hex_decode_ok (48 :: ds)) as (bs & Hbs & Hby & Hlen & Hval).
    + constructor; [by exists 0|done].
    + cbn [length]. by rewrite Nat.even_succ.
    + exists bs. split; [done|]. split; [done|]. split; [done|]. intros Hs. specialize (Hshort Hs).
      rewrite zlen_cons in Hlen. pose proof (zlen_nonneg bs). lia.
  - destruct (hex_decode_ok ds) as (bs & Hbs & Hby & Hlen & Hval); [done|by rewrite <- Nat.negb_odd, Eo|].
    exists bs. split; [done|]. split; [done|]. split; [done|]. intros Hs. specialize (Hshort Hs). lia.
Qed.

Lemma hex_digit_alphanumeric c : is_hex_digit c -> c < 128 /\ ascii_alphanumeric c = true.
Proof.
  intros Hc. pose proof (hex_digit_cases c Hc) as Hd. split; [lia|].
  unfold ascii_alphanumeric. rewrite !orb_true_iff, !andb_true_iff, !Z.leb_le. lia.
Qed.

(** ** The image of a number *)

Inductive z_image (z : Z) : bytes -> Prop :=
| z_image_short : Z.abs z <= 63 ->
    z_image z [Z.abs z + (if z <? 0 then 64 else 0)]
| z_image_long r : 63 < Z.abs z -> lsb_val r = Z.abs z -> (7 <= length r)%nat ->
    z_image z (long_image (z <? 0) r).

Lemma z_bytes_image z : exists bs, z_bytes (to_str_radix_16 z) = Ok bs /\ z_image z bs.
Proof.
  destruct (to_str_radix_16_spec z) as (ds & -> & Hnum & Hval).
  destruct (hex_bytes ds Hnum) as (bs & Hdec & Hby & Hbe & Hone).
  assert (Hgo : forall s off neg, neg = (z <? 0) -> drop off s = ds -> s <> [] ->
    (if first_alphanumeric s then (0%nat, false)
     else if hd 0 s =? 45 then (1%nat, true) else (1%nat, false)) = (off, neg) ->
    hd 0 s < 128 -> exists bs, z_bytes s = Ok bs /\ z_image z bs).
  { intros s off neg Hneg Hdrop Hne Hsel Hascii. destruct s as [|c s]; [done|].
    unfold z_bytes, encode_z. simpl hd in *. rewrite Hsel.
    destruct (Z.leb_spec 128 c); [lia|]. cbn [andb]. rewrite Hdrop, Hdec. simpl.
    rewrite Hval in *. destruct (Z.leb_spec (Z.abs z) 63) as [Hs|Hl].
    - specialize (Hone Hs). destruct bs as [|b [|b' bs]]; try (vm_compute in Hone; lia || done).
      + simpl. assert (Hb : b = Z.abs z) by (rewrite <- Hbe; unfold be_val; simpl; lia).
        rewrite (proj2 (Z.leb_le b 63)) by lia. simpl. eexists. split; [done|].
        rewrite put_u8_spec. simpl.
        replace (if neg then Z.lor b 64 else b) with (Z.abs z + (if z <? 0 then 64 else 0)).
        * rewrite byte_be by (unfold is_byte; destruct (z <? 0); lia). by constructor.
        * rewrite Hneg, Hb. destruct (z <? 0); [|lia].
          rewrite <- Z.lxor_lor, Z.add_nocarry_lxor; [done| |];
            apply Z.bits_inj'; intros i Hi; rewrite Z.land_spec, Z.bits_0;
            change 64 with (2 ^ 6); rewrite Z.pow2_bits_eqb by lia;
            (destruct (Z.eqb_spec 6 i) as [<-|]; [|apply andb_false_r]);
            rewrite <- (Z.mod_small (Z.abs z) (2 ^ 6)) by lia;
            by rewrite Z.mod_pow2_bits_high by lia.
      + rewrite !zlen_cons in Hone. pose proof (zlen_nonneg bs). lia.
    - assert (Hcond : (zlen bs =? 1) && (hd 0 bs <=? 63) = false).
      { destruct (Z.eqb_spec (zlen bs) 1) as [E1|]; [|done]. simpl.
        destruct bs as [|b [|b' bs]]; try (vm_compute in E1; done).
        - simpl. apply Z.leb_gt. unfold be_val in Hbe. simpl in Hbe. lia.
        - rewrite !zlen_cons in E1. pose proof (zlen_nonneg bs). lia. }
      rewrite Hcond. set (l := drop_zeros (flat_map byte_bits bs)).
      assert (Hlv : bits_val l = Z.abs z) by (unfold l; by rewrite drop_zeros_val, bytes_bits_val).
      assert (Hlen : (7 <= length (rev l))%nat).
      { rewrite length_rev. pose proof (bits_val_bound l) as Hb. rewrite Hlv in Hb.
        destruct (Nat.leb_spec 7 (length l)); [done|exfalso].
        assert (2 ^ zlen l <= 2 ^ 6) by (apply Z.pow_le_mono_r; unfold zlen; lia). lia. }
      rewrite (encode_z_long_spec neg bs (rev l)) by (by rewrite ?rev_involutive). simpl.
      eexists. split; [done|]. rewrite Hneg. by constructor. }
  destruct Hnum as (Hd & Hne & _). destruct ds as [|d ds]; [done|].
  inversion Hd as [|? ? Hd1 _]; subst. destruct (hex_digit_alphanumeric d Hd1) as [Hlt Hal].
  destruct (Z.ltb_spec z 0) as [Hneg|Hpos]; simpl.
  - apply (Hgo (45 :: d :: ds) 1%nat true); try done.
  - apply (Hgo (d :: ds) 0%nat false); try done.
    simpl. destruct (Z.ltb_spec d 128); [|lia]. by rewrite Hal.
Qed.

(** ** The readers *)

Lemma push_bits_spec k : forall idx byte bits,
  0 <= idx -> idx + Z.of_nat k <= 8 ->
  exists bits', push_bits k idx byte bits = Ok bits' /\
    bv_iter bits' = bv_iter bits ++ map (fun i => Z.testbit byte (idx + Z.of_nat i)) (seq 0 k).
Proof.
  induction k as [|k IH]; intros idx byte bits Hi Hk; cbn [push_bits].
  { exists bits. by rewrite app_nil_r. }
  rewrite Bits.get_ok by (unfold Bits.MASK; simpl; lia). simpl.
  destruct (IH (idx + 1) byte (bv_push bits (Z.testbit byte idx))) as (bits' & -> & Hit);
    [lia|lia|].
  exists bits'. split; [done|]. rewrite Hit, bv_push_spec, <- app_assoc. simpl.
  rewrite Z.add_0_r, <- seq_shift, map_map. do 2 f_equal. apply map_ext. intros j.
  f_equal. lia.
Qed.

Lemma push_low_bits k byte bits : (k <= 8)%nat ->
  exists bits', push_bits k 0 byte bits = Ok bits' /\
    bv_iter bits' = bv_iter bits ++ low_bits k byte.
Proof. intros Hk. apply (push_bits_spec k 0 byte bits); lia. Qed.

Lemma byte_head (b : Z) rest : is_byte b -> nom_number NU8 (b :: rest) = Ok (rest, b).
Proof.
  intros Hb. change (b :: rest) with ([b] ++ rest). rewrite nom_number_ok by done.
  do 2 f_equal. unfold number_val, be_val. simpl. lia.
Qed.

(** One round of the loop: seven bits in, the eighth says whether to go on. *)
Lemma bits_loop_byte n b i bits : is_byte b ->
  exists bits', bits_loop (S n) true (b :: i) bits = bits_loop n (Z.testbit b 7) i bits' /\
    bv_iter bits' = bv_iter bits ++ low_bits 7 b.
Proof.
  intros Hb. cbn [bits_loop]. rewrite byte_head by done.
  destruct (push_low_bits 7 b bits ltac:(lia)) as (bits' & -> & Hit).
  rewrite Bits.get_ok by (unfold Bits.MASK; simpl; lia). eauto.
Qed.

Lemma bits_loop_chunks n : forall r fuel bits rest,
  r <> [] -> (length r <= 7 * n)%nat -> (length (chunks n r) <= fuel)%nat ->
  exists bits' j, bits_loop fuel true (chunks n r ++ rest) bits = Ok (rest, bits') /\
    bv_iter bits' = bv_iter bits ++ r ++ replicate j false.
Proof.
  induction n as [|n IH]; intros r fuel bits rest Hne Hn Hf.
  { destruct r; [done|simpl in Hn; lia]. }
  cbn [chunks] in *. destruct (Nat.leb_spec (length r) 7) as [Hs|Hl].
  - destruct fuel as [|fuel]; [simpl in Hf; lia|]. simpl app.
    pose proof (lsb_val_bound r) as Hb.
    assert (2 ^ zlen r <= 2 ^ 7) by (apply Z.pow_le_mono_r; unfold zlen; lia).
    destruct (bits_loop_byte fuel (lsb_val r) rest bits) as (bits' & -> & Hit);
      [unfold is_byte; lia|].
    rewrite small_bit by lia. exists bits', (7 - length r)%nat.
    split; [by destruct fuel|]. by rewrite Hit, low_bits_pad.
  - destruct fuel as [|fuel]; [simpl in Hf; lia|]. simpl app.
    pose proof (take_bits_bound 7 r ltac:(lia)) as Hb.
    destruct (bits_loop_byte fuel (128 + lsb_val (take 7 r)) (chunks n (drop 7 r) ++ rest) bits)
      as (bits' & -> & Hit); [unfold is_byte; lia|].
    destruct (clear_added_bit (lsb_val (take 7 r)) 7 true) as [Hbit _];
      [lia|lia|apply small_bit; lia|].
    rewrite Z.add_comm in Hbit. change (2 ^ 7) with 128 in Hbit. rewrite Hbit.
    destruct (IH (drop 7 r) fuel bits' rest) as (bits2 & j & Hloop & Hit2).
    + intros E. apply (f_equal length) in E. rewrite length_drop in E. simpl in E. lia.
    + rewrite length_drop. lia.
    + simpl in Hf. lia.
    + exists bits2, j. split; [done|]. rewrite Hit2, Hit, <- app_assoc. f_equal.
      assert (H7 : length (take 7 r) = 7%nat) by (rewrite length_take; lia).
      pose proof (low_bits_val (take 7 r) 1) as Hlow. unfold zlen in Hlow.
      rewrite H7 in Hlow. change (2 ^ Z.of_nat 7 * 1) with 128 in Hlow.
      rewrite Z.add_comm in Hlow. rewrite Hlow. by rewrite app_assoc, take_drop.
Qed.

Lemma bits_number_val sign bits :
  bits_number sign bits =
    match sign with
    | Minus => - lsb_val (bv_iter bits)
    | Plus => lsb_val (bv_iter bits)
    | NoSign => bits_number NoSign bits
    end.
Proof.
  destruct sign; try done; unfold bits_number;
    (set (padded := if negb (bv_len bits mod 8 =? 0) then _ else _);
     assert (Hpad : exists j, bv_iter padded = bv_iter bits ++ replicate j false /\
       zlen (bv_iter padded) mod 8 = 0);
     [|destruct Hpad as (j & Hit & Hmod);
       destruct (bv_to_bytes_spec (reverse padded)) as [Hby Hfl];
       [by rewrite reverse_iter, zlen_rev|];
       rewrite reverse_iter in Hfl;
       rewrite ?from_bytes_be_plus, ?from_bytes_be_minus by done;
       rewrite <- bytes_bits_val, Hfl by done; unfold bits_val;
       rewrite rev_involutive, Hit, lsb_val_app, lsb_val_replicate; lia]);
    unfold padded, bv_len; destruct (Z.eqb_spec (zlen (bv_iter bits) mod 8) 0) as [E|E]; simpl;
    [exists 0%nat; by rewrite app_nil_r|exists (Z.to_nat (8 - zlen (bv_iter bits) mod 8))
    |exists 0%nat; by rewrite app_nil_r|exists (Z.to_nat (8 - zlen (bv_iter bits) mod 8))];
    rewrite bv_append_spec, bv_from_elem_spec; (split; [done|]);
    rewrite zlen_app; unfold zlen at 2; rewrite length_replicate;
    pose proof (Z.mod_pos_bound (zlen (bv_iter bits)) 8 ltac:(lia));
    pose proof (Z.div_mod (zlen (bv_iter bits)) 8 ltac:(lia));
    symmetry; apply (Z.mod_unique_pos _ _ (zlen (bv_iter bits) / 8 + 1)); lia.
Qed.

(** [zarith] reads an image back, whatever follows it. *)
Lemma zarith_image z bs rest : z_image z bs -> zarith (bs ++ rest) = Ok (rest, z).
Proof.
  intros Himg. destruct Himg as [Hs|r Hl Hr Hlen].
  - cbn [app]. unfold zarith. rewrite byte_head by (unfold is_byte; destruct (z <? 0); lia).
    rewrite Bits.take_ok by (unfold in_u, Bits.MASK; simpl; destruct (z <? 0); lia).
    destruct (clear_added_bit (Z.abs z) 6 (z <? 0)) as [H6 C6]; [lia|lia|apply small_bit; lia|].
    change (2 ^ 6) with 64 in *.
    destruct (clear_added_bit (Z.abs z + (if z <? 0 then 64 else 0)) 7 false) as [H7 C7];
      [destruct (z <? 0); lia|lia|apply small_bit; destruct (z <? 0); lia|].
    rewrite Z.add_0_r in H7, C7. rewrite H7, C7.
    rewrite Bits.take_ok by (unfold in_u, Bits.MASK; simpl; destruct (z <? 0); lia).
    rewrite H6, C6. simpl. destruct (Z.ltb_spec z 0); do 2 f_equal; lia.
  - unfold long_image. cbn [app]. unfold zarith. pose proof (lsb_val_bound (take 6 r)) as Hb.
    assert (H6l : length (take 6 r) = 6%nat) by (rewrite length_take; lia).
    assert (Hz6 : zlen (take 6 r) = 6) by (unfold zlen; by rewrite H6l).
    rewrite Hz6 in Hb. change (2 ^ 6) with 64 in Hb.
    set (x := lsb_val (take 6 r)) in *.
    assert (E : (if z <? 0 then 192 else 128) + x =
      (x + (if z <? 0 then 2 ^ 6 else 0)) + (if true then 2 ^ 7 else 0))
      by (destruct (z <? 0); lia).
    rewrite E. assert (Hx6 : 0 <= x + (if z <? 0 then 2 ^ 6 else 0) < 2 ^ 7)
      by (destruct (z <? 0); lia).
    rewrite byte_head by (unfold is_byte; lia).
    rewrite Bits.take_ok by (unfold in_u, Bits.MASK; simpl Bits.WIDTH; lia).
    destruct (clear_added_bit (x + (if z <? 0 then 2 ^ 6 else 0)) 7 true) as [-> ->];
      [lia|lia|apply small_bit; lia|].
    rewrite Bits.take_ok by (unfold in_u, Bits.MASK; simpl Bits.WIDTH; lia).
    destruct (clear_added_bit x 6 (z <? 0)) as [-> ->]; [lia|lia|apply small_bit; lia|].
    cbn [negb]. destruct (push_low_bits 6 x bv_new ltac:(lia)) as (bits & -> & Hit).
    assert (Hne : drop 6 r <> []).
    { intros E0. apply (f_equal length) in E0. rewrite length_drop in E0. simpl in E0. lia. }
    destruct (bits_loop_chunks (length r) (drop 6 r)
      (S (length (chunks (length r) (drop 6 r) ++ rest))) bits rest Hne) as (bits' & j & -> & Hit').
    + rewrite length_drop. lia.
    + rewrite length_app. lia.
    + rewrite bits_number_val. do 2 f_equal.
      assert (Hv : lsb_val (bv_iter bits') = Z.abs z).
      { rewrite Hit', Hit, bv_new_spec, app_nil_l.
        pose proof (low_bits_val (take 6 r) 0) as Hlow. rewrite Z.mul_0_r, Z.add_0_r, H6l in Hlow.
        unfold x. rewrite Hlow, app_assoc, take_drop, lsb_val_app, lsb_val_replicate. lia. }
      rewrite Hv. destruct (Z.ltb_spec z 0); lia.
Qed.

(** [mutez] takes the sign position of the first byte for a seventh bit. *)
Lemma mutez_image z bs rest : 0 <= z -> z_image z bs ->
  mutez (bs ++ rest) = Ok (rest, if z <=? 63 then z else 2 * z - z mod 64).
Proof.
  intros Hz Himg. unfold mutez. assert (Hneg : (z <? 0) = false) by (apply Z.ltb_ge; lia).
  destruct Himg as [Hs|r Hl Hr Hlen]; rewrite Hneg.
  - cbn [app length]. rewrite Z.add_0_r.
    destruct (bits_loop_byte (S (length rest)) (Z.abs z) rest bv_new) as (bits & -> & Hit);
      [unfold is_byte; lia|].
    rewrite small_bit by lia. cbn [bits_loop]. rewrite bits_number_val, Hit, bv_new_spec, app_nil_l.
    assert (Hlow : lsb_val (low_bits 7 (Z.abs z)) = Z.abs z); [|rewrite Hlow].
    { apply Z.bits_inj'. intros i Hi. rewrite <- (Z2Nat.id i), lsb_val_bit by lia.
      destruct (decide (Z.to_nat i < 7)%nat).
      - by rewrite low_bits_lookup.
      - rewrite lookup_ge_None_2 by (rewrite low_bits_length; lia). simpl.
        rewrite <- (Z.mod_small (Z.abs z) (2 ^ 7)) by lia. symmetry.
        apply Z.mod_pow2_bits_high. lia. }
    destruct (Z.leb_spec z 63); [|lia]. destruct rest; do 2 f_equal; lia.
  - unfold long_image. cbn [app length]. pose proof (lsb_val_bound (take 6 r)) as Hb.
    assert (H6l : length (take 6 r) = 6%nat) by (rewrite length_take; lia).
    assert (Hz6 : zlen (take 6 r) = 6) by (unfold zlen; by rewrite H6l).
    rewrite Hz6 in Hb. change (2 ^ 6) with 64 in Hb.
    destruct (bits_loop_byte (S (length (chunks (length r) (drop 6 r) ++ rest)))
      (128 + lsb_val (take 6 r)) (chunks (length r) (drop 6 r) ++ rest) bv_new)
      as (bits & -> & Hit); [unfold is_byte; lia|].
    destruct (clear_added_bit (lsb_val (take 6 r)) 7 true) as [Hbit _];
      [lia|lia|apply small_bit; lia|].
    rewrite Z.add_comm in Hbit. change (2 ^ 7) with 128 in Hbit. rewrite Hbit.
    assert (Hne : drop 6 r <> []).
    { intros E0. apply (f_equal length) in E0. rewrite length_drop in E0. simpl in E0. lia. }
    destruct (bits_loop_chunks (length r) (drop 6 r)
      (S (length (chunks (length r) (drop 6 r) ++ rest))) bits rest Hne) as (bits' & j & -> & Hit').
    + rewrite length_drop. lia.
    + rewrite length_app. lia.
    + rewrite bits_number_val, Hit', Hit, bv_new_spec, app_nil_l. do 2 f_equal.
      assert (H7 : low_bits 7 (128 + lsb_val (take 6 r)) = take 6 r ++ [false]).
      { pose proof (low_bits_val (take 6 r ++ [false]) 1) as Hlow.
        rewrite length_app, H6l in Hlow. cbn [length Nat.add] in Hlow. rewrite <- Hlow.
        f_equal. rewrite lsb_val_app, zlen_app, Hz6. change (zlen [false]) with 1.
        simpl lsb_val at 3. change (2 ^ (6 + 1) * 1) with 128. lia. }
      rewrite H7, !lsb_val_app, lsb_val_replicate, zlen_app, Hz6.
      change (zlen [false]) with 1. change (lsb_val [false]) with 0.
      assert (Hsplit : z = lsb_val (take 6 r) + 64 * lsb_val (drop 6 r)).
      { rewrite <- (take_drop 6 r), lsb_val_app, Hz6 in Hr. change (2 ^ 6) with 64 in Hr. lia. }
      assert (Hmod : z mod 64 = lsb_val (take 6 r)).
      { symmetry. apply (Z.mod_unique_pos _ _ (lsb_val (drop 6 r))); lia. }
      destruct (Z.leb_spec z 63); [lia|]. rewrite Hmod.
      change (2 ^ (6 + 1)) with 128. change (2 ^ 6) with 64. lia.
Qed.
End Numbers.

(** (C34) Every integer survives the variable-length format: the writer writes
    any [BigInt] under [Encoding::Z], and [zarith] reads exactly that integer
    back, leaving whatever follows. *)
Theorem zarith_roundtrip
  `{BytesCrate, BitVecCrate, HexCrate, UnicodeTables, BigIntCrate, NomCrate} (z : Z) :
  exists bs, write (RBigInt z) EZ = Ok bs /\
    forall rest, zarith (bs ++ rest) = Ok (rest, z).
Proof.
  destruct (z_bytes_image z) as (bs & Hbs & Himg). exists bs. split.
  - unfold write. simpl. pose proof (encode_z_frame [] (to_str_radix_16 z)) as Hf.
    rewrite Hbs in Hf. simpl in Hf. by rewrite Hf.
  - intros rest. by apply zarith_image.
Qed.

#[export] Instance reference_unicode : UnicodeTables := {| nonascii_alphanumeric _ := false |}.

Example zarith_roundtrip_witness :
  exists bs, write (RBigInt (-165316510)) EZ = Ok bs /\
    forall rest, zarith (bs ++ rest) = Ok (rest, -165316510).
Proof. apply (zarith_roundtrip (-165316510)). Defined.

(** Amounts do not survive theirs: [Encoding::Mutez] is written with a sign
    bit in its first byte, [mutez] reads that bit as data, so every amount above
    63 is read back as another number, nearly twice as large. *)
Theorem mutez_misread
  `{BytesCrate, BitVecCrate, HexCrate, UnicodeTables, BigIntCrate, NomCrate} (z : Z) :
  63 < z ->
  exists bs, write (RBigInt z) EMutez = Ok bs /\
    forall rest, mutez (bs ++ rest) = Ok (rest, 2 * z - z mod 64) /\ 2 * z - z mod 64 <> z.
Proof.
  intros Hz. destruct (z_bytes_image z) as (bs & Hbs & Himg). exists bs. split.
  - unfold write. simpl. pose proof (encode_z_frame [] (to_str_radix_16 z)) as Hf.
    rewrite Hbs in Hf. simpl in Hf. by rewrite Hf.
  - intros rest. rewrite (mutez_image z bs rest) by (done || lia).
    destruct (Z.leb_spec z 63); [lia|]. split; [done|].
    pose proof (Z.mod_pos_bound z 64 ltac:(lia)). lia.
Qed.

(** The number of the sources' own tests: 165316510 is written [9e9ed49d01],
    which [mutez] reads as 330632990. *)
Example mutez_misread_witness :
  exists bs, write (RBigInt 165316510) EMutez = Ok bs /\
    forall rest, mutez (bs ++ rest) = Ok (rest, 330632990) /\ 330632990 <> 165316510.
Proof. apply (mutez_misread 165316510). lia. Defined.

Example mutez_test_bytes :
  write (RBigInt 165316510) EMutez = Ok [0x9e; 0x9e; 0xd4; 0x9d; 0x01].
Proof. vm_compute. reflexivity. Qed.
