(* ===== verification/WriterFacts.v ===== *)
(** * Facts about the writer ([tezos/encoding/src/binary_writer.rs], [ser.rs])

    The writer implements the format [write_spec], and two consequences of how
    [ser.rs] presents numbers and of how sizes are checked. *)

From Stdlib Require Import ZArith Lia List Bool String.
From stdpp Require Import base option list numbers strings.
From S2P Require Import Prelude Extern BitUtils CryptoHash Types Serializer BinaryWriter WriterSpec ExternRef Zarith.

(** (C30) The writer implements the format: whatever the buffer holds, encoding a
    value appends exactly the bytes [write_spec] gives for it and answers their
    number, or fails with the same error at the same location. *)
Theorem writer_refines_format `{BytesCrate, BitVecCrate, HexCrate, UnicodeTables}
  (e : Encoding) (v : Value) (data : bytes) :
  customs_append e -> encode_any e v data = appended (write_spec e v) data.
Proof. intros Hc. rewrite encode_any_value. by apply encode_value_appends. Qed.

Definition sample_encoding : Encoding :=
  EDynamic (EObj "Sample" [("id", EUint16); ("names", EBoundedList 2 EString)]%string).
Definition sample_value : Value :=
  VRecord [("names", VList [VString [104; 105]]); ("id", VUint16 258)]%string.

Lemma writer_refines_format_witness :
  encode_any sample_encoding sample_value [9] =
    appended (Ok [0; 0; 0; 8; 1; 2; 0; 0; 0; 2; 104; 105]) [9].
Proof.
  transitivity (appended (write_spec sample_encoding sample_value) [9]).
  - apply (writer_refines_format sample_encoding sample_value [9]). simpl. tauto.
  - vm_compute. reflexivity.
Defined.

(** A [u32] is written under [Encoding::Uint32] exactly when it fits [i32]: the
    serializer turns larger ones into [Value::Int64], which the writer rejects
    for this encoding. *)
Theorem u32_written `{BytesCrate, BitVecCrate, HexCrate, UnicodeTables, BigIntCrate} (z : Z) :
  in_u 32 z ->
  write (RU32 z) EUint32 =
    if z <=? i32_max then Ok (be_bytes 4 z) else Err (error_info EncodingMismatch).
Proof.
  intros Hz. unfold write, in_u in *. cbn [serialize]. unfold serialize_u32.
  destruct (z <=? i32_max); cbn [lift map_err mbind result_bind];
    rewrite encode_any_value, encode_value_appends by done; unfold appended; cbn [write_spec].
  - destruct (Z.leb_spec 0 z); [done|lia].
  - done.
Qed.

Lemma u32_written_witness :
  write (RU32 3000000000) EUint32 =
    if 3000000000 <=? i32_max then Ok (be_bytes 4 3000000000) else Err (error_info EncodingMismatch).
Proof. apply (u32_written 3000000000). unfold in_u. lia. Defined.
