(* ===== verification/DeriveMake.v ===== *)
(** * The derive macro, front half ([tezos/encoding-derive/src/encoding.rs],
    [make.rs], [symbol.rs])

    The macro reads a type declaration with its [#[encoding(...)]] attributes
    and builds the macro's own [Encoding] tree, here [denc].  The syntax tree it
    reads is [syn]'s; the part of it [make.rs] matches on is given as data types,
    and the two parsers of [syn] it calls on string literals are a class.
    Expressions stay text (the names of constants); spans are dropped; errors
    keep their message. *)

From Stdlib Require Import ZArith Lia List Bool Ascii String.
From stdpp Require Import base option list numbers strings.
From S2P Require Import Prelude.

Set Warnings "-register-all".

(** ** [encoding.rs] *)
Inductive PrimitiveEncoding : Type :=
| PInt8 | PUint8 | PInt16 | PUint16 | PInt31 | PInt32 | PUint32 | PInt64 | PFloat
| PBool | PTimestamp.

#[export] Instance PrimitiveEncoding_eq_dec : EqDecision PrimitiveEncoding.
Proof. solve_decision. Defined.

Inductive denc : Type :=
| DUnit
| DPrimitive (p : PrimitiveEncoding)
| DBytes
| DPath (path : list string)
| DZarith
| DMuTez
| DString (max : option string)
| DStruct (name : string) (fields : list (string * option denc))
| DEnum (name tag_type : string) (ignore_unknown : bool) (tags : list (Z * string * denc))
| DOptionField (d : denc)
| DList (max : option string) (d : denc)
| DSized (size : string) (d : denc)
| DBounded (max : string) (d : denc)
| DDynamic (max : option string) (d : denc).

(** ** The syntax tree *)
Inductive Lit : Type := LitStr (s : string) | LitInt (z : Z) | LitOther.

Inductive Meta : Type :=
| MetaPath (path : string)
| MetaList (path : string) (nested : list NestedMeta)
| MetaNameValue (path : string) (lit : Lit)
with NestedMeta : Type :=
| NestedM (m : Meta)
| NestedLit (l : Lit).

Inductive Ty : Type :=
| TyPath (segments : list (string * PathArguments))
| TyOther
with PathArguments : Type :=
| NoArguments
| AngleBracketed (args : list GenericArgument)
| Parenthesized
with GenericArgument : Type :=
| GenericType (t : Ty)
| GenericOther.

(** An attribute with the outcome of [parse_meta]. *)
Record Attribute : Type := mkAttribute { attr_path : string; parse_meta : result string Meta }.

Record Field : Type := mkField { f_ident : string; f_ty : Ty; f_attrs : list Attribute }.

Inductive Fields : Type := Named (l : list Field) | Unnamed (l : list Ty) | UnitFields.

Record Variant : Type :=
  mkVariant { v_ident : string; v_fields : Fields; v_attrs : list Attribute }.

Inductive Data : Type := DataStruct (f : Fields) | DataEnum (l : list Variant) | DataUnion.

Record DeriveInput : Type :=
  mkDeriveInput { d_ident : string; d_attrs : list Attribute; d_data : Data }.

(** [LitStr::parse] at [syn::Expr] and at [syn::Ident]: whether the text parses.
    Identifiers that are not keywords are identifiers, and paths of identifiers
    (or [super]) are expressions; nothing is said of other texts. *)
Definition ident_start (c : ascii) : bool :=
  let n := Z.of_N (N_of_ascii c) in
  ((65 <=? n) && (n <=? 90)) || ((97 <=? n) && (n <=? 122)) || (n =? 95).
Definition ident_char (c : ascii) : bool :=
  let n := Z.of_N (N_of_ascii c) in ident_start c || ((48 <=? n) && (n <=? 57)).

Definition rust_keywords : list string :=
  ["_"; "abstract"; "as"; "async"; "await"; "become"; "box"; "break"; "const"; "continue";
   "crate"; "do"; "dyn"; "else"; "enum"; "extern"; "false"; "final"; "fn"; "for"; "if"; "impl";
   "in"; "let"; "loop"; "macro"; "match"; "mod"; "move"; "mut"; "override"; "priv"; "pub";
   "ref"; "return"; "Self"; "self"; "static"; "struct"; "super"; "trait"; "true"; "try";
   "type"; "typeof"; "unsafe"; "unsized"; "use"; "virtual"; "where"; "while"; "yield"].

Definition ident_text (s : string) : bool :=
  match s with
  | EmptyString => false
  | String c rest => ident_start c && forallb ident_char (list_ascii_of_string rest)
  end && negb (existsb (String.eqb s) rust_keywords).

Fixpoint split_path (s seg : string) : list string :=
  match s with
  | String c (String c' rest as tail) =>
      if Ascii.eqb c ":" && Ascii.eqb c' ":" then seg :: split_path rest ""
      else split_path tail (seg ++ String c "")%string
  | String c EmptyString => [(seg ++ String c "")%string]
  | EmptyString => [seg]
  end.
Definition path_text (s : string) : bool :=
  forallb (fun seg => ident_text seg || String.eqb seg "super") (split_path s "").

Class SynCrate : Type := {
  is_expr : string -> bool;
  is_ident : string -> bool;
  is_expr_path s : path_text s = true -> is_expr s = true;
  is_ident_text s : ident_text s = true -> is_ident s = true;
}.

#[export] Instance reference_syn : SynCrate :=
  {| is_expr := path_text; is_ident := ident_text;
     is_expr_path _ H := H; is_ident_text _ H := H |}.

Open Scope string_scope.

Section Make.
Context `{SynCrate}.

Abbreviation res := (result string).
Definition metas : Type := list Meta.

(** ** Attributes

    The attributes are consumed from the last to the first ([Vec::pop]). *)
Definition meta_path (m : Meta) : string :=
  match m with MetaPath p | MetaList p _ | MetaNameValue p _ => p end.

Definition has_attribute (meta : metas) (name : string) : bool :=
  match last meta with Some m => String.eqb (meta_path m) name | None => false end.

Definition get_attribute (meta : metas) (name : string) : option Meta * metas :=
  match last meta with
  | Some m => if String.eqb (meta_path m) name then (Some m, removelast meta) else (None, meta)
  | None => (None, meta)
  end.

Definition get_value (m : Meta) (is_default : bool) : option Lit :=
  match m with
  | MetaPath _ => None
  | MetaNameValue _ lit => if is_default then Some lit else None
  | _ => None
  end.

(** [T::parse] on a string literal, for the three types it is used at. *)
Definition parse_expr (s : string) : res string :=
  if is_expr s then Ok s else Err "expected expression".
Definition parse_ident (s : string) : res string :=
  if is_ident s then Ok s else Err "expected identifier".
Definition primitive_names : list (string * PrimitiveEncoding) :=
  [("Int8", PInt8); ("Uint8", PUint8); ("Int16", PInt16); ("Uint16", PUint16);
   ("Int31", PInt31); ("Int32", PInt32); ("Uint32", PUint32); ("Int64", PInt64);
   ("Float", PFloat); ("Bool", PBool); ("Timestamp", PTimestamp)].
Definition parse_primitive (s : string) : res PrimitiveEncoding :=
  name ← parse_ident s;
  match list_find (fun np => np.1 = name) primitive_names with
  | Some (_, np) => Ok np.2
  | None => Err "Unrecognized primitive encoding"
  end.

Definition parse_value {T} (parse : string -> res T) (lit : Lit) : res T :=
  match lit with LitStr s => parse s | _ => Err "Non-string literal" end.

Definition get_value_parsed {T} (parse : string -> res T) (m : Meta) (is_default : bool)
  : res (option T) :=
  match get_value m is_default with
  | None => Ok None
  | Some lit => v ← parse_value parse lit; Ok (Some v)
  end.

Definition get_attribute_with_option {T} (parse : string -> res T) (meta : metas)
  (name : string) : res (option (option T) * metas) :=
  match get_attribute meta name with
  | (None, meta) => Ok (None, meta)
  | (Some m, meta) => param ← get_value_parsed parse m true; Ok (Some param, meta)
  end.

Definition get_attribute_with_param {T} (parse : string -> res T) (meta : metas)
  (name : string) : res (option T * metas) :=
  match get_attribute meta name with
  | (None, meta) => Ok (None, meta)
  | (Some m, meta) =>
      param ← get_value_parsed parse m true;
      match param with
      | Some p => Ok (Some p, meta)
      | None => Err "Parameter is required"
      end
  end.

Definition get_attribute_no_param (meta : metas) (name : string) : res (bool * metas) :=
  match get_attribute meta name with
  | (None, meta) => Ok (false, meta)
  | (Some (MetaPath _), meta) => Ok (true, meta)
  | (Some _, _) => Err "Parameter is unexpected"
  end.

Definition get_attribute_value (meta : metas) (name : string) : option Lit * metas :=
  match last meta with
  | Some (MetaNameValue p lit) =>
      if String.eqb p name then (Some lit, removelast meta) else (None, meta)
  | _ => (None, meta)
  end.

Definition get_attribute_value_parsed {T} (parse : string -> res T) (meta : metas)
  (name : string) : res (option T * metas) :=
  match get_attribute_value meta name with
  | (None, meta) => Ok (None, meta)
  | (Some lit, meta) => v ← parse_value parse lit; Ok (Some v, meta)
  end.

Definition assert_empty_meta (meta : metas) : res unit :=
  match last meta with Some _ => Err "Unrecognized attribute" | None => Ok tt end.

(** The content of the first [encoding] attribute. *)
Definition nested_metas (error : string) (l : list NestedMeta) : res metas :=
  try_map (fun n => match n with NestedM m => Ok m | NestedLit _ => Err error end) l.

Definition get_encoding_meta (attrs : list Attribute) : res metas :=
  match list_find (fun a => attr_path a = "encoding") attrs with
  | None => Ok []
  | Some (_, a) =>
      m ← parse_meta a;
      match m with
      | MetaList _ nested => nested_metas "Unexpected literal" nested
      | _ => Err "Attribute list is expected"
      end
  end.

(** ** Building encodings; each function returns the attributes it left *)

Definition dres : Type := res (denc * metas).

(** [make_bounded_encoding]: every round consumes one attribute, so a round per
    attribute is enough. *)
Fixpoint bounded_rounds (rounds : nat) (meta : metas) (encoding : denc) : dres :=
  match rounds with
  | O => Ok (encoding, meta)
  | S rounds =>
      r ← get_attribute_with_param parse_expr meta "sized";
      match r with
      | (Some size, meta) => bounded_rounds rounds meta (DSized size encoding)
      | (None, meta) =>
          r ← get_attribute_with_param parse_expr meta "bounded";
          match r with
          | (Some max, meta) => bounded_rounds rounds meta (DBounded max encoding)
          | (None, meta) =>
              r ← get_attribute_with_option parse_expr meta "dynamic";
              match r with
              | (Some max, meta) => bounded_rounds rounds meta (DDynamic max encoding)
              | (None, meta) => Ok (encoding, meta)
              end
          end
      end
  end.
Definition make_bounded_encoding (meta : metas) (encoding : denc) : dres :=
  bounded_rounds (length meta) meta encoding.

Definition make_list_encoding_from_meta (meta : metas) (encoding : denc) : dres :=
  r ← get_attribute_with_option parse_expr meta "list";
  match r with
  | (Some max, meta) => Ok (DList max encoding, meta)
  | (None, meta) => Ok (encoding, meta)
  end.

Definition make_list_encoding_from_type (meta : metas) (encoding : denc) : dres :=
  r ← get_attribute_no_param meta "bytes";
  match r with
  | (true, meta) =>
      match encoding with
      | DPrimitive PUint8 => Ok (DBytes, meta)
      | _ => Err "Incompatible type for `bytes` encoding"
      end
  | (false, meta) =>
      r ← get_attribute_with_option parse_expr meta "list";
      match r with
      | (Some max, meta) => Ok (DList max encoding, meta)
      | (None, meta) => Ok (DList None encoding, meta)
      end
  end.

Definition make_optional_field_encoding_from_meta (meta : metas) (encoding : denc) : dres :=
  r ← get_attribute_no_param meta "option";
  match r with
  | (true, meta) => Ok (DOptionField encoding, meta)
  | (false, meta) => Ok (encoding, meta)
  end.

Definition make_optional_field_encoding_from_type (meta : metas) (encoding : denc) : dres :=
  r ← get_attribute_no_param meta "option";
  Ok (DOptionField encoding, r.2).

Definition get_basic_encoding_from_meta (meta : metas) : res (option denc * metas) :=
  r ← get_attribute_no_param meta "string";
  match r with
  | (true, meta) => Ok (Some DBytes, meta)
  | (false, meta) =>
  r ← get_attribute_with_option parse_expr meta "string";
  match r with
  | (Some max, meta) => Ok (Some (DString max), meta)
  | (None, meta) =>
  r ← get_attribute_no_param meta "zarith";
  match r with
  | (true, meta) => Ok (Some DZarith, meta)
  | (false, meta) =>
  r ← get_attribute_no_param meta "mutez";
  match r with
  | (true, meta) => Ok (Some DMuTez, meta)
  | (false, meta) =>
  r ← get_attribute_with_param parse_primitive meta "builtin";
  match r with
  | (Some p, meta) => Ok (Some (DPrimitive p), meta)
  | (None, meta) => Ok (None, meta)
  end end end end end.

Definition make_basic_encoding_from_meta (meta : metas) : dres :=
  r ← get_basic_encoding_from_meta meta;
  match r with
  | (Some d, meta) => Ok (d, meta)
  | (None, _) => Err "No basic encoding specified"
  end.

Definition get_composite_meta (meta : metas) : res (option metas * metas) :=
  match get_attribute meta "composite" with
  | (None, meta) => Ok (None, meta)
  | (Some (MetaList _ nested), meta) =>
      l ← nested_metas "Invalid nested attribute type" nested; Ok (Some l, meta)
  | (Some _, _) => Err "Invalid attribute type"
  end.

Definition assert_builtin_encoding (meta : metas) (kind : PrimitiveEncoding) : res metas :=
  r ← get_attribute_with_param parse_primitive meta "builtin";
  match r with
  | (Some p, meta) =>
      if decide (kind = p) then Ok meta else Err "Built-in encoding does not match the type"
  | (None, meta) =>
      match get_attribute meta "string" with
      | (Some _, _) => Err "String encoding can be used only with `String` type"
      | (None, meta) => Ok meta
      end
  end.

(** The loop of [make_composite_encoding]: a round that consumes nothing ends
    it, so one more round than there are attributes is enough. *)
Fixpoint composite_rounds (rounds : nat) (meta : metas) (encoding : denc) : res denc :=
  match rounds with
  | O => Err "unreachable"
  | S rounds =>
      r ← make_bounded_encoding meta encoding;
      r ← make_list_encoding_from_meta r.2 r.1;
      r ← make_optional_field_encoding_from_meta r.2 r.1;
      if Nat.eqb (length r.2) (length meta)
      then _ ← assert_empty_meta r.2; Ok r.1
      else composite_rounds rounds r.2 r.1
  end.
Definition make_composite_encoding (meta : metas) : res denc :=
  r ← make_basic_encoding_from_meta meta;
  composite_rounds (S (length r.2)) r.2 r.1.

Definition RUST_TO_PRIMITIVE_MAPPING : list (string * PrimitiveEncoding) :=
  [("i8", PInt8); ("u8", PUint8); ("i16", PInt16); ("u16", PUint16); ("i32", PInt32);
   ("u32", PUint32); ("i64", PInt64); ("f64", PFloat); ("bool", PBool)].

Definition get_rust_to_primitive_mapping (ident : string) : option PrimitiveEncoding :=
  snd ∘ snd <$> list_find (fun ip => ip.1 = ident) RUST_TO_PRIMITIVE_MAPPING.

Definition make_basic_encoding_from_type (path : list string) (meta : metas) : dres :=
  let ident := default "" (last path) in
  if String.eqb ident "String" then
    r ← get_attribute_with_option parse_expr meta "string";
    make_bounded_encoding r.2 (DString (default None r.1))
  else if String.eqb ident "i64" && has_attribute meta "timestamp" then
    r ← get_attribute_no_param meta "timestamp";
    make_bounded_encoding r.2 (DPrimitive PTimestamp)
  else
    match get_rust_to_primitive_mapping ident with
    | Some mapped =>
        meta ← assert_builtin_encoding meta mapped;
        make_bounded_encoding meta (DPrimitive mapped)
    | None =>
        r ← get_attribute_with_param parse_primitive meta "builtin";
        match r with
        | (Some p, meta) => make_bounded_encoding meta (DPrimitive p)
        | (None, meta) =>
            r ← get_composite_meta meta;
            match r with
            | (Some inner, meta) => d ← make_composite_encoding inner; Ok (d, meta)
            | (None, meta) => make_bounded_encoding meta (DPath path)
            end
        end
    end.

(** [make_type_encoding] and [make_type_path_encoding]. *)
Fixpoint make_type_encoding (ty : Ty) (meta : metas) : dres :=
  match ty with
  | TyOther => Err "Unsupported type"
  | TyPath segments =>
      let path := fst <$> segments in
      (fix on_last (l : list (string * PathArguments)) : dres :=
        match l with
        | [] => Err "Unsupported type"
        | [(ident, NoArguments)] => make_basic_encoding_from_type path meta
        | [(ident, AngleBracketed args)] =>
            match args with
            | [GenericType t] =>
                r ← make_type_encoding t meta;
                r ← (if String.eqb ident "Vec" then make_list_encoding_from_type r.2 r.1
                     else if String.eqb ident "Option"
                     then make_optional_field_encoding_from_type r.2 r.1
                     else Err "Only `Vec<_>` and `Option<_>` are supported");
                make_bounded_encoding r.2 r.1
            | [GenericOther] => Err "Only type generic parameters supported"
            | _ => Err "Expected single argument"
            end
        | [(_, Parenthesized)] => Err "Only angle-bracketed generic arguments are supported"
        | _ :: l => on_last l
        end) segments
  end.

Definition skip_field (meta : metas) : bool :=
  existsb (fun m => match m with MetaPath p => String.eqb p "skip" | _ => false end) meta.

Definition make_field (field : Field) : res (string * option denc) :=
  meta ← get_encoding_meta (f_attrs field);
  if skip_field meta then Ok (f_ident field, None)
  else
    r ← make_type_encoding (f_ty field) meta;
    r ← make_bounded_encoding r.2 r.1;
    _ ← assert_empty_meta r.2;
    Ok (f_ident field, Some r.1).

Definition make_fields (fields : list Field) : res (list (string * option denc)) :=
  try_map make_field fields.

Definition make_struct_encoding (fields : Fields) (name : string) : res denc :=
  match fields with
  | Named l => fs ← make_fields l; Ok (DStruct name fs)
  | _ => Err "Only structures with named fields supported"
  end.

Definition make_tag (v : Variant) (meta : metas) (default_id : Z) : res (Z * string * denc) :=
  let (lit, meta) := get_attribute_value meta "tag" in
  id ← match lit with
       | Some (LitInt z) => Ok z
       | Some _ => Err "Integer literal expected"
       | None => Ok default_id
       end;
  match v_fields v with
  | Named _ => Err "Named fields are not supported for enums"
  | Unnamed [TyPath segments] => Ok (id, v_ident v, DPath (fst <$> segments))
  | Unnamed [TyOther] => Err "Unsupported type for enum variant"
  | Unnamed _ => Err "Only single field is supported"
  | UnitFields => Ok (id, v_ident v, DUnit)
  end.

Fixpoint make_tags (default_id : Z) (variants : list Variant) : res (list (Z * string * denc)) :=
  match variants with
  | [] => Ok []
  | v :: variants =>
      meta ← get_encoding_meta (v_attrs v);
      tag ← make_tag v meta default_id;
      tags ← make_tags (default_id + 1) variants;
      Ok (tag :: tags)
  end.

Definition make_enum_encoding (variants : list Variant) (name : string) (meta : metas) : dres :=
  r ← get_attribute_no_param meta "ignore_unknown";
  let (ignore_unknown, meta) := (r : bool * metas) in
  r ← get_attribute_value_parsed parse_ident meta "tags";
  tags ← make_tags 0 variants;
  Ok (DEnum name (default "u8" r.1) ignore_unknown tags, r.2).

(** [make_encoding] and [make_data_with_encoding]. *)
Definition make_encoding (d : DeriveInput) : res denc :=
  meta ← get_encoding_meta (d_attrs d);
  r ← match d_data d with
      | DataStruct fields => e ← make_struct_encoding fields (d_ident d); Ok (e, meta)
      | DataEnum variants => make_enum_encoding variants (d_ident d) meta
      | DataUnion => Err "`union` is not supported"
      end;
  r ← make_bounded_encoding r.2 r.1;
  _ ← assert_empty_meta r.2;
  Ok r.1.

(** ** Attributes that name a basic encoding *)

Lemma get_attribute_last (ms : metas) (m : Meta) (name : string) :
  get_attribute (ms ++ [m])%list name =
    if String.eqb (meta_path m) name then (Some m, ms) else (None, (ms ++ [m])%list).
Proof. unfold get_attribute. by rewrite last_snoc, removelast_last. Qed.

(** The attributes that should name the basic encodings of strings and bytes
    do not: [get_basic_encoding_from_meta] tests for [STRING] where it builds
    [Bytes], so the attribute [string] gives the encoding of bytes, [string] with
    a maximum is an error, and [bytes] is not recognised. *)
Theorem string_attribute_is_bytes (ms : metas) (max : Lit) :
  make_basic_encoding_from_meta (ms ++ [MetaPath "string"])%list = Ok (DBytes, ms) /\
  make_basic_encoding_from_meta (ms ++ [MetaNameValue "string" max])%list = Err "Parameter is unexpected" /\
  make_basic_encoding_from_meta (ms ++ [MetaPath "bytes"])%list = Err "No basic encoding specified".
Proof.
  unfold make_basic_encoding_from_meta, get_basic_encoding_from_meta, get_attribute_no_param,
    get_attribute_with_option, get_attribute_with_param.
  repeat (rewrite get_attribute_last; cbn [meta_path String.eqb Ascii.eqb Bool.eqb mbind result_bind]).
  auto.
Qed.
End Make.

Close Scope string_scope.

Example string_attribute_is_bytes_witness :
  make_basic_encoding_from_meta [MetaPath "dynamic"; MetaPath "string"] =
    Ok (DBytes, [MetaPath "dynamic"]) /\
  make_basic_encoding_from_meta [MetaPath "dynamic"; MetaNameValue "string" (LitStr "MAX")] =
    Err "Parameter is unexpected"%string /\
  make_basic_encoding_from_meta [MetaPath "dynamic"; MetaPath "bytes"] =
    Err "No basic encoding specified"%string.
Proof. apply (string_attribute_is_bytes [MetaPath "dynamic"] (LitStr "MAX")). Defined.
