(* ===== verification/Derive.v ===== *)
(** * The derive macro, back half ([tezos/encoding-derive/src/enc.rs], [nom.rs])

    From the tree [denc] the macro generates the [Encoding] value of
    [HasEncoding] and the [nom_read] function of [NomReader].  The generated
    code is given its meaning here: [generate_encoding] is the value,
    [generate_nom_read] the parser, which returns the Rust value it builds as an
    [rval].  What the generated code refers to by name comes from the
    environment: constants, the implementations of the types it mentions, and
    [Default::default()] of skipped fields. *)

From Stdlib Require Import ZArith Lia List Bool String Ascii.
From stdpp Require Import base option list numbers strings.
From S2P Require Import Prelude Extern BitUtils CryptoHash Types Serializer BinaryWriter NomCrate NomReader DeriveMake.

(** ** Helpers *)
Section OptMap.
Context {A B : Type} (f : A -> option B).

Fixpoint opt_map (l : list A) : option (list B) :=
  match l with
  | [] => Some []
  | a :: l => match f a, opt_map l with Some b, Some bs => Some (b :: bs) | _, _ => None end
  end.

Lemma opt_map_Forall2 l k : opt_map l = Some k <-> Forall2 (fun a b => f a = Some b) l k.
Proof.
  revert k. induction l as [|a l IH]; intros k; simpl.
  - split; [intros [= <-]; constructor|]. by inversion 1.
  - split.
    + intros Hk. destruct (f a) as [b|] eqn:Ea; [|done]. destruct (opt_map l); [|done].
      injection Hk as <-. constructor; [done|]. by apply IH.
    + inversion 1 as [|? b ? k' Hb Hk]; subst. by rewrite Hb, (proj2 (IH k') Hk).
Qed.

Lemma opt_map_cons_inv a l k : opt_map (a :: l) = Some k ->
  exists b k', f a = Some b /\ opt_map l = Some k' /\ k = b :: k'.
Proof.
  simpl. destruct (f a) as [b|]; [|done]. destruct (opt_map l) as [k'|]; [|done].
  intros [= <-]. eauto.
Qed.
End OptMap.

Definition is_unit (d : denc) : bool := match d with DUnit => true | _ => false end.

(** The fields that are encoded, each through [f]; skipped fields are left out. *)
Section EncodedFields.
Context {B : Type} (f : denc -> option B).

Fixpoint encoded_fields (l : list (string * option denc)) : option (list (string * B)) :=
  match l with
  | [] => Some []
  | (n, Some d) :: l =>
      match f d, encoded_fields l with
      | Some e, Some fs => Some ((n, e) :: fs)
      | _, _ => None
      end
  | (_, None) :: l => encoded_fields l
  end.
End EncodedFields.

(** [format!("0x{:.2X}", tag)]: upper-case hexadecimal; a precision means nothing
    for an integer. *)
Definition hex_digit_char (d : Z) : ascii :=
  ascii_of_nat (Z.to_nat (if d <? 10 then 48 + d else 55 + d)).
Fixpoint hex_upper (fuel : nat) (n : Z) (acc : string) : string :=
  match fuel with
  | O => acc
  | S fuel =>
      let acc := String (hex_digit_char (n mod 16)) acc in
      if n <? 16 then acc else hex_upper fuel (n / 16) acc
  end.
Definition format_tag (tag : Z) : string := ("0x" ++ hex_upper 16 tag "")%string.

(** The type's own [encoding()] and [nom_read], and what it can hold. *)
Record type_impl : Type := mkImpl { ti_encoding : Encoding; ti_nom_read : parser rval }.

Definition NOM_TUPLE_MAX : nat := 26.

(** [std::mem::size_of] of the tag type, and its reader. *)
Definition tag_size (tag_type : string) : option Z :=
  if String.eqb tag_type "u8" then Some 1
  else if String.eqb tag_type "u16" then Some 2
  else if String.eqb tag_type "u32" then Some 4
  else None.
Definition tag_number (tag_type : string) : option number :=
  if String.eqb tag_type "u8" then Some NU8
  else if String.eqb tag_type "u16" then Some NU16
  else if String.eqb tag_type "u32" then Some NU32
  else None.

Section Generate.
Context (const : string -> Z) (impl : list string -> type_impl).
Context (dflt : string -> string -> rval).

(** ** [enc.rs] *)

Definition generage_primitive_encoding (p : PrimitiveEncoding) : Encoding :=
  match p with
  | PInt8 => EInt8 | PUint8 => EUint8 | PInt16 => EInt16 | PUint16 => EUint16
  | PInt31 => EInt31 | PInt32 => EInt32 | PUint32 => EUint32 | PInt64 => EInt64
  | PFloat => EFloat | PBool => EBool | PTimestamp => ETimestamp
  end.

Definition generate_string_encoding (size : option string) : Encoding :=
  match size with None => EString | Some s => EBoundedString (const s) end.
Definition generate_list_encoding (size : option string) (e : Encoding) : Encoding :=
  match size with None => EList e | Some s => EBoundedList (const s) e end.
Definition generate_dynamic_encoding (size : option string) (e : Encoding) : Encoding :=
  match size with None => EDynamic e | Some s => EBoundedDynamic (const s) e end.

(** [None]: the generated code does not compile, or [TagMap::new] asserts. *)
Fixpoint generate_encoding (d : denc) : option Encoding :=
  match d with
  | DUnit => Some EUnit
  | DPrimitive p => Some (generage_primitive_encoding p)
  | DBytes => Some EBytes
  | DPath path => Some (ti_encoding (impl path))
  | DString size => Some (generate_string_encoding size)
  | DStruct name fields =>
      fs ← encoded_fields generate_encoding fields;
      Some (EObj name fs)
  | DEnum name tag_type _ tags =>
      sz ← tag_size tag_type;
      ts ← opt_map (fun t => e ← generate_encoding t.2; Some (t.1.1, t.1.2, e)) tags;
      m ← tag_map_new ts;
      Some (Types.tags sz m)
  | DOptionField d => e ← generate_encoding d; Some (EOptionalField e)
  | DList size d => e ← generate_encoding d; Some (generate_list_encoding size e)
  | DSized size d => e ← generate_encoding d; Some (ESized (const size) e)
  | DBounded size d => e ← generate_encoding d; Some (EBounded (const size) e)
  | DDynamic size d => e ← generate_encoding d; Some (generate_dynamic_encoding size e)
  | DZarith => Some EZ
  | DMuTez => Some EMutez
  end.

(** ** [nom.rs] *)
Context `{NomCrate, BitVecCrate, BigIntCrate}.

Definition generage_primitive_nom_read (p : PrimitiveEncoding) : parser rval :=
  match p with
  | PInt8 => nom_map (nom_number NI8) RI8
  | PUint8 => nom_map (nom_number NU8) RU8
  | PInt16 => nom_map (nom_number NI16) RI16
  | PUint16 => nom_map (nom_number NU16) RU16
  | PInt31 => nom_map (nom_number NI32) RI32
  | PInt32 => nom_map (nom_number NI32) RI32
  | PUint32 => nom_map (nom_number NU32) RU32
  | PInt64 => nom_map (nom_number NI64) RI64
  | PFloat => nom_map (nom_number NF64) RF64
  | PTimestamp => nom_map (nom_number NI64) RI64
  | PBool => nom_map boolean RBool
  end.

Definition generate_string_nom_read (size : option string) : parser rval :=
  nom_map (match size with None => string_ | Some s => bounded_string (const s) end) RStr.

Definition generate_bytes_nom_read : parser rval := nom_map bytes_ (fun l => RSeq (map RU8 l)).

Definition generate_optional_field_nom_read (p : parser rval) : parser rval :=
  nom_map (optional_field p) (fun o => match o with Some v => RSome v | None => RNone end).

Definition generate_list_nom_read (size : option string) (p : parser rval) : parser rval :=
  nom_map (match size with None => list_ p | Some s => bounded_list (const s) p end) RSeq.

Definition generate_sized_nom_read (size : string) (p : parser rval) : parser rval :=
  sized (const size) p.
Definition generate_bounded_nom_read (size : string) (p : parser rval) : parser rval :=
  bounded (const size) p.
Definition generate_dynamic_nom_read (size : option string) (p : parser rval) : parser rval :=
  match size with None => dynamic p | Some s => bounded_dynamic (const s) p end.

(** Structures: no field, one field, a [tuple] of fewer than [NOM_TUPLE_MAX]
    fields, or one field after another. *)
Definition build_struct (names : list string) (vs : list rval) : rval :=
  RStruct (zip names vs).

Fixpoint multi_fields (ps : list (parser rval)) (acc : list rval) : parser (list rval) :=
  match ps with
  | [] => fun i => Ok (i, acc)
  | p :: ps => fun i =>
      match p i with
      | Ok (i, v) => multi_fields ps (acc ++ [v]) i
      | Err e => Err e
      end
  end.

Definition generate_struct_nom_read (name : string) (fields : list (string * parser rval))
  : parser rval :=
  let names := fst <$> fields in
  let qualified := (fun fp => field (name ++ "::" ++ fp.1)%string fp.2) <$> fields in
  match fields with
  | [] => nom_success (RStruct [])
  | [(f, p)] => nom_map (field f p) (fun v => build_struct names [v])
  | _ =>
      if Nat.ltb (length fields) NOM_TUPLE_MAX
      then nom_map (nom_tuple qualified) (build_struct names)
      else nom_map (multi_fields qualified []) (build_struct names)
  end.

(** Enums: the tag, then the chain of comparisons; [read] is the reader of a
    variant's payload, [None] for a variant without one. *)
Definition generate_tag_nom_read (enum_name : string) (index : Z) (tag_name : string)
  (read : option (parser rval)) : parser rval :=
  match read with
  | None => fun i => Ok (i, RUnitVariant index tag_name)
  | Some p =>
      nom_map (variant (enum_name ++ "::" ++ tag_name)%string p) (RNewtypeVariant index tag_name)
  end.

Fixpoint select_tag (enum_name : string) (ignore_unknown : bool) (index tag : Z)
  (tags : list (Z * string * option (parser rval))) : parser rval := fun i =>
  match tags with
  | [] =>
      Err (NFailure ((if ignore_unknown then unknown_tag else invalid_tag) i (format_tag tag)))
  | (id, name, read) :: tags =>
      if tag =? id then generate_tag_nom_read enum_name index name read i
      else select_tag enum_name ignore_unknown (index + 1) tag tags i
  end.

Definition generate_enum_nom_read (name : string) (tag_read : number) (ignore_unknown : bool)
  (tags : list (Z * string * option (parser rval))) : parser rval := fun i =>
  match nom_number tag_read i with
  | Ok (i, tag) => select_tag name ignore_unknown 0 tag tags i
  | Err e => Err e
  end.

(** [None]: the macro panics ([unreachable!]) or the code does not compile. *)
Fixpoint generate_nom_read (d : denc) : option (parser rval) :=
  match d with
  | DUnit => None
  | DPrimitive p => Some (generage_primitive_nom_read p)
  | DBytes => Some generate_bytes_nom_read
  | DPath path => Some (ti_nom_read (impl path))
  | DStruct name fields =>
      fs ← opt_map (fun f =>
             match f.2 with
             | Some d => p ← generate_nom_read d; Some (f.1, p)
             | None => Some (f.1, fun i => Ok (i, dflt name f.1))
             end) fields;
      Some (generate_struct_nom_read name fs)
  | DEnum name tag_type ignore_unknown tags =>
      n ← tag_number tag_type;
      ts ← opt_map (fun t =>
             if is_unit t.2 then Some (t.1.1, t.1.2, None)
             else p ← generate_nom_read t.2; Some (t.1.1, t.1.2, Some p)) tags;
      Some (generate_enum_nom_read name n ignore_unknown ts)
  | DString size => Some (generate_string_nom_read size)
  | DOptionField d => p ← generate_nom_read d; Some (generate_optional_field_nom_read p)
  | DList size d => p ← generate_nom_read d; Some (generate_list_nom_read size p)
  | DSized size d => p ← generate_nom_read d; Some (generate_sized_nom_read size p)
  | DBounded size d => p ← generate_nom_read d; Some (generate_bounded_nom_read size p)
  | DDynamic size d => p ← generate_nom_read d; Some (generate_dynamic_nom_read size p)
  | DZarith => Some (nom_map zarith RBigInt)
  | DMuTez => Some (nom_map mutez RBigInt)
  end.

(** [#[derive(HasEncoding, NomReader)]]. *)
Definition derive `{SynCrate} (input : DeriveInput) : option type_impl :=
  match make_encoding input with
  | Err _ => None
  | Ok d =>
      e ← generate_encoding d;
      p ← generate_nom_read d;
      Some (mkImpl e p)
  end.
End Generate.
