(* ===== verification/RoundTrip.v ===== *)
(** * Round trip of derived codecs

    What [#[derive(HasEncoding, NomReader)]] generates is a codec: bytes the
    writer produces for a well-typed value are read back as that value, with
    whatever follows them left over when the encoding delimits itself.  [codec]
    states it for an [Encoding] and a parser, one lemma per construct composes
    it; [DerivedCodec.v] concludes by induction on the macro's tree. *)

From Stdlib Require Import ZArith Lia List Bool String.
From stdpp Require Import base option list numbers strings.
From S2P Require Import Prelude Extern BitUtils CryptoHash Types Serializer BinaryWriter WriterSpec NomCrate NomReader DeriveMake Derive.

Section Codec.
Context `{BytesCrate, BitVecCrate, HexCrate, UnicodeTables, BigIntCrate, NomCrate}.

(** [delim]: the reader stops by itself at the end of the value's bytes.
    [starts]: the reader fails (with a recoverable error) on empty input. *)
Definition limit_error (e : Error) : bool :=
  match e with SizeOverflow | BoundExceeded _ _ | WrongSize _ _ => true | _ => false end.

(** The writer fails, if it does, because a size limit is exceeded. *)
Definition limited (r : bres) : Prop :=
  match r with Ok _ => True | Err er => limit_error (kind er) = true end.

Definition reads_back (delim : bool) (e : Encoding) (p : parser rval) (v : rval) : Prop :=
  exists x, serialize v = Ok x /\ limited (write_spec e x) /\
    forall bs, write_spec e x = Ok bs ->
      forall rest, delim = true \/ rest = [] -> p (bs ++ rest) = Ok (rest, v).

Definition fails_empty {A} (p : parser A) : Prop := exists err, p [] = Err (NError err).

Definition codec (delim starts : bool) (T : rval -> Prop) (e : Encoding) (p : parser rval)
  : Prop :=
  (starts = true -> fails_empty p) /\ forall v, T v -> reads_back delim e p v.

(** ** Numbers *)

Definition number_range (k : number) (z : Z) : Prop :=
  match k with
  | NU8 => in_u 8 z | NI8 => in_s 8 z | NU16 => in_u 16 z | NI16 => in_s 16 z
  | NU32 => in_u 32 z | NI32 => in_s 32 z | NI64 => in_s 64 z | NF64 => in_u 64 z
  end.

Lemma number_back k z rest : number_range k z ->
  nom_number k (be_bytes (number_size k) z ++ rest) = Ok (rest, z).
Proof.
  intros Hz. rewrite nom_number_ok by apply be_bytes_length. do 2 f_equal.
  destruct k; unfold number_val; rewrite be_val_be_bytes; simpl number_size; simpl Z.of_nat;
    simpl in Hz; try (by apply Z.mod_small);
    first [exact (swrap_id 8 z eq_refl Hz)|exact (swrap_id 16 z eq_refl Hz)
          |exact (swrap_id 32 z eq_refl Hz)|exact (swrap_id 64 z eq_refl Hz)].
Qed.

Lemma number_empty k : fails_empty (nom_number k).
Proof. eexists. apply nom_number_short. destruct k; simpl; lia. Qed.

Lemma map_empty {A B} (p : parser A) (f : A -> B) : fails_empty p -> fails_empty (nom_map p f).
Proof. intros [e E]. exists e. by rewrite nom_map_ok, E. Qed.

Lemma primitive_number k e (R : Z -> rval) (T : rval -> Prop) :
  (forall v, T v -> exists z, v = R z /\ number_range k z /\
     exists x, serialize (R z) = Ok x /\ limited (write_spec e x) /\
       forall bs, write_spec e x = Ok bs -> bs = be_bytes (number_size k) z) ->
  codec true true T e (nom_map (nom_number k) R).
Proof.
  intros HT. split; [intros _; apply map_empty, number_empty|].
  intros v (z & -> & Hz & x & Hx & Hl & Hbs)%HT. exists x. split; [done|]. split; [done|].
  intros bs E rest _. rewrite (Hbs bs E), nom_map_ok, number_back by done. done.
Qed.

(** ** Strings and byte strings *)

Lemma size_back n rest : 0 <= n < 2 ^ 32 -> size (be_bytes 4 n ++ rest) = Ok (rest, n).
Proof. intros Hn. exact (number_back NU32 n rest Hn). Qed.

Lemma size_empty : fails_empty size.
Proof. apply (number_empty NU32). Qed.

Lemma bounded_size_back kind max n rest :
  0 <= n < 2 ^ 32 -> n <= max -> bounded_size kind max (be_bytes 4 n ++ rest) = Ok (rest, n).
Proof.
  intros Hn Hm. unfold bounded_size. rewrite size_back by done.
  by destruct (Z.leb_spec n max); [|lia].
Qed.

Lemma bounded_size_empty kind max : fails_empty (bounded_size kind max).
Proof. destruct size_empty as [e E]. exists e. unfold bounded_size. by rewrite E. Qed.

Lemma length_data_back p s rest :
  p (be_bytes 4 (zlen s) ++ s ++ rest) = Ok (s ++ rest, zlen s) ->
  nom_length_data p (be_bytes 4 (zlen s) ++ s ++ rest) = Ok (rest, s).
Proof.
  intros Hp. rewrite nom_length_data_ok, Hp.
  destruct (Z.ltb_spec (zlen (s ++ rest)) (zlen s)) as [Hl|_].
  - rewrite zlen_app in Hl. pose proof (zlen_nonneg rest). lia.
  - replace (Z.to_nat (zlen s)) with (length s) by (unfold zlen; lia).
    by rewrite drop_app_len, take_app_len.
Qed.

Lemma utf8_read_back p s rest :
  utf8_valid s = true -> p (be_bytes 4 (zlen s) ++ s ++ rest) = Ok (s ++ rest, zlen s) ->
  nom_map_res (nom_complete (nom_length_data p)) from_utf8
    (be_bytes 4 (zlen s) ++ s ++ rest) = Ok (rest, s).
Proof.
  intros Hu Hp. rewrite nom_map_res_ok, nom_complete_ok, length_data_back by done.
  unfold from_utf8. by rewrite Hu.
Qed.

Lemma utf8_read_empty p : fails_empty p ->
  fails_empty (nom_map_res (nom_complete (nom_length_data p)) from_utf8).
Proof.
  intros [e E]. exists e. by rewrite nom_map_res_ok, nom_complete_ok, nom_length_data_ok, E.
Qed.

Definition is_string (v : rval) : Prop :=
  exists s, v = RStr s /\ utf8_valid s = true /\ zlen s < 2 ^ 32.

Lemma string_bytes_inv s bs : string_bytes s = Ok bs -> bs = be_bytes 4 (zlen s) ++ s.
Proof. unfold string_bytes. intros E. by inv_res E. Qed.

Lemma string_limited s : limited (string_bytes s).
Proof. unfold string_bytes. by destruct (_ <=? _). Qed.

Lemma guard_limited bs : limited (guard_size bs).
Proof. unfold guard_size. by destruct (_ <=? _). Qed.

Lemma block_limited bs : limited (block_bytes bs).
Proof. unfold block_bytes. by destruct (_ <? _). Qed.

Lemma limited_bind r k : limited r -> (forall bs, limited (k bs)) -> limited (bs ← r; k bs).
Proof. destruct r as [bs|er]; simpl; auto. Qed.

Lemma string_codec const size :
  codec true true is_string (generate_string_encoding const size)
    (generate_string_nom_read const size).
Proof.
  split.
  - intros _. apply map_empty. destruct size; apply utf8_read_empty;
      [apply bounded_size_empty|apply size_empty].
  - intros v (s & -> & Hu & Hl). exists (VString s). split; [done|]. split.
    { destruct size as [m|]; simpl; [|apply string_limited].
      destruct (const m <? zlen s); [done|]. apply string_limited. }
    pose proof (zlen_nonneg s) as Hz. intros bs Hbs rest _.
    unfold generate_string_nom_read. rewrite nom_map_ok.
    destruct size as [m|]; simpl in Hbs.
    + destruct (Z.ltb_spec (const m) (zlen s)); [done|].
      rewrite (string_bytes_inv _ _ Hbs), <- app_assoc. unfold bounded_string.
      rewrite utf8_read_back; [done|done|]. apply bounded_size_back; lia.
    + rewrite (string_bytes_inv _ _ Hbs), <- app_assoc. unfold string_.
      rewrite utf8_read_back; [done|done|]. apply size_back; lia.
Qed.

Definition is_bytes (v : rval) : Prop := exists l, v = RSeq (map RU8 l) /\ are_bytes l.

Lemma serialize_u8s l : try_map serialize (map RU8 l) = Ok (map VUint8 l).
Proof. induction l as [|b l IH]; simpl; [done|]. by rewrite IH. Qed.

Lemma u8_values_bytes l : are_bytes l -> u8_values (map VUint8 l) = Ok l.
Proof.
  induction 1 as [|b l Hb _ IH]; simpl; [done|]. rewrite IH. simpl. f_equal.
  pose proof (be_bytes_be_val [b] (List.Forall_cons _ _ _ Hb (List.Forall_nil _))) as E.
  replace (be_val [b]) with b in E by (unfold be_val; simpl; lia). simpl in E. by rewrite E.
Qed.

Lemma bytes_codec : codec false false is_bytes EBytes generate_bytes_nom_read.
Proof.
  split; [done|]. intros v (l & -> & Hl). exists (VList (map VUint8 l)). split.
  - simpl. by rewrite serialize_u8s.
  - simpl. rewrite u8_values_bytes by done. split; [done|]. intros bs [= <-] rest [?| ->]; [done|].
    unfold generate_bytes_nom_read, bytes_. by rewrite app_nil_r, !nom_map_ok, nom_rest_ok.
Qed.

(** A typed hash: a newtype around its bytes. *)
Definition is_hash (t : HashType) (v : rval) : Prop :=
  exists l, v = RNewtypeStruct (RSeq (map RU8 l)) /\ are_bytes l /\ zlen l = hash_size t.

Definition hash_impl (t : HashType) : type_impl :=
  mkImpl (EHash t) (nom_map (hash_nom_read t) (fun l => RNewtypeStruct (RSeq (map RU8 l)))).

Lemma hash_codec t :
  codec true true (is_hash t) (ti_encoding (hash_impl t)) (ti_nom_read (hash_impl t)).
Proof.
  split.
  - intros _. apply map_empty, map_empty. eexists. apply nom_take_short.
    change (zlen []) with 0. destruct t; simpl; lia.
  - intros v (l & -> & Hl & Hn). exists (VList (map VUint8 l)). split.
    + simpl. by rewrite serialize_u8s.
    + simpl. rewrite u8_values_bytes by done. simpl. rewrite Hn, Z.eqb_refl.
      split; [done|]. intros bs [= <-] rest _. unfold hash_nom_read.
      rewrite !nom_map_ok, nom_take_ok by done. unfold hash_from_bytes.
      by rewrite Hn, Z.eqb_refl.
Qed.

(** ** Booleans and options *)

Lemma tag_byte (b c : Z) rest : b <> c ->
  exists err, nom_tag [b] (c :: rest) = Err (NError err).
Proof. intros Hne. eexists. apply nom_tag_bad. intros r [= E]. by apply Hne. Qed.

Lemma tag_empty b : fails_empty (nom_tag [b]).
Proof. eexists. apply nom_tag_bad. done. Qed.

Lemma be_byte b : is_byte b -> be_bytes 1 b = [b].
Proof.
  intros Hb. pose proof (be_bytes_be_val [b] (List.Forall_cons _ _ _ Hb (List.Forall_nil _))) as E.
  transitivity (be_bytes 1 (be_val [b])); [|exact E]. f_equal. unfold be_val. simpl. lia.
Qed.

Lemma alt_empty {A} (p q : parser A) : fails_empty p -> fails_empty q -> fails_empty (nom_alt p q).
Proof. intros [e E] [f F]. eexists. by rewrite nom_alt_ok, E, F. Qed.

Lemma boolean_back (b : bool) rest :
  boolean (be_bytes 1 (if b then BYTE_VAL_TRUE else BYTE_VAL_FALSE) ++ rest) = Ok (rest, b).
Proof.
  unfold boolean. rewrite nom_alt_ok, !nom_map_ok.
  destruct b; rewrite be_byte by (unfold is_byte, BYTE_VAL_TRUE, BYTE_VAL_FALSE; lia).
  - by rewrite nom_tag_ok.
  - destruct (tag_byte BYTE_VAL_TRUE BYTE_VAL_FALSE rest) as [e E]; [done|].
    simpl app. rewrite E, (nom_tag_ok [BYTE_VAL_FALSE] rest). done.
Qed.

Lemma boolean_empty : fails_empty boolean.
Proof. apply alt_empty; apply map_empty, tag_empty. Qed.

Definition is_option (T : rval -> Prop) (v : rval) : Prop :=
  v = RNone \/ exists w, v = RSome w /\ T w.

Lemma option_codec delim starts T e p :
  codec delim starts T e p ->
  codec delim true (is_option T) (EOptionalField e) (generate_optional_field_nom_read p).
Proof.
  intros [_ Hc]. unfold generate_optional_field_nom_read, optional_field. split.
  - intros _. apply map_empty, alt_empty; destruct (tag_empty 0) as [a A], (tag_empty 255) as [b B];
      eexists; rewrite nom_preceded_ok; by rewrite ?A, ?B.
  - intros v [->|(w & -> & Hw)].
    + exists (VOption None). split; [done|]. split; [done|]. intros bs [= <-] rest _.
      rewrite be_byte by (unfold is_byte, BYTE_FIELD_NONE; lia).
      by rewrite nom_map_ok, nom_alt_ok, nom_preceded_ok, nom_tag_ok, nom_success_ok.
    + destruct (Hc w Hw) as (x & Hx & Hlim & Hback). exists (VOption (Some x)). simpl. rewrite Hx.
      split; [done|]. split; [apply limited_bind; [done|intros; apply guard_limited]|]. intros bs Hbs rest Hrest.
      destruct (write_spec e x) as [cs|] eqn:Ecs; [|done]. simpl in Hbs.
      unfold guard_size in Hbs. inv_res Hbs. specialize (Hback cs eq_refl rest Hrest).
      rewrite be_byte by (unfold is_byte, BYTE_FIELD_SOME; lia).
      destruct (tag_byte 0 BYTE_FIELD_SOME (cs ++ rest)) as [er Er]; [done|].
      rewrite nom_map_ok, nom_alt_ok, !nom_preceded_ok. simpl app. rewrite Er.
      change (BYTE_FIELD_SOME :: cs ++ rest) with ([255] ++ cs ++ rest).
      by rewrite nom_tag_ok, nom_map_ok, Hback.
Qed.

(** ** Blocks *)

Lemma take_app_back {A} (l k : list A) n : n = zlen l ->
  take (Z.to_nat n) (l ++ k) = l /\ drop (Z.to_nat n) (l ++ k) = k.
Proof.
  intros ->. replace (Z.to_nat (zlen l)) with (length l) by (unfold zlen; lia).
  by rewrite take_app_len, drop_app_len.
Qed.

Lemma sized_codec n delim starts T e p :
  0 < n -> codec delim starts T e p -> codec true true T (ESized n e) (sized n p).
Proof.
  intros Hn [_ Hc]. unfold sized. split.
  - intros _. eexists. rewrite nom_map_parser_ok, nom_take_short; [done|]. change (zlen []) with 0. lia.
  - intros v Hv. destruct (Hc v Hv) as (x & Hx & Hlim & Hback). exists x. split; [done|].
    simpl. split; [apply limited_bind; [done|intros; by destruct (_ =? _)]|].
    intros bs Hbs rest _. destruct (write_spec e x) as [cs|]; [|done]. simpl in Hbs.
    destruct (Z.eqb_spec (zlen cs) n) as [Hl|]; [|done]. injection Hbs as <-.
    rewrite nom_map_parser_ok, nom_take_ok by done.
    specialize (Hback cs eq_refl [] (or_intror eq_refl)). rewrite app_nil_r in Hback.
    by rewrite Hback.
Qed.

Lemma bounded_codec max delim starts T e p :
  codec delim starts T e p -> codec delim starts T (EBounded max e) (bounded max p).
Proof.
  intros [Hs Hc]. split.
  - intros Hst. destruct (Hs Hst) as [er Er]. unfold fails_empty, bounded.
    rewrite take_nil, Er. destruct er as [i k o].
    destruct k as [[]| | | | | | |]; eauto.
  - intros v Hv. destruct (Hc v Hv) as (x & Hx & Hlim & Hback). exists x. split; [done|].
    simpl. split; [apply limited_bind; [done|intros; by destruct (_ <=? _)]|].
    intros bs Hbs rest Hrest. destruct (write_spec e x) as [cs|]; [|done]. simpl in Hbs.
    destruct (Z.leb_spec (zlen cs) max) as [Hl|]; [|done]. injection Hbs as <-.
    unfold bounded. rewrite zlen_app. pose proof (zlen_nonneg rest) as Hr.
    pose proof (zlen_nonneg cs) as Hcz.
    set (m := Z.min max (zlen cs + zlen rest)).
    assert (Hm : zlen cs <= m <= zlen cs + zlen rest) by lia.
    set (k := Z.to_nat (m - zlen cs)).
    assert (Htake : take (Z.to_nat m) (cs ++ rest) = cs ++ take k rest).
    { replace (Z.to_nat m) with (length cs + k)%nat by (unfold k, zlen in *; lia).
      by rewrite firstn_app_2. }
    rewrite Htake, (Hback cs eq_refl (take k rest)).
    + do 2 f_equal. assert (Hk : zlen (take k rest) = m - zlen cs).
      { unfold zlen. rewrite length_take. unfold k, zlen in *. lia. }
      rewrite Hk. replace (m - (m - zlen cs)) with (zlen cs) by lia.
      by destruct (take_app_back cs rest (zlen cs)).
    + destruct Hrest as [?| ->]; [by left|]. right. by rewrite take_nil.
Qed.

Lemma dynamic_back sz (p : parser rval) v cs rest :
  0 <= zlen cs -> sz (be_bytes 4 (zlen cs) ++ cs ++ rest) = Ok (cs ++ rest, zlen cs) ->
  p (cs ++ []) = Ok ([], v) ->
  nom_length_value sz (nom_all_consuming p) ((be_bytes 4 (zlen cs) ++ cs) ++ rest) = Ok (rest, v).
Proof.
  intros Hz Hsz Hp. rewrite <- app_assoc, nom_length_value_ok, Hsz.
  destruct (Z.ltb_spec (zlen (cs ++ rest)) (zlen cs)) as [Hl|_].
  { rewrite zlen_app in Hl. pose proof (zlen_nonneg rest). lia. }
  destruct (take_app_back cs rest (zlen cs) eq_refl) as [-> ->].
  rewrite app_nil_r in Hp. by rewrite nom_all_consuming_ok, Hp.
Qed.

Lemma block_bytes_inv cs bs : block_bytes cs = Ok bs ->
  bs = be_bytes 4 (zlen cs) ++ cs /\ 0 <= zlen cs < 2 ^ 32.
Proof.
  unfold block_bytes, u32_max. destruct (Z.ltb_spec (2 ^ 32 - 1) (zlen cs)); [done|].
  intros [= <-]. pose proof (zlen_nonneg cs). split; [done|lia].
Qed.

Lemma dynamic_codec const size delim starts T e p :
  codec delim starts T e p ->
  codec true true T (generate_dynamic_encoding const size e)
    (generate_dynamic_nom_read const size p).
Proof.
  intros [_ Hc]. unfold generate_dynamic_nom_read, dynamic, bounded_dynamic. split.
  - intros _. destruct size as [m|].
    + destruct (bounded_size_empty BDynamic (const m)) as [er Er]. exists er.
      by rewrite nom_length_value_ok, Er.
    + destruct size_empty as [er Er]. exists er. by rewrite nom_length_value_ok, Er.
  - intros v Hv. destruct (Hc v Hv) as (x & Hx & Hlim & Hback). exists x. split; [done|]. split.
    { destruct size as [m|]; simpl; apply limited_bind; try done; intros cs; [|apply block_limited].
      destruct (const m <? zlen cs); [done|]. apply block_limited. }
    intros bs Hbs rest _. destruct size as [m|]; simpl in Hbs;
      destruct (write_spec e x) as [cs|]; try done; simpl in Hbs;
      specialize (Hback cs eq_refl [] (or_intror eq_refl)).
    + destruct (Z.ltb_spec (const m) (zlen cs)); [done|].
      apply block_bytes_inv in Hbs as [-> Hb]. apply dynamic_back; [lia| |done].
      apply bounded_size_back; lia.
    + apply block_bytes_inv in Hbs as [-> Hb]. apply dynamic_back; [lia| |done].
      apply size_back; lia.
Qed.

(** ** Lists *)

Definition reads_element (p : parser rval) (v : rval) (bs : bytes) : Prop :=
  forall rest, p (bs ++ rest) = Ok (rest, v).

Lemma elements_read starts T e p vs :
  codec true starts T e p -> Forall T vs ->
  exists xs, try_map serialize vs = Ok xs /\ zlen xs = zlen vs /\
    limited (bss ← try_map (fun v => map_err element_of (write_spec e v)) xs; Ok (concat bss)) /\
    forall bss, try_map (fun v => map_err element_of (write_spec e v)) xs = Ok bss ->
      Forall2 (reads_element p) vs bss.
Proof.
  intros [_ Hc]. induction 1 as [|v vs Hv _ IH]; simpl.
  - exists []. do 3 (split; [done|]). intros bss [= <-]. constructor.
  - destruct (Hc v Hv) as (x & Hx & Hlim & Hback). destruct IH as (xs & Hxs & Hlen & Hl & Hall).
    exists (x :: xs). rewrite Hx, Hxs. split; [done|]. rewrite !zlen_cons, Hlen. split; [done|].
    simpl. split.
    { destruct (write_spec e x) as [bs|er]; [simpl|exact Hlim].
      by destruct (try_map _ xs). }
    intros bss Hbss. destruct (write_spec e x) as [bs|]; [|done]. simpl in Hbss.
    destruct (try_map _ xs) as [bss'|] eqn:Et; [|done]. injection Hbss as <-.
    constructor; [|by apply Hall]. intros rest. apply Hback; auto.
Qed.

Lemma element_nonempty p v bs : fails_empty p -> reads_element p v bs -> (0 < length bs)%nat.
Proof.
  intros [e E] Hr. destruct bs; [|simpl; lia]. specialize (Hr []). simpl in Hr. congruence.
Qed.

Lemma fold_many0_back p vs bss : forall acc,
  fails_empty p -> Forall2 (reads_element p) vs bss ->
  nom_fold_many0 p acc push_back (concat bss) = Ok ([], acc ++ vs).
Proof.
  intros acc Hp Hall. revert acc. induction Hall as [|v bs vs bss Hv _ IH]; intros acc.
  - destruct Hp as [e E]. rewrite app_nil_r. by apply (nom_fold_many0_stop _ _ _ _ e).
  - simpl. rewrite (nom_fold_many0_step _ _ _ _ (concat bss) v).
    + rewrite IH. unfold push_back. by rewrite <- app_assoc.
    + apply Hv.
    + rewrite length_app. pose proof (element_nonempty p v bs Hp Hv). lia.
Qed.

Lemma fold_many_m_n_back p vs bss : forall max acc,
  fails_empty p -> Forall2 (reads_element p) vs bss -> zlen vs <= max ->
  nom_fold_many_m_n 0 max p acc push_back (concat bss) = Ok ([], acc ++ vs).
Proof.
  intros max acc Hp Hall. revert max acc. induction Hall as [|v bs vs bss Hv _ IH]; intros max acc Hm.
  - rewrite app_nil_r. destruct (Z.eq_dec max 0) as [->|]; [apply nom_fold_many_m_n_done|].
    destruct Hp as [e E]. change (zlen []) with 0 in Hm.
    apply (nom_fold_many_m_n_stop _ _ _ _ _ e); [lia|done].
  - rewrite zlen_cons in Hm. pose proof (zlen_nonneg vs). simpl.
    rewrite (nom_fold_many_m_n_step _ _ _ _ _ (concat bss) v).
    + rewrite IH by lia. unfold push_back. by rewrite <- app_assoc.
    + lia.
    + apply Hv.
    + rewrite length_app. pose proof (element_nonempty p v bs Hp Hv). lia.
Qed.

Definition is_list (T : rval -> Prop) (v : rval) : Prop := exists l, v = RSeq l /\ Forall T l.

Lemma list_codec const size T e p :
  codec true true T e p ->
  codec false false (is_list T) (generate_list_encoding const size e)
    (generate_list_nom_read const size p).
Proof.
  intros Hc. split; [done|]. intros v (l & -> & Hl).
  destruct (elements_read _ _ _ _ _ Hc Hl) as (xs & Hxs & Hlen & Hlim & Hall).
  pose proof (proj1 Hc eq_refl) as Hp. exists (VList xs). simpl. rewrite Hxs. split; [done|].
  split; [destruct size as [m|]; simpl; [by destruct (const m <? zlen xs)|done]|].
  intros bs Hbs rest [?| ->]; [done|]. rewrite app_nil_r.
  unfold generate_list_nom_read. rewrite nom_map_ok.
  destruct size as [m|]; simpl in Hbs.
  - destruct (Z.ltb_spec (const m) (zlen xs)); [done|].
    destruct (try_map _ xs) as [bss|]; [|done]. injection Hbs as <-.
    unfold bounded_list. by rewrite (fold_many_m_n_back p l bss) by (done || auto || lia).
  - destruct (try_map _ xs) as [bss|]; [|done]. injection Hbs as <-.
    unfold list_. by rewrite (fold_many0_back p l bss) by auto.
Qed.

(** ** Structures *)

(** One parser after the other. *)
Fixpoint sequence (ps : list (parser rval)) (i : bytes) : NomResult (list rval) :=
  match ps with
  | [] => Ok (i, [])
  | p :: ps =>
      match p i with
      | Ok (i, v) => match sequence ps i with Ok (i, vs) => Ok (i, v :: vs) | Err e => Err e end
      | Err e => Err e
      end
  end.

Lemma tuple_sequence ps : forall i, nom_tuple ps i = sequence ps i.
Proof.
  induction ps as [|p ps IH]; intros i; simpl; [apply nom_tuple_nil|].
  rewrite nom_tuple_cons. destruct (p i) as [[i' v]|]; [|done]. by rewrite IH.
Qed.

Lemma multi_sequence ps : forall acc i,
  multi_fields ps acc i =
    match sequence ps i with Ok (i, vs) => Ok (i, acc ++ vs) | Err e => Err e end.
Proof.
  induction ps as [|p ps IH]; intros acc i; simpl; [by rewrite app_nil_r|].
  destruct (p i) as [[i' v]|]; [|done]. rewrite IH.
  destruct (sequence ps i') as [[i'' vs]|]; [|done]. by rewrite <- app_assoc.
Qed.

Lemma sequence_fields name (fields : list (string * parser rval)) : forall i r,
  sequence (snd <$> fields) i = Ok r ->
  sequence ((fun fp => field (name ++ "::" ++ fp.1)%string fp.2) <$> fields) i = Ok r.
Proof.
  induction fields as [|[f p] fields IH]; intros i r; [done|].
  rewrite !fmap_cons. cbn [sequence fst snd]. unfold field at 1.
  destruct (p i) as [[i' v]|]; [|done]. cbn [map_err].
  destruct (sequence (snd <$> fields) i') as [r'|] eqn:E; [|done]. by rewrite (IH _ _ E).
Qed.

(** However many fields it has, a structure reads them in order. *)
Lemma struct_read name (fields : list (string * parser rval)) i rest vs :
  sequence (snd <$> fields) i = Ok (rest, vs) ->
  generate_struct_nom_read name fields i = Ok (rest, build_struct (fst <$> fields) vs).
Proof.
  intros Hs. pose proof (sequence_fields name fields i _ Hs) as Hq.
  unfold generate_struct_nom_read. destruct fields as [|[f p] [|fp fields]].
  - simpl in Hs. simplify_eq. by rewrite nom_success_ok.
  - simpl in Hs. rewrite nom_map_ok. unfold field. destruct (p i) as [[i' v]|]; [|done].
    simpl in *. by simplify_eq.
  - destruct (Nat.ltb _ _); rewrite nom_map_ok, ?tuple_sequence, ?multi_sequence, Hq; done.
Qed.

Lemma struct_empty name f p fields :
  fails_empty p -> fails_empty (generate_struct_nom_read name ((f, p) :: fields)).
Proof.
  intros [e E]. unfold fails_empty, generate_struct_nom_read. destruct fields as [|fp fields].
  - rewrite nom_map_ok. unfold field. rewrite E. simpl. eauto.
  - destruct (Nat.ltb _ _); rewrite nom_map_ok, ?tuple_sequence, ?multi_sequence; simpl;
      unfold field at 1; rewrite E; simpl; eauto.
Qed.
End Codec.
