(* ===== verification/DerivedCodec.v ===== *)
(** * Derived types round-trip

    [typed d v]: the Rust value [v] has the type the tree [d] was made from, and is
    one the writer has bytes for (a [u32] below 2^31, a non-negative [Int31]).
    [wf d]: what a declaration must satisfy for its codec to be sound - distinct
    field names, tags and tag ids, and nothing after a field that reads to the
    end of its input.  Both look up the types a declaration mentions in [spec]. *)

From Stdlib Require Import ZArith Lia List Bool String.
From stdpp Require Import base option list numbers strings.
From S2P Require Import Prelude Extern BitUtils CryptoHash Types Serializer BinaryWriter WriterSpec NomCrate NomReader DeriveMake Derive RoundTrip ExternRef Zarith.

(** Induction over [denc] with hypotheses for fields and tags. *)
Section DencInd.
Context (P : denc -> Prop).
Context (Hleaf : forall d,
  match d with
  | DStruct _ _ | DEnum _ _ _ _ | DOptionField _ | DList _ _ | DSized _ _ | DBounded _ _
  | DDynamic _ _ => True
  | _ => P d
  end).
Context (Hstruct : forall n fields,
  Forall (fun f => match f.2 with Some d => P d | None => True end) fields -> P (DStruct n fields)).
Context (Henum : forall n t i tags, Forall (fun t => P t.2) tags -> P (DEnum n t i tags)).
Context (Hoption : forall d, P d -> P (DOptionField d)).
Context (Hlist : forall s d, P d -> P (DList s d)).
Context (Hsized : forall s d, P d -> P (DSized s d)).
Context (Hbounded : forall s d, P d -> P (DBounded s d)).
Context (Hdynamic : forall s d, P d -> P (DDynamic s d)).

Fixpoint denc_strong_ind (d : denc) : P d :=
  match d with
  | DStruct n fields =>
      Hstruct n fields
        ((fix go (l : list (string * option denc))
           : Forall (fun f => match f.2 with Some d => P d | None => True end) l :=
          match l with
          | [] => List.Forall_nil _
          | (n, Some d) :: l => List.Forall_cons _ (n, Some d) l (denc_strong_ind d) (go l)
          | (n, None) :: l => List.Forall_cons _ (n, None) l I (go l)
          end) fields)
  | DEnum n t i tags =>
      Henum n t i tags
        ((fix go (l : list (Z * string * denc)) : Forall (fun t => P t.2) l :=
          match l with
          | [] => List.Forall_nil _
          | t :: l => List.Forall_cons _ t l (denc_strong_ind t.2) (go l)
          end) tags)
  | DOptionField d => Hoption d (denc_strong_ind d)
  | DList s d => Hlist s d (denc_strong_ind d)
  | DSized s d => Hsized s d (denc_strong_ind d)
  | DBounded s d => Hbounded s d (denc_strong_ind d)
  | DDynamic s d => Hdynamic s d (denc_strong_ind d)
  | d => Hleaf d
  end.
End DencInd.

(** What is known of a type mentioned by name. *)
Record type_spec : Type :=
  mkSpec { ts_delim : bool; ts_starts : bool; ts_vals : rval -> Prop }.

Section Shape.
Context (const : string -> Z) (spec : list string -> option type_spec).
Context (dflt : string -> string -> rval).

(** The reader finds the end of the value by itself. *)
Fixpoint delim (d : denc) : bool :=
  match d with
  | DPrimitive _ | DString _ | DSized _ _ | DDynamic _ _ | DZarith => true
  | DPath path => match spec path with Some t => ts_delim t | None => false end
  | DStruct _ fields =>
      forallb (fun f => match f.2 with Some d => delim d | None => true end) fields
  | DEnum _ _ _ tags => forallb (fun t => is_unit t.2 || delim t.2) tags
  | DOptionField d | DBounded _ d => delim d
  | _ => false
  end.

(** The reader fails on empty input. *)
Fixpoint starts (d : denc) : bool :=
  match d with
  | DPrimitive _ | DString _ | DSized _ _ | DDynamic _ _ | DEnum _ _ _ _ | DOptionField _
  | DZarith => true
  | DPath path => match spec path with Some t => ts_starts t | None => false end
  | DStruct _ ((_, Some d) :: _) => starts d
  | DBounded _ d => starts d
  | _ => false
  end.

Definition field_delim (f : string * option denc) : bool :=
  match f.2 with Some d => delim d | None => true end.

(** Every field but the last. *)
Definition inner_delim (fields : list (string * option denc)) : bool :=
  forallb field_delim (removelast fields).

Definition tag_max (tag_type : string) : Z :=
  match tag_size tag_type with Some 1 => 256 | Some 2 => 65536 | _ => 0 end.

Fixpoint wf (d : denc) : bool :=
  match d with
  | DPrimitive _ | DBytes | DString _ | DZarith => true
  | DPath path => match spec path with Some _ => true | None => false end
  | DStruct _ fields =>
      bool_decide (NoDup (fst <$> fields)) && inner_delim fields &&
      forallb (fun f => match f.2 with Some d => wf d | None => true end) fields
  | DEnum _ tag_type _ tags =>
      bool_decide (NoDup ((fun t => t.1.1) <$> tags)) &&
      bool_decide (NoDup ((fun t => t.1.2) <$> tags)) &&
      forallb (fun t => (0 <=? t.1.1) && (t.1.1 <? tag_max tag_type) && (is_unit t.2 || wf t.2)) tags
  | DOptionField d | DBounded _ d | DDynamic _ d => wf d
  | DList _ d => wf d && delim d && starts d
  | DSized size d => (0 <? const size) && wf d
  | DUnit | DMuTez => false
  end.

(** ** Types *)

(** A number in the range its encoding writes: 31 bits for [Int31], and for
    [Uint32] too, since larger [u32]s are serialized as [Int64]. *)
Definition primitive_typed (p : PrimitiveEncoding) (v : rval) : Prop :=
  match p with
  | PInt8 => exists z, v = RI8 z /\ in_s 8 z
  | PUint8 => exists z, v = RU8 z /\ in_u 8 z
  | PInt16 => exists z, v = RI16 z /\ in_s 16 z
  | PUint16 => exists z, v = RU16 z /\ in_u 16 z
  | PInt31 => exists z, v = RI32 z /\ in_u 31 z
  | PInt32 => exists z, v = RI32 z /\ in_s 32 z
  | PUint32 => exists z, v = RU32 z /\ in_u 31 z
  | PInt64 | PTimestamp => exists z, v = RI64 z /\ in_s 64 z
  | PFloat => exists z, v = RF64 z /\ in_u 64 z
  | PBool => exists b, v = RBool b
  end.

Section TypedParts.
Context (typed : denc -> rval -> Prop).

Fixpoint fields_typed (name : string) (fields : list (string * option denc))
  (vals : list (string * rval)) : Prop :=
  match fields, vals with
  | [], [] => True
  | (n, od) :: fields, (n', v) :: vals =>
      n = n' /\ match od with Some d => typed d v | None => v = dflt name n end /\
      fields_typed name fields vals
  | _, _ => False
  end.

Fixpoint variant_typed (index : Z) (tags : list (Z * string * denc)) (v : rval) : Prop :=
  match tags with
  | [] => False
  | (_, n, d) :: tags =>
      (if is_unit d then v = RUnitVariant index n
       else exists w, v = RNewtypeVariant index n w /\ typed d w) \/
      variant_typed (index + 1) tags v
  end.
End TypedParts.

Fixpoint typed (d : denc) (v : rval) : Prop :=
  match d with
  | DPrimitive p => primitive_typed p v
  | DBytes => is_bytes v
  | DString _ => is_string v
  | DPath path => match spec path with Some t => ts_vals t v | None => False end
  | DStruct name fields => exists vals, v = RStruct vals /\ fields_typed typed name fields vals
  | DEnum _ _ _ tags => variant_typed typed 0 tags v
  | DOptionField d => is_option (typed d) v
  | DList _ d => is_list (typed d) v
  | DSized _ d | DBounded _ d | DDynamic _ d => typed d v
  | DZarith => exists z, v = RBigInt z
  | DUnit | DMuTez => False
  end.
End Shape.

(** The promise of [HasEncoding] and [NomReader] together. *)
Class Codec `{BytesCrate, BitVecCrate, HexCrate, UnicodeTables, BigIntCrate, NomCrate}
  (t : type_spec) (ti : type_impl) : Prop := {
  codec_customs : customs_append (ti_encoding ti);
  codec_reads : codec (ts_delim t) (ts_starts t) (ts_vals t) (ti_encoding ti) (ti_nom_read ti);
}.

(** A value is written and read back, or a size limit refuses it. *)
Definition written_or_refused `{BytesCrate, BitVecCrate, HexCrate, UnicodeTables, BigIntCrate}
  (t : type_spec) (ti : type_impl) (v : rval) : Prop :=
  match write v (ti_encoding ti) with
  | Ok bs => forall rest, ts_delim t = true \/ rest = [] -> ti_nom_read ti (bs ++ rest) = Ok (rest, v)
  | Err er => limit_error (kind er) = true
  end.

Lemma codec_write `{Codec t ti} v : ts_vals t v -> written_or_refused t ti v.
Proof.
  intros Hv. unfold written_or_refused, write.
  destruct (proj2 codec_reads v Hv) as (x & -> & Hlim & Hback).
  change (lift (Ok x)) with (Ok (E := EncodingError) x). cbn [mbind result_bind].
  rewrite encode_any_value, encode_value_appends by apply codec_customs. unfold appended.
  destruct (write_spec (ti_encoding ti) x) as [bs|er]; [|done]. exact (Hback bs eq_refl).
Qed.

Section Derived.
Context `{BytesCrate, BitVecCrate, HexCrate, UnicodeTables, BigIntCrate, NomCrate}.
Context (const : string -> Z) (impl : list string -> type_impl).
Context (dflt : string -> string -> rval) (spec : list string -> option type_spec).

Abbreviation gen_enc := (generate_encoding const impl).
Abbreviation gen_nom := (generate_nom_read const impl dflt).
Abbreviation typed' := (typed spec dflt).
Abbreviation wf' := (wf const spec).
Abbreviation delim' := (delim spec).

(** The types mentioned by name are codecs for what [spec] says of them. *)
Context (Himpl : forall path t, spec path = Some t -> Codec t (impl path)).
(** Skipped fields are still serialized. *)
Context (Hdflt : forall name f, exists x, serialize (dflt name f) = Ok x).

Lemma primitive_codec p :
  codec true true (primitive_typed p) (generage_primitive_encoding p)
    (generage_primitive_nom_read p).
Proof.
  destruct p; simpl; try (apply primitive_number; intros v (z & -> & Hz); exists z;
    split; [done|]; split; [done|]; eexists; split; [reflexivity|]; simpl;
    split; [done|]; by intros bs [= <-]).
  - apply primitive_number. intros v (z & -> & Hz). exists z. unfold in_u in Hz.
    split; [done|]. split; [unfold number_range, in_s; lia|].
    eexists. split; [reflexivity|]. simpl. change 2147483647 with (Z.ones 31).
    rewrite Z.land_ones, Z.mod_small, Z.eqb_refl by lia. split; [done|]. by intros bs [= <-].
  - apply primitive_number. intros v (z & -> & Hz). exists z. unfold in_u in Hz.
    split; [done|]. split; [unfold number_range, in_u; lia|].
    simpl. unfold serialize_u32, i32_max. rewrite (proj2 (Z.leb_le z _)) by lia.
    eexists. split; [reflexivity|]. simpl. rewrite (proj2 (Z.leb_le 0 z)) by lia.
    split; [done|]. by intros bs [= <-].
  - split; [intros _; apply map_empty, boolean_empty|]. intros v [b ->]. exists (VBool b).
    split; [done|]. split; [done|]. intros bs [= <-] rest _. by rewrite nom_map_ok, boolean_back.
Qed.

(** Integers of any size. *)
Lemma zarith_codec :
  codec true true (fun v => exists z, v = RBigInt z) EZ (nom_map zarith RBigInt).
Proof.
  split.
  { intros _. apply map_empty. destruct (number_empty NU8) as [e E]. exists e.
    unfold zarith. by rewrite E. }
  intros v [z ->]. destruct (z_bytes_image z) as (bs & Hbs & Himg).
  exists (VString (to_str_radix_16 z)). split; [done|]. cbn [write_spec]. rewrite Hbs.
  split; [done|]. intros bs' [= <-] rest _. by rewrite nom_map_ok, (zarith_image z).
Qed.

(** ** Structures *)

(** The statement of the induction. *)
Definition good (d : denc) : Prop :=
  forall e p, wf' d = true -> gen_enc d = Some e -> gen_nom d = Some p ->
    codec (delim' d) (starts spec d) (typed' d) e p.

Abbreviation field_parser name := (fun f : string * option denc =>
  match f.2 with
  | Some d => p ← gen_nom d; Some (f.1, p)
  | None => Some (f.1, fun i : bytes => Ok (i, dflt name f.1))
  end).

Lemma inner_delim_cons f fields :
  inner_delim spec (f :: fields) = true ->
  fields = [] \/ (field_delim spec f = true /\ inner_delim spec fields = true).
Proof.
  destruct fields as [|g fields]; [by left|]. intros Hi. right.
  unfold inner_delim in *. simpl in *. by apply andb_true_iff in Hi.
Qed.

Lemma record_spec_nil values acc bs : record_spec write_spec values [] acc = Ok bs -> bs = acc.
Proof. by intros [= <-]. Qed.

(** What the fields still to write give, and how they are read back. *)
Definition fields_back (fields : list (string * option denc)) (xs : list (string * Value))
  (fs : list (string * Encoding)) (fps : list (string * parser rval))
  (vals : list (string * rval)) : Prop :=
  forall all acc, (forall n x, (n, x) ∈ xs -> find_value_in_record_values n all = Some x) ->
    limited (record_spec write_spec all fs acc) /\
    forall bs, record_spec write_spec all fs acc = Ok bs ->
    exists cs, bs = acc ++ cs /\
      forall rest, forallb (field_delim spec) fields = true \/ rest = [] ->
        sequence (snd <$> fps) (cs ++ rest) = Ok (rest, snd <$> vals).

Abbreviation serialize_fields :=
  (try_map (fun nv : string * rval => x ← serialize nv.2; Ok (nv.1, x))).

Lemma fields_back_some n d e p v x fields xs fs fps vals :
  reads_back (delim' d) e p v -> serialize v = Ok x ->
  fields = [] \/ delim' d = true -> (fields = [] -> fs = [] /\ fps = [] /\ vals = []) ->
  fields_back fields xs fs fps vals ->
  fields_back ((n, Some d) :: fields) ((n, x) :: xs) ((n, e) :: fs) ((n, p) :: fps)
    ((n, v) :: vals).
Proof.
  intros (x' & Hx' & Hlim & Hb) Hx Hd Hnil Hback all acc Hall.
  rewrite Hx in Hx'. injection Hx' as <-.
  cbn [record_spec]. rewrite (Hall n x) by left. simpl lift. cbn [mbind result_bind].
  destruct (write_spec e x) as [ds|er] eqn:Eds; [|by split]. simpl map_err.
  cbn [mbind result_bind]. unfold guard_size.
  destruct (zlen (acc ++ ds) <=? usize_max); [|by split]. cbn [mbind result_bind].
  destruct (Hback all (acc ++ ds)) as [Hl Hcs]; [intros n' x'' Hin; apply Hall; by right|].
  split; [done|]. intros bs Hbs. destruct (Hcs bs Hbs) as (cs & -> & Hseq).
  exists (ds ++ cs). split; [by rewrite app_assoc|]. intros rest Hrest.
  rewrite !fmap_cons, <- app_assoc. cbn [sequence snd].
  rewrite (Hb ds eq_refl).
  - rewrite Hseq; [done|]. destruct Hrest as [Hr|]; [|by right]. left.
    cbn [forallb] in Hr. by apply andb_true_iff in Hr as [_ ?].
  - destruct Hd as [Hf|]; [|by left]. destruct Hrest as [Hr| ->].
    + left. cbn [forallb] in Hr. by apply andb_true_iff in Hr as [? _].
    + right. destruct (Hnil Hf) as (-> & -> & ->).
      specialize (Hseq [] (or_intror eq_refl)). cbn in Hseq. congruence.
Qed.

Lemma fields_back_none n v x fields xs fs fps vals :
  fields_back fields xs fs fps vals ->
  fields_back ((n, None) :: fields) ((n, x) :: xs) fs
    ((n, fun i => Ok (i, v)) :: fps) ((n, v) :: vals).
Proof.
  intros Hback all acc Hall.
  destruct (Hback all acc) as [Hl Hcs]; [intros n' x' Hin; apply Hall; by right|].
  split; [done|]. intros bs Hbs. destruct (Hcs bs Hbs) as (cs & -> & Hseq).
  exists cs. split; [done|]. intros rest Hrest. rewrite !fmap_cons. cbn [sequence snd].
  rewrite Hseq; [done|]. destruct Hrest as [Hr|]; [|by right]. by left.
Qed.

Abbreviation all_good := (Forall (fun f : string * option denc =>
  match f.2 with Some d => good d | None => True end)).
Abbreviation all_wf := (forallb (fun f : string * option denc =>
  match f.2 with Some d => wf' d | None => true end)).

Lemma fields_nil name vals fs fps :
  encoded_fields gen_enc [] = Some fs -> opt_map (field_parser name) [] = Some fps ->
  fields_typed dflt typed' name [] vals -> fs = [] /\ fps = [] /\ vals = [].
Proof. intros [= <-] [= <-]. by destruct vals. Qed.

Lemma fields_codec name fields : forall vals fs fps,
  all_good fields -> all_wf fields = true -> inner_delim spec fields = true ->
  encoded_fields gen_enc fields = Some fs -> opt_map (field_parser name) fields = Some fps ->
  fields_typed dflt typed' name fields vals ->
  exists xs, serialize_fields vals = Ok xs /\ fst <$> xs = fst <$> fields /\
    fst <$> fps = fst <$> fields /\ fst <$> vals = fst <$> fields /\
    fields_back fields xs fs fps vals.
Proof.
  induction fields as [|[n od] fields IH]; intros vals fs fps Hg Hw Hi Hfs Hfps Ht.
  - destruct (fields_nil _ _ _ _ Hfs Hfps Ht) as (-> & -> & ->). exists [].
    repeat split; try done. intros bs ->%record_spec_nil. exists []. split; [by rewrite app_nil_r|]. done.
  - destruct vals as [|[n' v] vals]; [done|]. cbn [fields_typed] in Ht.
    destruct Ht as (<- & Hv & Ht). inversion Hg as [|? ? Hgd Hgs]; subst.
    cbn [forallb snd] in Hw. apply andb_true_iff in Hw as [Hwd Hws].
    apply opt_map_cons_inv in Hfps as (fp & fps' & Hfp & Hfps & ->).
    assert (Hi' : inner_delim spec fields = true).
    { destruct (inner_delim_cons _ _ Hi) as [->|[]]; done. }
    destruct od as [d|]; cbn [encoded_fields] in Hfs; cbn [snd] in *.
    + destruct (gen_nom d) as [p|] eqn:Ep; [|done]. injection Hfp as <-.
      destruct (gen_enc d) as [e|] eqn:Ee; [|done].
      destruct (encoded_fields gen_enc fields) as [fs'|] eqn:Efs; [|done].
      injection Hfs as <-.
      destruct (IH vals fs' fps' Hgs Hws Hi' eq_refl Hfps Ht) as (xs & Hxs & E1 & E2 & E3 & Hb).
      pose proof (proj2 (Hgd e p Hwd Ee Ep) v Hv) as Hrb. destruct (Hrb) as (x & Hx & _).
      exists ((n, x) :: xs). cbn [try_map snd fst]. rewrite Hx, Hxs. split; [done|].
      rewrite !fmap_cons, E1, E2, E3. do 3 (split; [done|]).
      apply fields_back_some; try done.
      * destruct (inner_delim_cons _ _ Hi) as [?|[? _]]; auto.
      * intros ->. by apply (fields_nil name).
    + injection Hfp as <-. subst v.
      destruct (IH vals fs fps' Hgs Hws Hi' Hfs Hfps Ht) as (xs & Hxs & E1 & E2 & E3 & Hb).
      destruct (Hdflt name n) as [x Hx]. exists ((n, x) :: xs). cbn [try_map snd fst].
      rewrite Hx, Hxs. split; [done|]. rewrite !fmap_cons, E1, E2, E3. do 3 (split; [done|]).
      by apply fields_back_none.
Qed.

Lemma get_nodup {V} (l : list (string * V)) n x :
  NoDup (fst <$> l) -> (n, x) ∈ l -> hm_get n l = Some x.
Proof.
  induction l as [|[n' x'] l IH]; intros Hnd Hin; [by apply not_elem_of_nil in Hin|].
  rewrite fmap_cons in Hnd. apply NoDup_cons in Hnd as [Hn Hnd]. simpl.
  apply elem_of_cons in Hin as [[= <- <-]|Hin]; [by rewrite decide_True|].
  rewrite decide_False; [by apply IH|]. intros <-. apply Hn.
  by apply (list_elem_of_fmap_2 fst l (n, x)).
Qed.

Lemma struct_starts name fields fps :
  all_good fields -> all_wf fields = true ->
  (exists fs, encoded_fields gen_enc fields = Some fs) ->
  opt_map (field_parser name) fields = Some fps ->
  starts spec (DStruct name fields) = true ->
  fails_empty (generate_struct_nom_read name fps).
Proof.
  destruct fields as [|[n [d|]] fields]; [done| |done].
  intros Hg Hw [fs Hfs] Hfps Hst. inversion Hg as [|? ? Hd _]; subst.
  cbn [forallb snd] in Hw. apply andb_true_iff in Hw as [Hw _].
  apply opt_map_cons_inv in Hfps as (fp & fps' & Hfp & _ & ->). cbn [snd fst] in Hfp.
  destruct (gen_nom d) as [p|] eqn:Ep; [|done]. injection Hfp as <-.
  cbn [encoded_fields] in Hfs. destruct (gen_enc d) as [e|] eqn:Ee; [|done].
  apply struct_empty. by apply (Hd e p Hw Ee Ep).
Qed.

Lemma struct_codec name fields : all_good fields -> good (DStruct name fields).
Proof.
  intros Hg e p Hw He Hp. cbn [wf] in Hw.
  apply andb_true_iff in Hw as [Hw Hwf]. apply andb_true_iff in Hw as [Hnd Hi].
  apply bool_decide_eq_true in Hnd. cbn [generate_encoding] in He.
  destruct (encoded_fields gen_enc fields) as [fs|] eqn:Efs; [|done]. injection He as <-.
  cbn [generate_nom_read] in Hp.
  destruct (opt_map (field_parser name) fields) as [fps|] eqn:Efps; [|done]. injection Hp as <-.
  split; [intros Hst; apply (struct_starts name fields); eauto|].
  intros v (vals & -> & Ht).
  destruct (fields_codec name fields vals fs fps Hg Hwf Hi Efs Efps Ht)
    as (xs & Hxs & E1 & E2 & E3 & Hb).
  exists (VRecord xs). cbn [serialize]. rewrite Hxs. split; [done|]. cbn [write_spec].
  destruct (Hb xs []) as [Hlim Hcs].
  { intros n x Hin. apply get_nodup; [by rewrite E1|done]. }
  split; [done|]. intros bs Hbs rest Hrest. destruct (Hcs bs Hbs) as (cs & -> & Hseq).
  rewrite app_nil_l, (struct_read name fps (cs ++ rest) rest (snd <$> vals) (Hseq rest Hrest)).
  unfold build_struct. replace (fst <$> fps) with (fst <$> vals) by (rewrite E3; by symmetry).
  by rewrite zip_fst_snd.
Qed.

(** ** Enums *)

Lemma variant_typed_inv tags v : forall i, variant_typed typed' i tags v ->
  exists k t, tags !! k = Some t /\
    if is_unit t.2 then v = RUnitVariant (i + Z.of_nat k) t.1.2
    else exists w, v = RNewtypeVariant (i + Z.of_nat k) t.1.2 w /\ typed' t.2 w.
Proof.
  induction tags as [|[[id n] d] tags IH]; intros i Hv; [done|].
  destruct Hv as [Hv|Hv].
  - exists 0%nat, (id, n, d). split; [done|]. simpl. by rewrite Z.add_0_r.
  - destruct (IH _ Hv) as (k & t & Hk & Ht). exists (S k), t. split; [done|].
    replace (i + Z.of_nat (S k)) with (i + 1 + Z.of_nat k) by lia. done.
Qed.

Lemma select_tag_at name ig tags id n read inp : forall i k,
  NoDup ((fun t => t.1.1) <$> tags) -> tags !! k = Some (id, n, read) ->
  select_tag name ig i id tags inp = generate_tag_nom_read name (i + Z.of_nat k) n read inp.
Proof.
  induction tags as [|[[id' n'] read'] tags IH]; intros i k Hnd Hk; [done|].
  rewrite fmap_cons in Hnd. apply NoDup_cons in Hnd as [Hn Hnd]. cbn [select_tag].
  destruct k as [|k].
  - injection Hk as -> -> ->. by rewrite Z.eqb_refl, Z.add_0_r.
  - destruct (Z.eqb_spec id id') as [->|_].
    + exfalso. apply Hn. apply (list_elem_of_fmap_2 (fun t => t.1.1) tags (id', n, read)).
      by apply list_elem_of_lookup_2 with k.
    + rewrite (IH (i + 1) k) by done. f_equal. lia.
Qed.

Abbreviation tag_enc := (fun t : Z * string * denc =>
  e ← gen_enc t.2; Some (t.1.1, t.1.2, e)).
Abbreviation tag_nom := (fun t : Z * string * denc =>
  if is_unit t.2 then Some (t.1.1, t.1.2, None)
  else p ← gen_nom t.2; Some (t.1.1, t.1.2, Some p)).

Lemma tags_enc_names tags ts : opt_map tag_enc tags = Some ts ->
  get_id <$> ts = (fun t => t.1.1) <$> tags /\ get_variant <$> ts = (fun t => t.1.2) <$> tags.
Proof.
  intros Hall%opt_map_Forall2. induction Hall as [|[[i n] d] t tags ts Ht _ [IH1 IH2]]; [done|].
  rewrite !fmap_cons, IH1, IH2. simpl in Ht. destruct (gen_enc d); [|done]. by injection Ht as <-.
Qed.

Lemma tags_nom_ids tags ts : opt_map tag_nom tags = Some ts ->
  (fun t => t.1.1) <$> ts = (fun t => t.1.1) <$> tags.
Proof.
  intros Hall%opt_map_Forall2. induction Hall as [|[[i n] d] t tags ts Ht _ IH]; [done|].
  rewrite !fmap_cons, IH. simpl in Ht. destruct (is_unit d); [by injection Ht as <-|].
  destruct (gen_nom d); [|done]. by injection Ht as <-.
Qed.

Lemma tag_limited tag_type sz id :
  tag_size tag_type = Some sz -> 0 <= id < tag_max tag_type -> limited (tag_bytes sz id).
Proof.
  unfold tag_max. intros ->. unfold tag_bytes. destruct sz as [|[|[]|]|]; simpl; lia || done.
Qed.

Lemma tag_bytes_back tag_type sz k id bs rest :
  tag_size tag_type = Some sz -> tag_number tag_type = Some k ->
  0 <= id < tag_max tag_type -> tag_bytes sz id = Ok bs ->
  nom_number k (bs ++ rest) = Ok (rest, id).
Proof.
  unfold tag_max, tag_bytes. intros Hs. rewrite Hs. revert Hs. unfold tag_size, tag_number.
  destruct (String.eqb tag_type "u8").
  { intros [= <-] [= <-] Hid [= <-]. by apply (number_back NU8). }
  destruct (String.eqb tag_type "u16").
  { intros [= <-] [= <-] Hid [= <-]. by apply (number_back NU16). }
  destruct (String.eqb tag_type "u32"); [|done]. intros [= <-] [= <-]. done.
Qed.

(** What a [TagMap] of well-formed tags writes for its [k]-th variant. *)
Lemma tags_write sz tags ts m k id n d e :
  NoDup ((fun t => t.1.1) <$> tags) -> NoDup ((fun t => t.1.2) <$> tags) ->
  opt_map tag_enc tags = Some ts -> tag_map_new ts = Some m ->
  tags !! k = Some (id, n, d) -> gen_enc d = Some e ->
  (forall o, write_spec (Types.tags sz m) (VEnum (Some n) o) = tag_bytes sz id) /\
  (forall x, write_spec (Types.tags sz m) (VTag n x) =
     (tag ← tag_bytes sz id; bs ← write_spec e x; Ok (tag ++ bs))).
Proof.
  intros Hi Hn Hts Hm Hk He. destruct (tags_enc_names _ _ Hts) as [E1 E2].
  destruct (tag_map_lookup ts) as (m' & Hm' & Hfind & _); [by rewrite E1|by rewrite E2|].
  rewrite Hm in Hm'. injection Hm' as <-.
  apply opt_map_Forall2 in Hts. destruct (Forall2_lookup_l _ _ _ _ _ Hts Hk) as (t & Ht & Het).
  cbn [fst snd] in Het. rewrite He in Het. injection Het as <-.
  destruct (Hfind (id, n, e)) as [_ Hv]; [by apply list_elem_of_lookup_2 with k|].
  change (get_variant (id, n, e)) with n in Hv.
  split; intros z; cbn [Types.tags write_spec].
  - simpl lift. cbn [mbind result_bind]. destruct m as [i2t v2i].
    cbn [id_to_tag variant_to_id]. by rewrite Hv.
  - unfold find_by_variant in Hv. destruct (hm_get n (variant_to_id m)) as [id'|]; [|done].
    simpl in Hv. by rewrite hm_get_with_spec, Hv.
Qed.

Lemma enum_codec name tag_type ig tags :
  Forall (fun t => good t.2) tags -> good (DEnum name tag_type ig tags).
Proof.
  intros Hg e p Hw He Hp. cbn [wf] in Hw.
  apply andb_true_iff in Hw as [Hw Hwf]. apply andb_true_iff in Hw as [Hi Hn].
  apply bool_decide_eq_true in Hi, Hn. cbn [generate_encoding] in He.
  destruct (tag_size tag_type) as [sz|] eqn:Esz; [|done]. cbn [mbind option_bind] in He.
  destruct (opt_map tag_enc tags) as [ts|] eqn:Ets; [|done]. cbn [mbind option_bind] in He.
  destruct (tag_map_new ts) as [m|] eqn:Em; [|done]. injection He as <-.
  cbn [generate_nom_read] in Hp. destruct (tag_number tag_type) as [k|] eqn:Ek; [|done].
  cbn [mbind option_bind] in Hp.
  destruct (opt_map tag_nom tags) as [ps|] eqn:Eps; [|done]. injection Hp as <-.
  split.
  { intros _. destruct (number_empty k) as [er Er]. exists er.
    unfold generate_enum_nom_read. by rewrite Er. }
  intros v (i & [[id n] d] & Ht & Hv)%variant_typed_inv. cbn [fst snd] in Hv.
  pose proof (Forall_lookup_1 _ _ _ _ Hg Ht) as Hgd. cbn [snd] in Hgd.
  rewrite forallb_forall in Hwf. specialize (Hwf (id, n, d)). cbn [fst snd] in Hwf.
  apply andb_true_iff in Hwf as [Hid Hwd];
    [|apply list_elem_of_In; by apply list_elem_of_lookup_2 with i].
  assert (Hid' : 0 <= id < tag_max tag_type) by lia. clear Hid.
  pose proof (tags_nom_ids _ _ Eps) as Hids. rewrite <- Hids in Hi.
  pose proof (proj1 (opt_map_Forall2 _ _ _) Eps) as Hps.
  destruct (Forall2_lookup_l _ _ _ _ _ Hps Ht) as (pt & Hpt & Htag). cbn [fst snd] in Htag.
  pose proof (proj1 (opt_map_Forall2 _ _ _) Ets) as Hes.
  destruct (Forall2_lookup_l _ _ _ _ _ Hes Ht) as (et & Het & Henc). cbn [fst snd] in Henc.
  destruct (gen_enc d) as [e|] eqn:Ee; [|done]. rewrite Hids in Hi.
  destruct (tags_write sz tags ts m i id n d e Hi Hn Ets Em Ht Ee) as [Hwu Hwt].
  rewrite <- Hids in Hi. unfold generate_enum_nom_read. destruct (is_unit d) eqn:Eu.
  - subst v. injection Htag as <-. exists (VEnum (Some n) (Some (0 + Z.of_nat i))). split; [done|].
    rewrite Hwu. split; [by apply (tag_limited tag_type)|]. intros bs Hbs rest _.
    rewrite (tag_bytes_back _ _ _ _ _ rest Esz Ek Hid' Hbs).
    by rewrite (select_tag_at _ _ _ _ _ _ _ 0 i Hi Hpt).
  - destruct Hv as (w & -> & Hw). destruct (gen_nom d) as [p|] eqn:Ep; [|done].
    injection Htag as <-. destruct (proj2 (Hgd e p Hwd Ee Ep) w Hw) as (x & Hx & Hlim & Hback).
    exists (VTag n x). cbn [serialize]. rewrite Hx. split; [done|]. rewrite Hwt.
    split; [apply limited_bind; [by apply (tag_limited tag_type)|intros; by apply limited_bind]|].
    intros bs Hbs rest Hrest. destruct (tag_bytes sz id) as [tb|] eqn:Etb; [|done].
    destruct (write_spec e x) as [cs|] eqn:Ecs; [|done]. injection Hbs as <-.
    rewrite <- app_assoc, (tag_bytes_back _ _ _ _ _ (cs ++ rest) Esz Ek Hid' Etb).
    rewrite (select_tag_at _ _ _ _ _ _ _ 0 i Hi Hpt). cbn [generate_tag_nom_read].
    rewrite nom_map_ok. unfold variant. rewrite (Hback cs eq_refl); [done|].
    destruct Hrest as [Hr|]; [left|by right]. cbn [delim] in Hr. rewrite forallb_forall in Hr.
    specialize (Hr (id, n, d)). cbn [snd] in Hr. rewrite Eu in Hr. apply Hr.
    apply list_elem_of_In. by apply list_elem_of_lookup_2 with i.
Qed.

(** ** Everything else *)

(** A generator that wraps the one of [d]. *)
Ltac gen_inv d He Hp :=
  cbn [generate_encoding generate_nom_read] in He, Hp;
  destruct (generate_encoding _ _ d) eqn:?; [|discriminate He];
  destruct (generate_nom_read _ _ _ d) eqn:?; [|discriminate Hp];
  injection He as <-; injection Hp as <-.

Lemma derived_good : forall d, good d.
Proof.
  refine (denc_strong_ind (fun d => good d) _ struct_codec enum_codec _ _ _ _ _).
  - intros d. destruct d as [| | |path| | |size| | | | | | |]; try done; intros e q Hw He Hp; try done;
      injection He as <-; injection Hp as <-.
    + apply primitive_codec.
    + apply bytes_codec.
    + cbn [wf delim starts typed] in *. unfold good. destruct (spec path) as [t|] eqn:Et; [|done].
      by destruct (Himpl path t Et).
    + apply zarith_codec.
    + apply string_codec.
  - intros d IH e p Hw He Hp. gen_inv d He Hp. eapply option_codec. by apply IH.
  - intros s d IH e p Hw He Hp. gen_inv d He Hp. cbn [wf] in Hw.
    apply andb_true_iff in Hw as [Hw Hst]. apply andb_true_iff in Hw as [Hw Hd].
    apply list_codec. rewrite <- Hd at 1. rewrite <- Hst. by apply IH.
  - intros s d IH e p Hw He Hp. gen_inv d He Hp. cbn [wf] in Hw. apply andb_true_iff in Hw as [Hs Hw].
    eapply sized_codec; [lia|]. by apply IH.
  - intros s d IH e p Hw He Hp. gen_inv d He Hp. apply bounded_codec. by apply IH.
  - intros s d IH e p Hw He Hp. gen_inv d He Hp. eapply dynamic_codec. by apply IH.
Qed.

(** ** Custom codecs inside generated encodings *)

Lemma tag_map_fold_tags ts : forall m m',
  fold_left tag_map_step ts (Some m) = Some m' ->
  forall kt, kt ∈ id_to_tag m' -> kt ∈ id_to_tag m \/ kt.2 ∈ ts.
Proof.
  induction ts as [|t ts IH]; intros m m' Hm kt Hkt; cbn [fold_left] in Hm.
  - injection Hm as <-. by left.
  - destruct (tag_map_step (Some m) t) as [m1|] eqn:Es; [|by rewrite tag_map_none in Hm].
    destruct (IH _ _ Hm kt Hkt) as [Hin|Hin]; [|right; by right].
    unfold tag_map_step in Es. simpl in Es. destruct (hm_get _ _); [done|]. injection Es as <-.
    cbn [id_to_tag] in Hin. unfold hm_insert in Hin.
    apply elem_of_cons in Hin as [->|Hin]; [right; left|].
    unfold hm_remove in Hin. apply list_elem_of_filter in Hin as [_ ?]. by left.
Qed.

Lemma customs_foldr {A} (f : A -> Encoding) (l : list A) :
  (forall a, a ∈ l -> customs_append (f a)) ->
  foldr (fun a P => customs_append (f a) /\ P) True l.
Proof.
  induction l as [|a l IH]; intros Hl; simpl; [done|]. split; [apply Hl; left|].
  apply IH. intros b Hb. apply Hl. by right.
Qed.

Definition good_customs (d : denc) : Prop :=
  forall e, wf' d || is_unit d = true -> gen_enc d = Some e -> customs_append e.

Lemma struct_customs name fields :
  Forall (fun f => match f.2 with Some d => good_customs d | None => True end) fields ->
  good_customs (DStruct name fields).
Proof.
  intros Hall e Hw He. rewrite orb_false_r in Hw. cbn [wf] in Hw.
  apply andb_true_iff in Hw as [_ Hw]. cbn [generate_encoding] in He.
  destruct (encoded_fields gen_enc fields) as [fs|] eqn:Efs; [|done]. injection He as <-.
  cbn [customs_append]. revert fs Efs.
  induction Hall as [|[n [d|]] fields Hd _ IH]; intros fs Efs; cbn [encoded_fields] in Efs.
  - by injection Efs as <-.
  - cbn [forallb snd] in Hw. apply andb_true_iff in Hw as [Hwd Hw].
    destruct (gen_enc d) as [e|] eqn:Ee; [|done].
    destruct (encoded_fields gen_enc fields) as [fs'|]; [|done]. injection Efs as <-.
    simpl. split; [|by apply IH]. apply (Hd e); [by rewrite Hwd|done].
  - by apply IH.
Qed.

Lemma enum_customs name tag_type ig tags :
  Forall (fun t => good_customs t.2) tags -> good_customs (DEnum name tag_type ig tags).
Proof.
  intros Hall e Hw He. rewrite orb_false_r in Hw. cbn [wf] in Hw.
  apply andb_true_iff in Hw as [_ Hw]. cbn [generate_encoding] in He.
  destruct (tag_size tag_type) as [sz|]; [|done]. cbn [mbind option_bind] in He.
  destruct (opt_map tag_enc tags) as [ts|] eqn:Ets; [|done]. cbn [mbind option_bind] in He.
  destruct (tag_map_new ts) as [m|] eqn:Em; [|done]. injection He as <-.
  cbn [Types.tags customs_append]. apply (customs_foldr (fun kt => kt.2.2)). intros kt Hkt.
  destruct (tag_map_fold_tags ts _ _ Em kt Hkt) as [Hin|Hin]; [by apply not_elem_of_nil in Hin|].
  apply opt_map_Forall2 in Ets. apply list_elem_of_lookup in Hin as [i Hi].
  destruct (Forall2_lookup_r _ _ _ _ _ Ets Hi) as (t & Ht & Het).
  pose proof (Forall_lookup_1 _ _ _ _ Hall Ht) as Hg.
  rewrite forallb_forall in Hw.
  specialize (Hw t (proj1 (list_elem_of_In _ _) (list_elem_of_lookup_2 _ _ _ Ht))).
  apply andb_true_iff in Hw as [_ Hw]. cbn beta in Het.
  destruct (gen_enc t.2) as [e|] eqn:Ee; [|done]. injection Het as <-.
  apply (Hg e); [by rewrite orb_comm|done].
Qed.

Lemma wf_customs d e : good_customs d -> wf' d = true -> gen_enc d = Some e -> customs_append e.
Proof. intros Hg Hw. apply Hg. by rewrite Hw. Qed.

(** The encoding of a construct that wraps [d]. *)
Ltac customs_inv d IH Hw He :=
  rewrite orb_false_r in Hw; cbn [wf] in Hw; cbn [generate_encoding] in He;
  destruct (generate_encoding _ _ d) eqn:Eg; [|discriminate He]; injection He as <-;
  repeat match goal with s : option string |- _ => destruct s end;
  cbn [customs_append generate_list_encoding generate_dynamic_encoding];
  rewrite ?andb_true_iff in Hw; apply (wf_customs d _ IH); tauto.

Lemma derived_customs : forall d, good_customs d.
Proof.
  refine (denc_strong_ind (fun d => good_customs d) _ struct_customs enum_customs _ _ _ _ _).
  - intros d. destruct d as [| | |path| | |size| | | | | | |]; try done; intros e Hw He;
      injection He as <-; try done.
    + by destruct p.
    + cbn [wf is_unit] in Hw. rewrite orb_false_r in Hw.
      destruct (spec path) as [t|] eqn:Et; [|done]. by destruct (Himpl path t Et).
    + by destruct size.
  - intros d IH e Hw He. customs_inv d IH Hw He.
  - intros s d IH e Hw He. customs_inv d IH Hw He.
  - intros s d IH e Hw He. customs_inv d IH Hw He.
  - intros s d IH e Hw He. customs_inv d IH Hw He.
  - intros s d IH e Hw He. customs_inv d IH Hw He.
Qed.

(** What is known of the type a declaration defines. *)
Definition derived_spec (d : denc) : type_spec := mkSpec (delim' d) (starts spec d) (typed' d).

Lemma derive_Codec `{SynCrate} input d ti :
  make_encoding input = Ok d -> wf' d = true -> derive const impl dflt input = Some ti ->
  Codec (derived_spec d) ti.
Proof.
  intros Hd Hw Hti. unfold derive in Hti. rewrite Hd in Hti.
  destruct (gen_enc d) as [e|] eqn:Ee; [|done]. destruct (gen_nom d) as [p|] eqn:Ep; [|done].
  injection Hti as <-. split; cbn [ti_encoding ti_nom_read].
  - apply (derived_customs d e); [by rewrite Hw|done].
  - by apply (derived_good d).
Qed.
End Derived.

(** (C29) What the derive macro generates for a well-formed declaration is a codec:
    a value the type can write is written and read back whatever follows its bytes
    (when the type delimits itself), or the writer refuses it because a size limit
    is exceeded, and with no other error.  Declarations with [mutez] fields are not
    well-formed (amounts above 63 are read back wrong: [mutez_misread]), and of the
    values of a [u32] field only those below 2^31 are meant (the larger half is
    refused with an encoding mismatch: [u32_written]); of those of an [Int31] field
    the non-negative ones.  The types mentioned by name are codecs, and skipped
    fields can be serialized. *)
Theorem derive_roundtrip `{BytesCrate, BitVecCrate, HexCrate, UnicodeTables, BigIntCrate, NomCrate, SynCrate}
  (const : string -> Z) (impl : list string -> type_impl) (dflt : string -> string -> rval)
  (spec : list string -> option type_spec) (input : DeriveInput) (d : denc) (ti : type_impl) (v : rval) :
  (forall path t, spec path = Some t -> Codec t (impl path)) ->
  (forall name f, exists x, serialize (dflt name f) = Ok x) ->
  make_encoding input = Ok d -> wf const spec d = true ->
  derive const impl dflt input = Some ti -> typed spec dflt d v ->
  written_or_refused (derived_spec dflt spec d) ti v.
Proof.
  intros Himpl Hdflt Hd Hw Hti Hv.
  pose proof (derive_Codec const impl dflt spec Himpl Hdflt input d ti Hd Hw Hti) as Hc.
  exact (codec_write v Hv).
Qed.

(** A declaration with a hash and a list of strings. *)
Definition sample_input : DeriveInput :=
  mkDeriveInput "Sample" []
    (DataStruct (Named
       [mkField "block" (TyPath [("BlockHash", NoArguments)]) [];
        mkField "names"
          (TyPath [("Vec", AngleBracketed [GenericType (TyPath [("String", NoArguments)])])])
          [mkAttribute "encoding"
             (Ok (MetaList "encoding" [NestedM (MetaPath "dynamic");
                                       NestedM (MetaNameValue "list" (LitStr "MAX"))]))]]))%string.
Definition sample_tree : denc :=
  DStruct "Sample"
    [("block", Some (DPath ["BlockHash"]));
     ("names", Some (DDynamic None (DList (Some "MAX") (DString None))))]%string.
Definition sample_spec (path : list string) : option type_spec :=
  if decide (path = ["BlockHash"%string]) then Some (mkSpec true true (is_hash BlockHash)) else None.
Definition sample_rval : rval :=
  RStruct [("block", RNewtypeStruct (RSeq (map RU8 (repeat 3 32))));
           ("names", RSeq [RStr [104; 105]])]%string.

Lemma sample_typed : typed sample_spec (fun _ _ => RUnit) sample_tree sample_rval.
Proof.
  eexists. split; [reflexivity|]. cbn [fields_typed typed]. split; [reflexivity|]. split.
  - exists (repeat 3 32). split; [reflexivity|]. split; [|reflexivity].
    repeat constructor; unfold is_byte; lia.
  - split; [reflexivity|]. split; [|exact I]. eexists. split; [reflexivity|].
    repeat constructor. eexists. split; [reflexivity|]. done.
Qed.

Lemma derive_roundtrip_witness :
  exists ti, derive (fun _ => 3) (fun _ => hash_impl BlockHash) (fun _ _ => RUnit) sample_input = Some ti /\
    written_or_refused (derived_spec (fun _ _ => RUnit) sample_spec sample_tree) ti sample_rval.
Proof.
  eexists. split; [reflexivity|].
  apply (derive_roundtrip (fun _ => 3) (fun _ => hash_impl BlockHash) (fun _ _ => RUnit) sample_spec
           sample_input sample_tree).
  - intros path t. unfold sample_spec. destruct (decide _); [|discriminate]. intros [= <-].
    split; [exact I|apply hash_codec].
  - intros name f. exists VUnit. reflexivity.
  - reflexivity.
  - reflexivity.
  - reflexivity.
  - exact sample_typed.
Defined.
