(* ===== verification/MerklePath.v ===== *)
(** * Operation paths ([tezos/messages/src/p2p/encoding/operations_for_blocks.rs])

    [Path] has a hand-written [Serialize], a [CustomCodec] for writing and a
    hand-written reader.  The items go down a Merkle tree; on the wire the marks
    of all items come first, with the sibling hashes of right turns, then a zero
    byte, then the sibling hashes of left turns from the last item to the first.
    The theorems: the codec round-trips every path the limit allows, and the
    reader refuses every longer one. *)

From Stdlib Require Import ZArith Lia List Bool String.
From stdpp Require Import base option list numbers strings.
From S2P Require Import Prelude Extern BitUtils CryptoHash Types Serializer BinaryWriter WriterSpec NomCrate NomReader DeriveMake Derive RoundTrip DerivedCodec ExternRef Zarith.

(** ** The Rust types *)

(** [PathItem], with the field of [PathRight] or [PathLeft]. *)
Inductive PathItem : Type := PathItemRight (left : bytes) | PathItemLeft (right : bytes).
Definition Path : Type := list PathItem.

Definition bytes_rval (l : bytes) : rval := RSeq (map RU8 l).

(** The derived [Serialize] of [PathItem], [PathRight], [PathLeft]. *)
Definition path_item_rval (i : PathItem) : rval :=
  match i with
  | PathItemRight h => RNewtypeVariant 0 "Right" (RStruct [("left", bytes_rval h)])
  | PathItemLeft h => RNewtypeVariant 1 "Left" (RStruct [("right", bytes_rval h)])
  end%string.
Definition path_rval (p : Path) : rval := RPath (map path_item_rval p).

(** ** [PathCodec] *)
Module PathCodec.

Definition value_to_u8 (value : Value) : result Error Z :=
  match value with VUint8 u => Ok u | _ => Err EncodingMismatch end.

Definition list_to_u8s (value : Value) : result Error bytes :=
  match value with VList l => try_map value_to_u8 l | _ => Err EncodingMismatch end.

Definition encode_bytes (data : bytes) (value : Value) : result Error bytes :=
  bs ← list_to_u8s value; Ok (data ++ bs).

(** The buffer after the mark, and the hash that is written last. *)
Definition encode_left (data : bytes) (value : Value) : result Error (bytes * option bytes) :=
  match value with
  | VRecord [(name, v)] =>
      if String.eqb name "right" then hash ← encode_bytes [] v; Ok (data ++ [0xF0], Some hash)
      else Err EncodingMismatch
  | _ => Err EncodingMismatch
  end.

Definition encode_right (data : bytes) (value : Value) : result Error (bytes * option bytes) :=
  match value with
  | VRecord [(name, v)] =>
      if String.eqb name "left" then data ← encode_bytes (data ++ [0x0F]) v; Ok (data, None)
      else Err EncodingMismatch
  | _ => Err EncodingMismatch
  end.

Definition encode_path_item (data : bytes) (value : Value) : result Error (bytes * option bytes) :=
  match value with
  | VTag name inner =>
      if String.eqb name "Left" then encode_left data inner
      else if String.eqb name "Right" then encode_right data inner
      else Err EncodingMismatch
  | _ => Err EncodingMismatch
  end.

Fixpoint encode_items (values : list Value) (data : bytes) (tails : list (option bytes))
  : result Error (bytes * list (option bytes)) :=
  match values with
  | [] => Ok (data, tails)
  | v :: values => r ← encode_path_item data v; encode_items values r.1 (r.2 :: tails)
  end.

Definition encode (data : bytes) (value : Value) : result Error (bytes * Z) :=
  match value with
  | VList values =>
      r ← encode_items values data [];
      let data' := r.1 ++ [0x00] ++ concat (omap id r.2) in
      size ← ok_or (checked_sub (zlen data') (zlen data)) EncodingMismatch;
      Ok (data', size)
  | _ => Err EncodingMismatch
  end.

Definition get_encoding : Encoding := ECustom encode.
End PathCodec.

(** ** [NomReader for Path] *)
Inductive DecodePathNode : Type := NodeLeft | NodeRight (h : bytes).

Section Reader.
Context `{NomCrate}.

Definition path_hash : parser bytes := nom_take (hash_size OperationListListHash).
Definition path_left : parser DecodePathNode :=
  nom_preceded (nom_tag [0xf0]) (nom_success NodeLeft).
Definition path_right : parser DecodePathNode :=
  nom_preceded (nom_tag [0x0f]) (nom_map path_hash NodeRight).
Definition path_op : parser unit := nom_preceded (nom_tag [0x00]) (nom_success tt).

(** The loop runs over the nodes reversed; [res] is pushed at the end. *)
Fixpoint complete_nodes (nodes : list DecodePathNode) (res : Path) (input : bytes)
  : NomResult Path :=
  match nodes with
  | [] => Ok (input, rev res)
  | NodeLeft :: nodes =>
      match path_hash input with
      | Ok (i, h) => complete_nodes nodes (res ++ [PathItemLeft h]) i
      | Err e => Err e
      end
  | NodeRight h :: nodes => complete_nodes nodes (res ++ [PathItemRight h]) input
  end.
Definition path_complete (nodes : list DecodePathNode) : parser Path :=
  complete_nodes (rev nodes) [].

Definition path_nom_read : parser Path :=
  nom_flat_map
    (nom_verify (nom_map (nom_many_till (nom_alt path_left path_right) path_op) fst)
       (fun nodes => path_fits (zlen nodes)))
    path_complete.

(** What [HasEncoding] and [NomReader] give for [Path]. *)
Definition path_impl : type_impl :=
  mkImpl PathCodec.get_encoding (nom_map path_nom_read path_rval).
End Reader.

(** ** What is written *)

Definition item_value (i : PathItem) : Value :=
  match i with
  | PathItemRight h => VTag "Right" (VRecord [("left", VList (map VUint8 h))])
  | PathItemLeft h => VTag "Left" (VRecord [("right", VList (map VUint8 h))])
  end%string.
Definition mark (i : PathItem) : bytes :=
  match i with PathItemRight h => 0x0F :: h | PathItemLeft _ => [0xF0] end.
Definition tail (i : PathItem) : option bytes :=
  match i with PathItemRight _ => None | PathItemLeft h => Some h end.
Definition node (i : PathItem) : DecodePathNode :=
  match i with PathItemRight h => NodeRight h | PathItemLeft _ => NodeLeft end.

(** The format: marks, end mark, left siblings from the bottom up. *)
Definition path_bytes (p : Path) : bytes :=
  concat (map mark p) ++ [0x00] ++ concat (omap tail (rev p)).

Lemma u8s_back l : try_map PathCodec.value_to_u8 (map VUint8 l) = Ok l.
Proof. induction l as [|b l IH]; simpl; [done|]. by rewrite IH. Qed.

Lemma encode_item_value data i :
  PathCodec.encode_path_item data (item_value i) = Ok (data ++ mark i, tail i).
Proof.
  destruct i as [h|h]; simpl; unfold PathCodec.encode_bytes, PathCodec.list_to_u8s;
    rewrite u8s_back; simpl; [by rewrite <- app_assoc|done].
Qed.

Lemma encode_items_value p : forall data tails,
  PathCodec.encode_items (map item_value p) data tails =
    Ok (data ++ concat (map mark p), rev (map tail p) ++ tails).
Proof.
  induction p as [|i p IH]; intros data tails; cbn [map PathCodec.encode_items].
  - simpl. by rewrite app_nil_r.
  - rewrite encode_item_value. cbn [mbind result_bind fst snd]. rewrite IH. simpl.
    by rewrite <- !app_assoc.
Qed.

Lemma omap_rev_tail p : omap id (rev (map tail p)) = omap tail (rev p).
Proof.
  rewrite <- map_rev. induction (rev p) as [|i l IH]; [done|].
  destruct i as [h|h]; [exact IH|]. exact (f_equal (cons h) IH).
Qed.

Lemma encode_path_value p :
  PathCodec.encode [] (VList (map item_value p)) = Ok (path_bytes p, zlen (path_bytes p)).
Proof.
  simpl. rewrite encode_items_value. simpl. rewrite app_nil_r, omap_rev_tail.
  unfold checked_sub. change (zlen (@nil Z)) with 0.
  rewrite (proj2 (Z.leb_le _ _)) by apply zlen_nonneg. simpl. by rewrite Z.sub_0_r.
Qed.

(** The codec appends to whatever the buffer holds. *)
Lemma item_frame data v :
  PathCodec.encode_path_item data v =
    (r ← PathCodec.encode_path_item [] v; Ok (data ++ r.1, r.2)).
Proof.
  destruct v; try done. simpl. unfold PathCodec.encode_left, PathCodec.encode_right, PathCodec.encode_bytes.
  destruct (String.eqb variant "Left"); [|destruct (String.eqb variant "Right"); [|done]];
    (destruct v; try done); (destruct fields as [|[n f] [|]]; try done).
  - destruct (String.eqb n "right"); [|done]. by destruct (PathCodec.list_to_u8s f).
  - destruct (String.eqb n "left"); [|done]. destruct (PathCodec.list_to_u8s f); simpl; [|done].
    by rewrite <- app_assoc.
Qed.

Lemma items_frame values : forall data tails,
  PathCodec.encode_items values data tails =
    (r ← PathCodec.encode_items values [] tails; Ok (data ++ r.1, r.2)).
Proof.
  induction values as [|v values IH]; intros data tails; cbn [PathCodec.encode_items].
  - simpl. by rewrite app_nil_r.
  - rewrite item_frame. destruct (PathCodec.encode_path_item [] v) as [[d t]|]; [|done].
    cbn [mbind result_bind fst snd]. rewrite IH, (IH d).
    destruct (PathCodec.encode_items values [] (t :: tails)) as [[d' t']|]; [|done].
    simpl. by rewrite app_assoc.
Qed.

Lemma path_appends : appends PathCodec.encode.
Proof.
  intros data v. destruct v; try done. unfold PathCodec.encode. rewrite items_frame.
  destruct (PathCodec.encode_items l [] []) as [[d t]|]; [|done]. cbn [mbind result_bind fst snd].
  rewrite <- app_assoc, zlen_app, checked_sub_app by apply zlen_nonneg.
  unfold checked_sub. change (zlen (@nil Z)) with 0.
  rewrite (proj2 (Z.leb_le _ _)) by apply zlen_nonneg. done.
Qed.

(** ** What is read *)
Section ReadBack.
Context `{BytesCrate, BitVecCrate, HexCrate, UnicodeTables, BigIntCrate, NomCrate}.

Definition item_ok (i : PathItem) : Prop :=
  let h := match i with PathItemRight h | PathItemLeft h => h end in
  are_bytes h /\ zlen h = hash_size OperationListListHash.

(** A path of 32-byte hashes within the depth limit.  The Rust type is wider: a
    [Path] holds a vector of any length of vectors of bytes.  Deeper paths are
    refused by the serializer, and a hash of another length is written as it is and
    not read back, since the reader takes 32 bytes for each. *)
Definition is_path (v : rval) : Prop :=
  exists p, v = path_rval p /\ Forall item_ok p /\ path_fits (zlen p) = true.

Lemma mark_stops i rest : exists e, path_op (mark i ++ rest) = Err (NError e).
Proof.
  destruct i; (eexists; unfold path_op; rewrite nom_preceded_ok, nom_tag_bad; [done|]);
    simpl; intros r [=].
Qed.

Lemma mark_read i rest : item_ok i ->
  nom_alt path_left path_right (mark i ++ rest) = Ok (rest, node i).
Proof.
  intros [_ Hl]. rewrite nom_alt_ok. unfold path_left, path_right, path_hash. rewrite !nom_preceded_ok.
  destruct i as [h|h]; simpl.
  - destruct (tag_byte 0xf0 0x0f (h ++ rest)) as [e E]; [done|]. rewrite E.
    change (15 :: h ++ rest) with ([15] ++ h ++ rest).
    by rewrite nom_tag_ok, nom_map_ok, nom_take_ok.
  - change (240 :: rest) with ([240] ++ rest). by rewrite nom_tag_ok, nom_success_ok.
Qed.

Lemma marks_read p rest : Forall item_ok p ->
  nom_many_till (nom_alt path_left path_right) path_op (concat (map mark p) ++ [0x00] ++ rest) =
    Ok (rest, (map node p, tt)).
Proof.
  induction 1 as [|i p Hi _ IH]; cbn [map concat].
  - apply nom_many_till_stop. unfold path_op. simpl.
    change (0 :: rest) with ([0] ++ rest). by rewrite nom_preceded_ok, nom_tag_ok, nom_success_ok.
  - rewrite <- app_assoc. destruct (mark_stops i (concat (map mark p) ++ [0] ++ rest)) as [e E].
    rewrite (nom_many_till_step _ _ _ _ _ _ E (mark_read i _ Hi)).
    + by rewrite IH.
    + rewrite !length_app. destruct i; simpl; lia.
Qed.

Lemma complete_nodes_read l rest : Forall item_ok l -> forall res,
  complete_nodes (map node l) res (concat (omap tail l) ++ rest) = Ok (rest, rev (res ++ l)).
Proof.
  induction 1 as [|i l [_ Hl] _ IH]; intros res; [by rewrite app_nil_r|].
  destruct i as [h|h].
  - change (omap tail (PathItemRight h :: l)) with (omap tail l). cbn [map node complete_nodes].
    rewrite IH. by rewrite <- app_assoc.
  - change (omap tail (PathItemLeft h :: l)) with (h :: omap tail l).
    cbn [map node complete_nodes concat]. unfold path_hash.
    rewrite <- app_assoc, nom_take_ok, IH by done. by rewrite <- app_assoc.
Qed.

Lemma path_read p rest : Forall item_ok p -> path_fits (zlen p) = true ->
  path_nom_read (path_bytes p ++ rest) = Ok (rest, p).
Proof.
  intros Hp Hf. unfold path_nom_read, path_bytes.
  rewrite nom_flat_map_ok, nom_verify_ok, nom_map_ok, <- !app_assoc, marks_read by done.
  cbn [fst]. unfold zlen in *. rewrite length_map, Hf. unfold path_complete.
  rewrite <- map_rev, complete_nodes_read by by apply Forall_rev. simpl. by rewrite rev_involutive.
Qed.

Lemma serialize_item i : serialize (path_item_rval i) = Ok (item_value i).
Proof. destruct i; simpl; by rewrite serialize_u8s. Qed.

Lemma serialize_items p : try_map serialize (map path_item_rval p) = Ok (map item_value p).
Proof.
  induction p as [|i p IH]; cbn [map try_map]; [done|]. by rewrite serialize_item, IH.
Qed.

Lemma path_empty : fails_empty path_nom_read.
Proof.
  unfold fails_empty, path_nom_read. rewrite nom_flat_map_ok, nom_verify_ok, nom_map_ok.
  destruct (tag_empty 0) as [a A], (tag_empty 15) as [b B], (tag_empty 240) as [c C].
  assert (Hop : path_op [] = Err (NError a)) by (unfold path_op; by rewrite nom_preceded_ok, A).
  assert (Halt : exists d, nom_alt path_left path_right [] = Err (NError d)).
  { unfold path_left, path_right. rewrite nom_alt_ok, !nom_preceded_ok, B, C. eauto. }
  destruct Halt as [d D]. rewrite (nom_many_till_fail _ _ _ _ _ Hop D). eauto.
Qed.

#[export] Instance path_Codec : Codec (mkSpec true true is_path) path_impl.
Proof.
  split; [apply path_appends|]. cbn [ts_delim ts_starts ts_vals]. split.
  - intros _. apply map_empty, path_empty.
  - intros v (p & -> & Hp & Hf). exists (VList (map item_value p)).
    split; [|cbn [path_impl ti_encoding PathCodec.get_encoding write_spec]].
    + unfold path_rval. cbn [serialize]. unfold zlen. rewrite length_map.
      change (Z.of_nat (length p)) with (zlen p). by rewrite Hf, serialize_items.
    + rewrite encode_path_value. split; [done|]. intros bs [= <-] rest _.
      simpl. by rewrite nom_map_ok, path_read.
Qed.
End ReadBack.

Lemma complete_length `{NomCrate} nodes : forall res i r p,
  complete_nodes nodes res i = Ok (r, p) -> zlen p = zlen res + zlen nodes.
Proof.
  induction nodes as [|n nodes IH]; intros res i r p E; cbn [complete_nodes] in E.
  - injection E as <- <-. rewrite zlen_rev. change (zlen []) with 0. lia.
  - rewrite zlen_cons. destruct n as [|h].
    + destruct (path_hash i) as [[i' h]|]; [|done]. apply IH in E.
      rewrite zlen_app, zlen_cons in E. change (zlen []) with 0 in E. lia.
    + apply IH in E. rewrite zlen_app, zlen_cons in E. change (zlen []) with 0 in E. lia.
Qed.

(** A path of hashes is written and read back, whatever follows it, when it
    has at most [MAX_PASS_MERKLE_DEPTH] items; a longer one is refused by the
    serializer.  Nothing else goes wrong. *)
Theorem path_roundtrip `{BytesCrate, BitVecCrate, HexCrate, UnicodeTables, BigIntCrate, NomCrate}
  (p : Path) (rest : bytes) :
  Forall item_ok p ->
  match write (path_rval p) (ti_encoding path_impl) with
  | Ok bs => zlen p <= 3 /\ path_nom_read (bs ++ rest) = Ok (rest, p)
  | Err er => 3 < zlen p /\ er = error_info (PathTooLong 3)
  end.
Proof.
  intros Hp. unfold write, path_rval. cbn [serialize]. unfold zlen at 1. rewrite length_map.
  change (Z.of_nat (length p)) with (zlen p). destruct (path_fits (zlen p)) eqn:Hf.
  - cbn [negb]. rewrite serialize_items. cbn [mbind result_bind lift map_err].
    rewrite encode_any_value, (encode_value_appends _ (codec_customs (ti := path_impl))).
    cbn [path_impl ti_encoding PathCodec.get_encoding write_spec]. rewrite encode_path_value.
    simpl. split; [by apply Z.leb_le|by apply path_read].
  - simpl. split; [|done]. apply Z.leb_gt. exact Hf.
Qed.

Lemma path_roundtrip_witness :
  let p := [PathItemRight (repeat 7 32); PathItemLeft (repeat 9 32)] in
  match write (path_rval p) (ti_encoding path_impl) with
  | Ok bs => zlen p <= 3 /\ path_nom_read (bs ++ [1; 2]) = Ok ([1; 2], p)
  | Err er => 3 < zlen p /\ er = error_info (PathTooLong 3)
  end.
Proof.
  apply (path_roundtrip [PathItemRight (repeat 7 32); PathItemLeft (repeat 9 32)] [1; 2]).
  repeat constructor; unfold is_byte; lia.
Defined.

(** Whatever bytes arrive, a path that is read has at most
    [MAX_PASS_MERKLE_DEPTH] items. *)
Theorem path_reader_bounded `{NomCrate} (i rest : bytes) (p : Path) :
  path_nom_read i = Ok (rest, p) -> zlen p <= 3.
Proof.
  unfold path_nom_read. rewrite nom_flat_map_ok, nom_verify_ok, nom_map_ok.
  destruct (nom_many_till _ _ i) as [[i' [nodes u]]|]; [|done]. cbn [fst].
  destruct (path_fits (zlen nodes)) eqn:Hf; [|done]. unfold path_complete. intros E.
  apply complete_length in E. rewrite zlen_rev in E. change (zlen []) with 0 in E.
  apply Z.leb_le in Hf. lia.
Qed.

Lemma path_reader_bounded_witness :
  path_nom_read [0xF0; 0xF0; 0xF0; 0xF0; 0] = Err (NError (from_error_kind [0xF0; 0xF0; 0xF0; 0xF0; 0] KVerify)) /\
  zlen [PathItemRight (repeat 1 32)] <= 3.
Proof.
  split; [by vm_compute|]. apply (path_reader_bounded ((0x0F :: repeat 1 32) ++ [0; 5]) [5]).
  by vm_compute.
Defined.
