(* ===== verification/Canonical.v ===== *)
(** * Readers accept only what the writer writes

    The converse of the round trips: when a reader accepts some bytes, the value
    it returns has the type the declaration says, and writing it gives exactly
    the bytes that were read.  With [RoundTrip.v] and [DerivedCodec.v] this makes
    writing and reading inverse bijections between the values of a type (within
    the size limits) and the byte strings its reader accepts.

    [exact] is what a declaration needs besides [wf]: no number whose encoding
    covers only part of what its reader accepts ([Int31] and [Uint32]), and
    [sized] only around plain bytes, since the reader of a sized block ignores
    what is left of the block. *)

From Stdlib Require Import ZArith Lia List Bool String.
From stdpp Require Import base option list numbers strings.
From S2P Require Import Prelude Extern BitUtils CryptoHash Types Serializer BinaryWriter WriterSpec NomCrate NomReader DeriveMake Derive RoundTrip DerivedCodec MerklePath.

Section Readers.
Context `{BytesCrate, BitVecCrate, HexCrate, UnicodeTables, BigIntCrate, NomCrate}.

(** The bytes a Rust slice can hold. *)
Definition slice (i : bytes) : Prop := are_bytes i /\ zlen i <= usize_max.

Lemma slice_app l k : slice (l ++ k) -> slice l /\ slice k.
Proof.
  intros [[Hl Hk]%Forall_app Hz]. rewrite zlen_app in Hz.
  pose proof (zlen_nonneg l). pose proof (zlen_nonneg k). by repeat split; try lia.
Qed.

Definition canonical (T : rval -> Prop) (e : Encoding) (p : parser rval) : Prop :=
  forall i rest v, slice i -> p i = Ok (rest, v) ->
    T v /\ exists x bs, serialize v = Ok x /\ write_spec e x = Ok bs /\ i = bs ++ rest.

(** ** The crate's parsers, inverted *)

Lemma bytes_split (i : bytes) n : (n <= length i)%nat ->
  exists l k, i = l ++ k /\ length l = n.
Proof.
  intros Hn. exists (take n i), (drop n i). rewrite take_drop, length_take. split; [done|lia].
Qed.

Lemma number_val_bytes k l : are_bytes l -> length l = number_size k ->
  number_range k (number_val k l) /\ be_bytes (number_size k) (number_val k l) = l.
Proof.
  intros Hl Hn. pose proof (be_val_bound l Hl) as Hb. pose proof (be_bytes_be_val l Hl) as E.
  unfold zlen in Hb. rewrite Hn in Hb, E.
  assert (Hs : forall w, 0 < w -> in_s w (swrap w (be_val l)) /\
                 swrap w (be_val l) mod 2 ^ w = be_val l mod 2 ^ w).
  { intros w Hw. unfold in_s, swrap. pose proof (Z.mod_pos_bound (be_val l) (2 ^ w)) as Hm.
    assert (Hp : 2 ^ w = 2 * 2 ^ (w - 1)) by (rewrite <- Z.pow_succ_r by lia; f_equal; lia).
    destruct (Z.ltb_spec (be_val l mod 2 ^ w) (2 ^ (w - 1))); (split; [lia|]).
    - apply Z.mod_mod. lia.
    - rewrite <- (Z.mod_add _ 1) by lia. rewrite Z.mul_1_l, Z.sub_add. apply Z.mod_mod. lia. }
  destruct k; cbn [number_val number_range number_size] in *; try (split; [exact Hb|exact E]).
  - destruct (Hs 8) as [? Em]; [lia|]. split; [done|].
    rewrite <- be_bytes_mod. change (256 ^ Z.of_nat 1) with (2 ^ 8). by rewrite Em, be_bytes_mod.
  - destruct (Hs 16) as [? Em]; [lia|]. split; [done|].
    rewrite <- be_bytes_mod. change (256 ^ Z.of_nat 2) with (2 ^ 16). by rewrite Em, be_bytes_mod.
  - destruct (Hs 32) as [? Em]; [lia|]. split; [done|].
    rewrite <- be_bytes_mod. change (256 ^ Z.of_nat 4) with (2 ^ 32). by rewrite Em, be_bytes_mod.
  - destruct (Hs 64) as [? Em]; [lia|]. split; [done|].
    rewrite <- be_bytes_mod. change (256 ^ Z.of_nat 8) with (2 ^ 64). by rewrite Em, be_bytes_mod.
Qed.

Lemma number_inv k i rest z : are_bytes i -> nom_number k i = Ok (rest, z) ->
  number_range k z /\ i = be_bytes (number_size k) z ++ rest.
Proof.
  intros Hi E. destruct (Nat.lt_ge_cases (length i) (number_size k)) as [Hl|Hl].
  - by rewrite nom_number_short in E.
  - destruct (bytes_split i _ Hl) as (l & r & -> & Hn). rewrite nom_number_ok in E by done.
    injection E as <- <-. apply Forall_app in Hi as [Hi _].
    destruct (number_val_bytes k l Hi Hn) as [? ->]. done.
Qed.

Lemma take_inv n i rest bs : 0 <= n -> nom_take n i = Ok (rest, bs) -> zlen bs = n /\ i = bs ++ rest.
Proof.
  intros Hn E. destruct (Z.lt_ge_cases (zlen i) n) as [Hl|Hl].
  - by rewrite nom_take_short in E.
  - destruct (bytes_split i (Z.to_nat n)) as (l & r & -> & Hk); [unfold zlen in Hl; lia|].
    assert (zlen l = n) by (unfold zlen; lia). rewrite nom_take_ok in E by done.
    by injection E as <- <-.
Qed.

Lemma tag_inv t i rest r : nom_tag t i = Ok (rest, r) -> i = t ++ rest.
Proof.
  intros E. destruct (decide (take (length t) i = t)) as [Ht|Ht].
  - rewrite <- (take_drop (length t) i), Ht in E |- *. rewrite nom_tag_ok in E. by injection E as <- _.
  - rewrite nom_tag_bad in E; [done|]. intros k ->. by rewrite take_app_len in Ht.
Qed.

Lemma alt_inv {A} (p q : parser A) i r : nom_alt p q i = Ok r -> p i = Ok r \/ q i = Ok r.
Proof.
  rewrite nom_alt_ok. destruct (p i) as [?|[|e|]]; try (by left); try done.
  destruct (q i) as [?|[]]; by try right.
Qed.

Lemma map_inv {A B} (p : parser A) (f : A -> B) i rest b : nom_map p f i = Ok (rest, b) ->
  exists a, p i = Ok (rest, a) /\ b = f a.
Proof. rewrite nom_map_ok. destruct (p i) as [[r a]|]; [|done]. intros [= <- <-]. eauto. Qed.

Lemma preceded_inv {A} t (q : parser A) i r : nom_preceded (nom_tag t) q i = Ok r ->
  exists k, i = t ++ k /\ q k = Ok r.
Proof.
  rewrite nom_preceded_ok. destruct (nom_tag t i) as [[k a]|] eqn:E; [|done].
  intros Eq. exists k. split; [by apply (tag_inv t i k a)|done].
Qed.

(** ** Numbers, strings, bytes *)

Lemma number_canonical k e (R : Z -> rval) (T : rval -> Prop) :
  (forall z, number_range k z -> T (R z) /\ exists x, serialize (R z) = Ok x /\
     write_spec e x = Ok (be_bytes (number_size k) z)) ->
  canonical T e (nom_map (nom_number k) R).
Proof.
  intros HT i rest v [Hi _] (z & Ez & ->)%map_inv.
  destruct (number_inv k i rest z Hi Ez) as [Hz ->]. destruct (HT z Hz) as (Hv & x & Hx & Hw).
  split; [done|]. by exists x, (be_bytes (number_size k) z).
Qed.

Lemma boolean_inv i rest b : boolean i = Ok (rest, b) ->
  i = be_bytes 1 (if b then BYTE_VAL_TRUE else BYTE_VAL_FALSE) ++ rest.
Proof.
  intros [(a & Ea & ->)%map_inv|(a & Ea & ->)%map_inv]%alt_inv;
    rewrite be_byte by (unfold is_byte, BYTE_VAL_TRUE, BYTE_VAL_FALSE; lia); by apply tag_inv in Ea.
Qed.

(** The primitives whose readers accept no more than the writer. *)
Definition exact_primitive (p : PrimitiveEncoding) : bool :=
  match p with PInt31 | PUint32 => false | _ => true end.

Lemma primitive_canonical p : exact_primitive p = true ->
  canonical (primitive_typed p) (generage_primitive_encoding p) (generage_primitive_nom_read p).
Proof.
  intros Hp. destruct p; try discriminate Hp; simpl;
    try (apply number_canonical; intros z Hz; split; [by exists z|]; eexists; split; [reflexivity|done]).
  intros i rest v _ (b & Eb & ->)%map_inv. split; [by exists b|].
  apply boolean_inv in Eb. by eexists _, _.
Qed.

Lemma size_inv i rest n : slice i -> size i = Ok (rest, n) ->
  0 <= n < 2 ^ 32 /\ i = be_bytes 4 n ++ rest.
Proof. intros [Hi _] E. exact (number_inv NU32 i rest n Hi E). Qed.

Lemma bounded_size_inv kind max i rest n : slice i -> bounded_size kind max i = Ok (rest, n) ->
  size i = Ok (rest, n) /\ n <= max.
Proof.
  unfold bounded_size. intros _ E. destruct (size i) as [[r m]|]; [|done].
  destruct (Z.leb_spec m max); [|done]. by injection E as <- <-.
Qed.

(** A length field, then that many bytes. *)
Lemma length_data_inv (sz : parser Z) i rest s :
  (forall r n, sz i = Ok (r, n) -> size i = Ok (r, n)) -> slice i ->
  nom_length_data sz i = Ok (rest, s) ->
  sz i = Ok (s ++ rest, zlen s) /\ i = be_bytes 4 (zlen s) ++ s ++ rest /\ zlen s < 2 ^ 32.
Proof.
  intros Hsz Hi. rewrite nom_length_data_ok. destruct (sz i) as [[k n]|] eqn:En; [|done].
  destruct (size_inv i k n Hi (Hsz k n eq_refl)) as [Hn Ei].
  destruct (Z.ltb_spec (zlen k) n) as [|Hl]; [done|]. intros [= <- <-].
  assert (Hs : zlen (take (Z.to_nat n) k) = n) by (unfold zlen in *; rewrite length_take; lia).
  rewrite take_drop, Hs. repeat split; [done|lia].
Qed.

Lemma utf8_inv (sz : parser Z) i rest s :
  (forall r n, sz i = Ok (r, n) -> size i = Ok (r, n)) -> slice i ->
  nom_map_res (nom_complete (nom_length_data sz)) from_utf8 i = Ok (rest, s) ->
  sz i = Ok (s ++ rest, zlen s) /\ is_string (RStr s) /\
  string_bytes s = Ok (be_bytes 4 (zlen s) ++ s) /\ i = (be_bytes 4 (zlen s) ++ s) ++ rest.
Proof.
  intros Hsz Hi. rewrite nom_map_res_ok, nom_complete_ok.
  destruct (nom_length_data sz i) as [[k l]|[]] eqn:El; try done.
  destruct (length_data_inv sz i k l Hsz Hi El) as (Es & Ei & Hl).
  unfold from_utf8. destruct (utf8_valid l) eqn:Eu; [|done]. intros [= <- <-].
  split; [done|]. split; [by exists l|]. rewrite <- app_assoc. split; [|done].
  unfold string_bytes, usize_max. by destruct (Z.leb_spec (4 + zlen l) (2 ^ 64 - 1)); [|lia].
Qed.

Lemma string_canonical const size :
  canonical is_string (generate_string_encoding const size) (generate_string_nom_read const size).
Proof.
  intros i rest v Hi (s & Es & ->)%map_inv. destruct size as [m|].
  - destruct (utf8_inv (bounded_size BString (const m)) i rest s) as (Ez & Hs & Hb & Ei); [|done|done|].
    { intros r n En. by apply (bounded_size_inv _ _ _ _ _ Hi En). }
    split; [done|]. exists (VString s), (be_bytes 4 (zlen s) ++ s). split; [done|]. split; [|done].
    simpl. apply bounded_size_inv in Ez as [_ Hm]; [|done].
    by destruct (Z.ltb_spec (const m) (zlen s)); [lia|].
  - destruct (utf8_inv NomReader.size i rest s) as (Ez & Hs & Hb & Ei); [done|done|done|].
    split; [done|]. by exists (VString s), (be_bytes 4 (zlen s) ++ s).
Qed.

Lemma bytes_written l : are_bytes l ->
  is_bytes (RSeq (map RU8 l)) /\ serialize (RSeq (map RU8 l)) = Ok (VList (map VUint8 l)) /\
  write_spec EBytes (VList (map VUint8 l)) = Ok l.
Proof.
  intros Hl. split; [by exists l|]. split; [simpl; by rewrite serialize_u8s|].
  simpl. by rewrite u8_values_bytes.
Qed.

Lemma bytes_canonical : canonical is_bytes EBytes generate_bytes_nom_read.
Proof.
  intros i rest v [Hi _] (l & (k & Ek & ->)%map_inv & ->)%map_inv. rewrite nom_rest_ok in Ek.
  injection Ek as <- <-. destruct (bytes_written i Hi) as (? & ? & ?). split; [done|].
  exists (VList (map VUint8 i)), i. by rewrite app_nil_r.
Qed.

Lemma hash_canonical t :
  canonical (is_hash t) (ti_encoding (hash_impl t)) (ti_nom_read (hash_impl t)).
Proof.
  intros i rest v [Hi _] (l & (k & Ek & ->)%map_inv & ->)%map_inv.
  apply take_inv in Ek as [Hk ->]; [|destruct t; simpl; lia]. apply Forall_app in Hi as [Hi _].
  unfold hash_from_bytes. rewrite Hk, Z.eqb_refl. split; [by exists k|].
  exists (VList (map VUint8 k)), k. split; [simpl; by rewrite serialize_u8s|]. split; [|done].
  simpl. rewrite u8_values_bytes by done. simpl. by rewrite Hk, Z.eqb_refl.
Qed.

(** ** Options and blocks *)

Lemma option_canonical T e p :
  canonical T e p ->
  canonical (is_option T) (EOptionalField e) (generate_optional_field_nom_read p).
Proof.
  intros Hc i rest v Hi (o & [(k & -> & Ek)%preceded_inv|(k & -> & Ek)%preceded_inv]%alt_inv & ->)%map_inv.
  - rewrite nom_success_ok in Ek. injection Ek as <- <-. split; [by left|].
    by exists (VOption None), (be_bytes 1 BYTE_FIELD_NONE).
  - apply map_inv in Ek as (w & Ew & ->). destruct (slice_app _ _ Hi) as [_ Hk].
    destruct (Hc k rest w Hk Ew) as (Hw & x & bs & Hx & Hbs & ->). split; [right; by exists w|].
    exists (VOption (Some x)), (255 :: bs). split; [simpl; by rewrite Hx|]. split; [|done].
    simpl. rewrite Hbs. simpl. rewrite be_byte by (unfold is_byte, BYTE_FIELD_SOME; lia).
    destruct Hi as [_ Hz]. rewrite app_assoc, zlen_app in Hz. pose proof (zlen_nonneg rest).
    unfold guard_size. simpl app. simpl app in Hz. unfold BYTE_FIELD_SOME.
    by destruct (Z.leb_spec (zlen (255 :: bs)) usize_max); [|lia].
Qed.

Lemma sized_bytes_canonical n : 0 <= n ->
  canonical is_bytes (ESized n EBytes) (sized n generate_bytes_nom_read).
Proof.
  intros Hn i rest v [Hi _]. unfold sized. rewrite nom_map_parser_ok.
  destruct (nom_take n i) as [[k l]|] eqn:Et; [|done].
  apply take_inv in Et as [Hl ->]; [|done]. apply Forall_app in Hi as [Hl' _].
  unfold generate_bytes_nom_read, bytes_. rewrite !nom_map_ok, nom_rest_ok. intros [= <- <-].
  destruct (bytes_written l Hl') as (Hv & Hs & Hw). split; [done|].
  exists (VList (map VUint8 l)), l. split; [done|]. split; [|done].
  simpl in Hw |- *. rewrite Hw. simpl. by rewrite Hl, Z.eqb_refl.
Qed.

Lemma bounded_canonical max T e p :
  0 <= max -> canonical T e p -> canonical T (EBounded max e) (bounded max p).
Proof.
  intros Hmax Hc i rest v Hi. unfold bounded. set (m := Z.min max (zlen i)).
  pose proof (zlen_nonneg i) as Hz.
  rewrite <- (take_drop (Z.to_nat m) i) in Hi. apply slice_app in Hi as [Hi _].
  destruct (p (take (Z.to_nat m) i)) as [[r w]|[|[? [[]| | | | | | |] ?]|]] eqn:Ep; try done.
  intros [= <- <-]. destruct (Hc _ _ _ Hi Ep) as (Hv & x & bs & Hx & Hbs & Ei). split; [done|].
  exists x, bs. split; [done|].
  assert (Hm : zlen bs + zlen r = m).
  { rewrite <- zlen_app, <- Ei. unfold zlen in *. rewrite length_take. lia. }
  pose proof (zlen_nonneg r). split.
  - simpl. rewrite Hbs. simpl. by destruct (Z.leb_spec (zlen bs) max); [|lia].
  - rewrite <- (take_drop (Z.to_nat m) i) at 1 2. rewrite Ei, <- app_assoc. f_equal.
    replace (Z.to_nat (m - zlen r)) with (length bs) by (unfold zlen in *; lia).
    by rewrite drop_app_len.
Qed.

Lemma all_consuming_inv {A} (p : parser A) i rest a :
  nom_all_consuming p i = Ok (rest, a) -> p i = Ok ([], a).
Proof.
  rewrite nom_all_consuming_ok. destruct (p i) as [[[|b k] c]|]; try done. by intros [= <- <-].
Qed.

Lemma dynamic_inv (sz : parser Z) T e p i rest v :
  (forall r n, sz i = Ok (r, n) -> size i = Ok (r, n)) -> canonical T e p -> slice i ->
  nom_length_value sz (nom_all_consuming p) i = Ok (rest, v) ->
  exists x bs, sz i = Ok (bs ++ rest, zlen bs) /\ T v /\ serialize v = Ok x /\
    write_spec e x = Ok bs /\ block_bytes bs = Ok (be_bytes 4 (zlen bs) ++ bs) /\
    i = (be_bytes 4 (zlen bs) ++ bs) ++ rest.
Proof.
  intros Hsz Hc Hi. rewrite nom_length_value_ok. destruct (sz i) as [[k n]|] eqn:En; [|done].
  destruct (size_inv i k n Hi (Hsz k n eq_refl)) as [Hn Ei].
  destruct (Z.ltb_spec (zlen k) n) as [|Hl]; [done|].
  set (b := take (Z.to_nat n) k).
  assert (Hb : zlen b = n) by (unfold b, zlen in *; rewrite length_take; lia).
  assert (Hsl : slice b).
  { rewrite Ei in Hi. apply slice_app in Hi as [_ Hi]. rewrite <- (take_drop (Z.to_nat n) k) in Hi.
    by apply slice_app in Hi as [Hi _]. }
  destruct (nom_all_consuming p b) as [[r w]|[]] eqn:Ep; try done. intros [= <- <-].
  apply all_consuming_inv in Ep. destruct (Hc _ _ _ Hsl Ep) as (Hv & x & bs & Hx & Hbs & Eb).
  rewrite app_nil_r in Eb. exists x, bs. rewrite <- Eb, Hb. unfold b.
  rewrite <- app_assoc, take_drop. repeat split; try done; [fold b; by rewrite Eb|].
  unfold block_bytes, u32_max. fold b. rewrite Hb.
  by destruct (Z.ltb_spec (2 ^ 32 - 1) n); [lia|].
Qed.

Lemma dynamic_canonical const size T e p :
  canonical T e p ->
  canonical T (generate_dynamic_encoding const size e) (generate_dynamic_nom_read const size p).
Proof.
  intros Hc i rest v Hi E. destruct size as [m|].
  - destruct (dynamic_inv (bounded_size BDynamic (const m)) T e p i rest v)
      as (x & bs & Ez & Hv & Hx & Hbs & Hb & Ei); [|done|done|done|].
    { intros r n En. by apply (bounded_size_inv _ _ _ _ _ Hi En). }
    split; [done|]. exists x, (be_bytes 4 (zlen bs) ++ bs). split; [done|]. split; [|done].
    simpl. rewrite Hbs. simpl. apply bounded_size_inv in Ez as [_ Hm]; [|done].
    by destruct (Z.ltb_spec (const m) (zlen bs)); [lia|].
  - destruct (dynamic_inv NomReader.size T e p i rest v)
      as (x & bs & Ez & Hv & Hx & Hbs & Hb & Ei); [done|done|done|done|].
    split; [done|]. exists x, (be_bytes 4 (zlen bs) ++ bs). split; [done|]. split; [|done].
    simpl. by rewrite Hbs.
Qed.

(** ** Lists *)

(** The reader consumes something whenever it succeeds. *)
Definition eats (p : parser rval) : Prop :=
  forall i rest v, slice i -> p i = Ok (rest, v) -> (length rest < length i)%nat.

Lemma canonical_eats delim T e p :
  codec delim true T e p -> canonical T e p -> eats p.
Proof.
  intros [Hs Hc] Hcan i rest v Hi E. destruct (Hcan i rest v Hi E) as (Hv & x & bs & Hx & Hbs & ->).
  destruct bs as [|b bs]; [|rewrite length_app; simpl; lia].
  destruct (Hc v Hv) as (x' & Hx' & _ & Hback). rewrite Hx in Hx'. injection Hx' as <-.
  specialize (Hback [] Hbs [] (or_intror eq_refl)). destruct (Hs eq_refl) as [er Er].
  simpl in Hback. congruence.
Qed.

(** The elements read from [i], and how they are written. *)
Definition elements_of (T : rval -> Prop) (e : Encoding) (i rest : bytes) (vs : list rval) : Prop :=
  Forall T vs /\ exists xs bss, try_map serialize vs = Ok xs /\ zlen xs = zlen vs /\
    try_map (fun v => map_err element_of (write_spec e v)) xs = Ok bss /\ i = concat bss ++ rest.

Lemma elements_nil T e i : elements_of T e i i [].
Proof. split; [constructor|]. by exists [], []. Qed.

Lemma elements_cons T e p i k rest v vs :
  canonical T e p -> slice i -> p i = Ok (k, v) -> elements_of T e k rest vs ->
  elements_of T e i rest (v :: vs).
Proof.
  intros Hc Hi Ep (Hall & xs & bss & Hxs & Hn & Hbss & Ek).
  destruct (Hc i k v Hi Ep) as (Hv & x & bs & Hx & Hbs & Ei). split; [by constructor|].
  exists (x :: xs), (bs :: bss). cbn [try_map]. rewrite Hx, Hxs, Hbs, !zlen_cons, Hn. cbn [map_err].
  rewrite Hbss. repeat split; try done. rewrite Ei, Ek. cbn [concat]. by rewrite app_assoc.
Qed.

Lemma rest_slice T e p i k v : canonical T e p -> slice i -> p i = Ok (k, v) -> slice k.
Proof.
  intros Hc Hi Ep. destruct (Hc i k v Hi Ep) as (_ & x & bs & _ & _ & ->).
  by apply slice_app in Hi as [_ ?].
Qed.

Lemma fold_many0_inv T e p : canonical T e p -> eats p -> forall n i acc rest l,
  (length i <= n)%nat -> slice i -> nom_fold_many0 p acc push_back i = Ok (rest, l) ->
  exists vs, l = acc ++ vs /\ elements_of T e i rest vs.
Proof.
  intros Hc He. induction n as [|n IH]; intros i acc rest l Hn Hi E;
    (destruct (p i) as [[k v]|[|er|er]] eqn:Ep;
      [|by rewrite (nom_fold_many0_fail _ _ _ _ _ Ep) in E
       |rewrite (nom_fold_many0_stop _ _ _ _ _ Ep) in E; injection E as <- <-; exists [];
          rewrite app_nil_r; split; [done|apply elements_nil]
       |by rewrite (nom_fold_many0_fail _ _ _ _ _ Ep) in E]).
  - pose proof (He i k v Hi Ep). lia.
  - pose proof (He i k v Hi Ep) as Hk. rewrite (nom_fold_many0_step _ _ _ _ _ _ Ep Hk) in E.
    destruct (IH k _ rest l ltac:(lia) (rest_slice _ _ _ _ _ _ Hc Hi Ep) E) as (vs & -> & Hvs).
    exists (v :: vs). unfold push_back. rewrite <- app_assoc. split; [done|].
    by apply (elements_cons T e p i k).
Qed.

Lemma fold_many_m_n_inv T e p : canonical T e p -> eats p -> forall n max i acc rest l,
  (length i <= n)%nat -> 0 <= max -> slice i ->
  nom_fold_many_m_n 0 max p acc push_back i = Ok (rest, l) ->
  exists vs, l = acc ++ vs /\ zlen vs <= max /\ elements_of T e i rest vs.
Proof.
  intros Hc He. induction n as [|n IH]; intros max i acc rest l Hn Hm Hi E;
    (destruct (Z.eq_dec max 0) as [->|];
      [rewrite nom_fold_many_m_n_done in E; injection E as <- <-; exists [];
       rewrite app_nil_r; do 2 (split; [done|]); apply elements_nil|]);
    (destruct (p i) as [[k v]|[|er|er]] eqn:Ep;
      [|by rewrite (nom_fold_many_m_n_fail max _ _ _ _ _ ltac:(lia) Ep) in E
       |rewrite (nom_fold_many_m_n_stop max _ _ _ _ _ ltac:(lia) Ep) in E; injection E as <- <-;
          exists []; rewrite app_nil_r; do 2 (split; [done|]); apply elements_nil
       |by rewrite (nom_fold_many_m_n_fail max _ _ _ _ _ ltac:(lia) Ep) in E]).
  - pose proof (He i k v Hi Ep). lia.
  - pose proof (He i k v Hi Ep) as Hk.
    rewrite (nom_fold_many_m_n_step max _ _ _ _ _ _ ltac:(lia) Ep Hk) in E.
    destruct (IH (max - 1) k _ rest l ltac:(lia) ltac:(lia) (rest_slice _ _ _ _ _ _ Hc Hi Ep) E)
      as (vs & -> & Hl & Hvs).
    exists (v :: vs). unfold push_back. rewrite <- app_assoc, zlen_cons. split; [done|].
    split; [lia|]. by apply (elements_cons T e p i k).
Qed.

Lemma list_canonical const size T e p :
  match size with Some m => 0 <= const m | None => True end -> canonical T e p -> eats p ->
  canonical (is_list T) (generate_list_encoding const size e) (generate_list_nom_read const size p).
Proof.
  intros Hm Hc He i rest v Hi (l & El & ->)%map_inv. destruct size as [m|].
  - unfold bounded_list in El.
    destruct (nom_fold_many_m_n 0 (const m) p [] push_back i) as [[k l']|] eqn:Ef; [|done].
    destruct (0 <? zlen k); [done|]. injection El as <- <-.
    destruct (fold_many_m_n_inv T e p Hc He _ _ i [] k l' (le_n _) Hm Hi Ef)
      as (vs & -> & Hl & Hall & xs & bss & Hxs & Hn & Hbss & Ei).
    split; [by exists vs|]. exists (VList xs), (concat bss). simpl. rewrite Hxs. split; [done|].
    split; [|done]. rewrite Hbss, Hn. by destruct (Z.ltb_spec (const m) (zlen vs)); [lia|].
  - destruct (fold_many0_inv T e p Hc He _ i [] rest l (le_n _) Hi El)
      as (vs & -> & Hall & xs & bss & Hxs & _ & Hbss & Ei).
    split; [by exists vs|]. exists (VList xs), (concat bss). simpl. rewrite Hxs. split; [done|].
    split; [|done]. by rewrite Hbss.
Qed.

(** ** Structures *)

Lemma sequence_fields_inv name (fields : list (string * parser rval)) : forall i r,
  sequence ((fun fp => field (name ++ "::" ++ fp.1)%string fp.2) <$> fields) i = Ok r ->
  sequence (snd <$> fields) i = Ok r.
Proof.
  induction fields as [|[f p] fields IH]; intros i r; [done|].
  rewrite !fmap_cons. cbn [sequence fst snd]. unfold field at 1.
  destruct (p i) as [[i' v]|]; [|done]. cbn [map_err].
  destruct (sequence ((fun fp => field (name ++ "::" ++ fp.1)%string fp.2) <$> fields) i') as [r'|] eqn:E;
    [|done]. by rewrite (IH _ _ E).
Qed.

Lemma struct_inv name (fields : list (string * parser rval)) i rest v :
  generate_struct_nom_read name fields i = Ok (rest, v) ->
  exists vs, sequence (snd <$> fields) i = Ok (rest, vs) /\ v = build_struct (fst <$> fields) vs.
Proof.
  unfold generate_struct_nom_read. destruct fields as [|[f p] [|fp fields]].
  - rewrite nom_success_ok. intros [= <- <-]. by exists [].
  - intros (w & Ew & ->)%map_inv. unfold field in Ew. destruct (p i) as [[k u]|] eqn:Ep; [|done].
    simpl in Ew. injection Ew as <- <-. exists [u]. simpl. by rewrite Ep.
  - destruct (Nat.ltb _ _); intros (vs & Es & ->)%map_inv; exists vs; (split; [|done]);
      apply (sequence_fields_inv name).
    + by rewrite tuple_sequence in Es.
    + rewrite multi_sequence in Es.
      destruct (sequence _ i) as [[k l]|]; [|done]. by injection Es as <- <-.
Qed.
End Readers.

(** ** Derived types *)
Section Derived.
Context `{BytesCrate, BitVecCrate, HexCrate, UnicodeTables, BigIntCrate, NomCrate}.
Context (const : string -> Z) (impl : list string -> type_impl).
Context (dflt : string -> string -> rval) (spec : list string -> option type_spec).

Abbreviation gen_enc := (generate_encoding const impl).
Abbreviation gen_nom := (generate_nom_read const impl dflt).
Abbreviation typed' := (typed spec dflt).
Abbreviation wf' := (wf const spec).

Context (Hcodec : forall path t, spec path = Some t -> Codec t (impl path)).
Context (Hcanon : forall path t, spec path = Some t ->
  canonical (ts_vals t) (ti_encoding (impl path)) (ti_nom_read (impl path))).
Context (Hdflt : forall name f, exists x, serialize (dflt name f) = Ok x).

Fixpoint exact (d : denc) : bool :=
  match d with
  | DPrimitive p => exact_primitive p
  | DStruct _ fields =>
      forallb (fun f => match f.2 with Some d => exact d | None => true end) fields
  | DEnum _ _ _ tags => forallb (fun t => exact t.2) tags
  | DOptionField d | DDynamic _ d => exact d
  | DBounded max d => (0 <=? const max) && exact d
  | DList size d => match size with Some m => 0 <=? const m | None => true end && exact d
  | DSized size d => match d with DBytes => 0 <=? const size | _ => false end
  | DZarith => false
  | _ => true
  end.

Definition only (d : denc) : Prop :=
  forall e p, wf' d = true -> exact d = true -> gen_enc d = Some e -> gen_nom d = Some p ->
    canonical (typed' d) e p.

Abbreviation field_parser name := (fun f : string * option denc =>
  match f.2 with
  | Some d => p ← gen_nom d; Some (f.1, p)
  | None => Some (f.1, fun i : bytes => Ok (i, dflt name f.1))
  end).
Abbreviation all_fields P := (forallb (fun f : string * option denc =>
  match f.2 with Some d => P d | None => true end)).
Abbreviation serialize_fields :=
  (try_map (fun nv : string * rval => x ← serialize nv.2; Ok (nv.1, x))).

(** Fields read one after the other, and how they are written. *)
Lemma fields_canonical name fields : forall fs fps i rest vs,
  Forall (fun f => match f.2 with Some d => only d | None => True end) fields ->
  all_fields wf' fields = true -> all_fields exact fields = true ->
  encoded_fields gen_enc fields = Some fs -> opt_map (field_parser name) fields = Some fps ->
  slice i -> sequence (snd <$> fps) i = Ok (rest, vs) ->
  exists xs cs, fields_typed dflt typed' name fields (zip (fst <$> fps) vs) /\
    serialize_fields (zip (fst <$> fps) vs) = Ok xs /\ fst <$> xs = fst <$> fields /\
    i = cs ++ rest /\
    forall all acc, (forall n x, (n, x) ∈ xs -> find_value_in_record_values n all = Some x) ->
      zlen acc + zlen cs <= usize_max ->
      record_spec write_spec all fs acc = Ok (acc ++ cs).
Proof.
  induction fields as [|[n od] fields IH]; intros fs fps i rest vs Ho Hw Hx Hfs Hfps Hi Hs.
  - injection Hfs as <-. injection Hfps as <-. injection Hs as <- <-. exists [], [].
    repeat split; try done. intros all acc _ _. by rewrite app_nil_r.
  - inversion Ho as [|? ? Hod Hos]; subst. cbn [forallb snd] in Hw, Hx.
    apply andb_true_iff in Hw as [Hwd Hws]. apply andb_true_iff in Hx as [Hxd Hxs].
    apply opt_map_cons_inv in Hfps as (fp & fps' & Hfp & Hfps & ->).
    destruct od as [d|]; cbn [encoded_fields] in Hfs; cbn [snd fst] in *.
    + destruct (gen_nom d) as [p|] eqn:Ep; [|done]. injection Hfp as <-.
      destruct (gen_enc d) as [e|] eqn:Ee; [|done].
      destruct (encoded_fields gen_enc fields) as [fs'|]; [|done]. injection Hfs as <-.
      rewrite fmap_cons in Hs. cbn [sequence snd] in Hs.
      destruct (p i) as [[k v]|] eqn:Ev; [|done].
      destruct (sequence (snd <$> fps') k) as [[r vs']|] eqn:Es; [|done]. injection Hs as <- <-.
      destruct (Hod e p Hwd Hxd Ee Ep i k v Hi Ev) as (Hv & x & bs & Hsx & Hbs & ->).
      apply slice_app in Hi as [_ Hk].
      destruct (IH fs' fps' k r vs' Hos Hws Hxs eq_refl Hfps Hk Es) as (xs & cs & Ht & Hxs' & E1 & -> & Hrec).
      exists ((n, x) :: xs), (bs ++ cs). rewrite !fmap_cons. cbn [zip zip_with fst fields_typed try_map snd].
      rewrite Hsx, Hxs', E1, app_assoc. do 4 (split; [done|]). intros all acc Hall Hz.
      rewrite zlen_app in Hz. cbn [record_spec]. rewrite (Hall n x) by left. simpl lift.
      cbn [mbind result_bind]. rewrite Hbs. simpl map_err. cbn [mbind result_bind]. unfold guard_size.
      pose proof (zlen_nonneg cs). rewrite zlen_app.
      destruct (Z.leb_spec (zlen acc + zlen bs) usize_max); [|lia]. cbn [mbind result_bind].
      rewrite Hrec; [by rewrite app_assoc| |rewrite zlen_app; lia].
      intros n' x' Hin. apply Hall. by right.
    + injection Hfp as <-. rewrite fmap_cons in Hs. cbn [sequence snd] in Hs.
      destruct (sequence (snd <$> fps') i) as [[r vs']|] eqn:Es; [|done]. injection Hs as <- <-.
      destruct (IH fs fps' i r vs' Hos Hws Hxs Hfs Hfps Hi Es) as (xs & cs & Ht & Hxs' & E1 & -> & Hrec).
      destruct (Hdflt name n) as [x Hx]. exists ((n, x) :: xs), cs. rewrite !fmap_cons.
      cbn [zip zip_with fst fields_typed try_map snd]. rewrite Hx, Hxs', E1.
      do 4 (split; [done|]). intros all acc Hall Hz. apply Hrec; [|done].
      intros n' x' Hin. apply Hall. by right.
Qed.

Lemma struct_only name fields :
  Forall (fun f => match f.2 with Some d => only d | None => True end) fields ->
  only (DStruct name fields).
Proof.
  intros Ho e p Hw Hx He Hp i rest v Hi Er. cbn [wf] in Hw. cbn [exact] in Hx.
  apply andb_true_iff in Hw as [Hw Hwf]. apply andb_true_iff in Hw as [Hnd _].
  apply bool_decide_eq_true in Hnd. cbn [generate_encoding] in He.
  destruct (encoded_fields gen_enc fields) as [fs|] eqn:Efs; [|done]. injection He as <-.
  cbn [generate_nom_read] in Hp.
  destruct (opt_map (field_parser name) fields) as [fps|] eqn:Efps; [|done]. injection Hp as <-.
  apply struct_inv in Er as (vs & Es & ->).
  destruct (fields_canonical name fields fs fps i rest vs Ho Hwf Hx Efs Efps Hi Es)
    as (xs & cs & Ht & Hxs & E1 & -> & Hrec).
  unfold build_struct.
  match type of Hxs with _ ?l = _ => change (zip _ vs) with l; generalize dependent l end.
  intros vals Ht Hxs.
  split; [exists vals; split; [reflexivity|exact Ht]|]. exists (VRecord xs), cs. cbn [serialize]. rewrite Hxs. split; [done|]. split; [|done].
  cbn [write_spec]. rewrite Hrec; [done| |].
  - intros n x Hin. apply get_nodup; [by rewrite E1|done].
  - destruct Hi as [_ Hz]. rewrite zlen_app in Hz. pose proof (zlen_nonneg rest).
    change (zlen []) with 0. lia.
Qed.

(** *** Enums *)

Lemma select_tag_inv name ig tags tag inp r : forall i,
  select_tag name ig i tag tags inp = Ok r ->
  exists k n read, tags !! k = Some (tag, n, read) /\
    generate_tag_nom_read name (i + Z.of_nat k) n read inp = Ok r.
Proof.
  induction tags as [|[[id n] read] tags IH]; intros i E; cbn [select_tag] in E; [done|].
  destruct (Z.eqb_spec tag id) as [->|_].
  - exists 0%nat, n, read. rewrite Z.add_0_r. done.
  - destruct (IH _ E) as (k & n' & read' & Hk & Eg). exists (S k), n', read'. split; [done|].
    by replace (i + Z.of_nat (S k)) with (i + 1 + Z.of_nat k) by lia.
Qed.

Lemma variant_typed_at tags k id n d v : forall i, tags !! k = Some (id, n, d) ->
  (if is_unit d then v = RUnitVariant (i + Z.of_nat k) n
   else exists w, v = RNewtypeVariant (i + Z.of_nat k) n w /\ typed' d w) ->
  variant_typed typed' i tags v.
Proof.
  revert k. induction tags as [|[[id' n'] d'] tags IH]; intros k i Hk Hv; [done|].
  destruct k as [|k]; cbn [variant_typed].
  - injection Hk as <- <- <-. left. by rewrite Z.add_0_r in Hv.
  - right. apply (IH k); [done|].
    by replace (i + 1 + Z.of_nat k) with (i + Z.of_nat (S k)) by lia.
Qed.

Lemma tag_bytes_read tag_type sz k id i rest :
  tag_size tag_type = Some sz -> tag_number tag_type = Some k -> 0 <= id < tag_max tag_type ->
  are_bytes i -> nom_number k i = Ok (rest, id) ->
  exists tb, tag_bytes sz id = Ok tb /\ i = tb ++ rest.
Proof.
  intros Hs Hk Hid Hi (_ & ->)%number_inv; [|done]. exists (be_bytes (number_size k) id).
  split; [|done]. revert Hs Hk Hid. unfold tag_max, tag_size, tag_number.
  destruct (String.eqb tag_type "u8"); [by intros [= <-] [= <-] _|].
  destruct (String.eqb tag_type "u16"); [by intros [= <-] [= <-] _|].
  destruct (String.eqb tag_type "u32"); [intros _ _; lia|done].
Qed.

Abbreviation tag_enc := (fun t : Z * string * denc =>
  e ← gen_enc t.2; Some (t.1.1, t.1.2, e)).
Abbreviation tag_nom := (fun t : Z * string * denc =>
  if is_unit t.2 then Some (t.1.1, t.1.2, None)
  else p ← gen_nom t.2; Some (t.1.1, t.1.2, Some p)).

Lemma tag_nom_at tags ps k id n read :
  opt_map tag_nom tags = Some ps -> ps !! k = Some (id, n, read) ->
  exists d, tags !! k = Some (id, n, d) /\
    if is_unit d then read = None else exists p, gen_nom d = Some p /\ read = Some p.
Proof.
  intros Hps%opt_map_Forall2 Hk. destruct (Forall2_lookup_r _ _ _ _ _ Hps Hk) as ([[id' n'] d] & Ht & E).
  cbn [fst snd] in E. exists d. destruct (is_unit d) eqn:Eu.
  - by injection E as <- <- <-.
  - destruct (gen_nom d) as [p|] eqn:Ep; [|done]. injection E as <- <- <-. eauto.
Qed.

Lemma enum_only name tag_type ig tags :
  Forall (fun t => only t.2) tags -> only (DEnum name tag_type ig tags).
Proof.
  intros Ho e p Hw Hx He Hp i rest v Hi Er. cbn [wf] in Hw. cbn [exact] in Hx.
  apply andb_true_iff in Hw as [Hw Hwf]. apply andb_true_iff in Hw as [Hid Hn].
  apply bool_decide_eq_true in Hid, Hn. cbn [generate_encoding] in He.
  destruct (tag_size tag_type) as [sz|] eqn:Esz; [|done]. cbn [mbind option_bind] in He.
  destruct (opt_map tag_enc tags) as [ts|] eqn:Ets; [|done]. cbn [mbind option_bind] in He.
  destruct (tag_map_new ts) as [m|] eqn:Em; [|done]. injection He as <-.
  cbn [generate_nom_read] in Hp. destruct (tag_number tag_type) as [nk|] eqn:Ek; [|done].
  cbn [mbind option_bind] in Hp.
  destruct (opt_map tag_nom tags) as [ps|] eqn:Eps; [|done]. injection Hp as <-.
  unfold generate_enum_nom_read in Er. destruct (nom_number nk i) as [[k id]|] eqn:En; [|done].
  apply select_tag_inv in Er as (j & n & read & Hj & Er).
  destruct (tag_nom_at tags ps j id n read Eps Hj) as (d & Ht & Hread).
  pose proof (Forall_lookup_1 _ _ _ _ Ho Ht) as Hd. cbn [snd] in Hd.
  rewrite forallb_forall in Hwf, Hx.
  assert (Hin : List.In (id, n, d) tags).
  { apply list_elem_of_In. by apply list_elem_of_lookup_2 with j. }
  specialize (Hwf _ Hin). specialize (Hx _ Hin). cbn [fst snd] in Hwf, Hx.
  apply andb_true_iff in Hwf as [Hr Hwd].
  destruct (tag_bytes_read tag_type sz nk id i k) as (tb & Htb & Ei); [done|done|lia|apply Hi|done|].
  pose proof (proj1 (opt_map_Forall2 _ _ _) Ets) as Hes.
  destruct (Forall2_lookup_l _ _ _ _ _ Hes Ht) as (et & Het & Henc). cbn [fst snd] in Henc.
  destruct (gen_enc d) as [e|] eqn:Ee; [|done].
  destruct (tags_write const impl sz tags ts m j id n d e Hid Hn Ets Em Ht Ee) as [Hwu Hwt].
  rewrite Ei in Hi. apply slice_app in Hi as [_ Hk].
  destruct (is_unit d) eqn:Eu.
  - subst read. cbn [generate_tag_nom_read] in Er. injection Er as <- <-. split.
    + apply (variant_typed_at tags j id n d); [done|]. by rewrite Eu.
    + exists (VEnum (Some n) (Some (0 + Z.of_nat j))), tb. rewrite Hwu. done.
  - destruct Hread as (p & Ep & ->). cbn [generate_tag_nom_read] in Er.
    apply map_inv in Er as (w & Ew & ->). unfold variant in Ew.
    destruct (p k) as [[r w']|] eqn:Epk; [|done]. injection Ew as <- <-.
    destruct (Hd e p Hwd Hx Ee Ep k r w' Hk Epk) as (Hw' & x & bs & Hsx & Hbs & ->). split.
    + apply (variant_typed_at tags j id n d); [done|]. rewrite Eu. eauto.
    + exists (VTag n x), (tb ++ bs). cbn [serialize]. rewrite Hsx. split; [done|].
      rewrite Hwt, Htb, Hbs. split; [done|]. by rewrite Ei, app_assoc.
Qed.

(** A generator that wraps the one of [d]. *)
Ltac gen_inv d He Hp :=
  cbn [generate_encoding generate_nom_read] in He, Hp;
  destruct (generate_encoding _ _ d) eqn:?; [|discriminate He];
  destruct (generate_nom_read _ _ _ d) eqn:?; [|discriminate Hp];
  injection He as <-; injection Hp as <-.

Lemma derived_only : forall d, only d.
Proof.
  refine (denc_strong_ind (fun d => only d) _ struct_only enum_only _ _ _ _ _).
  - intros d. destruct d as [| | |path| | |size| | | | | | |]; try done; intros e q Hw Hx He Hp; try done;
      injection He as <-; injection Hp as <-.
    + by apply primitive_canonical.
    + apply bytes_canonical.
    + cbn [wf typed] in *. unfold canonical. cbn [typed].
      destruct (spec path) as [t|] eqn:Et; [|done]. by apply Hcanon.
    + apply string_canonical.
  - intros d IH e p Hw Hx He Hp. gen_inv d He Hp. apply option_canonical. by apply IH.
  - intros s d IH e p Hw Hx He Hp. gen_inv d He Hp. cbn [wf] in Hw. cbn [exact] in Hx.
    apply andb_true_iff in Hw as [Hw Hst]. apply andb_true_iff in Hw as [Hw Hd].
    apply andb_true_iff in Hx as [Hm Hx].
    assert (Hc : canonical (typed' d) e0 p0) by by apply IH.
    apply list_canonical; [destruct s; [lia|done]|done|].
    apply (canonical_eats (delim spec d) (typed' d) e0); [|done]. rewrite <- Hst.
    by apply (derived_good const impl dflt spec Hcodec Hdflt d).
  - intros s d IH e p Hw Hx He Hp. gen_inv d He Hp. cbn [exact] in Hx. destruct d; try done.
    cbn [generate_encoding generate_nom_read] in *. simplify_eq. apply sized_bytes_canonical. lia.
  - intros s d IH e p Hw Hx He Hp. gen_inv d He Hp. cbn [exact] in Hx.
    apply andb_true_iff in Hx as [Hm Hx]. apply bounded_canonical; [lia|]. by apply IH.
  - intros s d IH e p Hw Hx He Hp. gen_inv d He Hp. apply dynamic_canonical. by apply IH.
Qed.
End Derived.

(** ** Paths *)
Section Paths.
Context `{BytesCrate, BitVecCrate, HexCrate, UnicodeTables, BigIntCrate, NomCrate}.

Definition node_mark (n : DecodePathNode) : bytes :=
  match n with NodeLeft => [0xF0] | NodeRight h => 0x0F :: h end.
Definition node_ok (n : DecodePathNode) : Prop :=
  match n with NodeLeft => True | NodeRight h => item_ok (PathItemRight h) end.

Lemma hash_inv i rest h : are_bytes i -> path_hash i = Ok (rest, h) ->
  item_ok (PathItemRight h) /\ i = h ++ rest.
Proof.
  intros Hi [Hl ->]%take_inv; [|simpl; lia]. apply Forall_app in Hi as [Hi _]. done.
Qed.

Lemma mark_inv i : are_bytes i ->
  match nom_alt path_left path_right i with
  | Ok (rest, n) => node_ok n /\ i = node_mark n ++ rest
  | Err (NError _) => True
  | Err _ => False
  end.
Proof.
  intros Hi. destruct (nom_alt path_left path_right i) as [[rest n]|er] eqn:E.
  - apply alt_inv in E as [(k & -> & Ek)%preceded_inv|(k & -> & Ek)%preceded_inv].
    + rewrite nom_success_ok in Ek. by injection Ek as <- <-.
    + apply map_inv in Ek as (h & Eh & ->). apply Forall_app in Hi as [_ Hk].
      by destruct (hash_inv k rest h Hk Eh) as [? ->].
  - rewrite nom_alt_ok in E. unfold path_left, path_right, path_hash in E. rewrite !nom_preceded_ok in E.
    assert (Htag : forall t, match nom_tag t i with Err (NError _) | Ok _ => True | _ => False end).
    { intros t. destruct (decide (take (length t) i = t)) as [Ht|Ht].
      - rewrite <- (take_drop (length t) i), Ht. by rewrite nom_tag_ok.
      - rewrite nom_tag_bad; [done|]. intros k ->. by rewrite take_app_len in Ht. }
    pose proof (Htag [0xf0]) as Hf0. pose proof (Htag [0x0f]) as H0f.
    destruct (nom_tag [240] i) as [[k a]|[]]; try done; [by rewrite nom_success_ok in E|].
    destruct (nom_tag [15] i) as [[k a]|[]]; try done; [|by simplify_eq].
    rewrite nom_map_ok in E. destruct (Z.lt_ge_cases (zlen k) (hash_size OperationListListHash)) as [Hl|Hl].
    + rewrite nom_take_short in E by done. by simplify_eq.
    + destruct (bytes_split k (Z.to_nat (hash_size OperationListListHash))) as (l & r & -> & Hk);
        [unfold zlen in Hl; lia|].
      rewrite nom_take_ok in E; [done|]. unfold zlen. rewrite Hk. done.
Qed.

Lemma op_inv i : match path_op i with
  | Ok (rest, _) => i = [0x00] ++ rest
  | Err (NError _) => True
  | Err _ => False
  end.
Proof.
  unfold path_op. rewrite nom_preceded_ok. destruct (decide (take 1 i = [0])) as [Ht|Ht].
  - rewrite <- (take_drop 1 i), Ht. by rewrite nom_tag_ok, nom_success_ok.
  - rewrite nom_tag_bad; [done|]. intros k ->. done.
Qed.

Lemma marks_inv n : forall i rest nodes u, (length i <= n)%nat -> are_bytes i ->
  nom_many_till (nom_alt path_left path_right) path_op i = Ok (rest, (nodes, u)) ->
  Forall node_ok nodes /\ i = concat (map node_mark nodes) ++ [0x00] ++ rest.
Proof.
  induction n as [|n IH]; intros i rest nodes u Hn Hi E; pose proof (op_inv i) as Hop;
    (destruct (path_op i) as [[k w]|[|er|]] eqn:Eop; try done;
     [rewrite (nom_many_till_stop _ _ _ _ _ Eop) in E; injection E as <- <- <-; by split|]);
    pose proof (mark_inv i Hi) as Hmark;
    (destruct (nom_alt path_left path_right i) as [[k m]|[|er'|]] eqn:Em; try done;
     [|by rewrite (nom_many_till_fail _ _ _ _ _ Eop Em) in E]);
    destruct Hmark as [Hm ->]; rewrite length_app in Hn;
    (assert (Hl : (0 < length (node_mark m))%nat) by (destruct m; simpl; lia)); [lia|].
  apply Forall_app in Hi as [_ Hk]. rewrite (nom_many_till_step _ _ _ k m er Eop Em) in E;
    [|rewrite length_app; lia].
  destruct (nom_many_till (nom_alt path_left path_right) path_op k) as [[r [l u']]|] eqn:Er; [|done].
  injection E as <- <- <-. destruct (IH k r l u' ltac:(lia) Hk Er) as [Hall ->].
  split; [by constructor|]. cbn [map concat]. by rewrite <- app_assoc.
Qed.

Lemma complete_inv nodes : forall res i rest p, are_bytes i -> Forall node_ok nodes ->
  complete_nodes nodes res i = Ok (rest, p) ->
  exists l, map node l = nodes /\ Forall item_ok l /\ p = rev (res ++ l) /\
    i = concat (omap tail l) ++ rest.
Proof.
  induction nodes as [|m nodes IH]; intros res i rest p Hi Hall E; cbn [complete_nodes] in E.
  - injection E as <- <-. exists []. by rewrite app_nil_r.
  - inversion Hall as [|? ? Hm Hms]; subst. destruct m as [|h].
    + destruct (path_hash i) as [[k h]|] eqn:Eh; [|done].
      destruct (hash_inv i k h Hi Eh) as [Hh ->]. apply Forall_app in Hi as [_ Hk].
      destruct (IH _ k rest p Hk Hms E) as (l & <- & Hl & -> & ->). exists (PathItemLeft h :: l).
      cbn [map node]. change (omap tail (PathItemLeft h :: l)) with (h :: omap tail l).
      cbn [concat]. rewrite <- !app_assoc. split; [done|]. split; [by constructor|]. done.
    + destruct (IH _ i rest p Hi Hms E) as (l & <- & Hl & -> & ->). exists (PathItemRight h :: l).
      rewrite <- app_assoc. split; [done|]. split; [by constructor|]. done.
Qed.

Lemma path_canonical :
  canonical is_path (ti_encoding path_impl) (ti_nom_read path_impl).
Proof.
  intros i rest v [Hi _] (p & Ep & ->)%map_inv. unfold path_nom_read in Ep.
  rewrite nom_flat_map_ok, nom_verify_ok, nom_map_ok in Ep.
  destruct (nom_many_till _ _ i) as [[k [nodes u]]|] eqn:Em; [|done]. cbn [fst] in Ep.
  destruct (path_fits (zlen nodes)) eqn:Ef; [|done].
  destruct (marks_inv _ i k nodes u (le_n _) Hi Em) as [Hn ->].
  rewrite app_assoc in Hi. apply Forall_app in Hi as [_ Hk]. unfold path_complete in Ep.
  destruct (complete_inv (rev nodes) [] k rest p Hk) as (l & El & Hl & -> & ->);
    [by apply Forall_rev|done|]. cbn [app].
  assert (En : map node (rev l) = nodes) by (by rewrite map_rev, El, rev_involutive).
  assert (Hz : zlen (rev l) = zlen nodes) by (rewrite <- En; unfold zlen; by rewrite length_map).
  split; [exists (rev l); split; [done|]; split; [by apply Forall_rev|by rewrite Hz]|].
  exists (VList (map item_value (rev l))), (path_bytes (rev l)).
  split; [|cbn [path_impl ti_encoding PathCodec.get_encoding write_spec]; rewrite encode_path_value;
           split; [done|]].
  - unfold path_rval. cbn [serialize]. unfold zlen. rewrite length_map.
    change (Z.of_nat (length (rev l))) with (zlen (rev l)). by rewrite Hz, Ef, serialize_items.
  - unfold path_bytes. rewrite rev_involutive, <- !app_assoc. f_equal. rewrite <- En, map_map.
    f_equal. apply map_ext. by intros [].
Qed.
End Paths.
