(* ===== verification/Messages.v ===== *)
(** * The p2p messages ([tezos/messages/src/p2p/encoding/*.rs])

    Every [#[derive(HasEncoding, NomReader)]] declaration of the messages as the
    macro receives it ([DeriveInput]); attributes of other macros are left out,
    since [get_encoding_meta] looks only at [encoding].  [p2p] feeds the
    declarations to the macro one after another, each in the scope of the types
    declared before it, and keeps for every type its generated code and what is
    known of it.  [p2p_declares] says the macro accepts them all, [p2p_codecs]
    that each generated pair is a codec. *)

From Stdlib Require Import ZArith Lia List Bool String.
From stdpp Require Import base option list numbers strings.
From S2P Require Import Prelude Extern BitUtils CryptoHash Nonce Types Serializer BinaryWriter WriterSpec NomCrate NomReader DeriveMake Derive RoundTrip DerivedCodec MerklePath Canonical ExternRef Zarith.

Open Scope string_scope.

(** ** [limits.rs] *)
Definition OCAML_MESSAGE_MAX_SIZE : Z := 100 * 1024 * 1024.
Definition BLOCK_HEADER_MAX_SIZE : Z := 8 * 1024 * 1024.
Definition MEMPOOL_MAX_OPERATIONS : Z := 4000.
Definition MEMPOOL_MAX_SIZE : Z := 8 + MEMPOOL_MAX_OPERATIONS * hash_size OperationHash.
Definition MESSAGE_MAX_SIZE : Z :=
  4 + 2 + (hash_size ChainId + 4 + BLOCK_HEADER_MAX_SIZE + MEMPOOL_MAX_SIZE).
Definition P2P_POINT_MAX_SIZE : Z := 4 + 4 * 8 + 7 + 2 + 1 + 5.
Definition P2P_POINT_MAX_LENGTH : Z := P2P_POINT_MAX_SIZE - 4.
Definition NACK_PEERS_MAX_LENGTH : Z := 100.
Definition OPERATION_MAX_PASS : Z := 8.
Definition ADVERTISE_ID_LIST_MAX_LENGTH : Z := 100.
Definition ADVERTISE_ID_LIST_MAX_LENGTH_FOR_SEND : Z := 50.
Definition CURRENT_BRANCH_HISTORY_MAX_LENGTH : Z := 1000.
Definition HISTORY_MAX_SIZE : Z := 200.
Definition OPERATION_MAX_SIZE : Z := 128 * 1024.
Definition PROTOCOL_MAX_SIZE : Z := 2 * 1024 * 1024.
Definition GET_BLOCK_HEADERS_MAX_LENGTH : Z := 10.
Definition GET_OPERATIONS_MAX_LENGTH : Z := 10.
Definition GET_PROTOCOLS_MAX_LENGTH : Z := 10.
Definition PROTOCOL_COMPONENT_MAX_SIZE : Z := PROTOCOL_MAX_SIZE - 2.
Definition GET_OPERATIONS_FOR_BLOCKS_MAX_LENGTH : Z := 10.
Definition OPERATION_LIST_MAX_SIZE : Z := 1024 * 1024.
Definition CHAIN_NAME_MAX_LENGTH : Z := 128.

(** The constants the declarations mention, by the text of the expression. *)
Definition constants : list (string * Z) :=
  [("BLOCK_HEADER_MAX_SIZE", BLOCK_HEADER_MAX_SIZE);
   ("super::limits::BLOCK_HEADER_MAX_SIZE", BLOCK_HEADER_MAX_SIZE);
   ("MEMPOOL_MAX_SIZE", MEMPOOL_MAX_SIZE); ("MESSAGE_MAX_SIZE", MESSAGE_MAX_SIZE);
   ("P2P_POINT_MAX_SIZE", P2P_POINT_MAX_SIZE); ("NACK_PEERS_MAX_LENGTH", NACK_PEERS_MAX_LENGTH);
   ("ADVERTISE_ID_LIST_MAX_LENGTH", ADVERTISE_ID_LIST_MAX_LENGTH);
   ("CURRENT_BRANCH_HISTORY_MAX_LENGTH", CURRENT_BRANCH_HISTORY_MAX_LENGTH);
   ("OPERATION_MAX_SIZE", OPERATION_MAX_SIZE);
   ("GET_BLOCK_HEADERS_MAX_LENGTH", GET_BLOCK_HEADERS_MAX_LENGTH);
   ("GET_OPERATIONS_MAX_LENGTH", GET_OPERATIONS_MAX_LENGTH);
   ("GET_PROTOCOLS_MAX_LENGTH", GET_PROTOCOLS_MAX_LENGTH);
   ("PROTOCOL_COMPONENT_MAX_SIZE", PROTOCOL_COMPONENT_MAX_SIZE);
   ("GET_OPERATIONS_FOR_BLOCKS_MAX_LENGTH", GET_OPERATIONS_FOR_BLOCKS_MAX_LENGTH);
   ("OPERATION_LIST_MAX_SIZE", OPERATION_LIST_MAX_SIZE);
   ("CHAIN_NAME_MAX_LENGTH", CHAIN_NAME_MAX_LENGTH);
   ("CRYPTO_KEY_SIZE", CRYPTO_KEY_SIZE); ("POW_SIZE", Pow.POW_SIZE); ("NONCE_SIZE", NONCE_SIZE)].
Definition const (name : string) : Z := default 0 (hm_get name constants).

(** ** Declarations *)

Definition encoding_attr (ms : list Meta) : list Attribute :=
  match ms with
  | [] => []
  | _ => [mkAttribute "encoding" (Ok (MetaList "encoding" (NestedM <$> ms)))]
  end.
Definition ty (name : string) : Ty := TyPath [(name, NoArguments)].
Definition generic (name : string) (t : Ty) : Ty :=
  TyPath [(name, AngleBracketed [GenericType t])].
Abbreviation vec := (generic "Vec").
Abbreviation word := MetaPath.
Abbreviation text name s := (MetaNameValue name (LitStr s)).
Definition fld (name : string) (t : Ty) (ms : list Meta) : Field := mkField name t (encoding_attr ms).
Definition var (name : string) (payload : option string) (tag : option Z) : Variant :=
  mkVariant name (match payload with Some t => Unnamed [ty t] | None => UnitFields end)
    (encoding_attr (match tag with Some z => [MetaNameValue "tag" (LitInt z)] | None => [] end)).
Definition decl_struct (name : string) (ms : list Meta) (fields : list Field) : DeriveInput :=
  mkDeriveInput name (encoding_attr ms) (DataStruct (Named fields)).
Definition decl_enum (name : string) (ms : list Meta) (variants : list Variant) : DeriveInput :=
  mkDeriveInput name (encoding_attr ms) (DataEnum variants).

Module Decl.

(* version.rs, connection.rs *)
Definition NetworkVersion := decl_struct "NetworkVersion" []
  [fld "chain_name" (ty "String") [text "string" "CHAIN_NAME_MAX_LENGTH"];
   fld "distributed_db_version" (ty "u16") [];
   fld "p2p_version" (ty "u16") []].
Definition ConnectionMessage := decl_struct "ConnectionMessage" []
  [fld "port" (ty "u16") [];
   fld "public_key" (vec (ty "u8")) [text "sized" "CRYPTO_KEY_SIZE"; word "bytes"];
   fld "proof_of_work_stamp" (vec (ty "u8")) [text "sized" "POW_SIZE"; word "bytes"];
   fld "message_nonce" (vec (ty "u8")) [text "sized" "NONCE_SIZE"; word "bytes"];
   fld "version" (ty "NetworkVersion") []].

(* metadata.rs *)
Definition MetadataMessage := decl_struct "MetadataMessage" []
  [fld "disable_mempool" (ty "bool") []; fld "private_node" (ty "bool") []].

(* ack.rs *)
Definition NackMotive := decl_enum "NackMotive" [text "tags" "u16"]
  [var "NoMotive" None None; var "TooManyConnections" None None;
   var "UnknownChainName" None None; var "DeprecatedP2pVersion" None None;
   var "DeprecatedDistributedDbVersion" None None; var "AlreadyConnected" None None].
Definition NackInfo := decl_struct "NackInfo" []
  [fld "motive" (ty "NackMotive") [];
   fld "potential_peers_to_connect" (vec (ty "String"))
     [word "dynamic"; text "list" "NACK_PEERS_MAX_LENGTH"; text "bounded" "P2P_POINT_MAX_SIZE"]].
Definition AckMessage := decl_enum "AckMessage" []
  [var "Ack" None (Some 0x00); var "NackV0" None (Some 0xff);
   var "Nack" (Some "NackInfo") (Some 0x01)].

(* advertise.rs, swap.rs, deactivate.rs *)
Definition AdvertiseMessage := decl_struct "AdvertiseMessage" []
  [fld "id" (vec (ty "String"))
     [text "list" "ADVERTISE_ID_LIST_MAX_LENGTH"; text "bounded" "P2P_POINT_MAX_SIZE"]].
Definition SwapMessage := decl_struct "SwapMessage" []
  [fld "point" (ty "String") [text "bounded" "P2P_POINT_MAX_SIZE"];
   fld "peer_id" (ty "CryptoboxPublicKeyHash") []].
Definition DeactivateMessage := decl_struct "DeactivateMessage" []
  [fld "deactivate" (ty "ChainId") []].

(* block_header.rs *)
Definition BlockHeader := decl_struct "BlockHeader" [text "bounded" "BLOCK_HEADER_MAX_SIZE"]
  [fld "level" (ty "Level") [text "builtin" "Int32"];
   fld "proto" (ty "u8") [];
   fld "predecessor" (ty "BlockHash") [];
   fld "timestamp" (ty "i64") [word "timestamp"];
   fld "validation_pass" (ty "u8") [];
   fld "operations_hash" (ty "OperationListListHash") [];
   fld "fitness" (ty "Fitness")
     [MetaList "composite"
        [NestedM (word "dynamic"); NestedM (word "list"); NestedM (word "dynamic");
         NestedM (word "list"); NestedM (text "builtin" "Uint8")]];
   fld "context" (ty "ContextHash") [];
   fld "protocol_data" (vec (ty "u8")) [word "list"; text "builtin" "Uint8"]].
Definition BlockHeaderMessage := decl_struct "BlockHeaderMessage" []
  [fld "block_header" (ty "BlockHeader") []].
Definition GetBlockHeadersMessage := decl_struct "GetBlockHeadersMessage" []
  [fld "get_block_headers" (vec (ty "BlockHash"))
     [word "dynamic"; text "list" "GET_BLOCK_HEADERS_MAX_LENGTH"]].

(* current_branch.rs, current_head.rs, mempool.rs *)
Definition CurrentBranch := decl_struct "CurrentBranch" []
  [fld "current_head" (ty "BlockHeader") [text "dynamic" "super::limits::BLOCK_HEADER_MAX_SIZE"];
   fld "history" (vec (ty "BlockHash")) [text "list" "CURRENT_BRANCH_HISTORY_MAX_LENGTH"]].
Definition CurrentBranchMessage := decl_struct "CurrentBranchMessage" []
  [fld "chain_id" (ty "ChainId") []; fld "current_branch" (ty "CurrentBranch") []].
Definition GetCurrentBranchMessage := decl_struct "GetCurrentBranchMessage" []
  [fld "chain_id" (ty "ChainId") []].
Definition Mempool := decl_struct "Mempool" [text "bounded" "MEMPOOL_MAX_SIZE"]
  [fld "known_valid" (vec (ty "OperationHash")) [word "dynamic"; word "list"];
   fld "pending" (vec (ty "OperationHash")) [word "dynamic"; word "dynamic"; word "list"]].
Definition CurrentHeadMessage := decl_struct "CurrentHeadMessage" []
  [fld "chain_id" (ty "ChainId") [];
   fld "current_block_header" (ty "BlockHeader") [text "dynamic" "BLOCK_HEADER_MAX_SIZE"];
   fld "current_mempool" (ty "Mempool") []].
Definition GetCurrentHeadMessage := decl_struct "GetCurrentHeadMessage" []
  [fld "chain_id" (ty "ChainId") []].

(* operation.rs *)
Definition Operation := decl_struct "Operation" []
  [fld "branch" (ty "BlockHash") [];
   fld "data" (vec (ty "u8")) [text "list" "OPERATION_MAX_SIZE"]].
Definition OperationMessage := decl_struct "OperationMessage" []
  [fld "operation" (ty "Operation") []].
Definition GetOperationsMessage := decl_struct "GetOperationsMessage" []
  [fld "get_operations" (vec (ty "OperationHash"))
     [word "dynamic"; text "list" "GET_OPERATIONS_MAX_LENGTH"]].

(* operations_for_blocks.rs *)
Definition OperationsForBlock := decl_struct "OperationsForBlock" []
  [fld "hash" (ty "BlockHash") []; fld "validation_pass" (ty "i8") []].
Definition OperationsForBlocksMessage := decl_struct "OperationsForBlocksMessage" []
  [fld "operations_for_block" (ty "OperationsForBlock") [];
   fld "operation_hashes_path" (ty "Path") [];
   fld "operations" (vec (ty "Operation"))
     [text "bounded" "OPERATION_LIST_MAX_SIZE"; word "list"; word "dynamic"]].
Definition GetOperationsForBlocksMessage := decl_struct "GetOperationsForBlocksMessage" []
  [fld "get_operations_for_blocks" (vec (ty "OperationsForBlock"))
     [word "dynamic"; text "list" "GET_OPERATIONS_FOR_BLOCKS_MAX_LENGTH"]].

(* protocol.rs *)
Definition Component := decl_struct "Component" []
  [fld "name" (ty "String") []; fld "interface" (generic "Option" (ty "String")) [];
   fld "implementation" (ty "String") []].
Definition Protocol := decl_struct "Protocol" []
  [fld "expected_env_version" (ty "i16") [];
   fld "components" (vec (ty "Component"))
     [text "dynamic" "PROTOCOL_COMPONENT_MAX_SIZE"; word "list"]].
Definition ProtocolMessage := decl_struct "ProtocolMessage" []
  [fld "protocol" (ty "Protocol") []].
Definition GetProtocolsMessage := decl_struct "GetProtocolsMessage" []
  [fld "get_protocols" (vec (ty "ProtocolHash"))
     [word "dynamic"; text "list" "GET_PROTOCOLS_MAX_LENGTH"]].

(* peer.rs *)
Definition PeerMessage := decl_enum "PeerMessage" [text "tags" "u16"; word "ignore_unknown"]
  [var "Disconnect" None (Some 0x01);
   var "Advertise" (Some "AdvertiseMessage") (Some 0x03);
   var "SwapRequest" (Some "SwapMessage") (Some 0x04);
   var "SwapAck" (Some "SwapMessage") (Some 0x05);
   var "Bootstrap" None (Some 0x02);
   var "GetCurrentBranch" (Some "GetCurrentBranchMessage") (Some 0x10);
   var "CurrentBranch" (Some "CurrentBranchMessage") (Some 0x11);
   var "Deactivate" (Some "DeactivateMessage") (Some 0x12);
   var "GetCurrentHead" (Some "GetCurrentHeadMessage") (Some 0x13);
   var "CurrentHead" (Some "CurrentHeadMessage") (Some 0x14);
   var "GetBlockHeaders" (Some "GetBlockHeadersMessage") (Some 0x20);
   var "BlockHeader" (Some "BlockHeaderMessage") (Some 0x21);
   var "GetOperations" (Some "GetOperationsMessage") (Some 0x30);
   var "Operation" (Some "OperationMessage") (Some 0x31);
   var "GetProtocols" (Some "GetProtocolsMessage") (Some 0x40);
   var "Protocol" (Some "ProtocolMessage") (Some 0x41);
   var "GetOperationsForBlocks" (Some "GetOperationsForBlocksMessage") (Some 0x60);
   var "OperationsForBlocks" (Some "OperationsForBlocksMessage") (Some 0x61)].
Definition PeerMessageResponse :=
  decl_struct "PeerMessageResponse" [text "dynamic" "MESSAGE_MAX_SIZE"]
    [fld "message" (ty "PeerMessage") []].

(** In the order of their dependencies. *)
Definition all : list DeriveInput :=
  [NetworkVersion; ConnectionMessage; MetadataMessage; NackMotive; NackInfo; AckMessage;
   AdvertiseMessage; SwapMessage; DeactivateMessage; BlockHeader; BlockHeaderMessage;
   GetBlockHeadersMessage; CurrentBranch; CurrentBranchMessage; GetCurrentBranchMessage;
   Mempool; CurrentHeadMessage; GetCurrentHeadMessage; Operation; OperationMessage;
   GetOperationsMessage; OperationsForBlock; OperationsForBlocksMessage;
   GetOperationsForBlocksMessage; Component; Protocol; ProtocolMessage; GetProtocolsMessage;
   PeerMessage; PeerMessageResponse].
End Decl.

(** What the macro makes of each declaration. *)
Definition trees : list denc :=
  Eval vm_compute in
    match try_map (make_encoding (H := reference_syn)) Decl.all with Ok l => l | Err _ => [] end.

Section Syn.
Context `{SynCrate}.

Lemma parse_expr_path s : path_text s = true -> parse_expr s = Ok s.
Proof. intros Hs. unfold parse_expr. by rewrite is_expr_path. Qed.

Lemma parse_ident_text s : ident_text s = true -> parse_ident s = Ok s.
Proof. intros Hs. unfold parse_ident. by rewrite is_ident_text. Qed.

(** Runs the macro on a concrete declaration. *)
Ltac run_macro :=
  cbv -[parse_expr parse_ident];
  repeat (first [rewrite parse_expr_path by (vm_compute; reflexivity)
                |rewrite parse_ident_text by (vm_compute; reflexivity)];
          cbv -[parse_expr parse_ident]);
  reflexivity.

Lemma p2p_trees : Forall2 (fun input d => make_encoding input = Ok d) Decl.all trees.
Proof. unfold Decl.all, trees. repeat (constructor; [run_macro|]). constructor. Qed.
End Syn.

(** ** The environment of the generated code

    Each type by its path: its implementation and what is known of it. *)
Definition env : Type := list (list string * (type_impl * type_spec)).

Section Env.
Context `{BytesCrate, BitVecCrate, HexCrate, UnicodeTables, BigIntCrate, NomCrate, SynCrate}.

(** A name that is not in scope is a compile error, never used below. *)
Definition env_impl (e : env) (path : list string) : type_impl :=
  match hm_get path e with Some t => t.1 | None => mkImpl EUnit (fun i => Err Incomplete) end.
Definition env_spec (e : env) (path : list string) : option type_spec := snd <$> hm_get path e.

(** No declaration has a skipped field. *)
Definition no_default (_ _ : string) : rval := RUnit.

Definition declare (e : option env) (input : DeriveInput) : option env :=
  e ← e;
  match make_encoding input with
  | Err _ => None
  | Ok d =>
      if wf const (env_spec e) d then
        ti ← derive const (env_impl e) no_default input;
        Some (([d_ident input], (ti, derived_spec no_default (env_spec e) d)) :: e)
      else None
  end.

Definition hash_entry (name : string) (t : HashType) : list string * (type_impl * type_spec) :=
  ([name], (hash_impl t, mkSpec true true (is_hash t))).

(** The types with hand-written implementations. *)
Definition base_env : env :=
  [hash_entry "ChainId" ChainId; hash_entry "BlockHash" BlockHash;
   hash_entry "OperationHash" OperationHash; hash_entry "ProtocolHash" ProtocolHash;
   hash_entry "ContextHash" ContextHash;
   hash_entry "OperationListListHash" OperationListListHash;
   hash_entry "CryptoboxPublicKeyHash" CryptoboxPublicKeyHash;
   (["Path"], (path_impl, mkSpec true true is_path))].

Definition p2p : option env := fold_left declare Decl.all (Some base_env).

(** The implementation of a message type, and what is known of it. *)
Definition p2p_entry (name : string) : option (type_impl * type_spec) :=
  e ← p2p; hm_get [name] e.

(** Every entry is a codec. *)
Definition env_ok (e : env) : Prop :=
  forall path ti t, hm_get path e = Some (ti, t) -> Codec t ti.

Lemma env_ok_cons path ti t e : Codec t ti -> env_ok e -> env_ok ((path, (ti, t)) :: e).
Proof.
  intros Hc He path' ti' t' Hg. simpl in Hg. case_decide; [|by apply (He path')].
  injection Hg as <- <-. exact Hc.
Qed.

Lemma hash_Codec t : Codec (mkSpec true true (is_hash t)) (hash_impl t).
Proof. split; [done|apply hash_codec]. Qed.

Lemma base_ok : env_ok base_env.
Proof. repeat (apply env_ok_cons; [apply hash_Codec || apply path_Codec|]). by intros ? ? ?. Qed.

Lemma declare_ok e e' input : env_ok e -> declare (Some e) input = Some e' -> env_ok e'.
Proof.
  intros He. unfold declare. simpl. destruct (make_encoding input) as [d|] eqn:Ed; [|done].
  destruct (wf const (env_spec e) d) eqn:Ew; [|done].
  destruct (derive const (env_impl e) no_default input) as [ti|] eqn:Et; [|done].
  intros [= <-]. apply env_ok_cons; [|done].
  refine (derive_Codec const (env_impl e) no_default (env_spec e) _ _ input d ti Ed Ew Et).
  - intros path t Hs. unfold env_spec, env_impl in *.
    destruct (hm_get path e) as [[ti' t']|] eqn:Eg; [|done]. injection Hs as <-.
    by apply (He path).
  - intros name f. by exists VUnit.
Qed.

Lemma declare_all_ok inputs : forall e e',
  env_ok e -> fold_left declare inputs (Some e) = Some e' -> env_ok e'.
Proof.
  induction inputs as [|input inputs IH]; intros e e' He Hf; cbn [fold_left] in Hf.
  - by injection Hf as <-.
  - destruct (declare (Some e) input) as [e1|] eqn:E1.
    + apply (IH e1); [by apply (declare_ok e _ input)|done].
    + exfalso. clear -Hf. induction inputs; [done|]. by apply IHinputs.
Qed.

Lemma p2p_entry_Codec name ti t : p2p_entry name = Some (ti, t) -> Codec t ti.
Proof.
  unfold p2p_entry. destruct p2p as [e|] eqn:Ep; [|done]. simpl. intros Hg.
  by apply (declare_all_ok _ _ _ base_ok Ep [name]).
Qed.

(** Every reader accepts only what is written. *)
Definition env_canonical (e : env) : Prop :=
  forall path ti t, hm_get path e = Some (ti, t) ->
    canonical (ts_vals t) (ti_encoding ti) (ti_nom_read ti).

Lemma env_canonical_cons path ti t e :
  canonical (ts_vals t) (ti_encoding ti) (ti_nom_read ti) -> env_canonical e ->
  env_canonical ((path, (ti, t)) :: e).
Proof.
  intros Hc He path' ti' t' Hg. simpl in Hg. case_decide; [|by apply (He path')].
  injection Hg as <- <-. exact Hc.
Qed.

Lemma base_canonical : env_canonical base_env.
Proof.
  repeat (apply env_canonical_cons; [apply hash_canonical || apply path_canonical|]). by intros ? ? ?.
Qed.

Lemma declare_canonical e e' input d :
  env_ok e -> env_canonical e -> make_encoding input = Ok d -> exact const d = true ->
  declare (Some e) input = Some e' -> env_canonical e'.
Proof.
  intros He Hc Ed Hx. unfold declare, derive. cbn [mbind option_bind]. rewrite Ed.
  destruct (wf const (env_spec e) d) eqn:Ew; [|done].
  destruct (generate_encoding const (env_impl e) d) as [enc|] eqn:Ee; [|done].
  destruct (generate_nom_read const (env_impl e) no_default d) as [p|] eqn:Ep; [|done].
  intros [= <-]. apply env_canonical_cons; [|done]. cbn [derived_spec ts_vals ti_encoding ti_nom_read].
  refine (derived_only const (env_impl e) no_default (env_spec e) _ _ _ d enc p Ew Hx Ee Ep).
  - intros path t Hs. unfold env_spec, env_impl in *.
    destruct (hm_get path e) as [[ti t']|] eqn:Eg; [|done]. injection Hs as <-. by apply (He path).
  - intros path t Hs. unfold env_spec, env_impl in *.
    destruct (hm_get path e) as [[ti t']|] eqn:Eg; [|done]. injection Hs as <-. by apply (Hc path).
  - intros name f. by exists VUnit.
Qed.

Lemma declare_all_canonical inputs ds :
  Forall2 (fun input d => make_encoding input = Ok d) inputs ds -> forallb (exact const) ds = true ->
  forall e e', env_ok e -> env_canonical e -> fold_left declare inputs (Some e) = Some e' ->
    env_canonical e'.
Proof.
  induction 1 as [|input d inputs ds Hd _ IH]; intros Hx e e' He Hc Hf; cbn [fold_left] in Hf.
  - by injection Hf as <-.
  - cbn [forallb] in Hx. apply andb_true_iff in Hx as [Hxd Hx].
    destruct (declare (Some e) input) as [e1|] eqn:E1.
    + apply (IH Hx e1); [by apply (declare_ok e _ input)|by apply (declare_canonical e e1 input d)|done].
    + exfalso. clear -Hf. induction inputs; [done|]. by apply IHinputs.
Qed.

Lemma p2p_entry_canonical name ti t : p2p_entry name = Some (ti, t) ->
  canonical (ts_vals t) (ti_encoding ti) (ti_nom_read ti).
Proof.
  unfold p2p_entry. destruct p2p as [e|] eqn:Ep; [|done]. cbn [mbind option_bind]. intros Hg.
  refine (declare_all_canonical _ _ p2p_trees _ _ _ base_ok base_canonical Ep [name] ti t Hg).
  by vm_compute.
Qed.

(** The same, from the trees. *)
Definition declare_tree (e : option env) (nd : string * denc) : option env :=
  e ← e;
  if wf const (env_spec e) nd.2 then
    enc ← generate_encoding const (env_impl e) nd.2;
    p ← generate_nom_read const (env_impl e) no_default nd.2;
    Some (([nd.1], (mkImpl enc p, derived_spec no_default (env_spec e) nd.2)) :: e)
  else None.

Lemma declare_trees inputs ds : forall e,
  Forall2 (fun input d => make_encoding input = Ok d) inputs ds ->
  fold_left declare inputs e = fold_left declare_tree (zip (d_ident <$> inputs) ds) e.
Proof.
  intros e Hall. revert e. induction Hall as [|input d inputs ds Hd _ IH]; intros e; [done|].
  rewrite fmap_cons. cbn [zip zip_with fold_left]. rewrite IH. f_equal.
  unfold declare, declare_tree, derive. destruct e as [e|]; [|done]. cbn [mbind option_bind fst snd].
  rewrite Hd. destruct (wf const (env_spec e) d); [|done].
  destruct (generate_encoding const (env_impl e) d); [|done].
  by destruct (generate_nom_read const (env_impl e) no_default d).
Qed.

Lemma p2p_from_trees :
  p2p = fold_left declare_tree (zip (d_ident <$> Decl.all) trees) (Some base_env).
Proof. apply declare_trees, p2p_trees. Qed.

Definition is_some {A} (o : option A) : bool := match o with Some _ => true | None => false end.

Lemma p2p_entries :
  forallb (fun input => is_some (p2p_entry (d_ident input))) Decl.all = true.
Proof. unfold p2p_entry. rewrite p2p_from_trees. by vm_compute. Qed.

(** ** One type of the environment, from its tree *)

Lemma declare_tree_none l : fold_left declare_tree l None = None.
Proof. by induction l. Qed.

Lemma declare_tree_keeps l : forall e e' m,
  fold_left declare_tree l (Some e) = Some e' -> m ∉ fst <$> l -> hm_get [m] e' = hm_get [m] e.
Proof.
  induction l as [|[n d] l IH]; intros e e' m Hf Hm; cbn [fold_left] in Hf; [by simplify_eq|].
  rewrite fmap_cons in Hm. apply not_elem_of_cons in Hm as [Hn Hm]. cbn [fst] in Hn.
  destruct (declare_tree (Some e) (n, d)) as [e1|] eqn:E1; [|by rewrite declare_tree_none in Hf].
  rewrite (IH e1 e' m Hf Hm). unfold declare_tree in E1. cbn [mbind option_bind fst snd] in E1.
  destruct (wf const (env_spec e) d); [|done].
  destruct (generate_encoding const (env_impl e) d); [|done]. cbn [mbind option_bind] in E1.
  destruct (generate_nom_read const (env_impl e) no_default d); [|done].
  injection E1 as <-. cbn [hm_get]. rewrite decide_False; [done|]. congruence.
Qed.

(** The generated code of [n], in the environment [e1] of the types before it. *)
Lemma p2p_entry_split n d l1 l2 :
  zip (d_ident <$> Decl.all) trees = (l1 ++ (n, d) :: l2)%list -> n ∉ fst <$> l2 ->
  exists e1 enc p,
    p2p_entry n = Some (mkImpl enc p, derived_spec no_default (env_spec e1) d) /\
    generate_encoding const (env_impl e1) d = Some enc /\
    generate_nom_read const (env_impl e1) no_default d = Some p /\
    forall m, m ∉ n :: (fst <$> l2) -> hm_get [m] e1 = p2p_entry m.
Proof.
  intros Hl Hn. assert (Hp : is_some p2p = true).
  { rewrite p2p_from_trees. by vm_compute. }
  assert (Hfold := p2p_from_trees). unfold p2p_entry.
  destruct p2p as [e|]; [|discriminate Hp]. clear Hp. cbn [mbind option_bind]. rewrite Hl in Hfold.
  rewrite fold_left_app in Hfold. cbn [fold_left] in Hfold.
  destruct (fold_left declare_tree l1 (Some base_env)) as [e1|] eqn:E1;
    [|by rewrite declare_tree_none in Hfold].
  exists e1. destruct (declare_tree (Some e1) (n, d)) as [e2|] eqn:E2;
    [|by rewrite declare_tree_none in Hfold].
  pose proof E2 as E2'. unfold declare_tree in E2. cbn [mbind option_bind fst snd] in E2.
  destruct (wf const (env_spec e1) d); [|done].
  destruct (generate_encoding const (env_impl e1) d) as [enc|]; [|done]. cbn [mbind option_bind] in E2.
  destruct (generate_nom_read const (env_impl e1) no_default d) as [p|]; [|done].
  injection E2 as <-. exists enc, p. symmetry in Hfold. split.
  { rewrite (declare_tree_keeps l2 _ _ n Hfold Hn). cbn [hm_get]. by rewrite decide_True. }
  do 2 (split; [done|]).
  intros m Hm. apply not_elem_of_cons in Hm as [Hmn Hm].
  rewrite (declare_tree_keeps l2 _ _ m Hfold Hm). cbn [hm_get].
  rewrite decide_False by congruence. done.
Qed.

(** A type that is not declared here is the one of [base_env]. *)
Lemma p2p_entry_base m : m ∉ (fst <$> zip (d_ident <$> Decl.all) trees) ->
  p2p_entry m = hm_get [m] base_env.
Proof.
  intros Hm. assert (Hp : is_some p2p = true).
  { rewrite p2p_from_trees. by vm_compute. }
  assert (Hfold := p2p_from_trees). unfold p2p_entry.
  destruct p2p as [e|]; [|discriminate Hp]. clear Hp. cbn [mbind option_bind].
  symmetry in Hfold. by apply (declare_tree_keeps _ _ _ _ Hfold).
Qed.
End Env.

(** A value of the message type [name]. *)
Definition message_value `{BytesCrate, BitVecCrate, HexCrate, UnicodeTables, BigIntCrate, NomCrate, SynCrate}
  (name : string) (v : rval) : Prop :=
  match p2p_entry name with Some (_, t) => ts_vals t v | None => False end.

Lemma message_value_entry
  `{BytesCrate, BitVecCrate, HexCrate, UnicodeTables, BigIntCrate, NomCrate, SynCrate}
  (name : string) (v : rval) :
  message_value name v -> exists ti t, p2p_entry name = Some (ti, t) /\ ts_vals t v.
Proof.
  unfold message_value. destruct (p2p_entry name) as [[ti t]|]; [|done]. by exists ti, t.
Qed.

(** (C1) The derive macro accepts every message declaration, and the code it
    generates writes every value of the type and reads it back, or refuses it
    because a size limit is exceeded.  Values have hashes of their sizes, also in
    [Path]s, whose Rust type leaves the length of its hashes open ([is_path]). *)
Theorem p2p_messages_roundtrip
  `{BytesCrate, BitVecCrate, HexCrate, UnicodeTables, BigIntCrate, NomCrate, SynCrate}
  (input : DeriveInput) :
  input ∈ Decl.all ->
  exists ti t, p2p_entry (d_ident input) = Some (ti, t) /\
    forall v, message_value (d_ident input) v -> written_or_refused t ti v.
Proof.
  intros Hin. pose proof p2p_entries as Hall. rewrite forallb_forall in Hall.
  specialize (Hall input (proj1 (list_elem_of_In _ _) Hin)). unfold message_value.
  destruct (p2p_entry (d_ident input)) as [[ti t]|] eqn:Ee; [|done].
  exists ti, t. split; [done|]. intros v Hv.
  pose proof (p2p_entry_Codec _ _ _ Ee) as Hc. exact (codec_write v Hv).
Qed.

Definition sample_hash (n : nat) : rval := RNewtypeStruct (RSeq (map RU8 (repeat 1 n))).

Lemma p2p_messages_roundtrip_witness :
  (exists ti t, p2p_entry "CurrentBranchMessage" = Some (ti, t) /\
    forall v, message_value "CurrentBranchMessage" v -> written_or_refused t ti v) /\
  message_value "GetCurrentHeadMessage" (RStruct [("chain_id", sample_hash 4)]).
Proof.
  split.
  - apply (p2p_messages_roundtrip Decl.CurrentBranchMessage). do 13 right. left.
  - vm_compute. eexists. split; [reflexivity|]. split; [reflexivity|]. split; [|done].
    exists [1; 1; 1; 1]. split; [reflexivity|]. split; [|reflexivity]. repeat constructor; done.
Defined.

#[global] Opaque p2p p2p_entry.
Close Scope string_scope.
