(* ===== verification/BinaryMessage.v ===== *)
(** * Binary messages and chunks
    ([tezos/messages/src/p2p/binary_message.rs], [mod.rs],
    the [SizeFromChunk] implementations of [encoding/*.rs])

    [as_bytes] and [from_bytes] put the writer and the generated readers behind
    one interface; [BinaryChunk] is a message with its two-byte length.  The
    theorems: messages survive the trip as bytes and as chunks, readers never
    panic whatever the input, and the sizes predicted from the first bytes are
    the sizes of the messages, with one exception.  Errors keep the
    [DecodeError] instead of the text [convert_error] makes of it. *)

From Stdlib Require Import ZArith Lia List Bool String.
From stdpp Require Import base option list numbers strings.
From S2P Require Import Prelude Extern BitUtils CryptoHash Types Serializer BinaryWriter WriterSpec NomCrate NomReader DeriveMake Derive RoundTrip DerivedCodec MerklePath Canonical Messages ExternRef Zarith.

Definition CONTENT_LENGTH_FIELD_BYTES : Z := 2.
Definition CONTENT_LENGTH_MAX : Z := 2 ^ 16 - 1.

(** ** Reading and writing *)

(** [binary_reader.rs]; [ReaderPanicked] is a panic. *)
Inductive BinaryReaderError : Type :=
| ReaderError (e : DecodeError)
| UnknownTag (tag : string)
| ReaderPanicked.

Definition map_nom_error (e : DecodeError) : BinaryReaderError :=
  match get_unknown_tag e with Some tag => UnknownTag tag | None => ReaderError e end.

Section Messages.
Context `{BytesCrate, BitVecCrate, HexCrate, UnicodeTables, BigIntCrate, NomCrate}.

Definition as_bytes (ti : type_impl) (v : rval) : result EncodingError bytes :=
  write v (ti_encoding ti).

Definition complete_input {A} (p : parser A) (i : bytes) : result BinaryReaderError A :=
  match nom_finish (nom_complete p i) with
  | None => Err ReaderPanicked
  | Some (Ok (_, output)) => Ok output
  | Some (Err e) => Err (map_nom_error e)
  end.

(** With the [debug_assert] of the closure. *)
Definition all_consuming_complete_input {A} (p : parser A) (i : bytes)
  : result BinaryReaderError A :=
  match nom_finish (nom_all_consuming (nom_complete p) i) with
  | None => Err ReaderPanicked
  | Some (Ok ([], output)) => Ok output
  | Some (Ok (_ :: _, _)) => Err ReaderPanicked
  | Some (Err e) => Err (map_nom_error e)
  end.

Definition from_bytes (ti : type_impl) (buf : bytes) : result BinaryReaderError rval :=
  all_consuming_complete_input (ti_nom_read ti) buf.

(** ** [BinaryChunk] *)
Inductive BinaryChunkError : Type :=
| OverflowError
| MissingSizeInformation
| IncorrectSizeInformation (expected actual : Z).

Definition BinaryChunk : Type := bytes.

(** [Buf::get_u16] of a slice with at least two bytes. *)
Definition get_u16 (l : bytes) : Z := be_val (take 2 l).

Definition from_raw (raw : bytes) : result BinaryChunkError BinaryChunk :=
  if zlen raw <? CONTENT_LENGTH_FIELD_BYTES then Err MissingSizeInformation
  else
    let expected_len := get_u16 raw in
    let found_len := zlen raw - CONTENT_LENGTH_FIELD_BYTES in
    if negb (expected_len =? found_len) then Err (IncorrectSizeInformation expected_len found_len)
    else if CONTENT_LENGTH_MAX + CONTENT_LENGTH_FIELD_BYTES <? zlen raw then Err OverflowError
    else Ok raw.

Definition from_content (content : bytes) : result BinaryChunkError BinaryChunk :=
  if zlen content <=? CONTENT_LENGTH_MAX
  then Ok (be_bytes 2 (zlen content) ++ content)
  else Err OverflowError.

Definition raw (c : BinaryChunk) : bytes := c.
Definition content (c : BinaryChunk) : bytes := drop 2 c.

Definition try_from (value : bytes) : result BinaryChunkError BinaryChunk :=
  if zlen value <? CONTENT_LENGTH_FIELD_BYTES then Err MissingSizeInformation
  else if zlen value <=? CONTENT_LENGTH_MAX + CONTENT_LENGTH_FIELD_BYTES then
    let expected_content_length := get_u16 (take 2 value) in
    if expected_content_length + CONTENT_LENGTH_FIELD_BYTES =? zlen value then Ok value
    else Err (IncorrectSizeInformation expected_content_length (zlen value))
  else Err OverflowError.

(** [TryFrom<BinaryChunk> for ConnectionMessage]. *)
Definition connection_try_from (ti : type_impl) (c : BinaryChunk) : result BinaryReaderError rval :=
  from_bytes ti (content c).

(** ** [MessageHash] *)
Inductive MessageHashError : Type :=
| SerializationError (e : EncodingError)
| FromBytesError
| MHBlake2bError.

Context `{Sodium}.

Definition message_hash (ti : type_impl) (v : rval) : result MessageHashError bytes :=
  bs ← map_err SerializationError (as_bytes ti v);
  map_err (fun _ => MHBlake2bError) (digest_256 bs).

Definition message_typed_hash (t : HashType) (ti : type_impl) (v : rval)
  : result MessageHashError bytes :=
  bs ← map_err SerializationError (as_bytes ti v);
  digest ← map_err (fun _ => MHBlake2bError) (digest_256 bs);
  map_err (fun _ => FromBytesError) (hash_from_bytes t digest).

(** ** Sizes predicted from the first bytes *)
Definition peer_message_size (bs : bytes) : result BinaryReaderError Z := complete_input size bs.

Definition peer_size_from_chunk (bs : bytes) : result BinaryReaderError Z :=
  n ← peer_message_size bs; Ok (n + 4).

Definition metadata_size_from_chunk (_ : bytes) : result BinaryReaderError Z := Ok 2.

Definition ack_size_from_chunk (bs : bytes) : result BinaryReaderError Z :=
  complete_input
    (nom_alt3
       (nom_preceded (nom_tag [0x00]) (nom_success 1))
       (nom_preceded (nom_tag [0xff]) (nom_success 1))
       (nom_preceded (nom_tag [0x01])
          (nom_map (nom_preceded (nom_take 2) size) (fun s => s + 3))))
    bs.
End Messages.

(** Splits the environment at the [k]-th declaration; [split_at] also computes its
    encoding. *)
Ltac split_env k :=
  let l := constr:(zip (d_ident <$> Decl.all) trees) in
  match eval vm_compute in (l !! k) with
  | Some (?n, ?d) =>
      destruct (p2p_entry_split n d (take k l) (drop (S k) l))
        as (e1 & enc & p & He & Henc & Hp & Hrest);
        [reflexivity|apply (bool_decide_unpack _); vm_compute; exact I|]
  end.
Ltac split_at k :=
  split_env k;
  match goal with
  | E : generate_encoding _ _ _ = Some _ |- _ =>
      cbn [generate_encoding encoded_fields opt_map mbind option_bind fst snd is_unit] in E;
      injection E as <-
  end.

(** ** Messages as bytes *)
Section Facts.
Context `{BytesCrate, BitVecCrate, HexCrate, UnicodeTables, BigIntCrate, NomCrate, SynCrate}.

Lemma all_consuming_read {A} (p : parser A) i a :
  p i = Ok ([], a) -> all_consuming_complete_input p i = Ok a.
Proof.
  intros E. unfold all_consuming_complete_input.
  by rewrite nom_all_consuming_ok, nom_complete_ok, E, nom_finish_ok.
Qed.

Lemma codec_bytes `{!Codec t ti} v : ts_vals t v ->
  match as_bytes ti v with
  | Ok bs => from_bytes ti bs = Ok v
  | Err er => limit_error (kind er) = true
  end.
Proof.
  intros Hv. pose proof (codec_write v Hv) as Hw. unfold written_or_refused in Hw.
  unfold as_bytes, from_bytes. destruct (write v (ti_encoding ti)) as [bs|er]; [|done].
  apply all_consuming_read. rewrite <- (app_nil_r bs). apply Hw. by right.
Qed.

Lemma all_consuming_read_inv {A} (p : parser A) i a :
  all_consuming_complete_input p i = Ok a -> p i = Ok ([], a).
Proof.
  unfold all_consuming_complete_input. rewrite nom_finish_ok, nom_all_consuming_ok, nom_complete_ok.
  unfold map_nom_error. destruct (p i) as [[[|] b]|[]]; simpl; try by destruct (get_unknown_tag _).
  all: by try intros [= <-].
Qed.

Lemma canonical_bytes `{!Codec t ti} v bs :
  canonical (ts_vals t) (ti_encoding ti) (ti_nom_read ti) -> slice bs ->
  from_bytes ti bs = Ok v -> ts_vals t v /\ as_bytes ti v = Ok bs.
Proof.
  intros Hc Hs E%all_consuming_read_inv.
  destruct (Hc bs [] v Hs E) as (Hv & x & cs & Hx & Hcs & ->). split; [done|].
  unfold as_bytes, write. rewrite Hx. change (lift (Ok x)) with (Ok (E := EncodingError) x).
  cbn [mbind result_bind]. rewrite encode_any_value, encode_value_appends by apply codec_customs.
  unfold appended. rewrite Hcs. simpl. by rewrite app_nil_r.
Qed.

(** ** Chunks *)

Lemma get_u16_be n rest : 0 <= n < 2 ^ 16 -> get_u16 (be_bytes 2 n ++ rest) = n.
Proof.
  intros Hn. unfold get_u16. rewrite take_app_le by (rewrite be_bytes_length; lia).
  rewrite take_ge by (rewrite be_bytes_length; lia). rewrite be_val_be_bytes.
  apply Z.mod_small. exact Hn.
Qed.

Lemma chunk_of_content c : zlen c <= CONTENT_LENGTH_MAX ->
  let k := be_bytes 2 (zlen c) ++ c in
  from_content c = Ok k /\ from_raw k = Ok k /\ try_from k = Ok k /\ content k = c.
Proof.
  intros Hl k. pose proof (zlen_nonneg c) as Hz. unfold CONTENT_LENGTH_MAX in *.
  assert (Hk : zlen k = 2 + zlen c) by (unfold k; rewrite zlen_app, zlen_be_bytes; lia).
  assert (Hu : get_u16 k = zlen c) by (apply get_u16_be; lia).
  assert (Hu' : get_u16 (take 2 k) = zlen c).
  { unfold get_u16. rewrite take_take. exact Hu. }
  split; [|split; [|split]].
  - unfold from_content, CONTENT_LENGTH_MAX. by rewrite (proj2 (Z.leb_le _ _)) by lia.
  - unfold from_raw, CONTENT_LENGTH_MAX, CONTENT_LENGTH_FIELD_BYTES. rewrite Hu, Hk.
    destruct (Z.ltb_spec (2 + zlen c) 2); [lia|].
    replace (2 + zlen c - 2) with (zlen c) by lia. rewrite Z.eqb_refl. cbn [negb].
    by destruct (Z.ltb_spec (2 ^ 16 - 1 + 2) (2 + zlen c)); [lia|].
  - unfold try_from, CONTENT_LENGTH_MAX, CONTENT_LENGTH_FIELD_BYTES. rewrite Hu', Hk.
    destruct (Z.ltb_spec (2 + zlen c) 2); [lia|].
    destruct (Z.leb_spec (2 + zlen c) (2 ^ 16 - 1 + 2)); [|lia].
    by destruct (Z.eqb_spec (zlen c + 2) (2 + zlen c)); [|lia].
  - unfold content, k. by rewrite drop_app_le, drop_ge by (rewrite be_bytes_length; lia).
Qed.

Lemma get_u16_range l : are_bytes l -> 0 <= get_u16 l < 2 ^ 16.
Proof.
  intros Hl. unfold get_u16. assert (Ht : are_bytes (take 2 l)) by by apply Forall_take.
  pose proof (be_val_bound (take 2 l) Ht) as Hb.
  assert (zlen (take 2 l) <= 2) by (unfold zlen; rewrite length_take; lia).
  assert (256 ^ zlen (take 2 l) <= 256 ^ 2) by (apply Z.pow_le_mono_r; lia). lia.
Qed.

(** Both constructors accept exactly the chunks of some content. *)
Lemma chunk_shape r : are_bytes r ->
  2 <= zlen r -> get_u16 r = zlen r - 2 -> r = be_bytes 2 (zlen (drop 2 r)) ++ drop 2 r.
Proof.
  intros Hb Hl Hu. assert (Hd : zlen (drop 2 r) = zlen r - 2).
  { unfold zlen in *. rewrite length_drop. lia. }
  rewrite Hd, <- Hu. unfold get_u16. rewrite <- (take_drop 2 r) at 1. f_equal.
  pose proof (be_bytes_be_val (take 2 r) (Forall_take _ _ _ Hb)) as E.
  rewrite length_take in E. replace (Nat.min 2 (length r)) with 2%nat in E by (unfold zlen in Hl; lia).
  done.
Qed.

Lemma from_raw_inv r c : from_raw r = Ok c ->
  c = r /\ 2 <= zlen r /\ get_u16 r = zlen r - 2.
Proof.
  unfold from_raw, CONTENT_LENGTH_FIELD_BYTES. destruct (Z.ltb_spec (zlen r) 2); [done|].
  destruct (Z.eqb_spec (get_u16 r) (zlen r - 2)); [|done]. cbn [negb].
  destruct (_ <? _); [done|]. intros [= <-]. auto.
Qed.

Lemma try_from_inv r c : try_from r = Ok c ->
  c = r /\ 2 <= zlen r /\ get_u16 r = zlen r - 2.
Proof.
  unfold try_from, CONTENT_LENGTH_FIELD_BYTES. destruct (Z.ltb_spec (zlen r) 2); [done|].
  destruct (_ <=? _); [|done].
  destruct (Z.eqb_spec (get_u16 (take 2 r) + 2) (zlen r)) as [E|]; [|done].
  intros [= <-]. unfold get_u16 in *. rewrite take_take in E. split; [done|]. split; [done|].
  simpl in E. lia.
Qed.

(** ** Sizes *)

Lemma complete_read {A} (p : parser A) i i' a : p i = Ok (i', a) -> complete_input p i = Ok a.
Proof. intros E. unfold complete_input. by rewrite nom_complete_ok, E, nom_finish_ok. Qed.

Lemma write_inv v e bs : customs_append e -> write v e = Ok bs ->
  exists x, serialize v = Ok x /\ write_spec e x = Ok bs.
Proof.
  intros Hc. unfold write. destruct (serialize v) as [x|]; [|done].
  change (lift (Ok x)) with (Ok (E := EncodingError) x). cbn [mbind result_bind].
  rewrite encode_any_value, encode_value_appends by done. unfold appended.
  destruct (write_spec e x) as [cs|] eqn:E; [|done]. intros [= <-]. by exists x.
Qed.

(** The type before it in scope is the one of the final environment. *)
Lemma env_impl_entry e1 m ti t :
  hm_get [m] e1 = p2p_entry m -> p2p_entry m = Some (ti, t) -> env_impl e1 [m] = ti.
Proof. intros E1 E2. unfold env_impl. by rewrite E1, E2. Qed.

Lemma entry_exists input : input ∈ Decl.all ->
  exists ti t, p2p_entry (d_ident input) = Some (ti, t).
Proof.
  intros Hin. pose proof p2p_entries as Hall. rewrite forallb_forall in Hall.
  specialize (Hall input (proj1 (list_elem_of_In _ _) Hin)).
  destruct (p2p_entry (d_ident input)) as [[ti t]|]; [by exists ti, t|done].
Qed.

Lemma peer_response_impl : exists inner ti t t',
  p2p_entry "PeerMessage" = Some (ti, t) /\
  p2p_entry "PeerMessageResponse" = Some
    (mkImpl (EBoundedDynamic MESSAGE_MAX_SIZE inner)
       (bounded_dynamic MESSAGE_MAX_SIZE
          (nom_map (field "message" (ti_nom_read ti))
             (fun v => build_struct ["message"%string] [v]))), t').
Proof.
  destruct (p2p_entry_split "PeerMessageResponse"
    (DDynamic (Some "MESSAGE_MAX_SIZE"%string)
       (DStruct "PeerMessageResponse" [("message"%string, Some (DPath ["PeerMessage"%string]))]))
    (take 29 (zip (d_ident <$> Decl.all) trees)) []) as (e1 & enc & p & He & Henc & Hp & Hrest);
    [reflexivity|apply not_elem_of_nil|].
  cbn [generate_encoding generate_nom_read encoded_fields opt_map mbind option_bind fst snd] in Henc, Hp.
  injection Henc as <-. injection Hp as <-.
  destruct (entry_exists Decl.PeerMessage) as (ti & t & Et); [do 28 right; left|].
  change (d_ident Decl.PeerMessage) with "PeerMessage"%string in Et.
  rewrite (env_impl_entry e1 "PeerMessage" ti t) in He; [|apply Hrest|done].
  - eexists _, ti, t, _. split; [done|]. exact He.
  - by intros [?|[]%not_elem_of_nil]%elem_of_cons.
Qed.

Lemma peer_message_impl : exists enc ts t,
  p2p_entry "PeerMessage" = Some (mkImpl enc (generate_enum_nom_read "PeerMessage" NU16 true ts), t) /\
  (fun t => t.1.1) <$> ts =
    [0x01; 0x03; 0x04; 0x05; 0x02; 0x10; 0x11; 0x12; 0x13; 0x14; 0x20; 0x21; 0x30; 0x31;
     0x40; 0x41; 0x60; 0x61].
Proof.
  destruct (p2p_entry_split "PeerMessage" (default DUnit (trees !! 28%nat))
    (take 28 (zip (d_ident <$> Decl.all) trees)) (drop 29 (zip (d_ident <$> Decl.all) trees)))
    as (e1 & enc & p & He & _ & Hp & _); [reflexivity| |].
  { by intros [?|[]%not_elem_of_nil]%elem_of_cons. }
  injection Hp as <-. eexists _, _, _. split; [exact He|]. reflexivity.
Qed.

Lemma metadata_impl : exists p t,
  p2p_entry "MetadataMessage" = Some
    (mkImpl (EObj "MetadataMessage" [("disable_mempool"%string, EBool); ("private_node"%string, EBool)])
       p, t).
Proof. split_at 2%nat. eauto. Qed.

Lemma nack_motive_impl : exists i2t v2i p t,
  p2p_entry "NackMotive" = Some (mkImpl (ETags 2 i2t v2i) p, t) /\
  Forall (fun kt => kt.2.2 = EUnit) i2t.
Proof.
  split_at 3%nat. eexists _, _, _, _. split; [exact He|]. repeat constructor.
Qed.

Lemma nack_info_impl : exists inner ti t p t',
  p2p_entry "NackMotive" = Some (ti, t) /\
  p2p_entry "NackInfo" = Some
    (mkImpl (EObj "NackInfo" [("motive"%string, ti_encoding ti);
               ("potential_peers_to_connect"%string, EDynamic inner)]) p, t').
Proof.
  split_at 4%nat. destruct (entry_exists Decl.NackMotive) as (ti & t & Et); [do 3 right; left|].
  change (d_ident Decl.NackMotive) with "NackMotive"%string in Et.
  rewrite (env_impl_entry e1 "NackMotive" ti t) in He; [|apply Hrest|done].
  - eexists _, ti, t, _, _. split; [done|]. exact He.
  - apply (bool_decide_unpack _). vm_compute. exact I.
Qed.

Lemma ack_impl : exists ti t p e1,
  p2p_entry "NackInfo" = Some (ti, t) /\
  p2p_entry "AckMessage" = Some
    (mkImpl (ETags 1 [(1, (1, "Nack"%string, ti_encoding ti)); (255, (255, "NackV0"%string, EUnit));
                      (0, (0, "Ack"%string, EUnit))]
               [("Nack"%string, 1); ("NackV0"%string, 255); ("Ack"%string, 0)]) p,
     derived_spec no_default (env_spec e1) (default DUnit (trees !! 5%nat))).
Proof.
  split_at 5%nat. destruct (entry_exists Decl.NackInfo) as (ti & t & Et); [do 4 right; left|].
  change (d_ident Decl.NackInfo) with "NackInfo"%string in Et.
  rewrite (env_impl_entry e1 "NackInfo" ti t) in He; [|apply Hrest|done].
  - exists ti, t, p, e1. split; [done|]. exact He.
  - apply (bool_decide_unpack _). vm_compute. exact I.
Qed.

Lemma unit_tags_size i2t v2i x bs :
  Forall (fun kt => kt.2.2 = EUnit) i2t -> write_spec (ETags 2 i2t v2i) x = Ok bs -> zlen bs = 2.
Proof.
  intros Hall. cbn [write_spec]. destruct x; try done.
  - destruct name as [name|]; [|done]. cbn [ok_or lift map_err mbind result_bind].
    destruct (find_by_variant _ name) as [tg|]; [|done]. intros [= <-]. apply zlen_be_bytes.
  - destruct (hm_get variant v2i) as [id|]; [|done]. rewrite hm_get_with_spec.
    destruct (hm_get id i2t) as [tg|] eqn:Eg; [|done].
    assert (He : tg.2 = EUnit).
    { clear -Hall Eg. induction i2t as [|[k t'] i2t IH]; [done|]. simpl in Eg.
      inversion Hall as [|? ? Ht Hl]; subst. case_decide; [by simplify_eq|by apply IH]. }
    cbn [fmap option_fmap option_map]. rewrite He. cbn [tag_bytes write_spec].
    simpl. intros [= <-]. rewrite app_nil_r. apply zlen_be_bytes.
Qed.

Lemma nack_info_bytes ti t x bs :
  p2p_entry "NackInfo" = Some (ti, t) -> write_spec (ti_encoding ti) x = Ok bs ->
  exists m cs, bs = m ++ be_bytes 4 (zlen cs) ++ cs /\ zlen m = 2 /\ 0 <= zlen cs < 2 ^ 32.
Proof.
  intros He Hx. destruct nack_info_impl as (inner & ti1 & t1 & p & t2 & E1 & E2).
  rewrite He in E2. injection E2 as -> ->.
  destruct nack_motive_impl as (i2t & v2i & p' & t3 & E3 & Hall). rewrite E1 in E3.
  injection E3 as -> ->. cbn [ti_encoding] in Hx. remember (ETags 2 i2t v2i) as em.
  cbn [write_spec record_spec] in Hx. destruct x; try done.
  destruct (find_value_in_record_values "motive" fields) as [xm|]; [|done].
  cbn [ok_or lift map_err mbind result_bind] in Hx.
  destruct (write_spec em xm) as [m|] eqn:Em; [|done]. cbn [map_err mbind result_bind] in Hx.
  subst em. apply unit_tags_size in Em; [|done]. unfold guard_size in Hx.
  destruct (zlen ([] ++ m) <=? usize_max); [|done]. cbn [mbind result_bind] in Hx.
  destruct (find_value_in_record_values "potential_peers_to_connect" fields) as [xp|]; [|done].
  cbn [ok_or lift map_err mbind result_bind] in Hx.
  destruct (write_spec inner xp) as [cs|]; [|done]. cbn [map_err mbind result_bind] in Hx.
  destruct (block_bytes cs) as [ds|] eqn:Eb; [|done]. cbn [map_err mbind result_bind] in Hx.
  apply block_bytes_inv in Eb as [-> Hr]. destruct (_ <=? usize_max); [|done].
  injection Hx as <-. exists m, cs. done.
Qed.

Lemma mempool_impl : exists p t,
  p2p_entry "Mempool" = Some
    (mkImpl (EBounded MEMPOOL_MAX_SIZE (EObj "Mempool"
       [("known_valid"%string, EDynamic (EList (EHash OperationHash)));
        ("pending"%string, EDynamic (EDynamic (EList (EHash OperationHash))))])) p, t).
Proof.
  split_at 15%nat.
  assert (Eo : p2p_entry "OperationHash" = hm_get ["OperationHash"%string] base_env).
  { apply p2p_entry_base. apply (bool_decide_unpack _). vm_compute. exact I. }
  rewrite (env_impl_entry e1 "OperationHash" (hash_impl OperationHash)
             (mkSpec true true (is_hash OperationHash))) in He.
  - eexists _, _. exact He.
  - apply Hrest. apply (bool_decide_unpack _). vm_compute. exact I.
  - exact Eo.
Qed.

Lemma hashes_written t l : Forall (is_hash t) l ->
  exists xs bss, try_map serialize l = Ok xs /\
    try_map (fun v => map_err element_of (write_spec (EHash t) v)) xs = Ok bss /\
    zlen (concat bss) = hash_size t * zlen l.
Proof.
  induction 1 as [|v l (h & -> & Hb & Hl) _ (xs & bss & Hxs & Hbs & Hz)].
  - exists [], []. split; [done|]. split; [done|]. unfold zlen. simpl. lia.
  - exists (VList (map VUint8 h) :: xs), (h :: bss). cbn [try_map]. rewrite Hxs.
    cbn [serialize]. rewrite serialize_u8s. split; [done|].
    cbn [write_spec]. rewrite u8_values_bytes by done. cbn [mbind result_bind].
    rewrite Hl, Z.eqb_refl. cbn [map_err mbind result_bind]. cbn [write_spec] in Hbs. rewrite Hbs.
    split; [done|]. cbn [concat]. rewrite zlen_app, zlen_cons, Hz. lia.
Qed.

(** A refusal without motive and without peers. *)
Definition nack : rval :=
  RNewtypeVariant 2 "Nack"
    (RStruct [("motive", RUnitVariant 0 "NoMotive"); ("potential_peers_to_connect", RSeq [])]%string).

Lemma env_spec_entry e1 m ti t :
  hm_get [m] e1 = p2p_entry m -> p2p_entry m = Some (ti, t) -> env_spec e1 [m] = Some t.
Proof. intros E1 E2. unfold env_spec. by rewrite E1, E2. Qed.

Lemma nack_value : message_value "AckMessage" nack.
Proof.
  split_at 3%nat. clear Hp Hrest. rename He into Hm, p into pm, e1 into em.
  split_at 4%nat. clear Hp. rename He into Hi, p into pi, Hrest into Hri, e1 into ei.
  split_at 5%nat. unfold message_value. rewrite He. right. right. left.
  eexists. split; [reflexivity|]. cbn [typed].
  erewrite (env_spec_entry e1 "NackInfo"); [|apply Hrest|exact Hi].
  2:{ apply (bool_decide_unpack _). vm_compute. exact I. }
  eexists. split; [reflexivity|]. split; [reflexivity|]. cbn [typed fields_typed].
  erewrite (env_spec_entry ei "NackMotive"); [|apply Hri|exact Hm].
  2:{ apply (bool_decide_unpack _). vm_compute. exact I. }
  split; [by left|]. split; [reflexivity|]. split; [|exact I].
  exists []. split; [reflexivity|constructor].
Qed.

Lemma peer_response_bytes ti t v bs :
  p2p_entry "PeerMessageResponse" = Some (ti, t) -> as_bytes ti v = Ok bs ->
  exists cs, bs = be_bytes 4 (zlen cs) ++ cs /\ 0 <= zlen cs < 2 ^ 32 /\ zlen cs <= MESSAGE_MAX_SIZE.
Proof.
  intros He Hb. pose proof (p2p_entry_Codec _ _ _ He) as [Hc _].
  destruct (write_inv v (ti_encoding ti) bs Hc Hb) as (x & _ & Hx).
  destruct peer_response_impl as (inner & tp & t1 & t2 & _ & He'). rewrite He in He'.
  injection He' as -> ->. cbn [ti_encoding write_spec] in Hx.
  destruct (write_spec inner x) as [cs|]; [|done]. cbn [mbind result_bind] in Hx.
  destruct (Z.ltb_spec MESSAGE_MAX_SIZE (zlen cs)); [done|].
  apply block_bytes_inv in Hx as [-> Hr]. by exists cs.
Qed.
End Facts.

(** (C2) Decoding and encoding are inverse: a message type's reader accepts a
    byte string exactly when it is what the writer makes of some value of the
    type, and that value is the one it returns.  In particular every value read
    from the network has its declared type and is sent on byte for byte, and no
    two byte strings mean the same message.  Values have hashes of their sizes,
    also in [Path]s ([is_path]). *)
Theorem message_decode_canonical
  `{BytesCrate, BitVecCrate, HexCrate, UnicodeTables, BigIntCrate, NomCrate, SynCrate}
  (name : string) (ti : type_impl) (t : type_spec) (v : rval) (bs : bytes) :
  p2p_entry name = Some (ti, t) -> slice bs ->
  (from_bytes ti bs = Ok v <-> message_value name v /\ as_bytes ti v = Ok bs).
Proof.
  intros He Hs. pose proof (p2p_entry_Codec _ _ _ He) as Hc. unfold message_value. rewrite He. split.
  - apply canonical_bytes; [by apply (p2p_entry_canonical name)|done].
  - intros [Hv Hb]. pose proof (codec_bytes v Hv) as Hr. by rewrite Hb in Hr.
Qed.

(** Every message survives the trip: its bytes are read back as the same
    value, and when they fit in a chunk, the chunk is accepted by both
    constructors and its content is read back too; longer messages are refused
    by [from_content]. *)
Theorem message_chunk_roundtrip
  `{BytesCrate, BitVecCrate, HexCrate, UnicodeTables, BigIntCrate, NomCrate, SynCrate}
  (name : string) (ti : type_impl) (t : type_spec) (v : rval) :
  p2p_entry name = Some (ti, t) -> message_value name v ->
  match as_bytes ti v with
  | Err er => limit_error (kind er) = true
  | Ok bs =>
      from_bytes ti bs = Ok v /\
      if zlen bs <=? CONTENT_LENGTH_MAX then
        exists c, from_content bs = Ok c /\ from_raw (raw c) = Ok c /\ try_from (raw c) = Ok c /\
          from_bytes ti (content c) = Ok v
      else from_content bs = Err OverflowError
  end.
Proof.
  intros He Hv. unfold message_value in Hv. rewrite He in Hv.
  pose proof (p2p_entry_Codec _ _ _ He) as Hc. pose proof (codec_bytes v Hv) as Hb.
  destruct (as_bytes ti v) as [bs|]; [|done]. split; [done|].
  destruct (Z.leb_spec (zlen bs) CONTENT_LENGTH_MAX) as [Hl|Hl].
  - destruct (chunk_of_content bs Hl) as (Hk1 & Hk2 & Hk3 & Hk4).
    exists (be_bytes 2 (zlen bs) ++ bs). by rewrite Hk4.
  - unfold from_content. by rewrite (proj2 (Z.leb_gt _ _) Hl).
Qed.

Lemma get_current_head_value :
  message_value "GetCurrentHeadMessage" (RStruct [("chain_id"%string, sample_hash 4)]).
Proof.
  vm_compute. eexists. split; [reflexivity|]. split; [reflexivity|]. split; [|done].
  exists [1; 1; 1; 1]. split; [reflexivity|]. split; [|reflexivity]. repeat constructor; done.
Qed.

Lemma get_current_head_entry : exists ti t, p2p_entry "GetCurrentHeadMessage" = Some (ti, t).
Proof.
  destruct (message_value_entry _ _ get_current_head_value) as (ti & t & E & _). by exists ti, t.
Qed.

Lemma message_decode_canonical_witness :
  let v := RStruct [("chain_id"%string, sample_hash 4)] in
  exists ti t, p2p_entry "GetCurrentHeadMessage" = Some (ti, t) /\ slice [1; 1; 1; 1] /\
    (from_bytes ti [1; 1; 1; 1] = Ok v <->
     message_value "GetCurrentHeadMessage" v /\ as_bytes ti v = Ok [1; 1; 1; 1]).
Proof.
  assert (Hs : slice [1; 1; 1; 1]) by (split; [repeat constructor; done|vm_compute; discriminate]).
  destruct get_current_head_entry as (ti & t & E). exists ti, t. split; [exact E|]. split; [exact Hs|].
  exact (message_decode_canonical "GetCurrentHeadMessage" ti t _ [1; 1; 1; 1] E Hs).
Defined.

Lemma message_chunk_roundtrip_witness :
  let v := RStruct [("chain_id"%string, sample_hash 4)] in
  exists ti t, p2p_entry "GetCurrentHeadMessage" = Some (ti, t) /\
    match as_bytes ti v with
    | Err er => limit_error (kind er) = true
    | Ok bs =>
        from_bytes ti bs = Ok v /\
        if zlen bs <=? CONTENT_LENGTH_MAX then
          exists c, from_content bs = Ok c /\ from_raw (raw c) = Ok c /\
            try_from (raw c) = Ok c /\ from_bytes ti (content c) = Ok v
        else from_content bs = Err OverflowError
    end.
Proof.
  destruct get_current_head_entry as (ti & t & E). exists ti, t. split; [exact E|].
  exact (message_chunk_roundtrip "GetCurrentHeadMessage" ti t _ E get_current_head_value).
Defined.

(** [from_raw] and [try_from] accept the same byte strings: exactly the
    chunks [from_content] makes of some content. *)
Theorem chunk_acceptance (r c : bytes) :
  are_bytes r ->
  (from_raw r = Ok c <-> try_from r = Ok c) /\
  (from_raw r = Ok c <-> c = r /\ exists l, from_content l = Ok r /\ l = content r).
Proof.
  intros Hb.
  assert (Hchunk : 2 <= zlen r -> get_u16 r = zlen r - 2 ->
    from_content (content r) = Ok r /\ from_raw r = Ok r /\ try_from r = Ok r).
  { intros Hl Hu. pose proof (chunk_shape r Hb Hl Hu) as Hs. pose proof (get_u16_range r Hb) as Hr.
    destruct (chunk_of_content (drop 2 r)) as (H1 & H2 & H3 & _).
    - unfold CONTENT_LENGTH_MAX, zlen in *. rewrite length_drop. lia.
    - rewrite <- Hs in *. auto. }
  split; split.
  - intros (-> & Hl & Hu)%from_raw_inv. by apply Hchunk.
  - intros (-> & Hl & Hu)%try_from_inv. by apply Hchunk.
  - intros (-> & Hl & Hu)%from_raw_inv. split; [done|]. exists (content r). by split; [apply Hchunk|].
  - intros (-> & l & Hl & ->). revert Hl. unfold from_content at 1.
    destruct (Z.leb_spec (zlen (content r)) CONTENT_LENGTH_MAX) as [Hm|]; [|done]. intros [= Hr].
    destruct (chunk_of_content (content r) Hm) as (_ & H2 & _). by rewrite Hr in H2.
Qed.

Lemma chunk_acceptance_witness :
  (from_raw [0; 2; 7; 8] = Ok [0; 2; 7; 8] <-> try_from [0; 2; 7; 8] = Ok [0; 2; 7; 8]) /\
  (from_raw [0; 2; 7; 8] = Ok [0; 2; 7; 8] <->
     [0; 2; 7; 8] = [0; 2; 7; 8] /\
     exists l, from_content l = Ok [0; 2; 7; 8] /\ l = content [0; 2; 7; 8]).
Proof. apply (chunk_acceptance [0; 2; 7; 8] [0; 2; 7; 8]). repeat constructor; done. Defined.

(** No reader panics: whatever the parser and the bytes, [complete_input]
    and [from_bytes]'s [all_consuming_complete_input] return a value or an
    error. *)
Theorem readers_never_panic `{NomCrate} (A : Type) (p : parser A) (i : bytes) :
  complete_input p i <> Err ReaderPanicked /\
  all_consuming_complete_input p i <> Err ReaderPanicked.
Proof.
  unfold complete_input, all_consuming_complete_input, map_nom_error.
  rewrite !nom_finish_ok, nom_all_consuming_ok, nom_complete_ok.
  split; destruct (p i) as [[[|] a]|[| |]]; simpl; try done;
    by destruct (get_unknown_tag _).
Qed.

Example readers_never_panic_witness :
  complete_input size [] <> Err ReaderPanicked /\
  all_consuming_complete_input size [] <> Err ReaderPanicked.
Proof. apply (readers_never_panic Z size []). Defined.

(** The size of a peer message predicted from any prefix of its bytes that
    holds the length field is the size of the whole message. *)
Theorem peer_size_exact
  `{BytesCrate, BitVecCrate, HexCrate, UnicodeTables, BigIntCrate, NomCrate, SynCrate}
  (ti : type_impl) (t : type_spec) (v : rval) (bs : bytes) (n : nat) :
  p2p_entry "PeerMessageResponse" = Some (ti, t) -> as_bytes ti v = Ok bs -> (4 <= n)%nat ->
  peer_size_from_chunk (take n bs) = Ok (zlen bs).
Proof.
  intros He Hb Hn. destruct (peer_response_bytes ti t v bs He Hb) as (cs & -> & Hr & _).
  assert (Hs : take n (be_bytes 4 (zlen cs) ++ cs) = be_bytes 4 (zlen cs) ++ take (n - 4) cs).
  { rewrite take_app_ge by (rewrite be_bytes_length; lia). by rewrite be_bytes_length. }
  unfold peer_size_from_chunk, peer_message_size.
  rewrite Hs, (complete_read size _ _ _ (size_back (zlen cs) (take (n - 4) cs) Hr)).
  simpl. rewrite zlen_app, zlen_be_bytes. f_equal. lia.
Qed.

Definition disconnect : rval := RStruct [("message"%string, RUnitVariant 0 "Disconnect")].

Lemma disconnect_written : exists ti t, p2p_entry "PeerMessageResponse" = Some (ti, t) /\
  as_bytes ti disconnect = Ok [0; 0; 0; 2; 0; 1].
Proof.
  destruct (entry_exists Decl.PeerMessageResponse) as (ti & t & E); [do 29 right; left|].
  exists ti, t. split; [exact E|].
  assert (Hb : match p2p_entry "PeerMessageResponse" with
               | Some (ti, _) => as_bytes ti disconnect = Ok [0; 0; 0; 2; 0; 1]
               | None => False end) by (vm_compute; reflexivity).
  change (d_ident Decl.PeerMessageResponse) with "PeerMessageResponse"%string in E.
  by rewrite E in Hb.
Qed.

Lemma peer_size_exact_witness :
  peer_size_from_chunk [0; 0; 0; 2] = Ok (zlen [0; 0; 0; 2; 0; 1]).
Proof.
  destruct disconnect_written as (ti & t & E & Hb).
  exact (peer_size_exact ti t disconnect [0; 0; 0; 2; 0; 1] 4 E Hb (le_n 4)).
Defined.

(** A peer message with a tag no variant has: [PeerMessage::from_bytes]
    reports it as an unknown tag, as [ignore_unknown] asks, but the message that
    is exchanged, [PeerMessageResponse], reports a plain error: the field
    context added around the error hides the tag from [get_unknown_tag]. *)
Theorem unknown_tag_hidden
  `{BytesCrate, BitVecCrate, HexCrate, UnicodeTables, BigIntCrate, NomCrate, SynCrate}
  (ti ti' : type_impl) (t t' : type_spec) (tag : Z) (payload : bytes) :
  p2p_entry "PeerMessage" = Some (ti, t) -> p2p_entry "PeerMessageResponse" = Some (ti', t') ->
  0 <= tag < 2 ^ 16 ->
  tag ∉ [0x01; 0x02; 0x03; 0x04; 0x05; 0x10; 0x11; 0x12; 0x13; 0x14; 0x20; 0x21; 0x30; 0x31;
         0x40; 0x41; 0x60; 0x61] ->
  2 + zlen payload <= MESSAGE_MAX_SIZE ->
  from_bytes ti (be_bytes 2 tag ++ payload) = Err (UnknownTag (format_tag tag)) /\
  from_bytes ti' (be_bytes 4 (2 + zlen payload) ++ be_bytes 2 tag ++ payload) =
    Err (ReaderError (add_field "message" (unknown_tag payload (format_tag tag)))).
Proof.
  intros He He' Htag Hnin Hl. destruct peer_message_impl as (enc & ts & t1 & E1 & Hids).
  destruct peer_response_impl as (inner & ti2 & t2 & t3 & E2 & E3).
  rewrite He in E1, E2. rewrite He' in E3. injection E3 as -> ->. injection E2 as <- <-.
  injection E1 as -> ->.
  assert (Hsel : forall ts i, (forall id, id ∈ ((fun t => t.1.1) <$> ts) -> tag <> id) ->
    select_tag "PeerMessage" true i tag ts payload =
      Err (NFailure (unknown_tag payload (format_tag tag)))).
  { clear. induction ts as [|[[id n] r] ts IH]; intros i Hall; [done|]. cbn [select_tag].
    destruct (Z.eqb_spec tag id) as [->|]; [by destruct (Hall id); [left|]|].
    apply IH. intros id' Hid. apply Hall. by right. }
  assert (Hread : generate_enum_nom_read "PeerMessage" NU16 true ts (be_bytes 2 tag ++ payload) =
    Err (NFailure (unknown_tag payload (format_tag tag)))).
  { unfold generate_enum_nom_read. rewrite (number_back NU16 tag payload) by done. apply Hsel.
    rewrite Hids. intros id Hid ->. apply Hnin. clear -Hid.
    rewrite !elem_of_cons in *. tauto. }
  split.
  - unfold from_bytes, all_consuming_complete_input. cbn [ti_nom_read].
    by rewrite nom_all_consuming_ok, nom_complete_ok, Hread, nom_finish_ok.
  - unfold from_bytes, all_consuming_complete_input. cbn [ti_nom_read].
    pose proof (zlen_nonneg payload) as Hz.
    assert (Hm : MESSAGE_MAX_SIZE < 2 ^ 32) by (vm_compute; reflexivity).
    assert (Hlen : zlen (be_bytes 2 tag ++ payload) = 2 + zlen payload).
    { rewrite zlen_app, zlen_be_bytes. lia. }
    rewrite nom_all_consuming_ok, nom_complete_ok. unfold bounded_dynamic.
    assert (Hrange : 0 <= 2 + zlen payload < 2 ^ 32) by (clear -Hz Hl Hm; lia).
    rewrite nom_length_value_ok, (bounded_size_back _ _ _ _ Hrange Hl).
    rewrite Hlen, Z.ltb_irrefl, nom_all_consuming_ok, nom_map_ok. unfold field.
    rewrite take_ge by (clear -Hlen; unfold zlen in *; lia). rewrite Hread. simpl.
    by rewrite nom_finish_ok.
Qed.

Lemma unknown_tag_hidden_witness :
  exists ti ti' t t', p2p_entry "PeerMessage" = Some (ti, t) /\
    p2p_entry "PeerMessageResponse" = Some (ti', t') /\
    from_bytes ti (be_bytes 2 0x50 ++ [7]) = Err (UnknownTag (format_tag 0x50)) /\
    from_bytes ti' (be_bytes 4 (2 + zlen [7]) ++ be_bytes 2 0x50 ++ [7]) =
      Err (ReaderError (add_field "message" (unknown_tag [7] (format_tag 0x50)))).
Proof.
  destruct peer_response_impl as (inner & ti & t & t' & E & E'). eexists ti, _, t, t'.
  split; [exact E|]. split; [exact E'|]. apply (unknown_tag_hidden ti _ t t' 0x50 [7] E E').
  - lia.
  - apply (bool_decide_unpack _). vm_compute. exact I.
  - vm_compute. done.
Defined.

(** The size of an [AckMessage] predicted by [size_from_chunk]: right for
    [Ack] and [NackV0], four bytes short for every [Nack], since the length field
    itself is not counted. *)
Theorem ack_size_short
  `{BytesCrate, BitVecCrate, HexCrate, UnicodeTables, BigIntCrate, NomCrate, SynCrate}
  (ti : type_impl) (t : type_spec) (v : rval) (bs : bytes) :
  p2p_entry "AckMessage" = Some (ti, t) -> message_value "AckMessage" v -> as_bytes ti v = Ok bs ->
  ack_size_from_chunk bs =
    Ok (match v with RNewtypeVariant _ _ _ => zlen bs - 4 | _ => zlen bs end).
Proof.
  intros He Hv Hb. pose proof (p2p_entry_Codec _ _ _ He) as [Hc _].
  destruct (write_inv v (ti_encoding ti) bs Hc Hb) as (x & Hs & Hx).
  destruct ack_impl as (ti1 & t1 & p & e1 & E1 & E2). rewrite He in E2. injection E2 as -> ->.
  apply message_value_entry in Hv as (ti2 & t2 & E3 & Hv). rewrite He in E3.
  injection E3 as <- <-. cbn [ti_encoding] in Hx.
  destruct Hv as [->|[->|[(w & -> & Hw)|[]]]].
  - injection Hs as <-. vm_compute in Hx. injection Hx as <-.
    apply (complete_read _ _ []). rewrite nom_alt3_ok, !nom_preceded_ok.
    by rewrite (nom_tag_ok [0] []), nom_success_ok.
  - injection Hs as <-. vm_compute in Hx. injection Hx as <-.
    apply (complete_read _ _ []). rewrite nom_alt3_ok, !nom_preceded_ok.
    destruct (tag_byte 0 255 []) as [er Er]; [done|]. rewrite Er.
    by rewrite (nom_tag_ok [255] []), nom_success_ok.
  - cbn [serialize] in Hs. destruct (serialize w) as [y|]; [|done]. injection Hs as <-.
    change ((bs ← write_spec (ti_encoding ti1) y; Ok (be_bytes 1 1 ++ bs)) = Ok bs) in Hx.
    destruct (write_spec (ti_encoding ti1) y) as [cs|] eqn:Ec; [|done].
    injection Hx as <-. destruct (nack_info_bytes ti1 t1 y cs E1 Ec) as (m & ds & -> & Hm & Hd).
    rewrite be_byte by (unfold is_byte; lia).
    assert (Hz : zlen ([1] ++ m ++ be_bytes 4 (zlen ds) ++ ds) - 4 = zlen ds + 3).
    { rewrite !zlen_app, zlen_be_bytes, Hm. change (zlen [1]) with 1. lia. }
    rewrite Hz. apply (complete_read _ _ ds). rewrite nom_alt3_ok, !nom_preceded_ok.
    destruct (tag_byte 0 1 (m ++ be_bytes 4 (zlen ds) ++ ds)) as [er Er]; [done|].
    destruct (tag_byte 255 1 (m ++ be_bytes 4 (zlen ds) ++ ds)) as [er' Er']; [done|].
    change ([1] ++ ?l) with (1 :: l). rewrite Er, Er'.
    change (1 :: ?l) with ([1] ++ l). rewrite nom_tag_ok, nom_map_ok, nom_preceded_ok.
    by rewrite nom_take_ok, size_back.
Qed.

Lemma nack_written : exists ti t, p2p_entry "AckMessage" = Some (ti, t) /\
  as_bytes ti nack = Ok [1; 0; 0; 0; 0; 0; 0].
Proof.
  destruct (message_value_entry _ _ nack_value) as (ti & t & E & _). exists ti, t.
  split; [exact E|].
  assert (Hb : match p2p_entry "AckMessage" with
               | Some (ti, _) => as_bytes ti nack = Ok [1; 0; 0; 0; 0; 0; 0]
               | None => False end) by (vm_compute; reflexivity).
  by rewrite E in Hb.
Qed.

Lemma ack_size_short_witness : ack_size_from_chunk [1; 0; 0; 0; 0; 0; 0] = Ok 3.
Proof.
  destruct nack_written as (ti & t & E & Hb).
  exact (ack_size_short ti t nack [1; 0; 0; 0; 0; 0; 0] E nack_value Hb).
Defined.

(** The size [MetadataMessage::size_from_chunk] answers is the size of every
    metadata message. *)
Theorem metadata_size_exact
  `{BytesCrate, BitVecCrate, HexCrate, UnicodeTables, BigIntCrate, NomCrate, SynCrate}
  (ti : type_impl) (t : type_spec) (v : rval) (bs chunk : bytes) :
  p2p_entry "MetadataMessage" = Some (ti, t) -> as_bytes ti v = Ok bs ->
  metadata_size_from_chunk chunk = Ok (zlen bs).
Proof.
  intros He Hb. pose proof (p2p_entry_Codec _ _ _ He) as [Hc _].
  destruct (write_inv v (ti_encoding ti) bs Hc Hb) as (x & _ & Hx).
  destruct metadata_impl as (p & t' & E). rewrite He in E. injection E as -> ->.
  cbn [ti_encoding write_spec record_spec] in Hx. destruct x; try done.
  destruct (find_value_in_record_values "disable_mempool" fields) as [[]|]; try done.
  destruct (find_value_in_record_values "private_node" fields) as [[]|]; try done;
    cbn in Hx; unfold guard_size in Hx; repeat (destruct (_ <=? usize_max); [|done]; cbn in Hx);
    try done.
  injection Hx as <-. unfold metadata_size_from_chunk. rewrite zlen_app, !zlen_be_bytes. done.
Qed.

Lemma metadata_written : exists ti t, p2p_entry "MetadataMessage" = Some (ti, t) /\
  as_bytes ti (RStruct [("disable_mempool", RBool true); ("private_node", RBool false)]%string) =
    Ok [255; 0].
Proof.
  destruct metadata_impl as (p & t & E). eexists _, t. split; [exact E|]. by vm_compute.
Qed.

Lemma metadata_size_exact_witness : metadata_size_from_chunk [] = Ok 2.
Proof.
  destruct metadata_written as (ti & t & E & Hb).
  exact (metadata_size_exact ti t _ [255; 0] [] E Hb).
Defined.

Definition mempool_rval (known pending : list rval) : rval :=
  RStruct [("known_valid", RSeq known); ("pending", RSeq pending)]%string.

(** A mempool is written when it is short enough. *)
Lemma mempool_writable
  `{BytesCrate, BitVecCrate, HexCrate, UnicodeTables, BigIntCrate, NomCrate, SynCrate}
  (ti : type_impl) (t : type_spec) (known pending : list rval) :
  p2p_entry "Mempool" = Some (ti, t) ->
  Forall (is_hash OperationHash) known -> Forall (is_hash OperationHash) pending ->
  (exists bs, as_bytes ti (mempool_rval known pending) = Ok bs) <->
  zlen known + zlen pending < MEMPOOL_MAX_OPERATIONS.
Proof.
  intros He Hk Hp. pose proof (p2p_entry_Codec _ _ _ He) as [Hc _].
  destruct (hashes_written _ _ Hk) as (xs & bss & Hxs & Hbss & Hz).
  destruct (hashes_written _ _ Hp) as (ys & css & Hys & Hcss & Hz').
  destruct mempool_impl as (p & t' & E). rewrite He in E. injection E as -> ->.
  unfold as_bytes, write. cbn [ti_encoding] in *.
  assert (Hs : serialize (mempool_rval known pending) =
    Ok (VRecord [("known_valid", VList xs); ("pending", VList ys)]%string)).
  { cbn [mempool_rval serialize try_map fst snd]. by rewrite Hxs, Hys. }
  rewrite Hs. change (lift (Ok ?x)) with (Ok (E := EncodingError) x). cbn [mbind result_bind].
  rewrite encode_any_value, encode_value_appends by done. unfold appended.
  remember (EHash OperationHash) as eh.
  cbn [write_spec record_spec].
  change (find_value_in_record_values "known_valid" _) with (Some (VList xs)).
  change (find_value_in_record_values "pending" _) with (Some (VList ys)).
  cbn [ok_or lift map_err mbind result_bind]. rewrite Hbss, Hcss.
  cbn [map_err mbind result_bind]. clear - Hz Hz'.
  pose proof (zlen_nonneg known). pose proof (zlen_nonneg pending).
  pose proof (zlen_nonneg (concat bss)). pose proof (zlen_nonneg (concat css)).
  change (hash_size OperationHash) with 32 in *.
  unfold block_bytes, guard_size, u32_max, usize_max, MEMPOOL_MAX_SIZE, MEMPOOL_MAX_OPERATIONS.
  change (8 + 4000 * hash_size OperationHash) with 128008.
  repeat (match goal with
          | |- context [if ?x <? ?y then _ else _] => destruct (Z.ltb_spec x y)
          | |- context [if ?x <=? ?y then _ else _] => destruct (Z.leb_spec x y)
          end; cbn [map_err mbind result_bind fail]);
    rewrite ?zlen_app, ?zlen_be_bytes in *; change (zlen (@nil Z)) with 0 in *;
    (split; [intros [bs Hbs]; try discriminate Hbs; lia|intros; try lia; eauto]).
Qed.

(** A mempool can be written exactly when it holds fewer than
    [MEMPOOL_MAX_OPERATIONS] operations: [MEMPOOL_MAX_SIZE] leaves eight bytes
    for the three length fields, which take twelve. *)
Theorem mempool_capacity
  `{BytesCrate, BitVecCrate, HexCrate, UnicodeTables, BigIntCrate, NomCrate, SynCrate}
  (ti : type_impl) (t : type_spec) (known pending : list rval) :
  p2p_entry "Mempool" = Some (ti, t) ->
  Forall (is_hash OperationHash) known -> Forall (is_hash OperationHash) pending ->
  (exists bs, as_bytes ti (mempool_rval known pending) = Ok bs) <->
  zlen known + zlen pending < MEMPOOL_MAX_OPERATIONS.
Proof. apply mempool_writable. Qed.

Lemma sample_operation_hash : Forall (is_hash OperationHash) [sample_hash 32].
Proof.
  constructor; [|constructor]. exists (repeat 1 32). split; [reflexivity|]. split; [|reflexivity].
  repeat constructor; unfold is_byte; lia.
Qed.

Lemma mempool_capacity_witness :
  exists ti t, p2p_entry "Mempool" = Some (ti, t) /\
    ((exists bs, as_bytes ti (mempool_rval [] [sample_hash 32]) = Ok bs) <->
     zlen (@nil rval) + zlen [sample_hash 32] < MEMPOOL_MAX_OPERATIONS).
Proof.
  destruct mempool_impl as (p & t & E). eexists _, t. split; [exact E|].
  exact (mempool_capacity _ t [] [sample_hash 32] E (List.Forall_nil _) sample_operation_hash).
Defined.
