(* ===== verification/ChunkStream.v ===== *)
(** * Encrypted message streams
    ([p2p_fuzzer/src/bin/p2p_fuzzer.rs], [generator/src/lib.rs])

    How messages travel: [write_msg] cuts the bytes of a message into pieces,
    encrypts each with the next nonce and sends them as chunks, [ChunkBuffer]
    cuts the incoming byte stream into chunks again and [read_msg] decrypts and
    joins them.  The socket and the random generator are third-party code and
    classes here: a socket delivers the bytes still to come in pieces of any
    size.  The theorems: whatever the pieces, messages arrive; except that a first
    chunk too short for the length makes the receiver panic, that a chunk of the
    largest size never leaves the buffer, and that a connection
    closed in the middle of a chunk is read forever. *)

From Stdlib Require Import ZArith Lia List Bool Permutation String.
From stdpp Require Import base option list numbers.
From S2P Require Import Prelude Extern BitUtils CryptoHash Nonce Types Serializer BinaryWriter WriterSpec NomCrate NomReader DeriveMake Derive RoundTrip DerivedCodec MerklePath Messages BinaryMessage ExternRef Zarith.

(** ** Third-party code *)

(** A connected socket.  [pending s]: the bytes that will arrive before the other
    end closes.  [healthy s]: no operation will fail. *)
Class TcpCrate : Type := {
  stream : Type;
  healthy : stream -> Prop;
  pending : stream -> bytes;
  sent : stream -> bytes;
  tcp_read : Z -> stream -> option (bytes * stream);
  tcp_write_all : bytes -> stream -> option stream;
  tcp_read_data n s : healthy s -> 0 < n -> pending s <> [] ->
    exists bs s', tcp_read n s = Some (bs, s') /\ bs <> [] /\ zlen bs <= n /\
      pending s = bs ++ pending s' /\ healthy s' /\ sent s' = sent s;
  tcp_read_none n s : healthy s -> n = 0 \/ pending s = [] ->
    exists s', tcp_read n s = Some ([], s') /\ pending s' = pending s /\ healthy s' /\
      sent s' = sent s;
  tcp_write_ok bs s : healthy s ->
    exists s', tcp_write_all bs s = Some s' /\ sent s' = sent s ++ bs /\ healthy s' /\
      pending s' = pending s;
}.

(** [rand]: [None] is a panic (an empty range, a probability out of range). *)
Class RandCrate : Type := {
  rng : Type;
  f64 : Type;
  rng_bool : f64 -> rng -> option (bool * rng);
  rng_range : Z -> Z -> rng -> option (Z * rng);
  rng_flag : rng -> bool * rng;
  rng_shuffle : list Z -> rng -> list Z * rng;
  rng_range_some lo hi r : lo < hi ->
    exists z r', rng_range lo hi r = Some (z, r') /\ lo <= z < hi;
  rng_range_none lo hi r : hi <= lo -> rng_range lo hi r = None;
  rng_shuffle_perm l r : Permutation (rng_shuffle l r).1 l;
}.

(** How an operation can end without a value. *)
Inductive stop : Type :=
| IoError
| UnexpectedEof
| DecryptError
| StopPanicked
| OutOfFuel.

(** ** [generator/src/lib.rs] *)
Definition MACBYTES : Z := 16.

Section Generator.
Context `{RandCrate, BigUintCrate, BoxCrate}.

Definition panics {A} (o : option A) : result stop A := ok_or o StopPanicked.

(** The sizes drawn by the loops of [gen_chunks] and [gen_byte_chunks]; a round
    takes at least one byte, so a round per byte is enough. *)
Fixpoint draw_sizes (rounds : nat) (bound : Z -> Z) (one : bool) (remaining : Z) (r : rng)
  : result stop (list Z * rng) :=
  match rounds with
  | O => Err OutOfFuel
  | S rounds =>
      if remaining <=? 1 then Ok ((if remaining =? 1 then [1] else []), r)
      else
        zr ← (if one then Ok (1, r) else panics (rng_range 1 (bound remaining) r));
        rest ← draw_sizes rounds bound one (remaining - zr.1) zr.2;
        Ok (zr.1 :: rest.1, rest.2)
  end.

(** Cuts [bs] into pieces of the given sizes; a slice out of range panics. *)
Fixpoint cut (sizes : list Z) (bs : bytes) : result stop (list bytes) :=
  match sizes with
  | [] => Ok []
  | n :: sizes =>
      if zlen bs <? n then Err StopPanicked
      else rest ← cut sizes (drop (Z.to_nat n) bs); Ok (take (Z.to_nat n) bs :: rest)
  end.

(** [key.encrypt(piece, nonce).unwrap()], the increment, [from_content(..).unwrap()]. *)
Fixpoint encrypt_pieces (key : bytes) (pieces : list bytes) (nonce : Nonce.t)
  : result stop (list BinaryChunk * Nonce.t) :=
  match pieces with
  | [] => Ok ([], nonce)
  | p :: pieces =>
      c ← map_err (fun _ => StopPanicked) (encrypt key p nonce);
      chunk ← map_err (fun _ => StopPanicked) (from_content c);
      rest ← encrypt_pieces key pieces (Nonce.increment nonce);
      Ok (chunk :: rest.1, rest.2)
  end.

Definition gen_chunks (max_chunk_size : Z) (bs key : bytes) (nonce : Nonce.t) (r : rng)
  : result stop (list BinaryChunk * Nonce.t * rng) :=
  let max_size := Z.min max_chunk_size (CONTENT_LENGTH_MAX - MACBYTES) in
  sr ← draw_sizes (S (length bs)) (fun remaining => Z.min remaining max_size) (max_size =? 1)
         (zlen bs) r;
  let (sizes, r) := rng_shuffle sr.1 sr.2 in
  pieces ← cut sizes bs;
  cn ← encrypt_pieces key pieces nonce;
  Ok (cn.1, cn.2, r).

Definition gen_byte_chunks (bs : bytes) (r : rng) : result stop (list bytes * rng) :=
  sr ← draw_sizes (S (length bs)) (fun remaining => remaining) false (zlen bs) r;
  let (sizes, r) := rng_shuffle sr.1 sr.2 in
  pieces ← cut sizes bs;
  Ok (pieces, r).
End Generator.

(** ** Writing ([p2p_fuzzer.rs]) *)
Section Writer.
Context `{RandCrate, BigUintCrate, BoxCrate, TcpCrate}.

Record ChunkOptions : Type := mkChunkOptions {
  flip_bits : f64; split_chunks : f64; split_bytes : f64; incomplete_send : f64;
  write_bytes_sleep : f64; write_bytes_sleep_ms : Z;
}.

(** An error of a write comes with the state of the random generator, which the
    next session goes on with; after a panic it means nothing. *)
Definition at_rng {A} (r : rng) (m : result stop A) : result (stop * rng) A := map_err (fun e => (e, r)) m.

Fixpoint write_pieces (options : ChunkOptions) (incomplete : bool) (pieces : list bytes)
  (r : rng) (s : stream) : result (stop * rng) (rng * stream) :=
  match pieces with
  | [] => Ok (r, s)
  | p :: pieces =>
      s ← at_rng r (ok_or (tcp_write_all p s) IoError);
      if incomplete then Ok (r, s)
      else
        br ← at_rng r (panics (rng_bool (write_bytes_sleep options) r));
        write_pieces options incomplete pieces br.2 s
  end.

Definition write_bytes (options : ChunkOptions) (bs : bytes) (r : rng) (s : stream)
  : result (stop * rng) (rng * stream) :=
  br ← at_rng r (panics (rng_bool (split_bytes options) r));
  pr ← at_rng br.2 (if (br.1 : bool) then gen_byte_chunks bs br.2 else Ok ([bs], br.2));
  ir ← at_rng pr.2 (panics (rng_bool (incomplete_send options) pr.2));
  write_pieces options ir.1 pr.1 ir.2 s.

Fixpoint write_chunks (options : ChunkOptions) (chunks : list BinaryChunk) (r : rng) (s : stream)
  : result (stop * rng) (rng * stream) :=
  match chunks with
  | [] => Ok (r, s)
  | c :: chunks => rs ← write_bytes options (raw c) r s; write_chunks options chunks rs.1 rs.2
  end.

(** The mutation: up to [flips] bytes get one bit inverted. *)
Fixpoint flip (bs : bytes) (flips : Z) (r : rng) : result stop (bytes * rng) :=
  match bs with
  | [] => Ok ([], r)
  | b :: bs =>
      let fr := if 0 <? flips then rng_flag r else (false, r) in
      if (fr.1 : bool) then
        zr ← panics (rng_range 0 8 fr.2);
        rest ← flip bs (flips - 1) zr.2;
        Ok (Z.lxor b (Z.shiftl 1 zr.1) :: rest.1, rest.2)
      else
        rest ← flip bs flips fr.2;
        Ok (b :: rest.1, rest.2)
  end.

(** [slice::chunks(n)]. *)
Fixpoint slice_chunks (rounds : nat) (n : Z) (bs : bytes) : list bytes :=
  match rounds, bs with
  | S rounds, _ :: _ => take (Z.to_nat n) bs :: slice_chunks rounds n (drop (Z.to_nat n) bs)
  | _, _ => []
  end.

Definition write_bytes_encrypted (max_chunk_size : Z) (options : ChunkOptions) (bs key : bytes)
  (nonce : Nonce.t) (r : rng) (s : stream) : result (stop * rng) (Nonce.t * rng * stream) :=
  br ← at_rng r (panics (rng_bool (flip_bits options) r));
  fr ← at_rng br.2 (if (br.1 : bool) then
          nr ← (if 0 <? zlen bs
                then panics (rng_range 0 (zlen bs) br.2)
                else Ok (0, br.2));
          flip bs (Z.shiftr nr.1 3) nr.2
        else Ok (bs, br.2));
  let bs := fr.1 in
  sr ← at_rng fr.2 (panics (rng_bool (split_chunks options) fr.2));
  cnr ← at_rng sr.2 (if (sr.1 : bool) then gen_chunks max_chunk_size bs key nonce sr.2
         else
           cn ← encrypt_pieces key (slice_chunks (length bs) (CONTENT_LENGTH_MAX - MACBYTES) bs) nonce;
           Ok (cn.1, cn.2, sr.2));
  rs ← write_chunks options cnr.1.1 cnr.2 s;
  Ok (cnr.1.2, rs.1, rs.2).
End Writer.

(** ** Reading ([p2p_fuzzer.rs]) *)
Definition BUFFER_SIZE : Z := 0x10000.

Module ChunkBuffer.
Record t : Type := mk { len : Z; data : bytes }.

Definition default : t := mk 0 (replicate (Z.to_nat BUFFER_SIZE) 0).

Definition is_empty (b : t) : bool := len b =? 0.

(** [for i in raw_len..len { data[i - raw_len] = data[i] }], [count] rounds from [i]. *)
Fixpoint shift (count : nat) (i raw_len : nat) (data : bytes) : bytes :=
  match count with
  | O => data
  | S count => shift count (S i) raw_len (<[(i - raw_len)%nat := nth i data 0]> data)
  end.

(** What a read puts at [data[len..]]. *)
Definition store (b : t) (bs : bytes) : t :=
  mk (len b + zlen bs)
     (take (Z.to_nat (len b)) (data b) ++ bs ++ drop (Z.to_nat (len b + zlen bs)) (data b)).

(** The first chunk, when it is complete. *)
Definition take_chunk (b : t) : option (result stop (BinaryChunk * t)) :=
  if 2 <=? len b then
    let chunk_len := be_val [nth 0 (data b) 0; nth 1 (data b) 0] in
    let raw_len := chunk_len + 2 in
    if raw_len <=? len b then
      let chunk := take (Z.to_nat raw_len) (data b) in
      let data := shift (Z.to_nat (len b - raw_len)) (Z.to_nat raw_len) (Z.to_nat raw_len) (data b) in
      Some (chunk ← map_err (fun _ => StopPanicked) (try_from chunk);
            Ok (chunk, mk (len b - raw_len) data))
    else None
  else None.

Section Read.
Context `{TcpCrate}.

Fixpoint read_chunk (fuel : nat) (retry : Z) (b : t) (s : stream)
  : result stop (BinaryChunk * t * stream) :=
  match fuel with
  | O => Err OutOfFuel
  | S fuel =>
      match take_chunk b with
      | Some r => cb ← r; Ok (cb.1, cb.2, s)
      | None =>
          rs ← ok_or (tcp_read (BUFFER_SIZE - len b) s) IoError;
          let b := store b rs.1 in
          if len b =? 0 then
            if 2 <? retry then Err UnexpectedEof
            else read_chunk fuel (retry + 1) b rs.2
          else read_chunk fuel retry b rs.2
      end
  end.
End Read.
End ChunkBuffer.

Section ReadMsg.
Context `{TcpCrate, BigUintCrate, BoxCrate, NomCrate}.

Definition HEADER_LENGTH : Z := 4.

(** [length] stays zero until the first chunk of a peer message. *)
Fixpoint read_msg_loop (fuel : nat) (ti : type_impl) (key : bytes) (peer_message : bool)
  (acc : bytes) (length : Z) (b : ChunkBuffer.t) (nonce : Nonce.t) (s : stream)
  : result stop (rval * ChunkBuffer.t * Nonce.t * stream) :=
  match fuel with
  | O => Err OutOfFuel
  | S fuel' =>
      cbs ← ChunkBuffer.read_chunk fuel 0 b s;
      let '(chunk, b, s) := (cbs : BinaryChunk * ChunkBuffer.t * stream) in
      match decrypt key (content chunk) nonce with
      | Err _ => Err DecryptError
      | Ok decrypted =>
          let acc := acc ++ decrypted in
          length ←
            (if (length =? 0) && peer_message then
               if zlen acc <? HEADER_LENGTH then Err StopPanicked
               else Ok (be_val (take 4 acc) + HEADER_LENGTH)
             else Ok length);
          let nonce := Nonce.increment nonce in
          if (zlen acc =? length) || negb peer_message then
            match from_bytes ti acc with
            | Ok m => Ok (m, b, nonce, s)
            | Err _ => read_msg_loop fuel' ti key peer_message acc length b nonce s
            end
          else read_msg_loop fuel' ti key peer_message acc length b nonce s
      end
  end.

Definition read_msg (fuel : nat) (ti : type_impl) (key : bytes) (peer_message : bool)
  (b : ChunkBuffer.t) (nonce : Nonce.t) (s : stream) :=
  read_msg_loop fuel ti key peer_message [] 0 b nonce s.
End ReadMsg.

(** [write_msg]: [as_bytes().unwrap()], then the encrypted write. *)
Definition write_msg
  `{BytesCrate, BitVecCrate, HexCrate, UnicodeTables, BigIntCrate, RandCrate, BigUintCrate, BoxCrate, TcpCrate}
  (max_chunk_size : Z) (options : ChunkOptions) (ti : type_impl) (msg : rval) (key : bytes)
  (nonce : Nonce.t) (r : rng) (s : stream) : result (stop * rng) (Nonce.t * rng * stream) :=
  bs ← at_rng r (map_err (fun _ => StopPanicked) (as_bytes ti msg));
  write_bytes_encrypted max_chunk_size options bs key nonce r s.

(** ** The buffer *)

(** A buffer of the right size whose length is in range. *)
Definition buffer_ok (b : ChunkBuffer.t) : Prop :=
  length (ChunkBuffer.data b) = Z.to_nat BUFFER_SIZE /\
  0 <= ChunkBuffer.len b <= BUFFER_SIZE.

Definition contents (b : ChunkBuffer.t) : bytes :=
  take (Z.to_nat (ChunkBuffer.len b)) (ChunkBuffer.data b).

Lemma contents_len b : buffer_ok b -> zlen (contents b) = ChunkBuffer.len b.
Proof. intros [Hd Hl]. unfold contents, zlen. rewrite length_take, Hd. lia. Qed.

Lemma shift_spec count : forall i n (data : bytes),
  (n <= i)%nat -> (i + count <= length data)%nat ->
  length (ChunkBuffer.shift count i n data) = length data /\
  forall k, nth k (ChunkBuffer.shift count i n data) 0 =
    if decide (i - n <= k < i - n + count)%nat then nth (k + n)%nat data 0 else nth k data 0.
Proof.
  induction count as [|count IH]; intros i n data Hn Hl; cbn [ChunkBuffer.shift].
  - split; [done|]. intros k. rewrite decide_False by lia. done.
  - assert (Hlen : length (<[(i - n)%nat:=nth i data 0]> data) = length data)
      by apply length_insert.
    assert (Hnth : forall k, nth k (<[(i - n)%nat:=nth i data 0]> data) 0 =
      if decide (k = (i - n)%nat) then nth i data 0 else nth k data 0).
    { intros k. rewrite !nth_lookup. case_decide as Hk.
      - subst k. rewrite list_lookup_insert_eq by lia. done.
      - by rewrite list_lookup_insert_ne by done. }
    destruct (IH (S i) n (<[(i - n)%nat:=nth i data 0]> data)) as [H1 H2]; [lia|lia|].
    split; [lia|]. intros k. rewrite H2, !Hnth.
    destruct (decide (S i - n <= k < S i - n + count)%nat) as [Hk|Hk].
    + rewrite decide_False by lia. by rewrite decide_True by lia.
    + destruct (decide (k = (i - n)%nat)) as [->|Hne].
      * rewrite decide_True by lia. f_equal. lia.
      * by rewrite decide_False by lia.
Qed.

Lemma shift_take (n len : nat) (data : bytes) : (n <= len)%nat -> (len <= length data)%nat ->
  take (len - n) (ChunkBuffer.shift (len - n) n n data) = drop n (take len data).
Proof.
  intros Hn Hl. destruct (shift_spec (len - n) n n data) as [H1 H2]; [lia|lia|].
  apply (nth_ext _ _ 0 0).
  - rewrite length_take, length_drop, length_take. lia.
  - intros k Hk. rewrite length_take in Hk. rewrite !nth_lookup, lookup_drop.
    rewrite !lookup_take_lt by lia. rewrite <- !nth_lookup, H2, decide_True by lia. f_equal. lia.
Qed.

Lemma store_ok b bs : buffer_ok b -> zlen bs <= BUFFER_SIZE - ChunkBuffer.len b ->
  buffer_ok (ChunkBuffer.store b bs) /\
  contents (ChunkBuffer.store b bs) = contents b ++ bs.
Proof.
  intros [Hd Hl] Hn. pose proof (zlen_nonneg bs) as Hz.
  set (k := Z.to_nat (ChunkBuffer.len b)) in *.
  assert (Hk : length (take k (ChunkBuffer.data b)) = k) by (rewrite length_take; lia).
  unfold ChunkBuffer.store. cbn [ChunkBuffer.len ChunkBuffer.data]. split.
  - split; cbn [ChunkBuffer.len ChunkBuffer.data]; [|lia].
    rewrite !length_app, length_take, length_drop. unfold zlen in *. lia.
  - unfold contents. cbn [ChunkBuffer.len ChunkBuffer.data]. fold k.
    replace (Z.to_nat (ChunkBuffer.len b + zlen bs)) with (length (take k (ChunkBuffer.data b) ++ bs))
      by (rewrite length_app, Hk; unfold zlen, k in *; lia).
    by rewrite app_assoc, take_app_len.
Qed.

Lemma contents_head b n l : buffer_ok b -> 0 <= n < 2 ^ 16 -> contents b = be_bytes 2 n ++ l ->
  be_val [nth 0 (ChunkBuffer.data b) 0; nth 1 (ChunkBuffer.data b) 0] = n.
Proof.
  intros Hb Hn Hc. pose proof (contents_len b Hb) as Hl. rewrite Hc, zlen_app, zlen_be_bytes in Hl.
  pose proof (zlen_nonneg l). destruct (be_bytes 2 n) as [|x [|y [|]]] eqn:E;
    pose proof (be_bytes_length 2 n) as Hlen; rewrite E in Hlen; try done.
  assert (Hx : forall k, (k < 2)%nat -> nth k (ChunkBuffer.data b) 0 = nth k (contents b) 0).
  { intros k Hk. unfold contents. rewrite !nth_lookup, lookup_take_lt by lia. done. }
  rewrite (Hx 0%nat), (Hx 1%nat), Hc by lia. simpl. rewrite <- E.
  by apply be_val_be_bytes_small.
Qed.

Lemma take_chunk_some b body rest :
  buffer_ok b -> contents b = be_bytes 2 (zlen body) ++ body ++ rest -> zlen body < 2 ^ 16 ->
  exists b', ChunkBuffer.take_chunk b = Some (Ok (be_bytes 2 (zlen body) ++ body, b')) /\
    buffer_ok b' /\ contents b' = rest.
Proof.
  intros Hb Hc Hn. pose proof (contents_len b Hb) as Hl. pose proof (zlen_nonneg body) as Hz.
  pose proof (zlen_nonneg rest) as Hr. pose proof (contents_head b _ _ Hb (conj Hz Hn) Hc) as Hh.
  rewrite Hc, !zlen_app, zlen_be_bytes in Hl. unfold ChunkBuffer.take_chunk. rewrite Hh.
  destruct (Z.leb_spec 2 (ChunkBuffer.len b)); [|lia].
  destruct (Z.leb_spec (zlen body + 2) (ChunkBuffer.len b)); [|lia].
  destruct Hb as [Hd Hb]. set (k := Z.to_nat (zlen body + 2)). set (m := Z.to_nat (ChunkBuffer.len b)).
  assert (Hk : k = length (be_bytes 2 (zlen body) ++ body)).
  { rewrite length_app, be_bytes_length. unfold k, zlen in *. lia. }
  assert (Hchunk : take k (ChunkBuffer.data b) = be_bytes 2 (zlen body) ++ body).
  { transitivity (take k (contents b)).
    - unfold contents. rewrite take_take. f_equal. unfold k, zlen in *. lia.
    - by rewrite Hc, app_assoc, Hk, take_app_len. }
  destruct (chunk_of_content body) as (_ & _ & Ht & _); [unfold CONTENT_LENGTH_MAX; lia|].
  rewrite Hchunk, Ht. eexists. split; [reflexivity|].
  replace (Z.to_nat (ChunkBuffer.len b - (zlen body + 2))) with (m - k)%nat by (unfold m, k; lia).
  destruct (shift_spec (m - k) k k (ChunkBuffer.data b)) as [Hs _]; [lia|unfold m, k; lia|].
  split.
  - split; cbn [ChunkBuffer.data ChunkBuffer.len]; lia.
  - unfold contents. cbn [ChunkBuffer.data ChunkBuffer.len].
    replace (Z.to_nat (ChunkBuffer.len b - (zlen body + 2))) with (m - k)%nat by (unfold m, k; lia).
    rewrite shift_take by (unfold m, k; lia).
    change (take m (ChunkBuffer.data b)) with (contents b). by rewrite Hc, app_assoc, Hk, drop_app_len.
Qed.

(** The buffer does not hold the whole first chunk. *)
Definition chunk_incomplete (c : bytes) : Prop :=
  zlen c < 2 \/ exists n l, 0 <= n < 2 ^ 16 /\ c = be_bytes 2 n ++ l /\ zlen l < n.

Lemma take_chunk_none b : buffer_ok b -> chunk_incomplete (contents b) ->
  ChunkBuffer.take_chunk b = None.
Proof.
  intros Hb Hi. pose proof (contents_len b Hb) as Hl. unfold ChunkBuffer.take_chunk.
  destruct Hi as [Hi|(n & l & Hn & Hc & Hi)].
  - by destruct (Z.leb_spec 2 (ChunkBuffer.len b)); [lia|].
  - rewrite (contents_head b n l Hb Hn Hc). rewrite Hc, zlen_app, zlen_be_bytes in Hl.
    destruct (Z.leb_spec 2 (ChunkBuffer.len b)); [|done].
    by destruct (Z.leb_spec (n + 2) (ChunkBuffer.len b)); [lia|].
Qed.

Section ReadChunk.
Context `{TcpCrate}.

(** The stream starts with a chunk: the buffered bytes hold it, or miss some of
    its bytes. *)
Lemma chunk_progress c p body rest :
  c ++ p = be_bytes 2 (zlen body) ++ body ++ rest -> zlen body < 2 ^ 16 ->
  (exists l, c = be_bytes 2 (zlen body) ++ body ++ l /\ l ++ p = rest) \/
  (chunk_incomplete c /\ p <> [] /\ zlen c < zlen body + 2).
Proof.
  intros E Hn. set (k := be_bytes 2 (zlen body) ++ body).
  assert (Hk : zlen k = zlen body + 2) by (unfold k; rewrite zlen_app, zlen_be_bytes; lia).
  rewrite app_assoc in E. fold k in E.
  destruct (Z.lt_ge_cases (zlen c) (zlen k)) as [Hlt|Hge].
  - right. split; [|split; [|lia]].
    + destruct (Z.lt_ge_cases (zlen c) 2) as [|H2]; [by left|]. right.
      pose proof (zlen_nonneg body). exists (zlen body), (drop 2 c). split; [lia|].
      assert (Ht : take 2 c = be_bytes 2 (zlen body)).
      { transitivity (take 2 (c ++ p)); [rewrite take_app_le by (unfold zlen in H2; lia); done|].
        rewrite E. unfold k. rewrite <- app_assoc, take_app_le by (rewrite be_bytes_length; lia).
        apply take_ge. rewrite be_bytes_length. lia. }
      split; [rewrite <- Ht; by rewrite take_drop|].
      unfold zlen in *. rewrite length_drop. lia.
    + intros ->. rewrite app_nil_r in E. subst c. rewrite zlen_app in Hlt.
      pose proof (zlen_nonneg rest). lia.
  - left. exists (drop (length k) c). rewrite app_assoc. fold k.
    assert (Ht : take (length k) c = k).
    { transitivity (take (length k) (c ++ p)); [rewrite take_app_le by (unfold zlen in Hge; lia); done|].
      by rewrite E, take_app_len. }
    split; [rewrite <- Ht at 1; by rewrite take_drop|].
    transitivity (drop (length k) (c ++ p)).
    + by rewrite drop_app_le by (unfold zlen in Hge; lia).
    + by rewrite E, drop_app_len.
Qed.

Lemma read_chunk_gets fuel : forall retry b s body rest,
  buffer_ok b -> healthy s -> contents b ++ pending s = be_bytes 2 (zlen body) ++ body ++ rest ->
  zlen body + 2 <= BUFFER_SIZE -> (length (pending s) < fuel)%nat ->
  exists b' s', ChunkBuffer.read_chunk fuel retry b s = Ok (be_bytes 2 (zlen body) ++ body, b', s') /\
    buffer_ok b' /\ healthy s' /\ contents b' ++ pending s' = rest /\ sent s' = sent s /\
    (length (pending s') <= length (pending s))%nat.
Proof.
  unfold BUFFER_SIZE. induction fuel as [|fuel IH]; intros retry b s body rest Hb Hs Hc Hn Hf; [lia|].
  assert (Hbody : zlen body < 2 ^ 16) by lia. cbn [ChunkBuffer.read_chunk].
  destruct (chunk_progress _ _ _ _ Hc Hbody) as [(l & Hl & Hr)|(Hi & Hp & Hlt)].
  - destruct (take_chunk_some b body l Hb Hl Hbody) as (b' & -> & Hb' & Hc').
    exists b', s. rewrite Hc'. do 5 (split; [done|]). lia.
  - rewrite (take_chunk_none b Hb Hi). rewrite contents_len in Hlt by done.
    destruct (tcp_read_data (65536 - ChunkBuffer.len b) s Hs) as (bs & s' & E & Hne & Hle & Hpe & Hs' & Hse);
      [lia|done|]. unfold BUFFER_SIZE. rewrite E. cbn [ok_or mbind result_bind fst snd].
    destruct (store_ok b bs Hb Hle) as [Hb' Hc']. pose proof (contents_len _ Hb') as Hl'.
    assert (0 < zlen bs) by (destruct bs; [done|]; rewrite zlen_cons; pose proof (zlen_nonneg bs); lia).
    assert (Hnz : (ChunkBuffer.len (ChunkBuffer.store b bs) =? 0) = false).
    { destruct Hb as [_ Hb]. cbn [ChunkBuffer.store ChunkBuffer.len]. lia. }
    rewrite Hnz. rewrite Hpe, app_assoc, <- Hc' in Hc. rewrite Hpe, length_app in Hf.
    destruct (IH retry _ s' body rest Hb' Hs' Hc Hn) as (b2 & s2 & E2 & H1 & H2 & H3 & H4 & H5).
    { unfold zlen in *. lia. }
    exists b2, s2. rewrite Hpe, length_app. split; [done|]. split; [done|]. split; [done|].
    split; [done|]. split; [congruence|]. lia.
Qed.
End ReadChunk.

(** A socket that delivers two bytes at a time. *)
#[export] Instance reference_tcp : TcpCrate.
Proof.
  refine {| stream := (bytes * bytes)%type; healthy _ := True; pending s := s.1; sent s := s.2;
            tcp_read n s := Some (take (Z.to_nat (Z.min n 2)) s.1, (drop (Z.to_nat (Z.min n 2)) s.1, s.2));
            tcp_write_all bs s := Some (s.1, s.2 ++ bs) |}.
  - intros n [p o] _ Hn Hp. cbn [fst snd] in *. eexists _, _. split; [reflexivity|]. cbn [fst snd].
    split; [|split; [|by rewrite take_drop]].
    + destruct p as [|x p]; [done|]. destruct (Z.to_nat (Z.min n 2)) eqn:E; [lia|done].
    + unfold zlen. rewrite length_take. lia.
  - intros n [p o] _ [->|E]; cbn [fst snd] in *.
    + eexists. split; [reflexivity|]. done.
    + subst p. exists ([], o). by rewrite take_nil, drop_nil.
  - intros bs [p o] _. eexists. split; [reflexivity|]. done.
Defined.

(** A fresh socket on which [p] will arrive. *)
Definition socket (p : bytes) : @stream reference_tcp := (p, []).

Lemma default_ok : buffer_ok ChunkBuffer.default.
Proof. split; [apply length_replicate|done]. Qed.



Section Hang.
Context `{TcpCrate}.

Lemma read_chunk_waits fuel : forall retry b s,
  buffer_ok b -> healthy s -> 0 < ChunkBuffer.len b \/ pending s <> [] ->
  (forall l, zlen (contents b ++ l) <= BUFFER_SIZE -> (exists k, pending s = l ++ k) ->
     chunk_incomplete (contents b ++ l)) ->
  ChunkBuffer.read_chunk fuel retry b s = Err OutOfFuel.
Proof.
  induction fuel as [|fuel IH]; intros retry b s Hb Hs Hl Hi; [done|].
  cbn [ChunkBuffer.read_chunk]. pose proof (contents_len b Hb) as Hlen.
  rewrite take_chunk_none; [|done|].
  2:{ rewrite <- (app_nil_r (contents b)). apply Hi; [rewrite app_nil_r, Hlen; apply Hb|by eexists]. }
  assert (Hread : exists bs s', tcp_read (BUFFER_SIZE - ChunkBuffer.len b) s = Some (bs, s') /\
    zlen bs <= BUFFER_SIZE - ChunkBuffer.len b /\ pending s = bs ++ pending s' /\ healthy s' /\
    0 < ChunkBuffer.len b + zlen bs).
  { destruct Hb as [_ Hb]. destruct (decide (BUFFER_SIZE - ChunkBuffer.len b = 0 \/ pending s = [])) as [Hz|Hz].
    - destruct (tcp_read_none (BUFFER_SIZE - ChunkBuffer.len b) s Hs Hz) as (s' & E & Hp & Hs' & _).
      exists [], s'. rewrite Hp. change (zlen []) with 0. repeat split; try done; try lia.
      destruct Hl as [|Hne]; [lia|]. destruct Hz as [Hz|]; [unfold BUFFER_SIZE in *; lia|done].
    - apply Decidable.not_or in Hz as [Hz Hne].
      destruct (tcp_read_data (BUFFER_SIZE - ChunkBuffer.len b) s Hs)
        as (bs & s' & E & Hbs & Hle & Hp & Hs' & _); [lia|done|].
      exists bs, s'. do 4 (split; [done|]). destruct bs as [|x bs]; [done|].
      rewrite zlen_cons. pose proof (zlen_nonneg bs). lia. }
  destruct Hread as (bs & s' & -> & Hle & Hp & Hs' & Hpos). cbn [ok_or mbind result_bind fst snd].
  destruct (store_ok b bs Hb Hle) as [Hb' Hc']. pose proof (zlen_nonneg bs).
  assert (Hnz : (ChunkBuffer.len (ChunkBuffer.store b bs) =? 0) = false).
  { cbn [ChunkBuffer.store ChunkBuffer.len]. lia. }
  rewrite Hnz. apply IH; [done|done|left; cbn [ChunkBuffer.store ChunkBuffer.len]; lia|].
  intros l Hll [k Hk]. rewrite Hc', <- app_assoc in *. apply Hi; [done|].
  exists k. by rewrite Hp, Hk, app_assoc.
Qed.
End Hang.

(** (C39) A chunk with 65535 bytes of content, the largest there can be, never
    comes out: it takes one byte more than the buffer has, so once its length
    field is buffered [read_chunk] loops forever, whatever arrives. *)
Theorem largest_chunk_hangs `{TcpCrate} (retry : Z) (b : ChunkBuffer.t) (s : stream) (l : bytes) (fuel : nat) :
  buffer_ok b -> healthy s -> contents b = be_bytes 2 65535 ++ l ->
  ChunkBuffer.read_chunk fuel retry b s = Err OutOfFuel.
Proof.
  intros Hb Hs Hc. pose proof (contents_len b Hb) as Hl. rewrite Hc, zlen_app, zlen_be_bytes in Hl.
  pose proof (zlen_nonneg l). apply read_chunk_waits; [done|done|left; lia|].
  intros m Hm _. right. exists 65535, (l ++ m). split; [lia|].
  rewrite Hc, <- app_assoc in *. split; [done|]. rewrite zlen_app, zlen_be_bytes in Hm.
  unfold BUFFER_SIZE in Hm. lia.
Qed.

Lemma largest_chunk_hangs_witness :
  ChunkBuffer.read_chunk 50 0 (ChunkBuffer.store ChunkBuffer.default [255; 255; 1]) (socket [2; 3]) =
    Err OutOfFuel.
Proof.
  destruct (store_ok ChunkBuffer.default [255; 255; 1] default_ok) as [Hb Hc]; [done|].
  apply (largest_chunk_hangs 0 _ (socket [2; 3]) [1] 50 Hb I).
  rewrite Hc. vm_compute. reflexivity.
Defined.

(** A connection closed in the middle of a chunk: once no more bytes come,
    [read_chunk] loops forever instead of reporting the end of the stream. *)
Theorem closed_in_chunk_hangs `{TcpCrate} (retry : Z) (b : ChunkBuffer.t) (s : stream) (fuel : nat) :
  buffer_ok b -> healthy s -> pending s = [] -> contents b <> [] -> chunk_incomplete (contents b) ->
  ChunkBuffer.read_chunk fuel retry b s = Err OutOfFuel.
Proof.
  intros Hb Hs Hp Hne Hi. apply read_chunk_waits; [done|done| |].
  - left. rewrite <- contents_len by done. destruct (contents b) as [|x c]; [done|].
    rewrite zlen_cons. pose proof (zlen_nonneg c). lia.
  - intros l _ [k Hk]. rewrite Hp in Hk. symmetry in Hk. apply app_eq_nil in Hk as [-> _].
    by rewrite app_nil_r.
Qed.

Lemma closed_in_chunk_hangs_witness :
  ChunkBuffer.read_chunk 50 0 (ChunkBuffer.store ChunkBuffer.default [0; 5; 1]) (socket []) =
    Err OutOfFuel.
Proof.
  destruct (store_ok ChunkBuffer.default [0; 5; 1] default_ok) as [Hb Hc]; [done|].
  apply (closed_in_chunk_hangs 0 _ (socket []) 50 Hb I).
  - reflexivity.
  - rewrite Hc. vm_compute. discriminate.
  - rewrite Hc. right. exists 5, [1]. split; [lia|]. split; vm_compute; reflexivity.
Defined.

(** ** Cutting *)
Section Cutting.
Context `{RandCrate}.

Fixpoint total (l : list Z) : Z := match l with [] => 0 | n :: l => n + total l end.

Lemma total_perm l k : Permutation l k -> total l = total k.
Proof. induction 1; simpl; lia. Qed.

Lemma draw_sizes_ok bound one max limit : one = true \/
    (forall n, 2 <= n <= limit -> 2 <= bound n <= n /\ bound n <= max + 1) ->
  1 <= max -> forall rounds remaining r, 0 <= remaining < Z.of_nat rounds -> remaining <= limit ->
  exists sizes r', draw_sizes rounds bound one remaining r = Ok (sizes, r') /\
    total sizes = remaining /\ Forall (fun n => 1 <= n <= max) sizes.
Proof.
  intros Hb Hmax rounds. induction rounds as [|rounds IH]; intros remaining r Hr Hlim; [lia|].
  cbn [draw_sizes]. destruct (Z.leb_spec remaining 1) as [H1|H1].
  - exists (if remaining =? 1 then [1] else []), r. split; [done|].
    destruct (Z.eqb_spec remaining 1); simpl; (split; [lia|]); repeat constructor; lia.
  - assert (Hz : exists z r', (if one then Ok (1, r) else panics (rng_range 1 (bound remaining) r)) =
      Ok (z, r') /\ 1 <= z <= max /\ z <= remaining).
    { destruct Hb as [->|Hb]; [exists 1, r; split; [done|lia]|].
      destruct one; [exists 1, r; split; [done|lia]|].
      destruct (Hb remaining) as [Hbd Hbm]; [lia|].
      destruct (rng_range_some 1 (bound remaining) r) as (z & r' & E & Hz); [lia|].
      exists z, r'. unfold panics. rewrite E. split; [done|lia]. }
    destruct Hz as (z & r' & -> & Hz & Hzr). cbn [mbind result_bind fst snd].
    destruct (IH (remaining - z) r') as (sizes & r'' & E & Ht & Hall); [lia|lia|].
    rewrite E. cbn [mbind result_bind fst snd]. exists (z :: sizes), r''. split; [done|].
    simpl. split; [lia|]. by constructor.
Qed.

Lemma cut_ok max sizes : forall bs, Forall (fun n => 1 <= n <= max) sizes -> total sizes = zlen bs ->
  exists ps, cut sizes bs = Ok ps /\ concat ps = bs /\ Forall (fun p => 1 <= zlen p <= max) ps.
Proof.
  induction sizes as [|n sizes IH]; intros bs Hall Ht; cbn [cut total] in *.
  - destruct bs as [|x bs]; [|rewrite zlen_cons in Ht; pose proof (zlen_nonneg bs); lia].
    exists []. done.
  - inversion Hall as [|? ? Hn Hs]; subst.
    assert (Hsum : 0 <= total sizes).
    { clear -Hs. induction Hs; simpl; lia. }
    destruct (Z.ltb_spec (zlen bs) n); [lia|].
    assert (Hd : zlen (drop (Z.to_nat n) bs) = zlen bs - n).
    { unfold zlen in *. rewrite length_drop. lia. }
    destruct (IH (drop (Z.to_nat n) bs) Hs) as (ps & E & Hc & Hp); [lia|].
    rewrite E. eexists. split; [reflexivity|]. cbn [concat]. rewrite Hc. split; [apply take_drop|].
    constructor; [|done]. unfold zlen in *. rewrite length_take. lia.
Qed.

Lemma sizes_cut bound one max r bs :
  one = true \/ (forall n, 2 <= n <= zlen bs -> 2 <= bound n <= n /\ bound n <= max + 1) ->
  1 <= max ->
  exists ps r', (sr ← draw_sizes (S (length bs)) bound one (zlen bs) r;
                 let (sizes, r) := rng_shuffle sr.1 sr.2 in
                 pieces ← cut sizes bs; Ok (pieces, r)) = Ok (ps, r') /\
    concat ps = bs /\ Forall (fun p => 1 <= zlen p <= max) ps.
Proof.
  intros Hb Hm. pose proof (zlen_nonneg bs).
  destruct (draw_sizes_ok bound one max (zlen bs) Hb Hm (S (length bs)) (zlen bs) r)
    as (sizes & r' & E & Ht & Hall); [unfold zlen in *; lia|lia|].
  rewrite E. cbn [mbind result_bind fst snd]. pose proof (rng_shuffle_perm sizes r') as Hp.
  destruct (rng_shuffle sizes r') as [sizes' r'']. cbn [fst] in Hp.
  destruct (cut_ok max sizes' bs) as (ps & Ec & Hc & Hps).
  - by rewrite Hp.
  - rewrite (total_perm _ _ Hp). done.
  - rewrite Ec. cbn [mbind result_bind]. by exists ps, r''.
Qed.

Lemma byte_chunks_ok bs r : exists ps r', gen_byte_chunks bs r = Ok (ps, r') /\ concat ps = bs.
Proof.
  pose proof (zlen_nonneg bs).
  destruct (sizes_cut (fun n => n) false (Z.max 1 (zlen bs)) r bs) as (ps & r' & E & Hc & _).
  - right. lia.
  - lia.
  - exists ps, r'. by split.
Qed.
End Cutting.

(** ** Encrypted frames *)
Section Frames.
Context `{RandCrate, BigUintCrate, BoxCrate}.

(** [chunks] carry [pieces], encrypted with successive nonces. *)
Inductive frames (key : bytes) : Nonce.t -> list bytes -> list BinaryChunk -> Prop :=
| frames_nil n : frames key n [] []
| frames_cons n p body ps cs :
    decrypt key body n = Ok p -> zlen body = zlen p + MACBYTES ->
    frames key (Nonce.increment n) ps cs ->
    frames key n (p :: ps) ((be_bytes 2 (zlen body) ++ body) :: cs).

Lemma encrypt_pieces_frames key ps : forall n,
  Forall (fun p => zlen p + MACBYTES <= CONTENT_LENGTH_MAX) ps ->
  0 <= Nonce.value n -> Nonce.value n + zlen ps <= 256 ^ 24 ->
  exists cs, encrypt_pieces key ps n = Ok (cs, Nonce.mk (Nonce.value n + zlen ps)) /\
    frames key n ps cs.
Proof.
  induction ps as [|p ps IH]; intros n Hall Hn Hl; cbn [encrypt_pieces].
  - change (zlen []) with 0. rewrite Z.add_0_r. destruct n. eexists. split; [done|constructor].
  - inversion Hall as [|? ? Hp Hps]; subst. rewrite zlen_cons in *. pose proof (zlen_nonneg ps).
    destruct n as [n]. cbn [Nonce.value] in *.
    assert (Hg : Nonce.get_bytes (Nonce.mk n) = Ok (be_bytes 24 n)) by (apply get_bytes_fits; lia).
    set (body := seal_precomputed p (be_bytes 24 n) key).
    assert (He : encrypt key p (Nonce.mk n) = Ok body) by (unfold encrypt; by rewrite Hg).
    assert (Hb : zlen body = zlen p + MACBYTES) by apply seal_len.
    rewrite He. cbn [map_err mbind result_bind].
    destruct (chunk_of_content body) as (Hf & _); [lia|]. rewrite Hf. cbn [map_err mbind result_bind].
    destruct (IH (Nonce.increment (Nonce.mk n)) Hps) as (cs & E & Hfr);
      cbn [Nonce.increment Nonce.value]; [lia|lia|].
    rewrite E. cbn [mbind result_bind fst snd Nonce.increment Nonce.value].
    exists ((be_bytes 2 (zlen body) ++ body) :: cs). split; [do 3 f_equal; lia|].
    constructor; [by apply encrypt_decrypt|done|done].
Qed.

Lemma gen_chunks_frames max_chunk_size bs key n r :
  2 <= max_chunk_size -> 0 <= Nonce.value n -> Nonce.value n + zlen bs <= 256 ^ 24 ->
  exists ps cs r', gen_chunks max_chunk_size bs key n r =
      Ok (cs, Nonce.mk (Nonce.value n + zlen ps), r') /\
    frames key n ps cs /\ concat ps = bs /\
    Forall (fun p => 1 <= zlen p < CONTENT_LENGTH_MAX - MACBYTES) ps.
Proof.
  intros Hm Hn Hl. unfold gen_chunks, CONTENT_LENGTH_MAX, MACBYTES in *.
  set (max_size := Z.min max_chunk_size (2 ^ 16 - 1 - 16)).
  assert (Hms : 2 <= max_size <= 65519) by lia.
  destruct (sizes_cut (fun remaining => Z.min remaining max_size) (max_size =? 1) (max_size - 1) r bs)
    as (ps & r' & E & Hc & Hps); [right; lia|lia|].
  assert (Hzp : zlen ps <= zlen bs).
  { rewrite <- Hc. clear -Hps. induction Hps as [|p ps Hp _ IH]; [done|].
    cbn [concat]. rewrite zlen_cons, zlen_app. lia. }
  destruct (draw_sizes _ _ _ _ _) as [sr|]; [|done]. cbn [mbind result_bind] in *.
  destruct (rng_shuffle sr.1 sr.2) as [sizes r'']. destruct (cut sizes bs) as [ps'|]; [|done].
  cbn [mbind result_bind] in *. injection E as -> ->.
  destruct (encrypt_pieces_frames key ps n) as (cs & Ee & Hf).
  - eapply Forall_impl; [|exact Hps]. unfold CONTENT_LENGTH_MAX, MACBYTES. simpl. intros p Hp. lia.
  - done.
  - lia.
  - rewrite Ee. cbn [mbind result_bind fst snd]. exists ps, cs, r'. split; [done|]. split; [done|].
    split; [done|]. eapply Forall_impl; [|exact Hps]. simpl. intros p Hp. lia.
Qed.
End Frames.

Lemma piece_length (p : bytes) ps : p ∈ ps -> zlen p <= zlen (concat ps).
Proof.
  induction 1 as [p ps|p q ps _ IH]; cbn [concat]; rewrite zlen_app.
  - pose proof (zlen_nonneg (concat ps)). lia.
  - pose proof (zlen_nonneg q). lia.
Qed.

Lemma slice_chunks_ok n : 1 <= n -> forall rounds bs, (length bs <= rounds)%nat ->
  concat (slice_chunks rounds n bs) = bs /\
  Forall (fun p => 1 <= zlen p <= n) (slice_chunks rounds n bs).
Proof.
  intros Hn rounds. induction rounds as [|rounds IH]; intros bs Hl.
  - destruct bs; [by repeat constructor|simpl in Hl; lia].
  - destruct bs as [|x bs]; [by repeat constructor|]. cbn [slice_chunks concat].
    destruct (IH (drop (Z.to_nat n) (x :: bs))) as [Hc Hf].
    { rewrite length_drop. simpl in *. lia. }
    rewrite Hc. split; [apply take_drop|]. constructor; [|done].
    unfold zlen. rewrite length_take. simpl. lia.
Qed.

(** ** Writing a message *)
Section Write.
Context `{RandCrate, BigUintCrate, BoxCrate, TcpCrate}.
Context (o : ChunkOptions).

(** Valid probabilities; bits are never flipped and sends never cut short. *)
Definition no_fuzz : Prop :=
  (forall r, exists r', rng_bool (flip_bits o) r = Some (false, r')) /\
  (forall r, exists r', rng_bool (incomplete_send o) r = Some (false, r')) /\
  (forall p, p = split_chunks o \/ p = split_bytes o \/ p = write_bytes_sleep o ->
     forall r, exists b r', rng_bool p r = Some (b, r')).

Definition never_split : Prop :=
  forall r, exists r', rng_bool (split_chunks o) r = Some (false, r').

Definition always_split : Prop :=
  forall r, exists r', rng_bool (split_chunks o) r = Some (true, r').

(** No chunk of the largest size is sent: the message is shorter, or split. *)
Definition below_largest (bs : bytes) : Prop :=
  zlen bs < CONTENT_LENGTH_MAX - MACBYTES \/ always_split.

Context (Ho : no_fuzz).

Lemma write_pieces_sends ps : forall r s, healthy s ->
  exists r' s', write_pieces o false ps r s = Ok (r', s') /\ sent s' = sent s ++ concat ps /\
    healthy s' /\ pending s' = pending s.
Proof.
  induction ps as [|p ps IH]; intros r s Hs; cbn [write_pieces].
  - exists r, s. by rewrite app_nil_r.
  - destruct (tcp_write_ok p s Hs) as (s1 & E1 & Hsent & Hs1 & Hp). rewrite E1.
    cbn [at_rng map_err ok_or mbind result_bind]. destruct Ho as (_ & _ & Hok).
    destruct (Hok (write_bytes_sleep o)) with (r := r) as (b & r1 & E2); [auto|].
    unfold panics. rewrite E2. cbn [at_rng map_err ok_or mbind result_bind snd].
    destruct (IH r1 s1 Hs1) as (r2 & s2 & E3 & Hsent2 & Hs2 & Hp2). rewrite E3.
    exists r2, s2. split; [done|]. cbn [concat]. rewrite Hsent2, Hsent, Hp2, Hp.
    by rewrite <- app_assoc.
Qed.

Lemma write_bytes_sends bs r s : healthy s ->
  exists r' s', write_bytes o bs r s = Ok (r', s') /\ sent s' = sent s ++ bs /\
    healthy s' /\ pending s' = pending s.
Proof.
  intros Hs. unfold write_bytes, panics. destruct Ho as (_ & Hinc & Hok).
  destruct (Hok (split_bytes o)) with (r := r) as (b & r1 & E1); [auto|]. rewrite E1.
  cbn [at_rng map_err ok_or mbind result_bind fst snd].
  assert (Hps : exists ps r2, (if b then gen_byte_chunks bs r1 else Ok ([bs], r1)) = Ok (ps, r2) /\
    concat ps = bs).
  { destruct b; [apply byte_chunks_ok|]. exists [bs], r1. split; [done|]. simpl. apply app_nil_r. }
  destruct Hps as (ps & r2 & -> & Hc). cbn [at_rng map_err mbind result_bind fst snd].
  destruct (Hinc r2) as (r3 & E3). rewrite E3. cbn [at_rng map_err ok_or mbind result_bind fst snd].
  destruct (write_pieces_sends ps r3 s Hs) as (r4 & s4 & E4 & Hsent & Hs4 & Hp). rewrite E4.
  exists r4, s4. by rewrite Hsent, Hc.
Qed.

Lemma write_chunks_sends cs : forall r s, healthy s ->
  exists r' s', write_chunks o cs r s = Ok (r', s') /\ sent s' = sent s ++ concat cs /\
    healthy s' /\ pending s' = pending s.
Proof.
  induction cs as [|c cs IH]; intros r s Hs; cbn [write_chunks].
  - exists r, s. by rewrite app_nil_r.
  - destruct (write_bytes_sends (raw c) r s Hs) as (r1 & s1 & E1 & Hsent & Hs1 & Hp). rewrite E1.
    cbn [at_rng map_err mbind result_bind fst snd].
    destruct (IH r1 s1 Hs1) as (r2 & s2 & E2 & Hsent2 & Hs2 & Hp2). rewrite E2.
    exists r2, s2. split; [done|]. cbn [concat]. rewrite Hsent2, Hsent, Hp2, Hp.
    by rewrite <- app_assoc.
Qed.

Lemma write_encrypted_sends max_chunk_size bs key n r s :
  2 <= max_chunk_size -> healthy s -> 0 <= Nonce.value n -> Nonce.value n + zlen bs <= 256 ^ 24 ->
  exists ps cs r' s', write_bytes_encrypted max_chunk_size o bs key n r s =
      Ok (Nonce.mk (Nonce.value n + zlen ps), r', s') /\
    frames key n ps cs /\ concat ps = bs /\
    Forall (fun p => 1 <= zlen p <= CONTENT_LENGTH_MAX - MACBYTES) ps /\
    (never_split -> ps = slice_chunks (length bs) (CONTENT_LENGTH_MAX - MACBYTES) bs) /\
    (below_largest bs -> Forall (fun p => zlen p < CONTENT_LENGTH_MAX - MACBYTES) ps) /\
    sent s' = sent s ++ concat cs /\ healthy s' /\ pending s' = pending s.
Proof.
  intros Hm Hs Hn Hl. unfold write_bytes_encrypted, panics. destruct Ho as (Hflip & _ & Hok).
  destruct (Hflip r) as (r1 & E1). rewrite E1. cbn [at_rng map_err ok_or mbind result_bind fst snd].
  destruct (Hok (split_chunks o)) with (r := r1) as (b & r2 & E2); [auto|]. rewrite E2.
  cbn [at_rng map_err ok_or mbind result_bind fst snd].
  assert (Hcs : exists ps cs r3,
    (if b then gen_chunks max_chunk_size bs key n r2
     else cn ← encrypt_pieces key (slice_chunks (length bs) (CONTENT_LENGTH_MAX - MACBYTES) bs) n;
          Ok (cn.1, cn.2, r2)) = Ok (cs, Nonce.mk (Nonce.value n + zlen ps), r3) /\
    frames key n ps cs /\ concat ps = bs /\
    Forall (fun p => 1 <= zlen p <= CONTENT_LENGTH_MAX - MACBYTES) ps /\
    (never_split -> ps = slice_chunks (length bs) (CONTENT_LENGTH_MAX - MACBYTES) bs) /\
    (below_largest bs -> Forall (fun p => zlen p < CONTENT_LENGTH_MAX - MACBYTES) ps)).
  { destruct b.
    - destruct (gen_chunks_frames max_chunk_size bs key n r2 Hm Hn Hl) as (ps & cs & r3 & E & Hf & Hc & Hps).
      exists ps, cs, r3. split; [done|]. split; [done|]. split; [done|].
      split; [eapply Forall_impl; [|exact Hps]; simpl; lia|].
      split; [intros Hns; destruct (Hns r1) as [r' E']; congruence|].
      intros _. eapply Forall_impl; [|exact Hps]. simpl. lia.
    - destruct (slice_chunks_ok (CONTENT_LENGTH_MAX - MACBYTES)) with (rounds := length bs) (bs := bs)
        as [Hc Hps]; [done|lia|].
      set (ps := slice_chunks _ _ _) in *.
      assert (Hzp : zlen ps <= zlen bs).
      { rewrite <- Hc. clearbody ps. clear -Hps. induction Hps as [|p ps Hp _ IH]; [done|].
        cbn [concat]. rewrite zlen_cons, zlen_app. lia. }
      destruct (encrypt_pieces_frames key ps n) as (cs & E & Hf); [|done|lia|].
      { eapply Forall_impl; [|exact Hps]. simpl. lia. }
      rewrite E. exists ps, cs, r2. do 4 (split; [done|]). split; [done|].
      intros [Hl'|Hal]; [|destruct (Hal r1) as [r' E']; congruence].
      clearbody ps. apply Forall_forall. intros p Hp%list_elem_of_In.
      pose proof (piece_length p ps Hp) as Hle. rewrite Hc in Hle. lia. }
  destruct Hcs as (ps & cs & r3 & -> & Hf & Hc & Hps & Hns & Hbl). cbn [at_rng map_err mbind result_bind fst snd].
  destruct (write_chunks_sends cs r3 s Hs) as (r4 & s4 & E4 & Hsent & Hs4 & Hp). rewrite E4.
  cbn [at_rng map_err mbind result_bind fst snd]. exists ps, cs, r4, s4. auto 12.
Qed.
End Write.

(** ** Reading a message *)
Section ReadBack.
Context `{TcpCrate, BigUintCrate, BoxCrate, NomCrate}.

(** A piece small enough for its chunk to fit the buffer. *)
Definition piece_fits (p : bytes) : Prop := zlen p + MACBYTES + 2 <= BUFFER_SIZE.

(** One round: the next chunk is decrypted and appended. *)
Lemma read_msg_round ti key fuel acc len b n s p ps cs rest :
  buffer_ok b -> healthy s -> frames key n (p :: ps) cs -> piece_fits p ->
  contents b ++ pending s = concat cs ++ rest -> (length (pending s) < S fuel)%nat ->
  (len = 0 -> 4 <= zlen (acc ++ p)) ->
  let len' := if len =? 0 then be_val (take 4 (acc ++ p)) + 4 else len in
  exists b' s' cs', frames key (Nonce.increment n) ps cs' /\ buffer_ok b' /\ healthy s' /\
    contents b' ++ pending s' = concat cs' ++ rest /\
    (length (pending s') <= length (pending s))%nat /\
    read_msg_loop (S fuel) ti key true acc len b n s =
      let again := read_msg_loop fuel ti key true (acc ++ p) len' b' (Nonce.increment n) s' in
      if zlen (acc ++ p) =? len' then
        match from_bytes ti (acc ++ p) with
        | Ok m => Ok (m, b', Nonce.increment n, s')
        | Err _ => again
        end
      else again.
Proof.
  intros Hb Hs Hf Hp Hc Hfu Hlen len'. inversion Hf as [|? ? body ? cs' Hd Hz Hf']; subst.
  cbn [concat] in Hc. rewrite <- !app_assoc in Hc.
  assert (Hbody : zlen body + 2 <= BUFFER_SIZE) by (unfold piece_fits in Hp; lia).
  destruct (read_chunk_gets (S fuel) 0 b s body (concat cs' ++ rest) Hb Hs Hc Hbody Hfu)
    as (b' & s' & E & Hb' & Hs' & Hc' & _ & Hle).
  exists b', s', cs'. do 5 (split; [done|]).
  cbn [read_msg_loop]. rewrite E. cbn [mbind result_bind].
  destruct (chunk_of_content body) as (_ & _ & _ & Hct).
  { unfold BUFFER_SIZE, CONTENT_LENGTH_MAX in *. lia. }
  rewrite Hct, Hd, andb_true_r. unfold len', HEADER_LENGTH.
  destruct (Z.eqb_spec len 0) as [Hl|Hl].
  - destruct (Z.ltb_spec (zlen (acc ++ p)) 4); [specialize (Hlen Hl); lia|].
    cbn [mbind result_bind negb]. by rewrite orb_false_r.
  - cbn [mbind result_bind negb]. by rewrite orb_false_r.
Qed.

(** The rounds after the first: [len] is the length of the whole message. *)
Lemma read_msg_rest ti key v ps : forall fuel acc b n s cs rest,
  ps <> [] -> Forall piece_fits ps -> Forall (fun p => 1 <= zlen p) ps ->
  4 <= zlen (acc ++ concat ps) -> from_bytes ti (acc ++ concat ps) = Ok v ->
  buffer_ok b -> healthy s -> frames key n ps cs -> contents b ++ pending s = concat cs ++ rest ->
  (length (pending s) + length ps <= fuel)%nat ->
  exists b' s', read_msg_loop fuel ti key true acc (zlen (acc ++ concat ps)) b n s =
      Ok (v, b', Nat.iter (length ps) Nonce.increment n, s') /\
    buffer_ok b' /\ healthy s' /\ contents b' ++ pending s' = rest.
Proof.
  induction ps as [|p ps IH]; intros fuel acc b n s cs rest Hne Hfit Hpos H4 Hv Hb Hs Hf Hc Hfu; [done|].
  inversion Hfit as [|? ? Hp Hfit']; subst. inversion Hpos as [|? ? Hp1 Hpos']; subst.
  destruct fuel as [|fuel]; [simpl in Hfu; lia|]. simpl in Hfu.
  destruct (read_msg_round ti key fuel acc (zlen (acc ++ concat (p :: ps))) b n s p ps cs rest
    Hb Hs Hf Hp Hc) as (b' & s' & cs' & Hf' & Hb' & Hs' & Hc' & Hle & E); [lia|lia|].
  rewrite E. destruct (Z.eqb_spec (zlen (acc ++ concat (p :: ps))) 0); [lia|]. clear E.
  cbn [concat] in *. rewrite !zlen_app in *. pose proof (zlen_nonneg (concat ps)) as Hz.
  destruct ps as [|q ps].
  - inversion Hf'; subst. cbn [concat] in *. rewrite app_nil_r in *. change (zlen []) with 0 in *.
    rewrite Hv. destruct (Z.eqb_spec (zlen acc + zlen p) (zlen acc + (zlen p + 0))); [|lia].
    by exists b', s'.
  - inversion Hpos' as [|? ? Hq _]; subst.
    assert (0 < zlen (concat (q :: ps))).
    { cbn [concat]. rewrite zlen_app. pose proof (zlen_nonneg (concat ps)). lia. }
    destruct (Z.eqb_spec (zlen acc + zlen p) (zlen acc + (zlen p + zlen (concat (q :: ps))))); [lia|].
    destruct (IH fuel (acc ++ p) b' (Nonce.increment n) s' cs' rest) as (b2 & s2 & E2 & Hdone);
      try done.
    + rewrite !zlen_app. lia.
    + by rewrite <- app_assoc.
    + simpl in *. lia.
    + exists b2, s2. rewrite !zlen_app in E2.
      replace (zlen acc + (zlen p + zlen (concat (q :: ps))))
        with (zlen acc + zlen p + zlen (concat (q :: ps))) by lia.
      rewrite E2. split; [|done]. by rewrite (Nat.iter_succ_r (length (q :: ps))).
Qed.

(** A first chunk that does not hold the whole length: the slice panics. *)
Lemma read_msg_short fuel ti key p ps b n s cs rest :
  piece_fits p -> zlen p < HEADER_LENGTH -> buffer_ok b -> healthy s -> frames key n (p :: ps) cs ->
  contents b ++ pending s = concat cs ++ rest -> (length (pending s) < fuel)%nat ->
  read_msg fuel ti key true b n s = Err StopPanicked.
Proof.
  intros Hp H4 Hb Hs Hf Hc Hfu. inversion Hf as [|? ? body ? cs' Hd Hz Hf']; subst.
  cbn [concat] in Hc. rewrite <- !app_assoc in Hc.
  assert (Hbody : zlen body + 2 <= BUFFER_SIZE) by (unfold piece_fits in Hp; lia).
  destruct (read_chunk_gets fuel 0 b s body (concat cs' ++ rest) Hb Hs Hc Hbody Hfu)
    as (b' & s' & E & _).
  destruct fuel as [|fuel]; [lia|]. unfold read_msg. cbn [read_msg_loop]. rewrite E.
  cbn [mbind result_bind]. destruct (chunk_of_content body) as (_ & _ & _ & Hct).
  { unfold BUFFER_SIZE, CONTENT_LENGTH_MAX in *. lia. }
  rewrite Hct, Hd. cbn [app andb Z.eqb]. by destruct (Z.ltb_spec (zlen p) HEADER_LENGTH); [|lia].
Qed.

Lemma increments k : forall n, Nat.iter k Nonce.increment n = Nonce.mk (Nonce.value n + Z.of_nat k).
Proof.
  induction k as [|k IH]; intros [n]; [by cbn; rewrite Z.add_0_r|].
  rewrite Nat.iter_succ, IH. unfold Nonce.increment. cbn [Nonce.value]. f_equal. lia.
Qed.

Lemma read_msg_joins fuel ti key v p ps b n s cs rest :
  Forall piece_fits (p :: ps) -> Forall (fun p => 1 <= zlen p) ps -> 4 <= zlen p ->
  zlen (concat (p :: ps)) = be_val (take 4 (concat (p :: ps))) + 4 ->
  from_bytes ti (concat (p :: ps)) = Ok v ->
  buffer_ok b -> healthy s -> frames key n (p :: ps) cs ->
  contents b ++ pending s = concat cs ++ rest ->
  (length (pending s) + length (p :: ps) <= fuel)%nat ->
  exists b' s', read_msg fuel ti key true b n s =
      Ok (v, b', Nat.iter (length (p :: ps)) Nonce.increment n, s') /\
    buffer_ok b' /\ healthy s' /\ contents b' ++ pending s' = rest.
Proof.
  intros Hfit Hpos H4 Hlen Hv Hb Hs Hf Hc Hfu. unfold read_msg.
  inversion Hfit as [|? ? Hp Hfit']; subst. destruct fuel as [|fuel]; [simpl in Hfu; lia|].
  simpl in Hfu.
  destruct (read_msg_round ti key fuel [] 0 b n s p ps cs rest Hb Hs Hf Hp Hc)
    as (b' & s' & cs' & Hf' & Hb' & Hs' & Hc' & Hle & E); [lia|done|].
  cbn [concat] in *.
  assert (Ht : be_val (take 4 p) + 4 = zlen (p ++ concat ps)).
  { rewrite Hlen. by rewrite take_app_le by (unfold zlen in H4; lia). }
  rewrite E. rewrite app_nil_l, Z.eqb_refl, Ht. clear E. destruct ps as [|q ps].
  - inversion Hf'; subst. cbn [concat] in *. rewrite app_nil_r in *. rewrite Z.eqb_refl, Hv.
    by exists b', s'.
  - inversion Hpos as [|? ? Hq _]; subst. cbn [concat]. rewrite !zlen_app.
    pose proof (zlen_nonneg (concat ps)). destruct (Z.eqb_spec (zlen p) (zlen p + (zlen q + zlen (concat ps)))); [lia|].
    destruct (read_msg_rest ti key v (q :: ps) fuel p b' (Nonce.increment n) s' cs' rest)
      as (b2 & s2 & E2 & Hdone); try done.
    + cbn [concat]. rewrite !zlen_app. lia.
    + simpl in *. lia.
    + exists b2, s2. cbn [concat] in E2. rewrite !zlen_app in E2. rewrite E2. split; [|done].
      by rewrite (Nat.iter_succ_r (length (q :: ps))).
Qed.
End ReadBack.

Lemma slice_chunks_single n bs : bs <> [] -> zlen bs <= n -> slice_chunks (length bs) n bs = [bs].
Proof.
  intros Hne Hl. destruct bs as [|x bs]; [done|]. cbn [slice_chunks length].
  rewrite take_ge, drop_ge by (unfold zlen in Hl; lia). by destruct (length bs).
Qed.

Lemma slice_chunks_first n bs : bs <> [] -> 
  exists ps, slice_chunks (length bs) n bs = take (Z.to_nat n) bs :: ps.
Proof. destruct bs as [|x bs]; [done|]. intros _. eexists. reflexivity. Qed.

(** A generator whose booleans are their probabilities, zero or one. *)
#[export] Instance reference_rand : RandCrate.
Proof.
  refine {| rng := unit; f64 := bool; rng_bool p r := Some (p, r);
            rng_range lo hi r := if lo <? hi then Some (lo, r) else None;
            rng_flag r := (false, r); rng_shuffle l r := (l, r) |}.
  - intros lo hi r Hl. destruct (Z.ltb_spec lo hi); [|lia]. exists lo, r. split; [done|lia].
  - intros lo hi r Hl. by destruct (Z.ltb_spec lo hi); [lia|].
  - intros l r. reflexivity.
Defined.

(** (C5) Peer messages travel.  A message that is sent without flipped bits and
    without cut-off sends - whether or not it is split into chunks of random sizes,
    and whatever pieces the writes and the sockets make of the bytes - goes out as
    encrypted chunks that carry its bytes in order, one nonce each.  If the first
    chunk holds at least the four bytes of the length, the receiver gets the same
    message, counts the same nonces and leaves what follows for the next one; if
    splitting made the first chunk shorter, the receiver panics.  Without splitting
    there is one chunk, which always holds the length.  The message is shorter than
    a full chunk or always split (a longer one sent unsplit is never received:
    [long_message_never_read]), chunks may have at least two bytes, and the nonce
    has room for the message. *)
Theorem peer_message_travels
  `{BytesCrate, BitVecCrate, HexCrate, UnicodeTables, BigIntCrate, NomCrate, SynCrate,
    RandCrate, BigUintCrate, BoxCrate, TcpCrate}
  (ti : type_impl) (t : type_spec) (v : rval) (bs : bytes)
  (o : ChunkOptions) (max_chunk_size : Z) (key : bytes) (n : Nonce.t) (r : rng) (s : stream) :
  p2p_entry "PeerMessageResponse" = Some (ti, t) -> message_value "PeerMessageResponse" v ->
  as_bytes ti v = Ok bs -> no_fuzz o -> below_largest o bs -> 2 <= max_chunk_size -> healthy s ->
  0 <= Nonce.value n -> Nonce.value n + zlen bs <= 2 ^ 192 ->
  exists p ps cs r' s',
    let n' := Nonce.mk (Nonce.value n + zlen (p :: ps)) in
    write_msg max_chunk_size o ti v key n r s = Ok (n', r', s') /\
    sent s' = sent s ++ concat cs /\ frames key n (p :: ps) cs /\ concat (p :: ps) = bs /\
    (never_split o -> p = bs /\ ps = []) /\
    forall b s2 rest fuel, buffer_ok b -> healthy s2 ->
      contents b ++ pending s2 = concat cs ++ rest ->
      (length (pending s2) + length (p :: ps) <= fuel)%nat ->
      if zlen p <? HEADER_LENGTH
      then read_msg fuel ti key true b n s2 = Err StopPanicked
      else exists b' s2', read_msg fuel ti key true b n s2 = Ok (v, b', n', s2') /\
        buffer_ok b' /\ healthy s2' /\ contents b' ++ pending s2' = rest.
Proof.
  intros He Hv Hb Ho Hbl Hm Hs Hn Hn'. change (2 ^ 192) with (256 ^ 24) in Hn'.
  destruct (peer_response_bytes ti t v bs He Hb) as (cs0 & Ebs & Hr & _).
  apply message_value_entry in Hv as (ti' & t' & E' & Hv). rewrite He in E'. injection E' as <- <-.
  pose proof (p2p_entry_Codec _ _ _ He) as Hc. pose proof (codec_bytes v Hv) as Hrt. rewrite Hb in Hrt.
  unfold write_msg. rewrite Hb. cbn [at_rng map_err mbind result_bind].
  destruct (write_encrypted_sends o Ho max_chunk_size bs key n r s Hm Hs Hn Hn')
    as (ps & cs & r' & s' & Ew & Hf & Hcc & Hps & Hsl & Hlt & Hsent & _ & _).
  assert (Hmin : 4 <= zlen bs) by (rewrite Ebs, zlen_app, zlen_be_bytes; lia).
  specialize (Hlt Hbl). destruct ps as [|p ps]; [rewrite <- Hcc in Hmin; change (zlen (concat [])) with 0 in Hmin; lia|].
  assert (Hfit : Forall piece_fits (p :: ps)).
  { eapply Forall_impl; [|exact Hlt]. cbv beta. unfold piece_fits, CONTENT_LENGTH_MAX, MACBYTES, BUFFER_SIZE. lia. }
  exists p, ps, cs, r', s'. cbv zeta. split; [exact Ew|]. split; [done|]. split; [done|]. split; [done|].
  split.
  { intros Hns. specialize (Hsl Hns). pose proof (Forall_inv Hlt) as Hp.
    assert (Hne : bs <> []) by (intros ->; change (zlen []) with 0 in Hmin; lia).
    destruct (slice_chunks_first (CONTENT_LENGTH_MAX - MACBYTES) bs Hne) as (ps' & Esl).
    assert (zlen bs < CONTENT_LENGTH_MAX - MACBYTES).
    { rewrite Esl in Hsl. injection Hsl as -> _. unfold CONTENT_LENGTH_MAX, MACBYTES, zlen in *.
      rewrite length_take in Hp. lia. }
    rewrite slice_chunks_single in Hsl by done || lia.
    by injection Hsl as -> ->. }
  intros b s2 rest fuel Hbk Hs2 Hcont Hfu. destruct (Z.ltb_spec (zlen p) HEADER_LENGTH) as [Hsh|Hge].
  - eapply read_msg_short; [by eapply Forall_inv|done|done|done|exact Hf|exact Hcont|cbn in Hfu; lia].
  - destruct (read_msg_joins fuel ti key v p ps b n s2 cs rest) as (b' & s2' & Er & H1' & H2' & H3');
      rewrite ?Hcc; try done.
    + eapply Forall_impl; [|exact (Forall_inv_tail Hps)]. simpl. lia.
    + rewrite Ebs. rewrite take_app_le, take_ge by (rewrite be_bytes_length; lia).
      rewrite be_val_be_bytes_small by exact Hr. rewrite zlen_app, zlen_be_bytes. lia.
    + exists b', s2'. rewrite Er, increments. done.
Qed.

Lemma prefix_incomplete c p x :
  c ++ p = be_bytes 2 65535 ++ x -> zlen c <= BUFFER_SIZE -> chunk_incomplete c.
Proof.
  intros E Hl. unfold BUFFER_SIZE in Hl. destruct (Z.lt_ge_cases (zlen c) 2) as [|H2]; [by left|].
  right. exists 65535, (drop 2 c). split; [lia|]. split.
  - assert (Ht : take 2 c = be_bytes 2 65535).
    { transitivity (take 2 (c ++ p)); [rewrite take_app_le by (unfold zlen in H2; lia); done|].
      rewrite E, take_app_le by (rewrite be_bytes_length; lia).
      apply take_ge. rewrite be_bytes_length. lia. }
    rewrite <- Ht. by rewrite take_drop.
  - unfold zlen in *. rewrite length_drop. lia.
Qed.

(** A longer message sent without fuzzing is never received: its first chunk
    has the largest size, on which the receiver's [read_chunk] loops forever. *)
Theorem long_message_never_read
  `{BytesCrate, BitVecCrate, HexCrate, UnicodeTables, BigIntCrate, NomCrate,
    RandCrate, BigUintCrate, BoxCrate, TcpCrate}
  (ti : type_impl) (v : rval) (bs : bytes)
  (o : ChunkOptions) (max_chunk_size : Z) (key : bytes) (n : Nonce.t) (r : rng) (s : stream) :
  as_bytes ti v = Ok bs -> CONTENT_LENGTH_MAX - MACBYTES <= zlen bs ->
  no_fuzz o -> never_split o -> 2 <= max_chunk_size -> healthy s ->
  0 <= Nonce.value n -> Nonce.value n + zlen bs <= 2 ^ 192 ->
  exists n' r' s' wire, write_msg max_chunk_size o ti v key n r s = Ok (n', r', s') /\
    sent s' = sent s ++ wire /\
    forall peer b s2 rest fuel, buffer_ok b -> healthy s2 ->
      contents b ++ pending s2 = wire ++ rest ->
      read_msg fuel ti key peer b n s2 = Err OutOfFuel.
Proof.
  intros Hb Hl Ho Hns Hm Hs Hn Hn'. change (2 ^ 192) with (256 ^ 24) in Hn'.
  unfold write_msg. rewrite Hb. cbn [at_rng map_err mbind result_bind].
  destruct (write_encrypted_sends o Ho max_chunk_size bs key n r s Hm Hs Hn Hn')
    as (ps & cs & r' & s' & Ew & Hf & Hcc & Hps & Hsl & _ & Hsent & _ & _).
  rewrite Ew. eexists _, r', s', (concat cs). split; [reflexivity|]. split; [done|].
  unfold CONTENT_LENGTH_MAX, MACBYTES in Hl.
  destruct (slice_chunks_first (CONTENT_LENGTH_MAX - MACBYTES) bs) as (ps' & Esl).
  { intros ->. change (zlen []) with 0 in Hl. lia. }
  rewrite (Hsl Hns), Esl in Hf. inversion Hf as [|? ? body ? cs' Hd Hz Hf']; subst.
  assert (Hbody : zlen body = 65535).
  { rewrite Hz. unfold CONTENT_LENGTH_MAX, MACBYTES, zlen in *. rewrite length_take. lia. }
  rewrite Hbody. intros peer b s2 rest fuel Hbk Hs2 Hcont. cbn [concat] in Hcont.
  rewrite <- !app_assoc in Hcont. unfold read_msg. destruct fuel as [|fuel]; [done|].
  cbn [read_msg_loop]. rewrite read_chunk_waits; [done|done|done| |].
  - destruct (contents b) as [|x c] eqn:Ec.
    + right. intros Hp. rewrite Hp in Hcont. apply (f_equal zlen) in Hcont.
      rewrite !zlen_app, zlen_be_bytes, Hbody in Hcont. pose proof (zlen_nonneg (concat cs')).
      pose proof (zlen_nonneg rest). change (zlen []) with 0 in Hcont. lia.
    + left. rewrite <- contents_len, Ec, zlen_cons by done. pose proof (zlen_nonneg c). lia.
  - intros l Hll [k Hk]. apply (prefix_incomplete _ k (body ++ concat cs' ++ rest)); [|done].
    by rewrite <- app_assoc, <- Hk.
Qed.

Definition plain_options : ChunkOptions :=
  @mkChunkOptions reference_rand false false true false false 0.

Lemma plain_no_fuzz : no_fuzz plain_options /\ never_split plain_options.
Proof.
  split; [split; [|split]|].
  - intros r. eexists. reflexivity.
  - intros r. eexists. reflexivity.
  - intros p Hp r. eexists _, _. reflexivity.
  - intros r. eexists. reflexivity.
Qed.

Lemma disconnect_value
  `{BytesCrate, BitVecCrate, HexCrate, UnicodeTables, BigIntCrate, NomCrate, SynCrate} :
  message_value "PeerMessageResponse" disconnect.
Proof.
  split_env 28%nat. clear Hp Hrest Henc. rename He into Hm, p into pm, e1 into em, enc into encm.
  split_env 29%nat. unfold message_value. rewrite He. cbn [ts_vals derived_spec typed].
  eexists. split; [reflexivity|]. split; [reflexivity|]. cbn [typed].
  erewrite (env_spec_entry e1 "PeerMessage"); [|apply Hrest|exact Hm].
  2:{ apply (bool_decide_unpack _). vm_compute. exact I. }
  split; [|exact I]. by left.
Qed.

(** Every message is split, into single bytes. *)
Definition split_options : ChunkOptions :=
  @mkChunkOptions reference_rand false true true false false 0.

Lemma split_no_fuzz : no_fuzz split_options /\ always_split split_options.
Proof.
  split; [split; [|split]|].
  - intros r. eexists. reflexivity.
  - intros r. eexists. reflexivity.
  - intros p Hp r. eexists _, _. reflexivity.
  - intros r. eexists. reflexivity.
Qed.

Lemma peer_message_travels_witness :
  (exists ti r' s' wire,
    write_msg 100 plain_options ti disconnect (repeat 0 32) (Nonce.mk 5) tt (socket []) =
      Ok (Nonce.mk 6, r', s') /\
    sent s' = [] ++ wire /\
    forall b s2 rest fuel, buffer_ok b -> healthy s2 -> contents b ++ pending s2 = wire ++ rest ->
      (length (pending s2) + 1 <= fuel)%nat ->
      exists b' s2', read_msg fuel ti (repeat 0 32) true b (Nonce.mk 5) s2 =
          Ok (disconnect, b', Nonce.mk 6, s2') /\
        buffer_ok b' /\ healthy s2' /\ contents b' ++ pending s2' = rest) /\
  (exists ti p ps cs r' s',
    write_msg 100 split_options ti disconnect (repeat 0 32) (Nonce.mk 5) tt (socket []) =
      Ok (Nonce.mk (5 + zlen (p :: ps)), r', s') /\ concat (p :: ps) = [0; 0; 0; 2; 0; 1] /\
    sent s' = [] ++ concat cs).
Proof.
  destruct disconnect_written as (ti & t & E & Hb). split; exists ti.
  - assert (Hbl : below_largest plain_options [0; 0; 0; 2; 0; 1]) by (left; by vm_compute).
    destruct (peer_message_travels ti t disconnect [0; 0; 0; 2; 0; 1] plain_options 100 (repeat 0 32)
      (Nonce.mk 5) tt (socket []) E disconnect_value Hb (proj1 plain_no_fuzz)
      Hbl ltac:(lia) I ltac:(cbn; lia) ltac:(vm_compute; discriminate))
      as (p & ps & cs & r' & s' & Ew & Hs & _ & _ & Hone & Hrd).
    destruct (Hone (proj2 plain_no_fuzz)) as [-> ->].
    exists r', s', (concat cs). split; [exact Ew|]. split; [exact Hs|exact Hrd].
  - destruct (peer_message_travels ti t disconnect [0; 0; 0; 2; 0; 1] split_options 100 (repeat 0 32)
      (Nonce.mk 5) tt (socket []) E disconnect_value Hb (proj1 split_no_fuzz)
      (or_intror (proj2 split_no_fuzz)) ltac:(lia) I ltac:(cbn; lia) ltac:(vm_compute; discriminate))
      as (p & ps & cs & r' & s' & Ew & Hs & _ & Hc & _ & _).
    exists p, ps, cs, r', s'. split; [exact Ew|]. split; [exact Hc|exact Hs].
Defined.

(** A byte string as a message, for a long one. *)
Definition raw_impl : type_impl := mkImpl EBytes generate_bytes_nom_read.

Lemma raw_written l : are_bytes l -> as_bytes raw_impl (RSeq (map RU8 l)) = Ok l.
Proof.
  intros Hl. unfold as_bytes, write. cbn [raw_impl ti_encoding serialize].
  rewrite serialize_u8s. cbn [lift map_err mbind result_bind].
  rewrite encode_any_value, encode_value_appends by done. unfold appended. cbn [write_spec].
  by rewrite u8_values_bytes.
Qed.

Definition long_bytes : bytes := replicate (Z.to_nat 65519) 0.

Lemma long_bytes_ok : are_bytes long_bytes /\ zlen long_bytes = 65519.
Proof.
  unfold long_bytes, zlen. rewrite length_replicate. split; [|lia].
  apply Forall_replicate. unfold is_byte. lia.
Qed.

Lemma long_message_never_read_witness :
  exists n' r' s' wire,
    write_msg 100 plain_options raw_impl (RSeq (map RU8 long_bytes)) (repeat 0 32) (Nonce.mk 5) tt (socket []) =
      Ok (n', r', s') /\
    sent s' = [] ++ wire /\
    forall peer b s2 rest fuel, buffer_ok b -> healthy s2 ->
      contents b ++ pending s2 = wire ++ rest ->
      read_msg fuel raw_impl (repeat 0 32) peer b (Nonce.mk 5) s2 = Err OutOfFuel.
Proof.
  destruct long_bytes_ok as [Hb Hl].
  apply (long_message_never_read raw_impl (RSeq (map RU8 long_bytes)) long_bytes plain_options 100
    (repeat 0 32) (Nonce.mk 5) tt (socket []) (raw_written long_bytes Hb)).
  - rewrite Hl. unfold CONTENT_LENGTH_MAX, MACBYTES. lia.
  - exact (proj1 plain_no_fuzz).
  - exact (proj2 plain_no_fuzz).
  - lia.
  - exact I.
  - cbn [Nonce.value]. lia.
  - rewrite Hl. cbn [Nonce.value]. lia.
Defined.
