(* ===== verification/PublicKeys.v ===== *)
(** * Public keys and their hashes ([tezos/messages/src/base/mod.rs],
    [signature_public_key.rs], [signature_public_key_hash.rs])

    Keys and key hashes of the three curves, made from base58check text, from
    hexadecimal text with a curve name, and from tagged bytes.  The theorems:
    whatever they are made from, the values have the size of their type, so their
    text form always exists and reads back; tagged bytes give the hash of the
    tagged key; and the tagged form of public keys is read at the wrong place, so
    that keys of two of the three curves are never accepted.

    Text is the list of its UTF-8 bytes. *)

From Stdlib Require Import ZArith Lia List Bool Ascii String.
From stdpp Require Import base option list numbers strings.
From S2P Require Import Prelude Extern CryptoHash NomReader ExternRef.

(** ** [hex::encode] *)
Class HexEncode `{HexCrate} : Type := {
  hex_encode : bytes -> bytes;
  hex_encode_len bs : zlen (hex_encode bs) = 2 * zlen bs;
  hex_decode_encode bs : are_bytes bs -> hex_decode (hex_encode bs) = Ok bs;
}.

(** A string literal. *)
Definition lit (s : string) : bytes :=
  map (fun c => Z.of_nat (nat_of_ascii c)) (list_ascii_of_string s).

(** [&s[0..n]] of a text longer than [n]; [None] is the panic of a cut inside a
    character. *)
Definition str_prefix (n : nat) (s : bytes) : option bytes :=
  if cont (nth n s 0) then None else Some (take n s).

(** ** [ConversionError]

    [base::ConversionError] and [signature_public_key_hash::ConversionError], which
    has one variant more.  The text an [InvalidHash] carries is the text given, or
    the message of the error it comes from; [ConversionPanicked] is a panic. *)
Inductive HashText : Type :=
| Given (s : bytes)
| OfHexError (e : FromHexError)
| OfBase58Error (e : FromBase58CheckError)
| OfBytesError (e : FromBytesError).

Inductive ConversionError : Type :=
| InvalidPublicKey
| InvalidHash (hash : HashText)
| InvalidCurveTag (curve_tag : bytes)
| ConversionBlake2bError
| ConversionPanicked.

Abbreviation cres := (result ConversionError).

Section Keys.
Context `{Base58Crate, Sodium, HexCrate, !HexEncode}.

(** [hash.try_into()?] at a type of hash, and [from_base58_check(..)?]. *)
Definition typed_hash (t : HashType) (hash : bytes) : cres bytes :=
  map_err (fun e => InvalidHash (OfBytesError e)) (hash_from_bytes t hash).
Definition text_hash (t : HashType) (s : bytes) : cres bytes :=
  map_err (fun e => InvalidHash (OfBase58Error e)) (b58check_to_hash t s).

(** [to_base58_check], with its [unreachable!]. *)
Definition to_base58_check (t : HashType) (h : bytes) : option bytes :=
  match hash_to_b58check t h with B58Text s => Some s | _ => None end.
End Keys.

(** ** [SignaturePublicKeyHash] *)
Module PublicKeyHash.
Inductive t : Type := Ed25519 (h : bytes) | Secp256k1 (h : bytes) | P256 (h : bytes).

Definition hash_type (k : t) : HashType :=
  match k with
  | Ed25519 _ => ContractTz1Hash | Secp256k1 _ => ContractTz2Hash | P256 _ => ContractTz3Hash
  end.
Definition hash (k : t) : bytes := match k with Ed25519 h | Secp256k1 h | P256 h => h end.

Section Ops.
Context `{Base58Crate, Sodium, HexCrate, !HexEncode}.

Definition to_string_representation (k : t) : option bytes := to_base58_check (hash_type k) (hash k).

Definition from_hex_hash_and_curve (hash curve : bytes) : cres t :=
  if zlen hash =? 40 then
    hash ← map_err (fun e => InvalidHash (OfHexError e)) (hex_decode hash);
    if decide (curve = lit "ed25519") then Ed25519 <$> typed_hash ContractTz1Hash hash
    else if decide (curve = lit "secp256k1") then Secp256k1 <$> typed_hash ContractTz2Hash hash
    else if decide (curve = lit "p256") then P256 <$> typed_hash ContractTz3Hash hash
    else Err (InvalidCurveTag curve)
  else Err (InvalidHash (Given hash)).

Definition from_b58_hash (b58_hash : bytes) : cres t :=
  if 3 <? zlen b58_hash then
    tag ← ok_or (str_prefix 3 b58_hash) ConversionPanicked;
    if decide (tag = lit "tz1") then Ed25519 <$> text_hash ContractTz1Hash b58_hash
    else if decide (tag = lit "tz2") then Secp256k1 <$> text_hash ContractTz2Hash b58_hash
    else if decide (tag = lit "tz3") then P256 <$> text_hash ContractTz3Hash b58_hash
    else Err (InvalidCurveTag tag)
  else Err (InvalidHash (Given b58_hash)).

Definition from_tagged_bytes (pk : bytes) : cres t :=
  if (zlen pk =? 33) || (zlen pk =? 34) then
    let tag := nth 0 pk 0 in
    hash ← map_err (fun _ => ConversionBlake2bError) (digest_160 (drop 1 pk));
    if tag =? 0 then from_hex_hash_and_curve (hex_encode hash) (lit "ed25519")
    else if tag =? 1 then from_hex_hash_and_curve (hex_encode hash) (lit "secp256k1")
    else if tag =? 2 then from_hex_hash_and_curve (hex_encode hash) (lit "p256")
    else Err InvalidPublicKey
  else Err InvalidPublicKey.
End Ops.
End PublicKeyHash.

(** ** [SignaturePublicKey] *)
Module PublicKey.
Inductive t : Type := Ed25519 (h : bytes) | Secp256k1 (h : bytes) | P256 (h : bytes).

Definition hash_type (k : t) : HashType :=
  match k with
  | Ed25519 _ => PublicKeyEd25519 | Secp256k1 _ => PublicKeySecp256k1 | P256 _ => PublicKeyP256
  end.
Definition hash (k : t) : bytes := match k with Ed25519 h | Secp256k1 h | P256 h => h end.

Section Ops.
Context `{Base58Crate, Sodium, HexCrate, !HexEncode}.

Definition to_string_representation (k : t) : option bytes := to_base58_check (hash_type k) (hash k).

Definition from_b58_hash (b58_hash : bytes) : cres t :=
  if 4 <? zlen b58_hash then
    tag ← ok_or (str_prefix 4 b58_hash) ConversionPanicked;
    if decide (tag = lit "edpk") then Ed25519 <$> text_hash PublicKeyEd25519 b58_hash
    else if decide (tag = lit "sppk") then Secp256k1 <$> text_hash PublicKeySecp256k1 b58_hash
    else if decide (tag = lit "p2pk") then P256 <$> text_hash PublicKeyP256 b58_hash
    else Err (InvalidCurveTag tag)
  else Err (InvalidHash (Given b58_hash)).

Definition from_hex_hash_and_curve (hash curve : bytes) : cres t :=
  if (zlen hash =? 66) || (zlen hash =? 64) then
    hash ← map_err (fun e => InvalidHash (OfHexError e)) (hex_decode hash);
    if decide (curve = lit "ed25519") then Ed25519 <$> typed_hash PublicKeyEd25519 hash
    else if decide (curve = lit "secp256k1") then Secp256k1 <$> typed_hash PublicKeySecp256k1 hash
    else if decide (curve = lit "p256") then P256 <$> typed_hash PublicKeyP256 hash
    else Err (InvalidCurveTag curve)
  else Err (InvalidHash (Given hash)).

Definition from_tagged_bytes (pk : bytes) : cres t :=
  if (zlen pk =? 33) || (zlen pk =? 34) then
    let tag := nth 1 pk 0 in
    if tag =? 0 then from_hex_hash_and_curve (hex_encode (drop 2 pk)) (lit "ed25519")
    else if tag =? 1 then from_hex_hash_and_curve (hex_encode (drop 2 pk)) (lit "secp256k1")
    else if tag =? 2 then from_hex_hash_and_curve (hex_encode (drop 2 pk)) (lit "p256")
    else Err InvalidPublicKey
  else Err InvalidPublicKey.
End Ops.
End PublicKey.

(** ** A reference [hex::encode] *)
Fixpoint hex_text (bs : bytes) : bytes :=
  match bs with
  | [] => []
  | b :: bs => hex_char (b / 16) :: hex_char (b mod 16) :: hex_text bs
  end.

Lemma hex_text_pairs bs : are_bytes bs ->
  Nat.even (length (hex_text bs)) = true /\ hex_pairs (hex_text bs) = Some bs.
Proof.
  induction 1 as [|b bs Hb _ [IH1 IH2]]; [done|]. unfold is_byte in Hb. split; [exact IH1|].
  cbn [hex_text hex_pairs]. rewrite !hex_char_digit, IH2.
  - do 2 f_equal. pose proof (Z.div_mod b 16). lia.
  - apply Z.mod_pos_bound. lia.
  - split; [apply Z.div_pos|apply Z.div_lt_upper_bound]; lia.
Qed.

#[export] Instance reference_hex_encode : HexEncode.
Proof.
  refine {| hex_encode := hex_text |}.
  - intros bs. induction bs as [|b bs IH]; [done|]. cbn [hex_text]. rewrite !zlen_cons, IH. lia.
  - intros bs Hbs. destruct (hex_text_pairs bs Hbs) as [He Hp]. simpl. by rewrite He, Hp.
Defined.

(** ** Sizes *)
Section Sizes.
Context `{Base58Crate, Sodium, HexCrate, !HexEncode}.

Lemma typed_hash_inv t h h' : typed_hash t h = Ok h' -> h' = h /\ zlen h = hash_size t.
Proof.
  unfold typed_hash, hash_from_bytes. destruct (Z.eqb_spec (zlen h) (hash_size t)); [|done].
  by intros [= <-].
Qed.

Lemma text_hash_size t s h : text_hash t s = Ok h -> zlen h = hash_size t.
Proof.
  unfold text_hash, b58check_to_hash. destruct (from_base58check s) as [d|]; [|done]. simpl.
  destruct (Z.eqb_spec (hash_size t + zlen (base58check_prefix t)) (zlen d)) as [E|]; [|done].
  intros [= <-]. pose proof (hash_size_bounds t). unfold zlen in *. rewrite length_drop. lia.
Qed.

(** The text of a value of the right size. *)
Lemma sized_text t h : zlen h = hash_size t ->
  exists s, to_base58_check t h = Some s /\ b58check_to_hash t s = Ok h.
Proof.
  intros Hh. destruct (b58check_to_hash_of t t h) as (s & Hs & Hb); [done|done|done|].
  exists s. unfold to_base58_check. by rewrite Hs.
Qed.

Lemma fmap_ok {A B} (f : A -> B) (r : cres A) b : f <$> r = Ok b -> exists a, r = Ok a /\ b = f a.
Proof. destruct r as [a|]; [|done]. intros [= <-]. eauto. Qed.
End Sizes.

(** Follows the branches of a conversion down to the hash it wraps. *)
Ltac conversion E :=
  repeat match type of E with
  | (if ?b then _ else _) = Ok _ => destruct b; try discriminate E
  | (_ ← ?r; _) = Ok _ => destruct r; try discriminate E; cbn [mbind result_bind] in E
  end;
  try (apply fmap_ok in E as (? & E & ->);
       first [apply typed_hash_inv in E as [-> E]|apply text_hash_size in E]).

(** A key hash that comes from any of the three conversions, whatever it was
    made from, has the size of its type: its text form exists, the [unreachable!]
    of [to_base58_check] is not reached, and the text reads back as the value. *)
Theorem key_hash_text `{Base58Crate, Sodium, HexCrate, !HexEncode} (k : PublicKeyHash.t)
  (text curve : bytes) :
  PublicKeyHash.from_b58_hash text = Ok k \/
  PublicKeyHash.from_hex_hash_and_curve text curve = Ok k \/
  PublicKeyHash.from_tagged_bytes text = Ok k ->
  exists s, PublicKeyHash.to_string_representation k = Some s /\
    b58check_to_hash (PublicKeyHash.hash_type k) s = Ok (PublicKeyHash.hash k).
Proof.
  intros E. apply sized_text. destruct E as [E|[E|E]].
  - unfold PublicKeyHash.from_b58_hash in E. by conversion E.
  - unfold PublicKeyHash.from_hex_hash_and_curve in E. by conversion E.
  - unfold PublicKeyHash.from_tagged_bytes, PublicKeyHash.from_hex_hash_and_curve in E.
    by conversion E.
Qed.

Example key_hash_text_witness :
  PublicKeyHash.from_hex_hash_and_curve (hex_text (replicate 20 7)) (lit "p256") =
    Ok (PublicKeyHash.P256 (replicate 20 7)) /\
  exists s, PublicKeyHash.to_string_representation (PublicKeyHash.P256 (replicate 20 7)) = Some s /\
    b58check_to_hash ContractTz3Hash s = Ok (replicate 20 7).
Proof.
  split; [reflexivity|].
  apply (key_hash_text (PublicKeyHash.P256 (replicate 20 7)) (hex_text (replicate 20 7)) (lit "p256")).
  right. left. reflexivity.
Defined.

Section Tagged.
Context `{Base58Crate, Sodium, HexCrate, !HexEncode}.

Lemma key_hash_from_hex h curve (C : bytes -> PublicKeyHash.t) t :
  are_bytes h -> zlen h = 20 ->
  (curve = lit "ed25519" /\ C = PublicKeyHash.Ed25519 /\ t = ContractTz1Hash \/
   curve = lit "secp256k1" /\ C = PublicKeyHash.Secp256k1 /\ t = ContractTz2Hash \/
   curve = lit "p256" /\ C = PublicKeyHash.P256 /\ t = ContractTz3Hash) ->
  PublicKeyHash.from_hex_hash_and_curve (hex_encode h) curve = Ok (C h).
Proof.
  intros Hb Hl Hc. unfold PublicKeyHash.from_hex_hash_and_curve.
  rewrite hex_encode_len, Hl, hex_decode_encode by done. cbn [Z.eqb Z.mul Pos.mul Pos.eqb map_err mbind result_bind].
  unfold typed_hash, hash_from_bytes. cbn [hash_size]. rewrite Hl.
  by destruct Hc as [(-> & -> & ->)|[(-> & -> & ->)|(-> & -> & ->)]].
Qed.

(** The decoded tail of a tagged key, at the type of its curve. *)
Lemma public_key_from_hex h curve k :
  are_bytes h -> PublicKey.from_hex_hash_and_curve (hex_encode h) curve = Ok k ->
  PublicKey.hash k = h /\ zlen h = hash_size (PublicKey.hash_type k) /\
  curve = (match k with PublicKey.Ed25519 _ => lit "ed25519" | PublicKey.Secp256k1 _ => lit "secp256k1"
           | PublicKey.P256 _ => lit "p256" end).
Proof.
  intros Hb. unfold PublicKey.from_hex_hash_and_curve. rewrite hex_decode_encode by done.
  destruct ((_ =? _) || _); [|done]. cbn [map_err mbind result_bind].
  repeat case_decide; intros E; try done;
    apply fmap_ok in E as (a & E & ->); apply typed_hash_inv in E as [-> E]; done.
Qed.

Lemma drop2_len (pk : bytes) : zlen pk = 33 \/ zlen pk = 34 -> zlen (drop 2 pk) = zlen pk - 2.
Proof. unfold zlen. rewrite length_drop. lia. Qed.
End Tagged.

(** The hash of a tagged public key: 33 or 34 bytes whose first is the tag of a
    curve give the 160-bit Blake2b digest of the rest, as a hash of that curve;
    any other tag and any other length are refused. *)
Theorem tagged_key_hash `{Base58Crate, Sodium, HexCrate, !HexEncode} (tag : Z) (key : bytes) :
  exists h, digest_160 key = Ok h /\
    PublicKeyHash.from_tagged_bytes (tag :: key) =
      if (zlen key =? 32) || (zlen key =? 33) then
        if tag =? 0 then Ok (PublicKeyHash.Ed25519 h)
        else if tag =? 1 then Ok (PublicKeyHash.Secp256k1 h)
        else if tag =? 2 then Ok (PublicKeyHash.P256 h)
        else Err InvalidPublicKey
      else Err InvalidPublicKey.
Proof.
  destruct (digest_ok key 20) as (h & Hd & Hl & Hb); [lia|]. exists h. split; [done|].
  unfold PublicKeyHash.from_tagged_bytes. rewrite zlen_cons.
  replace (1 + zlen key =? 33) with (zlen key =? 32) by (apply eq_true_iff_eq; rewrite !Z.eqb_eq; lia).
  replace (1 + zlen key =? 34) with (zlen key =? 33) by (apply eq_true_iff_eq; rewrite !Z.eqb_eq; lia).
  destruct ((zlen key =? 32) || _); [|done]. cbn [nth].
  change (digest_160 (drop 1 (tag :: key))) with (digest key 20). rewrite Hd. cbn [map_err mbind result_bind].
  destruct (tag =? 0); [eapply key_hash_from_hex; eauto|].
  destruct (tag =? 1); [eapply key_hash_from_hex; eauto 6|].
  destruct (tag =? 2); [eapply key_hash_from_hex; eauto 7|done].
Qed.

Example tagged_key_hash_witness :
  exists h, digest_160 (replicate 33 9) = Ok h /\
    PublicKeyHash.from_tagged_bytes (2 :: replicate 33 9) = Ok (PublicKeyHash.P256 h).
Proof. apply (tagged_key_hash 2 (replicate 33 9)). Defined.

(** Public keys themselves are read from the wrong place: the tag is taken from
    the second byte and the key from the third on, so of all byte strings only
    those of 34 bytes with a second byte 0 are accepted, as ed25519 keys.  The
    documented forms (a tag and 32 or 33 bytes) give no key of the other two
    curves, and of the first one only bytes shifted by one. *)
Theorem tagged_public_key `{Base58Crate, Sodium, HexCrate, !HexEncode} (pk : bytes) (k : PublicKey.t) :
  are_bytes pk ->
  (PublicKey.from_tagged_bytes pk = Ok k <->
   zlen pk = 34 /\ nth 1 pk 0 = 0 /\ k = PublicKey.Ed25519 (drop 2 pk)).
Proof.
  intros Hb. assert (Hd : are_bytes (drop 2 pk)) by by apply Forall_drop.
  unfold PublicKey.from_tagged_bytes. split.
  - destruct (Z.eqb_spec (zlen pk) 33) as [H33|H33], (Z.eqb_spec (zlen pk) 34) as [H34|H34];
      cbn [orb]; try done; [lia| |]; rewrite <- ?H33, <- ?H34 in *.
    all: pose proof (drop2_len pk ltac:(lia)) as Hl.
    all: destruct (Z.eqb_spec (nth 1 pk 0) 0);
      [|destruct (Z.eqb_spec (nth 1 pk 0) 1); [|destruct (Z.eqb_spec (nth 1 pk 0) 2); [|done]]].
    all: intros (Eh & Es & Ec)%public_key_from_hex; [|done].
    all: destruct k as [h|h|h]; cbn in Eh, Es; try discriminate Ec; try lia.
    by rewrite Eh.
  - intros (Hl & Ht & ->). rewrite Hl, Ht. cbn [Z.eqb Pos.eqb orb].
    unfold PublicKey.from_hex_hash_and_curve.
    rewrite hex_encode_len, (drop2_len pk), Hl, hex_decode_encode by (done || lia).
    cbn [Z.eqb Z.mul Z.sub Z.add Z.opp Pos.mul Pos.eqb orb map_err mbind result_bind Z.pos_sub Pos.pred_double].
    rewrite decide_True by done. unfold typed_hash, hash_from_bytes.
    by rewrite (drop2_len pk), Hl by lia.
Qed.

Example tagged_public_key_witness :
  let pk := 1 :: replicate 33 2 in
  PublicKey.from_tagged_bytes pk = Ok (PublicKey.Secp256k1 (replicate 33 2)) <->
  zlen pk = 34 /\ nth 1 pk 0 = 0 /\ PublicKey.Secp256k1 (replicate 33 2) = PublicKey.Ed25519 (drop 2 pk).
Proof.
  apply (tagged_public_key (1 :: replicate 33 2) (PublicKey.Secp256k1 (replicate 33 2))).
  repeat constructor; done.
Defined.
