(* ===== verification/MessageFits.v ===== *)
(** * The size of a message on the wire

    [fits d v n]: the Rust value [v] has the type the tree [d] was made from, no
    size limit refuses it, and it is written as [n] bytes.  One rule per kind of
    tree, with the size limit of the tree as the rule's side condition, and one
    rule that unfolds the name of a declared type, so that the size of a whole
    message follows from the sizes of its parts. *)

From Stdlib Require Import ZArith Lia List Bool String.
From stdpp Require Import base option list numbers strings.
From S2P Require Import Prelude Extern BitUtils CryptoHash Types Serializer BinaryWriter WriterSpec NomCrate NomReader DeriveMake Derive RoundTrip DerivedCodec MerklePath Messages BinaryMessage ExternRef Zarith WriterFacts.

Set Warnings "-register-all".

(** The sum of a list of sizes. *)
Fixpoint zsum (l : list Z) : Z := match l with [] => 0 | n :: l => n + zsum l end.

Lemma zsum_app l k : zsum (l ++ k) = zsum l + zsum k.
Proof. induction l as [|n l IH]; simpl; lia. Qed.

Lemma zsum_bound {A} (f : A -> Z) (m : Z) l :
  Forall (fun x => f x <= m) l -> zsum (map f l) <= m * zlen l.
Proof.
  induction 1 as [|x l Hx _ IH]; [unfold zlen; simpl; lia|]. cbn [map zsum].
  rewrite zlen_cons. lia.
Qed.

Lemma zsum_const {A} (m : Z) (l : list A) : zsum (map (fun _ => m) l) = m * zlen l.
Proof.
  induction l as [|x l IH]; [unfold zlen; simpl; lia|]. cbn [map zsum]. rewrite zlen_cons, IH. lia.
Qed.

Lemma zsum_nonneg {A} (f : A -> Z) l : Forall (fun x => 0 <= f x) l -> 0 <= zsum (map f l).
Proof. induction 1; simpl; lia. Qed.

(** The types a tree mentions by name. *)
Fixpoint paths (d : denc) : list (list string) :=
  match d with
  | DPath path => [path]
  | DStruct _ fields =>
      concat (map (fun f => match f.2 with Some d => paths d | None => [] end) fields)
  | DEnum _ _ _ tags => concat (map (fun t => paths t.2) tags)
  | DOptionField d | DList _ d | DSized _ d | DBounded _ d | DDynamic _ d => paths d
  | _ => []
  end.

Section Ext.
Context (const : string -> Z) (dflt : string -> string -> rval).

Lemma opt_map_ext {A B} (f g : A -> option B) l :
  Forall (fun x => f x = g x) l -> opt_map f l = opt_map g l.
Proof. induction 1 as [|x l Hx _ IH]; simpl; [done|]. by rewrite Hx, IH. Qed.

Lemma elem_of_paths {A} (f : A -> list (list string)) x l path :
  x ∈ l -> path ∈ f x -> path ∈ concat (map f l).
Proof.
  intros Hx Hp. apply list_elem_of_In, in_concat. exists (f x).
  split; [by apply in_map, list_elem_of_In|by apply list_elem_of_In].
Qed.

(** The code generated for a tree depends on the types it mentions only. *)
Lemma generate_encoding_ext (impl impl' : list string -> type_impl) : forall d,
  (forall path, path ∈ paths d -> impl path = impl' path) ->
  generate_encoding const impl d = generate_encoding const impl' d.
Proof.
  refine (denc_strong_ind _ _ _ _ _ _ _ _ _).
  - intros d. destruct d; try done. intros Hp. cbn [generate_encoding]. rewrite Hp; [done|by left].
  - intros n fields Hall Hp. cbn [generate_encoding].
    enough (E : encoded_fields (generate_encoding const impl) fields =
      encoded_fields (generate_encoding const impl') fields) by by rewrite E.
    cbn [paths] in Hp. induction Hall as [|[m [d|]] fields Hd _ IH]; [done| |];
      cbn [encoded_fields]; cbn [map concat fst snd] in Hp; cbn [snd] in Hd.
    + rewrite Hd, IH; [done| |]; intros path Hin; apply Hp, elem_of_app; auto.
    + apply IH. intros path Hin. apply Hp, elem_of_app. by right.
  - intros n t i tags Hall Hp. cbn [generate_encoding]. cbn [paths] in Hp.
    rewrite (opt_map_ext _ (fun t => e ← generate_encoding const impl' t.2; Some (t.1.1, t.1.2, e)));
      [done|].
    apply Forall_forall. intros tg Htg. rewrite Forall_forall in Hall. rewrite Hall; [done|done|].
    intros path Hpath. apply Hp. by apply (elem_of_paths (fun t => paths t.2) tg).
  - intros d IH Hp. cbn [generate_encoding]. by rewrite IH.
  - intros s d IH Hp. cbn [generate_encoding]. by rewrite IH.
  - intros s d IH Hp. cbn [generate_encoding]. by rewrite IH.
  - intros s d IH Hp. cbn [generate_encoding]. by rewrite IH.
  - intros s d IH Hp. cbn [generate_encoding]. by rewrite IH.
Qed.

Lemma is_list_impl (T U : rval -> Prop) v : (forall w, T w -> U w) -> is_list T v -> is_list U v.
Proof. intros Hi (l & -> & Hl). exists l. split; [done|]. by apply (Forall_impl T). Qed.

(** The values of a tree depend on the types it mentions only. *)
Lemma typed_ext (spec spec' : list string -> option type_spec) : forall d,
  (forall path, path ∈ paths d -> spec path = spec' path) ->
  forall v, typed spec dflt d v -> typed spec' dflt d v.
Proof.
  refine (denc_strong_ind _ _ _ _ _ _ _ _ _).
  - intros d. destruct d; try done. intros Hp v. cbn [typed]. rewrite Hp; [done|by left].
  - intros n fields Hall Hp v (vals & -> & Hv). exists vals. split; [done|]. cbn [paths] in Hp.
    revert vals Hv. induction Hall as [|[m od] fields Hd _ IH]; intros [|[m' w] vals] Hv; try done.
    cbn [fields_typed] in *. destruct Hv as (Hm & Hw & Hv). cbn [map concat fst snd] in *.
    split; [done|]. split.
    + destruct od as [d|]; [|done]. apply Hd; [|done]. intros path Hin. apply Hp, elem_of_app. by left.
    + apply IH; [|done]. intros path Hin. apply Hp, elem_of_app. by right.
  - intros n t i tags Hall Hp v. cbn [typed paths] in *. generalize 0 as k.
    induction Hall as [|[[id m] d] tags Hd _ IH]; intros k Hv; [done|].
    cbn [variant_typed map concat snd] in *. destruct Hv as [Hv|Hv].
    + left. destruct (is_unit d); [done|]. destruct Hv as (w & -> & Hw). exists w. split; [done|].
      apply Hd; [|done]. intros path Hin. apply Hp, elem_of_app. by left.
    + right. apply IH; [|done]. intros path Hin. apply Hp, elem_of_app. by right.
  - intros d IH Hp v [->|(w & -> & Hw)]; [by left|right]. exists w. split; [done|]. by apply IH.
  - intros s d IH Hp v. apply is_list_impl. by apply IH.
  - intros s d IH Hp v. by apply IH.
  - intros s d IH Hp v. by apply IH.
  - intros s d IH Hp v. by apply IH.
Qed.
End Ext.

Section Fits.
Context `{BytesCrate, BitVecCrate, HexCrate, UnicodeTables, BigIntCrate, NomCrate, SynCrate}.

(** The generated code of a type, by its name. *)
Definition impl_of (name : string) : type_impl :=
  match p2p_entry name with Some (ti, _) => ti | None => mkImpl EUnit (fun i => Err Incomplete) end.

Definition path_impl_of (path : list string) : type_impl :=
  match path with [n] => impl_of n | _ => mkImpl EUnit (fun i => Err Incomplete) end.
Definition path_spec_of (path : list string) : option type_spec :=
  match path with [n] => snd <$> p2p_entry n | _ => None end.

(** [v] is written under [e] as [n] bytes. *)
Definition sized (e : Encoding) (v : rval) (n : Z) : Prop :=
  exists x bs, serialize v = Ok x /\ write_spec e x = Ok bs /\ zlen bs = n.

Definition fits (d : denc) (v : rval) (n : Z) : Prop :=
  typed path_spec_of no_default d v /\
  exists e, generate_encoding const path_impl_of d = Some e /\ sized e v n.

Lemma fits_eq d v n m : fits d v n -> n = m -> fits d v m.
Proof. by intros Hf ->. Qed.

Lemma fits_nonneg d v n : fits d v n -> 0 <= n.
Proof. intros (_ & e & _ & x & bs & _ & _ & <-). apply zlen_nonneg. Qed.

(** ** Leaves *)
Ltac leaf := eexists; split; [reflexivity|]; eexists _, _; split; [reflexivity|];
  split; [reflexivity|]; try apply zlen_be_bytes.

Lemma fits_i8 z : in_s 8 z -> fits (DPrimitive PInt8) (RI8 z) 1.
Proof. intros Hz. split; [by exists z|leaf]. Qed.
Lemma fits_u8 z : in_u 8 z -> fits (DPrimitive PUint8) (RU8 z) 1.
Proof. intros Hz. split; [by exists z|leaf]. Qed.
Lemma fits_i16 z : in_s 16 z -> fits (DPrimitive PInt16) (RI16 z) 2.
Proof. intros Hz. split; [by exists z|leaf]. Qed.
Lemma fits_u16 z : in_u 16 z -> fits (DPrimitive PUint16) (RU16 z) 2.
Proof. intros Hz. split; [by exists z|leaf]. Qed.
Lemma fits_i32 z : in_s 32 z -> fits (DPrimitive PInt32) (RI32 z) 4.
Proof. intros Hz. split; [by exists z|leaf]. Qed.
Lemma fits_timestamp z : in_s 64 z -> fits (DPrimitive PTimestamp) (RI64 z) 8.
Proof. intros Hz. split; [by exists z|leaf]. Qed.
Lemma fits_bool b : fits (DPrimitive PBool) (RBool b) 1.
Proof. split; [by exists b|leaf]. Qed.

Lemma sized_string s : zlen s < 2 ^ 32 -> string_bytes s = Ok (be_bytes 4 (zlen s) ++ s).
Proof.
  intros Hs. unfold string_bytes. destruct (Z.leb_spec (4 + zlen s) usize_max); [done|].
  unfold usize_max in *. lia.
Qed.

(** A Rust string: UTF-8, of a length that fits its length field. *)
Definition string_ok (s : bytes) : Prop := utf8_valid s = true /\ zlen s < 2 ^ 32.

Lemma fits_string s : string_ok s -> fits (DString None) (RStr s) (4 + zlen s).
Proof.
  intros [Hu Hl]. split; [by exists s|]. eexists. split; [reflexivity|]. eexists _, _.
  split; [reflexivity|]. cbn [generate_string_encoding write_spec]. rewrite sized_string by done.
  split; [done|]. by rewrite zlen_app, zlen_be_bytes.
Qed.

Lemma fits_bounded_string m s :
  string_ok s -> zlen s <= const m -> fits (DString (Some m)) (RStr s) (4 + zlen s).
Proof.
  intros [Hu Hl] Hm. split; [by exists s|]. eexists. split; [reflexivity|]. eexists _, _.
  split; [reflexivity|]. cbn [generate_string_encoding write_spec].
  destruct (Z.ltb_spec (const m) (zlen s)); [lia|]. rewrite sized_string by done.
  split; [done|]. by rewrite zlen_app, zlen_be_bytes.
Qed.

Lemma fits_bytes l : are_bytes l -> fits DBytes (bytes_rval l) (zlen l).
Proof.
  intros Hl. split; [by exists l|]. eexists. split; [reflexivity|]. unfold bytes_rval.
  eexists _, l. cbn [serialize]. rewrite serialize_u8s. split; [reflexivity|].
  cbn [write_spec]. by rewrite u8_values_bytes.
Qed.

(** ** Combinators *)
Lemma fits_none d e : generate_encoding const path_impl_of d = Some e -> fits (DOptionField d) RNone 1.
Proof.
  intros He. split; [by left|]. exists (EOptionalField e). cbn [generate_encoding]. rewrite He.
  split; [done|]. eexists _, _. done.
Qed.

Lemma fits_some d v n : fits d v n -> n < usize_max -> fits (DOptionField d) (RSome v) (1 + n).
Proof.
  intros (Ht & e & He & x & bs & Hx & Hb & Hn) Hl. split; [right; by exists v|].
  exists (EOptionalField e). cbn [generate_encoding]. rewrite He. split; [done|].
  eexists _, (be_bytes 1 BYTE_FIELD_SOME ++ bs). cbn [serialize]. rewrite Hx. split; [reflexivity|].
  cbn [write_spec]. rewrite Hb. cbn [mbind result_bind]. unfold guard_size.
  rewrite zlen_app, zlen_be_bytes, Hn. change (Z.of_nat 1) with 1.
  by destruct (Z.leb_spec (1 + n) usize_max); [|lia].
Qed.

Lemma sized_list e l ns : Forall2 (sized e) l ns ->
  exists xs bss, try_map serialize l = Ok xs /\
    try_map (fun v => map_err element_of (write_spec e v)) xs = Ok bss /\
    zlen (concat bss) = zsum ns.
Proof.
  induction 1 as [|v n l ns (x & bs & Hx & Hb & Hn) _ (xs & bss & Hxs & Hbs & Hz)].
  - by exists [], [].
  - exists (x :: xs), (bs :: bss). cbn [try_map]. rewrite Hx, Hb. cbn [map_err mbind result_bind].
    rewrite Hxs, Hbs. split; [done|]. split; [done|]. cbn [concat zsum]. by rewrite zlen_app, Hn, Hz.
Qed.

Lemma fits_list m d l ns e : Forall2 (fits d) l ns ->
  generate_encoding const path_impl_of d = Some e ->
  (forall s, m = Some s -> zlen l <= const s) -> fits (DList m d) (RSeq l) (zsum ns).
Proof.
  intros Hall He Hm. split.
  { exists l. split; [done|]. clear -Hall. by induction Hall as [|v n l ns [Ht _] _ IH]; constructor. }
  exists (generate_list_encoding const m e). cbn [generate_encoding]. rewrite He. split; [done|].
  destruct (sized_list e l ns) as (xs & bss & Hxs & Hbs & Hz).
  { clear -Hall He. induction Hall as [|v n l ns (_ & e' & He' & Hs) _ IH]; constructor; [|done].
    rewrite He in He'. by injection He' as <-. }
  exists (VList xs), (concat bss). cbn [serialize]. rewrite Hxs. split; [done|].
  assert (Hl : zlen xs = zlen l).
  { clear -Hxs. revert xs Hxs. induction l as [|v l IH]; intros xs Hxs; cbn [try_map] in Hxs.
    - by injection Hxs as <-.
    - inv_res Hxs. rewrite !zlen_cons. by rewrite (IH _ eq_refl). }
  destruct m as [s|]; cbn [generate_list_encoding write_spec].
  - rewrite Hl. specialize (Hm s eq_refl). destruct (Z.ltb_spec (const s) (zlen l)); [lia|].
    by rewrite Hbs.
  - by rewrite Hbs.
Qed.

(** A list of values of a Rust type. *)
Lemma fits_map {A} (f : A -> rval) (size : A -> Z) m d l e :
  Forall (fun a => fits d (f a) (size a)) l ->
  generate_encoding const path_impl_of d = Some e ->
  (forall s, m = Some s -> zlen l <= const s) ->
  fits (DList m d) (RSeq (map f l)) (zsum (map size l)).
Proof.
  intros Hall He Hm. apply (fits_list m d _ _ e); [|done|].
  - clear -Hall. induction Hall; constructor; done.
  - intros s Hs. specialize (Hm s Hs). unfold zlen in *. by rewrite length_map.
Qed.

Lemma fits_u8s m l : are_bytes l -> (forall s, m = Some s -> zlen l <= const s) ->
  fits (DList m (DPrimitive PUint8)) (bytes_rval l) (zlen l).
Proof.
  intros Hl Hm. eapply fits_eq.
  - apply (fits_map RU8 (fun _ => 1) m _ l EUint8); [|done|done].
    unfold are_bytes in Hl. apply (Forall_impl is_byte); [done|]. intros b Hb. by apply fits_u8.
  - rewrite zsum_const. lia.
Qed.

Lemma fits_sized s d v n : fits d v n -> n = const s -> fits (DSized s d) v n.
Proof.
  intros (Ht & e & He & x & bs & Hx & Hb & Hn) Hs. split; [done|]. exists (ESized (const s) e).
  cbn [generate_encoding]. rewrite He. split; [done|]. exists x, bs. split; [done|].
  cbn [write_spec]. rewrite Hb. cbn [mbind result_bind]. by rewrite Hn, Hs, Z.eqb_refl.
Qed.

Lemma fits_bounded s d v n : fits d v n -> n <= const s -> fits (DBounded s d) v n.
Proof.
  intros (Ht & e & He & x & bs & Hx & Hb & Hn) Hs. split; [done|]. exists (EBounded (const s) e).
  cbn [generate_encoding]. rewrite He. split; [done|]. exists x, bs. split; [done|].
  cbn [write_spec]. rewrite Hb. cbn [mbind result_bind]. by rewrite Hn, (proj2 (Z.leb_le _ _) Hs).
Qed.

Lemma fits_dynamic m d v n : fits d v n -> n <= u32_max ->
  (forall s, m = Some s -> n <= const s) -> fits (DDynamic m d) v (4 + n).
Proof.
  intros (Ht & e & He & x & bs & Hx & Hb & Hn) Hu Hm. split; [done|].
  exists (generate_dynamic_encoding const m e). cbn [generate_encoding]. rewrite He. split; [done|].
  exists x, (be_bytes 4 (zlen bs) ++ bs). split; [done|].
  assert (Hbl : block_bytes bs = Ok (be_bytes 4 (zlen bs) ++ bs)).
  { unfold block_bytes. by destruct (Z.ltb_spec u32_max (zlen bs)); [lia|]. }
  rewrite zlen_app, zlen_be_bytes, Hn.
  destruct m as [s|]; cbn [generate_dynamic_encoding write_spec]; rewrite Hb; cbn [mbind result_bind].
  - specialize (Hm s eq_refl). rewrite Hn.
    destruct (Z.ltb_spec (const s) n); [lia|]. by rewrite Hbl, Hn.
  - by rewrite Hbl, Hn.
Qed.

(** ** Structs *)
Inductive fits_fields : list (string * option denc) -> list (string * rval) -> Z -> Prop :=
| fits_fields_nil : fits_fields [] [] 0
| fits_fields_cons name d fields v vals n m :
    fits d v n -> fits_fields fields vals m ->
    fits_fields ((name, Some d) :: fields) ((name, v) :: vals) (n + m).

Lemma fits_fields_typed name fields vals n :
  fits_fields fields vals n -> fields_typed no_default (typed path_spec_of no_default) name fields vals.
Proof. induction 1 as [|m d fields v vals n k [Ht _] _ IH]; done. Qed.

Lemma fits_fields_nonneg fields vals n : fits_fields fields vals n -> 0 <= n.
Proof. induction 1 as [|m d fields v vals n k Hf _ IH]; [done|]. apply fits_nonneg in Hf. lia. Qed.

(** The fields still to write, after the bytes [acc]. *)
Lemma sized_fields fields vals n : fits_fields fields vals n ->
  exists fs xs, encoded_fields (generate_encoding const path_impl_of) fields = Some fs /\
    try_map (fun nv => x ← serialize nv.2; Ok (nv.1, x)) vals = Ok xs /\
    (fst <$> xs) = (fst <$> vals) /\
    forall all acc, (forall n x, (n, x) ∈ xs -> find_value_in_record_values n all = Some x) ->
      zlen acc + n <= usize_max ->
      exists bs, record_spec write_spec all fs acc = Ok bs /\ zlen bs = zlen acc + n.
Proof.
  induction 1 as [|name d fields v vals n m Hf Hfs (fs & xs & Hfs' & Hxs & Hnm & Hrec)].
  - exists [], []. split; [done|]. split; [done|]. split; [done|]. intros all acc _ _. exists acc.
    split; [done|]. lia.
  - pose proof (fits_fields_nonneg _ _ _ Hfs) as Hm0.
    destruct Hf as (Ht & e & He & x & bs & Hx & Hb & Hn). exists ((name, e) :: fs), ((name, x) :: xs).
    cbn [encoded_fields try_map fst snd]. rewrite He, Hfs', Hx. cbn [mbind result_bind].
    rewrite Hxs. split; [done|]. split; [done|]. split; [by rewrite !fmap_cons, Hnm|].
    intros all acc Hall Hsz. cbn [record_spec].
    rewrite (Hall name x) by by left. cbn [ok_or lift map_err mbind result_bind]. rewrite Hb.
    cbn [map_err mbind result_bind]. unfold guard_size. rewrite zlen_app, Hn.
    destruct (Z.leb_spec (zlen acc + n) usize_max); [|lia]. cbn [mbind result_bind].
    destruct (Hrec all (acc ++ bs)) as (cs & Hcs & Hz).
    + intros n' x' Hin. apply Hall. by right.
    + rewrite zlen_app. lia.
    + exists cs. split; [done|]. rewrite Hz, zlen_app. lia.
Qed.

Lemma fits_struct name fields vals n :
  fits_fields fields vals n -> bool_decide (NoDup (fst <$> vals)) = true -> n <= usize_max ->
  fits (DStruct name fields) (RStruct vals) n.
Proof.
  intros Hf Hnd%bool_decide_eq_true Hu. split.
  { exists vals. split; [done|]. by apply (fits_fields_typed _ _ _ n). }
  destruct (sized_fields _ _ _ Hf) as (fs & xs & Hfs & Hxs & Hnm & Hrec). exists (EObj name fs).
  cbn [generate_encoding]. rewrite Hfs. split; [done|].
  destruct (Hrec xs []) as (bs & Hbs & Hz).
  - intros m x Hin. unfold find_value_in_record_values. apply get_nodup; [by rewrite Hnm|done].
  - done.
  - exists (VRecord xs), bs. cbn [serialize]. rewrite Hxs. done.
Qed.

(** ** Enums *)
Lemma variant_typed_nth tags : forall i k id n d v,
  tags !! k = Some (id, n, d) ->
  (if is_unit d then v = RUnitVariant (i + Z.of_nat k) n
   else exists w, v = RNewtypeVariant (i + Z.of_nat k) n w /\ typed path_spec_of no_default d w) ->
  variant_typed (typed path_spec_of no_default) i tags v.
Proof.
  induction tags as [|[[id' n'] d'] tags IH]; intros i k id n d v Hk Hv; [done|].
  destruct k as [|k]; cbn [variant_typed].
  - injection Hk as -> -> ->. left. by rewrite Z.add_0_r in Hv.
  - right. apply (IH (i + 1) k id n d); [done|].
    by replace (i + 1 + Z.of_nat k) with (i + Z.of_nat (S k)) by lia.
Qed.

Definition tags_distinct (tags : list (Z * string * denc)) : bool :=
  bool_decide (NoDup ((fun t => t.1.1) <$> tags)) && bool_decide (NoDup ((fun t => t.1.2) <$> tags)).

Section Enum.
Context (name tag_type : string) (ig : bool) (tags : list (Z * string * denc)) (e : Encoding).
Context (Hdist : tags_distinct tags = true).
Context (Henc : generate_encoding const path_impl_of (DEnum name tag_type ig tags) = Some e).

(** What the enum writes for its [k]-th variant. *)
Lemma enum_writes k id n d : tags !! k = Some (id, n, d) ->
  exists sz ed, tag_size tag_type = Some sz /\ generate_encoding const path_impl_of d = Some ed /\
    (forall o, write_spec e (VEnum (Some n) o) = tag_bytes sz id) /\
    (forall x, write_spec e (VTag n x) =
       (tag ← tag_bytes sz id; bs ← write_spec ed x; Ok (tag ++ bs))).
Proof.
  intros Hk. pose proof Hdist as Hd. pose proof Henc as He.
  apply andb_true_iff in Hd as [Hi%bool_decide_eq_true Hn%bool_decide_eq_true].
  cbn [generate_encoding] in He.
  destruct (tag_size tag_type) as [sz|]; [|done]. cbn [mbind option_bind] in He.
  match type of He with context [opt_map ?f tags] => destruct (opt_map f tags) as [ts|] eqn:Ets end;
    [|done].
  cbn [mbind option_bind] in He. destruct (tag_map_new ts) as [m|] eqn:Em; [|done].
  injection He as <-. pose proof (proj1 (opt_map_Forall2 _ _ _) Ets) as Hes.
  destruct (Forall2_lookup_l _ _ _ _ _ Hes Hk) as (et & Het & He). cbn [fst snd] in He.
  destruct (generate_encoding const path_impl_of d) as [ed|] eqn:Ee; [|done]. exists sz, ed.
  split; [done|]. split; [done|].
  by apply (tags_write const path_impl_of sz tags ts m k id n d ed).
Qed.

Lemma tag_size_bytes sz id : tag_size tag_type = Some sz -> sz <> 4 ->
  exists tb, tag_bytes sz id = Ok tb /\ zlen tb = sz.
Proof.
  unfold tag_size. intros Hs Hn4. unfold tag_bytes.
  destruct (String.eqb tag_type "u8"); [injection Hs as <-|].
  { exists (be_bytes 1 id). split; [done|apply zlen_be_bytes]. }
  destruct (String.eqb tag_type "u16"); [injection Hs as <-|].
  { exists (be_bytes 2 id). split; [done|apply zlen_be_bytes]. }
  by destruct (String.eqb tag_type "u32"); [injection Hs as <-|].
Qed.

Lemma fits_unit_variant k id n sz :
  tags !! k = Some (id, n, DUnit) -> tag_size tag_type = Some sz -> sz <> 4 ->
  fits (DEnum name tag_type ig tags) (RUnitVariant (Z.of_nat k) n) sz.
Proof.
  intros Hk Hs Hn4. split; [by apply (variant_typed_nth tags 0 k id n DUnit)|]. exists e.
  split; [done|]. destruct (enum_writes _ _ _ _ Hk) as (sz' & ed & Hs' & _ & Hw & _).
  rewrite Hs in Hs'. injection Hs' as <-. destruct (tag_size_bytes sz id) as (tb & Htb & Hz); [done|done|].
  exists (VEnum (Some n) (Some (Z.of_nat k))), tb. by rewrite Hw.
Qed.

Lemma fits_newtype_variant k id n d sz v m :
  tags !! k = Some (id, n, d) -> is_unit d = false -> tag_size tag_type = Some sz -> sz <> 4 ->
  fits d v m -> fits (DEnum name tag_type ig tags) (RNewtypeVariant (Z.of_nat k) n v) (sz + m).
Proof.
  intros Hk Hu Hs Hn4 (Ht & ed & Hed & x & bs & Hx & Hb & Hn).
  split.
  { apply (variant_typed_nth tags 0 k id n d); [done|]. rewrite Hu. by exists v. }
  exists e. split; [done|]. destruct (enum_writes _ _ _ _ Hk) as (sz' & ed' & Hs' & Hed' & _ & Hw).
  rewrite Hs in Hs'. injection Hs' as <-. rewrite Hed in Hed'. injection Hed' as <-.
  destruct (tag_size_bytes sz id) as (tb & Htb & Hz); [done|done|].
  exists (VTag n x), (tb ++ bs). cbn [serialize]. rewrite Hx. split; [done|].
  rewrite Hw, Htb. cbn [mbind result_bind]. rewrite Hb. split; [done|]. rewrite zlen_app. lia.
Qed.
End Enum.

(** ** Names *)

Definition declared : list (string * denc) :=
  Eval vm_compute in zip (d_ident <$> Decl.all) trees.

(** The tree of the [k]-th declaration mentions earlier names only. *)
Definition mentions_earlier (k : nat) (n : string) (d : denc) : bool :=
  forallb (fun path => match path with
                       | [m] => bool_decide (m ∉ n :: (fst <$> drop (S k) declared))
                       | _ => false
                       end) (paths d).

Lemma earlier_ok k n d : declared !! k = Some (n, d) ->
  bool_decide (n ∉ fst <$> drop (S k) declared) && mentions_earlier k n d = true.
Proof.
  intros Hk. assert (Hall : forallb (fun k => match declared !! k with
    | Some (n, d) => bool_decide (n ∉ fst <$> drop (S k) declared) && mentions_earlier k n d
    | None => false end) (seq 0 (length declared)) = true) by by vm_compute.
  rewrite forallb_forall in Hall. specialize (Hall k). rewrite Hk in Hall. apply Hall.
  apply in_seq. apply lookup_lt_Some in Hk. lia.
Qed.

Lemma declared_entry k n d : declared !! k = Some (n, d) ->
  exists ti t, p2p_entry n = Some (ti, t) /\
    generate_encoding const path_impl_of d = Some (ti_encoding ti) /\
    (forall v, typed path_spec_of no_default d v -> ts_vals t v) /\
    (forall v, ts_vals t v -> typed path_spec_of no_default d v).
Proof.
  intros Hk. apply earlier_ok in Hk as Hok. apply andb_true_iff in Hok as [Hn%bool_decide_eq_true Hm].
  destruct (p2p_entry_split n d (take k declared) (drop (S k) declared))
    as (e1 & enc & p & He & Henc & _ & Hrest); [|done|].
  { change (zip (d_ident <$> Decl.all) trees) with declared.
    rewrite <- (take_drop_middle declared k (n, d)) at 1 by done. done. }
  assert (Hpaths : forall path, path ∈ paths d ->
    env_impl e1 path = path_impl_of path /\ env_spec e1 path = path_spec_of path).
  { intros path Hp. unfold mentions_earlier in Hm. rewrite forallb_forall in Hm.
    specialize (Hm path (proj1 (list_elem_of_In _ _) Hp)). destruct path as [|m [|? ?]]; try done.
    apply bool_decide_eq_true in Hm. unfold env_impl, env_spec, path_impl_of, path_spec_of, impl_of.
    rewrite (Hrest m Hm). by destruct (p2p_entry m) as [[ti t]|]. }
  eexists _, _. split; [exact He|]. cbn [ti_encoding derived_spec ts_vals]. split.
  { rewrite <- Henc. apply generate_encoding_ext. intros path Hp. symmetry. by apply Hpaths. }
  split; intros v; apply typed_ext; intros path Hp; [symmetry|]; by apply Hpaths.
Qed.

Lemma fits_name k n d v m : declared !! k = Some (n, d) -> fits d v m -> fits (DPath [n]) v m.
Proof.
  intros (ti & t & He & Henc & Hty & _)%declared_entry (Ht & e & Hd & Hs).
  split; cbn [typed generate_encoding path_spec_of path_impl_of].
  - unfold impl_of. rewrite He. by apply Hty.
  - eexists. split; [reflexivity|]. unfold impl_of. rewrite He. rewrite Henc in Hd. by injection Hd as ->.
Qed.

(** The values of a name are those of its tree. *)
Lemma message_value_tree k n d v : declared !! k = Some (n, d) ->
  message_value n v -> typed path_spec_of no_default d v.
Proof.
  intros (ti & t & He & _ & _ & Hty)%declared_entry. unfold message_value. rewrite He. apply Hty.
Qed.

(** What fits a name is a value of the type and is written with its size. *)
Lemma fits_written n v m : fits (DPath [n]) v m -> is_Some (p2p_entry n) ->
  message_value n v /\ exists bs, as_bytes (impl_of n) v = Ok bs /\ zlen bs = m.
Proof.
  intros (Ht & e & He & x & bs & Hx & Hb & Hn) [[ti t] Hp]. injection He as <-.
  unfold message_value, impl_of in *. cbn [typed path_spec_of path_impl_of] in *.
  unfold impl_of in *. rewrite Hp in *. cbn [fmap option_fmap option_map snd] in Ht.
  split; [done|]. exists bs. split; [|done].
  pose proof (p2p_entry_Codec _ _ _ Hp) as [Hc _]. unfold as_bytes, write. rewrite Hx.
  change (lift (Ok x)) with (Ok (E := EncodingError) x). cbn [mbind result_bind].
  rewrite encode_any_value, encode_value_appends by done. unfold appended. by rewrite Hb.
Qed.

(** ** The types with hand-written code *)
Definition hash_rval (h : bytes) : rval := RNewtypeStruct (bytes_rval h).

Definition hash_ok (t : HashType) (h : bytes) : Prop := are_bytes h /\ zlen h = hash_size t.

Lemma base_entry m e : bool_decide (m ∉ (fst <$> declared)) = true ->
  hm_get [m] base_env = Some e -> p2p_entry m = Some e.
Proof. intros Hm%bool_decide_eq_true He. rewrite p2p_entry_base; [done|exact Hm]. Qed.

Lemma fits_typed_hash n t h :
  p2p_entry n = Some (hash_impl t, mkSpec true true (is_hash t)) -> hash_ok t h ->
  fits (DPath [n]) (hash_rval h) (hash_size t).
Proof.
  intros Hp [Hb Hl]. split; cbn [typed generate_encoding path_spec_of path_impl_of];
    unfold impl_of; rewrite Hp.
  - exists h. done.
  - eexists. split; [reflexivity|]. exists (VList (map VUint8 h)), h. unfold hash_rval, bytes_rval.
    cbn [serialize]. rewrite serialize_u8s. split; [done|]. cbn [hash_impl ti_encoding write_spec].
    rewrite u8_values_bytes by done. cbn [mbind result_bind]. by rewrite Hl, Z.eqb_refl.
Qed.

Lemma path_bytes_size p : Forall item_ok p -> zlen (path_bytes p) = 33 * zlen p + 1.
Proof.
  intros Hp. unfold path_bytes. rewrite !zlen_app. change (zlen [0]) with 1.
  assert (Hperm : zlen (concat (omap tail (rev p))) = zlen (concat (omap tail p))).
  { clear Hp. induction p as [|i p IH]; [done|]. cbn [rev]. rewrite omap_app, concat_app, zlen_app, IH.
    destruct i; cbn [omap list_omap tail concat]; rewrite ?app_nil_r, ?zlen_app;
      change (zlen (@nil Z)) with 0; lia. }
  rewrite Hperm. clear Hperm. induction Hp as [|i p [Hb Hl] _ IH]; [done|].
  change (hash_size OperationListListHash) with 32 in Hl.
  destruct i; cbn [map concat mark omap list_omap tail] in *;
    rewrite ?zlen_app, !zlen_cons in *; rewrite ?zlen_app in *; change (zlen (@nil Z)) with 0; lia.
Qed.

Definition path_ok (p : Path) : Prop := Forall item_ok p /\ zlen p <= 3.

Lemma fits_path p : path_ok p -> fits (DPath ["Path"%string]) (path_rval p) (33 * zlen p + 1).
Proof.
  intros [Hp Hl].
  assert (He : p2p_entry "Path" = Some (path_impl, mkSpec true true is_path)) by by apply base_entry.
  assert (Hf : path_fits (zlen p) = true) by by apply Z.leb_le.
  split; cbn [typed generate_encoding path_spec_of path_impl_of]; unfold impl_of; rewrite He.
  - by exists p.
  - eexists. split; [reflexivity|]. exists (VList (map item_value p)), (path_bytes p).
    split; [|split; [|by apply path_bytes_size]].
    + unfold path_rval. cbn [serialize]. unfold zlen. rewrite length_map.
      change (Z.of_nat (length p)) with (zlen p). by rewrite Hf, serialize_items.
    + cbn [path_impl ti_encoding PathCodec.get_encoding write_spec]. by rewrite encode_path_value.
Qed.
End Fits.
