(* ===== verification/MessageTypes.v ===== *)
(** * The message types ([tezos/messages/src/p2p/encoding/])

    The Rust structs and enums of the P2P messages, and the [rval] the derived
    [Serialize] makes of each.  [ok] says that a value has its Rust type (numbers
    within their widths, hashes of their sizes, strings in UTF-8); [size] is the
    number of bytes on the wire.  Hashes and strings are their bytes.  The fields
    of a struct are in the order of the source. *)

From Stdlib Require Import ZArith Lia List Bool String.
From stdpp Require Import base option list numbers strings.
From S2P Require Import Prelude Extern BitUtils CryptoHash Types Serializer BinaryWriter WriterSpec NomCrate NomReader DeriveMake Derive RoundTrip DerivedCodec MerklePath Messages BinaryMessage ExternRef Zarith WriterFacts MessageFits.

Set Warnings "-register-all".
Open Scope string_scope.

Definition hashes_rval (l : list bytes) : rval := RSeq (map hash_rval l).
Definition strings_rval (l : list bytes) : rval := RSeq (map RStr l).
Definition strings_size (l : list bytes) : Z := zsum (map (fun s => 4 + zlen s) l).

(** ** [version.rs], [connection.rs], [metadata.rs], [ack.rs] *)
Module NetworkVersion.
Record t : Type := mk { chain_name : bytes; distributed_db_version : Z; p2p_version : Z }.
Definition to_rval (v : t) : rval :=
  RStruct [("chain_name", RStr (chain_name v));
           ("distributed_db_version", RU16 (distributed_db_version v));
           ("p2p_version", RU16 (p2p_version v))].
Definition ok (v : t) : Prop :=
  string_ok (chain_name v) /\ in_u 16 (distributed_db_version v) /\ in_u 16 (p2p_version v).
Definition size (v : t) : Z := 8 + zlen (chain_name v).
End NetworkVersion.

Module ConnectionMessage.
Record t : Type := mk {
  port : Z; public_key : bytes; proof_of_work_stamp : bytes; message_nonce : bytes;
  version : NetworkVersion.t;
}.
Definition to_rval (m : t) : rval :=
  RStruct [("port", RU16 (port m)); ("public_key", bytes_rval (public_key m));
           ("proof_of_work_stamp", bytes_rval (proof_of_work_stamp m));
           ("message_nonce", bytes_rval (message_nonce m));
           ("version", NetworkVersion.to_rval (version m))].
Definition ok (m : t) : Prop :=
  in_u 16 (port m) /\ are_bytes (public_key m) /\ are_bytes (proof_of_work_stamp m) /\
  are_bytes (message_nonce m) /\ NetworkVersion.ok (version m).
Definition size (m : t) : Z := 82 + NetworkVersion.size (version m).
End ConnectionMessage.

Module MetadataMessage.
Record t : Type := mk { disable_mempool : bool; private_node : bool }.
Definition to_rval (m : t) : rval :=
  RStruct [("disable_mempool", RBool (disable_mempool m)); ("private_node", RBool (private_node m))].
End MetadataMessage.

Inductive NackMotive : Type :=
| NoMotive | TooManyConnections | UnknownChainName | DeprecatedP2pVersion
| DeprecatedDistributedDbVersion | AlreadyConnected.
Definition motive_rval (m : NackMotive) : rval :=
  match m with
  | NoMotive => RUnitVariant 0 "NoMotive"
  | TooManyConnections => RUnitVariant 1 "TooManyConnections"
  | UnknownChainName => RUnitVariant 2 "UnknownChainName"
  | DeprecatedP2pVersion => RUnitVariant 3 "DeprecatedP2pVersion"
  | DeprecatedDistributedDbVersion => RUnitVariant 4 "DeprecatedDistributedDbVersion"
  | AlreadyConnected => RUnitVariant 5 "AlreadyConnected"
  end.

Module NackInfo.
Record t : Type := mk { motive : NackMotive; potential_peers_to_connect : list bytes }.
Definition to_rval (i : t) : rval :=
  RStruct [("motive", motive_rval (motive i));
           ("potential_peers_to_connect", strings_rval (potential_peers_to_connect i))].
Definition ok (i : t) : Prop := Forall string_ok (potential_peers_to_connect i).
Definition size (i : t) : Z := 6 + strings_size (potential_peers_to_connect i).
End NackInfo.

Inductive AckMessage : Type := Ack | NackV0 | Nack (i : NackInfo.t).
Definition ack_rval (m : AckMessage) : rval :=
  match m with
  | Ack => RUnitVariant 0 "Ack"
  | NackV0 => RUnitVariant 1 "NackV0"
  | Nack i => RNewtypeVariant 2 "Nack" (NackInfo.to_rval i)
  end.

(** ** [advertise.rs], [swap.rs], [deactivate.rs] *)
Module AdvertiseMessage.
Record t : Type := mk { id : list bytes }.
Definition to_rval (m : t) : rval := RStruct [("id", strings_rval (id m))].
Definition ok (m : t) : Prop := Forall string_ok (id m).
Definition size (m : t) : Z := strings_size (id m).
End AdvertiseMessage.

Module SwapMessage.
Record t : Type := mk { point : bytes; peer_id : bytes }.
Definition to_rval (m : t) : rval :=
  RStruct [("point", RStr (point m)); ("peer_id", hash_rval (peer_id m))].
Definition ok (m : t) : Prop := string_ok (point m) /\ hash_ok CryptoboxPublicKeyHash (peer_id m).
Definition size (m : t) : Z := 20 + zlen (point m).
End SwapMessage.

Module DeactivateMessage.
Record t : Type := mk { deactivate : bytes }.
Definition to_rval (m : t) : rval := RStruct [("deactivate", hash_rval (deactivate m))].
Definition ok (m : t) : Prop := hash_ok ChainId (deactivate m).
End DeactivateMessage.

(** ** [block_header.rs] *)
Module BlockHeader.
Record t : Type := mk {
  level : Z; proto : Z; predecessor : bytes; timestamp : Z; validation_pass : Z;
  operations_hash : bytes; fitness : list bytes; context : bytes; protocol_data : bytes;
}.
Definition to_rval (h : t) : rval :=
  RStruct [("level", RI32 (level h)); ("proto", RU8 (proto h));
           ("predecessor", hash_rval (predecessor h)); ("timestamp", RI64 (timestamp h));
           ("validation_pass", RU8 (validation_pass h));
           ("operations_hash", hash_rval (operations_hash h));
           ("fitness", RSeq (map bytes_rval (fitness h)));
           ("context", hash_rval (context h)); ("protocol_data", bytes_rval (protocol_data h))].
Definition ok (h : t) : Prop :=
  in_s 32 (level h) /\ in_u 8 (proto h) /\ hash_ok BlockHash (predecessor h) /\
  in_s 64 (timestamp h) /\ in_u 8 (validation_pass h) /\
  hash_ok OperationListListHash (operations_hash h) /\ Forall are_bytes (fitness h) /\
  hash_ok ContextHash (context h) /\ are_bytes (protocol_data h).
Definition size (h : t) : Z := 114 + strings_size (fitness h) + zlen (protocol_data h).
End BlockHeader.

Module BlockHeaderMessage.
Record t : Type := from { block_header : BlockHeader.t }.
Definition to_rval (m : t) : rval := RStruct [("block_header", BlockHeader.to_rval (block_header m))].
End BlockHeaderMessage.

Module GetBlockHeadersMessage.
Record t : Type := mk { get_block_headers : list bytes }.
Definition to_rval (m : t) : rval := RStruct [("get_block_headers", hashes_rval (get_block_headers m))].
Definition ok (m : t) : Prop := Forall (hash_ok BlockHash) (get_block_headers m).
End GetBlockHeadersMessage.

(** ** [current_branch.rs], [mempool.rs], [current_head.rs] *)
Module CurrentBranch.
Record t : Type := mk { current_head : BlockHeader.t; history : list bytes }.
Definition to_rval (b : t) : rval :=
  RStruct [("current_head", BlockHeader.to_rval (current_head b)); ("history", hashes_rval (history b))].
Definition ok (b : t) : Prop :=
  BlockHeader.ok (current_head b) /\ Forall (hash_ok BlockHash) (history b).
Definition size (b : t) : Z := 4 + BlockHeader.size (current_head b) + 32 * zlen (history b).
End CurrentBranch.

Module CurrentBranchMessage.
Record t : Type := mk { chain_id : bytes; current_branch : CurrentBranch.t }.
Definition to_rval (m : t) : rval :=
  RStruct [("chain_id", hash_rval (chain_id m));
           ("current_branch", CurrentBranch.to_rval (current_branch m))].
Definition ok (m : t) : Prop := hash_ok ChainId (chain_id m) /\ CurrentBranch.ok (current_branch m).
Definition size (m : t) : Z := 4 + CurrentBranch.size (current_branch m).
End CurrentBranchMessage.

Module GetCurrentBranchMessage.
Record t : Type := mk { chain_id : bytes }.
Definition to_rval (m : t) : rval := RStruct [("chain_id", hash_rval (chain_id m))].
Definition ok (m : t) : Prop := hash_ok ChainId (chain_id m).
End GetCurrentBranchMessage.

Module Mempool.
Record t : Type := mk { known_valid : list bytes; pending : list bytes }.
Definition to_rval (m : t) : rval :=
  RStruct [("known_valid", hashes_rval (known_valid m)); ("pending", hashes_rval (pending m))].
Definition ok (m : t) : Prop :=
  Forall (hash_ok OperationHash) (known_valid m) /\ Forall (hash_ok OperationHash) (pending m).
Definition size (m : t) : Z := 12 + 32 * zlen (known_valid m) + 32 * zlen (pending m).
Definition is_empty (m : t) : bool :=
  match known_valid m, pending m with [], [] => true | _, _ => false end.
End Mempool.

Module CurrentHeadMessage.
Record t : Type := mk {
  chain_id : bytes; current_block_header : BlockHeader.t; current_mempool : Mempool.t;
}.
Definition to_rval (m : t) : rval :=
  RStruct [("chain_id", hash_rval (chain_id m));
           ("current_block_header", BlockHeader.to_rval (current_block_header m));
           ("current_mempool", Mempool.to_rval (current_mempool m))].
Definition ok (m : t) : Prop :=
  hash_ok ChainId (chain_id m) /\ BlockHeader.ok (current_block_header m) /\
  Mempool.ok (current_mempool m).
Definition size (m : t) : Z :=
  8 + BlockHeader.size (current_block_header m) + Mempool.size (current_mempool m).
End CurrentHeadMessage.

Module GetCurrentHeadMessage.
Record t : Type := mk { chain_id : bytes }.
Definition to_rval (m : t) : rval := RStruct [("chain_id", hash_rval (chain_id m))].
Definition ok (m : t) : Prop := hash_ok ChainId (chain_id m).
End GetCurrentHeadMessage.

(** ** [operation.rs], [operations_for_blocks.rs] *)
Module Operation.
Record t : Type := mk { branch : bytes; data : bytes }.
Definition to_rval (o : t) : rval :=
  RStruct [("branch", hash_rval (branch o)); ("data", bytes_rval (data o))].
Definition ok (o : t) : Prop := hash_ok BlockHash (branch o) /\ are_bytes (data o).
Definition size (o : t) : Z := 32 + zlen (data o).
End Operation.

Module OperationMessage.
Record t : Type := from { operation : Operation.t }.
Definition to_rval (m : t) : rval := RStruct [("operation", Operation.to_rval (operation m))].
End OperationMessage.

Module GetOperationsMessage.
Record t : Type := mk { get_operations : list bytes }.
Definition to_rval (m : t) : rval := RStruct [("get_operations", hashes_rval (get_operations m))].
Definition ok (m : t) : Prop := Forall (hash_ok OperationHash) (get_operations m).
End GetOperationsMessage.

Module OperationsForBlock.
Record t : Type := mk { hash : bytes; validation_pass : Z }.
Definition to_rval (o : t) : rval :=
  RStruct [("hash", hash_rval (hash o)); ("validation_pass", RI8 (validation_pass o))].
Definition ok (o : t) : Prop := hash_ok BlockHash (hash o) /\ in_s 8 (validation_pass o).
End OperationsForBlock.

Module OperationsForBlocksMessage.
Record t : Type := mk {
  operations_for_block : OperationsForBlock.t; operation_hashes_path : Path;
  operations : list Operation.t;
}.
Definition to_rval (m : t) : rval :=
  RStruct [("operations_for_block", OperationsForBlock.to_rval (operations_for_block m));
           ("operation_hashes_path", path_rval (operation_hashes_path m));
           ("operations", RSeq (map Operation.to_rval (operations m)))].
Definition ok (m : t) : Prop :=
  OperationsForBlock.ok (operations_for_block m) /\ path_ok (operation_hashes_path m) /\
  Forall Operation.ok (operations m).
Definition operations_size (l : list Operation.t) : Z := zsum (map (fun o => 4 + Operation.size o) l).
Definition size (m : t) : Z :=
  34 + 33 * zlen (operation_hashes_path m) + operations_size (operations m).
End OperationsForBlocksMessage.

Module GetOperationsForBlocksMessage.
Record t : Type := mk { get_operations_for_blocks : list OperationsForBlock.t }.
Definition to_rval (m : t) : rval :=
  RStruct [("get_operations_for_blocks",
            RSeq (map OperationsForBlock.to_rval (get_operations_for_blocks m)))].
Definition ok (m : t) : Prop := Forall OperationsForBlock.ok (get_operations_for_blocks m).
End GetOperationsForBlocksMessage.

(** ** [protocol.rs] *)
Module Component.
Record t : Type := mk { name : bytes; interface : option bytes; implementation : bytes }.
Definition to_rval (c : t) : rval :=
  RStruct [("name", RStr (name c));
           ("interface", match interface c with Some s => RSome (RStr s) | None => RNone end);
           ("implementation", RStr (implementation c))].
Definition ok (c : t) : Prop :=
  string_ok (name c) /\ match interface c with Some s => string_ok s | None => True end /\
  string_ok (implementation c).
Definition size (c : t) : Z :=
  9 + zlen (name c) + match interface c with Some s => 4 + zlen s | None => 0 end +
  zlen (implementation c).
End Component.

Module Protocol.
Record t : Type := mk { expected_env_version : Z; components : list Component.t }.
Definition to_rval (p : t) : rval :=
  RStruct [("expected_env_version", RI16 (expected_env_version p));
           ("components", RSeq (map Component.to_rval (components p)))].
Definition ok (p : t) : Prop :=
  in_s 16 (expected_env_version p) /\ Forall Component.ok (components p).
Definition components_size (l : list Component.t) : Z := zsum (map Component.size l).
Definition size (p : t) : Z := 6 + components_size (components p).
End Protocol.

Module ProtocolMessage.
Record t : Type := mk { protocol : Protocol.t }.
Definition to_rval (m : t) : rval := RStruct [("protocol", Protocol.to_rval (protocol m))].
End ProtocolMessage.

Module GetProtocolsMessage.
Record t : Type := mk { get_protocols : list bytes }.
Definition to_rval (m : t) : rval := RStruct [("get_protocols", hashes_rval (get_protocols m))].
Definition ok (m : t) : Prop := Forall (hash_ok ProtocolHash) (get_protocols m).
End GetProtocolsMessage.

(** ** [peer.rs] *)
Module PeerMessage.
Inductive t : Type :=
| Disconnect
| Advertise (m : AdvertiseMessage.t)
| SwapRequest (m : SwapMessage.t)
| SwapAck (m : SwapMessage.t)
| Bootstrap
| GetCurrentBranch (m : GetCurrentBranchMessage.t)
| CurrentBranch (m : CurrentBranchMessage.t)
| Deactivate (m : DeactivateMessage.t)
| GetCurrentHead (m : GetCurrentHeadMessage.t)
| CurrentHead (m : CurrentHeadMessage.t)
| GetBlockHeaders (m : GetBlockHeadersMessage.t)
| BlockHeader (m : BlockHeaderMessage.t)
| GetOperations (m : GetOperationsMessage.t)
| Operation (m : OperationMessage.t)
| GetProtocols (m : GetProtocolsMessage.t)
| Protocol (m : ProtocolMessage.t)
| GetOperationsForBlocks (m : GetOperationsForBlocksMessage.t)
| OperationsForBlocks (m : OperationsForBlocksMessage.t).

Definition to_rval (m : t) : rval :=
  match m with
  | Disconnect => RUnitVariant 0 "Disconnect"
  | Advertise m => RNewtypeVariant 1 "Advertise" (AdvertiseMessage.to_rval m)
  | SwapRequest m => RNewtypeVariant 2 "SwapRequest" (SwapMessage.to_rval m)
  | SwapAck m => RNewtypeVariant 3 "SwapAck" (SwapMessage.to_rval m)
  | Bootstrap => RUnitVariant 4 "Bootstrap"
  | GetCurrentBranch m => RNewtypeVariant 5 "GetCurrentBranch" (GetCurrentBranchMessage.to_rval m)
  | CurrentBranch m => RNewtypeVariant 6 "CurrentBranch" (CurrentBranchMessage.to_rval m)
  | Deactivate m => RNewtypeVariant 7 "Deactivate" (DeactivateMessage.to_rval m)
  | GetCurrentHead m => RNewtypeVariant 8 "GetCurrentHead" (GetCurrentHeadMessage.to_rval m)
  | CurrentHead m => RNewtypeVariant 9 "CurrentHead" (CurrentHeadMessage.to_rval m)
  | GetBlockHeaders m => RNewtypeVariant 10 "GetBlockHeaders" (GetBlockHeadersMessage.to_rval m)
  | BlockHeader m => RNewtypeVariant 11 "BlockHeader" (BlockHeaderMessage.to_rval m)
  | GetOperations m => RNewtypeVariant 12 "GetOperations" (GetOperationsMessage.to_rval m)
  | Operation m => RNewtypeVariant 13 "Operation" (OperationMessage.to_rval m)
  | GetProtocols m => RNewtypeVariant 14 "GetProtocols" (GetProtocolsMessage.to_rval m)
  | Protocol m => RNewtypeVariant 15 "Protocol" (ProtocolMessage.to_rval m)
  | GetOperationsForBlocks m =>
      RNewtypeVariant 16 "GetOperationsForBlocks" (GetOperationsForBlocksMessage.to_rval m)
  | OperationsForBlocks m =>
      RNewtypeVariant 17 "OperationsForBlocks" (OperationsForBlocksMessage.to_rval m)
  end.

(** [PeerMessage::get_type]. *)
Definition get_type (m : t) : string :=
  match m with
  | Disconnect => "disconnect" | Advertise _ => "advertise" | SwapRequest _ => "swap request"
  | SwapAck _ => "swap ack" | Bootstrap => "bootstrap"
  | GetCurrentBranch _ => "get current branch" | CurrentBranch _ => "current branch"
  | Deactivate _ => "deactivate" | GetCurrentHead _ => "get current head"
  | CurrentHead _ => "current head" | GetBlockHeaders _ => "get block headers"
  | BlockHeader _ => "block header" | GetOperations _ => "get operations"
  | Operation _ => "operation" | GetProtocols _ => "get protocols" | Protocol _ => "protocol"
  | GetOperationsForBlocks _ => "get operations for blocks"
  | OperationsForBlocks _ => "operations for blocks"
  end.

Definition ok (m : t) : Prop :=
  match m with
  | Disconnect | Bootstrap => True
  | Advertise m => AdvertiseMessage.ok m
  | SwapRequest m | SwapAck m => SwapMessage.ok m
  | GetCurrentBranch m => GetCurrentBranchMessage.ok m
  | CurrentBranch m => CurrentBranchMessage.ok m
  | Deactivate m => DeactivateMessage.ok m
  | GetCurrentHead m => GetCurrentHeadMessage.ok m
  | CurrentHead m => CurrentHeadMessage.ok m
  | GetBlockHeaders m => GetBlockHeadersMessage.ok m
  | BlockHeader m => BlockHeader.ok (BlockHeaderMessage.block_header m)
  | GetOperations m => GetOperationsMessage.ok m
  | Operation m => Operation.ok (OperationMessage.operation m)
  | GetProtocols m => GetProtocolsMessage.ok m
  | Protocol m => Protocol.ok (ProtocolMessage.protocol m)
  | GetOperationsForBlocks m => GetOperationsForBlocksMessage.ok m
  | OperationsForBlocks m => OperationsForBlocksMessage.ok m
  end.
End PeerMessage.

(** [PeerMessageResponse::from]. *)
Module PeerMessageResponse.
Record t : Type := from { message : PeerMessage.t }.
Definition to_rval (m : t) : rval := RStruct [("message", PeerMessage.to_rval (message m))].
End PeerMessageResponse.

(** ** Size limits

    [within]: no limit of the declarations refuses the value. *)
Definition points_within (max : Z) (l : list bytes) : Prop :=
  zlen l <= max /\ Forall (fun s => 4 + zlen s <= P2P_POINT_MAX_SIZE) l.

Definition header_within (h : BlockHeader.t) : Prop := BlockHeader.size h <= BLOCK_HEADER_MAX_SIZE.
Definition mempool_within (m : Mempool.t) : Prop := Mempool.size m <= MEMPOOL_MAX_SIZE.
Definition operation_within (o : Operation.t) : Prop := zlen (Operation.data o) <= OPERATION_MAX_SIZE.
Definition connection_within (m : ConnectionMessage.t) : Prop :=
  zlen (ConnectionMessage.public_key m) = 32 /\ zlen (ConnectionMessage.proof_of_work_stamp m) = 24 /\
  zlen (ConnectionMessage.message_nonce m) = 24 /\
  zlen (NetworkVersion.chain_name (ConnectionMessage.version m)) <= CHAIN_NAME_MAX_LENGTH.

Module Within.
Import PeerMessage.
Definition peer (m : t) : Prop :=
  match m with
  | Advertise m => points_within ADVERTISE_ID_LIST_MAX_LENGTH (AdvertiseMessage.id m)
  | SwapRequest m | SwapAck m => 4 + zlen (SwapMessage.point m) <= P2P_POINT_MAX_SIZE
  | CurrentBranch m =>
      header_within (CurrentBranch.current_head (CurrentBranchMessage.current_branch m)) /\
      zlen (CurrentBranch.history (CurrentBranchMessage.current_branch m)) <=
        CURRENT_BRANCH_HISTORY_MAX_LENGTH
  | CurrentHead m =>
      header_within (CurrentHeadMessage.current_block_header m) /\
      mempool_within (CurrentHeadMessage.current_mempool m)
  | GetBlockHeaders m => zlen (GetBlockHeadersMessage.get_block_headers m) <= GET_BLOCK_HEADERS_MAX_LENGTH
  | BlockHeader m => header_within (BlockHeaderMessage.block_header m)
  | GetOperations m => zlen (GetOperationsMessage.get_operations m) <= GET_OPERATIONS_MAX_LENGTH
  | Operation m => operation_within (OperationMessage.operation m)
  | GetProtocols m => zlen (GetProtocolsMessage.get_protocols m) <= GET_PROTOCOLS_MAX_LENGTH
  | Protocol m =>
      Protocol.components_size (Protocol.components (ProtocolMessage.protocol m)) <=
        PROTOCOL_COMPONENT_MAX_SIZE
  | GetOperationsForBlocks m =>
      zlen (GetOperationsForBlocksMessage.get_operations_for_blocks m) <=
        GET_OPERATIONS_FOR_BLOCKS_MAX_LENGTH
  | OperationsForBlocks m =>
      Forall operation_within (OperationsForBlocksMessage.operations m) /\
      OperationsForBlocksMessage.operations_size (OperationsForBlocksMessage.operations m) <=
        OPERATION_LIST_MAX_SIZE
  | _ => True
  end.
End Within.

Section Sizes.
Context `{BytesCrate, BitVecCrate, HexCrate, UnicodeTables, BigIntCrate, NomCrate, SynCrate}.

(** The entries of the hashes. *)
Ltac hash_entry := by apply base_entry.

Lemma hashes_fit n t m l :
  p2p_entry n = Some (hash_impl t, mkSpec true true (is_hash t)) -> Forall (hash_ok t) l ->
  (forall s, m = Some s -> zlen l <= const s) ->
  fits (DList m (DPath [n])) (hashes_rval l) (hash_size t * zlen l).
Proof.
  intros Hp Hl Hm. eapply fits_eq; [|apply zsum_const].
  eapply (fits_map hash_rval (fun _ => hash_size t) m _ l); [|reflexivity|done].
  apply (Forall_impl (hash_ok t)); [done|]. intros h Hh. by apply fits_typed_hash.
Qed.

(** Lists of points. *)
Lemma points_fit m l : Forall string_ok l -> points_within (const m) l ->
  fits (DList (Some m) (DBounded "P2P_POINT_MAX_SIZE" (DString None))) (strings_rval l) (strings_size l).
Proof.
  intros Hok [Hl Hs].
  eapply (fits_map RStr (fun s => 4 + zlen s) (Some m) _ l); [|reflexivity|by intros s [= <-]].
  apply Forall_forall. intros s Hin. rewrite Forall_forall in Hok, Hs.
  apply fits_bounded; [by apply fits_string, Hok|]. by apply Hs.
Qed.

Lemma strings_size_nonneg l : 0 <= strings_size l.
Proof. apply zsum_nonneg, Forall_forall. intros s _. pose proof (zlen_nonneg s). lia. Qed.

Lemma strings_size_bound k l :
  Forall (fun s => 4 + zlen s <= k) l -> strings_size l <= k * zlen l.
Proof. apply zsum_bound. Qed.

Lemma u32_usize n : n <= u32_max -> n <= usize_max.
Proof. unfold u32_max, usize_max. lia. Qed.

(** Opens the struct or enum [name], the [k]-th declaration. *)
Ltac named k := eapply (fits_name k); [reflexivity|].
Ltac struct :=
  eapply fits_struct;
  [repeat (eapply fits_fields_cons; [|]); [..|apply fits_fields_nil]
  |vm_compute; reflexivity|].

Lemma header_fits h : BlockHeader.ok h -> header_within h ->
  fits (DPath ["BlockHeader"]) (BlockHeader.to_rval h) (BlockHeader.size h).
Proof.
  intros (Hl & Hp & Hpr & Ht & Hv & Ho & Hf & Hc & Hd) Hw. unfold header_within in Hw.
  named 9%nat. pose proof (strings_size_nonneg (BlockHeader.fitness h)).
  pose proof (zlen_nonneg (BlockHeader.protocol_data h)).
  assert (Hm : BLOCK_HEADER_MAX_SIZE <= u32_max) by by vm_compute.
  assert (Hu : u32_max <= usize_max) by by vm_compute. unfold BlockHeader.size in *.
  assert (Hfit : fits (DList None (DDynamic None (DList None (DPrimitive PUint8))))
    (RSeq (map bytes_rval (BlockHeader.fitness h))) (strings_size (BlockHeader.fitness h))).
  { eapply (fits_map bytes_rval (fun s => 4 + zlen s) None); [|reflexivity|done].
    apply Forall_forall. intros s Hin. rewrite Forall_forall in Hf.
    assert (4 + zlen s <= strings_size (BlockHeader.fitness h)).
    { clear -Hin. unfold strings_size. induction Hin as [|s s' l Hin IH]; cbn [map zsum].
      - pose proof (strings_size_nonneg l). unfold strings_size in *. lia.
      - pose proof (zlen_nonneg s'). lia. }
    apply fits_dynamic; [|lia|done]. apply fits_u8s; [by apply Hf|done]. }
  apply fits_bounded; [|exact Hw]. unfold BlockHeader.to_rval. eapply fits_eq.
  - struct.
    + by apply fits_i32.
    + by apply fits_u8.
    + apply (fits_typed_hash "BlockHash" BlockHash); [hash_entry|done].
    + by apply fits_timestamp.
    + by apply fits_u8.
    + apply (fits_typed_hash "OperationListListHash" OperationListListHash); [hash_entry|done].
    + apply fits_dynamic; [exact Hfit|lia|done].
    + apply (fits_typed_hash "ContextHash" ContextHash); [hash_entry|done].
    + by apply fits_u8s.
    + cbn [hash_size]. lia.
  - cbn [hash_size]. lia.
Qed.

Ltac hash_of n := apply (fits_typed_hash n); [hash_entry|done].
Ltac hashes_of n := apply (hashes_fit n); [hash_entry|done|].

Lemma mempool_fits m : Mempool.ok m -> mempool_within m ->
  fits (DPath ["Mempool"]) (Mempool.to_rval m) (Mempool.size m).
Proof.
  intros [Hk Hp] Hw. unfold mempool_within, Mempool.size in *. named 15%nat.
  assert (Hm : MEMPOOL_MAX_SIZE <= u32_max) by by vm_compute.
  assert (Hu : u32_max <= usize_max) by by vm_compute.
  pose proof (zlen_nonneg (Mempool.known_valid m)). pose proof (zlen_nonneg (Mempool.pending m)).
  apply fits_bounded; [|exact Hw]. unfold Mempool.to_rval. eapply fits_eq.
  - struct.
    + apply fits_dynamic; [|shelve|done]. by hashes_of "OperationHash".
    + apply fits_dynamic; [|shelve|done]. apply fits_dynamic; [|shelve|done].
      by hashes_of "OperationHash".
    + cbn [hash_size]. lia.
    Unshelve. all: cbn [hash_size]; lia.
  - cbn [hash_size]. lia.
Qed.

Lemma operation_fits o : Operation.ok o -> operation_within o ->
  fits (DPath ["Operation"]) (Operation.to_rval o) (Operation.size o).
Proof.
  intros [Hb Hd] Hw. unfold operation_within, Operation.size in *. named 18%nat.
  assert (Hm : 32 + OPERATION_MAX_SIZE <= usize_max) by by vm_compute.
  unfold Operation.to_rval. eapply fits_eq.
  - struct; [hash_of "BlockHash"|apply fits_u8s; [done|by intros s [= <-]]|cbn [hash_size]; lia].
  - cbn [hash_size]. lia.
Qed.

Lemma operations_for_block_fits o : OperationsForBlock.ok o ->
  fits (DPath ["OperationsForBlock"]) (OperationsForBlock.to_rval o) 33.
Proof.
  intros [Hh Hv]. named 21%nat. eapply fits_eq.
  - struct; [hash_of "BlockHash"|by apply fits_i8|by vm_compute].
  - done.
Qed.

Lemma component_size_pos c : 9 <= Component.size c.
Proof.
  unfold Component.size. pose proof (zlen_nonneg (Component.name c)).
  pose proof (zlen_nonneg (Component.implementation c)).
  destruct (Component.interface c) as [s|]; [pose proof (zlen_nonneg s)|]; lia.
Qed.

Lemma component_fits c : Component.ok c ->
  fits (DPath ["Component"]) (Component.to_rval c) (Component.size c).
Proof.
  intros (Hn & Hi & Hm). named 24%nat. unfold Component.size. destruct Hn as [Hn Ln], Hm as [Hm Lm].
  assert (Hu : 3 * 2 ^ 32 + 16 <= usize_max) by by vm_compute. destruct c as [n [i|] m];
    cbn [Component.name Component.interface Component.implementation] in *.
  - destruct Hi as [Hi Li]. eapply fits_eq.
    + struct; [by apply fits_string|apply fits_some; [by apply fits_string|lia]
              |by apply fits_string|cbn; lia].
    + cbn. lia.
  - eapply fits_eq.
    + struct; [by apply fits_string|by eapply fits_none|by apply fits_string|cbn; lia].
    + cbn. lia.
Qed.

Lemma protocol_fits p : Protocol.ok p ->
  Protocol.components_size (Protocol.components p) <= PROTOCOL_COMPONENT_MAX_SIZE ->
  fits (DPath ["Protocol"]) (Protocol.to_rval p) (Protocol.size p).
Proof.
  intros [He Hc] Hw. unfold Protocol.size. named 25%nat.
  assert (Hu : PROTOCOL_COMPONENT_MAX_SIZE + 6 <= u32_max) by by vm_compute.
  assert (Hu' : u32_max <= usize_max) by by vm_compute.
  assert (Hl : fits (DList None (DPath ["Component"])) (RSeq (map Component.to_rval (Protocol.components p)))
    (Protocol.components_size (Protocol.components p))).
  { eapply (fits_map Component.to_rval Component.size None); [|reflexivity|done].
    apply (Forall_impl Component.ok); [done|]. apply component_fits. }
  eapply fits_eq.
  - struct; [by apply fits_i16| |].
    + apply fits_dynamic; [exact Hl|lia|by intros s [= <-]].
    + lia.
  - lia.
Qed.

Lemma version_fits v : NetworkVersion.ok v ->
  zlen (NetworkVersion.chain_name v) <= CHAIN_NAME_MAX_LENGTH ->
  fits (DPath ["NetworkVersion"]) (NetworkVersion.to_rval v) (NetworkVersion.size v).
Proof.
  intros (Hc & Hd & Hp) Hw. unfold NetworkVersion.size. named 0%nat.
  assert (Hu : CHAIN_NAME_MAX_LENGTH + 8 <= usize_max) by by vm_compute. eapply fits_eq.
  - struct; [by apply fits_bounded_string|by apply fits_u16|by apply fits_u16|lia].
  - lia.
Qed.

Lemma connection_fits m : ConnectionMessage.ok m -> connection_within m ->
  fits (DPath ["ConnectionMessage"]) (ConnectionMessage.to_rval m) (ConnectionMessage.size m).
Proof.
  intros (Hp & Hk & Hs & Hn & Hv) (Lk & Ls & Ln & Lc). unfold ConnectionMessage.size. named 1%nat.
  assert (Hu : CHAIN_NAME_MAX_LENGTH + 90 <= usize_max) by by vm_compute.
  pose proof (version_fits _ Hv Lc) as Hf. unfold NetworkVersion.size in *. eapply fits_eq.
  - struct; [by apply fits_u16| | | |exact Hf|].
    + apply fits_sized; [by apply fits_bytes|exact Lk].
    + apply fits_sized; [by apply fits_bytes|exact Ls].
    + apply fits_sized; [by apply fits_bytes|exact Ln].
    + lia.
  - lia.
Qed.

Lemma metadata_fits m : fits (DPath ["MetadataMessage"]) (MetadataMessage.to_rval m) 2.
Proof.
  named 2%nat. eapply fits_eq.
  - struct; [apply fits_bool|apply fits_bool|by vm_compute].
  - done.
Qed.

(** The variant number [k] of the enum. *)
Ltac unit_at i :=
  eapply fits_unit_variant with (k := i);
  [vm_compute; reflexivity|cbn; reflexivity|reflexivity|reflexivity|done].
Ltac newtype_at i :=
  eapply fits_newtype_variant with (k := i);
  [vm_compute; reflexivity|cbn; reflexivity|reflexivity|reflexivity|reflexivity|done|].

Lemma motive_fits m : fits (DPath ["NackMotive"]) (motive_rval m) 2.
Proof.
  named 3%nat. destruct m;
    [unit_at 0%nat|unit_at 1%nat|unit_at 2%nat|unit_at 3%nat|unit_at 4%nat|unit_at 5%nat].
Qed.

Lemma nack_fits i : NackInfo.ok i ->
  points_within NACK_PEERS_MAX_LENGTH (NackInfo.potential_peers_to_connect i) ->
  fits (DPath ["NackInfo"]) (NackInfo.to_rval i) (NackInfo.size i).
Proof.
  intros Hok Hw. unfold NackInfo.size. named 4%nat.
  pose proof (strings_size_bound _ _ (proj2 Hw)). pose proof (proj1 Hw).
  assert (Hu : P2P_POINT_MAX_SIZE * NACK_PEERS_MAX_LENGTH + 6 <= u32_max) by by vm_compute.
  assert (Hu' : u32_max <= usize_max) by by vm_compute.
  assert (0 <= P2P_POINT_MAX_SIZE) by by vm_compute. eapply fits_eq.
  - struct; [apply motive_fits| |].
    + apply fits_dynamic; [by apply points_fit|nia|done].
    + nia.
  - lia.
Qed.

Definition ack_within (m : AckMessage) : Prop :=
  match m with
  | Nack i => NackInfo.ok i /\
      points_within NACK_PEERS_MAX_LENGTH (NackInfo.potential_peers_to_connect i)
  | _ => True
  end.

Lemma ack_fits m : ack_within m ->
  fits (DPath ["AckMessage"]) (ack_rval m) (match m with Nack i => 1 + NackInfo.size i | _ => 1 end).
Proof.
  intros Hw. named 5%nat. destruct m as [| |i].
  - unit_at 0%nat.
  - unit_at 1%nat.
  - newtype_at 2%nat. apply nack_fits; apply Hw.
Qed.

(** ** Peer messages *)
Lemma advertise_fits m : AdvertiseMessage.ok m ->
  points_within ADVERTISE_ID_LIST_MAX_LENGTH (AdvertiseMessage.id m) ->
  fits (DPath ["AdvertiseMessage"]) (AdvertiseMessage.to_rval m) (AdvertiseMessage.size m).
Proof.
  intros Hok Hw. named 6%nat. pose proof (strings_size_bound _ _ (proj2 Hw)). pose proof (proj1 Hw).
  assert (Hu : P2P_POINT_MAX_SIZE * ADVERTISE_ID_LIST_MAX_LENGTH <= usize_max) by by vm_compute.
  assert (0 <= P2P_POINT_MAX_SIZE) by by vm_compute. unfold AdvertiseMessage.size. eapply fits_eq.
  - struct; [by apply points_fit|nia].
  - lia.
Qed.

Lemma swap_fits m : SwapMessage.ok m -> 4 + zlen (SwapMessage.point m) <= P2P_POINT_MAX_SIZE ->
  fits (DPath ["SwapMessage"]) (SwapMessage.to_rval m) (SwapMessage.size m).
Proof.
  intros [Hp Hh] Hw. named 7%nat. unfold SwapMessage.size.
  assert (Hu : P2P_POINT_MAX_SIZE + 16 <= usize_max) by by vm_compute. eapply fits_eq.
  - struct.
    + apply fits_bounded; [by apply fits_string|exact Hw].
    + hash_of "CryptoboxPublicKeyHash".
    + cbn [hash_size]. lia.
  - cbn [hash_size]. lia.
Qed.

(** A struct whose only field is a chain identifier. *)
Ltac chain_struct k :=
  named k; eapply fits_eq; [struct; [hash_of "ChainId"|by vm_compute]|done].

Lemma branch_fits m : CurrentBranchMessage.ok m -> Within.peer (PeerMessage.CurrentBranch m) ->
  fits (DPath ["CurrentBranchMessage"]) (CurrentBranchMessage.to_rval m) (CurrentBranchMessage.size m).
Proof.
  intros [Hc [Hh Hl]] [Hwh Hwl]. unfold CurrentBranchMessage.size, CurrentBranch.size.
  pose proof (header_fits _ Hh Hwh) as Hf. unfold header_within in Hwh.
  assert (Hm : BLOCK_HEADER_MAX_SIZE + 32 * CURRENT_BRANCH_HISTORY_MAX_LENGTH + 8 <= u32_max)
    by by vm_compute.
  assert (Hu' : u32_max <= usize_max) by by vm_compute.
  assert (0 <= CURRENT_BRANCH_HISTORY_MAX_LENGTH) by by vm_compute.
  assert (Hb : fits (DPath ["CurrentBranch"])
    (CurrentBranch.to_rval (CurrentBranchMessage.current_branch m))
    (CurrentBranch.size (CurrentBranchMessage.current_branch m))).
  { named 12%nat. unfold CurrentBranch.size. eapply fits_eq.
    - struct.
      + apply fits_dynamic; [exact Hf|lia|by intros s [= <-]].
      + hashes_of "BlockHash". by intros s [= <-].
      + cbn [hash_size]. lia.
    - cbn [hash_size]. lia. }
  named 13%nat. eapply fits_eq.
  - struct; [hash_of "ChainId"|exact Hb|]. cbn [hash_size]. unfold CurrentBranch.size. lia.
  - cbn [hash_size]. unfold CurrentBranch.size. lia.
Qed.

Lemma head_fits m : CurrentHeadMessage.ok m -> Within.peer (PeerMessage.CurrentHead m) ->
  fits (DPath ["CurrentHeadMessage"]) (CurrentHeadMessage.to_rval m) (CurrentHeadMessage.size m).
Proof.
  intros (Hc & Hh & Hp) [Hwh Hwp]. unfold CurrentHeadMessage.size.
  pose proof (header_fits _ Hh Hwh) as Hf. pose proof (mempool_fits _ Hp Hwp) as Hfm.
  unfold header_within, mempool_within in *.
  assert (Hm : BLOCK_HEADER_MAX_SIZE + MEMPOOL_MAX_SIZE + 8 <= u32_max) by by vm_compute.
  assert (0 <= MEMPOOL_MAX_SIZE) by by vm_compute.
  assert (Hu' : u32_max <= usize_max) by by vm_compute. named 16%nat. eapply fits_eq.
  - struct; [hash_of "ChainId"|apply fits_dynamic; [exact Hf|lia|by intros s [= <-]]|exact Hfm|].
    cbn [hash_size]. lia.
  - cbn [hash_size]. lia.
Qed.

(** A struct whose only field is a short list of hashes. *)
Ltac short_hashes n max :=
  eapply fits_eq;
  [struct; [apply fits_dynamic; [hashes_of n; by intros s [= <-]| |done]|];
    cbn [hash_size]; unfold max, u32_max, usize_max in *; lia
  |cbn [hash_size]; rewrite Z.add_0_r; reflexivity].

Definition hashes_size (l : list bytes) : Z := 4 + 32 * zlen l.

Lemma get_block_headers_fits m : GetBlockHeadersMessage.ok m ->
  zlen (GetBlockHeadersMessage.get_block_headers m) <= GET_BLOCK_HEADERS_MAX_LENGTH ->
  fits (DPath ["GetBlockHeadersMessage"]) (GetBlockHeadersMessage.to_rval m)
    (hashes_size (GetBlockHeadersMessage.get_block_headers m)).
Proof. intros Hok Hw. named 11%nat. short_hashes "BlockHash" GET_BLOCK_HEADERS_MAX_LENGTH. Qed.

Lemma get_operations_fits m : GetOperationsMessage.ok m ->
  zlen (GetOperationsMessage.get_operations m) <= GET_OPERATIONS_MAX_LENGTH ->
  fits (DPath ["GetOperationsMessage"]) (GetOperationsMessage.to_rval m)
    (hashes_size (GetOperationsMessage.get_operations m)).
Proof. intros Hok Hw. named 20%nat. short_hashes "OperationHash" GET_OPERATIONS_MAX_LENGTH. Qed.

Lemma get_protocols_fits m : GetProtocolsMessage.ok m ->
  zlen (GetProtocolsMessage.get_protocols m) <= GET_PROTOCOLS_MAX_LENGTH ->
  fits (DPath ["GetProtocolsMessage"]) (GetProtocolsMessage.to_rval m)
    (hashes_size (GetProtocolsMessage.get_protocols m)).
Proof. intros Hok Hw. named 27%nat. short_hashes "ProtocolHash" GET_PROTOCOLS_MAX_LENGTH. Qed.

Lemma get_operations_for_blocks_fits m : GetOperationsForBlocksMessage.ok m ->
  zlen (GetOperationsForBlocksMessage.get_operations_for_blocks m) <=
    GET_OPERATIONS_FOR_BLOCKS_MAX_LENGTH ->
  fits (DPath ["GetOperationsForBlocksMessage"]) (GetOperationsForBlocksMessage.to_rval m)
    (4 + 33 * zlen (GetOperationsForBlocksMessage.get_operations_for_blocks m)).
Proof.
  intros Hok Hw. named 23%nat. set (l := GetOperationsForBlocksMessage.get_operations_for_blocks m) in *.
  assert (Hl : fits (DList (Some "GET_OPERATIONS_FOR_BLOCKS_MAX_LENGTH") (DPath ["OperationsForBlock"]))
    (RSeq (map OperationsForBlock.to_rval l)) (33 * zlen l)).
  { eapply fits_eq; [|apply zsum_const].
    eapply (fits_map OperationsForBlock.to_rval (fun _ => 33)); [|reflexivity|by intros s [= <-]].
    apply (Forall_impl OperationsForBlock.ok); [done|]. apply operations_for_block_fits. }
  unfold GET_OPERATIONS_FOR_BLOCKS_MAX_LENGTH in *.
  assert (Hu : 334 <= u32_max) by by vm_compute. assert (Hu' : u32_max <= usize_max) by by vm_compute.
  eapply fits_eq; [struct; [apply fits_dynamic; [exact Hl|lia|done]|lia]|lia].
Qed.

Lemma operations_fit m : OperationsForBlocksMessage.ok m ->
  Within.peer (PeerMessage.OperationsForBlocks m) ->
  fits (DPath ["OperationsForBlocksMessage"]) (OperationsForBlocksMessage.to_rval m)
    (OperationsForBlocksMessage.size m).
Proof.
  intros (Hb & Hp & Ho) [Hwo Hw]. named 22%nat. unfold OperationsForBlocksMessage.size.
  set (l := OperationsForBlocksMessage.operations m) in *. destruct Hp as [Hp Hp3].
  assert (Hop : 32 + OPERATION_MAX_SIZE <= u32_max) by by vm_compute.
  assert (Hu : OPERATION_LIST_MAX_SIZE + 134 <= usize_max) by by vm_compute.
  assert (Hl : fits (DList None (DDynamic None (DPath ["Operation"])))
    (RSeq (map Operation.to_rval l)) (OperationsForBlocksMessage.operations_size l)).
  { eapply (fits_map Operation.to_rval (fun o => 4 + Operation.size o)); [|reflexivity|done].
    apply Forall_forall. intros o Hin. rewrite Forall_forall in Ho, Hwo. pose proof (Hwo o Hin) as Hwi.
    unfold operation_within in Hwi.
    apply fits_dynamic; [by apply operation_fits; [apply Ho|apply Hwo]| |done].
    unfold Operation.size. lia. }
  eapply fits_eq.
  - struct; [by apply operations_for_block_fits|by apply fits_path|apply fits_bounded; [exact Hl|exact Hw]|].
    lia.
  - lia.
Qed.

(** The size of a peer message, without its tag. *)
Definition peer_size (m : PeerMessage.t) : Z :=
  match m with
  | PeerMessage.Disconnect | PeerMessage.Bootstrap => 0
  | PeerMessage.Advertise m => AdvertiseMessage.size m
  | PeerMessage.SwapRequest m | PeerMessage.SwapAck m => SwapMessage.size m
  | PeerMessage.GetCurrentBranch _ | PeerMessage.Deactivate _ | PeerMessage.GetCurrentHead _ => 4
  | PeerMessage.CurrentBranch m => CurrentBranchMessage.size m
  | PeerMessage.CurrentHead m => CurrentHeadMessage.size m
  | PeerMessage.GetBlockHeaders m => hashes_size (GetBlockHeadersMessage.get_block_headers m)
  | PeerMessage.BlockHeader m => BlockHeader.size (BlockHeaderMessage.block_header m)
  | PeerMessage.GetOperations m => hashes_size (GetOperationsMessage.get_operations m)
  | PeerMessage.Operation m => Operation.size (OperationMessage.operation m)
  | PeerMessage.GetProtocols m => hashes_size (GetProtocolsMessage.get_protocols m)
  | PeerMessage.Protocol m => Protocol.size (ProtocolMessage.protocol m)
  | PeerMessage.GetOperationsForBlocks m =>
      4 + 33 * zlen (GetOperationsForBlocksMessage.get_operations_for_blocks m)
  | PeerMessage.OperationsForBlocks m => OperationsForBlocksMessage.size m
  end.

Lemma header_message_fits m : BlockHeader.ok (BlockHeaderMessage.block_header m) ->
  header_within (BlockHeaderMessage.block_header m) ->
  fits (DPath ["BlockHeaderMessage"]) (BlockHeaderMessage.to_rval m)
    (BlockHeader.size (BlockHeaderMessage.block_header m)).
Proof.
  intros Hok Hw. named 10%nat. pose proof (header_fits _ Hok Hw) as Hf. unfold header_within in Hw.
  assert (BLOCK_HEADER_MAX_SIZE <= usize_max) by by vm_compute.
  eapply fits_eq; [struct; [exact Hf|lia]|lia].
Qed.

Lemma operation_message_fits m : Operation.ok (OperationMessage.operation m) ->
  operation_within (OperationMessage.operation m) ->
  fits (DPath ["OperationMessage"]) (OperationMessage.to_rval m)
    (Operation.size (OperationMessage.operation m)).
Proof.
  intros Hok Hw. named 19%nat. pose proof (operation_fits _ Hok Hw) as Hf.
  unfold operation_within, Operation.size in *.
  assert (OPERATION_MAX_SIZE + 32 <= usize_max) by by vm_compute.
  eapply fits_eq; [struct; [exact Hf|lia]|lia].
Qed.

Lemma protocol_message_fits m : Protocol.ok (ProtocolMessage.protocol m) ->
  Within.peer (PeerMessage.Protocol m) ->
  fits (DPath ["ProtocolMessage"]) (ProtocolMessage.to_rval m) (Protocol.size (ProtocolMessage.protocol m)).
Proof.
  intros Hok Hw. named 26%nat. pose proof (protocol_fits _ Hok Hw) as Hf. cbn [Within.peer] in Hw.
  unfold Protocol.size in *. assert (PROTOCOL_COMPONENT_MAX_SIZE + 6 <= usize_max) by by vm_compute.
  eapply fits_eq; [struct; [exact Hf|lia]|lia].
Qed.

Lemma chain_fits m n k h :
  declared !! k = Some (n, DStruct n [(m, Some (DPath ["ChainId"]))]) -> hash_ok ChainId h ->
  fits (DPath [n]) (RStruct [(m, hash_rval h)]) 4.
Proof.
  intros Hk Hh. eapply (fits_name k); [exact Hk|]. eapply fits_eq.
  - eapply fits_struct.
    + eapply fits_fields_cons; [hash_of "ChainId"|apply fits_fields_nil].
    + apply bool_decide_eq_true. apply NoDup_singleton.
    + by vm_compute.
  - done.
Qed.

Definition peer_tags : list (Z * string * denc) :=
  Eval vm_compute in match declared !! 28%nat with Some (_, DEnum _ _ _ tags) => tags | _ => [] end.

Lemma peer_tags_distinct : tags_distinct peer_tags = true.
Proof. by vm_compute. Qed.

Lemma peer_unit k id n : peer_tags !! k = Some (id, n, DUnit) ->
  fits (DPath ["PeerMessage"]) (RUnitVariant (Z.of_nat k) n) 2.
Proof.
  intros Hk. assert (Hd : declared !! 28%nat = Some ("PeerMessage", DEnum "PeerMessage" "u16" true peer_tags))
    by reflexivity.
  apply (fits_name 28 _ _ _ _ Hd). destruct (declared_entry _ _ _ Hd) as (ti & t & _ & He & _).
  apply (fits_unit_variant _ _ _ _ _ peer_tags_distinct He k id n 2 Hk eq_refl). done.
Qed.

Lemma peer_newtype k id n m v size : peer_tags !! k = Some (id, n, DPath [m]) ->
  fits (DPath [m]) v size ->
  fits (DPath ["PeerMessage"]) (RNewtypeVariant (Z.of_nat k) n v) (2 + size).
Proof.
  intros Hk Hv. assert (Hd : declared !! 28%nat = Some ("PeerMessage", DEnum "PeerMessage" "u16" true peer_tags))
    by reflexivity.
  apply (fits_name 28 _ _ _ _ Hd). destruct (declared_entry _ _ _ Hd) as (ti & t & _ & He & _).
  by apply (fits_newtype_variant _ _ _ _ _ peer_tags_distinct He k id n (DPath [m]) 2).
Qed.

Lemma peer_fits m : PeerMessage.ok m -> Within.peer m ->
  fits (DPath ["PeerMessage"]) (PeerMessage.to_rval m) (2 + peer_size m).
Proof.
  intros Hok Hw. destruct m; cbn [PeerMessage.ok Within.peer peer_size PeerMessage.to_rval] in *.
  - by apply (peer_unit 0 1).
  - apply (peer_newtype 1 3 _ "AdvertiseMessage"); [done|]. by apply advertise_fits.
  - apply (peer_newtype 2 4 _ "SwapMessage"); [done|]. by apply swap_fits.
  - apply (peer_newtype 3 5 _ "SwapMessage"); [done|]. by apply swap_fits.
  - by apply (peer_unit 4 2).
  - apply (peer_newtype 5 16 _ "GetCurrentBranchMessage"); [done|]. by apply (chain_fits "chain_id" _ 14).
  - apply (peer_newtype 6 17 _ "CurrentBranchMessage"); [done|]. by apply branch_fits.
  - apply (peer_newtype 7 18 _ "DeactivateMessage"); [done|]. by apply (chain_fits "deactivate" _ 8).
  - apply (peer_newtype 8 19 _ "GetCurrentHeadMessage"); [done|]. by apply (chain_fits "chain_id" _ 17).
  - apply (peer_newtype 9 20 _ "CurrentHeadMessage"); [done|]. by apply head_fits.
  - apply (peer_newtype 10 32 _ "GetBlockHeadersMessage"); [done|]. by apply get_block_headers_fits.
  - apply (peer_newtype 11 33 _ "BlockHeaderMessage"); [done|]. by apply header_message_fits.
  - apply (peer_newtype 12 48 _ "GetOperationsMessage"); [done|]. by apply get_operations_fits.
  - apply (peer_newtype 13 49 _ "OperationMessage"); [done|]. by apply operation_message_fits.
  - apply (peer_newtype 14 64 _ "GetProtocolsMessage"); [done|]. by apply get_protocols_fits.
  - apply (peer_newtype 15 65 _ "ProtocolMessage"); [done|]. by apply protocol_message_fits.
  - apply (peer_newtype 16 96 _ "GetOperationsForBlocksMessage"); [done|]. by apply get_operations_for_blocks_fits.
  - apply (peer_newtype 17 97 _ "OperationsForBlocksMessage"); [done|]. by apply operations_fit.
Qed.

Lemma peer_size_bound m : PeerMessage.ok m -> Within.peer m -> 2 + peer_size m <= MESSAGE_MAX_SIZE.
Proof.
  intros Hok Hw. change MESSAGE_MAX_SIZE with 8516630.
  destruct m; cbn [PeerMessage.ok Within.peer peer_size] in *;
    unfold header_within, mempool_within, operation_within, SwapMessage.size,
      CurrentBranchMessage.size, CurrentBranch.size, CurrentHeadMessage.size, Operation.size,
      Protocol.size, OperationsForBlocksMessage.size, hashes_size, OperationsForBlocksMessage.ok,
      path_ok, BLOCK_HEADER_MAX_SIZE, P2P_POINT_MAX_SIZE, CURRENT_BRANCH_HISTORY_MAX_LENGTH,
      MEMPOOL_MAX_SIZE, MEMPOOL_MAX_OPERATIONS, GET_BLOCK_HEADERS_MAX_LENGTH,
      GET_OPERATIONS_MAX_LENGTH, GET_PROTOCOLS_MAX_LENGTH, GET_OPERATIONS_FOR_BLOCKS_MAX_LENGTH,
      OPERATION_MAX_SIZE, OPERATION_LIST_MAX_SIZE, PROTOCOL_COMPONENT_MAX_SIZE, PROTOCOL_MAX_SIZE in *;
    cbn [hash_size] in *; try lia.
  destruct Hw as [Hl Hs]. pose proof (strings_size_bound _ _ Hs) as Hb.
  unfold AdvertiseMessage.size, ADVERTISE_ID_LIST_MAX_LENGTH, P2P_POINT_MAX_SIZE in *. lia.
Qed.

(** A message of the right types within its limits is a value of its declaration
    and is written, with the size [peer_size] and six bytes of length and tag. *)
Lemma peer_written m : PeerMessage.ok m -> Within.peer m ->
  message_value "PeerMessageResponse" (PeerMessageResponse.to_rval (PeerMessageResponse.from m)) /\
  exists bs, as_bytes (impl_of "PeerMessageResponse")
      (PeerMessageResponse.to_rval (PeerMessageResponse.from m)) = Ok bs /\
    zlen bs = 6 + peer_size m.
Proof.
  intros Hok Hw. pose proof (peer_fits _ Hok Hw) as Hf. pose proof (peer_size_bound _ Hok Hw) as Hb.
  assert (Hm : MESSAGE_MAX_SIZE <= u32_max) by by vm_compute.
  assert (Hu : u32_max <= usize_max) by by vm_compute.
  apply fits_written.
  - named 29%nat. eapply (fits_eq _ _ (4 + (2 + peer_size m + 0))); [|lia].
    apply fits_dynamic; [|lia|intros s [= <-]; change (const "MESSAGE_MAX_SIZE") with MESSAGE_MAX_SIZE; lia].
    eapply fits_struct; [|by vm_compute|lia].
    eapply fits_fields_cons; [exact Hf|apply fits_fields_nil].
  - destruct (declared_entry 29 _ _ eq_refl) as (ti & t & He & _). rewrite He. by eexists.
Qed.
End Sizes.

Close Scope string_scope.
