(* ===== verification/MessageRead.v ===== *)
(** * Messages as they are read

    The readers of [NomReader] give a [rval]; the Rust code that receives a
    message gets a struct or an enum.  [of_rval] recovers it: it inverts the
    derived [Serialize] of every peer message, and it is defined on every value
    of the declared types, so on every message that was read from bytes. *)

From Stdlib Require Import ZArith Lia List Bool String.
From stdpp Require Import base option list numbers strings.
From S2P Require Import Prelude Extern BitUtils CryptoHash Types Serializer BinaryWriter WriterSpec NomCrate NomReader DeriveMake Derive RoundTrip DerivedCodec MerklePath Messages BinaryMessage ExternRef Zarith WriterFacts MessageFits MessageTypes.

Set Warnings "-register-all".
Open Scope string_scope.

(** ** Parts *)
Definition u8_of (v : rval) : option Z := match v with RU8 b => Some b | _ => None end.
Definition str_of (v : rval) : option bytes := match v with RStr s => Some s | _ => None end.
Definition list_of {A} (f : rval -> option A) (v : rval) : option (list A) :=
  match v with RSeq l => opt_map f l | _ => None end.
Definition bytes_of : rval -> option bytes := list_of u8_of.
Definition hash_of (v : rval) : option bytes :=
  match v with RNewtypeStruct w => bytes_of w | _ => None end.

Definition item_of (v : rval) : option PathItem :=
  match v with
  | RNewtypeVariant 0 _ (RStruct [(_, h)]) => h ← bytes_of h; Some (PathItemRight h)
  | RNewtypeVariant 1 _ (RStruct [(_, h)]) => h ← bytes_of h; Some (PathItemLeft h)
  | _ => None
  end.
Definition path_of (v : rval) : option Path :=
  match v with RPath l => opt_map item_of l | _ => None end.

#[local] Arguments bytes_of : simpl never.
#[local] Arguments hash_of : simpl never.
#[local] Arguments list_of : simpl never.
#[local] Arguments path_of : simpl never.
#[local] Arguments bytes_rval : simpl never.
#[local] Arguments hash_rval : simpl never.
#[local] Arguments hashes_rval : simpl never.
#[local] Arguments strings_rval : simpl never.
#[local] Arguments path_rval : simpl never.

Lemma opt_map_map {A B} (f : B -> option A) (g : A -> B) l :
  (forall a, f (g a) = Some a) -> opt_map f (map g l) = Some l.
Proof. intros Hf. induction l as [|a l IH]; simpl; [done|]. by rewrite Hf, IH. Qed.

Lemma bytes_of_rval l : bytes_of (bytes_rval l) = Some l.
Proof. by apply opt_map_map. Qed.
Lemma hash_of_rval h : hash_of (hash_rval h) = Some h.
Proof. apply bytes_of_rval. Qed.
Lemma hashes_of_rval l : list_of hash_of (hashes_rval l) = Some l.
Proof. apply opt_map_map, hash_of_rval. Qed.
Lemma strings_of_rval l : list_of str_of (strings_rval l) = Some l.
Proof. by apply opt_map_map. Qed.
Lemma path_of_rval q : path_of (path_rval q) = Some q.
Proof. apply opt_map_map. intros [h|h]; cbn; by rewrite bytes_of_rval. Qed.

(** ** Structs *)
Definition header_of (v : rval) : option BlockHeader.t :=
  match v with
  | RStruct [(_, RI32 level); (_, RU8 proto); (_, predecessor); (_, RI64 timestamp);
             (_, RU8 validation_pass); (_, operations_hash); (_, fitness); (_, context);
             (_, protocol_data)] =>
      predecessor ← hash_of predecessor; operations_hash ← hash_of operations_hash;
      fitness ← list_of bytes_of fitness; context ← hash_of context;
      protocol_data ← bytes_of protocol_data;
      Some (BlockHeader.mk level proto predecessor timestamp validation_pass operations_hash fitness
              context protocol_data)
  | _ => None
  end.

(** A struct with one field. *)
Definition field_of {A} (f : rval -> option A) (v : rval) : option A :=
  match v with RStruct [(_, w)] => f w | _ => None end.

Definition branch_of (v : rval) : option CurrentBranch.t :=
  match v with
  | RStruct [(_, h); (_, l)] =>
      h ← header_of h; l ← list_of hash_of l; Some (CurrentBranch.mk h l)
  | _ => None
  end.
Definition branch_message_of (v : rval) : option CurrentBranchMessage.t :=
  match v with
  | RStruct [(_, c); (_, b)] => c ← hash_of c; b ← branch_of b; Some (CurrentBranchMessage.mk c b)
  | _ => None
  end.
Definition mempool_of (v : rval) : option Mempool.t :=
  match v with
  | RStruct [(_, k); (_, q)] => k ← list_of hash_of k; q ← list_of hash_of q; Some (Mempool.mk k q)
  | _ => None
  end.
Definition head_of (v : rval) : option CurrentHeadMessage.t :=
  match v with
  | RStruct [(_, c); (_, h); (_, m)] =>
      c ← hash_of c; h ← header_of h; m ← mempool_of m; Some (CurrentHeadMessage.mk c h m)
  | _ => None
  end.
Definition swap_of (v : rval) : option SwapMessage.t :=
  match v with
  | RStruct [(_, RStr s); (_, h)] => h ← hash_of h; Some (SwapMessage.mk s h)
  | _ => None
  end.
Definition operation_of (v : rval) : option Operation.t :=
  match v with
  | RStruct [(_, b); (_, d)] => b ← hash_of b; d ← bytes_of d; Some (Operation.mk b d)
  | _ => None
  end.
Definition operations_for_block_of (v : rval) : option OperationsForBlock.t :=
  match v with
  | RStruct [(_, h); (_, RI8 z)] => h ← hash_of h; Some (OperationsForBlock.mk h z)
  | _ => None
  end.
Definition operations_for_blocks_of (v : rval) : option OperationsForBlocksMessage.t :=
  match v with
  | RStruct [(_, b); (_, q); (_, l)] =>
      b ← operations_for_block_of b; q ← path_of q; l ← list_of operation_of l;
      Some (OperationsForBlocksMessage.mk b q l)
  | _ => None
  end.
Definition component_of (v : rval) : option Component.t :=
  match v with
  | RStruct [(_, RStr n); (_, RNone); (_, RStr m)] => Some (Component.mk n None m)
  | RStruct [(_, RStr n); (_, RSome (RStr i)); (_, RStr m)] => Some (Component.mk n (Some i) m)
  | _ => None
  end.
Definition protocol_of (v : rval) : option Protocol.t :=
  match v with
  | RStruct [(_, RI16 z); (_, l)] => l ← list_of component_of l; Some (Protocol.mk z l)
  | _ => None
  end.

Definition peer_of (v : rval) : option PeerMessage.t :=
  match v with
  | RUnitVariant 0 _ => Some PeerMessage.Disconnect
  | RUnitVariant 4 _ => Some PeerMessage.Bootstrap
  | RNewtypeVariant i _ w =>
      match i with
      | 1 => l ← field_of (list_of str_of) w; Some (PeerMessage.Advertise (AdvertiseMessage.mk l))
      | 2 => m ← swap_of w; Some (PeerMessage.SwapRequest m)
      | 3 => m ← swap_of w; Some (PeerMessage.SwapAck m)
      | 5 => h ← field_of hash_of w;
             Some (PeerMessage.GetCurrentBranch (GetCurrentBranchMessage.mk h))
      | 6 => m ← branch_message_of w; Some (PeerMessage.CurrentBranch m)
      | 7 => h ← field_of hash_of w; Some (PeerMessage.Deactivate (DeactivateMessage.mk h))
      | 8 => h ← field_of hash_of w; Some (PeerMessage.GetCurrentHead (GetCurrentHeadMessage.mk h))
      | 9 => m ← head_of w; Some (PeerMessage.CurrentHead m)
      | 10 => l ← field_of (list_of hash_of) w;
              Some (PeerMessage.GetBlockHeaders (GetBlockHeadersMessage.mk l))
      | 11 => h ← field_of header_of w; Some (PeerMessage.BlockHeader (BlockHeaderMessage.from h))
      | 12 => l ← field_of (list_of hash_of) w;
              Some (PeerMessage.GetOperations (GetOperationsMessage.mk l))
      | 13 => o ← field_of operation_of w; Some (PeerMessage.Operation (OperationMessage.from o))
      | 14 => l ← field_of (list_of hash_of) w;
              Some (PeerMessage.GetProtocols (GetProtocolsMessage.mk l))
      | 15 => q ← field_of protocol_of w; Some (PeerMessage.Protocol (ProtocolMessage.mk q))
      | 16 => l ← field_of (list_of operations_for_block_of) w;
              Some (PeerMessage.GetOperationsForBlocks (GetOperationsForBlocksMessage.mk l))
      | 17 => m ← operations_for_blocks_of w; Some (PeerMessage.OperationsForBlocks m)
      | _ => None
      end
  | _ => None
  end.

Definition response_of (v : rval) : option PeerMessage.t := field_of peer_of v.

(** ** Inverses *)
Create Rewrite HintDb of_rval.
#[export] Hint Rewrite bytes_of_rval hash_of_rval hashes_of_rval strings_of_rval path_of_rval : of_rval.


(** A list of values of a type with an inverse. *)
Lemma list_of_rval {A} (f : rval -> option A) (g : A -> rval) l :
  (forall a, f (g a) = Some a) -> list_of f (RSeq (map g l)) = Some l.
Proof. apply opt_map_map. Qed.

Ltac of_rval := cbn; autorewrite with of_rval; cbn; autorewrite with of_rval; cbn; try done.

Lemma header_of_rval h : header_of (BlockHeader.to_rval h) = Some h.
Proof. destruct h. cbn. rewrite (list_of_rval bytes_of) by apply bytes_of_rval. of_rval. Qed.
#[local] Arguments header_of : simpl never.
#[local] Arguments BlockHeader.to_rval : simpl never.
#[export] Hint Rewrite header_of_rval : of_rval.

Lemma branch_message_of_rval m : branch_message_of (CurrentBranchMessage.to_rval m) = Some m.
Proof. destruct m as [c [h l]]. of_rval. Qed.
Lemma head_of_rval m : head_of (CurrentHeadMessage.to_rval m) = Some m.
Proof. destruct m as [c h [k q]]. of_rval. Qed.
Lemma swap_of_rval m : swap_of (SwapMessage.to_rval m) = Some m.
Proof. destruct m. of_rval. Qed.
Lemma operation_of_rval o : operation_of (Operation.to_rval o) = Some o.
Proof. destruct o. of_rval. Qed.
Lemma operations_for_block_of_rval o : operations_for_block_of (OperationsForBlock.to_rval o) = Some o.
Proof. destruct o. of_rval. Qed.
Lemma component_of_rval c : component_of (Component.to_rval c) = Some c.
Proof. by destruct c as [n [i|] m]. Qed.
Lemma protocol_of_rval q : protocol_of (Protocol.to_rval q) = Some q.
Proof. destruct q. cbn. by rewrite (list_of_rval component_of _ _ component_of_rval). Qed.
Lemma operations_for_blocks_of_rval m :
  operations_for_blocks_of (OperationsForBlocksMessage.to_rval m) = Some m.
Proof.
  destruct m as [[h z] q l]. cbn. autorewrite with of_rval. cbn. autorewrite with of_rval. cbn.
  by rewrite (list_of_rval operation_of _ _ operation_of_rval).
Qed.

#[local] Arguments branch_message_of : simpl never.
#[local] Arguments head_of : simpl never.
#[local] Arguments swap_of : simpl never.
#[local] Arguments operation_of : simpl never.
#[local] Arguments protocol_of : simpl never.
#[local] Arguments operations_for_blocks_of : simpl never.
#[export] Hint Rewrite branch_message_of_rval head_of_rval swap_of_rval operation_of_rval
  protocol_of_rval operations_for_blocks_of_rval : of_rval.

Lemma peer_of_rval m : peer_of (PeerMessage.to_rval m) = Some m.
Proof.
  destruct m as [|m|m|m| |m|m|m|m|m|m|m|m|m|m|m|m|m]; cbn [PeerMessage.to_rval peer_of];
    autorewrite with of_rval; try done; destruct m; cbn; autorewrite with of_rval; try done.
  by rewrite (list_of_rval operations_for_block_of _ _ operations_for_block_of_rval).
Qed.

Lemma response_of_rval m :
  response_of (PeerMessageResponse.to_rval (PeerMessageResponse.from m)) = Some m.
Proof. apply peer_of_rval. Qed.

(** ** Every declared value is the [rval] of a Rust value *)
Section Values.
Context `{BytesCrate, BitVecCrate, HexCrate, UnicodeTables, BigIntCrate, NomCrate, SynCrate}.

Abbreviation value := (typed path_spec_of no_default).

Lemma hash_value n t v : p2p_entry n = Some (hash_impl t, mkSpec true true (is_hash t)) ->
  value (DPath [n]) v -> exists h, v = hash_rval h /\ hash_ok t h.
Proof.
  intros He. cbn [typed path_spec_of]. rewrite He. intros (h & -> & Hb & Hl). by exists h.
Qed.

Lemma named_value k n d v : declared !! k = Some (n, d) -> value (DPath [n]) v -> value d v.
Proof.
  intros Hk Hv. apply (message_value_tree k n d v Hk). unfold message_value.
  cbn [typed path_spec_of] in Hv. destruct (p2p_entry n) as [[ti t]|]; [done|done].
Qed.

(** A list whose elements come from a Rust type. *)
Lemma list_value {A} (T : rval -> Prop) (f : A -> rval) (P : A -> Prop) v :
  (forall w, T w -> exists a, w = f a /\ P a) -> is_list T v ->
  exists l, v = RSeq (map f l) /\ Forall P l.
Proof.
  intros Hf (l & -> & Hl). induction Hl as [|w l Hw _ (k & Hk & Hall)].
  - by exists [].
  - destruct (Hf w Hw) as (a & -> & Ha). injection Hk as ->. exists (a :: k). split; [done|].
    by constructor.
Qed.

Lemma u8s_value v : is_list (primitive_typed PUint8) v -> exists l, v = bytes_rval l /\ are_bytes l.
Proof.
  intros Hv. apply (list_value _ RU8 is_byte) in Hv as (l & -> & Hl); [by exists l|].
  intros w (z & -> & Hz). by exists z.
Qed.

Lemma string_value v : is_string v -> exists s, v = RStr s /\ string_ok s.
Proof. intros (s & -> & Hs). by exists s. Qed.

Lemma hashes_value n t v : p2p_entry n = Some (hash_impl t, mkSpec true true (is_hash t)) ->
  is_list (value (DPath [n])) v -> exists l, v = hashes_rval l /\ Forall (hash_ok t) l.
Proof. intros He. apply list_value. intros w. by apply hash_value. Qed.

(** Opens a named struct: one hypothesis per field. *)
Ltac open_struct k H0 :=
  let H := fresh "Hs" in rename H0 into H;
  apply (named_value k _ _ _ eq_refl) in H; cbn [typed] in H;
  let vals := fresh "vals" in destruct H as (vals & -> & H);
  repeat (let n := fresh "n" in let w := fresh "w" in let Hw := fresh "Hw" in
          destruct vals as [|[n w] vals]; cbn [fields_typed] in H; [contradiction|];
          destruct H as (<- & Hw & H));
  destruct vals as [|[? ?] vals]; [clear H|contradiction].

Ltac hash_at n H :=
  eapply (hash_value n) in H; [|apply base_entry; [reflexivity|cbn; reflexivity]];
  let h := fresh "h" in let Hh := fresh "Hh" in destruct H as (h & -> & Hh).
Ltac hashes_at n H :=
  eapply (hashes_value n) in H; [|apply base_entry; [reflexivity|cbn; reflexivity]];
  let l := fresh "l" in let Hl := fresh "Hl" in destruct H as (l & -> & Hl).

Lemma header_value v : value (DPath ["BlockHeader"]) v ->
  exists h, v = BlockHeader.to_rval h /\ BlockHeader.ok h.
Proof.
  intros H'. open_struct 9%nat H'.
  destruct Hw as (level & -> & Hlevel), Hw0 as (proto & -> & Hproto), Hw2 as (ts & -> & Hts),
    Hw3 as (vp & -> & Hvp).
  hash_at "BlockHash" Hw1. hash_at "OperationListListHash" Hw4. hash_at "ContextHash" Hw6.
  apply (list_value _ bytes_rval are_bytes _ u8s_value) in Hw5 as (fit & -> & Hfit).
  apply u8s_value in Hw7 as (d & -> & Hd).
  exists (BlockHeader.mk level proto h ts vp h0 fit h1 d). by split.
Qed.

Lemma branch_value v : value (DPath ["CurrentBranchMessage"]) v ->
  exists m, v = CurrentBranchMessage.to_rval m /\ CurrentBranchMessage.ok m.
Proof.
  intros H'. open_struct 13%nat H'. open_struct 12%nat Hw0. hash_at "ChainId" Hw.
  apply header_value in Hw0 as (b & -> & Hb). hashes_at "BlockHash" Hw1.
  by exists (CurrentBranchMessage.mk h (CurrentBranch.mk b l)).
Qed.

Lemma head_value v : value (DPath ["CurrentHeadMessage"]) v ->
  exists m, v = CurrentHeadMessage.to_rval m /\ CurrentHeadMessage.ok m.
Proof.
  intros H'. open_struct 16%nat H'. open_struct 15%nat Hw1. hash_at "ChainId" Hw.
  apply header_value in Hw0 as (b & -> & Hb). hashes_at "OperationHash" Hw1.
  hashes_at "OperationHash" Hw2.
  by exists (CurrentHeadMessage.mk h b (Mempool.mk l l0)).
Qed.

Lemma swap_value v : value (DPath ["SwapMessage"]) v ->
  exists m, v = SwapMessage.to_rval m /\ SwapMessage.ok m.
Proof.
  intros H'. open_struct 7%nat H'. apply string_value in Hw as (s & -> & Hs).
  hash_at "CryptoboxPublicKeyHash" Hw0. by exists (SwapMessage.mk s h).
Qed.

Lemma operation_value v : value (DPath ["Operation"]) v ->
  exists o, v = Operation.to_rval o /\ Operation.ok o.
Proof.
  intros H'. open_struct 18%nat H'. hash_at "BlockHash" Hw. apply u8s_value in Hw0 as (d & -> & Hd).
  by exists (Operation.mk h d).
Qed.

Lemma operations_for_block_value v : value (DPath ["OperationsForBlock"]) v ->
  exists o, v = OperationsForBlock.to_rval o /\ OperationsForBlock.ok o.
Proof.
  intros H'. open_struct 21%nat H'. hash_at "BlockHash" Hw. destruct Hw0 as (z & -> & Hz).
  by exists (OperationsForBlock.mk h z).
Qed.

Lemma path_value v : value (DPath ["Path"]) v -> exists q, v = path_rval q /\ path_ok q.
Proof.
  cbn [typed path_spec_of]. rewrite (base_entry "Path" (path_impl, mkSpec true true is_path)) by done.
  intros (q & -> & Hq & Hf). exists q. split; [done|]. split; [done|]. by apply Z.leb_le.
Qed.

Lemma operations_for_blocks_value v : value (DPath ["OperationsForBlocksMessage"]) v ->
  exists m, v = OperationsForBlocksMessage.to_rval m /\ OperationsForBlocksMessage.ok m.
Proof.
  intros H'. open_struct 22%nat H'. apply operations_for_block_value in Hw as (b & -> & Hb).
  apply path_value in Hw0 as (q & -> & Hq).
  apply (list_value _ _ _ _ operation_value) in Hw1 as (l & -> & Hl).
  by exists (OperationsForBlocksMessage.mk b q l).
Qed.

Lemma component_value v : value (DPath ["Component"]) v ->
  exists c, v = Component.to_rval c /\ Component.ok c.
Proof.
  intros H'. open_struct 24%nat H'. apply string_value in Hw as (n & -> & Hn).
  apply string_value in Hw1 as (m & -> & Hm).
  destruct Hw0 as [->|(w & -> & (i & -> & Hi)%string_value)].
  - by exists (Component.mk n None m).
  - by exists (Component.mk n (Some i) m).
Qed.

Lemma protocol_value v : value (DPath ["Protocol"]) v ->
  exists q, v = Protocol.to_rval q /\ Protocol.ok q.
Proof.
  intros H'. open_struct 25%nat H'. destruct Hw as (z & -> & Hz).
  apply (list_value _ _ _ _ component_value) in Hw0 as (l & -> & Hl). by exists (Protocol.mk z l).
Qed.

Lemma points_value s m v :
  is_list (value (DBounded s (DString m))) v -> exists l, v = strings_rval l /\ Forall string_ok l.
Proof. apply list_value, string_value. Qed.

Lemma peer_value v : value (DPath ["PeerMessage"]) v ->
  exists m, v = PeerMessage.to_rval m /\ PeerMessage.ok m.
Proof.
  intros H'. apply (named_value 28 _ _ _ eq_refl) in H'. cbn [typed variant_typed is_unit] in H'.
  repeat destruct H' as [H'|H']; try contradiction;
    try (destruct H' as (w & -> & H'); cbn [Z.add Pos.add Pos.succ Pos.add_carry] in * ).
  - subst v. by exists PeerMessage.Disconnect.
  - open_struct 6%nat H'. apply points_value in Hw as (l & -> & Hl).
    by exists (PeerMessage.Advertise (AdvertiseMessage.mk l)).
  - apply swap_value in H' as (m & -> & Hm). by exists (PeerMessage.SwapRequest m).
  - apply swap_value in H' as (m & -> & Hm). by exists (PeerMessage.SwapAck m).
  - subst v. by exists PeerMessage.Bootstrap.
  - open_struct 14%nat H'. hash_at "ChainId" Hw.
    by exists (PeerMessage.GetCurrentBranch (GetCurrentBranchMessage.mk h)).
  - apply branch_value in H' as (m & -> & Hm). by exists (PeerMessage.CurrentBranch m).
  - open_struct 8%nat H'. hash_at "ChainId" Hw.
    by exists (PeerMessage.Deactivate (DeactivateMessage.mk h)).
  - open_struct 17%nat H'. hash_at "ChainId" Hw.
    by exists (PeerMessage.GetCurrentHead (GetCurrentHeadMessage.mk h)).
  - apply head_value in H' as (m & -> & Hm). by exists (PeerMessage.CurrentHead m).
  - open_struct 11%nat H'. hashes_at "BlockHash" Hw.
    by exists (PeerMessage.GetBlockHeaders (GetBlockHeadersMessage.mk l)).
  - open_struct 10%nat H'. apply header_value in Hw as (h & -> & Hh).
    by exists (PeerMessage.BlockHeader (BlockHeaderMessage.from h)).
  - open_struct 20%nat H'. hashes_at "OperationHash" Hw.
    by exists (PeerMessage.GetOperations (GetOperationsMessage.mk l)).
  - open_struct 19%nat H'. apply operation_value in Hw as (o & -> & Ho).
    by exists (PeerMessage.Operation (OperationMessage.from o)).
  - open_struct 27%nat H'. hashes_at "ProtocolHash" Hw.
    by exists (PeerMessage.GetProtocols (GetProtocolsMessage.mk l)).
  - open_struct 26%nat H'. apply protocol_value in Hw as (q & -> & Hq).
    by exists (PeerMessage.Protocol (ProtocolMessage.mk q)).
  - open_struct 23%nat H'. apply (list_value _ _ _ _ operations_for_block_value) in Hw as (l & -> & Hl).
    by exists (PeerMessage.GetOperationsForBlocks (GetOperationsForBlocksMessage.mk l)).
  - apply operations_for_blocks_value in H' as (m & -> & Hm).
    by exists (PeerMessage.OperationsForBlocks m).
Qed.

(** Every response is the [rval] of a message, which [response_of] recovers. *)
Lemma response_value v : message_value "PeerMessageResponse" v ->
  exists m, v = PeerMessageResponse.to_rval (PeerMessageResponse.from m) /\ PeerMessage.ok m /\
    response_of v = Some m.
Proof.
  intros Hv. apply (message_value_tree 29 _ _ _ eq_refl) in Hv. cbn [typed] in Hv.
  destruct Hv as ([|[n w] [|[? ?] vals]] & -> & Hv); try contradiction; cbn [fields_typed] in Hv.
  { destruct Hv as (<- & Hw & _). apply peer_value in Hw as (m & -> & Hm). exists m.
    split; [done|]. split; [done|]. apply response_of_rval. }
  destruct Hv as (_ & _ & []).
Qed.
End Values.

Close Scope string_scope.
