(* ===== verification/Generator.v ===== *)
(** * The message generator ([generator/src/lib.rs])

    [RandomState] holds the random number generator and what the fuzzer has seen
    and made so far; a generator of a type is a computation over that state that
    gives a value or panics.  The source's [Generator<T>] and [Mutator<T>] traits
    are the classes [Generator] and [Mutator], with one definition and one
    instance per [impl].  The mutex is not modelled: a call runs alone.
    Arithmetic wraps, as in a release build.  The calls of [eprintln!] are left
    out.

    Loops without a bound in the source have a number of rounds here and end in
    [OutOfFuel] when it is used up; [GeneratorFacts] shows that it never is. *)

From Stdlib Require Import ZArith Lia List Bool String.
From stdpp Require Import base option list numbers strings gmap.
From S2P Require Import Prelude Extern BitUtils CryptoHash Nonce Types Serializer BinaryWriter WriterSpec NomCrate NomReader DeriveMake Derive RoundTrip DerivedCodec MerklePath Messages BinaryMessage ExternRef Zarith ChunkStream PublicKeys MessageFits MessageTypes.

Set Warnings "-register-all".

(** ** Third-party code *)

(** The distribution [Standard] of [rand], its literal probabilities, and the
    seeding of [SmallRng].  A probability between zero and one never panics. *)
Class RandValues `{RandCrate} : Type := {
  seed_from_u64 : Z -> rng;
  p_0_01 : f64;
  p_0_1 : f64;
  p_0_5 : f64;
  p_0_9 : f64;
  rng_u8 : rng -> Z * rng;
  rng_i8 : rng -> Z * rng;
  rng_u16 : rng -> Z * rng;
  rng_i16 : rng -> Z * rng;
  rng_i32 : rng -> Z * rng;
  rng_i64 : rng -> Z * rng;
  rng_char : rng -> Z * rng;
  rng_u8_range r : in_u 8 (rng_u8 r).1;
  rng_i8_range r : in_s 8 (rng_i8 r).1;
  rng_u16_range r : in_u 16 (rng_u16 r).1;
  rng_i16_range r : in_s 16 (rng_i16 r).1;
  rng_i32_range r : in_s 32 (rng_i32 r).1;
  rng_i64_range r : in_s 64 (rng_i64 r).1;
  (* a Unicode scalar value: no surrogate *)
  rng_char_range r : 0 <= (rng_char r).1 < 0xD800 \/ 0xE000 <= (rng_char r).1 < 0x110000;
  rng_bool_some p r : p ∈ [p_0_01; p_0_1; p_0_5; p_0_9] -> is_Some (rng_bool p r);
}.

(** [HashMap::keys] starts with a key of the map, whatever the order. *)
Class IterOrder : Type := {
  first_key : forall {A}, gmap bytes A -> option bytes;
  first_key_in {A} (m : gmap bytes A) k : first_key m = Some k -> is_Some (m !! k);
  first_key_some {A} (m : gmap bytes A) : m <> ∅ -> is_Some (first_key m);
}.

(** ** [_RandomState] *)
Section State.
Context `{RandValues}.

Record RandomState : Type := mkRandomState {
  rng_state : rng;
  blocks_limit : Z;
  max_chunk_size : Z;
  fitness_count : Z;
  blocks : gmap bytes BlockHeader.t;
  last_block : bytes;
  chain_id : bytes;
  current_branch : option CurrentBranchMessage.t;
  current_head : option CurrentHeadMessage.t;
  block_header : option BlockHeaderMessage.t;
  operation : option OperationMessage.t;
  protocol : option ProtocolMessage.t;
  operations_for_blocks : option OperationsForBlocksMessage.t;
}.

(** [RandomState::new]; an [unwrap] of a constant that does not decode panics. *)
Definition new `{Base58Crate, Sodium} (seed limit max_size : Z) : result stop RandomState :=
  genesis ← map_err (fun _ => StopPanicked)
    (b58check_to_hash BlockHash (lit "BLockGenesisGenesisGenesisGenesisGenesisf79b5d1CoW2"));
  chain ← map_err (fun _ => StopPanicked) (b58check_to_hash ChainId (lit "NetXdQprcVkpaWU"));
  Ok (mkRandomState (seed_from_u64 seed) limit max_size 0 ∅ genesis chain
        None None None None None None).

(** Assignments to single fields. *)
Definition with_rng (r : rng) (s : RandomState) : RandomState :=
  mkRandomState r (blocks_limit s) (max_chunk_size s) (fitness_count s) (blocks s) (last_block s)
    (chain_id s) (current_branch s) (current_head s) (block_header s) (operation s) (protocol s)
    (operations_for_blocks s).
Definition with_fitness_count (n : Z) (s : RandomState) : RandomState :=
  mkRandomState (rng_state s) (blocks_limit s) (max_chunk_size s) n (blocks s) (last_block s)
    (chain_id s) (current_branch s) (current_head s) (block_header s) (operation s) (protocol s)
    (operations_for_blocks s).
Definition with_blocks (m : gmap bytes BlockHeader.t) (s : RandomState) : RandomState :=
  mkRandomState (rng_state s) (blocks_limit s) (max_chunk_size s) (fitness_count s) m (last_block s)
    (chain_id s) (current_branch s) (current_head s) (block_header s) (operation s) (protocol s)
    (operations_for_blocks s).

(** ** Computations *)
Definition G (A : Type) : Type := RandomState -> result stop (A * RandomState).

#[global] Instance G_ret : MRet G := fun A a s => Ok (a, s).
#[global] Instance G_bind : MBind G := fun A B f m s =>
  match m s with Ok (a, s) => f a s | Err e => Err e end.

Definition get : G RandomState := fun s => Ok (s, s).
Definition modify (f : RandomState -> RandomState) : G unit := fun s => Ok (tt, f s).
Definition panic {A} : G A := fun s => Err StopPanicked.
Definition out_of_fuel {A} : G A := fun s => Err OutOfFuel.

(** [.unwrap()]. *)
Definition unwrap {E A} (r : result E A) : G A :=
  match r with Ok a => mret a | Err _ => panic end.

Definition draw {A} (f : rng -> option (A * rng)) : G A := fun s =>
  match f (rng_state s) with Some (a, r) => Ok (a, with_rng r s) | None => Err StopPanicked end.

(** [(0..n).map(|_| self.gen()).collect()]. *)
Fixpoint repeat_gen {A} (n : nat) (g : G A) : G (list A) :=
  match n with
  | O => mret []
  | S n => a ← g; l ← repeat_gen n g; mret (a :: l)
  end.
Definition gen_many {A} (count : Z) (g : G A) : G (list A) := repeat_gen (Z.to_nat count) g.
End State.

(** The traits. *)
Class Generator `{RandValues} (T : Type) : Type := gen : G T.
Class Mutator `{RandValues} (T : Type) : Type := mutate : T -> G T.

(** ** [impl RandomState] *)
Section Methods.
Context `{RandValues}.

Definition gen_range (lo hi : Z) : G Z := draw (rng_range lo hi).
Definition gen_bool (p : f64) : G bool := draw (rng_bool p).

(** [gen_t], at the types it is used with. *)
Definition gen_u8 : G Z := draw (fun r => Some (rng_u8 r)).
Definition gen_i8 : G Z := draw (fun r => Some (rng_i8 r)).
Definition gen_u16 : G Z := draw (fun r => Some (rng_u16 r)).
Definition gen_i16 : G Z := draw (fun r => Some (rng_i16 r)).
Definition gen_i32 : G Z := draw (fun r => Some (rng_i32 r)).
Definition gen_i64 : G Z := draw (fun r => Some (rng_i64 r)).
Definition gen_char : G Z := draw (fun r => Some (rng_char r)).
Definition gen_flag : G bool := draw (fun r => Some (rng_flag r)).

(** [gen_vec::<u8>]; a vector longer than [isize::MAX] bytes panics. *)
Definition gen_vec (size : Z) : G bytes :=
  if 2 ^ 63 - 1 <? size then panic else gen_many size gen_u8.

(** [fitness_count += 1] wraps. *)
Definition gen_fitness : G Z :=
  _ ← modify (fun s => with_fitness_count (uwrap 64 (fitness_count s + 1)) s);
  s ← get; mret (fitness_count s).

(** The UTF-8 bytes of a [char]. *)
Definition utf8_char (c : Z) : bytes :=
  if c <? 0x80 then [c]
  else if c <? 0x800 then [0xC0 + c / 64; 0x80 + c mod 64]
  else if c <? 0x10000 then [0xE0 + c / 4096; 0x80 + c / 64 mod 64; 0x80 + c mod 64]
  else [0xF0 + c / 262144; 0x80 + c / 4096 mod 64; 0x80 + c / 64 mod 64; 0x80 + c mod 64].

(** [str::is_char_boundary]. *)
Definition is_char_boundary (i : nat) (s : bytes) : bool :=
  match i with
  | O => true
  | _ => match s !! i with Some b => negb (cont b) | None => (i =? length s)%nat end
  end.

(** [for i in (0..max).rev() { if s.is_char_boundary(i) { s.truncate(i); break } }]. *)
Fixpoint truncate_below (max : nat) (s : bytes) : bytes :=
  match max with
  | O => s
  | S i => if is_char_boundary i s then take i s else truncate_below i s
  end.

Definition gen_string (max_size_bytes : Z) : G bytes :=
  chars ← gen_many max_size_bytes gen_char;
  mret (truncate_below (Z.to_nat max_size_bytes) (concat (map utf8_char chars))).

Definition get_chain_id : G bytes := s ← get; mret (chain_id s).
Definition set_chain_id (c : bytes) : G unit := modify (fun s =>
  mkRandomState (rng_state s) (blocks_limit s) (max_chunk_size s) (fitness_count s) (blocks s)
    (last_block s) c (current_branch s) (current_head s) (block_header s) (operation s) (protocol s)
    (operations_for_blocks s)).

(** [u64::from_be_bytes(element.try_into().unwrap())]. *)
Definition fitness_u64 (element : bytes) : G Z :=
  if zlen element =? 8 then mret (be_val element) else panic.

Definition get_current_branch : G (option CurrentBranchMessage.t) := s ← get; mret (current_branch s).
Definition set_current_branch (m : CurrentBranchMessage.t) : G unit :=
  match BlockHeader.fitness (CurrentBranch.current_head (CurrentBranchMessage.current_branch m)) with
  | _ :: f :: _ =>
      n ← fitness_u64 f;
      _ ← modify (with_fitness_count n);
      modify (fun s =>
        mkRandomState (rng_state s) (blocks_limit s) (max_chunk_size s) (fitness_count s) (blocks s)
          (last_block s) (chain_id s) (Some m) (current_head s) (block_header s) (operation s)
          (protocol s) (operations_for_blocks s))
  | _ => mret tt
  end.

Definition get_current_head : G (option CurrentHeadMessage.t) := s ← get; mret (current_head s).
Definition set_current_head (m : CurrentHeadMessage.t) : G unit :=
  match BlockHeader.fitness (CurrentHeadMessage.current_block_header m) with
  | _ :: f :: _ =>
      n ← fitness_u64 f;
      _ ← modify (with_fitness_count n);
      modify (fun s =>
        mkRandomState (rng_state s) (blocks_limit s) (max_chunk_size s) (fitness_count s) (blocks s)
          (last_block s) (chain_id s) (current_branch s) (Some m) (block_header s) (operation s)
          (protocol s) (operations_for_blocks s))
  | _ => mret tt
  end.

Definition get_block_header : G (option BlockHeaderMessage.t) := s ← get; mret (block_header s).
Definition set_block_header (m : BlockHeaderMessage.t) : G unit := modify (fun s =>
  mkRandomState (rng_state s) (blocks_limit s) (max_chunk_size s) (fitness_count s) (blocks s)
    (last_block s) (chain_id s) (current_branch s) (current_head s) (Some m) (operation s) (protocol s)
    (operations_for_blocks s)).

Definition get_operation : G (option OperationMessage.t) := s ← get; mret (operation s).
Definition set_operation (m : OperationMessage.t) : G unit := modify (fun s =>
  mkRandomState (rng_state s) (blocks_limit s) (max_chunk_size s) (fitness_count s) (blocks s)
    (last_block s) (chain_id s) (current_branch s) (current_head s) (block_header s) (Some m) (protocol s)
    (operations_for_blocks s)).

Definition get_protocol : G (option ProtocolMessage.t) := s ← get; mret (protocol s).
Definition set_protocol (m : ProtocolMessage.t) : G unit := modify (fun s =>
  mkRandomState (rng_state s) (blocks_limit s) (max_chunk_size s) (fitness_count s) (blocks s)
    (last_block s) (chain_id s) (current_branch s) (current_head s) (block_header s) (operation s)
    (Some m) (operations_for_blocks s)).

Definition get_operations_for_blocks : G (option OperationsForBlocksMessage.t) :=
  s ← get; mret (operations_for_blocks s).
Definition set_operations_for_blocks (m : OperationsForBlocksMessage.t) : G unit := modify (fun s =>
  mkRandomState (rng_state s) (blocks_limit s) (max_chunk_size s) (fitness_count s) (blocks s)
    (last_block s) (chain_id s) (current_branch s) (current_head s) (block_header s) (operation s)
    (protocol s) (Some m)).

Definition get_block (h : bytes) : G (option BlockHeaderMessage.t) :=
  s ← get;
  mret (match blocks s !! h with Some bh => Some (BlockHeaderMessage.from bh) | None => None end).

Definition set_last_block_hash (h : bytes) : G unit := modify (fun s =>
  mkRandomState (rng_state s) (blocks_limit s) (max_chunk_size s) (fitness_count s) (blocks s) h
    (chain_id s) (current_branch s) (current_head s) (block_header s) (operation s) (protocol s)
    (operations_for_blocks s)).
End Methods.

(** ** Addresses *)

(** [net::IpAddr::V4] and [net::SocketAddr]. *)
Record IpAddr : Type := V4 { ip_a : Z; ip_b : Z; ip_c : Z; ip_d : Z }.
Record SocketAddr : Type := mkSocketAddr { ip : IpAddr; port : Z }.

(** The decimal digits of a number below [10 ^ digits]. *)
Fixpoint decimal (digits : nat) (n : Z) : bytes :=
  match digits with
  | O => []
  | S digits => if n <? 10 then [48 + n] else decimal digits (n / 10) ++ [48 + n mod 10]
  end.

(** [format!("{}", address)]. *)
Definition format_address (a : SocketAddr) : bytes :=
  decimal 3 (ip_a (ip a)) ++ [46] ++ decimal 3 (ip_b (ip a)) ++ [46] ++
  decimal 3 (ip_c (ip a)) ++ [46] ++ decimal 3 (ip_d (ip a)) ++ [58] ++ decimal 5 (port a).

(** [AdvertiseMessage::new]. *)
Definition advertise_new (addresses : list SocketAddr) : AdvertiseMessage.t :=
  AdvertiseMessage.mk (map format_address addresses).

(** [ProofOfWork::from_hex]. *)
Definition pow_from_hex `{HexCrate} (hex : bytes) : option bytes :=
  match hex_decode hex with
  | Ok bs => if zlen bs =? Pow.POW_SIZE then Some bs else None
  | Err _ => None
  end.

Section Impls.
Context `{RandValues, IterOrder, Sodium, BytesCrate, BitVecCrate, HexCrate, UnicodeTables, BigIntCrate, NomCrate, SynCrate}.

(** [RandomState::block_hash]. *)
Definition block_hash (h : BlockHeader.t) : G bytes :=
  hash ← unwrap (message_hash (impl_of "BlockHeader") (BlockHeader.to_rval h));
  unwrap (hash_from_bytes BlockHash hash).

Definition gen_ip_addr : G IpAddr :=
  a ← gen_u8; b ← gen_u8; c ← gen_u8; d ← gen_u8; mret (V4 a b c d).

Definition gen_socket_addr : G SocketAddr := i ← gen_ip_addr; p ← gen_u16; mret (mkSocketAddr i p).

(** [gen] of a [HashKind]: a hash of the type [t]. *)
Definition gen_hash (t : HashType) : G bytes :=
  bs ← gen_vec (hash_size t); unwrap (hash_from_bytes t bs).

(** [mutate] of a [HashKind]. *)
Definition mutate_hash (t : HashType) (h : bytes) : G bytes := mret h.

Definition gen_hashes (t : HashType) (count : Z) : G (list bytes) := gen_many count (gen_hash t).

Definition gen_advertise : G AdvertiseMessage.t :=
  size ← gen_range 0 ADVERTISE_ID_LIST_MAX_LENGTH;
  addresses ← gen_many size gen_socket_addr;
  mret (advertise_new addresses).

Definition gen_swap : G SwapMessage.t :=
  size_bytes ← gen_range 0 P2P_POINT_MAX_LENGTH;
  peer_id ← gen_hash CryptoboxPublicKeyHash;
  point ← gen_string size_bytes;
  mret (SwapMessage.mk point peer_id).

(** A random chain, or the one of the state. *)
Definition gen_chain_id : G bytes :=
  random ← gen_bool p_0_5; if (random : bool) then gen_hash ChainId else get_chain_id.

Definition gen_get_current_branch : G GetCurrentBranchMessage.t :=
  c ← gen_chain_id; mret (GetCurrentBranchMessage.mk c).

(** The fitness loop; [remaining] is what is left for the protocol data. *)
Fixpoint fitness_loop (rounds : nat) (fitness : list bytes) (remaining_fitness_size remaining : Z)
  : G (list bytes * Z) :=
  match rounds with
  | O => out_of_fuel
  | S rounds =>
      element_size ← gen_range 1 28;
      element ← gen_vec element_size;
      if remaining_fitness_size <? element_size + 4 then mret (fitness, remaining)
      else fitness_loop rounds (fitness ++ [element]) (remaining_fitness_size - (element_size + 4))
             (remaining - (element_size + 4))
  end.

Definition FITNESS_ROUNDS : nat := 6.

(** [match remaining > 1 { true => self.gen_range(1..remaining), false => remaining }]. *)
Definition gen_below (remaining : Z) : G Z :=
  if 1 <? remaining then gen_range 1 remaining else mret remaining.

(** [BlockHeaderBuilder]: every field is set, so [build().unwrap()] gives it back. *)
Definition gen_header_builder : G BlockHeader.t :=
  fr ← fitness_loop FITNESS_ROUNDS [] 28 (BLOCK_HEADER_MAX_SIZE - 0x1000);
  data_len ← gen_below fr.2;
  predecessor ← gen_hash BlockHash;
  operations_hash ← gen_hash OperationListListHash;
  context ← gen_hash ContextHash;
  level ← gen_i32;
  proto ← gen_u8;
  timestamp ← gen_i64;
  validation_pass ← gen_u8;
  protocol_data ← gen_vec data_len;
  mret (BlockHeader.mk level proto predecessor timestamp validation_pass operations_hash fr.1 context
          protocol_data).

Definition gen_header : G BlockHeader.t := gen_header_builder.

(** [blockb.predecessor(predecessor).build().unwrap()]. *)
Definition set_predecessor (p : bytes) (h : BlockHeader.t) : BlockHeader.t :=
  BlockHeader.mk (BlockHeader.level h) (BlockHeader.proto h) p (BlockHeader.timestamp h)
    (BlockHeader.validation_pass h) (BlockHeader.operations_hash h) (BlockHeader.fitness h)
    (BlockHeader.context h) (BlockHeader.protocol_data h).

(** A new block after the last one. *)
Definition gen_next_block : G BlockHeader.t :=
  blockb ← gen_header_builder;
  s ← get;
  mret (set_predecessor (last_block s) blockb).

(** Inverts one bit of at most [flips] of the bytes. *)
Fixpoint flip_bits_of (bs : bytes) (flips : Z) : G bytes :=
  match bs with
  | [] => mret []
  | b :: bs =>
      doit ← (if 0 <? flips then gen_bool p_0_1 else mret false);
      if (doit : bool) then
        i ← gen_range 0 8;
        rest ← flip_bits_of bs (flips - 1);
        mret (Z.lxor b (Z.shiftl 1 i) :: rest)
      else
        rest ← flip_bits_of bs flips; mret (b :: rest)
  end.

Definition mutate_header (data : BlockHeader.t) : G BlockHeader.t :=
  let remaining := BLOCK_HEADER_MAX_SIZE - 0x1000 in
  keep ← gen_bool p_0_9;
  level ← (if (keep : bool) then mret (swrap 32 (BlockHeader.level data + 1)) else gen_i32);
  keep ← gen_bool p_0_9;
  proto ← (if (keep : bool) then mret (BlockHeader.proto data) else gen_u8);
  head ← get_current_head;
  predecessor ←
    match head with
    | Some head => block_hash (CurrentHeadMessage.current_block_header head)
    | None => new_block ← gen_next_block; block_hash new_block
    end;
  keep ← gen_bool p_0_9;
  timestamp ←
    (if (keep : bool) then
       d ← gen_range 0 (60 * 60); mret (swrap 64 (BlockHeader.timestamp data + d))
     else gen_i64);
  keep ← gen_bool p_0_9;
  validation_pass ←
    (if (keep : bool) then mret (uwrap 8 (BlockHeader.validation_pass data + 1)) else gen_u8);
  operations_hash ← gen_hash OperationListListHash;
  keep ← gen_bool p_0_9;
  fr ←
    (if (keep : bool) then
       match BlockHeader.fitness data with
       | [] => panic
       | f :: _ =>
           let remaining := uwrap 64 (remaining - zlen f) in
           n ← gen_fitness;
           mret ([f; be_bytes 8 n], uwrap 64 (remaining - 8))
       end
     else fitness_loop FITNESS_ROUNDS [] 28 remaining);
  context ← gen_hash ContextHash;
  let bs := BlockHeader.protocol_data data in
  keep ← gen_bool p_0_9;
  protocol_data ←
    (if (keep : bool) && (0 <? zlen bs) then
       n ← gen_range 0 (zlen bs); flip_bits_of bs (Z.shiftr n 3)
     else data_len ← gen_below fr.2; gen_vec data_len);
  mret (BlockHeader.mk level proto predecessor timestamp validation_pass operations_hash fr.1 context
          protocol_data).

(** Makes room in a full map, then inserts. *)
Definition remember_block (hash : bytes) (new_block : BlockHeader.t) : G unit :=
  state ← get;
  if blocks_limit state =? 0 then mret tt
  else
    _ ← (if Z.of_nat (base.size (blocks state)) =? blocks_limit state then
           match first_key (blocks state) with
           | Some k => modify (fun s => with_blocks (delete k (blocks s)) s)
           | None => panic
           end
         else mret tt);
    modify (fun s => with_blocks (<[hash := new_block]> (blocks s)) s).

Definition gen_current_branch : G CurrentBranch.t :=
  history_len ← gen_range 0 CURRENT_BRANCH_HISTORY_MAX_LENGTH;
  history ← gen_hashes BlockHash (history_len - 1);
  new_block ← gen_next_block;
  hash ← block_hash new_block;
  _ ← remember_block hash new_block;
  _ ← set_last_block_hash hash;
  mret (CurrentBranch.mk new_block history).

Definition mutate_current_branch (data : CurrentBranch.t) : G CurrentBranch.t :=
  current_head ← mutate_header (CurrentBranch.current_head data);
  keep ← gen_bool p_0_5;
  history ←
    (if (keep : bool) then mret (CurrentBranch.history data)
     else history_len ← gen_range 1 CURRENT_BRANCH_HISTORY_MAX_LENGTH; gen_hashes BlockHash history_len);
  hash ← block_hash current_head;
  _ ← set_last_block_hash hash;
  mret (CurrentBranch.mk current_head history).

Definition mutate_current_branch_message (data : CurrentBranchMessage.t) : G CurrentBranchMessage.t :=
  c ← mutate_hash ChainId (CurrentBranchMessage.chain_id data);
  b ← mutate_current_branch (CurrentBranchMessage.current_branch data);
  mret (CurrentBranchMessage.mk c b).

Definition gen_current_branch_message : G CurrentBranchMessage.t :=
  m ← get_current_branch;
  match m with
  | Some m => mutate_current_branch_message m
  | None => c ← gen_chain_id; b ← gen_current_branch; mret (CurrentBranchMessage.mk c b)
  end.

Definition gen_deactivate : G DeactivateMessage.t := c ← gen_chain_id; mret (DeactivateMessage.mk c).

Definition gen_get_current_head : G GetCurrentHeadMessage.t :=
  c ← gen_chain_id; mret (GetCurrentHeadMessage.mk c).

Definition mutate_mempool (data : Mempool.t) : G Mempool.t :=
  let max_count := MEMPOOL_MAX_OPERATIONS in
  keep ← gen_bool p_0_5;
  known_valid ←
    (if (keep : bool) then
       same ← gen_bool p_0_5;
       mret (if (same : bool) then Mempool.known_valid data else Mempool.pending data)
     else n ← gen_range 1 max_count; gen_hashes OperationHash n);
  let remaining := uwrap 64 (max_count - zlen known_valid) in
  keep ← gen_bool p_0_5;
  pending ←
    (if (keep : bool) then
       same ← gen_bool p_0_5;
       let l := if (same : bool) then Mempool.pending data else Mempool.known_valid data in
       mret (take (Z.to_nat (Z.min (zlen l) remaining)) l)
     else n ← gen_below remaining; gen_hashes OperationHash n);
  mret (Mempool.mk known_valid pending).

Definition gen_mempool : G Mempool.t :=
  head ← get_current_head;
  match head with
  | Some head => mutate_mempool (CurrentHeadMessage.current_mempool head)
  | None =>
      let max_count := MEMPOOL_MAX_OPERATIONS in
      pending_num ← gen_range 1 (max_count - 2);
      known_valid_num ← gen_range 1 (max_count - pending_num);
      pending ← gen_hashes OperationHash pending_num;
      known_valid ← gen_hashes OperationHash known_valid_num;
      mret (Mempool.mk known_valid pending)
  end.

Definition mutate_current_head (data : CurrentHeadMessage.t) : G CurrentHeadMessage.t :=
  c ← mutate_hash ChainId (CurrentHeadMessage.chain_id data);
  h ← mutate_header (CurrentHeadMessage.current_block_header data);
  m ← mutate_mempool (CurrentHeadMessage.current_mempool data);
  mret (CurrentHeadMessage.mk c h m).

Definition gen_current_head : G CurrentHeadMessage.t :=
  head ← get_current_head;
  match head with
  | Some head => mutate_current_head head
  | None =>
      c ← gen_chain_id;
      h ← gen_header;
      m ← gen_mempool;
      mret (CurrentHeadMessage.mk c h m)
  end.

Definition gen_get_block_headers : G GetBlockHeadersMessage.t :=
  count ← gen_range 0 GET_BLOCK_HEADERS_MAX_LENGTH;
  l ← gen_hashes BlockHash count;
  mret (GetBlockHeadersMessage.mk l).

Definition mutate_header_message (data : BlockHeaderMessage.t) : G BlockHeaderMessage.t :=
  h ← mutate_header (BlockHeaderMessage.block_header data); mret (BlockHeaderMessage.from h).

Definition gen_header_message : G BlockHeaderMessage.t :=
  m ← get_block_header;
  match m with
  | Some m => mutate_header_message m
  | None => h ← gen_header; mret (BlockHeaderMessage.from h)
  end.

Definition gen_get_operations : G GetOperationsMessage.t :=
  count ← gen_range 0 GET_OPERATIONS_MAX_LENGTH;
  l ← gen_hashes OperationHash count;
  mret (GetOperationsMessage.mk l).

(** The block an operation is on: the peer's head, the last one made, or any. *)
Definition gen_last_block : G bytes :=
  head ← get_current_head;
  match head with
  | Some head => block_hash (CurrentHeadMessage.current_block_header head)
  | None =>
      last ← gen_bool p_0_5;
      if (last : bool) then s ← get; mret (last_block s) else gen_hash BlockHash
  end.

Definition gen_operation : G Operation.t :=
  let max_size := OPERATION_MAX_SIZE - hash_size BlockHash - 0x20 in
  branch ← gen_last_block;
  data ← gen_vec max_size;
  mret (Operation.mk branch data).

Definition mutate_operation (data : Operation.t) : G Operation.t :=
  keep ← gen_bool p_0_5;
  branch ← (if (keep : bool) then mret (Operation.branch data) else gen_last_block);
  keep ← gen_bool p_0_9;
  let bs := Operation.data data in
  bs ←
    (if (keep : bool) then
       flips ← (if 0 <? zlen bs then n ← gen_range 0 (zlen bs); mret (Z.shiftr n 3)
                else mret (zlen bs));
       flip_bits_of bs flips
     else data_len ← gen_below (zlen bs); gen_vec data_len);
  mret (Operation.mk branch bs).

Definition gen_operation_message : G OperationMessage.t :=
  m ← get_operation;
  match m with
  | Some m => o ← mutate_operation (OperationMessage.operation m); mret (OperationMessage.from o)
  | None => o ← gen_operation; mret (OperationMessage.from o)
  end.

Definition gen_get_protocols : G GetProtocolsMessage.t :=
  count ← gen_range 0 GET_PROTOCOLS_MAX_LENGTH;
  l ← gen_hashes ProtocolHash count;
  mret (GetProtocolsMessage.mk l).

(** [let size = self.gen_range(0..max); self.gen_string(size)]. *)
Definition gen_string_below (max : Z) : G bytes := size ← gen_range 0 max; gen_string size.

Definition gen_component : G Component.t :=
  name ← gen_string_below 1025;
  with_interface ← gen_bool p_0_5;
  interface ← (if (with_interface : bool) then s ← gen_string_below 102401; mret (Some s) else mret None);
  implementation ← gen_string_below 102401;
  mret (Component.mk name interface implementation).

Definition mutate_component (data : Component.t) : G Component.t :=
  fresh ← gen_bool p_0_5;
  name ← (if (fresh : bool) then gen_string_below 1025 else mret (Component.name data));
  choice ← gen_range 0 3;
  interface ←
    (if choice =? 0 then s ← gen_string_below 102401; mret (Some s)
     else if choice =? 1 then mret None
     else mret (Component.interface data));
  fresh ← gen_bool p_0_5;
  implementation ←
    (if (fresh : bool) then gen_string_below 102401 else mret (Component.implementation data));
  mret (Component.mk name interface implementation).

(** [component.as_bytes().unwrap().len()]. *)
Definition component_len (c : Component.t) : G Z :=
  bs ← unwrap (as_bytes (impl_of "Component") (Component.to_rval c)); mret (zlen bs).

Fixpoint components_loop (rounds : nat) (components : list Component.t) (remaining : Z)
  : G (list Component.t) :=
  match rounds with
  | O => out_of_fuel
  | S rounds =>
      component ← gen_component;
      size ← component_len component;
      if remaining <? size then mret components
      else components_loop rounds (components ++ [component]) (remaining - size)
  end.

(** A component takes at least nine bytes. *)
Definition COMPONENT_ROUNDS : nat := Z.to_nat (PROTOCOL_COMPONENT_MAX_SIZE / 9 + 1).

Definition gen_components : G (list Component.t) :=
  components_loop COMPONENT_ROUNDS [] PROTOCOL_COMPONENT_MAX_SIZE.

Fixpoint mutate_components (data : list Component.t) : G (list Component.t) :=
  match data with
  | [] => mret []
  | c :: data => c ← mutate_component c; l ← mutate_components data; mret (c :: l)
  end.

Definition gen_protocol : G Protocol.t :=
  v ← gen_i16; l ← gen_components; mret (Protocol.mk v l).

Definition mutate_protocol (data : Protocol.t) : G Protocol.t :=
  keep ← gen_bool p_0_5;
  v ← (if (keep : bool) then mret (Protocol.expected_env_version data) else gen_i16);
  l ← mutate_components (Protocol.components data);
  mret (Protocol.mk v l).

Definition mutate_protocol_message (data : ProtocolMessage.t) : G ProtocolMessage.t :=
  p ← mutate_protocol (ProtocolMessage.protocol data); mret (ProtocolMessage.mk p).

Definition gen_protocol_message : G ProtocolMessage.t :=
  m ← get_protocol;
  match m with
  | Some m => mutate_protocol_message m
  | None => p ← gen_protocol; mret (ProtocolMessage.mk p)
  end.

Definition gen_operations_for_block : G OperationsForBlock.t :=
  cb ← get_current_branch;
  hash ←
    match cb with
    | Some cb =>
        let history := CurrentBranch.history (CurrentBranchMessage.current_branch cb) in
        if 0 <? zlen history then
          i ← gen_range 0 (zlen history);
          match history !! Z.to_nat i with Some h => mret h | None => panic end
        else gen_hash BlockHash
    | None =>
        bh ← get_block_header;
        match bh with
        | Some bh => block_hash (BlockHeaderMessage.block_header bh)
        | None =>
            ch ← get_current_head;
            match ch with
            | Some ch => block_hash (CurrentHeadMessage.current_block_header ch)
            | None => gen_hash BlockHash
            end
        end
    end;
  v ← gen_i8;
  mret (OperationsForBlock.mk hash v).

Definition gen_get_operations_for_blocks : G GetOperationsForBlocksMessage.t :=
  count ← gen_range 0 GET_OPERATIONS_FOR_BLOCKS_MAX_LENGTH;
  l ← gen_many count gen_operations_for_block;
  mret (GetOperationsForBlocksMessage.mk l).

Definition gen_path_item : G PathItem :=
  hash ← gen_vec 32;
  right ← gen_bool p_0_5;
  mret (if (right : bool) then PathItemRight hash else PathItemLeft hash).

Definition gen_path : G Path :=
  count ← gen_range 0 (default 0 MAX_PASS_MERKLE_DEPTH); gen_many count gen_path_item.

Definition operation_len (o : Operation.t) : G Z :=
  bs ← unwrap (as_bytes (impl_of "Operation") (Operation.to_rval o)); mret (zlen bs).

Fixpoint operations_loop (rounds : nat) (operations : list Operation.t) (remaining : Z)
  : G (list Operation.t) :=
  match rounds with
  | O => out_of_fuel
  | S rounds =>
      operation ← gen_operation;
      operation_size ← operation_len operation;
      if remaining <? operation_size then mret operations
      else operations_loop rounds (operations ++ [operation]) (remaining - operation_size)
  end.

(** An operation takes nearly an eighth of the list. *)
Definition OPERATION_ROUNDS : nat := 9.

Definition gen_operations : G (list Operation.t) := operations_loop OPERATION_ROUNDS [] OPERATION_LIST_MAX_SIZE.

Definition gen_operations_for_blocks_message : G OperationsForBlocksMessage.t :=
  m ← get_operations_for_blocks;
  match m with
  | Some m =>
      keep ← gen_bool p_0_5;
      b ← (if (keep : bool) then mret (OperationsForBlocksMessage.operations_for_block m)
           else gen_operations_for_block);
      keep ← gen_bool p_0_5;
      p ← (if (keep : bool) then mret (OperationsForBlocksMessage.operation_hashes_path m) else gen_path);
      keep ← gen_bool p_0_5;
      l ← (if (keep : bool) then mret (OperationsForBlocksMessage.operations m) else gen_operations);
      mret (OperationsForBlocksMessage.mk b p l)
  | None =>
      b ← gen_operations_for_block; p ← gen_path; l ← gen_operations;
      mret (OperationsForBlocksMessage.mk b p l)
  end.

Definition gen_network_version : G NetworkVersion.t :=
  size ← gen_range 0 CHAIN_NAME_MAX_LENGTH;
  chain_name ← gen_string size;
  d ← gen_u16;
  p ← gen_u16;
  mret (NetworkVersion.mk chain_name d p).

Definition gen_public_key : G bytes :=
  public_key ← gen_vec CRYPTO_KEY_SIZE; unwrap (ensure_crypto_key_bytes public_key).

Definition gen_proof_of_work `{!HexEncode} : G bytes :=
  pow ← gen_vec Pow.POW_SIZE;
  unwrap (ok_or (pow_from_hex (hex_encode pow)) StopPanicked).

Definition gen_nonce `{BigUintCrate} : G Nonce.t := nonce ← gen_vec NONCE_SIZE; mret (Nonce.new nonce).

(** [ConnectionMessage::try_new]. *)
Definition connection_try_new `{BigUintCrate} (port : Z) (public_key pow : bytes) (nonce : Nonce.t)
  (version : NetworkVersion.t) : result CryptoError ConnectionMessage.t :=
  nonce ← Nonce.get_bytes nonce;
  Ok (ConnectionMessage.mk port public_key pow nonce version).

Definition gen_connection `{BigUintCrate, !HexEncode} : G ConnectionMessage.t :=
  port ← gen_u16;
  public_key ← gen_public_key;
  pow ← gen_proof_of_work;
  nonce ← gen_nonce;
  version ← gen_network_version;
  unwrap (connection_try_new port public_key pow nonce version).

Definition gen_metadata : G MetadataMessage.t :=
  a ← gen_flag; b ← gen_flag; mret (MetadataMessage.mk a b).

Definition gen_motive : G NackMotive :=
  n ← gen_range 0 6;
  mret (if n =? 0 then NoMotive else if n =? 1 then TooManyConnections
        else if n =? 2 then UnknownChainName else if n =? 3 then DeprecatedP2pVersion
        else if n =? 4 then DeprecatedDistributedDbVersion else AlreadyConnected).

Definition gen_nack : G NackInfo.t :=
  motive ← gen_motive;
  remaining ← gen_range 0 NACK_PEERS_MAX_LENGTH;
  peers ← gen_many remaining (gen_string_below P2P_POINT_MAX_LENGTH);
  mret (NackInfo.mk motive peers).

Definition gen_ack : G AckMessage :=
  n ← gen_range 0 3;
  if n =? 0 then mret Ack else if n =? 1 then mret NackV0 else i ← gen_nack; mret (Nack i).
End Impls.

(** ** The traits *)
Section Instances.
Context `{RandValues, IterOrder, Sodium, BytesCrate, BitVecCrate, HexCrate, UnicodeTables, BigIntCrate, NomCrate, SynCrate}.
Context `{BigUintCrate, !HexEncode}.

#[global] Instance gen_IpAddr : Generator IpAddr := gen_ip_addr.
#[global] Instance gen_SocketAddr : Generator SocketAddr := gen_socket_addr.
#[global] Instance gen_AdvertiseMessage : Generator AdvertiseMessage.t := gen_advertise.
#[global] Instance gen_SwapMessage : Generator SwapMessage.t := gen_swap.
#[global] Instance gen_GetCurrentBranchMessage : Generator GetCurrentBranchMessage.t :=
  gen_get_current_branch.
#[global] Instance gen_BlockHeader : Generator BlockHeader.t := gen_header.
#[global] Instance mutate_BlockHeader : Mutator BlockHeader.t := mutate_header.
#[global] Instance gen_CurrentBranch : Generator CurrentBranch.t := gen_current_branch.
#[global] Instance mutate_CurrentBranch : Mutator CurrentBranch.t := mutate_current_branch.
#[global] Instance gen_CurrentBranchMessage : Generator CurrentBranchMessage.t :=
  gen_current_branch_message.
#[global] Instance mutate_CurrentBranchMessage : Mutator CurrentBranchMessage.t :=
  mutate_current_branch_message.
#[global] Instance gen_DeactivateMessage : Generator DeactivateMessage.t := gen_deactivate.
#[global] Instance gen_GetCurrentHeadMessage : Generator GetCurrentHeadMessage.t := gen_get_current_head.
#[global] Instance gen_Mempool : Generator Mempool.t := gen_mempool.
#[global] Instance mutate_Mempool : Mutator Mempool.t := mutate_mempool.
#[global] Instance gen_CurrentHeadMessage : Generator CurrentHeadMessage.t := gen_current_head.
#[global] Instance mutate_CurrentHeadMessage : Mutator CurrentHeadMessage.t := mutate_current_head.
#[global] Instance gen_GetBlockHeadersMessage : Generator GetBlockHeadersMessage.t :=
  gen_get_block_headers.
#[global] Instance gen_BlockHeaderMessage : Generator BlockHeaderMessage.t := gen_header_message.
#[global] Instance mutate_BlockHeaderMessage : Mutator BlockHeaderMessage.t := mutate_header_message.
#[global] Instance gen_GetOperationsMessage : Generator GetOperationsMessage.t := gen_get_operations.
#[global] Instance gen_Operation : Generator Operation.t := gen_operation.
#[global] Instance mutate_Operation : Mutator Operation.t := mutate_operation.
#[global] Instance gen_OperationMessage : Generator OperationMessage.t := gen_operation_message.
#[global] Instance gen_GetProtocolsMessage : Generator GetProtocolsMessage.t := gen_get_protocols.
#[global] Instance gen_Component : Generator Component.t := gen_component.
#[global] Instance mutate_Component : Mutator Component.t := mutate_component.
#[global] Instance gen_Protocol : Generator Protocol.t := gen_protocol.
#[global] Instance mutate_Protocol : Mutator Protocol.t := mutate_protocol.
#[global] Instance gen_ProtocolMessage : Generator ProtocolMessage.t := gen_protocol_message.
#[global] Instance mutate_ProtocolMessage : Mutator ProtocolMessage.t := mutate_protocol_message.
#[global] Instance gen_OperationsForBlock : Generator OperationsForBlock.t := gen_operations_for_block.
#[global] Instance gen_GetOperationsForBlocksMessage : Generator GetOperationsForBlocksMessage.t :=
  gen_get_operations_for_blocks.
#[global] Instance gen_PathItem : Generator PathItem := gen_path_item.
#[global] Instance gen_Path : Generator Path := gen_path.
#[global] Instance gen_OperationsForBlocksMessage : Generator OperationsForBlocksMessage.t :=
  gen_operations_for_blocks_message.
#[global] Instance gen_Operations : Generator (list Operation.t) := gen_operations.
#[global] Instance gen_NetworkVersion : Generator NetworkVersion.t := gen_network_version.
#[global] Instance gen_Nonce : Generator Nonce.t := gen_nonce.
#[global] Instance gen_ConnectionMessage : Generator ConnectionMessage.t := gen_connection.
#[global] Instance gen_MetadataMessage : Generator MetadataMessage.t := gen_metadata.
#[global] Instance gen_NackInfo : Generator NackInfo.t := gen_nack.
#[global] Instance gen_AckMessage : Generator AckMessage := gen_ack.
End Instances.
