(* ===== verification/GeneratorFacts.v ===== *)
(** * What the generator makes ([generator/src/lib.rs])

    [gens p m P]: from every sound state in which the peer's messages are [p], the
    computation [m] returns - it does not panic and its loops end - in another
    such state, with a value that satisfies [P].  One lemma per generator, with
    [P] saying that the value has its Rust type and how large it can be; the
    state stays sound throughout: the map of own blocks is bounded, its keys are
    the hashes of its blocks, and the hashes have their sizes. *)

From Stdlib Require Import ZArith Lia List Bool String.
From stdpp Require Import base option list numbers strings gmap fin_maps.
From S2P Require Import Prelude Extern BitUtils CryptoHash Nonce Types Serializer BinaryWriter WriterSpec NomCrate NomReader DeriveMake Derive RoundTrip DerivedCodec MerklePath Messages BinaryMessage ExternRef Zarith ChunkStream PublicKeys MessageFits MessageTypes Generator.

Set Warnings "-register-all".

(** ** Strings *)

Definition is_char (c : Z) : Prop := 0 <= c < 0xD800 \/ 0xE000 <= c < 0x110000.

(** Decides the ranges of the UTF-8 checks. *)
Ltac ranges :=
  repeat match goal with
  | |- context [within ?lo ?hi ?b] =>
      unfold within at 1; destruct (Z.leb_spec lo b), (Z.leb_spec b hi); cbn [andb]; try lia
  | |- context [cont ?b] =>
      unfold cont at 1; destruct (Z.leb_spec 128 b), (Z.leb_spec b 191); cbn [andb]; try lia
  | |- context [?a =? ?b] => destruct (Z.eqb_spec a b); try lia
  end; try done.

Lemma utf8_char_valid c s : is_char c -> utf8_valid (utf8_char c ++ s) = utf8_valid s.
Proof.
  unfold is_char, utf8_char. intros Hc.
  pose proof (Z.mod_pos_bound c 64 ltac:(lia)). pose proof (Z.div_mod c 64 ltac:(lia)).
  pose proof (Z.mod_pos_bound (c / 64) 64 ltac:(lia)). pose proof (Z.div_mod (c / 64) 64 ltac:(lia)).
  pose proof (Z.mod_pos_bound (c / 4096) 64 ltac:(lia)). pose proof (Z.div_mod (c / 4096) 64 ltac:(lia)).
  assert (E1 : c / 4096 = c / 64 / 64) by (rewrite Z.div_div by lia; done).
  assert (E2 : c / 262144 = c / 4096 / 64) by (rewrite Z.div_div by lia; done).
  destruct (Z.ltb_spec c 0x80); [|destruct (Z.ltb_spec c 0x800); [|destruct (Z.ltb_spec c 0x10000)]];
    cbn [app utf8_valid]; ranges.
Qed.

Lemma utf8_char_length c : (1 <= length (utf8_char c) <= 4)%nat.
Proof.
  unfold utf8_char. destruct (c <? 0x80), (c <? 0x800), (c <? 0x10000); simpl; lia.
Qed.

(** Every byte of a character after its first is a continuation byte. *)
Lemma utf8_char_tail c i b : is_char c -> utf8_char c !! S i = Some b -> cont b = true.
Proof.
  unfold is_char, utf8_char. intros Hc.
  pose proof (Z.mod_pos_bound c 64 ltac:(lia)). pose proof (Z.mod_pos_bound (c / 64) 64 ltac:(lia)).
  pose proof (Z.mod_pos_bound (c / 4096) 64 ltac:(lia)).
  destruct (Z.ltb_spec c 0x80); [|destruct (Z.ltb_spec c 0x800); [|destruct (Z.ltb_spec c 0x10000)]];
    destruct i as [|[|[|i]]]; simpl; intros Hb; try done; injection Hb as <-; ranges.
Qed.

Lemma chars_length cs : (length cs <= length (concat (map utf8_char cs)))%nat.
Proof.
  induction cs as [|c cs IH]; simpl; [lia|]. rewrite length_app. pose proof (utf8_char_length c). lia.
Qed.

(** A text cut at a character boundary is a text. *)
Lemma utf8_cut cs : forall i, Forall is_char cs -> is_char_boundary i (concat (map utf8_char cs)) = true ->
  utf8_valid (take i (concat (map utf8_char cs))) = true.
Proof.
  induction cs as [|c cs IH]; intros i Hcs Hi; [by destruct i|].
  inversion Hcs as [|? ? Hc Hcs']; subst. cbn [map concat] in *. destruct i as [|i]; [done|].
  destruct (decide (S i < length (utf8_char c))%nat) as [Hlt|Hge].
  - cbn [is_char_boundary] in Hi. rewrite lookup_app_l in Hi by done.
    destruct (lookup_lt_is_Some_2 _ _ Hlt) as [b Hb]. rewrite Hb in Hi.
    by rewrite (utf8_char_tail c i b Hc Hb) in Hi.
  - rewrite take_app_ge by lia. rewrite utf8_char_valid by done.
    destruct (S i - length (utf8_char c))%nat as [|k] eqn:Ek; [done|]. apply IH; [done|].
    cbn [is_char_boundary] in *. rewrite lookup_app_r in Hi by lia. rewrite Ek in Hi.
    destruct (concat (map utf8_char cs) !! S k); [done|].
    apply Nat.eqb_eq in Hi. rewrite length_app in Hi. apply Nat.eqb_eq. lia.
Qed.

Lemma truncate_spec cs : Forall is_char cs -> forall n, (n <= length cs)%nat -> n <> 0%nat ->
  let s := truncate_below n (concat (map utf8_char cs)) in
  utf8_valid s = true /\ (length s < n)%nat.
Proof.
  intros Hcs. induction n as [|i IH]; intros Hn Hz; [done|]. cbn [truncate_below].
  pose proof (chars_length cs) as Hl.
  destruct (is_char_boundary i (concat (map utf8_char cs))) eqn:Ei.
  - split; [by apply utf8_cut|]. rewrite length_take. lia.
  - destruct i as [|i]; [done|]. destruct IH as [Hu Hlt]; [lia|lia|]. split; [done|]. lia.
Qed.

(** ** Sound states *)

(** What generating keeps: what the peer has sent, the room for own blocks and the
    size of chunks. *)
Record Peers : Type := mkPeers {
  p_branch : option CurrentBranchMessage.t;
  p_head : option CurrentHeadMessage.t;
  p_header : option BlockHeaderMessage.t;
  p_operation : option OperationMessage.t;
  p_protocol : option ProtocolMessage.t;
  p_operations : option OperationsForBlocksMessage.t;
  p_limit : Z;
  p_chunk : Z;
}.

(** A header that can be mutated: it leaves room for the new fitness. *)
Definition header_small (h : BlockHeader.t) : Prop :=
  BlockHeader.ok h /\ BlockHeader.size h + 0x1000 + 104 <= BLOCK_HEADER_MAX_SIZE.

Definition header_usable (h : BlockHeader.t) : Prop := header_small h /\ BlockHeader.fitness h <> [].

Definition opt {A} (P : A -> Prop) (o : option A) : Prop := match o with Some a => P a | None => True end.

Definition branch_usable (m : CurrentBranchMessage.t) : Prop :=
  CurrentBranchMessage.ok m /\
  header_usable (CurrentBranch.current_head (CurrentBranchMessage.current_branch m)) /\
  zlen (CurrentBranch.history (CurrentBranchMessage.current_branch m)) <= CURRENT_BRANCH_HISTORY_MAX_LENGTH.

Definition head_usable (m : CurrentHeadMessage.t) : Prop :=
  CurrentHeadMessage.ok m /\ header_usable (CurrentHeadMessage.current_block_header m) /\
  mempool_within (CurrentHeadMessage.current_mempool m).

Definition operation_usable (o : Operation.t) : Prop := Operation.ok o /\ operation_within o.

Definition peers_usable (p : Peers) : Prop :=
  opt branch_usable (p_branch p) /\ opt head_usable (p_head p) /\
  opt (fun m => header_usable (BlockHeaderMessage.block_header m)) (p_header p) /\
  opt (fun m => operation_usable (OperationMessage.operation m)) (p_operation p) /\
  opt (fun m => Protocol.ok (ProtocolMessage.protocol m)) (p_protocol p) /\
  opt (fun m => OperationsForBlocksMessage.ok m /\ Within.peer (PeerMessage.OperationsForBlocks m))
    (p_operations p).

Definition no_peers (limit chunk : Z) : Peers := mkPeers None None None None None None limit chunk.

Section Facts.
Context `{RandValues, IterOrder, Sodium, BytesCrate, BitVecCrate, HexCrate, UnicodeTables, BigIntCrate, NomCrate, SynCrate}.

Definition peers (s : RandomState) : Peers :=
  mkPeers (current_branch s) (current_head s) (block_header s) (operation s) (protocol s)
    (operations_for_blocks s) (blocks_limit s) (max_chunk_size s).

(** The hash of a header that can be written. *)
Definition header_hash (h : BlockHeader.t) : result MessageHashError bytes :=
  message_hash (impl_of "BlockHeader") (BlockHeader.to_rval h).

(** The map of own blocks. *)
Definition blocks_ok (s : RandomState) : Prop :=
  (blocks_limit s = 0 -> blocks s = ∅) /\
  (blocks_limit s <> 0 -> Z.of_nat (base.size (blocks s)) <= blocks_limit s) /\
  forall h b, blocks s !! h = Some b -> BlockHeader.ok b /\ header_within b /\ header_hash b = Ok h.

Definition sound (p : Peers) (s : RandomState) : Prop :=
  peers s = p /\ hash_ok BlockHash (last_block s) /\ hash_ok ChainId (chain_id s) /\
  0 <= blocks_limit s /\ blocks_ok s.

Definition gens {A} (p : Peers) (m : G A) (P : A -> Prop) : Prop :=
  forall s, sound p s -> exists a s', m s = Ok (a, s') /\ sound p s' /\ P a.

(** ** Rules *)
Section Rules.
Context (p : Peers).

Lemma gens_weaken {A} (m : G A) (P Q : A -> Prop) :
  gens p m P -> (forall a, P a -> Q a) -> gens p m Q.
Proof.
  intros Hm HQ s Hs. destruct (Hm s Hs) as (a & s' & E & Hs' & Ha). exists a, s'. auto.
Qed.

Lemma gens_ret {A} (a : A) (P : A -> Prop) : P a -> gens p (mret a) P.
Proof. intros Ha s Hs. by exists a, s. Qed.

Lemma gens_bind {A B} (m : G A) (f : A -> G B) (P : A -> Prop) (Q : B -> Prop) :
  gens p m P -> (forall a, P a -> gens p (f a) Q) -> gens p (m ≫= f) Q.
Proof.
  intros Hm Hf s Hs. destruct (Hm s Hs) as (a & s1 & E & Hs1 & Ha).
  destruct (Hf a Ha s1 Hs1) as (b & s2 & E2 & Hs2 & Hb). exists b, s2. split; [|done].
  unfold mbind, G_bind. by rewrite E.
Qed.

Lemma gens_if {A} (b : bool) (m n : G A) (P : A -> Prop) :
  gens p m P -> gens p n P -> gens p (if b then m else n) P.
Proof. by destruct b. Qed.

Lemma gens_get : gens p get (sound p).
Proof. intros s Hs. by exists s, s. Qed.

Lemma gens_unwrap {E A} (r : result E A) (a : A) (P : A -> Prop) :
  r = Ok a -> P a -> gens p (unwrap r) P.
Proof. intros -> Ha. by apply gens_ret. Qed.

Lemma sound_rng r s : sound p s -> sound p (with_rng r s).
Proof. done. Qed.

Lemma gens_draw {A} (f : rng -> option (A * rng)) (P : A -> Prop) :
  (forall r, exists a r', f r = Some (a, r') /\ P a) -> gens p (draw f) P.
Proof.
  intros Hf s Hs. destruct (Hf (rng_state s)) as (a & r & E & Ha). exists a, (with_rng r s).
  unfold draw. rewrite E. by split; [|split; [apply sound_rng|]].
Qed.

Lemma gens_range lo hi : lo < hi -> gens p (gen_range lo hi) (fun z => lo <= z < hi).
Proof.
  intros Hl. apply gens_draw. intros r. destruct (rng_range_some lo hi r Hl) as (z & r' & E & Hz).
  by exists z, r'.
Qed.

Lemma gens_bool q : q ∈ [p_0_01; p_0_1; p_0_5; p_0_9] -> gens p (gen_bool q) (fun _ => True).
Proof. intros Hq. apply gens_draw. intros r. destruct (rng_bool_some q r Hq) as [[b r'] E]. eauto. Qed.

Lemma gens_01 : gens p (gen_bool p_0_1) (fun _ => True).
Proof. apply gens_bool. right. left. Qed.
Lemma gens_05 : gens p (gen_bool p_0_5) (fun _ => True).
Proof. apply gens_bool. right. right. left. Qed.
Lemma gens_09 : gens p (gen_bool p_0_9) (fun _ => True).
Proof. apply gens_bool. right. right. right. left. Qed.

Lemma gens_value (f : rng -> Z * rng) (P : Z -> Prop) :
  (forall r, P (f r).1) -> gens p (draw (fun r => Some (f r))) P.
Proof. intros Hf. apply gens_draw. intros r. exists (f r).1, (f r).2. split; [by destruct (f r)|apply Hf]. Qed.

Lemma gens_u8 : gens p gen_u8 (in_u 8).
Proof. apply gens_value, rng_u8_range. Qed.
Lemma gens_i8 : gens p gen_i8 (in_s 8).
Proof. apply gens_value, rng_i8_range. Qed.
Lemma gens_u16 : gens p gen_u16 (in_u 16).
Proof. apply gens_value, rng_u16_range. Qed.
Lemma gens_i16 : gens p gen_i16 (in_s 16).
Proof. apply gens_value, rng_i16_range. Qed.
Lemma gens_i32 : gens p gen_i32 (in_s 32).
Proof. apply gens_value, rng_i32_range. Qed.
Lemma gens_i64 : gens p gen_i64 (in_s 64).
Proof. apply gens_value, rng_i64_range. Qed.
Lemma gens_char : gens p gen_char is_char.
Proof. apply gens_value, rng_char_range. Qed.
Lemma gens_flag : gens p gen_flag (fun _ => True).
Proof. apply gens_draw. intros r. destruct (rng_flag r) as [b r']. eauto. Qed.

Lemma gens_many {A} (g : G A) (P : A -> Prop) count :
  gens p g P -> gens p (gen_many count g) (fun l => zlen l = Z.max 0 count /\ Forall P l).
Proof.
  intros Hg. unfold gen_many. eapply gens_weaken with (P := fun l => length l = Z.to_nat count /\ Forall P l).
  - generalize (Z.to_nat count) as n. induction n as [|n IH]; cbn [repeat_gen].
    + by apply gens_ret.
    + eapply gens_bind; [exact Hg|]. intros a Ha. eapply gens_bind; [exact IH|].
      intros l [Hl Hall]. apply gens_ret. split; [simpl; lia|]. by constructor.
  - intros l [Hl Hall]. split; [unfold zlen; lia|done].
Qed.

Lemma gens_vec n : n <= 2 ^ 63 - 1 ->
  gens p (gen_vec n) (fun l => are_bytes l /\ zlen l = Z.max 0 n).
Proof.
  intros Hn. unfold gen_vec. destruct (Z.ltb_spec (2 ^ 63 - 1) n); [lia|].
  eapply gens_weaken; [apply gens_many, gens_u8|]. intros l [Hl Hall]. split; [|done].
  unfold are_bytes. apply (Forall_impl (in_u 8)); [done|]. done.
Qed.

Lemma gens_string n : n <= 2 ^ 32 ->
  gens p (gen_string n) (fun s => string_ok s /\ zlen s <= Z.max 0 (n - 1)).
Proof.
  intros Hn. unfold gen_string. eapply gens_bind; [apply gens_many, gens_char|].
  intros cs [Hl Hcs]. apply gens_ret. destruct (Z.to_nat n) as [|k] eqn:Ek.
  - assert (cs = []) as -> by (destruct cs; [done|unfold zlen in Hl; simpl in Hl; lia]).
    split; [done|]. unfold zlen. simpl. lia.
  - destruct (truncate_spec cs Hcs (S k)) as [Hu Hlt]; [unfold zlen in Hl; lia|done|].
    unfold string_ok, zlen in *. split; [split; [done|]|]; lia.
Qed.

Lemma hash_from_ok t h : zlen h = hash_size t -> hash_from_bytes t h = Ok h.
Proof. intros Hl. unfold hash_from_bytes. by rewrite Hl, Z.eqb_refl. Qed.

Lemma hash_size_range t : 0 < hash_size t <= 2 ^ 63 - 1.
Proof. by destruct t. Qed.

Lemma gens_hash t : gens p (gen_hash t) (hash_ok t).
Proof.
  pose proof (hash_size_range t). unfold gen_hash. eapply gens_bind; [apply gens_vec; lia|].
  intros h [Hb Hl]. rewrite Z.max_r in Hl by lia.
  eapply gens_unwrap; [by apply hash_from_ok|done].
Qed.

Lemma gens_hashes t n :
  gens p (gen_hashes t n) (fun l => Forall (hash_ok t) l /\ zlen l = Z.max 0 n).
Proof. eapply gens_weaken; [apply gens_many, gens_hash|]. by intros l []. Qed.

Lemma gens_chain_id : gens p gen_chain_id (hash_ok ChainId).
Proof.
  unfold gen_chain_id. eapply gens_bind; [apply gens_05|]. intros b _.
  apply gens_if; [apply gens_hash|]. unfold get_chain_id. eapply gens_bind; [apply gens_get|].
  intros s Hs. apply gens_ret. apply Hs.
Qed.

(** The peer's messages are read back. *)
Lemma gens_field {A} (f : RandomState -> A) (g : Peers -> A) :
  (forall s, f s = g (peers s)) -> gens p (s ← get; mret (f s)) (fun a => a = g p).
Proof.
  intros Hf. eapply gens_bind; [apply gens_get|]. intros s Hs. apply gens_ret.
  rewrite Hf. f_equal. apply Hs.
Qed.

Lemma gens_get_branch : gens p get_current_branch (fun o => o = p_branch p).
Proof. by apply gens_field. Qed.
Lemma gens_get_head : gens p get_current_head (fun o => o = p_head p).
Proof. by apply gens_field. Qed.
Lemma gens_get_header : gens p get_block_header (fun o => o = p_header p).
Proof. by apply gens_field. Qed.
Lemma gens_get_operation : gens p get_operation (fun o => o = p_operation p).
Proof. by apply gens_field. Qed.
Lemma gens_get_protocol : gens p get_protocol (fun o => o = p_protocol p).
Proof. by apply gens_field. Qed.
Lemma gens_get_operations : gens p get_operations_for_blocks (fun o => o = p_operations p).
Proof. by apply gens_field. Qed.
End Rules.
End Facts.

(** [gstep] runs the first computation of a sequence by its lemma, [run] by a
    given one. *)
Create HintDb gens discriminated.
#[export] Hint Resolve gens_01 gens_05 gens_09 gens_u8 gens_i8 gens_u16 gens_i16 gens_i32 gens_i64
  gens_flag gens_hash gens_hashes gens_chain_id gens_get gens_get_branch gens_get_head gens_get_header
  gens_get_operation gens_get_protocol gens_get_operations : gens.
Ltac gstep := eapply gens_bind; [solve [eauto 2 with gens]|cbv beta].
Tactic Notation "run" tactic3(t) := eapply gens_bind; [solve [t]|cbv beta].

(** ** The generators *)
Section Makes.
Context `{RandValues, IterOrder, Sodium, BytesCrate, BitVecCrate, HexCrate, UnicodeTables, BigIntCrate, NomCrate, SynCrate}.
Context (p : Peers) (Hp : peers_usable p).

Definition made_header (h : BlockHeader.t) : Prop := BlockHeader.ok h /\ header_within h.

Lemma header_small_made h : header_small h -> made_header h.
Proof. intros [Hok Hs]. split; [done|]. unfold header_within. lia. Qed.

Lemma gens_socket : gens p gen_socket_addr (fun a =>
  in_u 8 (ip_a (ip a)) /\ in_u 8 (ip_b (ip a)) /\ in_u 8 (ip_c (ip a)) /\ in_u 8 (ip_d (ip a)) /\
  in_u 16 (port a)).
Proof.
  unfold gen_socket_addr, gen_ip_addr. eapply gens_bind.
  - gstep. intros a Ha. gstep. intros b Hb. gstep. intros c Hc. gstep. intros d Hd.
    apply (gens_ret p _ (fun i => in_u 8 (ip_a i) /\ in_u 8 (ip_b i) /\ in_u 8 (ip_c i) /\ in_u 8 (ip_d i))).
    done.
  - intros i Hi. gstep. intros q Hq. apply gens_ret. destruct Hi as (? & ? & ? & ?). done.
Qed.

(** Decimal numbers are ASCII digits. *)
Definition ascii (s : bytes) : Prop := Forall (fun b => 0 <= b < 128) s.

Lemma ascii_utf8 s : ascii s -> utf8_valid s = true.
Proof.
  induction 1 as [|b s Hb _ IH]; [done|]. cbn [utf8_valid]. unfold NomReader.within.
  destruct (Z.leb_spec 0 b), (Z.leb_spec b 127); try lia. done.
Qed.

Lemma decimal_ascii k : forall n, 0 <= n -> ascii (decimal k n) /\ zlen (decimal k n) <= Z.of_nat k.
Proof.
  induction k as [|k IH]; intros n Hn; cbn [decimal]; [by split; [constructor|]|].
  destruct (Z.ltb_spec n 10).
  - split; [|unfold zlen; simpl; lia]. repeat constructor; lia.
  - destruct (IH (n / 10)) as [Ha Hl]; [apply Z.div_pos; lia|].
    pose proof (Z.mod_pos_bound n 10 ltac:(lia)). split.
    + apply Forall_app. split; [done|]. repeat constructor; lia.
    + rewrite zlen_app. unfold zlen at 2. simpl. lia.
Qed.

Lemma address_ok a : 0 <= ip_a (ip a) -> 0 <= ip_b (ip a) -> 0 <= ip_c (ip a) -> 0 <= ip_d (ip a) ->
  0 <= port a -> string_ok (format_address a) /\ zlen (format_address a) <= 21.
Proof.
  intros A B C D P. unfold format_address.
  destruct (decimal_ascii 3 _ A) as [A1 A2], (decimal_ascii 3 _ B) as [B1 B2],
    (decimal_ascii 3 _ C) as [C1 C2], (decimal_ascii 3 _ D) as [D1 D2], (decimal_ascii 5 _ P) as [P1 P2].
  assert (Hl : zlen (decimal 3 (ip_a (ip a)) ++ [46] ++ decimal 3 (ip_b (ip a)) ++ [46] ++
    decimal 3 (ip_c (ip a)) ++ [46] ++ decimal 3 (ip_d (ip a)) ++ [58] ++ decimal 5 (port a)) <= 21).
  { rewrite !zlen_app. change (zlen [46]) with 1. change (zlen [58]) with 1. lia. }
  split; [|done]. split; [|lia]. apply ascii_utf8.
  unfold ascii in *. rewrite !Forall_app. repeat split; try done; repeat constructor; lia.
Qed.

Lemma gens_advertise : gens p gen_advertise (fun m =>
  AdvertiseMessage.ok m /\ points_within ADVERTISE_ID_LIST_MAX_LENGTH (AdvertiseMessage.id m)).
Proof.
  unfold gen_advertise. run (apply gens_range; by vm_compute). intros n Hn.
  run (apply gens_many, gens_socket). intros l [Hl Hall]. apply gens_ret.
  assert (Hs : Forall (fun s => string_ok s /\ zlen s <= 21) (map format_address l)).
  { apply Forall_map. apply (Forall_impl _ _ _ Hall). intros a (A & B & C & D & E).
    unfold in_u in *. apply address_ok; lia. }
  unfold AdvertiseMessage.ok, points_within, advertise_new. cbn [AdvertiseMessage.id].
  split; [by apply (Forall_impl _ _ _ Hs); intros s []|]. split.
  - unfold zlen in *. rewrite length_map. lia.
  - apply (Forall_impl _ _ _ Hs). intros s []. unfold P2P_POINT_MAX_SIZE. lia.
Qed.

Lemma gens_swap : gens p gen_swap (fun m =>
  SwapMessage.ok m /\ 4 + zlen (SwapMessage.point m) <= P2P_POINT_MAX_SIZE).
Proof.
  unfold gen_swap. run (apply gens_range; by vm_compute). intros n Hn.
  change P2P_POINT_MAX_LENGTH with 47 in Hn. gstep. intros h Hh.
  run (apply gens_string; lia). intros s [Hs Hl]. apply gens_ret.
  unfold SwapMessage.ok, P2P_POINT_MAX_SIZE. cbn [SwapMessage.point SwapMessage.peer_id].
  split; [done|]. lia.
Qed.

(** ** Headers *)
Lemma strings_size_app l k : strings_size (l ++ k) = strings_size l + strings_size k.
Proof. unfold strings_size. by rewrite map_app, zsum_app. Qed.

Lemma gens_fitness rounds : forall fit left rest, 0 <= left < 5 * Z.of_nat rounds ->
  gens p (fitness_loop rounds fit left rest) (fun fr => exists new, fr.1 = fit ++ new /\
    Forall are_bytes new /\ strings_size new <= left /\ fr.2 = rest - strings_size new).
Proof.
  induction rounds as [|rounds IH]; intros fit left rest Hl; [lia|]. cbn [fitness_loop].
  run (apply gens_range; lia). intros n Hn.
  run (apply gens_vec; lia). intros e [He Hlen]. rewrite Z.max_r in Hlen by lia.
  destruct (Z.ltb_spec left (n + 4)).
  - apply gens_ret. exists []. rewrite app_nil_r. unfold strings_size. simpl.
    repeat split; [constructor|lia|lia].
  - eapply gens_weaken; [apply IH; lia|]. intros fr (new & E1 & Hb & Hs & E2).
    exists (e :: new). change (e :: new) with ([e] ++ new). rewrite strings_size_app.
    assert (He1 : strings_size [e] = n + 4) by (unfold strings_size; simpl; lia).
    split; [by rewrite E1, <- app_assoc|]. split; [by constructor|]. split; [lia|]. rewrite E2. lia.
Qed.

Lemma gens_fitness_all rest : gens p (fitness_loop FITNESS_ROUNDS [] 28 rest) (fun fr =>
  Forall are_bytes fr.1 /\ strings_size fr.1 <= 28 /\ fr.2 = rest - strings_size fr.1).
Proof.
  eapply gens_weaken; [apply gens_fitness; unfold FITNESS_ROUNDS; lia|].
  intros [l r] (new & E1 & Hb & Hs & E2). simpl in *. by subst.
Qed.

Lemma gens_below n : 0 <= n -> gens p (gen_below n) (fun z => 0 <= z <= n /\ (1 < n -> z < n)).
Proof.
  intros Hn. unfold gen_below. destruct (Z.ltb_spec 1 n).
  - eapply gens_weaken; [apply gens_range; lia|]. simpl. lia.
  - apply gens_ret. lia.
Qed.

Lemma gens_builder : gens p gen_header_builder made_header.
Proof.
  unfold gen_header_builder. run (apply gens_fitness_all).
  intros [fit rest] (Hf & Hs & Hr). cbn [fst snd] in *. pose proof (strings_size_nonneg fit).
  unfold BLOCK_HEADER_MAX_SIZE in Hr. run (apply gens_below; lia). intros n Hn.
  gstep. intros pr Hpr. gstep. intros oh Hoh. gstep. intros ctx Hctx. gstep. intros lv Hlv.
  gstep. intros pt Hpt. gstep. intros ts Hts. gstep. intros vp Hvp.
  run (apply gens_vec; lia). intros d [Hd Hdl]. apply gens_ret.
  split; [repeat split; try done; apply Hpr || apply Hoh || apply Hctx || apply Hlv || apply Hpt
         || apply Hts || apply Hvp|].
  unfold header_within, BlockHeader.size, BLOCK_HEADER_MAX_SIZE.
  cbn [BlockHeader.fitness BlockHeader.protocol_data]. lia.
Qed.

Lemma gens_next_block : gens p gen_next_block made_header.
Proof.
  unfold gen_next_block. run (apply gens_builder). intros h [Hok Hw].
  gstep. intros s (_ & Hl & _). apply gens_ret. split; [|exact Hw].
  destruct Hok as (O1 & O2 & O3 & O4). exact (conj O1 (conj O2 (conj Hl O4))).
Qed.

Lemma header_hash_ok h : made_header h -> exists x, header_hash h = Ok x /\ hash_ok BlockHash x.
Proof.
  intros [Hok Hw]. destruct (fits_written "BlockHeader" (BlockHeader.to_rval h) (BlockHeader.size h))
    as (_ & bs & Hb & _); [by apply header_fits| |].
  { destruct (declared_entry 9 _ _ eq_refl) as (ti & t & He & _). rewrite He. by eexists. }
  destruct (digest_256_total bs) as (x & Hx & Hl & Hbx). exists x. unfold header_hash, message_hash.
  rewrite Hb. cbn [map_err mbind result_bind]. rewrite Hx. done.
Qed.

Lemma gens_block_hash h : made_header h ->
  gens p (block_hash h) (fun x => hash_ok BlockHash x /\ header_hash h = Ok x).
Proof.
  intros Hh. destruct (header_hash_ok h Hh) as (x & Hx & Hok). unfold block_hash.
  run (eapply gens_unwrap with (P := fun y => y = x); [exact Hx|done]). intros y ->.
  eapply gens_unwrap; [apply hash_from_ok, Hok|done].
Qed.

Lemma gens_flips bs : are_bytes bs -> forall flips,
  gens p (flip_bits_of bs flips) (fun l => are_bytes l /\ zlen l = zlen bs).
Proof.
  induction 1 as [|b bs Hb _ IH]; intros flips; cbn [flip_bits_of].
  { apply gens_ret. by split; [constructor|]. }
  eapply gens_bind with (P := fun _ => True).
  { apply gens_if; [apply gens_01|by apply gens_ret]. }
  intros doit _. apply gens_if.
  - run (apply gens_range; lia). intros i Hi. run (apply IH). intros l [Hl Hz]. apply gens_ret.
    split; [|by rewrite !zlen_cons, Hz]. constructor; [|done]. unfold is_byte in *.
    assert (0 <= Z.lxor b (Z.shiftl 1 i)).
    { apply Z.lxor_nonneg. split; intros _; [apply Z.shiftl_nonneg|]; lia. }
    split; [done|]. destruct (Z.eq_dec (Z.lxor b (Z.shiftl 1 i)) 0) as [->|Hne]; [done|].
    change 256 with (2 ^ 8). apply Z.log2_lt_pow2; [lia|].
    pose proof (Z.log2_lxor b (Z.shiftl 1 i) ltac:(lia) ltac:(apply Z.shiftl_nonneg; lia)) as Hlog.
    rewrite Z.log2_shiftl in Hlog by lia. change (Z.log2 1) with 0 in Hlog.
    assert (Z.log2 b < 8).
    { destruct (Z.eq_dec b 0) as [->|]; [done|]. apply Z.log2_lt_pow2; [lia|]. change (2 ^ 8) with 256. lia. }
    lia.
  - run (apply IH). intros l [Hl Hz]. apply gens_ret. split; [by constructor|by rewrite !zlen_cons, Hz].
Qed.

Lemma gens_gen_fitness : gens p gen_fitness (fun _ => True).
Proof.
  intros s Hs. eexists _, _. split; [reflexivity|]. split; [|done]. exact Hs.
Qed.

Lemma swrap_range w z : 0 < w -> in_s w (swrap w z).
Proof.
  intros Hw. unfold swrap, in_s. pose proof (Z.mod_pos_bound z (2 ^ w) ltac:(lia)) as Hm.
  assert (E : 2 ^ w = 2 * 2 ^ (w - 1)) by (rewrite <- Z.pow_succ_r by lia; f_equal; lia).
  destruct (Z.ltb_spec (z mod 2 ^ w) (2 ^ (w - 1))); lia.
Qed.

Lemma uwrap_range w z : 0 < w -> in_u w (uwrap w z).
Proof. intros Hw. unfold uwrap, in_u. apply Z.mod_pos_bound. lia. Qed.

(** What a mutated header keeps of the fitness leaves room for the rest. *)
Definition new_fitness (h : BlockHeader.t) (fr : list bytes * Z) : Prop :=
  Forall are_bytes fr.1 /\ strings_size fr.1 <= strings_size (BlockHeader.fitness h) + 28 /\
  0 <= fr.2 /\ strings_size fr.1 + fr.2 <= BLOCK_HEADER_MAX_SIZE - 0x1000 + 8.

Lemma gens_new_fitness h (keep : bool) : header_usable h ->
  gens p
    (if keep then
       match BlockHeader.fitness h with
       | [] => panic
       | f :: _ =>
           n ← gen_fitness;
           mret ([f; be_bytes 8 n],
                 uwrap 64 (uwrap 64 (BLOCK_HEADER_MAX_SIZE - 0x1000 - zlen f) - 8))
       end
     else fitness_loop FITNESS_ROUNDS [] 28 (BLOCK_HEADER_MAX_SIZE - 0x1000)) (new_fitness h).
Proof.
  intros [[Hok Hs] Hne]. unfold new_fitness. destruct keep.
  - destruct Hok as (_ & _ & _ & _ & _ & _ & Hf & _). unfold BlockHeader.size in Hs.
    pose proof (zlen_nonneg (BlockHeader.protocol_data h)).
    destruct (BlockHeader.fitness h) as [|f fs]; [done|]. clear Hne.
    inversion Hf as [|? ? Hfb Hfs]; subst. run (apply gens_gen_fitness). intros n _. apply gens_ret.
    pose proof (zlen_nonneg f) as Hz. pose proof (strings_size_nonneg fs) as Hzs.
    change (f :: fs) with ([f] ++ fs) in *. rewrite strings_size_app in *.
    assert (E : strings_size [f; be_bytes 8 n] = strings_size [f] + 12).
    { unfold strings_size. cbn [map zsum]. rewrite zlen_be_bytes. lia. }
    cbn [fst snd]. rewrite E. assert (E1 : strings_size [f] = 4 + zlen f) by (unfold strings_size; simpl; lia).
    unfold uwrap. unfold BLOCK_HEADER_MAX_SIZE in *.
    rewrite (Z.mod_small (8 * 1024 * 1024 - 0x1000 - zlen f)) by lia.
    rewrite (Z.mod_small (8 * 1024 * 1024 - 0x1000 - zlen f - 8)) by lia.
    split; [constructor; [done|constructor; [apply be_bytes_are_bytes|constructor]]|]. lia.
  - eapply gens_weaken; [apply gens_fitness_all|]. intros [l r] (Hb & Hl & Hr). cbn [fst snd] in *.
    pose proof (strings_size_nonneg (BlockHeader.fitness h)). unfold BLOCK_HEADER_MAX_SIZE in *.
    split; [done|]. lia.
Qed.

Lemma gens_head_hash m : p_head p = Some m ->
  gens p (block_hash (CurrentHeadMessage.current_block_header m)) (hash_ok BlockHash).
Proof.
  intros Em. destruct Hp as (_ & Hh & _). rewrite Em in Hh. destruct Hh as (_ & [Hs _] & _).
  eapply gens_weaken; [by apply gens_block_hash, header_small_made|]. by intros x [].
Qed.

(** A kept value or a fresh one. *)
Ltac keep_or_fresh := apply gens_if; [|solve [eauto 2 with gens]].

Lemma gens_mutate_header h : header_usable h -> gens p (mutate_header h) made_header.
Proof.
  intros Hu. pose proof Hu as [[Hok Hs] _].
  destruct Hok as (Hlv & Hpt & Hpr & Hts & Hvp & Hoh & Hf & Hctx & Hd). unfold mutate_header.
  gstep. intros k1 _. eapply gens_bind with (P := in_s 32).
  { keep_or_fresh. apply gens_ret. by apply swrap_range. }
  intros level Hlevel. gstep. intros k2 _. eapply gens_bind with (P := in_u 8).
  { keep_or_fresh. by apply gens_ret. }
  intros proto Hproto. gstep. intros head Ehead. eapply gens_bind with (P := hash_ok BlockHash).
  { destruct head as [m|]; [by apply gens_head_hash|]. run (apply gens_next_block).
    intros b Hb. eapply gens_weaken; [by apply gens_block_hash|]. by intros x []. }
  intros pred Hpred. gstep. intros k3 _. eapply gens_bind with (P := in_s 64).
  { keep_or_fresh. run (apply gens_range; lia). intros d _. apply gens_ret. by apply swrap_range. }
  intros ts Hts'. gstep. intros k4 _. eapply gens_bind with (P := in_u 8).
  { keep_or_fresh. apply gens_ret. by apply uwrap_range. }
  intros vp Hvp'. gstep. intros oh Hoh'. gstep. intros k5 _.
  run (apply (gens_new_fitness h k5 Hu)). intros [fit rest] (Hfit & Hfs & Hr0 & Hr). cbn [fst snd] in *.
  gstep. intros ctx Hctx'. gstep. intros k6 _.
  set (old := BlockHeader.protocol_data h) in *. pose proof (strings_size_nonneg fit).
  unfold BlockHeader.size in Hs. fold old in Hs. pose proof (strings_size_nonneg (BlockHeader.fitness h)).
  eapply gens_bind with (P := fun d => are_bytes d /\
    strings_size fit + zlen d + 114 <= BLOCK_HEADER_MAX_SIZE).
  { destruct (k6 && (0 <? zlen old)) eqn:Ek.
    - apply andb_true_iff in Ek as [_ Hold%Z.ltb_lt]. run (apply gens_range; lia). intros n _.
      eapply gens_weaken; [by apply gens_flips|]. intros d [Hdb Hz]. split; [done|]. lia.
    - run (apply gens_below; lia). intros n [Hn _]. unfold BLOCK_HEADER_MAX_SIZE in *.
      eapply gens_weaken; [apply gens_vec; lia|]. intros d [Hdb Hz]. split; [done|]. lia. }
  intros d [Hdb Hsize]. apply gens_ret. split.
  - repeat split; try done; apply Hlevel || apply Hproto || apply Hpred || apply Hts' || apply Hvp'
      || apply Hoh' || apply Hctx'.
  - unfold header_within, BlockHeader.size. cbn [BlockHeader.fitness BlockHeader.protocol_data]. lia.
Qed.

(** ** Branches and heads *)
Lemma size_zero (m : gmap bytes BlockHeader.t) : Z.of_nat (base.size m) <> 0 -> m <> ∅.
Proof. intros Hs ->. apply Hs. by rewrite map_size_empty. Qed.

(** Storing a block keeps the map sound: a full map loses a block first. *)
Lemma gens_remember h x : made_header h -> header_hash h = Ok x ->
  gens p (remember_block x h) (fun _ => True).
Proof.
  intros Hh Hx s Hs. pose proof Hs as (Hpe & Hl & Hc & H0l & Hz & Hle & Hkeys).
  unfold remember_block, mbind, G_bind, get. destruct (Z.eqb_spec (blocks_limit s) 0) as [E0|E0].
  { exists tt, s. done. }
  specialize (Hle E0).
  assert (Hins : forall m : gmap bytes BlockHeader.t, m ⊆ blocks s ->
    Z.of_nat (base.size m) < blocks_limit s -> sound p (with_blocks (<[x := h]> m) s)).
  { intros m Hm Hlt. split; [done|]. split; [done|]. split; [done|]. split; [done|].
    unfold blocks_ok. cbn [blocks with_blocks blocks_limit]. split; [done|]. split.
    - intros _. rewrite map_size_insert. destruct (m !! x); simpl; lia.
    - intros k b [[<- <-]|[_ Hk]]%lookup_insert_Some; [by destruct Hh|].
      apply Hkeys. by apply (lookup_weaken m). }
  destruct (Z.eqb_spec (Z.of_nat (base.size (blocks s))) (blocks_limit s)) as [Ef|Ef].
  - destruct (first_key_some (blocks s)) as [k Hk]; [apply size_zero; lia|]. rewrite Hk.
    apply first_key_in in Hk as Hin. unfold modify. eexists tt, _. split; [reflexivity|].
    split; [|done]. cbn [with_blocks blocks]. apply (Hins (delete k (blocks s))).
    + apply delete_subseteq.
    + rewrite map_size_delete_Some by done. destruct Hin as [b Hb].
      assert (base.size (blocks s) <> 0%nat) by lia. lia.
  - eexists tt, _. split; [reflexivity|]. split; [|done]. apply (Hins (blocks s)); [done|lia].
Qed.

Lemma gens_set_last x : hash_ok BlockHash x -> gens p (set_last_block_hash x) (fun _ => True).
Proof. intros Hx s (Hpe & Hl & Hc & Hb). eexists tt, _. split; [reflexivity|]. done. Qed.

Definition branch_made (b : CurrentBranch.t) : Prop :=
  CurrentBranch.ok b /\ header_within (CurrentBranch.current_head b) /\
  zlen (CurrentBranch.history b) <= CURRENT_BRANCH_HISTORY_MAX_LENGTH.

Lemma gens_current_branch : gens p gen_current_branch branch_made.
Proof.
  unfold gen_current_branch. run (apply gens_range; by vm_compute). intros n Hn. gstep.
  intros l [Hl Hz]. run (apply gens_next_block). intros h Hh. run (by apply gens_block_hash).
  intros x [Hx Hhash]. run (by apply gens_remember). intros _ _. run (by apply gens_set_last).
  intros _ _. apply gens_ret. destruct Hh. split; [done|]. split; [done|].
  cbn [CurrentBranch.history]. unfold CURRENT_BRANCH_HISTORY_MAX_LENGTH in *. lia.
Qed.

Lemma gens_mutate_branch b : CurrentBranch.ok b -> header_usable (CurrentBranch.current_head b) ->
  zlen (CurrentBranch.history b) <= CURRENT_BRANCH_HISTORY_MAX_LENGTH ->
  gens p (mutate_current_branch b) branch_made.
Proof.
  intros Hok Hu Hlen. unfold mutate_current_branch. run (by apply gens_mutate_header). intros h Hh.
  gstep. intros keep _.
  eapply gens_bind with (P := fun l => Forall (hash_ok BlockHash) l /\
    zlen l <= CURRENT_BRANCH_HISTORY_MAX_LENGTH).
  { apply gens_if; [by apply gens_ret; split; [apply Hok|]|]. run (apply gens_range; by vm_compute).
    intros n Hn. eapply gens_weaken; [apply gens_hashes|]. intros l [Hl Hz]. split; [done|].
    unfold CURRENT_BRANCH_HISTORY_MAX_LENGTH in *. lia. }
  intros l [Hl Hz]. run (by apply gens_block_hash). intros x [Hx _].
  run (by apply gens_set_last). intros _ _. apply gens_ret. by destruct Hh.
Qed.

Lemma gens_branch_message : gens p gen_current_branch_message (fun m =>
  CurrentBranchMessage.ok m /\ Within.peer (PeerMessage.CurrentBranch m)).
Proof.
  unfold gen_current_branch_message. gstep. intros o ->. destruct Hp as (Hb & _).
  destruct (p_branch p) as [m|].
  - destruct Hb as ([Hc Hok] & Hu & Hlen). unfold mutate_current_branch_message, mutate_hash.
    eapply gens_bind; [by apply (gens_ret p _ (hash_ok ChainId))|]. intros c Hc'.
    run (by apply gens_mutate_branch). intros b (Hbo & Hw & Hz). by apply gens_ret.
  - gstep. intros c Hc. run (apply gens_current_branch). intros b (Hbo & Hw & Hz). by apply gens_ret.
Qed.

(** A mutated mempool can hold one operation more than can be written. *)
Lemma gens_mutate_mempool m : Mempool.ok m -> mempool_within m ->
  gens p (mutate_mempool m) (fun m' => Mempool.ok m' /\
    zlen (Mempool.known_valid m') + zlen (Mempool.pending m') <= MEMPOOL_MAX_OPERATIONS).
Proof.
  intros [Hk Hpe] Hw. unfold mempool_within, Mempool.size, MEMPOOL_MAX_SIZE, MEMPOOL_MAX_OPERATIONS in *.
  change (hash_size OperationHash) with 32 in Hw.
  pose proof (zlen_nonneg (Mempool.known_valid m)). pose proof (zlen_nonneg (Mempool.pending m)).
  unfold mutate_mempool, MEMPOOL_MAX_OPERATIONS. gstep. intros k1 _.
  eapply gens_bind with (P := fun l => Forall (hash_ok OperationHash) l /\ zlen l <= 4000).
  { apply gens_if.
    - gstep. intros same _. apply gens_ret. destruct same; (split; [done|lia]).
    - run (apply gens_range; lia). intros n Hn. eapply gens_weaken; [apply gens_hashes|].
      intros l [Hl Hz]. split; [done|]. lia. }
  intros known [Hkn Hkz]. pose proof (zlen_nonneg known). unfold uwrap.
  rewrite Z.mod_small by lia. gstep. intros k2 _.
  eapply gens_bind with (P := fun l => Forall (hash_ok OperationHash) l /\ zlen known + zlen l <= 4000).
  { apply gens_if.
    - gstep. intros same _. apply gens_ret. split; [destruct same; by apply Forall_take|].
      unfold zlen at 2. rewrite length_take. lia.
    - run (apply gens_below; lia). intros n [Hn _]. eapply gens_weaken; [apply gens_hashes|].
      intros l [Hl Hz]. split; [done|]. lia. }
  intros pend [Hpn Hpz]. by apply gens_ret.
Qed.

Lemma gens_mempool : gens p gen_mempool (fun m =>
  Mempool.ok m /\ (p_head p = None -> mempool_within m)).
Proof.
  unfold gen_mempool. gstep. intros o ->. destruct Hp as (_ & Hh & _). destruct (p_head p) as [m|].
  - destruct Hh as ((_ & _ & Hok) & _ & Hw). eapply gens_weaken; [by apply gens_mutate_mempool|].
    by intros a [].
  - unfold MEMPOOL_MAX_OPERATIONS. run (apply gens_range; lia). intros n Hn.
    run (apply gens_range; lia). intros k Hk. gstep. intros pe [Hpe Hpz]. gstep. intros kn [Hkn Hkz].
    apply gens_ret. split; [done|]. intros _. unfold mempool_within, Mempool.size, MEMPOOL_MAX_SIZE.
    cbn [Mempool.known_valid Mempool.pending]. change (hash_size OperationHash) with 32.
    unfold MEMPOOL_MAX_OPERATIONS. lia.
Qed.

Lemma gens_current_head : gens p gen_current_head (fun m =>
  CurrentHeadMessage.ok m /\ header_within (CurrentHeadMessage.current_block_header m) /\
  (p_head p = None -> mempool_within (CurrentHeadMessage.current_mempool m))).
Proof.
  unfold gen_current_head. gstep. intros o Eo. pose proof Hp as (_ & Hh & _). subst o.
  destruct (p_head p) as [m|] eqn:Em.
  - destruct Hh as ((Hc & Hok & Hmp) & Hu & Hw). unfold mutate_current_head, mutate_hash.
    eapply gens_bind; [by apply (gens_ret p _ (hash_ok ChainId))|]. intros c Hc'.
    run (by apply gens_mutate_header). intros h [Hho Hhw].
    run (by apply gens_mutate_mempool). intros mp [Hmo _]. by apply gens_ret.
  - gstep. intros c Hc. run (apply gens_builder). intros h [Hho Hhw]. run (apply gens_mempool).
    intros mp [Hmo Hmw]. apply gens_ret. rewrite Em in Hmw. exact (conj (conj Hc (conj Hho Hmo)) (conj Hhw Hmw)).
Qed.

Lemma gens_header_message : gens p gen_header_message (fun m =>
  made_header (BlockHeaderMessage.block_header m)).
Proof.
  unfold gen_header_message. gstep. intros o ->. destruct Hp as (_ & _ & Hh & _).
  destruct (p_header p) as [m|].
  - unfold mutate_header_message. run (by apply gens_mutate_header). intros h Hm. by apply gens_ret.
  - run (apply gens_builder). intros h Hm. by apply gens_ret.
Qed.

(** ** Short lists *)
Lemma gens_get_block_headers : gens p gen_get_block_headers (fun m =>
  GetBlockHeadersMessage.ok m /\
  zlen (GetBlockHeadersMessage.get_block_headers m) <= GET_BLOCK_HEADERS_MAX_LENGTH).
Proof.
  unfold gen_get_block_headers. run (apply gens_range; by vm_compute). intros n Hn. gstep.
  intros l [Hl Hz]. apply gens_ret. split; [done|]. cbn [GetBlockHeadersMessage.get_block_headers]. lia.
Qed.

Lemma gens_get_ops : gens p gen_get_operations (fun m =>
  GetOperationsMessage.ok m /\ zlen (GetOperationsMessage.get_operations m) <= GET_OPERATIONS_MAX_LENGTH).
Proof.
  unfold gen_get_operations. run (apply gens_range; by vm_compute). intros n Hn. gstep.
  intros l [Hl Hz]. apply gens_ret. split; [done|]. cbn [GetOperationsMessage.get_operations]. lia.
Qed.

Lemma gens_get_protocols : gens p gen_get_protocols (fun m =>
  GetProtocolsMessage.ok m /\ zlen (GetProtocolsMessage.get_protocols m) <= GET_PROTOCOLS_MAX_LENGTH).
Proof.
  unfold gen_get_protocols. run (apply gens_range; by vm_compute). intros n Hn. gstep.
  intros l [Hl Hz]. apply gens_ret. split; [done|]. cbn [GetProtocolsMessage.get_protocols]. lia.
Qed.

(** ** Operations *)
Lemma gens_last_block : gens p gen_last_block (hash_ok BlockHash).
Proof.
  unfold gen_last_block. gstep. intros o Eo. destruct o as [m|]; [by apply gens_head_hash|].
  gstep. intros b _. apply gens_if; [|apply gens_hash]. gstep. intros s (_ & Hl & _). by apply gens_ret.
Qed.

(** A new operation has the largest size the generator allows. *)
Lemma gens_operation : gens p gen_operation (fun o =>
  Operation.ok o /\ zlen (Operation.data o) = OPERATION_MAX_SIZE - 64).
Proof.
  unfold gen_operation. run (apply gens_last_block). intros b Hb. run (apply gens_vec; by vm_compute).
  intros d [Hd Hz]. apply gens_ret. split; [done|]. exact Hz.
Qed.

Lemma operation_of_size o : Operation.ok o -> zlen (Operation.data o) = OPERATION_MAX_SIZE - 64 ->
  operation_usable o.
Proof. intros Hok Hz. split; [done|]. unfold operation_within. lia. Qed.

Lemma gens_mutate_operation o : operation_usable o -> gens p (mutate_operation o) operation_usable.
Proof.
  intros [[Hb Hd] Hw]. unfold mutate_operation, operation_within in *. gstep. intros k1 _.
  eapply gens_bind with (P := hash_ok BlockHash).
  { apply gens_if; [by apply gens_ret|apply gens_last_block]. }
  intros b Hb'. gstep. intros k2 _.
  eapply gens_bind with (P := fun d => are_bytes d /\ zlen d <= OPERATION_MAX_SIZE).
  { apply gens_if.
    - eapply gens_bind with (P := fun _ => True).
      + destruct (Z.ltb_spec 0 (zlen (Operation.data o))); [|by apply gens_ret].
        run (apply gens_range; lia). intros n _. by apply gens_ret.
      + intros flips _. eapply gens_weaken; [by apply gens_flips|]. intros l [Hl Hz]. split; [done|]. lia.
    - pose proof (zlen_nonneg (Operation.data o)). run (apply gens_below; lia). intros n [Hn _].
      unfold OPERATION_MAX_SIZE in *. eapply gens_weaken; [apply gens_vec; lia|].
      intros l [Hl Hz]. split; [done|]. lia. }
  intros d [Hdb Hdz]. by apply gens_ret.
Qed.

Lemma gens_operation_message : gens p gen_operation_message (fun m =>
  operation_usable (OperationMessage.operation m)).
Proof.
  unfold gen_operation_message. gstep. intros o ->. destruct Hp as (_ & _ & _ & Ho & _).
  destruct (p_operation p) as [m|].
  - run (by apply gens_mutate_operation). intros o Hm. by apply gens_ret.
  - run (apply gens_operation). intros o [Hok Hz]. apply gens_ret. by apply operation_of_size.
Qed.

Lemma gens_operation_len o : operation_usable o ->
  gens p (operation_len o) (fun n => n = Operation.size o).
Proof.
  intros [Hok Hw]. destruct (fits_written "Operation" (Operation.to_rval o) (Operation.size o))
    as (_ & bs & Hb & Hz); [by apply operation_fits| |].
  { destruct (declared_entry 18 _ _ eq_refl) as (ti & t & He & _). rewrite He. by eexists. }
  unfold operation_len. run (by eapply gens_unwrap with (P := fun x => x = bs)). intros x ->.
  by apply gens_ret.
Qed.

(** The operations made so far, each of the largest size. *)
Definition full_operations (l : list Operation.t) : Prop :=
  Forall (fun o => Operation.ok o /\ zlen (Operation.data o) = OPERATION_MAX_SIZE - 64) l.

Lemma gens_operations_loop rounds : forall l, full_operations l ->
  zlen l <= 8 -> 8 < zlen l + Z.of_nat rounds ->
  gens p (operations_loop rounds l (OPERATION_LIST_MAX_SIZE - 131040 * zlen l))
    (fun l => full_operations l /\ zlen l = 8).
Proof.
  induction rounds as [|rounds IH]; intros l Hl Hz Hr; [lia|]. cbn [operations_loop].
  run (apply gens_operation). intros o [Hok Ho].
  run (by apply gens_operation_len, operation_of_size). intros n ->.
  assert (Es : Operation.size o = 131040) by (unfold Operation.size, OPERATION_MAX_SIZE in *; lia).
  rewrite Es. unfold OPERATION_LIST_MAX_SIZE in *.
  destruct (Z.ltb_spec (1024 * 1024 - 131040 * zlen l) 131040).
  - apply gens_ret. split; [done|]. lia.
  - replace (1024 * 1024 - 131040 * zlen l - 131040) with (1024 * 1024 - 131040 * zlen (l ++ [o]))
      by (rewrite zlen_app; change (zlen [o]) with 1; lia).
    apply IH; rewrite ?zlen_app; change (zlen [o]) with 1; [|lia|lia].
    apply Forall_app. split; [done|]. by constructor.
Qed.

(** The list of operations always has eight. *)
Lemma gens_operations : gens p gen_operations (fun l => full_operations l /\ zlen l = 8).
Proof.
  unfold gen_operations.
  apply (gens_operations_loop OPERATION_ROUNDS []); unfold OPERATION_ROUNDS; [constructor|..];
    change (zlen (@nil Operation.t)) with 0; lia.
Qed.

(** ** Protocols *)
Lemma gens_string_below max : 0 < max <= 2 ^ 32 ->
  gens p (gen_string_below max) (fun s => string_ok s /\ zlen s < max).
Proof.
  intros Hm. unfold gen_string_below. run (apply gens_range; lia). intros n Hn.
  eapply gens_weaken; [apply gens_string; lia|]. intros s [Hs Hz]. split; [done|]. lia.
Qed.

Lemma gens_text max : 0 < max <= 2 ^ 32 -> gens p (gen_string_below max) string_ok.
Proof. intros Hm. eapply gens_weaken; [by apply gens_string_below|]. by intros s []. Qed.

Lemma gens_interface max : 0 < max <= 2 ^ 32 ->
  gens p (s ← gen_string_below max; mret (Some s)) (opt string_ok).
Proof. intros Hm. run (by apply gens_text). intros s Hs. by apply gens_ret. Qed.

Lemma gens_component : gens p gen_component Component.ok.
Proof.
  unfold gen_component. run (by apply gens_text). intros n Hn. gstep. intros w _.
  eapply gens_bind with (P := opt string_ok).
  { apply gens_if; [by apply gens_interface|by apply gens_ret]. }
  intros i Hi. run (by apply gens_text). intros m Hm. by apply gens_ret.
Qed.

Lemma gens_mutate_component c : Component.ok c -> gens p (mutate_component c) Component.ok.
Proof.
  intros (Hn & Hi & Hm). unfold mutate_component. gstep. intros f1 _.
  eapply gens_bind with (P := string_ok).
  { apply gens_if; [by apply gens_text|by apply gens_ret]. }
  intros n Hn'. run (apply gens_range; lia). intros k _. eapply gens_bind with (P := opt string_ok).
  { apply gens_if; [by apply gens_interface|]. apply gens_if; by apply gens_ret. }
  intros i Hi'. gstep. intros f2 _. eapply gens_bind with (P := string_ok).
  { apply gens_if; [by apply gens_text|by apply gens_ret]. }
  intros m Hm'. by apply gens_ret.
Qed.

Lemma gens_component_len c : Component.ok c ->
  gens p (component_len c) (fun n => n = Component.size c).
Proof.
  intros Hok. destruct (fits_written "Component" (Component.to_rval c) (Component.size c))
    as (_ & bs & Hb & Hz); [by apply component_fits| |].
  { destruct (declared_entry 24 _ _ eq_refl) as (ti & t & He & _). rewrite He. by eexists. }
  unfold component_len. run (by eapply gens_unwrap with (P := fun x => x = bs)). intros x ->.
  by apply gens_ret.
Qed.

Lemma gens_components_loop rounds : forall l remaining, 0 <= remaining < 9 * Z.of_nat rounds ->
  gens p (components_loop rounds l remaining) (fun l' => exists new, l' = l ++ new /\
    Forall Component.ok new /\ Protocol.components_size new <= remaining).
Proof.
  induction rounds as [|rounds IH]; intros l remaining Hr; [lia|]. cbn [components_loop].
  run (apply gens_component). intros c Hc. run (by apply gens_component_len). intros n ->.
  pose proof (component_size_pos c). destruct (Z.ltb_spec remaining (Component.size c)).
  - apply gens_ret. exists []. rewrite app_nil_r. split; [done|]. split; [constructor|].
    unfold Protocol.components_size. simpl. lia.
  - eapply gens_weaken; [apply IH; lia|]. intros l' (new & -> & Hall & Hs). exists (c :: new).
    split; [by rewrite <- app_assoc|]. split; [by constructor|].
    unfold Protocol.components_size in *. cbn [map zsum]. lia.
Qed.

Lemma component_rounds_enough : 0 <= PROTOCOL_COMPONENT_MAX_SIZE < 9 * Z.of_nat COMPONENT_ROUNDS.
Proof. unfold COMPONENT_ROUNDS. rewrite Z2Nat.id by by vm_compute. by vm_compute. Qed.

Lemma gens_components : gens p gen_components (fun l =>
  Forall Component.ok l /\ Protocol.components_size l <= PROTOCOL_COMPONENT_MAX_SIZE).
Proof.
  unfold gen_components.
  eapply gens_weaken; [apply gens_components_loop, component_rounds_enough|].
  by intros l (new & -> & Hall & Hs).
Qed.

Lemma gens_mutate_components l : Forall Component.ok l ->
  gens p (mutate_components l) (Forall Component.ok).
Proof.
  induction 1 as [|c l Hc _ IH]; cbn [mutate_components]; [by apply gens_ret|].
  run (by apply gens_mutate_component). intros c' Hc'. run (apply IH). intros l' Hl'.
  apply gens_ret. by constructor.
Qed.

Lemma gens_protocol_message : gens p gen_protocol_message (fun m =>
  Protocol.ok (ProtocolMessage.protocol m) /\
  (p_protocol p = None -> Within.peer (PeerMessage.Protocol m))).
Proof.
  unfold gen_protocol_message. gstep. intros o ->. destruct Hp as (_ & _ & _ & _ & Hpr & _).
  destruct (p_protocol p) as [m|].
  - destruct Hpr as [Hv Hc]. unfold mutate_protocol_message, mutate_protocol.
    eapply gens_bind with (P := Protocol.ok).
    + gstep. intros keep _. eapply gens_bind with (P := in_s 16).
      { apply gens_if; [by apply gens_ret|apply gens_i16]. }
      intros v Hv'. run (by apply gens_mutate_components). intros l Hl. by apply gens_ret.
    + intros q Hq. by apply gens_ret.
  - unfold gen_protocol. eapply gens_bind with (P := fun q => Protocol.ok q /\
      Protocol.components_size (Protocol.components q) <= PROTOCOL_COMPONENT_MAX_SIZE).
    + gstep. intros v Hv. run (apply gens_components). intros l [Hl Hs]. by apply gens_ret.
    + intros q [Hq Hs]. by apply gens_ret.
Qed.

(** ** Operations of blocks *)
Lemma gens_operations_for_block : gens p gen_operations_for_block OperationsForBlock.ok.
Proof.
  unfold gen_operations_for_block. gstep. intros o ->.
  eapply gens_bind with (P := hash_ok BlockHash).
  - pose proof Hp as (Hb & _ & Hh & _). destruct (p_branch p) as [m|].
    + destruct Hb as ([_ [_ Hhist]] & _). set (l := CurrentBranch.history _) in *.
      destruct (Z.ltb_spec 0 (zlen l)); [|apply gens_hash]. run (apply gens_range; lia). intros i Hi.
      destruct (lookup_lt_is_Some_2 l (Z.to_nat i)) as [h Hh']; [unfold zlen in *; lia|]. rewrite Hh'.
      apply gens_ret. by apply (Forall_lookup_1 _ l (Z.to_nat i)).
    + gstep. intros o ->. destruct (p_header p) as [m|].
      * eapply gens_weaken; [apply gens_block_hash, header_small_made, Hh|]. by intros x [].
      * gstep. intros o Eo. destruct o as [m|]; [by apply gens_head_hash|apply gens_hash].
  - intros h Hh. gstep. intros v Hv. by apply gens_ret.
Qed.

Lemma gens_get_operations_for_blocks : gens p gen_get_operations_for_blocks (fun m =>
  GetOperationsForBlocksMessage.ok m /\
  zlen (GetOperationsForBlocksMessage.get_operations_for_blocks m) <=
    GET_OPERATIONS_FOR_BLOCKS_MAX_LENGTH).
Proof.
  unfold gen_get_operations_for_blocks. run (apply gens_range; by vm_compute). intros n Hn.
  run (apply gens_many, gens_operations_for_block). intros l [Hz Hl]. apply gens_ret.
  split; [done|]. cbn [GetOperationsForBlocksMessage.get_operations_for_blocks]. lia.
Qed.

Lemma gens_path : gens p gen_path path_ok.
Proof.
  unfold gen_path. change (default 0 MAX_PASS_MERKLE_DEPTH) with 3.
  run (apply gens_range; lia). intros n Hn. eapply gens_weaken.
  - apply (gens_many p gen_path_item item_ok). unfold gen_path_item.
    run (apply gens_vec; lia). intros h [Hb Hz]. gstep. intros r _. apply gens_ret. by destruct r.
  - intros l [Hz Hl]. split; [done|]. lia.
Qed.

Lemma full_operations_within l : full_operations l -> zlen l = 8 ->
  Forall Operation.ok l /\ Forall operation_within l /\
  OperationsForBlocksMessage.operations_size l <= OPERATION_LIST_MAX_SIZE.
Proof.
  intros Hl Hz. unfold full_operations in Hl. split; [|split].
  - apply (Forall_impl _ _ _ Hl). by intros o [].
  - apply (Forall_impl _ _ _ Hl). intros o []. unfold operation_within. lia.
  - unfold OperationsForBlocksMessage.operations_size.
    assert (Hb : zsum (map (fun o => 4 + Operation.size o) l) <= 131044 * zlen l).
    { apply zsum_bound, (Forall_impl _ _ _ Hl). intros o [_ Ho].
      unfold Operation.size, OPERATION_MAX_SIZE in *. lia. }
    unfold OPERATION_LIST_MAX_SIZE. lia.
Qed.

Lemma gens_operations_for_blocks_message : gens p gen_operations_for_blocks_message (fun m =>
  OperationsForBlocksMessage.ok m /\ Within.peer (PeerMessage.OperationsForBlocks m)).
Proof.
  unfold gen_operations_for_blocks_message. gstep. intros o ->.
  destruct Hp as (_ & _ & _ & _ & _ & Ho). destruct (p_operations p) as [m|].
  - destruct Ho as ((Hb & Hpa & Hl) & Hw & Hs). gstep. intros k1 _.
    eapply gens_bind with (P := OperationsForBlock.ok).
    { apply gens_if; [by apply gens_ret|apply gens_operations_for_block]. }
    intros b Hb'. gstep. intros k2 _. eapply gens_bind with (P := path_ok).
    { apply gens_if; [by apply gens_ret|apply gens_path]. }
    intros q Hq. gstep. intros k3 _.
    eapply gens_bind with (P := fun l => Forall Operation.ok l /\ Forall operation_within l /\
      OperationsForBlocksMessage.operations_size l <= OPERATION_LIST_MAX_SIZE).
    { apply gens_if; [by apply gens_ret|]. eapply gens_weaken; [apply gens_operations|].
      intros l [Hl' Hz]. by apply full_operations_within. }
    intros l (Hl1 & Hl2 & Hl3). by apply gens_ret.
  - run (apply gens_operations_for_block). intros b Hb. run (apply gens_path). intros q Hq.
    run (apply gens_operations). intros l [Hl Hz].
    destruct (full_operations_within l Hl Hz) as (Hl1 & Hl2 & Hl3). by apply gens_ret.
Qed.

(** ** The handshake *)
Lemma gens_version : gens p gen_network_version (fun v =>
  NetworkVersion.ok v /\ zlen (NetworkVersion.chain_name v) <= CHAIN_NAME_MAX_LENGTH).
Proof.
  unfold gen_network_version. run (apply gens_range; by vm_compute). intros n Hn.
  unfold CHAIN_NAME_MAX_LENGTH in *. run (apply gens_string; lia). intros s [Hs Hz].
  gstep. intros d Hd. gstep. intros q Hq. apply gens_ret. split; [done|].
  cbn [NetworkVersion.chain_name]. lia.
Qed.

Definition key_ok (n : Z) (k : bytes) : Prop := are_bytes k /\ zlen k = n.

Lemma gens_public_key : gens p gen_public_key (key_ok 32).
Proof.
  unfold gen_public_key. run (apply gens_vec; by vm_compute). intros k [Hk Hz].
  eapply gens_unwrap; [|exact (conj Hk Hz)]. unfold ensure_crypto_key_bytes.
  change (Z.max 0 CRYPTO_KEY_SIZE) with CRYPTO_KEY_SIZE in Hz. by rewrite Hz.
Qed.

Lemma gens_pow `{!HexEncode} : gens p gen_proof_of_work (key_ok 24).
Proof.
  unfold gen_proof_of_work. run (apply gens_vec; by vm_compute). intros k [Hk Hz].
  eapply gens_unwrap; [|exact (conj Hk Hz)]. unfold pow_from_hex. rewrite hex_decode_encode by done.
  change (Z.max 0 Pow.POW_SIZE) with Pow.POW_SIZE in Hz. by rewrite Hz.
Qed.

Lemma gens_motive : gens p gen_motive (fun _ => True).
Proof. unfold gen_motive. run (apply gens_range; lia). intros n _. by apply gens_ret. Qed.

Lemma gens_nack : gens p gen_nack (fun i => NackInfo.ok i /\
  points_within NACK_PEERS_MAX_LENGTH (NackInfo.potential_peers_to_connect i)).
Proof.
  unfold gen_nack. run (apply gens_motive). intros m _. run (apply gens_range; by vm_compute).
  intros n Hn. run (apply gens_many, gens_string_below; by vm_compute). intros l [Hz Hl]. apply gens_ret.
  unfold NackInfo.ok, points_within. cbn [NackInfo.potential_peers_to_connect].
  split; [by apply (Forall_impl _ _ _ Hl); intros s []|]. split; [lia|].
  apply (Forall_impl _ _ _ Hl). intros s [_ Hs]. unfold P2P_POINT_MAX_LENGTH in Hs. lia.
Qed.

Lemma gens_ack : gens p gen_ack ack_within.
Proof.
  unfold gen_ack. run (apply gens_range; lia). intros n _. apply gens_if; [by apply gens_ret|].
  apply gens_if; [by apply gens_ret|]. run (apply gens_nack). intros i Hi. by apply gens_ret.
Qed.

Lemma gens_metadata : gens p gen_metadata (fun _ => True).
Proof. unfold gen_metadata. gstep. intros a _. gstep. intros b _. by apply gens_ret. Qed.
End Makes.
