(* ===== verification/PeerFuzz.v ===== *)
(** * The P2P fuzzer ([p2p_fuzzer/src/bin/p2p_fuzzer.rs])

    A session of the fuzzer with a peer: the handshake, the replies to what the
    peer sends, and the bursts of generated messages.  [Conn] is what a session
    works on once it is connected: the generator, the socket with its buffer, the
    key and the two nonces.  A computation over it gives a value, or stops with an
    error or a panic and the generator as it was left, because a worker starts its
    next session with it ([PeerWorker.v]).  Sleeping and the
    calls of [eprintln!] are left out; the socket, the key exchange, the parser of
    addresses and the configuration files are classes. *)

From Stdlib Require Import ZArith Lia List Bool String.
From stdpp Require Import base option list numbers strings gmap.
From S2P Require Import Prelude Extern BitUtils CryptoHash Nonce Types Serializer BinaryWriter WriterSpec NomCrate NomReader DeriveMake Derive RoundTrip DerivedCodec MerklePath Messages BinaryMessage ExternRef Zarith ChunkStream PublicKeys MessageFits MessageTypes MessageRead Generator GeneratorFacts.

Set Warnings "-register-all".

(** ** Third-party code *)

(** [TcpSocket]: creation with its options, [bind] and [connect]; [None] is an I/O
    error.  [parse_peer] is [str::parse] at [SocketAddr]. *)
Class TcpSocket `{TcpCrate} : Type := {
  tcp_socket : Type;
  tcp_new_v4 : option tcp_socket;
  tcp_bind : SocketAddr -> tcp_socket -> option tcp_socket;
  parse_peer : bytes -> option SocketAddr;
  tcp_connect : SocketAddr -> tcp_socket -> option stream;
}.

(** [box_::precompute]. *)
Class KeyExchange : Type := {
  precompute : bytes -> bytes -> bytes;
  precompute_size pk sk : zlen (precompute pk sk) = 32;
}.

(** ** Options *)
Section Options.
Context `{RandCrate}.

Record HandshakeOptions : Type := mkHandshakeOptions {
  hs_chunk_options : ChunkOptions;
  abort_before_connect : f64;
  connect_sleep : f64;
  connect_sleep_ms : Z;
  connect_msg_sleep : f64;
  connect_msg_sleep_ms : Z;
  fuzz_public_key : f64;
  fuzz_pow : f64;
  fuzz_network_version : f64;
  abort_before_metadata : f64;
  metadata_msg_sleep : f64;
  metadata_msg_sleep_ms : Z;
  recv_metadata : f64;
  fuzz_metadata : f64;
  abort_before_ack : f64;
  ack_msg_sleep : f64;
  ack_msg_sleep_ms : Z;
  fuzz_ack : f64;
  recv_ack : f64;
}.

Record PeerMessageReplyOptions : Type := mkReplyOptions {
  on_bootstrap : f64;
  on_get_current_head : f64;
  on_get_current_branch : f64;
  on_get_block_headers : f64;
  on_get_operations_for_blocks : f64;
}.

Record PeerMessageOptions : Type := mkPeerMessageOptions {
  chunk_options : ChunkOptions;
  messages_per_chunk : Z;
  push_messages : list string;
  max_push_throughput : Z;
  reply_options : option PeerMessageReplyOptions;
}.

Record Profile : Type := mkProfile {
  peer : bytes;
  prng_seed : Z;
  profile_max_chunk_size : Z;
  threads : Z;
  handshake_fuzzing : option HandshakeOptions;
  peer_message_fuzzing : option PeerMessageOptions;
}.
End Options.

(** [tezos_identity::Identity], the fields that are used. *)
Record Identity : Type := mkIdentity {
  public_key : bytes; secret_key : bytes; proof_of_work_stamp : bytes;
}.

Section Session.
Context `{RandValues, IterOrder, Sodium, BytesCrate, BitVecCrate, HexCrate, UnicodeTables, BigIntCrate, NomCrate, SynCrate}.
Context `{BigUintCrate, BoxCrate, !HexEncode, TcpCrate, !TcpSocket, KeyExchange}.

Record Conn : Type := mkConn {
  c_gen : RandomState;
  c_stream : stream;
  c_buffer : ChunkBuffer.t;
  c_key : bytes;
  c_local : Nonce.t;
  c_remote : Nonce.t;
}.

Definition F (A : Type) : Type := Conn -> result (stop * RandomState) (A * Conn).

(** What stops without touching the generator [g]. *)
Definition at_gen {A} (g : RandomState) (m : result stop A) : result (stop * RandomState) A :=
  map_err (fun e => (e, g)) m.
(** A write that stops has drawn from the generator. *)
Definition at_write {A} (g : RandomState) (m : result (stop * rng) A) : result (stop * RandomState) A :=
  map_err (fun er => (er.1, with_rng er.2 g)) m.

#[global] Instance F_ret : MRet F := fun A a c => Ok (a, c).
#[global] Instance F_bind : MBind F := fun A B f m c =>
  match m c with Ok (a, c) => f a c | Err e => Err e end.

Definition stop_with {A} (e : stop) : F A := fun c => Err (e, c_gen c).

(** A method of the generator. *)
Definition on_gen {A} (m : G A) : F A := fun c =>
  match m (c_gen c) with
  | Ok (a, g) => Ok (a, mkConn g (c_stream c) (c_buffer c) (c_key c) (c_local c) (c_remote c))
  | Err e => Err (e, c_gen c)
  end.

(** [write_bytes_encrypted], [write_msg] and [read_msg] on the session. *)
Definition send_encrypted (options : ChunkOptions) (bs : bytes) : F unit := fun c =>
  nrs ← at_write (c_gen c) (write_bytes_encrypted (max_chunk_size (c_gen c)) options bs (c_key c) (c_local c)
          (rng_state (c_gen c)) (c_stream c));
  Ok (tt, mkConn (with_rng nrs.1.2 (c_gen c)) nrs.2 (c_buffer c) (c_key c) nrs.1.1 (c_remote c)).

Definition send_msg (options : ChunkOptions) (name : string) (msg : rval) : F unit := fun c =>
  nrs ← at_write (c_gen c) (write_msg (max_chunk_size (c_gen c)) options (impl_of name) msg (c_key c) (c_local c)
          (rng_state (c_gen c)) (c_stream c));
  Ok (tt, mkConn (with_rng nrs.1.2 (c_gen c)) nrs.2 (c_buffer c) (c_key c) nrs.1.1 (c_remote c)).

Definition receive (fuel : nat) (name : string) (peer_message : bool) : F rval := fun c =>
  r ← at_gen (c_gen c) (read_msg fuel (impl_of name) (c_key c) peer_message (c_buffer c) (c_remote c) (c_stream c));
  let '(v, b, nonce, s) := (r : rval * ChunkBuffer.t * Nonce.t * stream) in
  Ok (v, mkConn (c_gen c) s b (c_key c) (c_local c) nonce).

(** ** [fuzz_peer_messages] *)

(** [generator.gen()] at the type the name stands for. *)
Definition gen_named (name : string) : G PeerMessage.t :=
  (if String.eqb name "Disconnect" then mret PeerMessage.Disconnect
   else if String.eqb name "Bootstrap" then mret PeerMessage.Bootstrap
   else if String.eqb name "Advertise" then m ← gen; mret (PeerMessage.Advertise m)
   else if String.eqb name "SwapRequest" then m ← gen; mret (PeerMessage.SwapRequest m)
   else if String.eqb name "SwapAck" then m ← gen; mret (PeerMessage.SwapAck m)
   else if String.eqb name "GetCurrentBranch" then m ← gen; mret (PeerMessage.GetCurrentBranch m)
   else if String.eqb name "CurrentBranch" then m ← gen; mret (PeerMessage.CurrentBranch m)
   else if String.eqb name "Deactivate" then m ← gen; mret (PeerMessage.Deactivate m)
   else if String.eqb name "GetCurrentHead" then m ← gen; mret (PeerMessage.GetCurrentHead m)
   else if String.eqb name "CurrentHead" then m ← gen; mret (PeerMessage.CurrentHead m)
   else if String.eqb name "GetBlockHeaders" then m ← gen; mret (PeerMessage.GetBlockHeaders m)
   else if String.eqb name "BlockHeader" then m ← gen; mret (PeerMessage.BlockHeader m)
   else if String.eqb name "GetOperations" then m ← gen; mret (PeerMessage.GetOperations m)
   else if String.eqb name "Operation" then m ← gen; mret (PeerMessage.Operation m)
   else if String.eqb name "GetProtocols" then m ← gen; mret (PeerMessage.GetProtocols m)
   else if String.eqb name "Protocol" then m ← gen; mret (PeerMessage.Protocol m)
   else if String.eqb name "GetOperationsForBlocks"
        then m ← gen; mret (PeerMessage.GetOperationsForBlocks m)
   else if String.eqb name "OperationsForBlocks" then m ← gen; mret (PeerMessage.OperationsForBlocks m)
   else panic)%string.

(** [PeerMessageResponse::from(msg).as_bytes().unwrap()]. *)
Definition response_bytes (m : PeerMessage.t) : G bytes :=
  unwrap (as_bytes (impl_of "PeerMessageResponse")
            (PeerMessageResponse.to_rval (PeerMessageResponse.from m))).

(** One message of a batch. *)
Definition gen_push (messages : list string) : G bytes :=
  index ← gen_range 0 (zlen messages);
  match messages !! Z.to_nat index with
  | Some name => m ← gen_named name; response_bytes m
  | None => panic
  end.

(** [for _ in 0..messages_per_chunk]. *)
Definition gen_batch (messages : list string) (count : Z) : G bytes :=
  bs ← gen_many count (gen_push messages); mret (concat bs).

Fixpoint push_loop (fuel : nat) (options : PeerMessageOptions) (remaining : Z) : F unit :=
  match fuel with
  | O => stop_with OutOfFuel
  | S fuel =>
      if remaining <? messages_per_chunk options then mret tt
      else
        batch ← on_gen (gen_batch (push_messages options) (messages_per_chunk options));
        _ ← send_encrypted (chunk_options options) batch;
        push_loop fuel options (remaining - messages_per_chunk options)
  end.

(** [max_push_throughput + 1] wraps. *)
Definition fuzz_peer_messages (fuel : nat) (options : PeerMessageOptions) : F unit :=
  remaining ← on_gen (gen_range 1 (uwrap 64 (max_push_throughput options + 1)));
  push_loop fuel options remaining.

(** ** [handle_response] *)
Definition reply (options : PeerMessageOptions) (m : PeerMessage.t) : F unit :=
  send_msg (chunk_options options) "PeerMessageResponse"
    (PeerMessageResponse.to_rval (PeerMessageResponse.from m)).

Fixpoint reply_headers (options : PeerMessageOptions) (hashes : list bytes) : F unit :=
  match hashes with
  | [] => mret tt
  | h :: hashes =>
      msg ← on_gen (get_block h);
      _ ← match msg with
          | Some m => reply options (PeerMessage.BlockHeader m)
          | None => mret tt
          end;
      reply_headers options hashes
  end.

Fixpoint reply_operations (options : PeerMessageOptions) (l : list OperationsForBlock.t) : F unit :=
  match l with
  | [] => mret tt
  | o :: l =>
      path ← on_gen gen;
      operations ← on_gen gen;
      _ ← reply options (PeerMessage.OperationsForBlocks (OperationsForBlocksMessage.mk o path operations));
      reply_operations options l
  end.

(** [if generator.gen_bool(p) { .. }]. *)
Definition with_probability (p : f64) (m : F unit) : F unit :=
  b ← on_gen (gen_bool p); if (b : bool) then m else mret tt.

Definition respond (options : PeerMessageOptions) (ro : PeerMessageReplyOptions) (m : PeerMessage.t)
  : F unit :=
  match m with
  | PeerMessage.Bootstrap =>
      with_probability (on_bootstrap ro)
        (m ← on_gen gen; reply options (PeerMessage.Advertise m))
  | PeerMessage.GetCurrentHead m =>
      _ ← on_gen (set_chain_id (GetCurrentHeadMessage.chain_id m));
      with_probability (on_get_current_head ro)
        (m ← on_gen gen; reply options (PeerMessage.CurrentHead m))
  | PeerMessage.GetCurrentBranch m =>
      _ ← on_gen (set_chain_id (GetCurrentBranchMessage.chain_id m));
      with_probability (on_get_current_branch ro)
        (m ← on_gen gen; reply options (PeerMessage.CurrentBranch m))
  | PeerMessage.GetBlockHeaders m =>
      with_probability (on_get_block_headers ro)
        (reply_headers options (GetBlockHeadersMessage.get_block_headers m))
  | PeerMessage.GetOperationsForBlocks m =>
      with_probability (on_get_operations_for_blocks ro)
        (reply_operations options (GetOperationsForBlocksMessage.get_operations_for_blocks m))
  | PeerMessage.CurrentBranch m => on_gen (set_current_branch m)
  | PeerMessage.CurrentHead m =>
      _ ← on_gen (set_chain_id (CurrentHeadMessage.chain_id m));
      on_gen (set_current_head m)
  | PeerMessage.BlockHeader m => on_gen (set_block_header m)
  | PeerMessage.Operation m => on_gen (set_operation m)
  | PeerMessage.Protocol m => on_gen (set_protocol m)
  | PeerMessage.OperationsForBlocks m => on_gen (set_operations_for_blocks m)
  | _ => mret tt
  end.

(** What is read from a slice of bytes is always the [rval] of a message
    ([received_message] of [PeerFuzzFacts]). *)
Definition handle_response (fuel : nat) (options : PeerMessageOptions) : F unit :=
  match reply_options options with
  | None => mret tt
  | Some ro =>
      v ← receive fuel "PeerMessageResponse" true;
      match response_of v with
      | Some m => respond options ro m
      | None => stop_with StopPanicked
      end
  end.

(** ** [fuzz] *)

(** The options of a profile without [handshake_fuzzing]. *)
Definition default_chunk_options : ChunkOptions :=
  mkChunkOptions p_0_01 p_0_01 p_0_01 p_0_01 p_0_01 20000.
Definition default_handshake : HandshakeOptions :=
  mkHandshakeOptions default_chunk_options p_0_01 p_0_01 20000 p_0_01 20000 p_0_01 p_0_01 p_0_01
    p_0_01 p_0_01 20000 p_0_9 p_0_01 p_0_01 p_0_01 20000 p_0_01 p_0_9.

(** The rounds of replies and bursts; only an error ends them. *)
Fixpoint exchange (rounds fuel : nat) (options : PeerMessageOptions) : F unit :=
  match rounds with
  | O => stop_with OutOfFuel
  | S rounds =>
      _ ← handle_response fuel options;
      _ ← fuzz_peer_messages fuel options;
      exchange rounds fuel options
  end.

(** The first message, sent in clear. *)
Definition gen_connection_message (options : HandshakeOptions) (identity : Identity)
  : G ConnectionMessage.t :=
  fuzz ← gen_bool (fuzz_network_version options);
  version ← (if (fuzz : bool) then gen else mret (NetworkVersion.mk (lit "TEZOS_MAINNET") 0 1));
  fuzz ← gen_bool (fuzz_public_key options);
  public_key ← (if (fuzz : bool) then gen_public_key else mret (public_key identity));
  fuzz ← gen_bool (fuzz_pow options);
  pow ← (if (fuzz : bool) then gen_proof_of_work else mret (proof_of_work_stamp identity));
  port ← gen_u16;
  nonce ← gen;
  unwrap (connection_try_new port public_key pow nonce version).

(** The [ConnectionMessage] of the peer: [from_bytes(..).unwrap()] and its key. *)
Definition public_key_of (v : rval) : option bytes :=
  match v with RStruct [_; (_, k); _; _; _] => bytes_of k | _ => None end.

(** From the peer's message to the last acknowledgement. *)
Definition finish_handshake (fuel : nat) (options : HandshakeOptions) : F unit :=
  fuzz ← on_gen (gen_bool (fuzz_metadata options));
  metadata ← (if (fuzz : bool) then on_gen gen else mret (MetadataMessage.mk false false));
  _ ← send_msg (hs_chunk_options options) "MetadataMessage" (MetadataMessage.to_rval metadata);
  recv ← on_gen (gen_bool (recv_metadata options));
  _ ← (if (recv : bool) then _ ← receive fuel "MetadataMessage" false; mret tt else mret tt);
  mret tt.

Definition acknowledge (fuel : nat) (options : HandshakeOptions) : F unit :=
  _ ← on_gen (gen_bool (metadata_msg_sleep options));
  fuzz ← on_gen (gen_bool (fuzz_ack options));
  ack ← (if (fuzz : bool) then
           old ← on_gen (gen_bool p_0_5);
           if (old : bool) then mret NackV0 else i ← on_gen gen; mret (Nack i)
         else mret Ack);
  _ ← send_msg (hs_chunk_options options) "AckMessage" (ack_rval ack);
  _ ← on_gen (gen_bool (ack_msg_sleep options));
  recv ← on_gen (gen_bool (recv_ack options));
  if (recv : bool) then _ ← receive fuel "AckMessage" false; mret tt else mret tt.

(** Everything after the connection message is sent as [initiator]. *)
Definition connected (fuel : nat) (profile : Profile) (options : HandshakeOptions) (identity : Identity)
  (initiator : BinaryChunk) (g : RandomState) (s : stream) : result (stop * RandomState) RandomState :=
  cbs ← at_gen g (ChunkBuffer.read_chunk fuel 0 ChunkBuffer.default s);
  let '(responder, buffer, s) := (cbs : BinaryChunk * ChunkBuffer.t * stream) in
  let panicked := (StopPanicked, g) in
  v ← map_err (fun _ => panicked) (from_bytes (impl_of "ConnectionMessage") (content responder));
  pk ← ok_or (public_key_of v) panicked;
  pk ← map_err (fun _ => panicked) (ensure_crypto_key_bytes pk);
  nonces ← map_err (fun _ => panicked) (generate_nonces (raw initiator) (raw responder) false);
  let c := mkConn g s buffer (precompute pk (secret_key identity)) (local nonces) (remote nonces) in
  uc ← finish_handshake fuel options c;
  ac ← on_gen (gen_bool (abort_before_ack options)) uc.2;
  if (ac.1 : bool) then Ok (c_gen ac.2)
  else
    kc ← acknowledge fuel options ac.2;
    match peer_message_fuzzing profile with
    | Some pm => ec ← exchange fuel fuel pm kc.2; Ok (c_gen ec.2)
    | None => Ok (c_gen kc.2)
    end.

(** The local address: [172.28.x.y], any port from 2000. *)
Definition gen_local_address : G SocketAddr :=
  x ← gen_range 0 255; y ← gen_range 2 255; port ← gen_range 2000 0xffff;
  mret (mkSocketAddr (V4 172 28 x y) port).

(** A session: the generator's state afterwards, also when it stops. *)
Definition fuzz (fuel : nat) (identities : list Identity) (profile : Profile) (g : RandomState)
  : result (stop * RandomState) RandomState :=
  let options := default default_handshake (handshake_fuzzing profile) in
  socket ← at_gen g (ok_or tcp_new_v4 IoError);
  ag ← at_gen g (gen_local_address g);
  let g := ag.2 in
  socket ← at_gen g (ok_or (tcp_bind ag.1 socket) IoError);
  to ← at_gen g (ok_or (parse_peer (peer profile)) StopPanicked);
  s ← at_gen g (ok_or (tcp_connect to socket) IoError);
  ig ← at_gen g (gen_range 0 (zlen identities) g);
  let g := ig.2 in
  identity ← at_gen g (ok_or (identities !! Z.to_nat ig.1) StopPanicked);
  ab ← at_gen g (gen_bool (abort_before_connect options) g);
  let g := ab.2 in
  if (ab.1 : bool) then Ok g
  else
    sl ← at_gen g (gen_bool (connect_sleep options) g);
    let g := sl.2 in
    mg ← at_gen g (gen_connection_message options identity g);
    let g := mg.2 in
    bs ← at_gen g (map_err (fun _ => StopPanicked)
           (as_bytes (impl_of "ConnectionMessage") (ConnectionMessage.to_rval mg.1)));
    initiator ← at_gen g (map_err (fun _ => StopPanicked) (from_content bs));
    rs ← at_write g (write_bytes (hs_chunk_options options) (raw initiator) (rng_state g) s);
    let g := with_rng rs.1 g in
    ab ← at_gen g (gen_bool (abort_before_metadata options) g);
    let g := ab.2 in
    if (ab.1 : bool) then Ok g
    else
      sl ← at_gen g (gen_bool (connect_msg_sleep options) g);
      connected fuel profile options identity initiator sl.2 rs.2.

(** ** [worker]: its generator, seeded by the task number, with no room for blocks. *)
Definition worker_state `{Base58Crate} (profile : Profile) (task_id : Z) : result stop RandomState :=
  new (uwrap 64 (prng_seed profile * task_id)) 0 (profile_max_chunk_size profile).
End Session.

(** Sockets that connect at once, and a constant key. *)
#[export] Instance reference_socket : TcpSocket :=
  {| tcp_socket := unit; tcp_new_v4 := Some tt; tcp_bind _ s := Some s;
     parse_peer _ := Some (mkSocketAddr (V4 127 0 0 1) 9732); tcp_connect _ _ := Some (socket []) |}.

#[export] Instance reference_exchange : KeyExchange.
Proof. by refine {| precompute _ _ := repeat 0 32 |}. Defined.
