(* ===== verification/PeerFuzzFacts.v ===== *)
(** * What the fuzzer sends and what stops it
    ([p2p_fuzzer/src/bin/p2p_fuzzer.rs], [generator/src/lib.rs])

    Every message the fuzzer can push is generated without a panic, has the type
    of its declaration and is written within the limits, as long as what the peer
    has sent leaves room for mutation; a burst is sent whatever is fuzzed on the way,
    or stops at a message that cannot be written.  The exceptions are theorems too:
    what a peer can send to make the fuzzer panic, a configuration under which a
    burst never ends, and requests that are never answered. *)

From Stdlib Require Import ZArith Lia List Bool String.
From stdpp Require Import base option list numbers strings gmap.
From S2P Require Import Prelude Extern BitUtils CryptoHash Nonce Types Serializer BinaryWriter WriterSpec NomCrate NomReader DeriveMake Derive RoundTrip DerivedCodec MerklePath Messages Canonical BinaryMessage ExternRef Zarith ChunkStream PublicKeys MessageFits MessageTypes MessageRead Generator GeneratorFacts PeerFuzz.

Set Warnings "-register-all".

(** The names [push_messages] may hold. *)
Definition message_names : list string :=
  ["Disconnect"; "Bootstrap"; "Advertise"; "SwapRequest"; "SwapAck"; "GetCurrentBranch";
   "CurrentBranch"; "Deactivate"; "GetCurrentHead"; "CurrentHead"; "GetBlockHeaders"; "BlockHeader";
   "GetOperations"; "Operation"; "GetProtocols"; "Protocol"; "GetOperationsForBlocks";
   "OperationsForBlocks"]%string.

(** Names whose messages are within the limits: heads and protocols of the peer
    are mutated without regard to their size. *)
Definition sized_names (p : Peers) (name : string) : Prop :=
  name ∈ message_names /\ (name = "CurrentHead"%string -> p_head p = None) /\
  (name = "Protocol"%string -> p_protocol p = None).

Section Named.
Context `{RandValues, IterOrder, Sodium, BytesCrate, BitVecCrate, HexCrate, UnicodeTables, BigIntCrate, NomCrate, SynCrate}.
Context (p : Peers) (Hp : peers_usable p).

(** [m ← gen; mret (V m)]. *)
Lemma gens_wrap {A B} (g : G A) (f : A -> B) (P : A -> Prop) (Q : B -> Prop) :
  gens p g P -> (forall a, P a -> Q (f a)) -> gens p (m ← g; mret (f m)) Q.
Proof. intros Hg HQ. eapply gens_bind; [exact Hg|]. intros a Ha. apply gens_ret. auto. Qed.

Definition named_ok (name : string) (m : PeerMessage.t) : Prop :=
  PeerMessage.ok m /\ (sized_names p name -> Within.peer m).

Lemma gens_named name : name ∈ message_names -> gens p (gen_named name) (named_ok name).
Proof.
  intros Hn. unfold named_ok, message_names in *.
  repeat (apply elem_of_cons in Hn as [->|Hn]); [..|by apply not_elem_of_nil in Hn];
    unfold gen_named; cbn [String.eqb Ascii.eqb Bool.eqb]; unfold gen.
  - by apply gens_ret.
  - by apply gens_ret.
  - eapply gens_wrap; [by apply gens_advertise|]. by intros m [].
  - eapply gens_wrap; [by apply gens_swap|]. by intros m [].
  - eapply gens_wrap; [by apply gens_swap|]. by intros m [].
  - eapply gens_wrap; [eapply gens_wrap; [by apply gens_chain_id|]|]; [|].
    + intros c Hc. exact (Hc : GetCurrentBranchMessage.ok (GetCurrentBranchMessage.mk c)).
    + by intros m Hm.
  - eapply gens_wrap; [by apply gens_branch_message|]. by intros m [].
  - eapply gens_wrap; [eapply gens_wrap; [by apply gens_chain_id|]|]; [|].
    + intros c Hc. exact (Hc : DeactivateMessage.ok (DeactivateMessage.mk c)).
    + by intros m Hm.
  - eapply gens_wrap; [eapply gens_wrap; [by apply gens_chain_id|]|]; [|].
    + intros c Hc. exact (Hc : GetCurrentHeadMessage.ok (GetCurrentHeadMessage.mk c)).
    + by intros m Hm.
  - eapply gens_wrap; [by apply gens_current_head|]. intros m (Hok & Hw & Hmp). split; [done|].
    intros (_ & Hnone & _). split; [done|]. auto.
  - eapply gens_wrap; [by apply gens_get_block_headers|]. by intros m [].
  - eapply gens_wrap; [by apply gens_header_message|]. by intros m [].
  - eapply gens_wrap; [by apply gens_get_ops|]. by intros m [].
  - eapply gens_wrap; [by apply gens_operation_message|]. by intros m [].
  - eapply gens_wrap; [by apply gens_get_protocols|]. by intros m [].
  - eapply gens_wrap; [by apply gens_protocol_message|]. intros m [Hok Hw]. split; [done|].
    intros (_ & _ & Hnone). apply Hw. auto.
  - eapply gens_wrap; [by apply gens_get_operations_for_blocks|]. by intros m [].
  - eapply gens_wrap; [by apply gens_operations_for_blocks_message|]. by intros m [].
Qed.

(** The bytes of a message that is within the limits. *)
Lemma response_within m : PeerMessage.ok m -> Within.peer m ->
  exists bs, as_bytes (impl_of "PeerMessageResponse")
    (PeerMessageResponse.to_rval (PeerMessageResponse.from m)) = Ok bs.
Proof. intros Hok Hw. destruct (peer_written m Hok Hw) as (_ & bs & Hb & _). by exists bs. Qed.

Lemma response_size v bs : as_bytes (impl_of "PeerMessageResponse") v = Ok bs ->
  zlen bs <= MESSAGE_MAX_SIZE + 4.
Proof.
  intros Hb. destruct (declared_entry 29 "PeerMessageResponse" _ eq_refl) as (ti & t & He & _).
  unfold impl_of in Hb. rewrite He in Hb. destruct (peer_response_bytes ti t v bs He Hb) as (cs & -> & _ & Hm).
  rewrite zlen_app, zlen_be_bytes. lia.
Qed.

(** ** Batches of messages *)
Context (messages : list string) (Hne : messages <> []) (Hall : Forall (fun n => n ∈ message_names) messages).

(** The message that would come next from [s] cannot be written: it is a current
    head or a protocol, made after the peer has sent one. *)
Definition refused_push (s : RandomState) : Prop :=
  exists index s1 name m s2,
    gen_range 0 (zlen messages) s = Ok (index, s1) /\ messages !! Z.to_nat index = Some name /\
    gen_named name s1 = Ok (m, s2) /\
    (name = "CurrentHead" /\ p_head p <> None \/ name = "Protocol" /\ p_protocol p <> None)%string /\
    forall bs, as_bytes (impl_of "PeerMessageResponse")
      (PeerMessageResponse.to_rval (PeerMessageResponse.from m)) <> Ok bs.

(** One of the [count] messages of the batch begun with [g] cannot be written. *)
Definition refused_batch (count : Z) (g : RandomState) : Prop :=
  exists k before s, 0 <= k < count /\ gen_many k (gen_push messages) g = Ok (before, s) /\ refused_push s.

Lemma unsized_name name : name ∈ message_names -> ~ sized_names p name ->
  (name = "CurrentHead" /\ p_head p <> None \/ name = "Protocol" /\ p_protocol p <> None)%string.
Proof.
  intros Hn Hs. destruct (decide (name = "CurrentHead"%string)) as [->|]; [left|right].
  - split; [done|]. intros Hh. by apply Hs.
  - destruct (decide (name = "Protocol"%string)) as [->|]; [|by destruct Hs].
    split; [done|]. intros Hh. by apply Hs.
Qed.

Lemma sized_not_refused count g : Forall (sized_names p) messages -> ~ refused_batch count g.
Proof.
  intros Hs (k & before & s & _ & _ & i & s1 & name & m & s2 & _ & Hi & _ & Hn & _).
  destruct (Forall_lookup_1 _ _ _ _ Hs Hi) as (_ & Hh & Hpr). destruct Hn as [[-> Hx]|[-> Hx]]; [by apply Hx, Hh|by apply Hx, Hpr].
Qed.

(** A message is pushed or refused. *)
Lemma push_or_refused s : sound p s ->
  (exists bs s', gen_push messages s = Ok (bs, s') /\ sound p s' /\ zlen bs <= MESSAGE_MAX_SIZE + 4) \/
  gen_push messages s = Err StopPanicked /\ refused_push s.
Proof.
  intros Hs. unfold gen_push, mbind, G_bind.
  assert (0 < zlen messages) by (destruct messages; [done|rewrite zlen_cons; pose proof (zlen_nonneg l); lia]).
  destruct (gens_range p 0 (zlen messages) ltac:(lia) s Hs) as (i & s1 & Ei & Hs1 & Hi). rewrite Ei.
  destruct (lookup_lt_is_Some_2 messages (Z.to_nat i)) as [name Hname]; [unfold zlen in *; lia|].
  rewrite Hname. pose proof (Forall_lookup_1 _ _ _ _ Hall Hname) as Hn. cbv beta in Hn.
  destruct (gens_named name Hn s1 Hs1) as (m & s2 & Em & Hs2 & Hok & Hw). rewrite Em. unfold response_bytes.
  destruct (as_bytes _ _) as [bs|e] eqn:Eb; cbn [unwrap].
  - left. exists bs, s2. split; [done|]. split; [done|]. by eapply response_size.
  - right. split; [done|]. exists i, s1, name, m, s2. split; [done|]. split; [done|]. split; [done|].
    rewrite Eb. split; [|done]. apply (unsized_name name Hn). intros Hsz.
    destruct (response_within m Hok (Hw Hsz)) as [bs Hb]. by rewrite Hb in Eb.
Qed.

Lemma many_or_refused n : forall s, sound p s ->
  (exists l s', repeat_gen n (gen_push messages) s = Ok (l, s') /\ sound p s' /\
     zlen (concat l) <= Z.of_nat n * (MESSAGE_MAX_SIZE + 4)) \/
  repeat_gen n (gen_push messages) s = Err StopPanicked /\ refused_batch (Z.of_nat n) s.
Proof.
  induction n as [|n IH]; intros s Hs; cbn [repeat_gen]; [left; by exists [], s|].
  unfold mbind, G_bind. destruct (push_or_refused s Hs) as [(bs & s1 & E & Hs1 & Hz)|[E Hr]]; rewrite E.
  2:{ right. split; [done|]. exists 0, [], s. split; [lia|]. by split. }
  destruct (IH s1 Hs1) as [(l & s2 & E2 & Hs2 & Hl)|[E2 (k & before & s2 & Hk & Eb & Hr)]]; rewrite E2.
  - left. exists (bs :: l), s2. split; [done|]. split; [done|]. cbn [concat]. rewrite zlen_app. lia.
  - right. split; [done|]. exists (Z.succ k), (bs :: before), s2. split; [lia|]. split; [|done].
    unfold gen_many in *. rewrite Z2Nat.inj_succ by lia. cbn [repeat_gen]. unfold mbind, G_bind.
    by rewrite E, Eb.
Qed.

Lemma batch_or_refused count s : 0 <= count -> sound p s ->
  (exists batch s', gen_batch messages count s = Ok (batch, s') /\ sound p s' /\
     zlen batch <= count * (MESSAGE_MAX_SIZE + 4)) \/
  gen_batch messages count s = Err StopPanicked /\ refused_batch count s.
Proof.
  intros Hc Hs. unfold gen_batch, gen_many, mbind, G_bind.
  destruct (many_or_refused (Z.to_nat count) s Hs) as [(l & s' & E & Hs' & Hl)|[E Hr]]; rewrite E;
    rewrite Z2Nat.id in * by lia; [left|by right].
  by exists (concat l), s'.
Qed.
End Named.

(** ** Reference implementations *)
#[export] Instance reference_values : RandValues.
Proof.
  refine {| seed_from_u64 := fun _ => tt : @rng reference_rand;
            p_0_01 := false; p_0_1 := false; p_0_5 := false; p_0_9 := true;
            rng_u8 r := (7, r); rng_i8 r := (7, r); rng_u16 r := (7, r); rng_i16 r := (7, r);
            rng_i32 r := (7, r); rng_i64 r := (7, r); rng_char r := (65, r) |};
    try (intros r; unfold in_u, in_s; cbn; lia).
  intros q r _. by eexists.
Defined.

#[export] Instance reference_order : IterOrder.
Proof.
  refine {| first_key := fun A m => fst <$> head (map_to_list m) |}.
  - intros A m k Hk. destruct (map_to_list m) as [|[k' v] l] eqn:E; [done|]. injection Hk as <-.
    exists v. apply elem_of_map_to_list. rewrite E. left.
  - intros A m Hm. destruct (map_to_list m) as [|[k v] l] eqn:E; [|by eexists].
    by apply map_to_list_empty_iff in E.
Defined.

(** ** Generated messages *)

(** (C9) From a sound state, a message of any of the eighteen names is generated
    without a panic and without running out of rounds, leaves a sound state and has
    fields of their types.  It is within the limits of its declaration unless it is
    a current head made after the peer has sent one, or a protocol made after the
    peer has sent one: those are mutations that do not look at the limits
    ([mutated_mempool_unwritable] is a head that cannot be written).  Every message
    within the limits is a value of its declaration and is written: [peer_size]
    bytes after six of length and tag. *)
Theorem generated_message_written
  `{RandValues, IterOrder, Sodium, BytesCrate, BitVecCrate, HexCrate, UnicodeTables, BigIntCrate, NomCrate, SynCrate}
  (p : Peers) (s : RandomState) (name : string) :
  peers_usable p -> sound p s -> name ∈ message_names ->
  exists m s', gen_named name s = Ok (m, s') /\ sound p s' /\ PeerMessage.ok m /\
    ((name = "CurrentHead"%string -> p_head p = None) ->
     (name = "Protocol"%string -> p_protocol p = None) -> Within.peer m) /\
    (Within.peer m ->
     message_value "PeerMessageResponse" (PeerMessageResponse.to_rval (PeerMessageResponse.from m)) /\
     exists bs, as_bytes (impl_of "PeerMessageResponse")
       (PeerMessageResponse.to_rval (PeerMessageResponse.from m)) = Ok bs /\
       zlen bs = 6 + peer_size m).
Proof.
  intros Hp Hs Hn. destruct (gens_named p Hp name Hn s Hs) as (m & s' & E & Hs' & Hok & Hw).
  exists m, s'. split; [done|]. split; [done|]. split; [done|]. split; [by intros; apply Hw|].
  by apply peer_written.
Qed.

Definition sample_block : bytes := repeat 1 32.
Definition sample_chain : bytes := repeat 2 4.
Definition sample_state : RandomState :=
  mkRandomState (tt : @rng reference_rand) 1 65519 0 ∅ sample_block sample_chain None None None None None None.

Lemma repeat_bytes b n : is_byte b -> are_bytes (repeat b n).
Proof. intros Hb. apply List.Forall_forall. intros x ->%repeat_spec. done. Qed.

Lemma sample_sound : sound (no_peers 1 65519) sample_state.
Proof.
  split; [done|]. split; [split; [by apply repeat_bytes|done]|].
  split; [split; [by apply repeat_bytes|done]|]. split; [done|]. split; [done|]. split; [done|].
  intros h b Hb. cbn [sample_state blocks] in Hb. by rewrite lookup_empty in Hb.
Qed.

Lemma no_peers_usable limit chunk : peers_usable (no_peers limit chunk).
Proof. done. Qed.

Lemma generated_message_written_witness :
  exists m s' bs, gen_named "CurrentBranch" sample_state = Ok (m, s') /\ sound (no_peers 1 65519) s' /\
    as_bytes (impl_of "PeerMessageResponse")
      (PeerMessageResponse.to_rval (PeerMessageResponse.from m)) = Ok bs /\
    zlen bs = 6 + peer_size m.
Proof.
  destruct (generated_message_written (no_peers 1 65519) sample_state "CurrentBranch"
    (no_peers_usable 1 65519) sample_sound) as (m & s' & E & Hs & _ & Hw & Hb).
  - apply (bool_decide_unpack _). vm_compute. exact I.
  - destruct (Hb (Hw (fun _ => eq_refl) (fun _ => eq_refl))) as (_ & bs & Hbs & Hz).
    exists m, s', bs. split; [exact E|]. split; [exact Hs|]. split; [exact Hbs|exact Hz].
Defined.

(** ** Sessions: generating and hearing *)

(** What a peer message does to the generator ([handle_response]). *)
Definition hear `{RandValues} (m : PeerMessage.t) : G unit :=
  match m with
  | PeerMessage.GetCurrentHead m => set_chain_id (GetCurrentHeadMessage.chain_id m)
  | PeerMessage.GetCurrentBranch m => set_chain_id (GetCurrentBranchMessage.chain_id m)
  | PeerMessage.CurrentBranch m => set_current_branch m
  | PeerMessage.CurrentHead m =>
      _ ← set_chain_id (CurrentHeadMessage.chain_id m); set_current_head m
  | PeerMessage.BlockHeader m => set_block_header m
  | PeerMessage.Operation m => set_operation m
  | PeerMessage.Protocol m => set_protocol m
  | PeerMessage.OperationsForBlocks m => set_operations_for_blocks m
  | _ => mret tt
  end.

(** The second element of a fitness, where there is one, has the size of a [u64]. *)
Definition fitness_fits (h : BlockHeader.t) : Prop :=
  match BlockHeader.fitness h with _ :: f :: _ => zlen f = 8 | _ => True end.

(** A message of the right types within its limits, whose header, if it carries
    one, is small and has a usable fitness. *)
Definition heard_usable (m : PeerMessage.t) : Prop :=
  PeerMessage.ok m /\ Within.peer m /\
  match m with
  | PeerMessage.CurrentBranch m =>
      let h := CurrentBranch.current_head (CurrentBranchMessage.current_branch m) in
      header_small h /\ fitness_fits h
  | PeerMessage.CurrentHead m =>
      header_small (CurrentHeadMessage.current_block_header m) /\
      fitness_fits (CurrentHeadMessage.current_block_header m)
  | PeerMessage.BlockHeader m => header_usable (BlockHeaderMessage.block_header m)
  | _ => True
  end.

Section Sessions.
Context `{RandValues, IterOrder, Sodium, BytesCrate, BitVecCrate, HexCrate, UnicodeTables, BigIntCrate, NomCrate, SynCrate}.

(** A step of a session, as far as the generator is concerned. *)
Inductive session_step : RandomState -> RandomState -> Prop :=
| step_generate name m s s' :
    name ∈ message_names -> gen_named name s = Ok (m, s') -> session_step s s'
| step_hear m s s' : heard_usable m -> hear m s = Ok (tt, s') -> session_step s s'.

(** The state of a session: sound, and everything heard can be mutated. *)
Definition session_ok (s : RandomState) : Prop := peers_usable (peers s) /\ sound (peers s) s.

Lemma fitness_read (f : bytes) s : zlen f = 8 -> fitness_u64 f s = Ok (be_val f, s).
Proof. intros Hf. unfold fitness_u64. by rewrite Hf. Qed.

(** Hearing a usable message returns, in a sound state. *)
Lemma hear_ok m s : heard_usable m -> session_ok s ->
  exists s', hear m s = Ok (tt, s') /\ session_ok s'.
Proof.
  intros (Hok & Hw & Hx) Hs. pose proof Hs as Hsame.
  destruct Hs as [(P1 & P2 & P3 & P4 & P5 & P6) (_ & Hl & Hc & H0l & Hb)].
  assert (Hintro : forall s' : RandomState, peers_usable (peers s') -> last_block s' = last_block s ->
    hash_ok ChainId (chain_id s') -> blocks_limit s' = blocks_limit s -> blocks s' = blocks s ->
    session_ok s').
  { intros s' Hpe E1 Hc' E2 E3. split; [done|]. split; [done|]. rewrite E1, E2. split; [done|].
    split; [done|]. split; [done|]. unfold blocks_ok. by rewrite E2, E3. }
  destruct m; cbn [hear PeerMessage.ok Within.peer] in *; try (by exists s).
  - eexists. split; [reflexivity|]. by apply Hintro.
  - destruct Hx as [Hsmall Hfit]. unfold set_current_branch, fitness_fits in *.
    destruct (BlockHeader.fitness _) as [|f0 [|f1 fs]] eqn:Ef; [by exists s|by exists s|].
    unfold mbind, G_bind. rewrite fitness_read by done. eexists. split; [reflexivity|].
    apply Hintro; try done. split; [|done]. split; [done|]. split; [|apply Hw]. split; [done|].
    by rewrite Ef.
  - eexists. split; [reflexivity|]. by apply Hintro.
  - destruct Hx as [Hsmall Hfit]. unfold set_current_head, fitness_fits in *.
    unfold mbind, G_bind. cbn [set_chain_id modify].
    destruct (BlockHeader.fitness _) as [|f0 [|f1 fs]] eqn:Ef.
    + eexists. split; [reflexivity|]. apply Hintro; try done. apply Hok.
    + eexists. split; [reflexivity|]. apply Hintro; try done. apply Hok.
    + rewrite fitness_read by done. eexists. split; [reflexivity|]. apply Hintro; try done; [|apply Hok].
      split; [done|]. split; [|done]. split; [done|]. split; [|apply Hw]. split; [done|]. by rewrite Ef.
  - eexists. split; [reflexivity|]. by apply Hintro.
  - eexists. split; [reflexivity|]. by apply Hintro.
  - eexists. split; [reflexivity|]. by apply Hintro.
  - eexists. split; [reflexivity|]. by apply Hintro.
Qed.

Lemma session_keeps s s' : session_step s s' -> session_ok s -> session_ok s'.
Proof.
  intros [name m s1 s2 Hn E|m s1 s2 Hm E] Hs.
  - destruct Hs as [Hpe Hs]. destruct (gens_named _ Hpe name Hn s1 Hs) as (m' & s3 & E' & Hs3 & _).
    rewrite E in E'. injection E' as <- <-. pose proof Hs3 as [Ep _]. unfold session_ok. by rewrite Ep.
  - destruct (hear_ok m s1 Hm Hs) as (s3 & E' & Hs3). rewrite E in E'. by injection E' as <-.
Qed.

Lemma session_reachable s s' : rtc session_step s s' -> session_ok s -> session_ok s'.
Proof. induction 1 as [|s s1 s' Hstep _ IH]; [done|]. intros Hs. by eapply IH, session_keeps. Qed.

(** Nothing heard yet and nothing made. *)
Definition fresh (s : RandomState) : Prop :=
  peers s = no_peers (blocks_limit s) (max_chunk_size s) /\ hash_ok BlockHash (last_block s) /\ hash_ok ChainId (chain_id s) /\
  0 <= blocks_limit s /\ blocks s = ∅.

Lemma fresh_ok s : fresh s -> session_ok s.
Proof.
  intros (Ep & Hl & Hc & H0l & Hb). unfold session_ok. rewrite Ep. split; [done|].
  split; [done|]. split; [done|]. split; [done|]. split; [done|]. unfold blocks_ok. rewrite Hb.
  split; [done|]. split; [by rewrite map_size_empty|]. intros h b Hin. by rewrite lookup_empty in Hin.
Qed.

Lemma decoded_size `{Base58Crate} t text h : b58check_to_hash t text = Ok h -> zlen h = hash_size t.
Proof.
  unfold b58check_to_hash. destruct (from_base58check text) as [d|]; [|done]. cbn [mbind result_bind].
  destruct (Z.eqb_spec (hash_size t + zlen (base58check_prefix t)) (zlen d)) as [E|]; [|done].
  cbn [negb]. intros [= <-]. unfold zlen in *. rewrite length_drop.
  pose proof (hash_size_range t). lia.
Qed.

(** [RandomState::new] gives a fresh state. *)
Lemma new_fresh `{Base58Crate} seed limit size s :
  0 <= limit -> new seed limit size = Ok s -> are_bytes (last_block s) -> are_bytes (chain_id s) ->
  fresh s /\ blocks_limit s = limit.
Proof.
  intros Hlim. unfold new.
  destruct (b58check_to_hash BlockHash _) as [h|] eqn:Eh; [|done]. cbn [map_err mbind result_bind].
  destruct (b58check_to_hash ChainId _) as [c|] eqn:Ec; [|done]. cbn [map_err mbind result_bind].
  intros [= <-] Hb Hc. apply decoded_size in Eh, Ec. by repeat split.
Qed.

(** The room for blocks never changes. *)
Lemma session_limit s s' : rtc session_step s s' -> session_ok s -> blocks_limit s' = blocks_limit s.
Proof.
  induction 1 as [|s s1 s' Hstep _ IH]; [done|]. intros Hs. pose proof (session_keeps _ _ Hstep Hs) as Hs1.
  rewrite IH by done. destruct Hstep as [name m s s1 Hn E|m s s1 Hm E].
  - destruct Hs as [Hpe Hs]. destruct (gens_named _ Hpe name Hn s Hs) as (m' & s3 & E' & [Ep _] & _).
    rewrite E in E'. injection E' as <- <-. by apply (f_equal p_limit) in Ep.
  - revert E. destruct m; cbn [hear]; try (by intros [= <-]);
      unfold set_current_branch, set_current_head, mbind, G_bind; cbn [set_chain_id modify];
      destruct (BlockHeader.fitness _) as [|f0 [|f1 fs]]; try (by intros [= <-]);
      unfold fitness_u64; destruct (zlen f1 =? 8); try done; by intros [= <-].
Qed.
End Sessions.

(** (C10) From a fresh generator, whatever messages are generated and whatever usable
    messages are heard: the map of own blocks stays within its limit and holds
    every block under its hash, every message can still be generated, with its
    Rust type, and every usable message can still be heard. *)
Theorem session_invariant
  `{RandValues, IterOrder, Sodium, BytesCrate, BitVecCrate, HexCrate, UnicodeTables, BigIntCrate, NomCrate, SynCrate}
  (s0 s : RandomState) :
  fresh s0 -> rtc session_step s0 s ->
  Z.of_nat (base.size (blocks s)) <= blocks_limit s0 /\
  (forall h b, blocks s !! h = Some b -> header_hash b = Ok h) /\
  (forall name, name ∈ message_names ->
     exists m s', gen_named name s = Ok (m, s') /\ PeerMessage.ok m) /\
  (forall m, heard_usable m -> exists s', hear m s = Ok (tt, s')).
Proof.
  intros Hf Hr. pose proof (fresh_ok _ Hf) as H0k. pose proof (session_reachable _ _ Hr H0k) as Hs.
  rewrite <- (session_limit _ _ Hr H0k). pose proof Hs as [Hpe (_ & _ & _ & Hl & Hz & Hle & Hkeys)].
  split; [|split; [|split]].
  - destruct (Z.eq_dec (blocks_limit s) 0) as [E|E]; [|auto]. rewrite (Hz E), map_size_empty. lia.
  - intros h b Hb. by apply Hkeys.
  - intros name Hn. destruct (gens_named _ Hpe name Hn s (proj2 Hs)) as (m & s' & E & _ & Hok & _).
    by exists m, s'.
  - intros m Hm. destruct (hear_ok m s Hm Hs) as (s' & E & _). by exists s'.
Qed.

Lemma sample_fresh : fresh sample_state.
Proof. by split; [|split; [split; [apply repeat_bytes|]|split; [split; [apply repeat_bytes|]|]]]. Qed.

Definition sample_request : PeerMessage.t :=
  PeerMessage.GetCurrentHead (GetCurrentHeadMessage.mk (repeat 9 4)).
Definition sample_heard : RandomState :=
  match hear sample_request sample_state with Ok (_, s) => s | Err _ => sample_state end.

Lemma sample_session : rtc session_step sample_state sample_heard.
Proof.
  apply rtc_once, (step_hear sample_request); [|reflexivity].
  split; [|by split]. split; [by apply repeat_bytes|done].
Qed.

Lemma session_invariant_witness :
  Z.of_nat (base.size (blocks sample_heard)) <= 1 /\
  exists m s', gen_named "Advertise" sample_heard = Ok (m, s') /\ PeerMessage.ok m.
Proof.
  split.
  - apply (session_invariant sample_state sample_heard sample_fresh sample_session).
  - apply (session_invariant sample_state sample_heard sample_fresh sample_session).
    apply (bool_decide_unpack _). vm_compute. exact I.
Defined.

(** ** Requests for block headers *)
Section Unanswered.
Context `{RandValues, IterOrder, Sodium, BytesCrate, BitVecCrate, HexCrate, UnicodeTables, BigIntCrate, NomCrate, SynCrate}.
Context `{BigUintCrate, BoxCrate, TcpCrate}.

(** What a message does to the generator comes first; a reply, if any, follows. *)
Lemma respond_hears options ro m : exists answer : F unit, forall c : Conn,
  map_err fst (respond options ro m c) = map_err fst ((_ ← on_gen (hear m); answer) c).
Proof.
  assert (Hset : forall (n : G unit) (c : Conn), on_gen n c = (_ ← on_gen n; mret tt) c).
  { intros n c. unfold on_gen, mbind, F_bind. by destruct (n (c_gen c)) as [[[] g]|]. }
  assert (Hret : forall (k : F unit) (c : Conn), k c = (_ ← on_gen (mret tt); k) c) by by intros k [].
  destruct m; cbn [respond hear]; try (exists (mret tt); intros c; f_equal; exact (Hset _ c));
    try (eexists; intros c; f_equal; exact (Hret _ c)); try (eexists; intros c; reflexivity).
  exists (mret tt). intros c. unfold on_gen, mbind, F_bind, G_bind.
  destruct (set_chain_id _ (c_gen c)) as [[[] g]|]; [|done]. cbn.
  by destruct (set_current_head _ g) as [[[] g']|].
Qed.

Lemma no_headers options hashes : forall c : Conn, blocks (c_gen c) = ∅ ->
  reply_headers options hashes c = Ok (tt, c).
Proof.
  induction hashes as [|h hashes IH]; intros c Hb; [done|]. cbn [reply_headers].
  unfold mbind, F_bind, on_gen, get_block, mbind, G_bind, get. rewrite Hb, lookup_empty.
  destruct c as [g s b k l r]. apply (IH (mkConn g s b k l r)). exact Hb.
Qed.
End Unanswered.

(** The fuzzer makes its generator with no room for blocks, so it never has a
    block to answer a request for block headers with: nothing is sent, whatever the
    probability of a reply is. *)
Theorem block_headers_unanswered
  `{RandValues, IterOrder, Sodium, BytesCrate, BitVecCrate, HexCrate, UnicodeTables, BigIntCrate, NomCrate, SynCrate, BigUintCrate, BoxCrate, TcpCrate}
  (s0 : RandomState) (c c' : Conn) (options : PeerMessageOptions) (ro : PeerMessageReplyOptions)
  (m : GetBlockHeadersMessage.t) :
  fresh s0 -> blocks_limit s0 = 0 -> rtc session_step s0 (c_gen c) ->
  respond options ro (PeerMessage.GetBlockHeaders m) c = Ok (tt, c') ->
  c_stream c' = c_stream c /\ c_local c' = c_local c.
Proof.
  intros Hf H0l Hr. pose proof (fresh_ok _ Hf) as H0k. pose proof (session_limit _ _ Hr H0k) as El.
  destruct (session_reachable _ _ Hr H0k) as [_ (_ & _ & _ & _ & Hz & _)].
  rewrite H0l in El. specialize (Hz El). cbn [respond]. unfold with_probability.
  unfold mbind at 1, F_bind at 1, on_gen, gen_bool, draw.
  destruct (rng_bool _ _) as [[b r]|]; [|done]. destruct b.
  - rewrite no_headers by exact Hz. by intros [= <-].
  - by intros [= <-].
Qed.

Definition no_blocks_state : RandomState :=
  mkRandomState (tt : @rng reference_rand) 0 65519 0 ∅ sample_block sample_chain None None None None None None.
Definition sample_conn : Conn :=
  mkConn no_blocks_state (socket []) ChunkBuffer.default (repeat 0 32) (Nonce.mk 5) (Nonce.mk 6).
Definition sample_options : PeerMessageOptions :=
  @mkPeerMessageOptions reference_rand plain_options 1 ["Disconnect"%string] 3 None.
Definition always_reply : PeerMessageReplyOptions := @mkReplyOptions reference_rand true true true true true.

Lemma block_headers_unanswered_witness :
  exists c', respond sample_options always_reply
      (PeerMessage.GetBlockHeaders (GetBlockHeadersMessage.mk [sample_block])) sample_conn = Ok (tt, c') /\
    c_stream c' = c_stream sample_conn /\ c_local c' = c_local sample_conn.
Proof.
  eexists. split; [reflexivity|].
  eapply (block_headers_unanswered no_blocks_state sample_conn _ sample_options always_reply
            (GetBlockHeadersMessage.mk [sample_block])); [|reflexivity|apply rtc_refl|reflexivity].
  by split; [|split; [split; [apply repeat_bytes|]|split; [split; [apply repeat_bytes|]|]]].
Defined.

(** ** Bursts *)
Section Bursts.
Context `{RandValues, IterOrder, Sodium, BytesCrate, BitVecCrate, HexCrate, UnicodeTables, BigIntCrate, NomCrate, SynCrate}.
Context `{BigUintCrate, BoxCrate, TcpCrate}.

(** Probabilities between zero and one. *)
Definition valid_options (o : ChunkOptions) : Prop :=
  forall q, q ∈ [flip_bits o; split_chunks o; split_bytes o; incomplete_send o; write_bytes_sleep o] ->
    forall r, is_Some (rng_bool q r).

Context (o : ChunkOptions) (Ho : valid_options o).

Lemma draw_valid q r : q ∈ [flip_bits o; split_chunks o; split_bytes o; incomplete_send o; write_bytes_sleep o] ->
  exists b r', panics (rng_bool q r) = Ok (b, r').
Proof. intros Hq. destruct (Ho q Hq r) as [[b r'] E]. exists b, r'. unfold panics. by rewrite E. Qed.

Lemma pieces_total inc ps : forall r s, healthy s ->
  exists r' s', write_pieces o inc ps r s = Ok (r', s') /\ healthy s' /\ pending s' = pending s.
Proof.
  induction ps as [|q ps IH]; intros r s Hs; cbn [write_pieces]; [by exists r, s|].
  destruct (tcp_write_ok q s Hs) as (s1 & E1 & _ & Hs1 & Hp1). rewrite E1. cbn [at_rng map_err ok_or mbind result_bind].
  destruct inc; [by exists r, s1|].
  destruct (draw_valid (write_bytes_sleep o) r) as (b & r1 & E2); [do 4 right; left|]. rewrite E2.
  cbn [at_rng map_err mbind result_bind snd]. destruct (IH r1 s1 Hs1) as (r2 & s2 & E3 & Hs2 & Hp2).
  exists r2, s2. by rewrite E3, Hp2.
Qed.

Lemma write_bytes_total bs r s : healthy s ->
  exists r' s', write_bytes o bs r s = Ok (r', s') /\ healthy s' /\ pending s' = pending s.
Proof.
  intros Hs. unfold write_bytes.
  destruct (draw_valid (split_bytes o) r) as (b & r1 & E1); [do 2 right; left|]. rewrite E1.
  cbn [at_rng map_err mbind result_bind fst snd].
  assert (Hps : exists ps r2, (if b then gen_byte_chunks bs r1 else Ok ([bs], r1)) = Ok (ps, r2)).
  { destruct b; [|by eexists _, _]. destruct (byte_chunks_ok bs r1) as (ps & r2 & E & _). by exists ps, r2. }
  destruct Hps as (ps & r2 & ->). cbn [at_rng map_err mbind result_bind fst snd].
  destruct (draw_valid (incomplete_send o) r2) as (i & r3 & E3); [do 3 right; left|]. rewrite E3.
  cbn [at_rng map_err mbind result_bind fst snd]. by apply pieces_total.
Qed.

Lemma chunks_total cs : forall r s, healthy s ->
  exists r' s', write_chunks o cs r s = Ok (r', s') /\ healthy s' /\ pending s' = pending s.
Proof.
  induction cs as [|c cs IH]; intros r s Hs; cbn [write_chunks]; [by exists r, s|].
  destruct (write_bytes_total (raw c) r s Hs) as (r1 & s1 & E1 & Hs1 & Hp1). rewrite E1.
  cbn [at_rng map_err mbind result_bind fst snd]. destruct (IH r1 s1 Hs1) as (r2 & s2 & E2 & Hs2 & Hp2).
  exists r2, s2. by rewrite E2, Hp2.
Qed.

Lemma flip_total bs : forall flips r, exists bs' r', flip bs flips r = Ok (bs', r') /\ zlen bs' = zlen bs.
Proof.
  induction bs as [|b bs IH]; intros flips r; cbn [flip]; [by eexists _, _|].
  destruct (if 0 <? flips then rng_flag r else (false, r)) as [[|] r1]; cbn [fst snd].
  - destruct (rng_range_some 0 8 r1) as (z & r2 & E & _); [lia|]. unfold panics. rewrite E.
    cbn [at_rng map_err ok_or mbind result_bind fst snd]. destruct (IH (flips - 1) r2) as (bs' & r3 & E' & Hz).
    rewrite E'. eexists _, _. split; [reflexivity|]. cbn [fst]. by rewrite !zlen_cons, Hz.
  - destruct (IH flips r1) as (bs' & r3 & E' & Hz). rewrite E'. eexists _, _. split; [reflexivity|].
    cbn [fst]. by rewrite !zlen_cons, Hz.
Qed.

Lemma pieces_count (ps : list bytes) m : Forall (fun q => 1 <= zlen q <= m) ps -> zlen ps <= zlen (concat ps).
Proof.
  induction 1 as [|q ps Hq _ IH]; [done|]. cbn [concat]. rewrite zlen_cons, zlen_app. lia.
Qed.

(** Whatever is fuzzed, an encrypted write on a healthy connection returns. *)
Lemma encrypted_total max bs key n r s :
  2 <= max -> healthy s -> 0 <= Nonce.value n -> Nonce.value n + zlen bs <= 256 ^ 24 ->
  exists k r' s', write_bytes_encrypted max o bs key n r s = Ok (Nonce.mk (Nonce.value n + k), r', s') /\
    0 <= k <= zlen bs /\ healthy s' /\ pending s' = pending s.
Proof.
  intros Hm Hs Hn Hn'. unfold write_bytes_encrypted.
  destruct (draw_valid (flip_bits o) r) as (f & r1 & E1); [left|]. rewrite E1. cbn [at_rng map_err mbind result_bind fst snd].
  assert (Hfl : exists bs' r2, (if f then
      nr ← (if 0 <? zlen bs then panics (rng_range 0 (zlen bs) r1) else Ok (0, r1));
      flip bs (Z.shiftr nr.1 3) nr.2 else Ok (bs, r1)) = Ok (bs', r2) /\ zlen bs' = zlen bs).
  { destruct f; [|by eexists _, _]. destruct (Z.ltb_spec 0 (zlen bs)) as [Hpos|].
    - destruct (rng_range_some 0 (zlen bs) r1 Hpos) as (z & r2 & E & _). unfold panics. rewrite E.
      cbn [at_rng map_err ok_or mbind result_bind fst snd]. apply flip_total.
    - cbn [at_rng map_err mbind result_bind fst snd]. apply flip_total. }
  destruct Hfl as (bs' & r2 & -> & Hz). cbn [at_rng map_err mbind result_bind fst snd].
  destruct (draw_valid (split_chunks o) r2) as (b & r3 & E3); [right; left|]. rewrite E3.
  cbn [at_rng map_err mbind result_bind fst snd].
  assert (Hcs : exists cs k r4, (if b then gen_chunks max bs' key n r3 else
      cn ← encrypt_pieces key (slice_chunks (length bs') (CONTENT_LENGTH_MAX - MACBYTES) bs') n;
      Ok (cn.1, cn.2, r3)) = Ok (cs, Nonce.mk (Nonce.value n + k), r4) /\ 0 <= k <= zlen bs).
  { destruct b.
    - destruct (gen_chunks_frames max bs' key n r3) as (ps & cs & r4 & E & _ & Hc & Hps);
        [done|done|lia|].
      exists cs, (zlen ps), r4. split; [done|]. split; [apply zlen_nonneg|]. rewrite <- Hz, <- Hc.
      apply (pieces_count ps (CONTENT_LENGTH_MAX - MACBYTES)). eapply Forall_impl; [exact Hps|]. simpl. lia.
    - destruct (slice_chunks_ok (CONTENT_LENGTH_MAX - MACBYTES)) with (rounds := length bs') (bs := bs')
        as [Hc Hps]; [by vm_compute|lia|]. set (ps := slice_chunks _ _ _) in *.
      pose proof (pieces_count ps _ Hps) as Hk. rewrite Hc, Hz in Hk.
      destruct (encrypt_pieces_frames key ps n) as (cs & E & _); [|done|lia|].
      + eapply Forall_impl; [exact Hps|]. simpl. intros q Hq. lia.
      + rewrite E. cbn [at_rng map_err mbind result_bind fst snd]. exists cs, (zlen ps), r3. split; [done|].
        split; [apply zlen_nonneg|done]. }
  destruct Hcs as (cs & k & r4 & -> & Hk). cbn [at_rng map_err mbind result_bind fst snd].
  destruct (chunks_total cs r4 s Hs) as (r5 & s' & E5 & Hs' & Hp'). rewrite E5.
  cbn [at_rng map_err mbind result_bind fst snd]. by exists k, r5, s'.
Qed.

Context (p : Peers) (Hp : peers_usable p) (Hchunk : 2 <= p_chunk p).
Context (options : PeerMessageOptions) (Hopt : chunk_options options = o).
Context (Hnames : push_messages options <> []) (Hall : Forall (fun n => n ∈ message_names) (push_messages options)).
Context (Hcount : 1 <= messages_per_chunk options).

(** A session that can send [left] more messages. *)
Definition ready (left : Z) (c : Conn) : Prop :=
  sound p (c_gen c) /\ healthy (c_stream c) /\ 0 <= Nonce.value (c_local c) /\
  Nonce.value (c_local c) + left * (MESSAGE_MAX_SIZE + 4) <= 256 ^ 24.

(** How a burst ends: sent, or stopped by a message that cannot be written, in a
    batch begun with the generator the stop reports. *)
Definition burst_ends (r : result (stop * RandomState) (unit * Conn)) : Prop :=
  match r with
  | Ok (_, c) => ready 0 c
  | Err (e, g) => e = StopPanicked /\ sound p g /\
      refused_batch p (push_messages options) (messages_per_chunk options) g
  end.

Lemma push_loop_ends fuel : forall left c, 0 <= left < Z.of_nat fuel -> ready left c ->
  burst_ends (push_loop fuel options left c).
Proof.
  induction fuel as [|fuel IH]; intros left c Hl (Hs & Hh & Hn & Hn'); [lia|]. cbn [push_loop].
  assert (Hmax : 0 <= MESSAGE_MAX_SIZE + 4) by by vm_compute.
  destruct (Z.ltb_spec left (messages_per_chunk options)).
  { split; [done|]. split; [done|]. split; [done|]. nia. }
  unfold mbind, F_bind, on_gen.
  destruct (batch_or_refused p Hp (push_messages options) Hnames Hall (messages_per_chunk options)
    (c_gen c) ltac:(lia) Hs) as [(batch & g & E & Hg & Hz)|[E Hr]]; rewrite E; [|done].
  unfold send_encrypted. cbn [c_gen c_key c_local c_stream c_buffer c_remote].
  pose proof Hg as [Ep _]. apply (f_equal p_chunk) in Ep. cbn [peers p_chunk] in Ep.
  destruct (encrypted_total (max_chunk_size g) batch (c_key c) (c_local c) (rng_state g)
    (c_stream c)) as (k & r & s & Ew & Hk & Hs' & _); [lia|done|done|nia|].
  rewrite Hopt, Ew. cbn [at_write map_err mbind result_bind fst snd]. apply IH; [lia|].
  split; [by apply sound_rng|]. split; [done|]. cbn [c_local Nonce.value]. split; [lia|]. nia.
Qed.
End Bursts.


Definition sample_session_conn : Conn :=
  mkConn sample_state (socket []) ChunkBuffer.default (repeat 0 32) (Nonce.mk 5) (Nonce.mk 6).


(** With [messages_per_chunk] zero a burst never ends: no number of rounds is
    enough. *)
Theorem empty_batches_never_end
  `{RandValues, IterOrder, Sodium, BytesCrate, BitVecCrate, HexCrate, UnicodeTables, BigIntCrate, NomCrate, SynCrate, BigUintCrate, BoxCrate, TcpCrate}
  (options : PeerMessageOptions) (fuel : nat) (c c' : Conn) :
  messages_per_chunk options = 0 -> fuzz_peer_messages fuel options c <> Ok (tt, c').
Proof.
  intros H0m. unfold fuzz_peer_messages, mbind, F_bind, on_gen, gen_range, draw.
  set (hi := uwrap 64 (max_push_throughput options + 1)).
  destruct (decide (1 < hi)) as [Hhi|Hhi].
  - destruct (rng_range_some 1 hi (rng_state (c_gen c)) Hhi) as (n & r & E & Hn). rewrite E.
    cbv zeta. generalize (mkConn (with_rng r (c_gen c)) (c_stream c) (c_buffer c) (c_key c)
      (c_local c) (c_remote c)) as d. assert (Hn0 : 0 <= n) by lia. clear E Hn.
    revert n Hn0. induction fuel as [|fuel IH]; intros n Hn0 d; [done|]. cbn [push_loop].
    rewrite H0m. destruct (Z.ltb_spec n 0); [lia|]. unfold mbind at 1, F_bind at 1.
    destruct (on_gen _ d) as [[batch d1]|]; [|done]. unfold mbind at 1, F_bind at 1.
    destruct (send_encrypted _ batch d1) as [[[] d2]|]; [|done]. apply IH. lia.
  - by rewrite rng_range_none by lia.
Qed.

Lemma empty_batches_never_end_witness :
  fuzz_peer_messages 5 (@mkPeerMessageOptions reference_rand plain_options 0 ["Disconnect"%string] 3 None)
    sample_session_conn <> Ok (tt, sample_session_conn).
Proof. apply (empty_batches_never_end _ 5 sample_session_conn sample_session_conn). reflexivity. Defined.

(** ** Hostile peers *)

(** What is read from a slice of bytes is the [rval] of a message. *)
Lemma received_message
  `{BytesCrate, BitVecCrate, HexCrate, UnicodeTables, BigIntCrate, NomCrate, SynCrate} (bs : bytes) (v : rval) :
  slice bs -> from_bytes (impl_of "PeerMessageResponse") bs = Ok v ->
  exists m, v = PeerMessageResponse.to_rval (PeerMessageResponse.from m) /\ PeerMessage.ok m /\
    response_of v = Some m.
Proof.
  intros Hs E. destruct (declared_entry 29 "PeerMessageResponse" _ eq_refl) as (ti & t & He & _).
  unfold impl_of in E. rewrite He in E. apply response_value. unfold message_value. rewrite He.
  pose proof (p2p_entry_Codec _ _ _ He). eapply canonical_bytes; [|exact Hs|exact E].
  by apply (p2p_entry_canonical "PeerMessageResponse").
Qed.

(** The header a peer's message makes the generator read the fitness of. *)
Definition heard_header (m : PeerMessage.t) : option BlockHeader.t :=
  match m with
  | PeerMessage.CurrentBranch m => Some (CurrentBranch.current_head (CurrentBranchMessage.current_branch m))
  | PeerMessage.CurrentHead m => Some (CurrentHeadMessage.current_block_header m)
  | _ => None
  end.

(** A head or a branch heard from the peer stops the fuzzer with a panic exactly
    when its header's fitness has a second element that is not eight bytes long; any
    other head or branch is remembered or ignored. *)
Theorem short_fitness_panics
  `{RandValues, IterOrder, Sodium, BytesCrate, BitVecCrate, HexCrate, UnicodeTables, BigIntCrate, NomCrate, SynCrate, BigUintCrate, BoxCrate, TcpCrate}
  (options : PeerMessageOptions) (ro : PeerMessageReplyOptions) (m : PeerMessage.t) (h : BlockHeader.t)
  (c : Conn) :
  heard_header m = Some h ->
  ((exists g, respond options ro m c = Err (StopPanicked, g)) <-> ~ fitness_fits h) /\
  (fitness_fits h -> exists c', respond options ro m c = Ok (tt, c')).
Proof.
  unfold heard_header, fitness_fits.
  destruct m as [| | | | | |m| | |m| | | | | | | |]; try done; intros [= <-]; cbn [respond];
    unfold on_gen, mbind, F_bind, set_current_branch, set_current_head, mbind, G_bind, fitness_u64;
    cbn [set_chain_id modify]; destruct (BlockHeader.fitness _) as [|f0 [|f1 fs]];
    try (split; [split; [by intros []|by intros []]|by eexists]);
    destruct (Z.eqb_spec (zlen f1) 8); (split; [split; [by intros []|first [done|by eexists]]|first [done|by eexists]]).
Qed.

Definition short_header : BlockHeader.t :=
  BlockHeader.mk 0 0 sample_block 0 4 sample_block [[0]; [1]] sample_block [].
Definition short_head : PeerMessage.t :=
  PeerMessage.CurrentHead (CurrentHeadMessage.mk sample_chain short_header (Mempool.mk [] [])).

Lemma sample_hash_ok t : hash_size t = 32 -> hash_ok t sample_block.
Proof. intros Ht. split; [by apply repeat_bytes|]. by rewrite Ht. Qed.

(** Such a head is an ordinary message within the limits. *)
Lemma short_head_ok : PeerMessage.ok short_head /\ Within.peer short_head.
Proof.
  split; [|by vm_compute]. split; [split; [by apply repeat_bytes|done]|]. split; [|by split].
  do 2 (split; [done|]). split; [by apply sample_hash_ok|]. do 2 (split; [done|]).
  split; [by apply sample_hash_ok|]. split; [by repeat constructor|]. split; [by apply sample_hash_ok|].
  constructor.
Qed.

Lemma short_fitness_panics_witness :
  (PeerMessage.ok short_head /\ Within.peer short_head) /\
  exists g, respond sample_options always_reply short_head sample_conn = Err (StopPanicked, g).
Proof.
  split; [exact short_head_ok|].
  apply (short_fitness_panics sample_options always_reply short_head short_header sample_conn eq_refl).
  cbn. by vm_compute.
Defined.

(** ** Mutated mempools *)

Lemma hashes_are l t : Forall (hash_ok t) l -> Forall (is_hash t) (map hash_rval l).
Proof. intros Hl. apply Forall_map. eapply Forall_impl; [exact Hl|]. intros h [Hb Hz]. by exists h. Qed.

Lemma mempool_written_iff
  `{BytesCrate, BitVecCrate, HexCrate, UnicodeTables, BigIntCrate, NomCrate, SynCrate} (m : Mempool.t) :
  Mempool.ok m ->
  (exists bs, as_bytes (impl_of "Mempool") (Mempool.to_rval m) = Ok bs) <->
  zlen (Mempool.known_valid m) + zlen (Mempool.pending m) < MEMPOOL_MAX_OPERATIONS.
Proof.
  intros [Hk Hpe]. destruct mempool_impl as (p & t & E). unfold impl_of. rewrite E.
  pose proof (mempool_writable _ _ _ _ E (hashes_are _ _ Hk) (hashes_are _ _ Hpe)) as Hw.
  unfold zlen in *. by rewrite !length_map in Hw.
Qed.

(** Mutating a mempool with half of [MEMPOOL_MAX_OPERATIONS] or more pending
    operations can keep them as the known ones and fill up with pending ones again:
    the result holds exactly [MEMPOOL_MAX_OPERATIONS] operations, which is one more
    than can be written, so sending it panics. *)
Theorem mutated_mempool_unwritable
  `{RandValues, IterOrder, Sodium, BytesCrate, BitVecCrate, HexCrate, UnicodeTables, BigIntCrate, NomCrate, SynCrate}
  (data : Mempool.t) (s : RandomState) (r1 r2 r3 r4 : rng) :
  Mempool.ok data -> MEMPOOL_MAX_OPERATIONS / 2 <= zlen (Mempool.pending data) <= MEMPOOL_MAX_OPERATIONS ->
  rng_bool p_0_5 (rng_state s) = Some (true, r1) -> rng_bool p_0_5 r1 = Some (false, r2) ->
  rng_bool p_0_5 r2 = Some (true, r3) -> rng_bool p_0_5 r3 = Some (true, r4) ->
  exists m, mutate_mempool data s = Ok (m, with_rng r4 s) /\ Mempool.ok m /\
    zlen (Mempool.known_valid m) + zlen (Mempool.pending m) = MEMPOOL_MAX_OPERATIONS /\
    ~ exists bs, as_bytes (impl_of "Mempool") (Mempool.to_rval m) = Ok bs.
Proof.
  intros [Hk Hpe] Hz E1 E2 E3 E4. unfold mutate_mempool, gen_bool, draw, mbind, G_bind.
  rewrite E1. cbn [rng_state with_rng]. rewrite E2. cbn [rng_state with_rng mret G_ret]. unfold mret, G_ret.
  rewrite E3. cbn [rng_state with_rng]. rewrite E4. cbn [rng_state with_rng].
  set (l := Mempool.pending data) in *. change (MEMPOOL_MAX_OPERATIONS / 2) with 2000 in Hz.
  assert (Hw : uwrap 64 (MEMPOOL_MAX_OPERATIONS - zlen l) = MEMPOOL_MAX_OPERATIONS - zlen l)
    by (unfold uwrap, MEMPOOL_MAX_OPERATIONS in *; apply Z.mod_small; lia).
  rewrite Hw. eexists. split; [reflexivity|].
  assert (Hlen : zlen l + zlen (take (Z.to_nat (Z.min (zlen l) (MEMPOOL_MAX_OPERATIONS - zlen l))) l) =
    MEMPOOL_MAX_OPERATIONS) by (unfold zlen, MEMPOOL_MAX_OPERATIONS in *; rewrite length_take; lia).
  split; [split; [done|by apply Forall_take]|]. split; [exact Hlen|]. rewrite mempool_written_iff; [|by split; [|apply Forall_take]].
  cbn [Mempool.known_valid Mempool.pending]. lia.
Qed.

(** A generator that reads its booleans off a list. *)
Definition scripted_rand : RandCrate.
Proof.
  refine {| rng := list bool; f64 := unit; rng_bool _ r := Some (List.hd false r, List.tl r);
            rng_range lo hi r := if lo <? hi then Some (lo, r) else None;
            rng_flag r := (false, r); rng_shuffle l r := (l, r) |}.
  - intros lo hi r Hl. destruct (Z.ltb_spec lo hi); [|lia]. exists lo, r. split; [done|lia].
  - intros lo hi r Hl. by destruct (Z.ltb_spec lo hi); [lia|].
  - intros l r. reflexivity.
Defined.

Definition scripted_values : @RandValues scripted_rand.
Proof.
  refine {| seed_from_u64 := fun _ => [] : @rng scripted_rand;
            p_0_01 := tt : @f64 scripted_rand; p_0_1 := tt; p_0_5 := tt; p_0_9 := tt;
            rng_u8 r := (7, r); rng_i8 r := (7, r); rng_u16 r := (7, r); rng_i16 r := (7, r);
            rng_i32 r := (7, r); rng_i64 r := (7, r); rng_char r := (65, r) |};
    try (intros r; unfold in_u, in_s; cbn; lia).
  intros q r _. by eexists.
Defined.

Definition scripted_state : @RandomState scripted_rand :=
  mkRandomState ([true; false; true; true] : @rng scripted_rand) 1 65519 0 ∅ sample_block sample_chain
    None None None None None None.
Definition half_full : Mempool.t := Mempool.mk [] (repeat sample_block 2000).

Lemma mutated_mempool_unwritable_witness :
  exists m, @mutate_mempool _ scripted_values half_full scripted_state = Ok (m, @with_rng scripted_rand [] scripted_state) /\
    Mempool.ok m /\
    zlen (Mempool.known_valid m) + zlen (Mempool.pending m) = MEMPOOL_MAX_OPERATIONS /\
    ~ exists bs, as_bytes (impl_of "Mempool") (Mempool.to_rval m) = Ok bs.
Proof.
  apply (@mutated_mempool_unwritable _ scripted_values _ _ _ _ _ _ _ _ _ half_full scripted_state
    [false; true; true] [true; true] [true] []); try reflexivity.
  - split; [constructor|]. apply List.Forall_forall. intros h ->%repeat_spec. by apply sample_hash_ok.
  - by vm_compute.
Defined.

(** ** The first message of a handshake *)
Section Handshake.
Context `{RandValues, IterOrder, Sodium, BytesCrate, BitVecCrate, HexCrate, UnicodeTables, BigIntCrate, NomCrate, SynCrate}.
Context `{BigUintCrate, !HexEncode}.
Context (p : Peers).

(** A probability between zero and one. *)
Definition valid_probability (q : f64) : Prop := forall r, is_Some (rng_bool q r).

Lemma gens_probability q : valid_probability q -> gens p (gen_bool q) (fun _ => True).
Proof. intros Hq. apply gens_draw. intros r. destruct (Hq r) as [[b r'] E]. eauto. Qed.

(** A nonce of 24 bytes is sent as it was drawn. *)
Lemma nonce_kept k : key_ok 24 k -> Nonce.get_bytes (Nonce.new k) = Ok k.
Proof.
  intros [Hk Hz]. unfold Nonce.new. rewrite biguint_from_be_spec by done.
  pose proof (be_val_bound k Hk) as Hv. rewrite Hz in Hv. rewrite get_bytes_fits by done.
  f_equal. rewrite <- (be_bytes_be_val k Hk) at 2. f_equal. unfold zlen in Hz. lia.
Qed.

Lemma gens_gen_nonce : gens p gen_nonce (fun n => exists k, n = Nonce.new k /\ key_ok 24 k).
Proof. unfold gen_nonce. run (apply gens_vec; by vm_compute). intros k Hk. apply gens_ret. eauto. Qed.

Lemma gens_first_message options identity :
  valid_probability (fuzz_network_version options) -> valid_probability (fuzz_public_key options) ->
  valid_probability (fuzz_pow options) ->
  key_ok 32 (public_key identity) -> key_ok 24 (proof_of_work_stamp identity) ->
  gens p (gen_connection_message options identity) (fun m => ConnectionMessage.ok m /\ connection_within m).
Proof.
  intros Hv Hk Hw Hpk Hpw. unfold gen_connection_message.
  run (by apply gens_probability). intros b1 _.
  eapply gens_bind with (P := fun v =>
    NetworkVersion.ok v /\ zlen (NetworkVersion.chain_name v) <= CHAIN_NAME_MAX_LENGTH).
  { apply gens_if; [apply gens_version|]. apply gens_ret. by vm_compute. }
  intros v [Hvok Hvz]. run (by apply gens_probability). intros b2 _.
  eapply gens_bind with (P := key_ok 32); [apply gens_if; [apply gens_public_key|by apply gens_ret]|].
  intros k [Hkb Hkz]. run (by apply gens_probability). intros b3 _.
  eapply gens_bind with (P := key_ok 24); [apply gens_if; [apply gens_pow|by apply gens_ret]|].
  intros w [Hwb Hwz]. gstep. intros port Hport. run (apply gens_gen_nonce). intros n (nb & -> & Hnb).
  unfold connection_try_new. rewrite nonce_kept by done. apply gens_ret. by destruct Hnb.
Qed.
End Handshake.

(** (C13) Whatever of it is fuzzed, the first message of a handshake is made without a
    panic, fits one chunk, and is what a peer reads from the chunk's content. *)
Theorem first_message_readable
  `{RandValues, IterOrder, Sodium, BytesCrate, BitVecCrate, HexCrate, UnicodeTables, BigIntCrate, NomCrate, SynCrate, BigUintCrate, !HexEncode}
  (p : Peers) (options : HandshakeOptions) (identity : Identity) (s : RandomState) :
  valid_probability (fuzz_network_version options) -> valid_probability (fuzz_public_key options) ->
  valid_probability (fuzz_pow options) ->
  key_ok 32 (public_key identity) -> key_ok 24 (proof_of_work_stamp identity) -> sound p s ->
  exists m s' bs chunk, gen_connection_message options identity s = Ok (m, s') /\ sound p s' /\
    as_bytes (impl_of "ConnectionMessage") (ConnectionMessage.to_rval m) = Ok bs /\
    from_content bs = Ok chunk /\
    from_bytes (impl_of "ConnectionMessage") (content chunk) = Ok (ConnectionMessage.to_rval m).
Proof.
  intros Hv Hk Hw Hpk Hpw Hs.
  destruct (gens_first_message p options identity Hv Hk Hw Hpk Hpw s Hs) as (m & s' & E & Hs' & Hok & Hm).
  destruct (declared_entry 1 "ConnectionMessage" _ eq_refl) as (ti & t & He & _).
  destruct (fits_written "ConnectionMessage" _ _ (connection_fits m Hok Hm)) as (Hval & bs & Hb & Hz);
    [by rewrite He|].
  pose proof (p2p_entry_Codec _ _ _ He). unfold message_value, impl_of in *. rewrite He in *.
  exists m, s', bs, (be_bytes 2 (zlen bs) ++ bs). split; [done|]. split; [done|]. split; [done|].
  destruct Hm as (_ & _ & _ & Hc). unfold ConnectionMessage.size, NetworkVersion.size in Hz.
  destruct (chunk_of_content bs) as (Hf & _ & _ & ->);
    [unfold CONTENT_LENGTH_MAX, CHAIN_NAME_MAX_LENGTH in *; lia|].
  split; [done|]. pose proof (codec_bytes _ Hval) as Hr. by rewrite Hb in Hr.
Qed.

Definition sample_identity : Identity := mkIdentity sample_block sample_block (repeat 1 24).

Lemma first_message_readable_witness :
  exists m s' bs chunk,
    gen_connection_message default_handshake sample_identity sample_state = Ok (m, s') /\
    sound (no_peers 1 65519) s' /\
    as_bytes (impl_of "ConnectionMessage") (ConnectionMessage.to_rval m) = Ok bs /\
    from_content bs = Ok chunk /\
    from_bytes (impl_of "ConnectionMessage") (content chunk) = Ok (ConnectionMessage.to_rval m).
Proof.
  apply (first_message_readable (no_peers 1 65519) default_handshake sample_identity sample_state).
  - by eexists.
  - by eexists.
  - by eexists.
  - split; [by apply repeat_bytes|done].
  - split; [by apply repeat_bytes|done].
  - exact sample_sound.
Defined.
