(* ===== verification/ProtocolConstants.v ===== *)
(** * Protocol constants ([tezos/messages/src/protocol], [base/rpc_support.rs])

    Each protocol has fixed constants and parametric ones.  The parametric ones
    are read from the bytes the context keeps, with the reader the derive macro
    makes for their structure; for the first four protocols, whose fields are all
    optional, they are merged into defaults.  [get_constants_for_rpc] turns both
    into one JSON map.

    Structures are Rust values ([rval], fields by name).  [None], where a function
    answers an option, is a value the Rust types exclude: a field that is missing
    or has another type.  The theorems are in [ConstantsFacts]. *)

From Stdlib Require Import ZArith Lia List Bool String.
From stdpp Require Import base option list numbers strings gmap.
From S2P Require Import Prelude Extern CryptoHash Types Serializer BinaryWriter NomCrate NomReader DeriveMake Derive Messages BinaryMessage PublicKeys.

Set Warnings "-register-all".

(** ** [UniversalValue] *)
Inductive UniversalValue : Type :=
| Number (z : Z)
| NumberI64 (z : Z)
| BigNumber (z : Z)
| ListOf (l : list UniversalValue)
| Text (s : bytes)
| TimestampRfc3339 (z : Z).

Abbreviation RpcJsonMap := (gmap string UniversalValue).

(** ** [Zarith] and [Mutez]

    Newtypes of [num_bigint::BigInt]; their [Serialize] is derived, so a value
    presents itself the way the crate presents its integers. *)
Class BigIntSerde : Type := {
  bigint_rval : Z -> rval;
  bigint_val : rval -> option Z;
  bigint_val_rval z : bigint_val (bigint_rval z) = Some z;
}.

Definition big `{BigIntSerde} (z : Z) : rval := RNewtypeStruct (bigint_rval z).
Definition big_val `{BigIntSerde} (v : rval) : option Z :=
  match v with RNewtypeStruct v => bigint_val v | _ => None end.

Lemma big_val_big `{BigIntSerde} z : big_val (big z) = Some z.
Proof. apply bigint_val_rval. Qed.

Section BigTypes.
Context `{BigIntSerde, NomCrate, BitVecCrate, BigIntCrate}.

Definition zarith_impl : type_impl := mkImpl EZ (nom_map zarith big).
Definition mutez_impl : type_impl := mkImpl EMutez (nom_map mutez big).

(** The types the declarations below mention. *)
Definition constants_impl (path : list string) : type_impl :=
  if decide (path = ["Zarith"]) then zarith_impl
  else if decide (path = ["Mutez"]) then mutez_impl
  else mkImpl EUnit (fun _ => Err Incomplete).
End BigTypes.

(** ** The constructors of [UniversalValue] the maps use *)
Inductive conversion : Type := CNum | CI64 | CBigNum | CI64List | CBigNumList.

Section Convert.
Context `{BigIntSerde}.

(** [T: Into<i32>] at [u8], [u16] and [i32]. *)
Definition num (v : rval) : option UniversalValue :=
  match v with RU8 z | RU16 z | RI32 z => Some (Number z) | _ => None end.
Definition i64 (v : rval) : option UniversalValue :=
  match v with RI64 z => Some (NumberI64 z) | _ => None end.
Definition big_num (v : rval) : option UniversalValue := BigNumber <$> big_val v.
Definition i64_list (v : rval) : option UniversalValue :=
  match v with RSeq l => ListOf <$> mapM i64 l | _ => None end.
Definition big_num_list (v : rval) : option UniversalValue :=
  match v with RSeq l => ListOf <$> mapM big_num l | _ => None end.

Definition convert (c : conversion) : rval -> option UniversalValue :=
  match c with
  | CNum => num | CI64 => i64 | CBigNum => big_num
  | CI64List => i64_list | CBigNumList => big_num_list
  end.
End Convert.

(** ** Structures *)

(** [self.name]. *)
Definition get_field (name : string) (self : rval) : option rval :=
  match self with RStruct fields => hm_get name fields | _ => None end.

(** [self.name = v]. *)
Definition set_field (name : string) (v self : rval) : rval :=
  match self with
  | RStruct fields => RStruct ((fun f => if decide (f.1 = name) then (f.1, v) else f) <$> fields)
  | v => v
  end.

Definition some_fields (fields : list (string * rval)) : list (string * rval) :=
  (fun f => (f.1, RSome f.2)) <$> fields.

Abbreviation option_of := (generic "Option").

(** The fields of the first four protocols that the context may modify. *)
Definition MODIFIABLE : list string :=
  ["block_security_deposit"; "endorsement_security_deposit"; "block_reward"; "endorsement_reward"].

(** Protocol 001: the four fields come from the context, the rest are defaults. *)
Definition overwrite_modifiable (context default : rval) : rval :=
  fold_left (fun param name =>
    match get_field name context with Some v => set_field name v param | None => param end)
    MODIFIABLE default.

(** Protocols 002 to 004: only those of the four that are [Some]. *)
Definition overwrite_present (context default : rval) : rval :=
  fold_left (fun param name =>
    match get_field name context with
    | Some (RSome v) => set_field name (RSome v) param
    | _ => param
    end) MODIFIABLE default.

(** ** Maps *)
Definition fixed_as_map (fixed : list (string * Z)) : RpcJsonMap :=
  fold_left (fun ret f => <[f.1 := Number f.2]> ret) fixed ∅.

Section Maps.
Context `{BigIntSerde}.

(** [ret.insert(name, ..(self.name))] for every field. *)
Definition insert_all (conversions : list (string * conversion)) (self : rval) : option RpcJsonMap :=
  fold_left (fun ret f =>
    ret ← ret; v ← get_field f.1 self; u ← convert f.2 v;
    Some (<[f.1 := u]> ret)) conversions (Some ∅).

(** [if let Some(name) = self.name { ret.insert(name, ..(name)) }] for every field. *)
Definition insert_present (conversions : list (string * conversion)) (self : rval)
  : option RpcJsonMap :=
  fold_left (fun ret f =>
    ret ← ret; v ← get_field f.1 self;
    match v with
    | RSome v => u ← convert f.2 v; Some (<[f.1 := u]> ret)
    | RNone => Some ret
    | _ => None
    end) conversions (Some ∅).
End Maps.

(** ** The protocols *)

Module Proto001.
Definition FIXED : list (string * Z) :=
  [("proof_of_work_nonce_size", 8);
   ("nonce_length", 32);
   ("max_revelations_per_block", 32);
   ("max_operation_data_length", 16 * 1024)].
Definition FixedConstants_as_map : RpcJsonMap := fixed_as_map FIXED.
Definition ParametricConstants : DeriveInput := decl_struct "ParametricConstants" []
  [fld "preserved_cycles" (option_of (ty "u8")) [];
   fld "blocks_per_cycle" (option_of (ty "i32")) [];
   fld "blocks_per_commitment" (option_of (ty "i32")) [];
   fld "blocks_per_roll_snapshot" (option_of (ty "i32")) [];
   fld "blocks_per_voting_period" (option_of (ty "i32")) [];
   fld "time_between_blocks" (option_of (vec (ty "i64"))) [word "option"; word "dynamic"; word "list"];
   fld "endorsers_per_block" (option_of (ty "u16")) [];
   fld "hard_gas_limit_per_operation" (option_of (ty "Zarith")) [];
   fld "hard_gas_limit_per_block" (option_of (ty "Zarith")) [];
   fld "proof_of_work_threshold" (option_of (ty "i64")) [];
   fld "tokens_per_roll" (option_of (ty "Mutez")) [];
   fld "michelson_maximum_type_size" (option_of (ty "u16")) [];
   fld "seed_nonce_revelation_tip" (option_of (ty "Mutez")) [];
   fld "origination_burn" (option_of (ty "Mutez")) [];
   fld "block_security_deposit" (option_of (ty "Mutez")) [];
   fld "endorsement_security_deposit" (option_of (ty "Mutez")) [];
   fld "block_reward" (option_of (ty "Mutez")) [];
   fld "endorsement_reward" (option_of (ty "Mutez")) [];
   fld "cost_per_byte" (option_of (ty "Mutez")) [];
   fld "hard_storage_limit_per_operation" (option_of (ty "Zarith")) []].
Definition conversions : list (string * conversion) :=
  [("preserved_cycles", CNum);
   ("blocks_per_cycle", CNum);
   ("blocks_per_commitment", CNum);
   ("blocks_per_roll_snapshot", CNum);
   ("blocks_per_voting_period", CNum);
   ("time_between_blocks", CI64List);
   ("endorsers_per_block", CNum);
   ("hard_gas_limit_per_operation", CBigNum);
   ("hard_gas_limit_per_block", CBigNum);
   ("proof_of_work_threshold", CI64);
   ("tokens_per_roll", CBigNum);
   ("michelson_maximum_type_size", CNum);
   ("seed_nonce_revelation_tip", CBigNum);
   ("origination_burn", CBigNum);
   ("block_security_deposit", CBigNum);
   ("endorsement_security_deposit", CBigNum);
   ("block_reward", CBigNum);
   ("endorsement_reward", CBigNum);
   ("cost_per_byte", CBigNum);
   ("hard_storage_limit_per_operation", CBigNum)].
Definition as_map `{BigIntSerde} (self : rval) : option RpcJsonMap := insert_present conversions self.
Definition default `{BigIntSerde} : rval := RStruct (some_fields
  [("preserved_cycles", RU8 5);
   ("blocks_per_cycle", RI32 4096);
   ("blocks_per_commitment", RI32 32);
   ("blocks_per_roll_snapshot", RI32 256);
   ("blocks_per_voting_period", RI32 32768);
   ("time_between_blocks", RSeq [RI64 60; RI64 75]);
   ("endorsers_per_block", RU16 32);
   ("hard_gas_limit_per_operation", big 400000);
   ("hard_gas_limit_per_block", big 4000000);
   ("proof_of_work_threshold", RI64 70368744177663);
   ("tokens_per_roll", big 10000000000);
   ("michelson_maximum_type_size", RU16 1000);
   ("seed_nonce_revelation_tip", big 125000);
   ("origination_burn", big 257000);
   ("block_security_deposit", big 0);
   ("endorsement_security_deposit", big 0);
   ("block_reward", big 0);
   ("endorsement_reward", big 0);
   ("cost_per_byte", big 1000);
   ("hard_storage_limit_per_operation", big 60000)]).
Definition create_with_default_and_merge `{BigIntSerde} (context : rval) : rval :=
  overwrite_modifiable context default.
End Proto001.

Module Proto002.
Definition FIXED : list (string * Z) :=
  [("proof_of_work_nonce_size", 8);
   ("nonce_length", 32);
   ("max_revelations_per_block", 32);
   ("max_operation_data_length", 16 * 1024)].
Definition FixedConstants_as_map : RpcJsonMap := fixed_as_map FIXED.
Definition ParametricConstants : DeriveInput := decl_struct "ParametricConstants" []
  [fld "preserved_cycles" (option_of (ty "u8")) [];
   fld "blocks_per_cycle" (option_of (ty "i32")) [];
   fld "blocks_per_commitment" (option_of (ty "i32")) [];
   fld "blocks_per_roll_snapshot" (option_of (ty "i32")) [];
   fld "blocks_per_voting_period" (option_of (ty "i32")) [];
   fld "time_between_blocks" (option_of (vec (ty "i64"))) [word "option"; word "dynamic"; word "list"];
   fld "endorsers_per_block" (option_of (ty "u16")) [];
   fld "hard_gas_limit_per_operation" (option_of (ty "Zarith")) [];
   fld "hard_gas_limit_per_block" (option_of (ty "Zarith")) [];
   fld "proof_of_work_threshold" (option_of (ty "i64")) [];
   fld "tokens_per_roll" (option_of (ty "Mutez")) [];
   fld "michelson_maximum_type_size" (option_of (ty "u16")) [];
   fld "seed_nonce_revelation_tip" (option_of (ty "Mutez")) [];
   fld "origination_burn" (option_of (ty "Mutez")) [];
   fld "block_security_deposit" (option_of (ty "Mutez")) [];
   fld "endorsement_security_deposit" (option_of (ty "Mutez")) [];
   fld "block_reward" (option_of (ty "Mutez")) [];
   fld "endorsement_reward" (option_of (ty "Mutez")) [];
   fld "cost_per_byte" (option_of (ty "Mutez")) [];
   fld "hard_storage_limit_per_operation" (option_of (ty "Zarith")) []].
Definition conversions : list (string * conversion) :=
  [("preserved_cycles", CNum);
   ("blocks_per_cycle", CNum);
   ("blocks_per_commitment", CNum);
   ("blocks_per_roll_snapshot", CNum);
   ("blocks_per_voting_period", CNum);
   ("time_between_blocks", CI64List);
   ("endorsers_per_block", CNum);
   ("hard_gas_limit_per_operation", CBigNum);
   ("hard_gas_limit_per_block", CBigNum);
   ("proof_of_work_threshold", CI64);
   ("tokens_per_roll", CBigNum);
   ("michelson_maximum_type_size", CNum);
   ("seed_nonce_revelation_tip", CBigNum);
   ("origination_burn", CBigNum);
   ("block_security_deposit", CBigNum);
   ("endorsement_security_deposit", CBigNum);
   ("block_reward", CBigNum);
   ("endorsement_reward", CBigNum);
   ("cost_per_byte", CBigNum);
   ("hard_storage_limit_per_operation", CBigNum)].
Definition as_map `{BigIntSerde} (self : rval) : option RpcJsonMap := insert_present conversions self.
Definition default `{BigIntSerde} : rval := RStruct (some_fields
  [("preserved_cycles", RU8 5);
   ("blocks_per_cycle", RI32 4096);
   ("blocks_per_commitment", RI32 32);
   ("blocks_per_roll_snapshot", RI32 256);
   ("blocks_per_voting_period", RI32 32768);
   ("time_between_blocks", RSeq [RI64 60; RI64 75]);
   ("endorsers_per_block", RU16 32);
   ("hard_gas_limit_per_operation", big 400000);
   ("hard_gas_limit_per_block", big 4000000);
   ("proof_of_work_threshold", RI64 70368744177663);
   ("tokens_per_roll", big 10000000000);
   ("michelson_maximum_type_size", RU16 1000);
   ("seed_nonce_revelation_tip", big 125000);
   ("origination_burn", big 257000);
   ("block_security_deposit", big 0);
   ("endorsement_security_deposit", big 0);
   ("block_reward", big 16000000);
   ("endorsement_reward", big 2000000);
   ("cost_per_byte", big 1000);
   ("hard_storage_limit_per_operation", big 60000)]).
Definition create_with_default_and_merge `{BigIntSerde} (context : rval) : rval :=
  overwrite_present context default.
End Proto002.

Module Proto003.
Definition FIXED : list (string * Z) :=
  [("proof_of_work_nonce_size", 8);
   ("nonce_length", 32);
   ("max_revelations_per_block", 32);
   ("max_operation_data_length", 16 * 1024);
   ("max_proposals_per_delegate", 20)].
Definition FixedConstants_as_map : RpcJsonMap := fixed_as_map FIXED.
Definition ParametricConstants : DeriveInput := decl_struct "ParametricConstants" []
  [fld "preserved_cycles" (option_of (ty "u8")) [];
   fld "blocks_per_cycle" (option_of (ty "i32")) [];
   fld "blocks_per_commitment" (option_of (ty "i32")) [];
   fld "blocks_per_roll_snapshot" (option_of (ty "i32")) [];
   fld "blocks_per_voting_period" (option_of (ty "i32")) [];
   fld "time_between_blocks" (option_of (vec (ty "i64"))) [word "option"; word "dynamic"; word "list"];
   fld "endorsers_per_block" (option_of (ty "u16")) [];
   fld "hard_gas_limit_per_operation" (option_of (ty "Zarith")) [];
   fld "hard_gas_limit_per_block" (option_of (ty "Zarith")) [];
   fld "proof_of_work_threshold" (option_of (ty "i64")) [];
   fld "tokens_per_roll" (option_of (ty "Mutez")) [];
   fld "michelson_maximum_type_size" (option_of (ty "u16")) [];
   fld "seed_nonce_revelation_tip" (option_of (ty "Mutez")) [];
   fld "origination_size" (option_of (ty "i32")) [];
   fld "block_security_deposit" (option_of (ty "Mutez")) [];
   fld "endorsement_security_deposit" (option_of (ty "Mutez")) [];
   fld "block_reward" (option_of (ty "Mutez")) [];
   fld "endorsement_reward" (option_of (ty "Mutez")) [];
   fld "cost_per_byte" (option_of (ty "Mutez")) [];
   fld "hard_storage_limit_per_operation" (option_of (ty "Zarith")) []].
Definition conversions : list (string * conversion) :=
  [("preserved_cycles", CNum);
   ("blocks_per_cycle", CNum);
   ("blocks_per_commitment", CNum);
   ("blocks_per_roll_snapshot", CNum);
   ("blocks_per_voting_period", CNum);
   ("time_between_blocks", CI64List);
   ("endorsers_per_block", CNum);
   ("hard_gas_limit_per_operation", CBigNum);
   ("hard_gas_limit_per_block", CBigNum);
   ("proof_of_work_threshold", CI64);
   ("tokens_per_roll", CBigNum);
   ("michelson_maximum_type_size", CNum);
   ("seed_nonce_revelation_tip", CBigNum);
   ("origination_size", CNum);
   ("block_security_deposit", CBigNum);
   ("endorsement_security_deposit", CBigNum);
   ("block_reward", CBigNum);
   ("endorsement_reward", CBigNum);
   ("cost_per_byte", CBigNum);
   ("hard_storage_limit_per_operation", CBigNum)].
Definition as_map `{BigIntSerde} (self : rval) : option RpcJsonMap := insert_present conversions self.
Definition default `{BigIntSerde} : rval := RStruct (some_fields
  [("preserved_cycles", RU8 5);
   ("blocks_per_cycle", RI32 4096);
   ("blocks_per_commitment", RI32 32);
   ("blocks_per_roll_snapshot", RI32 256);
   ("blocks_per_voting_period", RI32 32768);
   ("time_between_blocks", RSeq [RI64 60; RI64 75]);
   ("endorsers_per_block", RU16 32);
   ("hard_gas_limit_per_operation", big 400000);
   ("hard_gas_limit_per_block", big 4000000);
   ("proof_of_work_threshold", RI64 70368744177663);
   ("tokens_per_roll", big 10000000000);
   ("michelson_maximum_type_size", RU16 1000);
   ("seed_nonce_revelation_tip", big 125000);
   ("origination_size", RI32 257);
   ("block_security_deposit", big 512000000);
   ("endorsement_security_deposit", big 64000000);
   ("block_reward", big 16000000);
   ("endorsement_reward", big 2000000);
   ("cost_per_byte", big 1000);
   ("hard_storage_limit_per_operation", big 60000)]).
Definition create_with_default_and_merge `{BigIntSerde} (context : rval) : rval :=
  overwrite_present context default.
End Proto003.

Module Proto004.
Definition FIXED : list (string * Z) :=
  [("proof_of_work_nonce_size", 8);
   ("nonce_length", 32);
   ("max_revelations_per_block", 32);
   ("max_operation_data_length", 16 * 1024);
   ("max_proposals_per_delegate", 20)].
Definition FixedConstants_as_map : RpcJsonMap := fixed_as_map FIXED.
Definition ParametricConstants : DeriveInput := decl_struct "ParametricConstants" []
  [fld "preserved_cycles" (option_of (ty "u8")) [];
   fld "blocks_per_cycle" (option_of (ty "i32")) [];
   fld "blocks_per_commitment" (option_of (ty "i32")) [];
   fld "blocks_per_roll_snapshot" (option_of (ty "i32")) [];
   fld "blocks_per_voting_period" (option_of (ty "i32")) [];
   fld "time_between_blocks" (option_of (vec (ty "i64"))) [word "option"; word "dynamic"; word "list"];
   fld "endorsers_per_block" (option_of (ty "u16")) [];
   fld "hard_gas_limit_per_operation" (option_of (ty "Zarith")) [];
   fld "hard_gas_limit_per_block" (option_of (ty "Zarith")) [];
   fld "proof_of_work_threshold" (option_of (ty "i64")) [];
   fld "tokens_per_roll" (option_of (ty "Mutez")) [];
   fld "michelson_maximum_type_size" (option_of (ty "u16")) [];
   fld "seed_nonce_revelation_tip" (option_of (ty "Mutez")) [];
   fld "origination_size" (option_of (ty "i32")) [];
   fld "block_security_deposit" (option_of (ty "Mutez")) [];
   fld "endorsement_security_deposit" (option_of (ty "Mutez")) [];
   fld "block_reward" (option_of (ty "Mutez")) [];
   fld "endorsement_reward" (option_of (ty "Mutez")) [];
   fld "cost_per_byte" (option_of (ty "Mutez")) [];
   fld "hard_storage_limit_per_operation" (option_of (ty "Zarith")) [];
   fld "test_chain_duration" (option_of (ty "i64")) []].
Definition conversions : list (string * conversion) :=
  [("preserved_cycles", CNum);
   ("blocks_per_cycle", CNum);
   ("blocks_per_commitment", CNum);
   ("blocks_per_roll_snapshot", CNum);
   ("blocks_per_voting_period", CNum);
   ("time_between_blocks", CI64List);
   ("endorsers_per_block", CNum);
   ("hard_gas_limit_per_operation", CBigNum);
   ("hard_gas_limit_per_block", CBigNum);
   ("proof_of_work_threshold", CI64);
   ("tokens_per_roll", CBigNum);
   ("michelson_maximum_type_size", CNum);
   ("seed_nonce_revelation_tip", CBigNum);
   ("origination_size", CNum);
   ("block_security_deposit", CBigNum);
   ("endorsement_security_deposit", CBigNum);
   ("block_reward", CBigNum);
   ("endorsement_reward", CBigNum);
   ("cost_per_byte", CBigNum);
   ("hard_storage_limit_per_operation", CBigNum);
   ("test_chain_duration", CI64)].
Definition as_map `{BigIntSerde} (self : rval) : option RpcJsonMap := insert_present conversions self.
Definition default `{BigIntSerde} : rval := RStruct (some_fields
  [("preserved_cycles", RU8 5);
   ("blocks_per_cycle", RI32 4096);
   ("blocks_per_commitment", RI32 32);
   ("blocks_per_roll_snapshot", RI32 256);
   ("blocks_per_voting_period", RI32 32768);
   ("time_between_blocks", RSeq [RI64 60; RI64 75]);
   ("endorsers_per_block", RU16 32);
   ("hard_gas_limit_per_operation", big 800000);
   ("hard_gas_limit_per_block", big 8000000);
   ("proof_of_work_threshold", RI64 70368744177663);
   ("tokens_per_roll", big 8000000000);
   ("michelson_maximum_type_size", RU16 1000);
   ("seed_nonce_revelation_tip", big 125000);
   ("origination_size", RI32 257);
   ("block_security_deposit", big 512000000);
   ("endorsement_security_deposit", big 64000000);
   ("block_reward", big 16000000);
   ("endorsement_reward", big 2000000);
   ("cost_per_byte", big 1000);
   ("hard_storage_limit_per_operation", big 60000);
   ("test_chain_duration", RI64 (32768 * 60))]).
Definition create_with_default_and_merge `{BigIntSerde} (context : rval) : rval :=
  overwrite_present context default.
End Proto004.

Module Proto005.
Definition FIXED : list (string * Z) :=
  [("proof_of_work_nonce_size", 8);
   ("nonce_length", 32);
   ("max_revelations_per_block", 32);
   ("max_operation_data_length", 16 * 1024);
   ("max_proposals_per_delegate", 20)].
Definition FixedConstants_as_map : RpcJsonMap := fixed_as_map FIXED.
Definition ParametricConstants : DeriveInput := decl_struct "ParametricConstants" []
  [fld "preserved_cycles" (ty "u8") [];
   fld "blocks_per_cycle" (ty "i32") [];
   fld "blocks_per_commitment" (ty "i32") [];
   fld "blocks_per_roll_snapshot" (ty "i32") [];
   fld "blocks_per_voting_period" (ty "i32") [];
   fld "time_between_blocks" (vec (ty "i64")) [word "dynamic"; word "list"];
   fld "endorsers_per_block" (ty "u16") [];
   fld "hard_gas_limit_per_operation" (ty "Zarith") [];
   fld "hard_gas_limit_per_block" (ty "Zarith") [];
   fld "proof_of_work_threshold" (ty "i64") [];
   fld "tokens_per_roll" (ty "Mutez") [];
   fld "michelson_maximum_type_size" (ty "u16") [];
   fld "seed_nonce_revelation_tip" (ty "Mutez") [];
   fld "origination_size" (ty "i32") [];
   fld "block_security_deposit" (ty "Mutez") [];
   fld "endorsement_security_deposit" (ty "Mutez") [];
   fld "block_reward" (ty "Mutez") [];
   fld "endorsement_reward" (ty "Mutez") [];
   fld "cost_per_byte" (ty "Mutez") [];
   fld "hard_storage_limit_per_operation" (ty "Zarith") [];
   fld "test_chain_duration" (ty "i64") [];
   fld "quorum_min" (ty "i32") [];
   fld "quorum_max" (ty "i32") [];
   fld "min_proposal_quorum" (ty "i32") [];
   fld "initial_endorsers" (ty "u16") [];
   fld "delay_per_missing_endorsement" (ty "i64") []].
Definition conversions : list (string * conversion) :=
  [("preserved_cycles", CNum);
   ("blocks_per_cycle", CNum);
   ("blocks_per_commitment", CNum);
   ("blocks_per_roll_snapshot", CNum);
   ("blocks_per_voting_period", CNum);
   ("time_between_blocks", CI64List);
   ("endorsers_per_block", CNum);
   ("hard_gas_limit_per_operation", CBigNum);
   ("hard_gas_limit_per_block", CBigNum);
   ("proof_of_work_threshold", CI64);
   ("tokens_per_roll", CBigNum);
   ("michelson_maximum_type_size", CNum);
   ("seed_nonce_revelation_tip", CBigNum);
   ("origination_size", CNum);
   ("block_security_deposit", CBigNum);
   ("endorsement_security_deposit", CBigNum);
   ("block_reward", CBigNum);
   ("endorsement_reward", CBigNum);
   ("cost_per_byte", CBigNum);
   ("hard_storage_limit_per_operation", CBigNum);
   ("test_chain_duration", CI64);
   ("quorum_min", CNum);
   ("quorum_max", CNum);
   ("min_proposal_quorum", CNum);
   ("initial_endorsers", CNum);
   ("delay_per_missing_endorsement", CI64)].
Definition as_map `{BigIntSerde} (self : rval) : option RpcJsonMap := insert_all conversions self.
End Proto005.

Module Proto005_2.
Definition FIXED : list (string * Z) :=
  [("proof_of_work_nonce_size", 8);
   ("nonce_length", 32);
   ("max_revelations_per_block", 32);
   ("max_operation_data_length", 16 * 1024);
   ("max_proposals_per_delegate", 20)].
Definition FixedConstants_as_map : RpcJsonMap := fixed_as_map FIXED.
Definition ParametricConstants : DeriveInput := decl_struct "ParametricConstants" []
  [fld "preserved_cycles" (ty "u8") [];
   fld "blocks_per_cycle" (ty "i32") [];
   fld "blocks_per_commitment" (ty "i32") [];
   fld "blocks_per_roll_snapshot" (ty "i32") [];
   fld "blocks_per_voting_period" (ty "i32") [];
   fld "time_between_blocks" (vec (ty "i64")) [word "dynamic"; word "list"];
   fld "endorsers_per_block" (ty "u16") [];
   fld "hard_gas_limit_per_operation" (ty "Zarith") [];
   fld "hard_gas_limit_per_block" (ty "Zarith") [];
   fld "proof_of_work_threshold" (ty "i64") [];
   fld "tokens_per_roll" (ty "Mutez") [];
   fld "michelson_maximum_type_size" (ty "u16") [];
   fld "seed_nonce_revelation_tip" (ty "Mutez") [];
   fld "origination_size" (ty "i32") [];
   fld "block_security_deposit" (ty "Mutez") [];
   fld "endorsement_security_deposit" (ty "Mutez") [];
   fld "block_reward" (ty "Mutez") [];
   fld "endorsement_reward" (ty "Mutez") [];
   fld "cost_per_byte" (ty "Mutez") [];
   fld "hard_storage_limit_per_operation" (ty "Zarith") [];
   fld "test_chain_duration" (ty "i64") [];
   fld "quorum_min" (ty "i32") [];
   fld "quorum_max" (ty "i32") [];
   fld "min_proposal_quorum" (ty "i32") [];
   fld "initial_endorsers" (ty "u16") [];
   fld "delay_per_missing_endorsement" (ty "i64") []].
Definition conversions : list (string * conversion) :=
  [("preserved_cycles", CNum);
   ("blocks_per_cycle", CNum);
   ("blocks_per_commitment", CNum);
   ("blocks_per_roll_snapshot", CNum);
   ("blocks_per_voting_period", CNum);
   ("time_between_blocks", CI64List);
   ("endorsers_per_block", CNum);
   ("hard_gas_limit_per_operation", CBigNum);
   ("hard_gas_limit_per_block", CBigNum);
   ("proof_of_work_threshold", CI64);
   ("tokens_per_roll", CBigNum);
   ("michelson_maximum_type_size", CNum);
   ("seed_nonce_revelation_tip", CBigNum);
   ("origination_size", CNum);
   ("block_security_deposit", CBigNum);
   ("endorsement_security_deposit", CBigNum);
   ("block_reward", CBigNum);
   ("endorsement_reward", CBigNum);
   ("cost_per_byte", CBigNum);
   ("hard_storage_limit_per_operation", CBigNum);
   ("test_chain_duration", CI64);
   ("quorum_min", CNum);
   ("quorum_max", CNum);
   ("min_proposal_quorum", CNum);
   ("initial_endorsers", CNum);
   ("delay_per_missing_endorsement", CI64)].
Definition as_map `{BigIntSerde} (self : rval) : option RpcJsonMap := insert_all conversions self.
End Proto005_2.

Module Proto006.
Definition FIXED : list (string * Z) :=
  [("proof_of_work_nonce_size", 8);
   ("nonce_length", 32);
   ("max_revelations_per_block", 32);
   ("max_operation_data_length", 16 * 1024);
   ("max_proposals_per_delegate", 20)].
Definition FixedConstants_as_map : RpcJsonMap := fixed_as_map FIXED.
Definition ParametricConstants : DeriveInput := decl_struct "ParametricConstants" []
  [fld "preserved_cycles" (ty "u8") [];
   fld "blocks_per_cycle" (ty "i32") [];
   fld "blocks_per_commitment" (ty "i32") [];
   fld "blocks_per_roll_snapshot" (ty "i32") [];
   fld "blocks_per_voting_period" (ty "i32") [];
   fld "time_between_blocks" (vec (ty "i64")) [word "dynamic"; word "list"];
   fld "endorsers_per_block" (ty "u16") [];
   fld "hard_gas_limit_per_operation" (ty "Zarith") [];
   fld "hard_gas_limit_per_block" (ty "Zarith") [];
   fld "proof_of_work_threshold" (ty "i64") [];
   fld "tokens_per_roll" (ty "Mutez") [];
   fld "michelson_maximum_type_size" (ty "u16") [];
   fld "seed_nonce_revelation_tip" (ty "Mutez") [];
   fld "origination_size" (ty "i32") [];
   fld "block_security_deposit" (ty "Mutez") [];
   fld "endorsement_security_deposit" (ty "Mutez") [];
   fld "baking_reward_per_endorsement" (vec (ty "Mutez")) [word "dynamic"; word "list"];
   fld "endorsement_reward" (vec (ty "Mutez")) [word "dynamic"; word "list"];
   fld "cost_per_byte" (ty "Mutez") [];
   fld "hard_storage_limit_per_operation" (ty "Zarith") [];
   fld "test_chain_duration" (ty "i64") [];
   fld "quorum_min" (ty "i32") [];
   fld "quorum_max" (ty "i32") [];
   fld "min_proposal_quorum" (ty "i32") [];
   fld "initial_endorsers" (ty "u16") [];
   fld "delay_per_missing_endorsement" (ty "i64") []].
Definition conversions : list (string * conversion) :=
  [("preserved_cycles", CNum);
   ("blocks_per_cycle", CNum);
   ("blocks_per_commitment", CNum);
   ("blocks_per_roll_snapshot", CNum);
   ("blocks_per_voting_period", CNum);
   ("time_between_blocks", CI64List);
   ("endorsers_per_block", CNum);
   ("hard_gas_limit_per_operation", CBigNum);
   ("hard_gas_limit_per_block", CBigNum);
   ("proof_of_work_threshold", CI64);
   ("tokens_per_roll", CBigNum);
   ("michelson_maximum_type_size", CNum);
   ("seed_nonce_revelation_tip", CBigNum);
   ("origination_size", CNum);
   ("block_security_deposit", CBigNum);
   ("endorsement_security_deposit", CBigNum);
   ("baking_reward_per_endorsement", CBigNumList);
   ("endorsement_reward", CBigNumList);
   ("cost_per_byte", CBigNum);
   ("hard_storage_limit_per_operation", CBigNum);
   ("test_chain_duration", CI64);
   ("quorum_min", CNum);
   ("quorum_max", CNum);
   ("min_proposal_quorum", CNum);
   ("initial_endorsers", CNum);
   ("delay_per_missing_endorsement", CI64)].
Definition as_map `{BigIntSerde} (self : rval) : option RpcJsonMap := insert_all conversions self.
End Proto006.

Module Proto007.
Definition FIXED : list (string * Z) :=
  [("proof_of_work_nonce_size", 8);
   ("nonce_length", 32);
   ("max_anon_ops_per_block", 132);
   ("max_operation_data_length", 16 * 1024);
   ("max_proposals_per_delegate", 20)].
Definition FixedConstants_as_map : RpcJsonMap := fixed_as_map FIXED.
Definition ParametricConstants : DeriveInput := decl_struct "ParametricConstants" []
  [fld "preserved_cycles" (ty "u8") [];
   fld "blocks_per_cycle" (ty "i32") [];
   fld "blocks_per_commitment" (ty "i32") [];
   fld "blocks_per_roll_snapshot" (ty "i32") [];
   fld "blocks_per_voting_period" (ty "i32") [];
   fld "time_between_blocks" (vec (ty "i64")) [word "dynamic"; word "list"];
   fld "endorsers_per_block" (ty "u16") [];
   fld "hard_gas_limit_per_operation" (ty "Zarith") [];
   fld "hard_gas_limit_per_block" (ty "Zarith") [];
   fld "proof_of_work_threshold" (ty "i64") [];
   fld "tokens_per_roll" (ty "Mutez") [];
   fld "michelson_maximum_type_size" (ty "u16") [];
   fld "seed_nonce_revelation_tip" (ty "Mutez") [];
   fld "origination_size" (ty "i32") [];
   fld "block_security_deposit" (ty "Mutez") [];
   fld "endorsement_security_deposit" (ty "Mutez") [];
   fld "baking_reward_per_endorsement" (vec (ty "Mutez")) [word "dynamic"; word "list"];
   fld "endorsement_reward" (vec (ty "Mutez")) [word "dynamic"; word "list"];
   fld "cost_per_byte" (ty "Mutez") [];
   fld "hard_storage_limit_per_operation" (ty "Zarith") [];
   fld "test_chain_duration" (ty "i64") [];
   fld "quorum_min" (ty "i32") [];
   fld "quorum_max" (ty "i32") [];
   fld "min_proposal_quorum" (ty "i32") [];
   fld "initial_endorsers" (ty "u16") [];
   fld "delay_per_missing_endorsement" (ty "i64") []].
Definition conversions : list (string * conversion) :=
  [("preserved_cycles", CNum);
   ("blocks_per_cycle", CNum);
   ("blocks_per_commitment", CNum);
   ("blocks_per_roll_snapshot", CNum);
   ("blocks_per_voting_period", CNum);
   ("time_between_blocks", CI64List);
   ("endorsers_per_block", CNum);
   ("hard_gas_limit_per_operation", CBigNum);
   ("hard_gas_limit_per_block", CBigNum);
   ("proof_of_work_threshold", CI64);
   ("tokens_per_roll", CBigNum);
   ("michelson_maximum_type_size", CNum);
   ("seed_nonce_revelation_tip", CBigNum);
   ("origination_size", CNum);
   ("block_security_deposit", CBigNum);
   ("endorsement_security_deposit", CBigNum);
   ("baking_reward_per_endorsement", CBigNumList);
   ("endorsement_reward", CBigNumList);
   ("cost_per_byte", CBigNum);
   ("hard_storage_limit_per_operation", CBigNum);
   ("test_chain_duration", CI64);
   ("quorum_min", CNum);
   ("quorum_max", CNum);
   ("min_proposal_quorum", CNum);
   ("initial_endorsers", CNum);
   ("delay_per_missing_endorsement", CI64)].
Definition as_map `{BigIntSerde} (self : rval) : option RpcJsonMap := insert_all conversions self.
End Proto007.

Module Proto008.
Definition FIXED : list (string * Z) :=
  [("proof_of_work_nonce_size", 8);
   ("nonce_length", 32);
   ("max_anon_ops_per_block", 132);
   ("max_operation_data_length", 16 * 1024);
   ("max_proposals_per_delegate", 20)].
Definition FixedConstants_as_map : RpcJsonMap := fixed_as_map FIXED.
Definition ParametricConstants : DeriveInput := decl_struct "ParametricConstants" []
  [fld "preserved_cycles" (ty "u8") [];
   fld "blocks_per_cycle" (ty "i32") [];
   fld "blocks_per_commitment" (ty "i32") [];
   fld "blocks_per_roll_snapshot" (ty "i32") [];
   fld "blocks_per_voting_period" (ty "i32") [];
   fld "time_between_blocks" (vec (ty "i64")) [word "dynamic"; word "list"];
   fld "endorsers_per_block" (ty "u16") [];
   fld "hard_gas_limit_per_operation" (ty "Zarith") [];
   fld "hard_gas_limit_per_block" (ty "Zarith") [];
   fld "proof_of_work_threshold" (ty "i64") [];
   fld "tokens_per_roll" (ty "Mutez") [];
   fld "michelson_maximum_type_size" (ty "u16") [];
   fld "seed_nonce_revelation_tip" (ty "Mutez") [];
   fld "origination_size" (ty "i32") [];
   fld "block_security_deposit" (ty "Mutez") [];
   fld "endorsement_security_deposit" (ty "Mutez") [];
   fld "baking_reward_per_endorsement" (vec (ty "Mutez")) [word "dynamic"; word "list"];
   fld "endorsement_reward" (vec (ty "Mutez")) [word "dynamic"; word "list"];
   fld "cost_per_byte" (ty "Mutez") [];
   fld "hard_storage_limit_per_operation" (ty "Zarith") [];
   fld "test_chain_duration" (ty "i64") [];
   fld "quorum_min" (ty "i32") [];
   fld "quorum_max" (ty "i32") [];
   fld "min_proposal_quorum" (ty "i32") [];
   fld "initial_endorsers" (ty "u16") [];
   fld "delay_per_missing_endorsement" (ty "i64") []].
Definition conversions : list (string * conversion) :=
  [("preserved_cycles", CNum);
   ("blocks_per_cycle", CNum);
   ("blocks_per_commitment", CNum);
   ("blocks_per_roll_snapshot", CNum);
   ("blocks_per_voting_period", CNum);
   ("time_between_blocks", CI64List);
   ("endorsers_per_block", CNum);
   ("hard_gas_limit_per_operation", CBigNum);
   ("hard_gas_limit_per_block", CBigNum);
   ("proof_of_work_threshold", CI64);
   ("tokens_per_roll", CBigNum);
   ("michelson_maximum_type_size", CNum);
   ("seed_nonce_revelation_tip", CBigNum);
   ("origination_size", CNum);
   ("block_security_deposit", CBigNum);
   ("endorsement_security_deposit", CBigNum);
   ("baking_reward_per_endorsement", CBigNumList);
   ("endorsement_reward", CBigNumList);
   ("cost_per_byte", CBigNum);
   ("hard_storage_limit_per_operation", CBigNum);
   ("test_chain_duration", CI64);
   ("quorum_min", CNum);
   ("quorum_max", CNum);
   ("min_proposal_quorum", CNum);
   ("initial_endorsers", CNum);
   ("delay_per_missing_endorsement", CI64)].
Definition as_map `{BigIntSerde} (self : rval) : option RpcJsonMap := insert_all conversions self.
End Proto008.

Module Proto008_2.
Definition FIXED : list (string * Z) :=
  [("proof_of_work_nonce_size", 8);
   ("nonce_length", 32);
   ("max_anon_ops_per_block", 132);
   ("max_operation_data_length", 16 * 1024);
   ("max_proposals_per_delegate", 20)].
Definition FixedConstants_as_map : RpcJsonMap := fixed_as_map FIXED.
Definition ParametricConstants : DeriveInput := decl_struct "ParametricConstants" []
  [fld "preserved_cycles" (ty "u8") [];
   fld "blocks_per_cycle" (ty "i32") [];
   fld "blocks_per_commitment" (ty "i32") [];
   fld "blocks_per_roll_snapshot" (ty "i32") [];
   fld "blocks_per_voting_period" (ty "i32") [];
   fld "time_between_blocks" (vec (ty "i64")) [word "dynamic"; word "list"];
   fld "endorsers_per_block" (ty "u16") [];
   fld "hard_gas_limit_per_operation" (ty "Zarith") [];
   fld "hard_gas_limit_per_block" (ty "Zarith") [];
   fld "proof_of_work_threshold" (ty "i64") [];
   fld "tokens_per_roll" (ty "Mutez") [];
   fld "michelson_maximum_type_size" (ty "u16") [];
   fld "seed_nonce_revelation_tip" (ty "Mutez") [];
   fld "origination_size" (ty "i32") [];
   fld "block_security_deposit" (ty "Mutez") [];
   fld "endorsement_security_deposit" (ty "Mutez") [];
   fld "baking_reward_per_endorsement" (vec (ty "Mutez")) [word "dynamic"; word "list"];
   fld "endorsement_reward" (vec (ty "Mutez")) [word "dynamic"; word "list"];
   fld "cost_per_byte" (ty "Mutez") [];
   fld "hard_storage_limit_per_operation" (ty "Zarith") [];
   fld "test_chain_duration" (ty "i64") [];
   fld "quorum_min" (ty "i32") [];
   fld "quorum_max" (ty "i32") [];
   fld "min_proposal_quorum" (ty "i32") [];
   fld "initial_endorsers" (ty "u16") [];
   fld "delay_per_missing_endorsement" (ty "i64") []].
Definition conversions : list (string * conversion) :=
  [("preserved_cycles", CNum);
   ("blocks_per_cycle", CNum);
   ("blocks_per_commitment", CNum);
   ("blocks_per_roll_snapshot", CNum);
   ("blocks_per_voting_period", CNum);
   ("time_between_blocks", CI64List);
   ("endorsers_per_block", CNum);
   ("hard_gas_limit_per_operation", CBigNum);
   ("hard_gas_limit_per_block", CBigNum);
   ("proof_of_work_threshold", CI64);
   ("tokens_per_roll", CBigNum);
   ("michelson_maximum_type_size", CNum);
   ("seed_nonce_revelation_tip", CBigNum);
   ("origination_size", CNum);
   ("block_security_deposit", CBigNum);
   ("endorsement_security_deposit", CBigNum);
   ("baking_reward_per_endorsement", CBigNumList);
   ("endorsement_reward", CBigNumList);
   ("cost_per_byte", CBigNum);
   ("hard_storage_limit_per_operation", CBigNum);
   ("test_chain_duration", CI64);
   ("quorum_min", CNum);
   ("quorum_max", CNum);
   ("min_proposal_quorum", CNum);
   ("initial_endorsers", CNum);
   ("delay_per_missing_endorsement", CI64)].
Definition as_map `{BigIntSerde} (self : rval) : option RpcJsonMap := insert_all conversions self.
End Proto008_2.
(** ** [protocol/mod.rs] *)
Inductive SupportedProtocol : Type :=
| P001 | P002 | P003 | P004 | P005 | P005_2 | P006 | P007 | P008 | P008_2.

#[export] Instance SupportedProtocol_eq_dec : EqDecision SupportedProtocol.
Proof. solve_decision. Defined.

Definition protocol_hash (p : SupportedProtocol) : bytes :=
  lit match p with
  | P001 => "PtCJ7pwoxe8JasnHY8YonnLYjcVHmhiARPJvqcC6VfHT5s8k8sY"
  | P002 => "PsYLVpVvgbLhAhoqAkMFUo6gudkJ9weNXhUYCiLDzcUpFpkk8Wt"
  | P003 => "PsddFKi32cMJ2qPjf43Qv5GDWLDPZb3T3bF6fLKiF5HtvHNU7aP"
  | P004 => "Pt24m4xiPbLDhVgVfABUjirbmda3yohdN82Sp9FeuAXJ4eV9otd"
  | P005 => "PsBABY5HQTSkA4297zNHfsZNKtxULfL18y95qb3m53QJiXGmrbU"
  | P005_2 => "PsBabyM1eUXZseaJdmXFApDSBqj8YBfwELoxZHHW77EMcAbbwAS"
  | P006 => "PsCARTHAGazKbHtnKfLzQg3kms52kSRpgnDY982a9oYsSXRLQEb"
  | P007 => "PsDELPH1Kxsxt8f9eWbxQeRxkjfbxoqM52jvs5Y5fBxWWh4ifpo"
  | P008 => "PtEdoTezd3RHSC31mpxxo1npxFjoWWcFgQtxapi51Z8TLu6v6Uq"
  | P008_2 => "PtEdo2ZkT9oKpimTah6x2embF25oss54njMuPzkJTEi5RqfdZFA"
  end.

(** [SupportedProtocol::iter()] and the map [init] makes. *)
Definition protocols : list SupportedProtocol :=
  [P001; P002; P003; P004; P005; P005_2; P006; P007; P008; P008_2].
Definition SUPPORTED_PROTOCOLS : gmap bytes SupportedProtocol :=
  fold_left (fun protos sp => <[protocol_hash sp := sp]> protos) protocols ∅.

Inductive UnsupportedProtocolError : Type := UnsupportedProtocol (protocol : bytes).

(** [TryFrom<&ProtocolHash>]; [None] is the [unreachable!] of [to_base58_check]. *)
Definition protocol_try_from `{Base58Crate, Sodium} (hash : bytes)
  : option (result UnsupportedProtocolError SupportedProtocol) :=
  protocol ← to_base58_check ProtocolHash hash;
  Some (match SUPPORTED_PROTOCOLS !! protocol with
        | Some proto => Ok proto
        | None => Err (UnsupportedProtocol protocol)
        end).

Inductive ContextConstantsDecodeError : Type := DecodeConstants (reason : BinaryReaderError).

Section Rpc.
Context `{BitVecCrate, BigIntCrate, NomCrate, SynCrate, BigIntSerde}.

(** [ParametricConstants::from_bytes]; [None]: the derive macro refuses the
    declaration. *)
Definition constants_from_bytes (decl : DeriveInput) (bs : bytes)
  : option (result BinaryReaderError rval) :=
  ti ← derive const constants_impl no_default decl; Some (from_bytes ti bs).

(** [from_bytes(bytes)?], then the map of what was read extended by [fixed]. *)
Definition read_and_extend (decl : DeriveInput) (as_map : rval -> option RpcJsonMap)
  (fixed : RpcJsonMap) (bs : bytes)
  : option (result ContextConstantsDecodeError (option RpcJsonMap)) :=
  r ← constants_from_bytes decl bs;
  match r with
  | Err e => Some (Err (DecodeConstants e))
  | Ok param => param_map ← as_map param; Some (Ok (Some (fixed ∪ param_map)))
  end.

Definition get_constants_for_rpc (bs : bytes) (protocol : SupportedProtocol)
  : option (result ContextConstantsDecodeError (option RpcJsonMap)) :=
  match protocol with
  | P001 =>
      read_and_extend Proto001.ParametricConstants
        (fun context_param => Proto001.as_map (Proto001.create_with_default_and_merge context_param))
        Proto001.FixedConstants_as_map bs
  | P002 =>
      read_and_extend Proto002.ParametricConstants
        (fun context_param => Proto002.as_map (Proto002.create_with_default_and_merge context_param))
        Proto002.FixedConstants_as_map bs
  | P003 =>
      read_and_extend Proto003.ParametricConstants
        (fun context_param => Proto003.as_map (Proto003.create_with_default_and_merge context_param))
        Proto003.FixedConstants_as_map bs
  | P004 =>
      read_and_extend Proto004.ParametricConstants
        (fun context_param => Proto004.as_map (Proto004.create_with_default_and_merge context_param))
        Proto004.FixedConstants_as_map bs
  | P005 =>
      read_and_extend Proto005.ParametricConstants Proto005.as_map
        Proto005.FixedConstants_as_map bs
  | P005_2 =>
      read_and_extend Proto005_2.ParametricConstants Proto005_2.as_map
        Proto005_2.FixedConstants_as_map bs
  | P006 =>
      read_and_extend Proto006.ParametricConstants Proto006.as_map
        Proto006.FixedConstants_as_map bs
  | P007 =>
      read_and_extend Proto007.ParametricConstants Proto007.as_map
        Proto007.FixedConstants_as_map bs
  | P008 =>
      read_and_extend Proto008.ParametricConstants Proto008.as_map
        Proto008.FixedConstants_as_map bs
  | P008_2 =>
      read_and_extend Proto008_2.ParametricConstants Proto008_2.as_map
        Proto008_2.FixedConstants_as_map bs
  end.
End Rpc.
