(* ===== verification/ConstantsFacts.v ===== *)
(** * Protocol constants: what the RPC answers

    The reader the macro makes for each protocol's constants returns fields the
    JSON map can convert, so [get_constants_for_rpc] answers exactly: an error
    when the bytes are not those of the structure, and otherwise a map with every
    constant of the protocol once - the fixed ones, and the parametric ones as
    read or as merged with the defaults. *)

From Stdlib Require Import ZArith Lia List Bool String.
From stdpp Require Import base option list numbers strings gmap.
From S2P Require Import Prelude Extern BitUtils CryptoHash Types Serializer BinaryWriter NomCrate NomReader ExternRef DeriveMake Derive RoundTrip Canonical Messages BinaryMessage PublicKeys ProtocolConstants.

(** ** A reference [num_bigint]: the sign, and the digits in base [2^32] *)
Fixpoint u32_digits (fuel : nat) (n : Z) : list Z :=
  match fuel with
  | O => []
  | S fuel => if n =? 0 then [] else n mod 2 ^ 32 :: u32_digits fuel (n / 2 ^ 32)
  end.
Definition digits_value : list Z -> Z := foldr (fun d acc => d + 2 ^ 32 * acc) 0.

Lemma u32_digits_value fuel : forall n, 0 <= n < 2 ^ Z.of_nat fuel -> digits_value (u32_digits fuel n) = n.
Proof.
  induction fuel as [|fuel IH]; intros n Hn; [simpl in *; lia|]. cbn [u32_digits].
  destruct (Z.eqb_spec n 0) as [->|]; [done|]. cbn [digits_value foldr]. fold digits_value.
  rewrite IH; [pose proof (Z.div_mod n (2 ^ 32)); lia|].
  rewrite Nat2Z.inj_succ, Z.pow_succ_r in Hn by lia. split; [apply Z.div_pos; lia|].
  apply Z.div_lt_upper_bound; lia.
Qed.

Definition reference_bigint_val (v : rval) : option Z :=
  match v with
  | RTuple [RI8 sign; RSeq l] =>
      ds ← mapM (fun v => match v with RU32 d => Some d | _ => None end) l;
      Some (sign * digits_value ds)
  | _ => None
  end.

#[export] Instance reference_bigint_serde : BigIntSerde.
Proof.
  refine {|
    bigint_rval z :=
      RTuple [RI8 (Z.sgn z);
              RSeq (RU32 <$> u32_digits (Z.to_nat (Z.succ (Z.log2 (Z.abs z)))) (Z.abs z))];
    bigint_val := reference_bigint_val |}.
  intros z. unfold reference_bigint_val.
  set (ds := u32_digits _ _).
  assert (mapM (fun v => match v with RU32 d => Some d | _ => None end) (RU32 <$> ds) = Some ds) as ->.
  { induction ds as [|d ds IH]; [done|]. rewrite fmap_cons. cbn [mapM mbind option_bind].
    by rewrite IH. }
  cbn [mbind option_bind]. unfold ds. rewrite u32_digits_value; [f_equal; lia|].
  rewrite Z2Nat.id by (pose proof (Z.log2_nonneg (Z.abs z)); lia).
  destruct (Z.eq_dec z 0) as [->|Hz]; [done|].
  pose proof (Z.log2_spec (Z.abs z)). lia.
Defined.

(** ** Maps built by insertion *)
Section Collect.
Context {C : Type} (step : string * C -> option (option UniversalValue)).

(** One round: [None] is a value of the wrong type, [Some None] inserts nothing. *)
Definition collect (l : list (string * C)) (ret : option RpcJsonMap) : option RpcJsonMap :=
  fold_left (fun ret f =>
    ret ← ret; o ← step f; Some (match o with Some u => <[f.1 := u]> ret | None => ret end)) l ret.

Lemma hm_get_notin (l : list (string * C)) k : k ∉ l.*1 -> hm_get k l = None.
Proof.
  induction l as [|[k' c] l IH]; [done|]. cbn. rewrite not_elem_of_cons. intros [Hk Hl].
  rewrite decide_False by done. by apply IH.
Qed.

Lemma hm_get_some (l : list (string * C)) k : is_Some (hm_get k l) <-> k ∈ l.*1.
Proof.
  split.
  - intros [c Hc]. destruct (decide (k ∈ l.*1)) as [|Hk]; [done|]. by rewrite hm_get_notin in Hc.
  - induction l as [|[k' c] l IH]; cbn; [by intros ?%not_elem_of_nil|].
    rewrite elem_of_cons. case_decide; [by eexists|]. intros [?|?]; [done|]. by apply IH.
Qed.

Lemma hm_get_in (l : list (string * C)) k c : hm_get k l = Some c -> (k, c) ∈ l.
Proof.
  induction l as [|[k' c'] l IH]; [done|]. cbn. case_decide as Hk.
  - intros [= ->]. subst. apply list_elem_of_here.
  - intros ?. apply list_elem_of_further. by apply IH.
Qed.

Lemma collect_lookup l : NoDup l.*1 -> Forall (fun f => is_Some (step f)) l -> forall ret,
  exists m, collect l (Some ret) = Some m /\
    forall key, m !! key =
      match (c ← hm_get key l; o ← step (key, c); o) with Some u => Some u | None => ret !! key end.
Proof.
  induction l as [|[k c] l IH]; intros Hnd Hall ret; [by exists ret|].
  apply NoDup_cons in Hnd as [Hk Hnd]. apply Forall_cons in Hall as [[o Ho] Hall].
  unfold collect. cbn [fold_left]. cbn [mbind option_bind]. rewrite Ho. cbn [mbind option_bind].
  destruct (IH Hnd Hall (match o with Some u => <[k := u]> ret | None => ret end)) as (m & Hm & Hl).
  exists m. split; [exact Hm|]. intros key. rewrite Hl. cbn [hm_get fst].
  destruct (decide (key = k)) as [->|Hne].
  - rewrite hm_get_notin by done. cbn [mbind option_bind]. rewrite Ho. cbn [mbind option_bind].
    destruct o; [by rewrite lookup_insert_eq|done].
  - destruct (hm_get key l) as [c'|]; cbn [mbind option_bind];
      [destruct (step (key, c')) as [[u|]|]; cbn [mbind option_bind]|];
      destruct o; by rewrite ?lookup_insert_ne by done.
Qed.
End Collect.

Lemma fixed_lookup fixed key : NoDup fixed.*1 ->
  fixed_as_map fixed !! key = Number <$> hm_get key fixed.
Proof.
  intros Hnd. destruct (collect_lookup (fun f => Some (Some (Number f.2))) fixed Hnd) with (ret := ∅ : RpcJsonMap)
    as (m & Hm & Hl); [apply Forall_forall; by eexists|].
  assert (Some (fixed_as_map fixed) = Some m) as [= ->].
  { rewrite <- Hm. unfold fixed_as_map, collect. generalize (∅ : RpcJsonMap). clear.
    induction fixed as [|f fixed IH]; intros m; [done|]. cbn [fold_left]. by rewrite IH. }
  rewrite Hl. by destruct (hm_get key fixed).
Qed.

(** ** Fields *)

(** The value of an optional field. *)
Definition present (v : option rval) : option rval :=
  match v with Some (RSome v) => Some v | _ => None end.

(** A field of the structure: convertible as it is, or an option of such. *)
Definition field_ok `{BigIntSerde} (optional : bool) (c : conversion) (v : rval) : Prop :=
  if optional then v = RNone \/ exists w, v = RSome w /\ is_Some (convert c w)
  else is_Some (convert c v).

Definition fields_ok `{BigIntSerde} (optional : bool) (conversions : list (string * conversion))
  (self : rval) : Prop :=
  Forall (fun f => exists v, get_field f.1 self = Some v /\ field_ok optional f.2 v) conversions.

Section Maps.
Context `{BigIntSerde}.

Lemma insert_all_lookup conversions self :
  NoDup conversions.*1 -> fields_ok false conversions self ->
  exists m, insert_all conversions self = Some m /\
    forall key, m !! key = (c ← hm_get key conversions; v ← get_field key self; convert c v).
Proof.
  intros Hnd Hok.
  destruct (collect_lookup (fun f => v ← get_field f.1 self; u ← convert f.2 v; Some (Some u))
              conversions Hnd) with (ret := ∅ : RpcJsonMap) as (m & Hm & Hl).
  { eapply Forall_impl; [exact Hok|]. intros f (v & Hv & u & Hu). rewrite Hv. simpl.
    rewrite Hu. by eexists. }
  exists m. split.
  - rewrite <- Hm. unfold insert_all, collect. generalize (Some (∅ : RpcJsonMap)). clear.
    induction conversions as [|f l IH]; intros o; [done|]. cbn [fold_left]. rewrite IH. f_equal.
    destruct o; [|done]. cbn [mbind option_bind]. destruct (get_field f.1 self); [|done].
    cbn [mbind option_bind]. by destruct (convert f.2 _).
  - intros key. rewrite Hl. destruct (hm_get key conversions); [|done]. cbn [mbind option_bind fst snd].
    destruct (get_field key self); [|done]. cbn [mbind option_bind]. by destruct (convert _ _).
Qed.

Lemma insert_present_lookup conversions self :
  NoDup conversions.*1 -> fields_ok true conversions self ->
  exists m, insert_present conversions self = Some m /\
    forall key, m !! key =
      (c ← hm_get key conversions; v ← present (get_field key self); convert c v).
Proof.
  intros Hnd Hok.
  set (step := fun f : string * conversion =>
    v ← get_field f.1 self;
    match v with
    | RSome v => u ← convert f.2 v; Some (Some u)
    | RNone => Some None
    | _ => None
    end).
  destruct (collect_lookup step conversions Hnd) with (ret := ∅ : RpcJsonMap) as (m & Hm & Hl).
  { eapply Forall_impl; [exact Hok|]. intros f (v & Hv & [->|(w & -> & u & Hu)]); unfold step;
      rewrite Hv; cbn; rewrite ?Hu; by eexists. }
  exists m. split.
  - rewrite <- Hm. unfold insert_present, collect. generalize (Some (∅ : RpcJsonMap)). clear.
    induction conversions as [|f l IH]; intros o; [done|]. cbn [fold_left]. rewrite IH. f_equal.
    destruct o; [|done]. unfold step. cbn [mbind option_bind].
    destruct (get_field f.1 self) as [[]|]; try done. cbn [mbind option_bind]. by destruct (convert f.2 _).
  - intros key. rewrite Hl. destruct (hm_get key conversions); [|done]. unfold step.
    cbn [mbind option_bind fst snd].
    destruct (get_field key self) as [[]|]; try done. cbn. by destruct (convert _ _).
Qed.
End Maps.

(** ** Merging *)
Definition replaced (v : rval) (o : option rval) : option rval :=
  match o with Some _ => Some v | None => None end.

Lemma get_set_field key name v self :
  get_field key (set_field name v self) =
    if decide (key = name) then replaced v (get_field key self) else get_field key self.
Proof.
  destruct self; cbn [set_field get_field]; try (by case_decide).
  induction fields as [|[n w] fields IH]; [by case_decide|]. rewrite fmap_cons. cbn [fst].
  destruct (decide (n = name)) as [->|Hn]; cbn [hm_get]; rewrite IH; repeat case_decide; by subst.
Qed.

(** Both ways to merge write [w name] over the fields that have one. *)
Definition overwrite (w : string -> option rval) (names : list string) (self : rval) : rval :=
  fold_left (fun param name =>
    match w name with Some v => set_field name v param | None => param end) names self.

Lemma get_overwrite w names key : forall self,
  get_field key (overwrite w names self) =
    match (if decide (key ∈ names) then w key else None) with
    | Some v => replaced v (get_field key self)
    | None => get_field key self
    end.
Proof.
  unfold overwrite. induction names as [|n names IH]; intros self; [done|]. cbn [fold_left].
  rewrite IH. clear IH.
  assert (E : get_field key (match w n with Some v => set_field n v self | None => self end) =
    match (if decide (key = n) then w key else None) with
    | Some v => replaced v (get_field key self) | None => get_field key self end).
  { destruct (decide (key = n)) as [->|Hne]; destruct (w n); try done;
      rewrite get_set_field; by case_decide. }
  rewrite E. clear E.
  destruct (decide (key ∈ n :: names)) as [Hk|Hk]; rewrite elem_of_cons in Hk;
    destruct (decide (key ∈ names)), (decide (key = n)); try tauto;
    destruct (w key); try done; by destruct (get_field key self).
Qed.

Lemma overwrite_present_as context default :
  overwrite_present context default =
    overwrite (fun name => RSome <$> present (get_field name context)) MODIFIABLE default.
Proof.
  unfold overwrite_present, overwrite. generalize MODIFIABLE. intros l. revert default.
  induction l as [|n l IH]; intros d; [done|]. cbn [fold_left]. rewrite IH. f_equal.
  by destruct (get_field n context) as [[]|].
Qed.

(** ** Readers *)
Section Readers.
Context `{BitVecCrate, BigIntCrate, NomCrate, SynCrate, BigIntSerde}.

(** What a reader accepts has the type, and is a non-empty prefix of its input. *)
Definition sound {A} (T : A -> Prop) (p : parser A) : Prop :=
  forall i rest v, slice i -> p i = Ok (rest, v) ->
    T v /\ slice rest /\ (length rest < length i)%nat.

Lemma sound_map {A B} (T : A -> Prop) (U : B -> Prop) (f : A -> B) p :
  (forall a, T a -> U (f a)) -> sound T p -> sound U (nom_map p f).
Proof.
  intros Hf Hp i rest v Hi (a & Ea & ->)%map_inv. destruct (Hp i rest a Hi Ea) as (Ha & Hr).
  by split; [apply Hf|].
Qed.

Lemma sound_number k : sound (number_range k) (nom_number k).
Proof.
  intros i rest z Hi E. destruct (number_inv k i rest z (proj1 Hi) E) as [Hz ->].
  split; [done|]. split; [by apply slice_app in Hi as [_ ?]|].
  rewrite length_app, be_bytes_length. destruct k; simpl; lia.
Qed.

Lemma bits_loop_sound fuel : forall has_next i bits rest r, slice i ->
  bits_loop fuel has_next i bits = Ok (rest, r) ->
  slice rest /\ (length rest <= length i)%nat /\ (has_next = true -> (length rest < length i)%nat).
Proof.
  induction fuel as [|fuel IH]; intros [] i bits rest r Hi; cbn [bits_loop]; try done;
    try (intros [= <- <-]; by split).
  destruct (nom_number NU8 i) as [[k b]|] eqn:En; [|done].
  destruct (sound_number NU8 i k b Hi En) as (_ & Hk & Hl).
  destruct (push_bits 7 0 b bits) as [bits'|]; [|done].
  destruct (Bits.get Bits.U8 b 7) as [next|]; [|done]. intros E.
  destruct (IH next k bits' rest r Hk E) as (Hr & Hle & _). split; [done|]. split; [lia|]. intros _. lia.
Qed.

Lemma sound_mutez : sound (fun _ => True) mutez.
Proof.
  intros i rest z Hi. unfold mutez.
  destruct (bits_loop (S (length i)) true i bv_new) as [[k bits]|] eqn:E; [|done]. intros [= <- <-].
  destruct (bits_loop_sound _ true i _ k bits Hi E) as (Hr & _ & Hl). by split; [|split; [|apply Hl]].
Qed.

Lemma sound_zarith : sound (fun _ => True) zarith.
Proof.
  intros i rest z Hi. unfold zarith. destruct (nom_number NU8 i) as [[k b]|] eqn:En; [|done].
  destruct (sound_number NU8 i k b Hi En) as (_ & Hk & Hl).
  destruct (Bits.take Bits.U8 b 7) as [[next b1]|]; [|done].
  destruct (Bits.take Bits.U8 b1 6) as [[neg b2]|]; [|done].
  destruct next; cbn [negb]; [|by intros [= <- <-]].
  destruct (push_bits 6 0 b2 bv_new) as [bits|]; [|done].
  destruct (bits_loop (S (length k)) true k bits) as [[k' bits']|] eqn:E; [|done]. intros [= <- <-].
  destruct (bits_loop_sound _ true k _ k' bits' Hk E) as (Hr & Hle & _). repeat split; [apply Hr..|lia].
Qed.

Lemma sound_many {A} (T : A -> Prop) p : sound T p -> forall n i acc rest l,
  (length i <= n)%nat -> slice i -> Forall T acc ->
  nom_fold_many0 p acc push_back i = Ok (rest, l) -> Forall T l.
Proof.
  intros Hp. induction n as [|n IH]; intros i acc rest l Hn Hi Hacc E;
    (destruct (p i) as [[k v]|[|er|er]] eqn:Ep;
      [destruct (Hp i k v Hi Ep) as (Hv & Hk & Hlt)
      |by rewrite (nom_fold_many0_fail _ _ _ _ _ Ep) in E
      |rewrite (nom_fold_many0_stop _ _ _ _ _ Ep) in E; by injection E as _ <-
      |by rewrite (nom_fold_many0_fail _ _ _ _ _ Ep) in E]); [lia|].
  rewrite (nom_fold_many0_step _ _ _ _ _ _ Ep Hlt) in E.
  apply (IH k _ rest l) in E; [done|lia|done|]. apply Forall_app. by split; [|constructor].
Qed.

Lemma sound_dynamic_list (T : rval -> Prop) (U : rval -> Prop) p :
  (forall l, Forall T l -> U (RSeq l)) -> sound T p -> sound U (dynamic (nom_map (list_ p) RSeq)).
Proof.
  intros HU Hp i rest v Hi. unfold dynamic. rewrite nom_length_value_ok.
  destruct (size i) as [[k n]|] eqn:En; [|done].
  destruct (sound_number NU32 i k n Hi En) as (Hn & Hk & Hl).
  destruct (zlen k <? n); [done|]. rewrite <- (take_drop (Z.to_nat n) k) in Hk.
  apply slice_app in Hk as [Ht Hd].
  destruct (nom_all_consuming _ _) as [[r w]|[]] eqn:Ep; try done. intros [= <- <-].
  apply all_consuming_inv, map_inv in Ep as (l & El & ->). split.
  - apply HU. by apply (sound_many T p Hp _ _ _ _ _ (le_n _) Ht (List.Forall_nil _) El).
  - split; [done|]. rewrite length_drop. lia.
Qed.

Lemma sound_option (T : rval -> Prop) p : sound T p ->
  sound (fun v => v = RNone \/ exists w, v = RSome w /\ T w) (generate_optional_field_nom_read p).
Proof.
  intros Hp i rest v Hi (o & [(k & -> & Ek)%preceded_inv|(k & -> & Ek)%preceded_inv]%alt_inv & ->)%map_inv;
    apply slice_app in Hi as [_ Hk]; rewrite length_app.
  - rewrite nom_success_ok in Ek. injection Ek as <- <-. repeat split; [by left|apply Hk..|simpl; lia].
  - apply map_inv in Ek as (w & Ew & ->). destruct (Hp k rest w Hk Ew) as (Hw & Hr & Hl).
    split; [right; by exists w|]. split; [done|]. simpl. lia.
Qed.
End Readers.

(** ** The structures *)

(** The tree of a field gives a reader whose values the conversion takes. *)
Definition big_path (path : list string) : bool :=
  bool_decide (path = ["Zarith"]) || bool_decide (path = ["Mutez"]).

Definition scalar_reads (c : conversion) (d : denc) : bool :=
  match c, d with
  | CNum, (DPrimitive PUint8 | DPrimitive PUint16 | DPrimitive PInt32) => true
  | CI64, DPrimitive PInt64 => true
  | CBigNum, DPath path => big_path path
  | _, _ => false
  end.

Definition element (c : conversion) : option conversion :=
  match c with CI64List => Some CI64 | CBigNumList => Some CBigNum | _ => None end.

Definition reads (c : conversion) (d : denc) : bool :=
  match element c with
  | Some c => match d with DDynamic None (DList None d) => scalar_reads c d | _ => false end
  | None => scalar_reads c d
  end.

Definition field_reads (optional : bool) (c : conversion) (d : denc) : bool :=
  if optional then match d with DOptionField d => reads c d | _ => false end else reads c d.

Fixpoint struct_reads (optional : bool) (conversions : list (string * conversion))
  (fields : list (string * option denc)) : bool :=
  match conversions, fields with
  | [], [] => true
  | (n, c) :: conversions, (n', Some d) :: fields =>
      String.eqb n n' && field_reads optional c d && struct_reads optional conversions fields
  | _, _ => false
  end.

Section Structures.
Context `{BitVecCrate, BigIntCrate, NomCrate, SynCrate, BigIntSerde}.

Abbreviation gen_enc := (generate_encoding const constants_impl).
Abbreviation gen_nom := (generate_nom_read const constants_impl no_default).

Lemma sound_big path : big_path path = true ->
  sound (fun v => is_Some (convert CBigNum v)) (ti_nom_read (constants_impl path)).
Proof.
  assert (Hbig : forall z, is_Some (convert CBigNum (big z))).
  { intros z. cbn [convert]. unfold big_num. rewrite big_val_big. by eexists. }
  unfold big_path, constants_impl. intros [->%bool_decide_eq_true| ->%bool_decide_eq_true]%orb_true_iff.
  - rewrite decide_True by done. apply (sound_map (fun _ => True)); [done|apply sound_zarith].
  - rewrite decide_False, decide_True by done. apply (sound_map (fun _ => True)); [done|apply sound_mutez].
Qed.

Abbreviation converts c := (fun v => is_Some (convert c v)).

Lemma scalar_sound c d : scalar_reads c d = true ->
  exists e p, gen_enc d = Some e /\ gen_nom d = Some p /\ sound (converts c) p.
Proof.
  assert (Hnum : forall k R, (forall z, is_Some (convert c (R z))) ->
    sound (converts c) (nom_map (nom_number k) R)).
  { intros k R Hc. apply (sound_map (number_range k)); [intros z _; apply Hc|apply sound_number]. }
  destruct c, d as [|[]| |path| | | | | | | | | |]; try done; intros Hr;
    (eexists _, _; split; [reflexivity|split; [reflexivity|]]);
    try (apply Hnum; by eexists).
  by apply sound_big.
Qed.

Lemma list_converts c c' l : element c = Some c' -> Forall (converts c') l -> converts c (RSeq l).
Proof.
  intros Hc Hl. apply mapM_is_Some_2 in Hl as [us Hus].
  destruct c; try discriminate Hc; injection Hc as <-; cbn in Hus |- *; rewrite Hus; by eexists.
Qed.

Lemma reads_sound c d : reads c d = true ->
  exists e p, gen_enc d = Some e /\ gen_nom d = Some p /\ sound (converts c) p.
Proof.
  unfold reads. destruct (element c) as [c'|] eqn:Ec; [|apply scalar_sound].
  destruct d as [| | | | | | | | | | | | |[]d]; try done. destruct d as [| | | | | | | | | |[]d| | |]; try done.
  intros (e & p & He & Hp & Hs)%scalar_sound.
  exists (EDynamic (EList e)), (dynamic (nom_map (list_ p) RSeq)). cbn. rewrite He, Hp.
  do 2 (split; [done|]). apply (sound_dynamic_list (converts c')); [|done].
  intros l. by apply list_converts.
Qed.

Lemma field_reads_sound optional c d : field_reads optional c d = true ->
  exists e p, gen_enc d = Some e /\ gen_nom d = Some p /\ sound (field_ok optional c) p.
Proof.
  unfold field_reads, field_ok. destruct optional; [|apply reads_sound].
  destruct d; try done. intros (e & p & He & Hp & Hs)%reads_sound.
  exists (EOptionalField e), (generate_optional_field_nom_read p). cbn. rewrite He, Hp.
  do 2 (split; [done|]). by apply sound_option.
Qed.

(** What the macro makes of the fields. *)
Lemma struct_reads_sound optional name conversions : forall fields,
  struct_reads optional conversions fields = true ->
  exists es fps, encoded_fields gen_enc fields = Some es /\
    opt_map (fun f : string * option denc =>
       match f.2 with
       | Some d => p ← gen_nom d; Some (f.1, p)
       | None => Some (f.1, fun i => Ok (i, no_default name f.1))
       end) fields = Some fps /\
    Forall2 (fun f (fp : string * parser rval) => f.1 = fp.1 /\ sound (field_ok optional f.2) fp.2)
      conversions fps.
Proof.
  induction conversions as [|[n c] conversions IH]; intros [|[n' [d|]] fields]; try done.
  { intros _. exists [], []. by split. }
  cbn [struct_reads]. intros [[->%String.eqb_eq Hd]%andb_true_iff Hr]%andb_true_iff.
  destruct (field_reads_sound _ _ _ Hd) as (e & p & He & Hp & Hs).
  destruct (IH _ Hr) as (es & fps & Hes & Hfps & Hall).
  exists ((n', e) :: es), ((n', p) :: fps). cbn [encoded_fields opt_map fst snd].
  rewrite He, Hp, Hes, Hfps. repeat split; by constructor.
Qed.

(** The values the fields' readers return, in sequence. *)
Lemma sequence_sound optional conversions (fps : list (string * parser rval)) :
  Forall2 (fun f fp => f.1 = fp.1 /\ sound (field_ok optional f.2) fp.2) conversions fps ->
  forall i rest vs, slice i -> sequence (snd <$> fps) i = Ok (rest, vs) ->
  Forall2 (fun (f : string * conversion) v => field_ok optional f.2 v) conversions vs.
Proof.
  induction 1 as [|f fp conversions fps [_ Hs] _ IH]; intros i rest vs Hi.
  { intros [= <- <-]. constructor. }
  rewrite fmap_cons. cbn [sequence]. destruct (fp.2 i) as [[k v]|] eqn:Ep; [|done].
  destruct (Hs i k v Hi Ep) as (Hv & Hk & _).
  destruct (sequence (snd <$> fps) k) as [[k' vs']|] eqn:Es; [|done]. intros [= <- <-].
  constructor; [done|]. by apply (IH k k').
Qed.

Lemma struct_fields optional (conversions : list (string * conversion)) vs :
  NoDup conversions.*1 ->
  Forall2 (fun (f : string * conversion) v => field_ok optional f.2 v) conversions vs ->
  fields_ok optional conversions (build_struct conversions.*1 vs).
Proof.
  intros Hnd Hall. unfold fields_ok, build_struct. cbn [get_field].
  induction Hall as [|[n c] v conversions vs Hv Hall IH]; [constructor|].
  apply NoDup_cons in Hnd as [Hn Hnd]. cbn [fmap list_fmap fst zip zip_with hm_get].
  constructor; [exists v; by rewrite decide_True|].
  apply Forall_forall. intros f Hf. specialize (IH Hnd). rewrite Forall_forall in IH.
  destruct (IH f Hf) as (w & Hw & Hok). exists w. rewrite decide_False; [done|].
  intros E. apply (list_elem_of_fmap_2 fst) in Hf. rewrite E in Hf. exact (Hn Hf).
Qed.
End Structures.

(** ** The protocols *)
Definition parametric (p : SupportedProtocol) : DeriveInput :=
  match p with
  | P001 => Proto001.ParametricConstants | P002 => Proto002.ParametricConstants
  | P003 => Proto003.ParametricConstants | P004 => Proto004.ParametricConstants
  | P005 => Proto005.ParametricConstants | P005_2 => Proto005_2.ParametricConstants
  | P006 => Proto006.ParametricConstants | P007 => Proto007.ParametricConstants
  | P008 => Proto008.ParametricConstants | P008_2 => Proto008_2.ParametricConstants
  end.
Definition fixed (p : SupportedProtocol) : list (string * Z) :=
  match p with
  | P001 => Proto001.FIXED | P002 => Proto002.FIXED | P003 => Proto003.FIXED
  | P004 => Proto004.FIXED | P005 => Proto005.FIXED | P005_2 => Proto005_2.FIXED
  | P006 => Proto006.FIXED | P007 => Proto007.FIXED | P008 => Proto008.FIXED
  | P008_2 => Proto008_2.FIXED
  end.
Definition conversions (p : SupportedProtocol) : list (string * conversion) :=
  match p with
  | P001 => Proto001.conversions | P002 => Proto002.conversions | P003 => Proto003.conversions
  | P004 => Proto004.conversions | P005 => Proto005.conversions | P005_2 => Proto005_2.conversions
  | P006 => Proto006.conversions | P007 => Proto007.conversions | P008 => Proto008.conversions
  | P008_2 => Proto008_2.conversions
  end.

(** The first four have optional fields and defaults. *)
Definition optional (p : SupportedProtocol) : bool :=
  match p with P001 | P002 | P003 | P004 => true | _ => false end.
Definition defaults `{BigIntSerde} (p : SupportedProtocol) : rval :=
  match p with
  | P001 => Proto001.default | P002 => Proto002.default
  | P003 => Proto003.default | P004 => Proto004.default
  | _ => RUnit
  end.

(** *** Specification *)

(** The value of a parametric constant, from the constants the context keeps. *)
Definition constant_value `{BigIntSerde} (p : SupportedProtocol) (context : rval) (key : string)
  : option rval :=
  if optional p then
    let from_context := present (get_field key context) in
    let from_default := present (get_field key (defaults p)) in
    if decide (key ∈ MODIFIABLE) then
      if decide (p = P001) then from_context
      else match from_context with Some v => Some v | None => from_default end
    else from_default
  else get_field key context.

(** What the RPC answers under [key]. *)
Definition rpc_constant `{BigIntSerde} (p : SupportedProtocol) (context : rval) (key : string)
  : option UniversalValue :=
  match hm_get key (fixed p) with
  | Some n => Some (Number n)
  | None => c ← hm_get key (conversions p); v ← constant_value p context key; convert c v
  end.

(** *** The declarations, evaluated *)
Definition check (p : SupportedProtocol) : bool :=
  bool_decide (NoDup (fixed p).*1 /\ NoDup (conversions p).*1 /\
    Forall (fun key => key ∉ (conversions p).*1) (fixed p).*1).

Lemma checked p : NoDup (fixed p).*1 /\ NoDup (conversions p).*1 /\
  Forall (fun key => key ∉ (conversions p).*1) (fixed p).*1.
Proof. apply (bool_decide_eq_true_1 _). destruct p; vm_compute; reflexivity. Qed.

Definition struct_tree (p : SupportedProtocol) : list (string * option denc) :=
  match make_encoding (H := reference_syn) (parametric p) with
  | Ok (DStruct _ fields) => fields
  | _ => []
  end.

Lemma parametric_tree `{SynCrate} p :
  make_encoding (parametric p) = Ok (DStruct "ParametricConstants" (struct_tree p)).
Proof. destruct p; reflexivity. Qed.

Lemma parametric_reads p : struct_reads (optional p) (conversions p) (struct_tree p) = true.
Proof. destruct p; vm_compute; reflexivity. Qed.

Lemma default_fields `{BigIntSerde} p : optional p = true ->
  Forall (fun f => exists v, get_field f.1 (defaults p) = Some (RSome v) /\ is_Some (convert f.2 v))
    (conversions p).
Proof.
  intros Ho. destruct p; try discriminate Ho; cbn [conversions defaults];
    repeat (apply List.Forall_cons; [eexists; split; [reflexivity|]; cbn [convert fst snd];
      first [by eexists | unfold big_num; rewrite big_val_big; by eexists]|]); constructor.
Qed.

(** *** What is read *)
Section Rpc.
Context `{BitVecCrate, BigIntCrate, NomCrate, SynCrate, BigIntSerde}.

Lemma from_bytes_inv ti i v : from_bytes ti i = Ok v -> ti_nom_read ti i = Ok ([], v).
Proof.
  unfold from_bytes, all_consuming_complete_input.
  rewrite nom_finish_ok, nom_all_consuming_ok, nom_complete_ok.
  destruct (ti_nom_read ti i) as [[[|] a]|[| |]]; try done. by intros [= <-].
Qed.

Lemma parametric_read p bs : slice bs ->
  exists r, constants_from_bytes (parametric p) bs = Some r /\
    forall v, r = Ok v -> fields_ok (optional p) (conversions p) v.
Proof.
  intros Hbs. destruct (struct_reads_sound _ "ParametricConstants" _ _ (parametric_reads p))
    as (es & fps & Hes & Hfps & Hall).
  unfold constants_from_bytes, derive. rewrite parametric_tree. cbn [generate_encoding generate_nom_read].
  rewrite Hes, Hfps. cbn [mbind option_bind]. eexists. split; [reflexivity|].
  intros v (vs & Es & ->)%from_bytes_inv%struct_inv.
  assert (En : fps.*1 = (conversions p).*1).
  { clear -Hall. induction Hall as [|f fp l fps [E _] _ IH]; [done|]. by rewrite !fmap_cons, E, IH. }
  change (fields_ok (optional p) (conversions p) (build_struct (fps.*1) vs)). rewrite En.
  apply struct_fields; [by destruct (checked p) as (_ & ? & _)|].
  by apply (sequence_sound _ _ fps Hall bs []).
Qed.

(** *** What is merged *)
Definition merged (p : SupportedProtocol) (context : rval) : rval :=
  if optional p then
    if decide (p = P001) then overwrite_modifiable context (defaults p)
    else overwrite_present context (defaults p)
  else context.

Lemma merged_field p context key c : fields_ok (optional p) (conversions p) context ->
  hm_get key (conversions p) = Some c ->
  exists v, get_field key (merged p context) = Some v /\ field_ok (optional p) c v /\
    constant_value p context key = (if optional p then present (Some v) else Some v).
Proof.
  intros Hok Hc%hm_get_in. unfold fields_ok in Hok. rewrite Forall_forall in Hok.
  destruct (Hok _ Hc) as (v & Hv & Hf). cbn [fst snd] in *.
  unfold merged, constant_value, field_ok in *. destruct (optional p) eqn:Ho; [|by exists v].
  destruct (proj1 (Forall_forall _ _) (default_fields p Ho) _ Hc) as (d & Hd & Hdc). cbn [fst snd] in *.
  assert (Hdok : field_ok true c (RSome d)) by (right; by exists d).
  case_decide as Hp.
  - change overwrite_modifiable with (fun context => overwrite (fun n => get_field n context) MODIFIABLE).
    cbn beta. rewrite get_overwrite, Hd, Hv. case_decide; cbn; eauto.
  - rewrite overwrite_present_as, get_overwrite, Hd, Hv. case_decide; [|eauto].
    destruct Hf as [->|(w & -> & Hw)]; cbn; eauto 10.
Qed.

Lemma merged_ok p context : fields_ok (optional p) (conversions p) context ->
  fields_ok (optional p) (conversions p) (merged p context).
Proof.
  intros Hok. destruct (checked p) as (_ & Hnd & _). apply Forall_forall. intros [key c] Hin.
  destruct (merged_field p context key c Hok) as (v & Hv & Hf & _); [|by exists v].
  clear -Hin Hnd. induction (conversions p) as [|[k d] l IH]; [by apply not_elem_of_nil in Hin|].
  apply NoDup_cons in Hnd as [Hk Hnd]. cbn. apply elem_of_cons in Hin as [[= -> ->]|Hin].
  - by rewrite decide_True.
  - rewrite decide_False; [by apply IH|]. intros ->. apply Hk. exact (list_elem_of_fmap_2 fst _ _ Hin).
Qed.

(** From protocol 002 on no constant is left out. *)
Lemma constant_present p context key c : p <> P001 ->
  fields_ok (optional p) (conversions p) context -> hm_get key (conversions p) = Some c ->
  is_Some (v ← constant_value p context key; convert c v).
Proof.
  intros Hp Hok Hc. destruct (merged_field p context key c Hok Hc) as (v & Hv & Hf & Ev).
  apply hm_get_in in Hc. unfold field_ok in Hf. rewrite Ev. destruct (optional p) eqn:Ho; [|done].
  destruct Hf as [->|(w & -> & Hw)]; [|done]. exfalso. revert Ev. unfold constant_value. rewrite Ho.
  destruct (proj1 (Forall_forall _ _) (default_fields p Ho) _ Hc) as (d & Hd & _). cbn [fst] in Hd.
  rewrite Hd, (decide_False (P := p = P001)) by done. case_decide; [|done]. by destruct (present _).
Qed.

(** The answer, uniformly in the protocol. *)
Definition merged_map (p : SupportedProtocol) (context : rval) : option RpcJsonMap :=
  if optional p then insert_present (conversions p) (merged p context)
  else insert_all (conversions p) (merged p context).

Lemma constants_uniform bs p :
  get_constants_for_rpc bs p =
    read_and_extend (parametric p) (merged_map p) (fixed_as_map (fixed p)) bs.
Proof.
  assert (E : forall decl f g m, (forall v, f v = g v) ->
    read_and_extend decl f m bs = read_and_extend decl g m bs).
  { intros decl f g m Hfg. unfold read_and_extend. destruct (constants_from_bytes decl bs) as [[]|]; cbn;
      by rewrite ?Hfg. }
  destruct p; apply E; intros v; unfold merged_map, merged; cbn [optional];
    rewrite ?decide_True by done; rewrite ?decide_False by done; reflexivity.
Qed.

Lemma merged_map_lookup p context : fields_ok (optional p) (conversions p) context ->
  exists m, merged_map p context = Some m /\
    forall key, m !! key = (c ← hm_get key (conversions p); v ← constant_value p context key; convert c v).
Proof.
  intros Hok. destruct (checked p) as (_ & Hnd & _). pose proof (merged_ok p context Hok) as Hm.
  assert (Hv : forall key c, hm_get key (conversions p) = Some c ->
    constant_value p context key = (if optional p then present (get_field key (merged p context))
                                    else get_field key (merged p context))).
  { intros key c Hc. by destruct (merged_field p context key c Hok Hc) as (v & -> & _ & ->). }
  unfold merged_map. destruct (optional p) eqn:Ho.
  - destruct (insert_present_lookup _ _ Hnd Hm) as (m & -> & Hl). exists m. split; [done|].
    intros key. rewrite Hl. destruct (hm_get key (conversions p)) as [c|] eqn:Ec; [|done].
    by rewrite (Hv key c Ec).
  - destruct (insert_all_lookup _ _ Hnd Hm) as (m & -> & Hl). exists m. split; [done|].
    intros key. rewrite Hl. destruct (hm_get key (conversions p)) as [c|] eqn:Ec; [|done].
    by rewrite (Hv key c Ec).
Qed.
End Rpc.

(** (C28) The constants of a protocol over RPC.  The derive macro accepts the
    declaration of every protocol's constants.  Bytes that are not those of the
    structure give the decoding error; any other bytes give a map in which every
    key has the value of [rpc_constant]: the fixed constants, and the parametric
    ones as read, or - protocols 001 to 004 - the four modifiable ones from the
    context over the defaults.  No fixed constant shadows a parametric one, and
    from protocol 002 on every constant is present. *)
Theorem constants_for_rpc
  `{BitVecCrate, BigIntCrate, NomCrate, SynCrate, BigIntSerde}
  (p : SupportedProtocol) (bs : bytes) : slice bs ->
  exists r, constants_from_bytes (parametric p) bs = Some r /\
    match r with
    | Err e => get_constants_for_rpc bs p = Some (Err (DecodeConstants e))
    | Ok context => exists m, get_constants_for_rpc bs p = Some (Ok (Some m)) /\
        (forall key, m !! key = rpc_constant p context key) /\
        (forall key, key ∈ (fixed p).*1 -> key ∉ (conversions p).*1) /\
        (p <> P001 -> forall key, key ∈ (conversions p).*1 -> is_Some (m !! key))
    end.
Proof.
  intros Hbs. destruct (parametric_read p bs Hbs) as (r & Hr & Hok). exists r. split; [done|].
  rewrite constants_uniform. unfold read_and_extend. rewrite Hr. cbn [mbind option_bind].
  destruct r as [context|e]; [|done]. specialize (Hok context eq_refl).
  destruct (merged_map_lookup p context Hok) as (m & -> & Hm). cbn [mbind option_bind].
  destruct (checked p) as (Hnf & _ & Hdisj). rewrite Forall_forall in Hdisj.
  assert (Hl : forall key, (fixed_as_map (fixed p) ∪ m) !! key = rpc_constant p context key).
  { intros key. unfold rpc_constant. rewrite lookup_union, fixed_lookup, Hm by done.
    destruct (hm_get key (fixed p)); cbn; [by rewrite union_Some_l|by rewrite (left_id _ _)]. }
  eexists. split; [done|]. split; [done|]. split; [done|]. intros Hp key Hk. rewrite Hl.
  unfold rpc_constant. rewrite (hm_get_notin (fixed p)) by (intros Hf; by apply (Hdisj key)).
  destruct (proj2 (hm_get_some _ _) Hk) as [c Hc]. rewrite Hc. cbn [mbind option_bind].
  by apply (constant_present p context key c).
Qed.

Example constants_for_rpc_witness :
  exists m, get_constants_for_rpc (replicate 20 0) P002 = Some (Ok (Some m)) /\
    m !! "block_reward" = Some (BigNumber 16000000) /\
    m !! "nonce_length" = Some (Number 32) /\ m !! "quorum_min" = None.
Proof.
  destruct (constants_for_rpc P002 (replicate 20 0)) as (r & Hr & Hm).
  { split; [repeat constructor; done|done]. }
  vm_compute in Hr. injection Hr as <-. destruct Hm as (m & Hget & Hl & _).
  exists m. split; [exact Hget|]. rewrite !Hl. vm_compute. auto.
Defined.
