(* ===== verification/ContextStore.v ===== *)
(** * The context's repository ([tezos/new_context/src/kv_store], [gc/worker.rs])

    Hash ids, the vectors they index, the in-memory store of hashes and serialized
    entries, and the garbage collector's thread, which is told of new cycles and of
    reused entries through a channel and gives ids back through the queue of
    [Spsc.v].  The queue is the bounded list it refines ([Spsc.fifo]); sending on
    the channel never fails while the collector runs. *)

From Stdlib Require Import ZArith Lia List Bool Ascii String.
From stdpp Require Import base option list numbers strings gmap sorting.
From S2P Require Import Prelude Spsc.

(** ** [HashId]: a non-zero [usize] *)
Abbreviation HashId := Z.
Abbreviation EntryHash := bytes.

(** [HashIdPanic] is a panic: a vector indexed outside of its range. *)
Inductive HashIdError : Type := HashIdFailed | HashIdPanic.

(** [TryInto<usize>] and [TryFrom<usize>]. *)
Definition hash_id_index (id : HashId) : result HashIdError Z :=
  ok_or (checked_sub id 1) HashIdFailed.
Definition index_hash_id (n : Z) : result HashIdError HashId :=
  ok_or (checked_add n 1) HashIdFailed.

Definition READONLY : Z := Z.shiftl 1 (8 * 8 - 1).

Definition set_readonly_runner (id : HashId) : HashId := Z.lor id READONLY.
Definition get_readonly_id (id : HashId) : result HashIdError (option HashId) :=
  if negb (Z.land id READONLY =? 0) then
    let id := Z.land id (not64 READONLY) in
    if id =? 0 then Err HashIdFailed else Ok (Some id)
  else Ok None.

(** ** [Entries] *)
Module Entries.
Section Ops.
Context {V : Type}.

Definition set (key : HashId) (value : V) (entries : list V) : result HashIdError (list V) :=
  i ← hash_id_index key;
  if i <? zlen entries then Ok (<[Z.to_nat i := value]> entries) else Err HashIdPanic.

Definition get (key : HashId) (entries : list V) : result HashIdError (option V) :=
  i ← hash_id_index key; Ok (entries !! Z.to_nat i).

Definition get_vacant_entry (default : V) (entries : list V) : result HashIdError (HashId * list V) :=
  id ← index_hash_id (zlen entries); Ok (id, entries ++ [default]).

Definition insert_at (default : V) (key : HashId) (value : V) (entries : list V)
  : result HashIdError (list V) :=
  i ← hash_id_index key;
  let entries :=
    if zlen entries <=? i
    then entries ++ replicate (Z.to_nat (i + 1 - zlen entries)) default else entries in
  Ok (<[Z.to_nat i := value]> entries).
End Ops.
End Entries.

(** ** Serialized entries

    [bincode::serialize] of an [Entry]: the nodes of a tree in the order of their
    names, each with its kind and the id of its hash; the cached entry and the
    [commited] flag are skipped.  Strings stand for Rust strings. *)
(** The UTF-8 bytes of a name. *)
Definition name_bytes (s : string) : bytes :=
  (fun c => Z.of_nat (nat_of_ascii c)) <$> list_ascii_of_string s.

Inductive NodeKind : Type := NonLeaf | Leaf.

Record SNode : Type := mkSNode { s_kind : NodeKind; s_hash : HashId }.

Record Commit : Type := mkCommit {
  parent_commit_hash : option HashId;
  root_hash : HashId;
  time : Z;
  author : bytes;
  message : bytes;
}.

Inductive SEntry : Type :=
| STree (tree : list (string * SNode))
| SBlob (value : bytes)
| SCommit (commit : Commit).

Definition valid_id (id : HashId) : Prop := 1 <= id <= usize_max.

(** The ids of a serialized entry are ids. *)
Definition sentry_ok (e : SEntry) : Prop :=
  match e with
  | STree l => Forall (fun kn => valid_id (s_hash kn.2)) l
  | SBlob _ => True
  | SCommit c =>
      valid_id (root_hash c) /\ match parent_commit_hash c with Some p => valid_id p | None => True end
  end.

(** What is serialized is read back.  In Rust the author and the message are
    [String]s and the time a [u64]; here any bytes and any number stand for them,
    and the law is asked of these too. *)
Class BincodeCrate : Type := {
  bincode_serialize : SEntry -> bytes;
  bincode_deserialize : bytes -> option SEntry;
  bincode_roundtrip e : sentry_ok e -> bincode_deserialize (bincode_serialize e) = Some e;
}.

(** [std]'s [DefaultHasher] over a slice, whose algorithm is not specified. *)
Class DefaultHasher : Type := { default_hash : bytes -> Z }.

(** ** [HashValueStore] *)
Record HashValueStore : Type := mkHvs {
  hashes : list EntryHash;
  values : list (option bytes);
  free_ids : option (fifo HashId);
  new_ids : list HashId;
}.

(** [EntryHash::default()]. *)
Definition default_hash_bytes : EntryHash := replicate 32 0.

Module Hvs.
Definition new (consumer : option (fifo HashId)) : HashValueStore := mkHvs [] [] consumer [].

(** [clear] takes the consumer out of the store before it is replaced. *)
Definition clear (s : HashValueStore) : HashValueStore := mkHvs [] [] (free_ids s) [].

Definition get_free_id (s : HashValueStore) : option HashId * HashValueStore :=
  match free_ids s with
  | None => (None, s)
  | Some q =>
      match fifo_step q OpPop with
      | (q, APop (Ok id)) => (Some id, mkHvs (hashes s) (values s) (Some q) (new_ids s))
      | (q, _) => (None, mkHvs (hashes s) (values s) (Some q) (new_ids s))
      end
  end.

Definition get_vacant_entry_hash (s : HashValueStore) : result HashIdError (HashId * HashValueStore) :=
  let (free, s) := get_free_id s in
  match free with
  | Some free_id =>
      values ← Entries.set free_id None (values s);
      entry ← Entries.get free_id (hashes s);
      _ ← ok_or entry HashIdFailed;
      Ok (free_id, mkHvs (hashes s) values (free_ids s) (new_ids s ++ [free_id]))
  | None =>
      '(id, hashes) ← Entries.get_vacant_entry default_hash_bytes (hashes s);
      Ok (id, mkHvs hashes (values s) (free_ids s) (new_ids s ++ [id]))
  end.

(** [VacantEntryHash::write_with]: the entry the vacant id borrows is overwritten. *)
Definition write_with (id : HashId) (hash : EntryHash) (s : HashValueStore) : HashValueStore :=
  mkHvs (<[Z.to_nat (id - 1) := hash]> (hashes s)) (values s) (free_ids s) (new_ids s).

Definition insert_value_at (id : HashId) (value : bytes) (s : HashValueStore)
  : result HashIdError HashValueStore :=
  vs ← Entries.insert_at None id (Some value) (values s);
  Ok (mkHvs (hashes s) vs (free_ids s) (new_ids s)).

Definition get_hash (id : HashId) (s : HashValueStore) : result HashIdError (option EntryHash) :=
  Entries.get id (hashes s).

Definition get_value (id : HashId) (s : HashValueStore) : result HashIdError (option bytes) :=
  v ← Entries.get id (values s);
  Ok (match v with Some value => value | None => None end).

Definition contains (id : HashId) (s : HashValueStore) : result HashIdError bool :=
  v ← Entries.get id (values s);
  Ok (match v with Some (Some _) => true | _ => false end).

Definition take_new_ids (s : HashValueStore) : list HashId * HashValueStore :=
  (new_ids s, mkHvs (hashes s) (values s) (free_ids s) []).
End Hvs.

(** ** [InMemory] *)
Inductive Command : Type :=
| StartNewCycle (values_in_cycle : gmap Z (option bytes)) (new_ids : list HashId)
| MarkReused (reused : list HashId).

Definition PRESERVE_CYCLE_COUNT : nat := 7.

(** [DBError], with a constructor for panics; errors of crates carry nothing. *)
Inductive DBError : Type :=
| SchemaError | MissingColumnFamily (name : string) | DatabaseIncompatibility (name : string)
| ValueExists (key : string) | DBFoundUnexpectedStructure (sought found : string)
| GuardPoison | DBSerializationError | HashEncodeError | DBLockError | IOError
| MemoryStatisticsOverflow | IpcAccessError | MissingEntry (hash_id : HashId)
| DBHashIdFailed | DBPanic.

Definition db_error (e : HashIdError) : DBError :=
  match e with HashIdFailed => DBHashIdFailed | HashIdPanic => DBPanic end.

(** [sender] holds the commands the collector has not received yet. *)
Record InMemory : Type := mkInMemory {
  current_cycle : gmap Z (option bytes);
  store : HashValueStore;
  sender : option (list Command);
  context_hashes : gmap Z HashId;
  context_hashes_cycles : list (list Z);
}.

Module Mem.
Section Ops.
Context `{DefaultHasher}.

Definition set_store (s : HashValueStore) (m : InMemory) : InMemory :=
  mkInMemory (current_cycle m) s (sender m) (context_hashes m) (context_hashes_cycles m).

(** [InMemory::new]; the environment variable disables the collector. *)
Definition new (garbage_collector_disabled : bool) : InMemory :=
  mkInMemory ∅
    (Hvs.new (if garbage_collector_disabled then None else Some (mkFifo 2000000 [] false)))
    (if garbage_collector_disabled then None else Some [])
    ∅ (replicate PRESERVE_CYCLE_COUNT []).

Definition get_vacant_entry_hash (m : InMemory) : result DBError (HashId * InMemory) :=
  '(id, s) ← map_err db_error (Hvs.get_vacant_entry_hash (store m)); Ok (id, set_store s m).

Definition write_with (id : HashId) (hash : EntryHash) (m : InMemory) : InMemory :=
  set_store (Hvs.write_with id hash (store m)) m.

Definition get_hash (id : HashId) (m : InMemory) : result DBError (option EntryHash) :=
  map_err db_error (Hvs.get_hash id (store m)).
Definition get_value (id : HashId) (m : InMemory) : result DBError (option bytes) :=
  map_err db_error (Hvs.get_value id (store m)).
Definition contains (id : HashId) (m : InMemory) : result DBError bool :=
  map_err db_error (Hvs.contains id (store m)).

Fixpoint write_batch (batch : list (HashId * bytes)) (m : InMemory) : result DBError InMemory :=
  match batch with
  | [] => Ok m
  | (id, value) :: batch =>
      s ← map_err db_error (Hvs.insert_value_at id value (store m));
      write_batch batch
        (mkInMemory (<[id := Some value]> (current_cycle m)) s (sender m)
           (context_hashes m) (context_hashes_cycles m))
  end.

Definition new_cycle_started (m : InMemory) : InMemory :=
  match sender m with
  | None => m
  | Some commands =>
      let (ids, s) := Hvs.take_new_ids (store m) in
      let commands := commands ++ [StartNewCycle (current_cycle m) ids] in
      let '(context_hashes, cycles) :=
        match context_hashes_cycles m with
        | unused :: cycles => (foldr delete (context_hashes m) unused, cycles)
        | [] => (context_hashes m, [])
        end in
      mkInMemory ∅ s (Some commands) context_hashes (cycles ++ [[]])
  end.

Definition block_applied (reused : list HashId) (m : InMemory) : InMemory :=
  match sender m with
  | None => m
  | Some commands =>
      mkInMemory (current_cycle m) (store m) (Some (commands ++ [MarkReused reused]))
        (context_hashes m) (context_hashes_cycles m)
  end.

Definition get_context_hash (context_hash : bytes) (m : InMemory) : option HashId :=
  context_hashes m !! default_hash context_hash.

(** [back_mut().map(|v| v.push(hashed))]. *)
Definition push_last (hashed : Z) (cycles : list (list Z)) : list (list Z) :=
  match rev cycles with
  | [] => []
  | c :: before => rev before ++ [c ++ [hashed]]
  end.

Definition put_context_hash (id : HashId) (m : InMemory) : result DBError InMemory :=
  hash ← get_hash id m;
  hash ← ok_or hash (MissingEntry id);
  let hashed := default_hash hash in
  Ok (mkInMemory (current_cycle m) (store m) (sender m) (<[hashed := id]> (context_hashes m))
        (push_last hashed (context_hashes_cycles m))).
End Ops.
End Mem.

(** ** [GCThread] *)
Abbreviation cycle := (gmap Z (option bytes)).

Module Cycles.
(** One pass over the cycles before the last: the id leaves each, and the value
    found last is kept. *)
Definition take_value (id : HashId) (cycles : list cycle) : option bytes :=
  fold_left (fun value (c : cycle) =>
    match c !! id with Some (Some item) => Some item | _ => value end) cycles None.

(** [list.iter_mut().take(len - 1)], then [back_mut()]; a list without cycles,
    whose length cannot be decreased, does not occur. *)
Definition move_to_last_cycle (id : HashId) (cycles : list cycle) : option bytes * list cycle :=
  match rev cycles with
  | [] => (None, [])
  | last :: before =>
      let older := rev before in
      match take_value id older with
      | None => (None, (delete id <$> older) ++ [last])
      | Some value => (Some value, (delete id <$> older) ++ [<[id := Some value]> last])
      end
  end.

(** The keys of a [BTreeMap], in order. *)
Definition keys (c : cycle) : list HashId := merge_sort Z.le (elements (dom c)).

Definition roll (new_cycle : cycle) (cycles : list cycle) : list HashId * list cycle :=
  match cycles with
  | [] => ([], [new_cycle])
  | unused :: cycles => (keys unused, cycles ++ [new_cycle])
  end.
End Cycles.

Record GCThread : Type := mkGC { cycles : list cycle; pending : list HashId }.

Module Gc.
Definition new : GCThread := mkGC (replicate PRESERVE_CYCLE_COUNT ∅) [].

Definition available (q : fifo HashId) : Z := f_cap q - zlen (f_items q).

Definition send_unused (unused : list HashId) (gc : GCThread) (q : fifo HashId)
  : GCThread * fifo HashId :=
  let navailable := available q in
  let '(to_send, rest) :=
    if navailable <? zlen unused
    then (take (Z.to_nat navailable) unused, drop (Z.to_nat navailable) unused)
    else (unused, []) in
  match fifo_step q (OpPushSlice to_send) with
  | (q, APushSlice (Ok _)) => (mkGC (cycles gc) (pending gc ++ rest), q)
  | (q, _) => (mkGC (cycles gc) (pending gc ++ unused), q)
  end.

Definition send_pending (gc : GCThread) (q : fifo HashId) : GCThread * fifo HashId :=
  match pending gc with
  | [] => (gc, q)
  | _ =>
      let navailable := available q in
      if navailable =? 0 then (gc, q)
      else
        let start := zlen (pending gc) - Z.min navailable (zlen (pending gc)) in
        match fifo_step q (OpPushSlice (drop (Z.to_nat start) (pending gc))) with
        | (q, APushSlice (Ok _)) => (mkGC (cycles gc) (take (Z.to_nat start) (pending gc)), q)
        | (q, _) => (gc, q)
        end
  end.

Definition start_new_cycle (new_cycle : cycle) (new_ids : list HashId) (gc : GCThread)
  (q : fifo HashId) : GCThread * fifo HashId :=
  let new_cycle :=
    fold_left (fun (c : cycle) id => match c !! id with Some _ => c | None => <[id := None]> c end)
      new_ids new_cycle in
  let (unused, cs) := Cycles.roll new_cycle (cycles gc) in
  send_unused unused (mkGC cs (pending gc)) q.

Section Mark.
Context `{BincodeCrate}.

(** The ids an entry refers to, in the order they are pushed. *)
Definition references (value : bytes) : list HashId :=
  match bincode_deserialize value with
  | Some (STree tree) => (fun kn => s_hash kn.2) <$> tree
  | Some (SCommit c) => [root_hash c]
  | _ => []
  end.

(** [while let Some(hash_id) = reused.pop()]; the head of [stack] is the last
    element of the vector. *)
Fixpoint mark_loop (fuel : nat) (stack : list HashId) (cs : list cycle) : option (list cycle) :=
  match stack with
  | [] => Some cs
  | id :: stack =>
      match fuel with
      | O => None
      | S fuel =>
          match Cycles.move_to_last_cycle id cs with
          | (None, cs) => mark_loop fuel stack cs
          | (Some value, cs) => mark_loop fuel (rev (references value) ++ stack) cs
          end
      end
  end.

(** How often the loop can run: once for each id given, and once for each
    reference from an entry of a cycle before the last. *)
Definition cycle_references (c : cycle) : nat :=
  map_fold (fun _ v n => match v with Some value => length (references value) | None => O end + n)%nat
    O c.
Definition mark_fuel (reused : list HashId) (cs : list cycle) : nat :=
  (length reused + sum_list (cycle_references <$> removelast cs))%nat.

Definition mark_reused (reused : list HashId) (gc : GCThread) (q : fifo HashId)
  : option (GCThread * fifo HashId) :=
  cs ← mark_loop (mark_fuel reused (cycles gc)) (rev reused) (cycles gc);
  Some (send_pending (mkGC cs (pending gc)) q).

(** [run]: one command. *)
Definition handle (c : Command) (gc : GCThread) (q : fifo HashId) : option (GCThread * fifo HashId) :=
  match c with
  | StartNewCycle values_in_cycle new_ids => Some (start_new_cycle values_in_cycle new_ids gc q)
  | MarkReused reused => mark_reused reused gc q
  end.
End Mark.
End Gc.
