(* ===== verification/ContextGc.v ===== *)
(** * The garbage collector keeps what is marked and loses no id

    [mark_reused] terminates and moves every entry that is reachable from the
    marked ones, through entries of older cycles, to the most recent cycle; a new
    cycle frees exactly the ids of the oldest one, each to the queue or to the
    pending list. *)

From Stdlib Require Import ZArith Lia List Bool Ascii String.
From stdpp Require Import base option list numbers strings gmap sorting.
From S2P Require Import Prelude Spsc ContextStore.

(** ** A reference [bincode] *)
Section RefBincode.
Definition bytes_name (l : bytes) : string :=
  string_of_list_ascii ((fun z => ascii_of_nat (Z.to_nat z)) <$> l).

Lemma bytes_name_bytes s : bytes_name (name_bytes s) = s.
Proof.
  unfold bytes_name, name_bytes. rewrite <- list_fmap_compose.
  rewrite <- (string_of_list_ascii_of_string s) at 2. f_equal.
  rewrite <- (list_fmap_id (list_ascii_of_string s)) at 2. apply list_fmap_ext. intros _ c _. simpl.
  by rewrite Nat2Z.id, ascii_nat_embedding.
Qed.

Definition ref_node (kn : string * SNode) : bytes :=
  zlen (name_bytes kn.1) :: name_bytes kn.1 ++
    [match s_kind kn.2 with NonLeaf => 0 | Leaf => 1 end; s_hash kn.2].

Definition ref_serialize (e : SEntry) : bytes :=
  match e with
  | STree l => 0 :: concat (ref_node <$> l)
  | SBlob v => 1 :: v
  | SCommit c =>
      2 :: (match parent_commit_hash c with Some p => p | None => 0 end) :: root_hash c :: time c ::
        zlen (author c) :: author c ++ message c
  end.

Fixpoint ref_nodes (fuel : nat) (bs : bytes) : option (list (string * SNode)) :=
  match bs, fuel with
  | [], _ => Some []
  | n :: bs, S fuel =>
      match drop (Z.to_nat n) bs with
      | k :: h :: rest =>
          l ← ref_nodes fuel rest;
          Some ((bytes_name (take (Z.to_nat n) bs), mkSNode (if k =? 0 then NonLeaf else Leaf) h) :: l)
      | _ => None
      end
  | _, O => None
  end.

Definition ref_deserialize (bs : bytes) : option SEntry :=
  match bs with
  | 0 :: bs => STree <$> ref_nodes (length bs) bs
  | 1 :: v => Some (SBlob v)
  | 2 :: p :: r :: t :: n :: bs =>
      Some (SCommit (mkCommit (if p =? 0 then None else Some p) r t
                       (take (Z.to_nat n) bs) (drop (Z.to_nat n) bs)))
  | _ => None
  end.

Lemma ref_nodes_ok l : forall fuel, (length (concat (ref_node <$> l)) <= fuel)%nat ->
  ref_nodes fuel (concat (ref_node <$> l)) = Some l.
Proof.
  induction l as [|[name [k h]] l IH]; intros fuel Hf; [by destruct fuel|].
  rewrite fmap_cons in *. cbn [concat] in *. unfold ref_node in * at 1. cbn [fst snd s_kind s_hash] in *.
  rewrite <- app_comm_cons, <- app_assoc in *. destruct fuel as [|fuel]; [cbn in Hf; lia|].
  cbn [ref_nodes]. unfold zlen. rewrite Nat2Z.id, drop_app_length, take_app_length.
  cbn [app]. rewrite IH.
  - cbn [mbind option_bind]. rewrite bytes_name_bytes. by destruct k.
  - cbn in Hf. rewrite !length_app in Hf. cbn in Hf. lia.
Qed.

#[export] Instance reference_bincode : BincodeCrate.
Proof.
  refine {| bincode_serialize := ref_serialize; bincode_deserialize := ref_deserialize |}.
  intros [l|v|[p r t a m]] Hok; [|done|]; cbn [ref_serialize ref_deserialize parent_commit_hash root_hash time author message].
  - by rewrite ref_nodes_ok.
  - unfold zlen. rewrite Nat2Z.id, drop_app_length, take_app_length.
    destruct p as [p|]; [|done]. destruct Hok as [_ Hp]. cbn in Hp. unfold valid_id in Hp.
    by destruct (Z.eqb_spec p 0); [lia|].
Defined.
End RefBincode.

#[export] Instance reference_default_hasher : DefaultHasher :=
  {| default_hash bs := foldr (fun b acc => b + 257 * acc) 0 bs |}.

(** ** Marking *)
Lemma elem_of_rev {A} (l : list A) x : x ∈ rev l <-> x ∈ l.
Proof. by rewrite !list_elem_of_In, <- in_rev. Qed.

Section Mark.
Context `{BincodeCrate}.

(** The value of an id in the cycles before the last. *)
Definition older_value (cs : list cycle) (id : HashId) : option bytes :=
  Cycles.take_value id (removelast cs).
Definition last_cycle (cs : list cycle) : cycle := List.last cs ∅.

Lemma take_value_from id cs acc :
  fold_left (fun value (c : cycle) => match c !! id with Some (Some item) => Some item | _ => value end)
    cs acc = match Cycles.take_value id cs with Some v => Some v | None => acc end.
Proof.
  unfold Cycles.take_value. revert acc. induction cs as [|c cs IH]; intros acc; [done|].
  cbn [fold_left]. rewrite IH. symmetry. rewrite IH. destruct (fold_left _ cs None); [done|].
  by destruct (c !! id) as [[]|].
Qed.

Lemma take_value_cons id c cs :
  Cycles.take_value id (c :: cs) =
    match Cycles.take_value id cs with
    | Some v => Some v
    | None => match c !! id with Some v => v | None => None end
    end.
Proof. unfold Cycles.take_value at 1. cbn [fold_left]. by rewrite take_value_from; destruct (c !! id) as [[]|]. Qed.

Lemma take_value_delete id id' cs :
  Cycles.take_value id (delete id' <$> cs) = if decide (id = id') then None else Cycles.take_value id cs.
Proof.
  induction cs as [|c cs IH]; [by case_decide|]. rewrite fmap_cons, !take_value_cons, IH.
  case_decide as E; [subst; by rewrite lookup_delete_eq|].
  by rewrite lookup_delete_ne by done.
Qed.

(** One round moves an id, its value included, to the last cycle. *)
Lemma move_spec id cs :
  let (v, cs') := Cycles.move_to_last_cycle id cs in
  v = older_value cs id /\
  (forall id', older_value cs' id' = if decide (id' = id) then None else older_value cs id') /\
  (forall id', last_cycle cs' !! id' =
     if decide (id' = id) then match v with Some _ => Some v | None => last_cycle cs !! id end
     else last_cycle cs !! id') /\
  removelast cs' = (delete id <$> removelast cs).
Proof.
  unfold Cycles.move_to_last_cycle, older_value, last_cycle.
  destruct cs as [|c cs _] using rev_ind; [cbn; repeat split; intros; by case_decide|].
  rewrite rev_unit, rev_involutive, removelast_last.
  destruct (Cycles.take_value id cs) as [v|] eqn:Ev; rewrite !List.last_last, !removelast_last;
    (split; [done|]); (split; [intros id'; apply take_value_delete|]); (split; [|done]);
    intros id'; case_decide; subst; by rewrite ?lookup_insert_eq, ?lookup_insert_ne by done.
Qed.

Definition refs_of (v : option bytes) : nat :=
  match v with Some value => length (Gc.references value) | None => O end.

Lemma cycle_references_delete id (c : cycle) :
  Gc.cycle_references c =
    (refs_of (match c !! id with Some v => v | None => None end) + Gc.cycle_references (delete id c))%nat.
Proof.
  unfold Gc.cycle_references. destruct (c !! id) as [v|] eqn:E.
  - rewrite (map_fold_delete_L _ _ id v) by (done || (intros; lia)). by destruct v.
  - by rewrite delete_id.
Qed.

Lemma delete_references id cs :
  (refs_of (Cycles.take_value id cs) + sum_list (Gc.cycle_references <$> (delete id <$> cs)) <=
   sum_list (Gc.cycle_references <$> cs))%nat.
Proof.
  induction cs as [|c cs IH]; [done|]. rewrite !fmap_cons, take_value_cons. cbn [sum_list].
  rewrite (cycle_references_delete id c). revert IH. unfold sum_list, Datatypes.id.
  destruct (Cycles.take_value id cs); [lia|]. destruct (c !! id) as [[]|]; cbn [refs_of]; lia.
Qed.

(** What marking can reach: the marked ids, and what entries of older cycles
    that are reached refer to. *)
Inductive reached (cs : list cycle) (reused : list HashId) : HashId -> Prop :=
| reached_marked id : id ∈ reused -> reached cs reused id
| reached_reference id v r :
    reached cs reused id -> older_value cs id = Some v -> r ∈ Gc.references v -> reached cs reused r.

Definition marked (stack : list HashId) (cs cs' : list cycle) : Prop :=
  (forall id, id ∈ stack -> older_value cs' id = None) /\
  (forall id, older_value cs' id = None \/ older_value cs' id = older_value cs id) /\
  (forall id v, older_value cs id = Some v -> older_value cs' id = None ->
     last_cycle cs' !! id = Some (Some v) /\
     forall r, r ∈ Gc.references v -> older_value cs' r = None) /\
  (forall id, older_value cs id = None -> last_cycle cs' !! id = last_cycle cs !! id) /\
  (forall id, reached cs stack id \/ older_value cs' id = older_value cs id).

Lemma mark_loop_marks fuel : forall stack cs,
  (length stack + sum_list (Gc.cycle_references <$> removelast cs) <= fuel)%nat ->
  exists cs', Gc.mark_loop fuel stack cs = Some cs' /\ marked stack cs cs'.
Proof.
  induction fuel as [|fuel IH]; intros stack cs Hf.
  all: destruct stack as [|id stack];
    [exists cs; split; [done|]; split; [by intros ? ?%not_elem_of_nil|];
     split; [by right|]; split; [by intros ? ? ->|]; split; [done|by right]|].
  { cbn in Hf. lia. }
  cbn [Gc.mark_loop]. pose proof (move_spec id cs) as Hm.
  destruct (Cycles.move_to_last_cycle id cs) as [v cs1] eqn:Em.
  destruct Hm as (Hv & Hold & Hlast & Hrm).
  pose proof (delete_references id (removelast cs)) as Hd. fold (older_value cs id) in Hd.
  rewrite <- Hv in Hd. rewrite <- Hrm in Hd. cbn in Hf.
  set (stack' := match v with Some value => rev (Gc.references value) ++ stack | None => stack end).
  destruct (IH stack' cs1) as (cs' & Hrun & Ha & Hb & Hc & Hk & He).
  { unfold stack'. destruct v; cbn in Hd |- *; rewrite ?length_app, ?length_rev; lia. }
  exists cs'. split; [by destruct v|].
  assert (Hid : older_value cs' id = None).
  { destruct (Hb id) as [|E]; [done|]. rewrite E, Hold. by rewrite decide_True. }
  split; [|split; [|split; [|split]]].
  - intros i [->|Hi]%elem_of_cons; [done|]. apply Ha. unfold stack'. destruct v; [apply elem_of_app; by right|done].
  - intros i. destruct (Hb i) as [|E]; [by left|]. rewrite E, Hold. case_decide; [by left|by right].
  - intros i w Hw Hn. destruct (decide (i = id)) as [->|Hne].
    + rewrite <- Hv in Hw. split.
      * rewrite Hk by (by rewrite Hold, decide_True). by rewrite Hlast, decide_True, Hw.
      * intros r Hr. apply Ha. unfold stack'. rewrite Hw. apply elem_of_app. left.
        by apply elem_of_rev.
    + apply Hc; [|done]. by rewrite Hold, decide_False.
  - intros i Hi. rewrite Hk by (rewrite Hold; by case_decide). rewrite Hlast.
    case_decide as E; [subst i|done]. rewrite <- Hv in Hi. by rewrite Hi.
  - assert (Hstep : forall i, reached cs1 stack' i -> reached cs (id :: stack) i).
    { induction 1 as [i Hi|i w r _ IH1 Hw Hr].
      - unfold stack' in Hi. destruct v as [v|]; [|by apply reached_marked, list_elem_of_further].
        apply elem_of_app in Hi as [Hi|Hi]; [rewrite elem_of_rev in Hi|by apply reached_marked, list_elem_of_further].
        by apply (reached_reference _ _ id v i (reached_marked _ _ _ (list_elem_of_here _ _)) (eq_sym Hv)).
      - rewrite Hold in Hw. case_decide; [done|]. by eapply reached_reference. }
    intros i. destruct (decide (i = id)) as [->|Hne]; [left; apply reached_marked, list_elem_of_here|].
    destruct (He i) as [Hi|Hi]; [left; by apply Hstep|right]. by rewrite Hi, Hold, decide_False.
Qed.

End Mark.

(** (C22) Marking terminates, and every entry of an older cycle that the marked ids
    reach, directly or through such entries, is moved with its value to the most
    recent cycle; an entry that is not reached from them keeps its place. *)
Theorem mark_reused_moves `{BincodeCrate} (reused : list HashId) (gc : GCThread) (q : fifo HashId) :
  exists gc' q', Gc.mark_reused reused gc q = Some (gc', q') /\
    (forall id, reached (cycles gc) reused id -> older_value (cycles gc') id = None) /\
    (forall id v, reached (cycles gc) reused id -> older_value (cycles gc) id = Some v ->
       last_cycle (cycles gc') !! id = Some (Some v)) /\
    (forall id, older_value (cycles gc) id = None ->
       last_cycle (cycles gc') !! id = last_cycle (cycles gc) !! id) /\
    (forall id, ~ reached (cycles gc) reused id ->
       older_value (cycles gc') id = older_value (cycles gc) id).
Proof.
  unfold Gc.mark_reused.
  destruct (mark_loop_marks (Gc.mark_fuel reused (cycles gc)) (rev reused) (cycles gc))
    as (cs' & -> & Ha & Hb & Hc & Hk & He); [unfold Gc.mark_fuel; by rewrite length_rev|].
  cbn [mbind option_bind].
  assert (Hcs : cycles (Gc.send_pending (mkGC cs' (pending gc)) q).1 = cs').
  { unfold Gc.send_pending. cbn [pending]. destruct (pending gc); [done|].
    destruct (_ =? 0); [done|]. by destruct (fifo_step _ _) as [? []]; try destruct r. }
  destruct (Gc.send_pending (mkGC cs' (pending gc)) q) as [gc' q']. cbn in Hcs. subst cs'.
  exists gc', q'. split; [done|].
  assert (Hr : forall id, reached (cycles gc) reused id -> older_value (cycles gc') id = None).
  { induction 1 as [id Hid|id v r _ IH Hv Hr]; [apply Ha; by apply elem_of_rev|].
    by apply (Hc id v Hv IH). }
  split; [done|]. split; [intros id v Hid Hv; by apply (Hc id v Hv), Hr|]. split; [done|].
  intros id Hid. destruct (He id) as [Hre|]; [|done]. destruct Hid. revert Hre.
  induction 1 as [i Hi|]; [rewrite elem_of_rev in Hi; by apply reached_marked|by eapply reached_reference].
Qed.

(** ** New cycles *)
Definition with_ids (c : cycle) (ids : list HashId) : cycle :=
  fold_left (fun (c : cycle) id => match c !! id with Some _ => c | None => <[id := None]> c end) ids c.

Lemma with_ids_lookup ids id : forall c : cycle,
  with_ids c ids !! id =
    match c !! id with Some v => Some v | None => if decide (id ∈ ids) then Some None else None end.
Proof.
  unfold with_ids. induction ids as [|i ids IH]; intros c; cbn [fold_left].
  { destruct (c !! id); [done|]. by rewrite decide_False by apply not_elem_of_nil. }
  rewrite IH. destruct (decide (id = i)) as [->|Hne].
  - destruct (c !! i) eqn:E; rewrite ?E, ?lookup_insert_eq; [done|].
    rewrite decide_True by apply list_elem_of_here. done.
  - assert ((match c !! i with Some _ => c | None => <[i := None]> c end) !! id = c !! id) as ->
      by (destruct (c !! i); by rewrite ?lookup_insert_ne by done).
    destruct (c !! id); [done|].
    destruct (decide (id ∈ i :: ids)) as [Hi|Hi]; rewrite elem_of_cons in Hi; case_decide; tauto.
Qed.

Lemma keys_perm (c : cycle) : Cycles.keys c ≡ₚ elements (dom c).
Proof. apply merge_sort_Permutation. Qed.

Lemma send_unused_perm unused gc q gc' q' :
  zlen (f_items q) <= f_cap q -> Gc.send_unused unused gc q = (gc', q') ->
  cycles gc' = cycles gc /\ f_cap q' = f_cap q /\ zlen (f_items q') <= f_cap q' /\
  f_items q' ++ pending gc' ≡ₚ f_items q ++ pending gc ++ unused.
Proof.
  intros Hcap. unfold Gc.send_unused, Gc.available.
  set (n := f_cap q - zlen (f_items q)).
  destruct (Z.ltb_spec n (zlen unused)) as [Hn|Hn]; cbn [fifo_step]; destruct (f_closed q).
  all: try (intros [= <- <-]; cbn [cycles pending]; done).
  - replace (zlen (f_items q) + zlen (take (Z.to_nat n) unused) <=? f_cap q) with true.
    2: { symmetry. apply Z.leb_le. unfold zlen in *. rewrite length_take. lia. }
    intros [= <- <-]. cbn [cycles pending f_items f_cap]. split; [done|]. split; [done|]. split.
    + rewrite zlen_app. unfold zlen in *. rewrite length_take. lia.
    + rewrite <- (take_drop (Z.to_nat n) unused) at 3. solve_Permutation.
  - destruct (Z.leb_spec (zlen (f_items q) + zlen unused) (f_cap q)); [|lia].
    intros [= <- <-]. cbn [cycles pending f_items f_cap]. rewrite zlen_app, app_nil_r.
    split; [done|]. split; [done|]. split; [lia|]. solve_Permutation.
Qed.

(** (C23) A new cycle frees exactly the ids of the oldest cycle, and keeps each of
    them once: what is free before, waiting before, and dropped is what is free or
    waiting after, within the queue's capacity.  The new cycle holds what was
    written and every id handed out, with or without a value. *)
Theorem new_cycle_frees (values : cycle) (ids : list HashId) (gc gc' : GCThread) (q q' : fifo HashId)
  (oldest : cycle) (others : list cycle) :
  cycles gc = oldest :: others -> zlen (f_items q) <= f_cap q ->
  Gc.start_new_cycle values ids gc q = (gc', q') ->
  (exists newest, cycles gc' = others ++ [newest] /\
     forall id, newest !! id = match values !! id with
                               | Some v => Some v
                               | None => if decide (id ∈ ids) then Some None else None
                               end) /\
  f_items q' ++ pending gc' ≡ₚ f_items q ++ pending gc ++ elements (dom oldest) /\
  zlen (f_items q') <= f_cap q'.
Proof.
  intros Hcs Hcap. unfold Gc.start_new_cycle. rewrite Hcs. cbn [Cycles.roll].
  intros (Hc & _ & Hl & Hp)%send_unused_perm; [|done]. cbn [cycles pending] in *. split.
  - exists (with_ids values ids). split; [done|]. intros id. apply with_ids_lookup.
  - by rewrite keys_perm in Hp.
Qed.

Example new_cycle_frees_witness :
  let gc := mkGC [{[ 3 := Some [7]; 4 := None ]}; ∅] [9] in
  let q := mkFifo 2 [1] false in
  f_items (Gc.start_new_cycle ∅ [5] gc q).2 ++ pending (Gc.start_new_cycle ∅ [5] gc q).1 ≡ₚ
    [1] ++ [9] ++ elements (dom ({[ 3 := Some [7]; 4 := None ]} : cycle)).
Proof.
  intros gc q. destruct (Gc.start_new_cycle ∅ [5] gc q) as [gc' q'] eqn:E.
  eapply (new_cycle_frees ∅ [5] gc gc' q q' {[ 3 := Some [7]; 4 := None ]} [∅]); [reflexivity| |exact E].
  vm_compute. discriminate.
Defined.
