(* ===== verification/ContextHash.v ===== *)
(** * Nodes and their hashes ([new_context/src/working_tree/mod.rs], [hash/mod.rs],
    [hash/ocaml.rs])

    A tree maps names to shared, mutable nodes ([Rc<Node>] with cells): nodes live
    in a heap and trees hold their locations.  A node caches the id of its hash and
    its entry, either of which may be missing, and knows whether it was committed.
    The hashing functions compute Irmin's hashes and fill the caches as they go.

    Operations are state passing with errors ([M]); the state survives an error, as
    it does in the code.  Recursion over nodes and over the partition of large
    directories runs on fuel; running out is [Diverged].  A cell that is borrowed
    twice does not occur: no function writes a cell while it holds a borrow of it. *)

From Stdlib Require Import ZArith Lia List Bool Ascii String.
From stdpp Require Import base option list numbers strings gmap sorting.
From S2P Require Import Prelude Spsc ContextStore.

(** ** Crates *)

(** [im_rc::OrdMap] with string keys: iteration is in increasing order of names. *)
Class OrdMapCrate : Type := {
  OrdMap : Type -> Type;
  om_new {V} : OrdMap V;
  om_get {V} : string -> OrdMap V -> option V;
  om_insert {V} : string -> V -> OrdMap V -> OrdMap V;
  om_remove {V} : string -> OrdMap V -> OrdMap V;
  om_iter {V} : OrdMap V -> list (string * V);
  om_get_new {V} k : om_get (V := V) k om_new = None;
  om_get_insert {V} k k' (v : V) m :
    om_get k (om_insert k' v m) = if decide (k = k') then Some v else om_get k m;
  om_get_remove {V} k k' (m : OrdMap V) :
    om_get k (om_remove k' m) = if decide (k = k') then None else om_get k m;
  om_iter_sorted {V} (m : OrdMap V) :
    StronglySorted (fun a b => String.compare a.1 b.1 = Lt) (om_iter m);
  om_iter_get {V} (m : OrdMap V) k v : (k, v) ∈ om_iter m <-> om_get k m = Some v;
}.

(** [VarBlake2b] with an output of 32 bytes, and [leb128::write::unsigned]. *)
Class Blake2Crate : Type := {
  blake2b : bytes -> EntryHash;
  blake2b_len bs : zlen (blake2b bs) = 32;
}.
Class Leb128Crate : Type := { leb128 : Z -> bytes }.

(** ** OCaml's string hash *)
Definition w32 (z : Z) : Z := z mod 2 ^ 32.

Definition mix (h w : Z) : Z :=
  let w := w32 (w * 0xcc9e2d51) in
  let w := Z.lor (w32 (Z.shiftl w 15)) (Z.shiftr w 17) in
  let w := w32 (w * 0x1b873593) in
  let h := Z.lxor h w in
  let h := Z.lor (w32 (Z.shiftl h 13)) (Z.shiftr h 19) in
  w32 (w32 (h * 5) + 0xe6546b64).

(** Blocks of four bytes, little-endian, and the one to three bytes left. *)
Fixpoint mix_blocks (h : Z) (s : bytes) : Z :=
  match s with
  | a :: b :: c :: d :: s =>
      mix_blocks (mix h (a + Z.shiftl b 8 + Z.shiftl c 16 + Z.shiftl d 24)) s
  | [a; b; c] => mix h (Z.lor (Z.lor (Z.shiftl c 16) (Z.shiftl b 8)) a)
  | [a; b] => mix h (Z.lor (Z.shiftl b 8) a)
  | [a] => mix h a
  | [] => h
  end.

Definition ocaml_hash_string (seed : Z) (s : bytes) : Z :=
  let h := mix_blocks seed s in
  let h := Z.lxor h (w32 (zlen s)) in
  let h := Z.lxor h (Z.shiftr h 16) in
  let h := w32 (h * 0x85ebca6b) in
  let h := Z.lxor h (Z.shiftr h 13) in
  let h := w32 (h * 0xc2b2ae35) in
  let h := Z.lxor h (Z.shiftr h 16) in
  Z.land h 0x3FFFFFFF.

Example ocaml_hash_a : ocaml_hash_string 0 (name_bytes "a") = 721651713.
Proof. reflexivity. Qed.
Example ocaml_hash_abcdef : ocaml_hash_string 0 (name_bytes "abcdef") = 926323203.
Proof. reflexivity. Qed.

Definition index (depth : Z) (name : string) : Z := ocaml_hash_string depth (name_bytes name) mod 32.

(** ** Nodes and entries *)
Abbreviation loc := nat.
Abbreviation Tree := (OrdMap loc).

Inductive Entry `{OrdMapCrate} : Type :=
| ETree (tree : Tree)
| EBlob (value : bytes)
| ECommit (commit : Commit).
Arguments ETree {_} tree.
Arguments EBlob {_} value.
Arguments ECommit {_} commit.

Record Node `{OrdMapCrate} : Type := mkNode {
  node_kind : NodeKind;
  commited : bool;
  entry_hash : option HashId;
  entry : option Entry;
}.
Arguments mkNode {_} _ _ _ _.
Arguments node_kind {_} _.
Arguments commited {_} _.
Arguments entry_hash {_} _.
Arguments entry {_} _.

(** ** State and errors *)
Inductive HashingError : Type :=
| Leb128EncodeFailure | InvalidOutputSize | ConversionError | HValueExpected (what : string)
| UnexpectedEmptyInode | InvalidHash (reason : string) | MissingNodeEntry | EntryBorrow
| HDBError (error : DBError) | HashIdNotFound (hash_id : HashId)
| Diverged | Dangling.

(** [strings] is the interner of [TezedgeIndex], [tree_ids] the counters of the
    [TreeIdGenerator]s, which clones of a context share. *)
Record St `{OrdMapCrate} : Type := mkSt {
  heap : list Node;
  repo : InMemory;
  strings : gset string;
  tree_ids : list Z;
}.
Arguments mkSt {_} _ _ _ _.
Arguments heap {_} _.
Arguments repo {_} _.
Arguments strings {_} _.
Arguments tree_ids {_} _.

Definition M `{OrdMapCrate} (E A : Type) : Type := St -> result E A * St.

Section Monad.
Context `{OrdMapCrate}.

#[export] Instance M_ret {E} : MRet (M E) := fun A a s => (Ok a, s).
#[export] Instance M_bind {E} : MBind (M E) := fun A B f m s =>
  match m s with
  | (Ok a, s) => f a s
  | (Err e, s) => (Err e, s)
  end.

Definition throw {E A} (e : E) : M E A := fun s => (Err e, s).
Definition lift {E A} (r : result E A) : M E A := fun s => (r, s).
Definition read {E A} (f : St -> A) : M E A := fun s => (Ok (f s), s).
Definition modify {E} (f : St -> St) : M E unit := fun s => (Ok tt, f s).

(** [map_err]: the [From] conversions of [?]. *)
Definition mapE {E F A} (f : E -> F) (m : M E A) : M F A := fun s =>
  match m s with (Ok a, s) => (Ok a, s) | (Err e, s) => (Err (f e), s) end.

(** Continues from the result, error or not. *)
Definition settle {E F A B} (f : result E A -> result F B) (m : M E A) : M F B := fun s =>
  let (r, s) := m s in (f r, s).

Definition set_heap (h : list Node) (s : St) : St := mkSt h (repo s) (strings s) (tree_ids s).
Definition set_repo (r : InMemory) (s : St) : St := mkSt (heap s) r (strings s) (tree_ids s).

(** [Rc::new] and the cells behind an [Rc]; a location always has a node. *)
Definition alloc {E} (n : Node) : M E loc := fun s =>
  (Ok (length (heap s)), set_heap (heap s ++ [n]) s).
Definition get_node {E} (dangling : E) (l : loc) : M E Node := fun s =>
  (ok_or (heap s !! l) dangling, s).
Definition set_node {E} (l : loc) (n : Node) : M E unit :=
  modify (fun s => set_heap (<[l := n]> (heap s)) s).

Definition set_entry_hash (id : HashId) (n : Node) : Node :=
  mkNode (node_kind n) (commited n) (Some id) (entry n).
Definition set_entry (e : Entry) (n : Node) : Node :=
  mkNode (node_kind n) (commited n) (entry_hash n) (Some e).
Definition set_commited (n : Node) : Node :=
  mkNode (node_kind n) true (entry_hash n) (entry n).
End Monad.

(** ** [hash/mod.rs] *)
Definition ENTRY_HASH_LEN : Z := 32.

Inductive Inode : Type :=
| InodeEmpty
| InodeValue (entries : list (string * loc))
| InodeTree (depth children : Z) (pointers : list (Z * HashId)).

Definition u64_bytes (z : Z) : bytes := be_bytes 8 z.

Definition encode_irmin_node_kind (kind : NodeKind) : bytes :=
  match kind with
  | NonLeaf => [0; 0; 0; 0; 0; 0; 0; 0]
  | Leaf => [255; 0; 0; 0; 0; 0; 0; 0]
  end.

Section Hash.
Context `{OrdMapCrate, Blake2Crate, Leb128Crate}.

(** [store.get_hash] and [get_vacant_entry_hash()?.write_with(..)] with [?]. *)
Definition store_get_hash (id : HashId) : M HashingError (option EntryHash) :=
  r ← read (fun s => Mem.get_hash id (repo s)); lift (map_err HDBError r).

Definition write_hash (preimage : bytes) : M HashingError HashId := fun s =>
  match Mem.get_vacant_entry_hash (repo s) with
  | Err e => (Err (HDBError e), s)
  | Ok (id, r) => (Ok id, set_repo (Mem.write_with id (blake2b preimage) r) s)
  end.

(** Runs [f] over a list, collecting what it answers. *)
Fixpoint mapM_ {E A B} (f : A -> M E B) (l : list A) : M E (list B) :=
  match l with
  | [] => mret []
  | a :: l => b ← f a; bs ← mapM_ f l; mret (b :: bs)
  end.

Section Recursion.
(** [Node::entry_hash_id] of a child. *)
Context (child_hash_id : loc -> M HashingError HashId).

Definition node_hash (l : loc) : M HashingError EntryHash :=
  id ← child_hash_id l;
  h ← store_get_hash id;
  lift (ok_or h (HashIdNotFound id)).

(** A name with its node's kind and hash, in the two formats. *)
Definition short_entry (kl : string * loc) : M HashingError bytes :=
  n ← get_node Dangling kl.2;
  h ← node_hash kl.2;
  mret (encode_irmin_node_kind (node_kind n) ++ leb128 (zlen (name_bytes kl.1)) ++
        name_bytes kl.1 ++ u64_bytes ENTRY_HASH_LEN ++ h).

Definition long_entry (kl : string * loc) : M HashingError bytes :=
  n ← get_node Dangling kl.2;
  h ← node_hash kl.2;
  mret (leb128 (zlen (name_bytes kl.1)) ++ name_bytes kl.1 ++
        [match node_kind n with Leaf => 1 | NonLeaf => 0 end] ++ h).

Definition pointer_bytes (p : Z * HashId) : M HashingError bytes :=
  h ← store_get_hash p.2;
  h ← lift (ok_or h (HashIdNotFound p.2));
  mret (p.1 :: h).

Definition hash_long_inode (inode : Inode) : M HashingError HashId :=
  match inode with
  | InodeEmpty => throw UnexpectedEmptyInode
  | InodeValue entries =>
      es ← mapM_ long_entry entries;
      write_hash ([0] ++ [zlen entries mod 256] ++ concat es)
  | InodeTree depth children pointers =>
      ps ← mapM_ pointer_bytes pointers;
      write_hash ([1] ++ leb128 depth ++ leb128 children ++ [zlen pointers mod 256] ++ concat ps)
  end.

Definition indices : list Z := Z.of_nat <$> seq 0 32.

(** The loop over the 32 indices, given the recursive call. *)
Section Pointers.
Context (partition : list (string * loc) -> M HashingError Inode).
Context (depth : Z) (entries : list (string * loc)).

Fixpoint pointers_loop (ixs : list Z) : M HashingError (list (Z * HashId)) :=
  match ixs with
  | [] => mret []
  | i :: ixs =>
      ti ← partition (filter (fun kl => index depth kl.1 = i) entries);
      match ti with
      | InodeEmpty => pointers_loop ixs
      | non_empty =>
          id ← hash_long_inode non_empty;
          ps ← pointers_loop ixs;
          mret ((i, id) :: ps)
      end
  end.
End Pointers.

Fixpoint partition_entries (fuel : nat) (depth : Z) (entries : list (string * loc))
  : M HashingError Inode :=
  match entries with
  | [] => mret InodeEmpty
  | _ =>
      if zlen entries <=? 32 then mret (InodeValue entries)
      else match fuel with
           | O => throw Diverged
           | S fuel =>
               pointers ← pointers_loop (partition_entries fuel (depth + 1)) depth entries indices;
               mret (InodeTree depth (zlen entries) pointers)
           end
  end.

Definition hash_short_inode (tree : Tree) : M HashingError HashId :=
  es ← mapM_ short_entry (om_iter tree);
  write_hash (u64_bytes (zlen (om_iter tree)) ++ concat es).

Definition hash_tree (fuel : nat) (tree : Tree) : M HashingError HashId :=
  if 256 <? zlen (om_iter tree) then
    inode ← partition_entries fuel 0 (om_iter tree);
    hash_long_inode inode
  else hash_short_inode tree.

Definition hash_blob (blob : bytes) : M HashingError HashId :=
  write_hash (u64_bytes (zlen blob) ++ blob).

Definition hash_commit (commit : Commit) : M HashingError HashId :=
  root ← store_get_hash (root_hash commit);
  root ← lift (ok_or root (HValueExpected "root_hash"));
  parents ← match parent_commit_hash commit with
            | Some parent =>
                h ← store_get_hash parent;
                h ← lift (ok_or h (HValueExpected "parent_commit_hash"));
                mret (u64_bytes 1 ++ u64_bytes (zlen h) ++ h)
            | None => mret (u64_bytes 0)
            end;
  write_hash (u64_bytes ENTRY_HASH_LEN ++ root ++ parents ++ u64_bytes (time commit) ++
              u64_bytes (zlen (author commit)) ++ author commit ++
              u64_bytes (zlen (message commit)) ++ message commit).

Definition hash_entry (fuel : nat) (e : Entry) : M HashingError HashId :=
  match e with
  | ECommit commit => hash_commit commit
  | ETree tree => hash_tree fuel tree
  | EBlob blob => hash_blob blob
  end.
End Recursion.

(** [Node::entry_hash_id]; [pfuel] is the fuel of the partitions. *)
Fixpoint entry_hash_id (pfuel fuel : nat) (l : loc) : M HashingError HashId :=
  match fuel with
  | O => throw Diverged
  | S fuel =>
      n ← get_node Dangling l;
      match entry_hash n with
      | Some id => mret id
      | None =>
          e ← lift (ok_or (entry n) MissingNodeEntry);
          id ← hash_entry (entry_hash_id pfuel fuel) pfuel e;
          n ← get_node Dangling l;
          set_node l (set_entry_hash id n);;
          mret id
      end
  end.
End Hash.
