(* ===== verification/OrdMapFacts.v ===== *)
(** * Ordered maps as sorted lists

    The entries of an [OrdMap], in their order, determine it; inserting and removing
    are the corresponding operations on sorted lists.  A reference instance shows
    that the laws of the crate can hold. *)

From Stdlib Require Import ZArith Lia List Bool Ascii String.
From stdpp Require Import base option list numbers strings gmap sorting.
From S2P Require Import Prelude Spsc Types ContextStore ContextHash.

(** ** The order of names *)
Lemma ascii_lt_trans a b c :
  Ascii.compare a b = Lt -> Ascii.compare b c = Lt -> Ascii.compare a c = Lt.
Proof. unfold Ascii.compare. rewrite !N.compare_lt_iff. lia. Qed.

Lemma str_compare_refl s : String.compare s s = Eq.
Proof. pose proof (String.compare_antisym s s) as E. by destruct (String.compare s s). Qed.

Lemma str_lt_trans a : forall b c,
  String.compare a b = Lt -> String.compare b c = Lt -> String.compare a c = Lt.
Proof.
  induction a as [|x a IH]; intros [|y b] [|z c]; try done. cbn.
  destruct (Ascii.compare x y) eqn:Exy; try done; destruct (Ascii.compare y z) eqn:Eyz; try done.
  - apply Ascii.compare_eq_iff in Exy, Eyz. subst. intros.
    assert (Ascii.compare z z = Eq) as -> by (unfold Ascii.compare; apply N.compare_refl).
    by apply (IH b).
  - apply Ascii.compare_eq_iff in Exy. subst. by rewrite Eyz.
  - apply Ascii.compare_eq_iff in Eyz. subst. by rewrite Exy.
  - by rewrite (ascii_lt_trans x y z).
Qed.

Lemma str_compare_gt a b : String.compare a b = Gt -> String.compare b a = Lt.
Proof. rewrite String.compare_antisym. by destruct (String.compare b a). Qed.

(** ** Sorted lists *)
Section Sorted.
Context {V : Type}.
Implicit Types l : list (string * V).

Definition name_lt (a b : string * V) : Prop := String.compare a.1 b.1 = Lt.
Abbreviation sorted := (StronglySorted name_lt).

Fixpoint sl_insert (k : string) (v : V) l : list (string * V) :=
  match l with
  | [] => [(k, v)]
  | (k', v') :: l' =>
      match String.compare k k' with
      | Lt => (k, v) :: l
      | Eq => (k, v) :: l'
      | Gt => (k', v') :: sl_insert k v l'
      end
  end.
Definition sl_remove (k : string) l : list (string * V) := filter (fun kv => kv.1 <> k) l.

Lemma below_get k l : Forall (fun kv => String.compare k kv.1 = Lt) l -> hm_get k l = None.
Proof.
  induction 1 as [|[k' v] l Hk _ IH]; [done|]. cbn. rewrite decide_False; [done|].
  intros ->. cbn in Hk. by rewrite str_compare_refl in Hk.
Qed.

Lemma sorted_cons_inv k v l : sorted ((k, v) :: l) ->
  sorted l /\ Forall (fun kv => String.compare k kv.1 = Lt) l.
Proof. by inversion 1. Qed.

Lemma sorted_ext l1 : forall l2, sorted l1 -> sorted l2 ->
  (forall k, hm_get k l1 = hm_get k l2) -> l1 = l2.
Proof.
  induction l1 as [|[k1 v1] l1 IH]; intros [|[k2 v2] l2] H1 H2 E.
  - done.
  - specialize (E k2). cbn in E. by rewrite decide_True in E.
  - specialize (E k1). cbn in E. by rewrite decide_True in E.
  - apply sorted_cons_inv in H1 as [H1 F1], H2 as [H2 F2].
    assert (k1 = k2) as <-.
    { destruct (String.compare k1 k2) eqn:Ec.
      - by apply String.compare_eq_iff.
      - specialize (E k1). rewrite (below_get k1 ((k2, v2) :: l2)) in E.
        + cbn in E. by rewrite decide_True in E.
        + constructor; [done|]. eapply Forall_impl; [exact F2|]. intros kv. by apply str_lt_trans.
      - apply str_compare_gt in Ec. specialize (E k2). rewrite (below_get k2 ((k1, v1) :: l1)) in E.
        + cbn in E. by rewrite decide_True in E.
        + constructor; [done|]. eapply Forall_impl; [exact F1|]. intros kv. by apply str_lt_trans. }
    f_equal.
    + specialize (E k1). cbn in E. rewrite !decide_True in E by done. by injection E as ->.
    + apply IH; [done|done|]. intros k. specialize (E k). cbn in E. case_decide; [|done].
      subst. by rewrite !below_get.
Qed.

Lemma sl_insert_get k k' v l : sorted l ->
  hm_get k (sl_insert k' v l) = if decide (k = k') then Some v else hm_get k l.
Proof.
  induction l as [|[k1 v1] l IH]; intros Hs; cbn; [done|]. apply sorted_cons_inv in Hs as [Hs _].
  destruct (String.compare k' k1) eqn:Ec; cbn; [|done|].
  - apply String.compare_eq_iff in Ec. subst. by repeat case_decide.
  - rewrite IH by done. repeat case_decide; try done. subst. by rewrite str_compare_refl in Ec.
Qed.

Lemma sl_insert_sorted k v l : sorted l -> sorted (sl_insert k v l).
Proof.
  induction l as [|[k1 v1] l IH]; intros Hs; cbn; [repeat constructor|].
  apply sorted_cons_inv in Hs as [Hs Hf]. destruct (String.compare k k1) eqn:Ec.
  - apply String.compare_eq_iff in Ec. subst. by constructor.
  - constructor; [by constructor|]. constructor; [done|].
    eapply Forall_impl; [exact Hf|]. intros kv. by apply str_lt_trans.
  - constructor; [by apply IH|]. apply str_compare_gt in Ec. clear -Ec Hf.
    induction Hf as [|[k2 v2] l H2 Hf IH]; cbn; [by constructor|].
    destruct (String.compare k k2); constructor; try done. by constructor.
Qed.

Lemma sl_remove_get k k' l :
  hm_get k (sl_remove k' l) = if decide (k = k') then None else hm_get k l.
Proof.
  unfold sl_remove. induction l as [|[k1 v1] l IH]; [by case_decide|]. rewrite filter_cons.
  cbn [fst]. destruct (decide (k1 <> k')) as [Hne|Heq]; cbn; rewrite IH; repeat case_decide; subst; done || tauto.
Qed.

Lemma filter_sorted (P : string * V -> Prop) `{!forall x, Decision (P x)} l :
  sorted l -> sorted (filter P l).
Proof.
  induction 1 as [|kv l Hs IH Hf]; [constructor|]. rewrite filter_cons. case_decide; [|done].
  constructor; [done|]. apply Forall_forall. intros x [_ Hx]%list_elem_of_filter.
  rewrite Forall_forall in Hf. by apply Hf.
Qed.

Lemma sorted_get_in k v l : sorted l -> (k, v) ∈ l <-> hm_get k l = Some v.
Proof.
  induction l as [|[k1 v1] l IH]; intros Hs; cbn; [by rewrite elem_of_nil|].
  apply sorted_cons_inv in Hs as [Hs Hf]. rewrite elem_of_cons, IH by done.
  case_decide as Hk; [subst|].
  - rewrite below_get by done. split; [by intros [[= ->]|]|intros [= ->]; by left].
  - split; [by intros [[= -> ->]|]|by right].
Qed.
End Sorted.

(** ** [OrdMap] *)
Section OrdMap.
Context `{OrdMapCrate} {V : Type}.
Implicit Types m : OrdMap V.

Lemma iter_get m k : hm_get k (om_iter m) = om_get k m.
Proof.
  apply option_eq. intros v. rewrite <- sorted_get_in by apply om_iter_sorted. apply om_iter_get.
Qed.

Lemma iter_new : om_iter (om_new (V := V)) = [].
Proof.
  apply sorted_ext; [apply om_iter_sorted|constructor|]. intros k. by rewrite iter_get, om_get_new.
Qed.

Lemma iter_insert k v m : om_iter (om_insert k v m) = sl_insert k v (om_iter m).
Proof.
  apply sorted_ext; [apply om_iter_sorted|apply sl_insert_sorted, om_iter_sorted|]. intros k'.
  by rewrite iter_get, om_get_insert, sl_insert_get, iter_get by apply om_iter_sorted.
Qed.

Lemma iter_remove k m : om_iter (om_remove k m) = sl_remove k (om_iter m).
Proof.
  apply sorted_ext; [apply om_iter_sorted|apply filter_sorted, om_iter_sorted|]. intros k'.
  by rewrite iter_get, om_get_remove, sl_remove_get, iter_get.
Qed.
End OrdMap.

(** ** A reference instance: a finite map, sorted to iterate over it *)
Definition name_le {V} (a b : string * V) : Prop := String.leb a.1 b.1 = true.
#[export] Instance name_le_dec {V} : RelDecision (name_le (V := V)).
Proof. intros a b. unfold name_le. apply _. Defined.
#[export] Instance name_le_total {V} : Total (name_le (V := V)).
Proof. intros a b. apply String.leb_total. Qed.
#[export] Instance name_le_trans {V} : Transitive (name_le (V := V)).
Proof.
  intros a b c. unfold name_le, String.leb.
  destruct (String.compare a.1 b.1) eqn:E1; try done; destruct (String.compare b.1 c.1) eqn:E2; try done;
    intros _ _; try apply String.compare_eq_iff in E1; try apply String.compare_eq_iff in E2.
  - by rewrite E1, E2, str_compare_refl.
  - by rewrite E1, E2.
  - by rewrite <- E2, E1.
  - by rewrite (str_lt_trans _ b.1).
Qed.

Lemma le_sorted_lt {V} (l : list (string * V)) :
  NoDup l.*1 -> StronglySorted name_le l -> StronglySorted name_lt l.
Proof.
  induction l as [|[k v] l IH]; intros Hn Hs; [constructor|].
  apply NoDup_cons in Hn as [Hk Hn]. inversion Hs as [|? ? Hs' Hf]; subst.
  constructor; [by apply IH|]. apply Forall_forall. intros [k' v'] Hin.
  rewrite Forall_forall in Hf. specialize (Hf _ Hin). unfold name_le, name_lt, String.leb in *. cbn in *.
  destruct (String.compare k k') eqn:E; try done. apply String.compare_eq_iff in E. subst.
  destruct Hk. exact (list_elem_of_fmap_2 fst _ _ Hin).
Qed.

#[export] Instance reference_ordmap : OrdMapCrate.
Proof.
  refine {|
    OrdMap V := gmap string V;
    om_new V := ∅;
    om_get V k m := m !! k;
    om_insert V k v m := <[k := v]> m;
    om_remove V k m := delete k m;
    om_iter V m := merge_sort name_le (map_to_list m);
  |}.
  - intros. apply lookup_empty.
  - intros V k k' v m. destruct (decide (k = k')) as [->|]; [apply lookup_insert_eq|by apply lookup_insert_ne].
  - intros V k k' m. destruct (decide (k = k')) as [->|]; [apply lookup_delete_eq|by apply lookup_delete_ne].
  - intros V m. apply le_sorted_lt; [|apply StronglySorted_merge_sort; apply _].
    rewrite merge_sort_Permutation. apply NoDup_fst_map_to_list.
  - intros V m k v. rewrite merge_sort_Permutation. apply elem_of_map_to_list.
Defined.

(** A stand-in digest and length prefix for witnesses. *)
#[export] Instance reference_blake2 : Blake2Crate.
Proof.
  refine {| blake2b bs := be_bytes 32 (foldr (fun b acc => b + 1 + 257 * acc) 0 bs) |}.
  intros bs. unfold zlen. by rewrite be_bytes_length.
Defined.
#[export] Instance reference_leb128 : Leb128Crate := {| leb128 n := [n] |}.
