(* ===== verification/WorkingTree.v ===== *)
(** * The working tree ([new_context/src/working_tree/working_tree.rs], and the
    lookups of [TezedgeIndex] in [tezedge_context.rs])

    A working tree is a value or a tree of nodes.  Reading descends through cached
    entries and loads what is missing from the repository, filling the caches;
    changing rebuilds the path from the changed node to the root with new nodes and
    shares the rest.  [TreeWalker] iterates over a tree with a stack of levels. *)

From Stdlib Require Import ZArith Lia List Bool Ascii String.
From stdpp Require Import base option list numbers strings gmap.
From S2P Require Import Prelude Spsc ContextStore ContextHash.

Abbreviation ContextKey := (list string).
Abbreviation ContextValue := bytes.

(** [MerkleError], with constructors for fuel and dangling locations; keys are in
    their array form. *)
Inductive MerkleError : Type :=
| MDBError (error : DBError) | MSerializationError | MGarbageCollectionError
| ValueIsNotABlob (key : ContextKey)
| FoundUnexpectedStructure (sought found : string)
| EntryNotFound (hash_id : HashId)
| ValueNotFound (key : ContextKey)
| KeyEmpty | HashToArrayError | HashToStringError
| MHashingError (error : HashingError)
| MValueExpected (what : string) | InvalidState (what : string) | MLockError
| MDiverged | MDangling.

Section Index.
Context `{OrdMapCrate, BincodeCrate}.

(** ** [TezedgeIndex] *)

(** [StringInterner::get_str]; the string is the same with or without the set. *)
Definition get_str {E} (s : string) : M E string :=
  (if 30 <=? zlen (name_bytes s) then mret tt
   else modify (fun st => mkSt (heap st) (repo st) ({[s]} ∪ strings st) (tree_ids st)));;
  mret s.

(** [bincode::deserialize] of an [Entry]: the nodes of a tree are new ones, already
    committed, with a hash and without an entry. *)
Fixpoint load_tree {E} (l : list (string * SNode)) (tree : Tree) : M E Tree :=
  match l with
  | [] => mret tree
  | (k, n) :: l =>
      a ← alloc (mkNode (s_kind n) true (Some (s_hash n)) None);
      load_tree l (om_insert k a tree)
  end.

Definition load_entry {E} (e : SEntry) : M E Entry :=
  match e with
  | STree l => t ← load_tree l om_new; mret (ETree t)
  | SBlob v => mret (EBlob v)
  | SCommit c => mret (ECommit c)
  end.

Definition find_entry_bytes (id : HashId) : M DBError (option bytes) := fun s =>
  (Mem.get_value id (repo s), s).

Definition find_entry (id : HashId) : M DBError (option Entry) :=
  bs ← find_entry_bytes id;
  match bs with
  | None => mret None
  | Some bs =>
      e ← lift (ok_or (bincode_deserialize bs) DBSerializationError);
      e ← load_entry e;
      mret (Some e)
  end.

Definition get_hash (id : HashId) : M DBError (option EntryHash) := fun s =>
  (Mem.get_hash id (repo s), s).

Definition get_entry (id : HashId) : M MerkleError Entry :=
  e ← mapE MDBError (find_entry id);
  lift (ok_or e (EntryNotFound id)).

Definition find_commit (id : HashId) : M DBError (option Commit) :=
  e ← find_entry id;
  match e with
  | Some (ECommit c) => mret (Some c)
  | Some (ETree _) => throw (DBFoundUnexpectedStructure "commit" "tree")
  | Some (EBlob _) => throw (DBFoundUnexpectedStructure "commit" "blob")
  | None => mret None
  end.

Definition get_commit (id : HashId) : M MerkleError Commit :=
  c ← mapE MDBError (find_commit id);
  lift (ok_or c (EntryNotFound id)).

Definition find_tree_by_id (id : HashId) : M DBError (option Tree) :=
  e ← find_entry id;
  match e with
  | Some (ETree t) => mret (Some t)
  | Some (EBlob _) => throw (DBFoundUnexpectedStructure "tree" "blob")
  | Some (ECommit _) => throw (DBFoundUnexpectedStructure "tree" "commit")
  | None => mret None
  end.

Definition get_tree (id : HashId) : M MerkleError Tree :=
  t ← mapE MDBError (find_tree_by_id id);
  lift (ok_or t (EntryNotFound id)).

(** [WorkingTree::get_entry_from_hash_id]: reads a repository it is given. *)
Definition get_entry_from_hash_id (id : HashId) : M MerkleError Entry :=
  bs ← mapE MDBError (find_entry_bytes id);
  match bs with
  | None => throw (EntryNotFound id)
  | Some bs => e ← lift (ok_or (bincode_deserialize bs) MSerializationError); load_entry e
  end.

(** [Node::get_hash_id]. *)
Definition get_hash_id (n : Node) : M MerkleError HashId :=
  lift (ok_or (entry_hash n) (InvalidState "Missing entry hash")).

(** Loads the entry of a node by its hash and keeps it in the node. *)
Definition load_node (l : loc) (n : Node) : M MerkleError Entry :=
  id ← get_hash_id n;
  e ← get_entry id;
  n ← get_node MDangling l;
  set_node l (set_entry e n);;
  mret e.

Definition node_entry (l : loc) : M MerkleError Entry :=
  n ← get_node MDangling l;
  match entry n with
  | Some e => mret e
  | None => load_node l n
  end.

Fixpoint find_raw_tree (root : Tree) (key : ContextKey) : M MerkleError Tree :=
  match key with
  | [] => mret root
  | first :: key =>
      match om_get first root with
      | None => mret om_new
      | Some l =>
          n ← get_node MDangling l;
          match entry n with
          | Some (ETree tree) => find_raw_tree tree key
          | Some (EBlob _) => mret om_new
          | Some (ECommit _) => throw (FoundUnexpectedStructure "Tree/Blob" "commit")
          | None =>
              e ← load_node l n;
              match e with
              | ETree tree => find_raw_tree tree key
              | EBlob _ => mret om_new
              | ECommit _ => throw (FoundUnexpectedStructure "Tree/Blob" "commit")
              end
          end
      end
  end.

(** [key.split_last()]: the last fragment and the ones before it. *)
Definition split_last (key : ContextKey) : option (string * ContextKey) :=
  match rev key with [] => None | file :: path => Some (file, rev path) end.

Definition get_from_tree (root : Tree) (key : ContextKey) : M MerkleError ContextValue :=
  '(file, path) ← lift (ok_or (split_last key) KeyEmpty);
  tree ← find_raw_tree root path;
  l ← lift (ok_or (om_get file tree) (ValueNotFound key));
  e ← node_entry l;
  match e with
  | EBlob blob => mret blob
  | _ => throw (ValueIsNotABlob key)
  end.

Definition get_history (commit_hash : HashId) (key : ContextKey) : M MerkleError ContextValue :=
  commit ← get_commit commit_hash;
  tree ← get_tree (root_hash commit);
  get_from_tree tree key.
End Index.

(** ** [WorkingTree] *)
Inductive WorkingTree `{OrdMapCrate} : Type :=
| WTree (tree : Tree)
| WValue (value : ContextValue).
Arguments WTree {_} tree.
Arguments WValue {_} value.

Module WT.
Section Ops.
Context `{OrdMapCrate, BincodeCrate}.

Definition new : WorkingTree := WTree om_new.

Definition get_value (w : WorkingTree) : option ContextValue :=
  match w with WTree _ => None | WValue v => Some v end.

Definition get_working_tree_root_ref (w : WorkingTree) : Tree :=
  match w with WTree tree => tree | WValue _ => om_new end.

Definition is_empty_tree (t : Tree) : bool := match om_iter t with [] => true | _ => false end.

Definition find_tree (key : ContextKey) (w : WorkingTree) : M MerkleError (option WorkingTree) :=
  tree ← find_raw_tree (get_working_tree_root_ref w) key;
  mret (if is_empty_tree tree then None else Some (WTree tree)).

Definition kind (w : WorkingTree) : NodeKind := match w with WTree _ => NonLeaf | WValue _ => Leaf end.

Definition empty (w : WorkingTree) : WorkingTree := new.

Definition is_empty (w : WorkingTree) : bool :=
  match w with WTree tree => is_empty_tree tree | WValue _ => true end.

(** [entry_tree] and [entry_value]. *)
Definition entry_tree (e : Entry) : result MerkleError Tree :=
  match e with
  | ETree tree => Ok tree
  | EBlob _ => Err (FoundUnexpectedStructure "tree" "blob")
  | ECommit _ => Err (FoundUnexpectedStructure "tree" "commit")
  end.
Definition entry_value (e : Entry) : result MerkleError ContextValue :=
  match e with
  | EBlob blob => Ok blob
  | ETree _ => Err (FoundUnexpectedStructure "blob" "tree")
  | ECommit _ => Err (FoundUnexpectedStructure "blob" "commit")
  end.

Definition get_non_leaf (e : Entry) : Node := mkNode NonLeaf false None (Some e).
Definition get_leaf (e : Entry) : Node := mkNode Leaf false None (Some e).

(** [for (key, value) in node.iter().skip(offset).take(length)]. *)
Fixpoint list_loop (l : list (string * loc)) : M MerkleError (list (string * WorkingTree)) :=
  match l with
  | [] => mret []
  | (key, a) :: l =>
      e ← node_entry a;
      match e with
      | ETree tree => rest ← list_loop l; mret ((key, WTree tree) :: rest)
      | EBlob value => rest ← list_loop l; mret ((key, WValue value) :: rest)
      | ECommit _ => list_loop l
      end
  end.

Definition list_children (offset length : option Z) (key : ContextKey) (w : WorkingTree)
  : M MerkleError (list (string * WorkingTree)) :=
  node ← find_raw_tree (get_working_tree_root_ref w) key;
  let node_length := zlen (om_iter node) in
  let length := Z.min (default node_length length) node_length in
  let offset := default 0 offset in
  list_loop (take (Z.to_nat length) (drop (Z.to_nat offset) (om_iter node))).

(** [node_tree]. *)
Definition node_tree (l : loc) : M MerkleError WorkingTree :=
  e ← node_entry l;
  n ← get_node MDangling l;
  match node_kind n with
  | NonLeaf => t ← lift (entry_tree e); mret (WTree t)
  | Leaf => v ← lift (entry_value e); mret (WValue v)
  end.

Definition find (key : ContextKey) (w : WorkingTree) : M MerkleError (option ContextValue) := fun s =>
  match get_from_tree (get_working_tree_root_ref w) key s with
  | (Ok value, s) => (Ok (Some value), s)
  | (Err (ValueNotFound _), s) => (Ok None, s)
  | (Err err, s) => (Err err, s)
  end.

Definition mem (key : ContextKey) (w : WorkingTree) : M MerkleError bool :=
  match split_last key with
  | None => throw KeyEmpty
  | Some (file, path) => fun s =>
      match find_raw_tree (get_working_tree_root_ref w) path s with
      | (Ok node, s) => (Ok (match om_get file node with Some _ => true | None => false end), s)
      | (Err _, s) => (Ok false, s)
      end
  end.

Definition mem_tree (key : ContextKey) (w : WorkingTree) : M MerkleError bool := fun s =>
  match find_raw_tree (get_working_tree_root_ref w) key s with
  | (Ok node, s) => (Ok (negb (is_empty_tree node)), s)
  | (Err _, s) => (Ok false, s)
  end.

(** [compute_new_root_with_change]; the key is given from its last fragment. *)
Fixpoint compute_new_root (root : Tree) (rkey : list string) (new_node : option Node)
  : M MerkleError Entry :=
  match rkey with
  | [] =>
      match new_node with
      | Some n => lift (ok_or (entry n) (InvalidState "Missing entry value"))
      | None => mret (ETree om_new)
      end
  | last :: rpath =>
      tree ← find_raw_tree root (rev rpath);
      tree ← match new_node with
             | None => mret (om_remove last tree)
             | Some new_node =>
                 last ← get_str last;
                 a ← alloc new_node;
                 mret (om_insert last a tree)
             end;
      if is_empty_tree tree then compute_new_root root rpath None
      else compute_new_root root rpath (Some (get_non_leaf (ETree tree)))
  end.

Definition compute_new_root_with_change (key : ContextKey) (new_node : option Node) (w : WorkingTree)
  : M MerkleError Entry :=
  compute_new_root (get_working_tree_root_ref w) (rev key) new_node.

Definition with_new_root (e : Entry) : M MerkleError WorkingTree :=
  tree ← lift (entry_tree e); mret (WTree tree).

Definition add (key : ContextKey) (value : ContextValue) (w : WorkingTree) : M MerkleError WorkingTree :=
  e ← compute_new_root_with_change key (Some (get_leaf (EBlob value))) w;
  with_new_root e.

Definition add_tree (key : ContextKey) (tree : WorkingTree) (w : WorkingTree)
  : M MerkleError WorkingTree :=
  let node := match tree with
              | WTree tree => get_non_leaf (ETree tree)
              | WValue value => get_leaf (EBlob value)
              end in
  e ← compute_new_root_with_change key (Some node) w;
  with_new_root e.

Definition delete (key : ContextKey) (w : WorkingTree) : M MerkleError WorkingTree :=
  e ← match key with
      | [] => mret (ETree (get_working_tree_root_ref w))
      | _ => compute_new_root_with_change key None w
      end;
  with_new_root e.

Definition copy (from_key to_key : ContextKey) (w : WorkingTree)
  : M MerkleError (option WorkingTree) := fun s =>
  match find_raw_tree (get_working_tree_root_ref w) from_key s with
  | (Ok source_tree, s) =>
      (e ← compute_new_root_with_change to_key (Some (get_non_leaf (ETree source_tree))) w;
       w ← with_new_root e;
       mret (Some w)) s
  | (Err (EntryNotFound _), s) => (Ok None, s)
  | (Err err, s) => (Err err, s)
  end.
End Ops.

Section Hashing.
Context `{OrdMapCrate, BincodeCrate, Blake2Crate, Leb128Crate}.
Context (pfuel fuel : nat).

Definition get_working_tree_root_hash (w : WorkingTree) : M HashingError HashId :=
  hash_tree (entry_hash_id pfuel fuel) pfuel (get_working_tree_root_ref w).

(** [WorkingTree::hash]. *)
Definition hash (w : WorkingTree) : M MerkleError EntryHash :=
  id ← mapE MHashingError (get_working_tree_root_hash w);
  h ← mapE MDBError (get_hash id);
  lift (ok_or h (EntryNotFound id)).

Definition equal (w other : WorkingTree) : M MerkleError bool :=
  h ← hash w;
  h' ← hash other;
  mret (bool_decide (h = h')).

(** *** [prepare_commit] *)

(** [SerializingData]: what is to be written, and older entries that are kept. *)
Record SerializingData : Type := mkData {
  batch : list (HashId * bytes);
  referenced_older_entries : list HashId;
}.

(** The value [bincode] sees; a node without a hash is an error. *)
Fixpoint sentries {E} (err : E) (l : list (string * loc)) : M E (list (string * SNode)) :=
  match l with
  | [] => mret []
  | (k, a) :: l =>
      n ← get_node err a;
      id ← lift (ok_or (entry_hash n) err);
      rest ← sentries err l;
      mret ((k, mkSNode (node_kind n) id) :: rest)
  end.
Definition sentry (e : Entry) : M MerkleError SEntry :=
  match e with
  | ETree t => l ← sentries MSerializationError (om_iter t); mret (STree l)
  | EBlob v => mret (SBlob v)
  | ECommit c => mret (SCommit c)
  end.

Definition add_serialized_entry (commit_to_storage : bool) (id : HashId) (e : Entry)
  (data : SerializingData) : M MerkleError SerializingData :=
  if commit_to_storage then
    se ← sentry e;
    mret (mkData (batch data ++ [(id, bincode_serialize se)]) (referenced_older_entries data))
  else mret data.

Definition add_older_entry (commit_to_storage : bool) (l : loc) (data : SerializingData)
  : M MerkleError SerializingData :=
  if commit_to_storage then
    id ← mapE MHashingError (entry_hash_id pfuel fuel l);
    mret (mkData (batch data) (referenced_older_entries data ++ [id]))
  else mret data.

(** The children of a tree, one after the other until an error. *)
Section Children.
Context (commit_to_storage : bool).
Context (recurse : Entry -> HashId -> SerializingData -> M MerkleError SerializingData).

Fixpoint serialize_children (l : list (string * loc)) (data : SerializingData)
  : M MerkleError SerializingData :=
  match l with
  | [] => mret data
  | (_, a) :: l =>
      n ← get_node MDangling a;
      data ←
        (if commited n then add_older_entry commit_to_storage a data
         else
           set_node a (set_commited n);;
           match entry n with
           | None => mret data
           | Some e =>
               id ← mapE MHashingError (entry_hash_id pfuel fuel a);
               recurse e id data
           end);
      serialize_children l data
  end.
End Children.

Fixpoint get_entries_recursively (commit_to_storage : bool) (rfuel : nat) (e : Entry) (id : HashId)
  (root : option Tree) (data : SerializingData) : M MerkleError SerializingData :=
  match rfuel with
  | O => throw MDiverged
  | S rfuel =>
      data ← add_serialized_entry commit_to_storage id e data;
      match e with
      | EBlob _ => mret data
      | ETree tree =>
          serialize_children commit_to_storage
            (fun e id data => get_entries_recursively commit_to_storage rfuel e id None data)
            (om_iter tree) data
      | ECommit commit =>
          e ← match root with
              | Some root => mret (ETree root)
              | None => get_entry_from_hash_id (root_hash commit)
              end;
          get_entries_recursively commit_to_storage rfuel e (root_hash commit) None data
      end
  end.

Definition prepare_commit (time : Z) (author message : bytes) (parent : option HashId)
  (commit_to_storage : bool) (w : WorkingTree) : M MerkleError (HashId * SerializingData) :=
  root_hash ← mapE MHashingError (get_working_tree_root_hash w);
  let root := get_working_tree_root_ref w in
  let new_commit := mkCommit parent root_hash time author message in
  commit_hash ← mapE MHashingError (hash_commit new_commit);
  data ← get_entries_recursively commit_to_storage fuel (ECommit new_commit) commit_hash (Some root)
           (mkData [] []);
  mret (commit_hash, data).
End Hashing.
End WT.

(** ** [TreeWalker] *)
Inductive FoldDepth : Type := DEq (n : Z) | DLt (n : Z) | DLe (n : Z) | DGt (n : Z) | DGe (n : Z).

Definition should_apply (d : FoldDepth) (depth : Z) : bool :=
  match d with
  | DEq n => depth =? n
  | DLt n => depth <? n
  | DLe n => depth <=? n
  | DGt n => n <? depth
  | DGe n => n <=? depth
  end.

(** [n - 1] is an [i64]: it wraps around at [i64::MIN] (built with overflow checks
    it panics there). *)
Definition should_continue (d : FoldDepth) (depth : Z) : bool :=
  match d with
  | DEq n => depth <? n
  | DLt n => depth <? swrap 64 (n - 1)
  | DLe n => depth <? n
  | DGt _ | DGe _ => true
  end.

Module Walker.
Section Ops.
Context `{OrdMapCrate, BincodeCrate}.

(** [TreeWalkerLevel]. *)
Record level : Type := mkLevel {
  key : ContextKey;
  root : WorkingTree;
  current_depth : Z;
  yield_self : bool;
  children_iter : option (list (string * loc));
}.

Definition new_level (key : ContextKey) (root : WorkingTree) (current_depth : Z)
  (depth : option FoldDepth) : level :=
  let continue := match depth with Some d => should_continue d current_depth | None => true end in
  mkLevel key root current_depth
    (match depth with Some d => should_apply d current_depth | None => true end)
    (if continue then match root with WTree tree => Some (om_iter tree) | WValue _ => None end
     else None).

(** [TreeWalker]: the head of [stack] is the current level. *)
Record t : Type := mkWalker { depth : option FoldDepth; stack : list level }.

Definition new (key : ContextKey) (root : WorkingTree) (depth : option FoldDepth) : t :=
  mkWalker depth [new_level key root 0 depth].
Definition empty : t := mkWalker None [].

(** [next]: an item, or the end. *)
Fixpoint next (fuel : nat) (w : t) : M MerkleError (option (ContextKey * WorkingTree) * t) :=
  match fuel with
  | O => throw MDiverged
  | S fuel =>
      match stack w with
      | [] => mret (None, w)
      | l :: below =>
          if yield_self l then
            mret (Some (key l, root l),
                  mkWalker (depth w)
                    (mkLevel (key l) (root l) (current_depth l) false (children_iter l) :: below))
          else
            match children_iter l with
            | Some ((k, node) :: iter) => fun s =>
                let l := mkLevel (key l) (root l) (current_depth l) false (Some iter) in
                match WT.node_tree node s with
                | (Ok root, s) =>
                    next fuel (mkWalker (depth w)
                      (new_level (key l ++ [k]) root (current_depth l + 1) (depth w) :: l :: below)) s
                | (Err _, s) => next fuel (mkWalker (depth w) (l :: below)) s
                end
            | _ => next fuel (mkWalker (depth w) below)
            end
      end
  end.

(** All the items, as a [for] loop over the iterator takes them. *)
Fixpoint collect (n fuel : nat) (w : t) : M MerkleError (list (ContextKey * WorkingTree)) :=
  match n with
  | O => throw MDiverged
  | S n =>
      '(item, w) ← next fuel w;
      match item with
      | None => mret []
      | Some item => rest ← collect n fuel w; mret (item :: rest)
      end
  end.
End Ops.
End Walker.

(** [fold_iter]. *)
Definition fold_iter `{OrdMapCrate, BincodeCrate} (depth : option FoldDepth) (key : ContextKey)
  (w : WorkingTree) : M MerkleError Walker.t :=
  root ← WT.find_tree key w;
  mret (match root with Some root => Walker.new [] root depth | None => Walker.empty end).

(** ** Listings for the RPC *)

(** [key.join(/)] and [string.split(/)]. *)
Definition key_to_string (key : ContextKey) : string := String.concat "/" key.

Fixpoint split_slash (s acc : string) : list string :=
  match s with
  | EmptyString => [acc]
  | String c s =>
      if decide (c = "/"%char) then acc :: split_slash s EmptyString
      else split_slash s (String.append acc (String c EmptyString))
  end.
Definition string_to_key (s : string) : ContextKey := split_slash s EmptyString.

Section Listings.
Context `{OrdMapCrate, BincodeCrate}.

(** The loop over the children of a tree: entries that cannot be loaded are
    skipped, the first error of a recursive call stops it. *)
Section Children.
Context (recurse : string -> Entry -> M MerkleError (list (ContextKey * ContextValue))).

Fixpoint key_values_children (path : string) (l : list (string * loc))
  : M MerkleError (list (ContextKey * ContextValue)) :=
  match l with
  | [] => mret []
  | (k, a) :: l => fun s =>
      match node_entry a s with
      | (Err _, s) => key_values_children path l s
      | (Ok e, s) =>
          (found ← recurse (path ++ "/" ++ k)%string e;
           rest ← key_values_children path l;
           mret (found ++ rest)) s
      end
  end.
End Children.

(** [get_key_values_from_tree_recursively], of the working tree and of the index,
    which differ in how they [fetch] the root of a commit. *)
Section Fetch.
Context (fetch : HashId -> M MerkleError Entry).

Fixpoint get_key_values_from_tree_recursively (fuel : nat) (path : string) (e : Entry)
  : M MerkleError (list (ContextKey * ContextValue)) :=
  match fuel with
  | O => throw MDiverged
  | S fuel =>
      match e with
      | EBlob blob => mret [(string_to_key path, blob)]
      | ETree tree =>
          key_values_children (get_key_values_from_tree_recursively fuel) path (om_iter tree)
      | ECommit commit =>
          e ← fetch (root_hash commit);
          get_key_values_from_tree_recursively fuel path e
      end
  end.

Fixpoint key_values_loop (fuel : nat) (prefix : string) (l : list (string * loc))
  : M MerkleError (list (ContextKey * ContextValue)) :=
  match l with
  | [] => mret []
  | (k, a) :: l =>
      e ← node_entry a;
      found ← get_key_values_from_tree_recursively fuel (prefix ++ k)%string e;
      rest ← key_values_loop fuel prefix l;
      mret (found ++ rest)
  end.

(** [_get_key_values_by_prefix] and [_get_context_key_values_by_prefix]. *)
Definition key_values_by_prefix (fuel : nat) (root_tree : Tree) (prefix : ContextKey)
  : M MerkleError (option (list (ContextKey * ContextValue))) :=
  prefixed_tree ← find_raw_tree root_tree prefix;
  let delimiter := match prefix with [] => ""%string | _ => "/"%string end in
  keyvalues ← key_values_loop fuel (key_to_string prefix ++ delimiter)%string (om_iter prefixed_tree);
  mret (match keyvalues with [] => None | _ => Some keyvalues end).

End Fetch.

(** [WorkingTree::get_key_values_by_prefix] and
    [TezedgeIndex::get_context_key_values_by_prefix]. *)
Definition get_key_values_by_prefix (fuel : nat) (context_hash_id : HashId) (prefix : ContextKey)
  : M MerkleError (option (list (ContextKey * ContextValue))) :=
  commit ← get_commit context_hash_id;
  e ← get_entry_from_hash_id (root_hash commit);
  root_tree ← lift (WT.entry_tree e);
  key_values_by_prefix get_entry_from_hash_id fuel root_tree prefix.

Definition get_context_key_values_by_prefix (fuel : nat) (context_hash : HashId) (prefix : ContextKey)
  : M MerkleError (option (list (ContextKey * ContextValue))) :=
  commit ← get_commit context_hash;
  root_tree ← get_tree (root_hash commit);
  key_values_by_prefix get_entry fuel root_tree prefix.
End Listings.

(** [StringTreeEntry]; blobs keep their bytes, of which the code writes the
    hexadecimal form.  A [BTreeMap] built from a tree in its order is that list. *)
Set Warnings "-register-all".

Inductive StringTreeEntry : Type :=
| StTree (tree : list (string * StringTreeEntry))
| StBlob (value : bytes)
| StNull.

Section ContextTree.
Context `{OrdMapCrate, BincodeCrate}.

Definition less_depth (depth : option Z) : option Z := (fun d => d - 1) <$> depth.

Section Children.
Context (recurse : Entry -> M MerkleError StringTreeEntry).

Fixpoint context_children (l : list (string * loc)) : M MerkleError (list (string * StringTreeEntry)) :=
  match l with
  | [] => mret []
  | (k, a) :: l =>
      e ← node_entry a;
      t ← recurse e;
      rest ← context_children l;
      mret ((k, t) :: rest)
  end.
End Children.

Fixpoint get_context_recursive (fuel : nat) (depth : option Z) (e : Entry)
  : M MerkleError StringTreeEntry :=
  match fuel with
  | O => throw MDiverged
  | S fuel =>
      if decide (depth = Some 0) then mret StNull
      else match e with
           | EBlob blob => mret (StBlob blob)
           | ETree tree =>
               l ← context_children (get_context_recursive fuel (less_depth depth)) (om_iter tree);
               mret (StTree l)
           | ECommit _ => throw (FoundUnexpectedStructure "Tree/Blob" "Commit")
           end
  end.

Definition get_context_tree_by_prefix (fuel : nat) (context_hash : HashId) (prefix : ContextKey)
  (depth : option Z) : M MerkleError StringTreeEntry :=
  if decide (depth = Some 0) then mret StNull
  else
    commit ← get_commit context_hash;
    root_tree ← get_tree (root_hash commit);
    prefixed_tree ← find_raw_tree root_tree prefix;
    l ← context_children (get_context_recursive fuel (less_depth depth)) (om_iter prefixed_tree);
    mret (StTree l).
End ContextTree.
