(* ===== verification/ContextContent.v ===== *)
(** * What a context holds, without ids, nodes or sharing

    [content] is a tree of directories and values.  [raw], [put] and [del] are the
    reference meanings of descending, setting and deleting a path, from the root
    down; [rebuild] goes from the changed end up to the root as the code does, and
    is shown to agree.  [content_hash] is the hash of a content as a function of
    the content alone. *)

From Stdlib Require Import ZArith Lia List Bool Ascii String.
From stdpp Require Import base option list numbers strings gmap sorting.
From S2P Require Import Prelude Spsc Types ContextStore ContextHash OrdMapFacts.

Set Warnings "-register-all".

(** ** Contents *)
Inductive content : Type :=
| CBlob (v : bytes)
| CDir (l : list (string * content)).

Definition kind_of (c : content) : NodeKind :=
  match c with CBlob _ => Leaf | CDir _ => NonLeaf end.

Section ContentInd.
Context (P : content -> Prop).
Context (Hblob : forall v, P (CBlob v)).
Context (Hdir : forall l, Forall (fun kc => P kc.2) l -> P (CDir l)).

Fixpoint content_ind' (c : content) : P c :=
  match c with
  | CBlob v => Hblob v
  | CDir l =>
      Hdir l ((fix go (l : list (string * content)) : Forall (fun kc => P kc.2) l :=
        match l with
        | [] => List.Forall_nil _
        | kc :: l => List.Forall_cons _ kc l (content_ind' kc.2) (go l)
        end) l)
  end.
End ContentInd.

(** ** Lists of names in step *)
Section Pairwise.
Context {C X : Type} (P : C -> X -> Prop).

Fixpoint pairwise (l : list (string * C)) (xs : list (string * X)) : Prop :=
  match l, xs with
  | [], [] => True
  | (k, c) :: l, (k', x) :: xs => k = k' /\ P c x /\ pairwise l xs
  | _, _ => False
  end.

Lemma pairwise_get k l : forall xs, pairwise l xs ->
  match hm_get k l, hm_get k xs with
  | Some c, Some x => P c x
  | None, None => True
  | _, _ => False
  end.
Proof.
  induction l as [|[k1 c] l IH]; intros [|[k2 x] xs]; cbn; try done.
  intros (-> & Hc & Hl). case_decide; [done|]. by apply IH.
Qed.

Lemma pairwise_names l : forall xs, pairwise l xs -> l.*1 = xs.*1.
Proof.
  induction l as [|[k1 c] l IH]; intros [|[k2 x] xs]; cbn; try done.
  intros (-> & _ & Hl). f_equal. by apply IH.
Qed.

Lemma pairwise_length l xs : pairwise l xs -> zlen l = zlen xs.
Proof.
  intros Hp%pairwise_names. unfold zlen. by rewrite <- (length_fmap fst l), Hp, length_fmap.
Qed.

Lemma pairwise_insert k c x l : forall xs, P c x -> pairwise l xs ->
  pairwise (sl_insert k c l) (sl_insert k x xs).
Proof.
  induction l as [|[k1 c1] l IH]; intros [|[k2 x2] xs] Hc; cbn; try done.
  intros (-> & Hx & Hl). destruct (String.compare k k2); cbn; repeat split; auto.
Qed.

(** Filters by the names alone. *)
Lemma pairwise_filter (p : string * C -> Prop) (q : string * X -> Prop)
  `{!forall x, Decision (p x)} `{!forall x, Decision (q x)} l :
  (forall k c x, p (k, c) <-> q (k, x)) -> forall xs, pairwise l xs ->
  pairwise (filter p l) (filter q xs).
Proof.
  intros Hpq. induction l as [|[k1 c1] l IH]; intros [|[k2 x2] xs]; try done.
  intros (-> & Hc & Hl). rewrite !filter_cons. pose proof (Hpq k2 c1 x2).
  destruct (decide (p (k2, c1))), (decide (q (k2, x2))); cbn; tauto || auto.
Qed.

Lemma pairwise_in l : forall xs x, pairwise l xs -> x ∈ xs.*2 -> exists c, c ∈ l.*2 /\ P c x.
Proof.
  induction l as [|[k1 c1] l IH]; intros [|[k2 x2] xs] x; cbn; try done.
  { intros _ ?%not_elem_of_nil. done. }
  intros (_ & H1 & Hl) [->|Hx]%elem_of_cons; [exists c1; split; [apply list_elem_of_here|done]|].
  destruct (IH _ _ Hl Hx) as (c & Hc & HP). exists c. split; [by apply list_elem_of_further|done].
Qed.
End Pairwise.

Lemma pairwise_impl {C X} (P Q : C -> X -> Prop) l : forall xs,
  Forall (fun kc => forall x, P kc.2 x -> Q kc.2 x) l -> pairwise P l xs -> pairwise Q l xs.
Proof.
  induction l as [|[k1 c1] l IH]; intros [|[k2 x2] xs] Hf; cbn; try done.
  apply Forall_cons in Hf as [H1 Hf]. intros (-> & Hc & Hl). auto.
Qed.

Lemma pairwise_det {C X} (P : C -> X -> Prop) l : forall l' xs,
  Forall (fun kc => forall c' x, P kc.2 x -> P c' x -> kc.2 = c') l ->
  pairwise P l xs -> pairwise P l' xs -> l = l'.
Proof.
  induction l as [|[k1 c1] l IH]; intros [|[k' c'] l'] [|[k2 x2] xs] Hf; cbn; try done.
  apply Forall_cons in Hf as [H1 Hf]. intros (-> & Hc & Hl) (-> & Hc' & Hl').
  f_equal; [|by apply (IH _ xs)]. f_equal. by apply (H1 _ x2).
Qed.

(** ** The hash of a content *)
Section ContentHash.
Context `{Blake2Crate, Leb128Crate} (pfuel : nat).

(** A name with the kind and the hash of what it names. *)
Abbreviation hashed := (string * (NodeKind * EntryHash))%type.

Definition short_bytes (e : hashed) : bytes :=
  encode_irmin_node_kind e.2.1 ++ leb128 (zlen (name_bytes e.1)) ++ name_bytes e.1 ++
  u64_bytes ENTRY_HASH_LEN ++ e.2.2.
Definition long_bytes (e : hashed) : bytes :=
  leb128 (zlen (name_bytes e.1)) ++ name_bytes e.1 ++
  [match e.2.1 with Leaf => 1 | NonLeaf => 0 end] ++ e.2.2.

Inductive inode : Type :=
| IEmpty
| IValue (es : list hashed)
| INode (depth children : Z) (pointers : list (Z * EntryHash)).

Definition inode_hash (i : inode) : option EntryHash :=
  match i with
  | IEmpty => None
  | IValue es => Some (blake2b ([0] ++ [zlen es mod 256] ++ concat (long_bytes <$> es)))
  | INode depth children ps =>
      Some (blake2b ([1] ++ leb128 depth ++ leb128 children ++ [zlen ps mod 256] ++
                     concat ((fun p => p.1 :: p.2) <$> ps)))
  end.

Section Pointers.
Context (partition : list hashed -> option inode) (depth : Z) (es : list hashed).
Fixpoint content_pointers (ixs : list Z) : option (list (Z * EntryHash)) :=
  match ixs with
  | [] => Some []
  | i :: ixs =>
      ti ← partition (filter (fun e => index depth e.1 = i) es);
      match ti with
      | IEmpty => content_pointers ixs
      | non_empty =>
          h ← inode_hash non_empty;
          ps ← content_pointers ixs;
          Some ((i, h) :: ps)
      end
  end.
End Pointers.

Fixpoint content_partition (fuel : nat) (depth : Z) (es : list hashed) : option inode :=
  match es with
  | [] => Some IEmpty
  | _ =>
      if zlen es <=? 32 then Some (IValue es)
      else match fuel with
           | O => None
           | S fuel =>
               ps ← content_pointers (content_partition fuel (depth + 1)) depth es indices;
               Some (INode depth (zlen es) ps)
           end
  end.

Definition dir_hash (es : list hashed) : option EntryHash :=
  if 256 <? zlen es then i ← content_partition pfuel 0 es; inode_hash i
  else Some (blake2b (u64_bytes (zlen es) ++ concat (short_bytes <$> es))).

(** [None]: the partition of a large directory does not end within [pfuel]. *)
Fixpoint content_hash (c : content) : option EntryHash :=
  match c with
  | CBlob v => Some (blake2b (u64_bytes (zlen v) ++ v))
  | CDir l =>
      es ← (fix go (l : list (string * content)) : option (list hashed) :=
              match l with
              | [] => Some []
              | (k, c) :: l =>
                  h ← content_hash c; es ← go l; Some ((k, (kind_of c, h)) :: es)
              end) l;
      dir_hash es
  end.

Fixpoint hashed_entries (l : list (string * content)) : option (list hashed) :=
  match l with
  | [] => Some []
  | (k, c) :: l => h ← content_hash c; es ← hashed_entries l; Some ((k, (kind_of c, h)) :: es)
  end.

Lemma content_hash_dir l : content_hash (CDir l) = (es ← hashed_entries l; dir_hash es).
Proof.
  cbn. set (go := (fix go (l : list (string * content)) : option (list hashed) := _)).
  enough (go l = hashed_entries l) as -> by done. induction l as [|[k c] l IH]; [done|].
  cbn. by rewrite IH.
Qed.
End ContentHash.


(** ** Paths *)
Abbreviation dir := (list (string * content)).

(** The directory at a path; nothing, or a value, counts as an empty one. *)
Fixpoint raw (l : dir) (key : list string) : dir :=
  match key with
  | [] => l
  | k :: key => match hm_get k l with Some (CDir l') => raw l' key | _ => [] end
  end.
Definition sub (l : dir) (k : string) : dir := raw l [k].

Fixpoint put (l : dir) (k : string) (key : list string) (c : content) : dir :=
  match key with
  | [] => sl_insert k c l
  | k' :: key => sl_insert k (CDir (put (sub l k) k' key c)) l
  end.

(** A directory that becomes empty goes as well. *)
Fixpoint del (l : dir) (k : string) (key : list string) : dir :=
  match key with
  | [] => sl_remove k l
  | k' :: key =>
      match del (sub l k) k' key with
      | [] => sl_remove k l
      | d => sl_insert k (CDir d) l
      end
  end.

Definition change (k : string) (x : option content) (l : dir) : dir :=
  match x with None => sl_remove k l | Some c => sl_insert k c l end.
Definition as_dir (d : dir) : option content := match d with [] => None | _ => Some (CDir d) end.

(** From the last fragment to the first. *)
Fixpoint rebuild (l : dir) (rkey : list string) (x : option content) : option content :=
  match rkey with
  | [] => x
  | last :: rpath => rebuild l rpath (as_dir (change last x (raw l (rev rpath))))
  end.

Lemma raw_nil key : raw [] key = [].
Proof. by destruct key. Qed.
Lemma raw_cons l k key : raw l (k :: key) = raw (sub l k) key.
Proof. unfold sub. cbn. destruct (hm_get k l) as [[v|l']|]; try by rewrite raw_nil. done. Qed.

Lemma rebuild_first l k x rkey :
  rebuild l (rkey ++ [k]) x = as_dir (change k (rebuild (sub l k) rkey x) l).
Proof.
  revert x. induction rkey as [|last rpath IH]; intros x; [done|].
  cbn [app rebuild]. by rewrite IH, rev_unit, raw_cons.
Qed.

Lemma sl_insert_not_nil {V} k (v : V) l : sl_insert k v l <> [].
Proof. destruct l as [|[k' v'] l]; [done|]. cbn. by destruct (String.compare k k'). Qed.

Lemma rev_cons' {A} (x : A) l : rev (x :: l) = rev l ++ [x].
Proof. done. Qed.

Lemma rebuild_put l k key c : rebuild l (rev (k :: key)) (Some c) = Some (CDir (put l k key c)).
Proof.
  revert l k. induction key as [|k' key IH]; intros l k; rewrite rev_cons', rebuild_first.
  - cbn. pose proof (sl_insert_not_nil k c l). by destruct (sl_insert k c l).
  - rewrite IH. cbn. set (d := CDir _). pose proof (sl_insert_not_nil k d l). by destruct (sl_insert k d l).
Qed.

Lemma rebuild_del l k key : rebuild l (rev (k :: key)) None = as_dir (del l k key).
Proof.
  revert l k. induction key as [|k' key IH]; intros l k; rewrite rev_cons', rebuild_first; [done|].
  rewrite IH. cbn [del]. by destruct (del (sub l k) k' key).
Qed.

(** *** Nesting *)
Fixpoint depth (c : content) : nat :=
  match c with
  | CBlob _ => 0
  | CDir l => S ((fix go (l : dir) : nat := match l with [] => 0 | (_, c) :: l => depth c `max` go l end) l)
  end%nat.
Fixpoint depths (l : dir) : nat := match l with [] => 0 | (_, c) :: l => depth c `max` depths l end%nat.
Lemma depth_dir l : depth (CDir l) = S (depths l).
Proof. done. Qed.
