(* ===== verification/ContextRep.v ===== *)
(** * What the nodes and ids of a context represent

    A [world] says which content each node and each hash id stands for, which ids
    have a value in the repository, and which are commits.  [inv] says that a state
    agrees with it: cached entries, cached hash ids, the committed flags and the
    serialized entries.  Operations extend the world ([ext]) and never change what
    was there, so representation facts, which mention the world alone, persist.

    [yields] is the judgement the operations are specified with: from a state with
    a world, the run ends in a state with an extended world and an answer that
    satisfies the postcondition, or fails in a state where failing is allowed. *)

From Stdlib Require Import ZArith Lia List Bool Ascii String.
From stdpp Require Import base option list numbers strings gmap sorting.
From S2P Require Import Prelude Spsc Types ContextStore ContextHash OrdMapFacts ContextContent WorkingTree.

Set Warnings "-register-all".

(** ** Worlds *)
Record world : Type := mkWorld {
  nodes : list content;
  nkey : gmap nat HashId;
  nent : gmap nat (list (string * nat));
  hashed : gmap Z EntryHash;
  ids : gmap Z content;
  valued : gset Z;
  commits : gmap Z dir;
  filed : gmap Z HashId;
}.

Record ext (W W' : world) : Prop := mkExt {
  ext_nodes : nodes W `prefix_of` nodes W';
  ext_nkey : nkey W ⊆ nkey W';
  ext_nent : nent W ⊆ nent W';
  ext_hashed : hashed W ⊆ hashed W';
  ext_ids : ids W ⊆ ids W';
  ext_valued : valued W ⊆ valued W';
  ext_commits : commits W ⊆ commits W';
  ext_filed : filed W = filed W';
}.
Infix "⊑w" := ext (at level 70).

#[export] Instance ext_preorder : PreOrder ext.
Proof.
  split.
  - intros W. split; done.
  - intros W1 W2 W3 [] []. split; (by etrans) || congruence.
Qed.

Definition child (W : world) (c : content) (a : loc) : Prop := nodes W !! a = Some c.

Lemma child_mono W W' c a : W ⊑w W' -> child W c a -> child W' c a.
Proof. intros He Hc. unfold child. eapply prefix_lookup_Some; [exact Hc|apply He]. Qed.

Lemma ids_mono W W' id c : W ⊑w W' -> ids W !! id = Some c -> ids W' !! id = Some c.
Proof. intros He Hl. eapply lookup_weaken; [exact Hl|apply He]. Qed.
Lemma hashed_mono W W' id h : W ⊑w W' -> hashed W !! id = Some h -> hashed W' !! id = Some h.
Proof. intros He Hl. eapply lookup_weaken; [exact Hl|apply He]. Qed.
Lemma nkey_mono W W' a id : W ⊑w W' -> nkey W !! a = Some id -> nkey W' !! a = Some id.
Proof. intros He Hl. eapply lookup_weaken; [exact Hl|apply He]. Qed.

Section Rep.
Context `{OrdMapCrate, BincodeCrate, Blake2Crate, Leb128Crate} (pfuel : nat).

(** ** Representation *)
Definition tree_rep (W : world) (l : dir) (t : Tree) : Prop := pairwise (child W) l (om_iter t).

Definition entry_rep (W : world) (c : content) (e : Entry) : Prop :=
  match c, e with
  | CBlob v, EBlob v' => v = v'
  | CDir l, ETree t => tree_rep W l t
  | _, _ => False
  end.

Definition snode_ok (W : world) (c : content) (n : SNode) : Prop :=
  s_kind n = kind_of c /\ ids W !! s_hash n = Some c /\ s_hash n ∈ valued W.

Definition shape (W : world) (c : content) (e : SEntry) : Prop :=
  match c, e with
  | CBlob v, SBlob v' => v = v'
  | CDir l, STree ns => StronglySorted name_lt ns /\ pairwise (snode_ok W) l ns
  | _, _ => False
  end.

Lemma tree_rep_mono W W' l t : W ⊑w W' -> tree_rep W l t -> tree_rep W' l t.
Proof.
  intros He. apply pairwise_impl, Forall_forall. intros kc _ a. by apply child_mono.
Qed.
Lemma entry_rep_mono W W' c e : W ⊑w W' -> entry_rep W c e -> entry_rep W' c e.
Proof. intros He. destruct c, e; try done. by apply tree_rep_mono. Qed.
Lemma shape_mono W W' c e : W ⊑w W' -> shape W c e -> shape W' c e.
Proof.
  intros He. destruct c, e; try done. intros [Hs Hp]. split; [done|]. revert Hp.
  apply pairwise_impl, Forall_forall. intros kc _ n (Hk & Hi & Hv). split; [done|].
  split; [by eapply ids_mono|by apply (ext_valued _ _ He)].
Qed.

Definition children_of (n : Node) : option (list (string * loc)) :=
  match entry n with Some (ETree t) => Some (om_iter t) | _ => None end.

(** [cov] says which ids count as written. *)
Record node_ok (cov : Z -> Prop) (W : world) (a : loc) (c : content) (n : Node) : Prop := mkNodeOk {
  n_kind : node_kind n = kind_of c;
  n_entry e : entry n = Some e -> entry_rep W c e;
  n_key : entry_hash n = nkey W !! a;
  n_ent : children_of n = nent W !! a;
  n_id id : entry_hash n = Some id -> ids W !! id = Some c;
  n_children id xs : entry_hash n = Some id -> children_of n = Some xs ->
    Forall (fun kl => is_Some (nkey W !! kl.2)) xs;
  n_commited : commited n = true -> exists id, entry_hash n = Some id /\ cov id;
  n_loaded : entry n = None -> exists id, entry_hash n = Some id /\ id ∈ valued W;
}.

Definition value_at (r : InMemory) (id : HashId) : option bytes :=
  match values (store r) !! Z.to_nat (id - 1) with Some v => v | None => None end.

Definition free_list (r : InMemory) : list HashId :=
  match free_ids (store r) with Some q => f_items q | None => [] end.

Record repo_ok (W : world) (r : InMemory) : Prop := mkRepoOk {
  r_hash id h : hashed W !! id = Some h ->
    1 <= id /\ hashes (store r) !! Z.to_nat (id - 1) = Some h;
  r_ids id c : ids W !! id = Some c ->
    exists h, content_hash pfuel c = Some h /\ hashed W !! id = Some h;
  r_vals id c : ids W !! id = Some c -> id ∈ valued W ->
    exists bs e, value_at r id = Some bs /\ bincode_deserialize bs = Some e /\ shape W c e;
  r_commits id l : commits W !! id = Some l ->
    ids W !! id = None /\ is_Some (hashed W !! id) /\
    exists bs cm, value_at r id = Some bs /\ bincode_deserialize bs = Some (SCommit cm) /\
      ids W !! root_hash cm = Some (CDir l) /\ root_hash cm ∈ valued W;
  r_valued id : id ∈ valued W -> is_Some (ids W !! id);
  r_free : NoDup (free_list r);
  r_free_id id : id ∈ free_list r -> 1 <= id <= zlen (values (store r)) /\ hashed W !! id = None;
  r_len : zlen (values (store r)) <= zlen (hashes (store r)) <= usize_max;
  r_filed : context_hashes r = filed W;
}.

Record invc (cov : Z -> Prop) (W : world) (s : St) : Prop := mkInv {
  inv_len : length (nodes W) = length (heap s);
  inv_nkey a id : nkey W !! a = Some id -> (a < length (nodes W))%nat;
  inv_nent a xs : nent W !! a = Some xs -> (a < length (nodes W))%nat;
  inv_node a c n : child W c a -> heap s !! a = Some n -> node_ok cov W a c n;
  inv_repo : repo_ok W (repo s);
}.
Definition inv (W : world) (s : St) : Prop := invc (fun id => id ∈ valued W) W s.

Lemma child_node cov W s c a : invc cov W s -> child W c a ->
  exists n, heap s !! a = Some n /\ node_ok cov W a c n.
Proof.
  intros Hi Hc. pose proof (lookup_lt_Some _ _ _ Hc) as Hlt. rewrite (inv_len _ _ _ Hi) in Hlt.
  destruct (heap s !! a) as [n|] eqn:En; [|by apply lookup_ge_None in En; lia].
  exists n. split; [done|]. by eapply inv_node.
Qed.

Lemma node_ok_mono cov W W' a c n : W ⊑w W' -> nkey W' !! a = nkey W !! a ->
  nent W' !! a = nent W !! a -> node_ok cov W a c n -> node_ok cov W' a c n.
Proof.
  intros He Hk Hx [O1 O2 O3 O3' O4 O5 O6 O7]. split; try done.
  - intros e Ee. by eapply entry_rep_mono, O2.
  - congruence.
  - congruence.
  - intros id Ei. by eapply ids_mono, O4.
  - intros id t Ei Et. eapply Forall_impl; [by eapply O5|]. intros kl [i Hi]. exists i. by eapply nkey_mono.
  - intros En. destruct (O7 En) as (id & Ei & Hv). exists id. split; [done|]. by apply (ext_valued _ _ He).
Qed.

(** *** New and changed nodes *)
Definition add_node (c : content) (n : Node) (W : world) : world :=
  let a := length (nodes W) in
  mkWorld (nodes W ++ [c])
    (match entry_hash n with Some id => <[a := id]> (nkey W) | None => nkey W end)
    (match children_of n with Some xs => <[a := xs]> (nent W) | None => nent W end)
    (hashed W) (ids W) (valued W) (commits W) (filed W).
Definition set_key (a : loc) (id : HashId) (W : world) : world :=
  mkWorld (nodes W) (<[a := id]> (nkey W)) (nent W) (hashed W) (ids W) (valued W) (commits W) (filed W).
Definition set_ent (a : loc) (xs : list (string * loc)) (W : world) : world :=
  mkWorld (nodes W) (nkey W) (<[a := xs]> (nent W)) (hashed W) (ids W) (valued W) (commits W) (filed W).

Lemma fresh_key cov W s : invc cov W s ->
  nkey W !! length (nodes W) = None /\ nent W !! length (nodes W) = None.
Proof.
  intros Hi. split.
  - destruct (nkey W !! length (nodes W)) as [id|] eqn:E; [|done]. apply (inv_nkey _ _ _ Hi) in E. lia.
  - destruct (nent W !! length (nodes W)) as [id|] eqn:E; [|done]. apply (inv_nent _ _ _ Hi) in E. lia.
Qed.

Lemma add_node_ext cov W s c n : invc cov W s -> W ⊑w add_node c n W.
Proof.
  intros Hi. destruct (fresh_key _ _ _ Hi) as [Hk Hx]. split; try done; [by eexists|..]; cbn.
  - destruct (entry_hash n); [|done]. by apply insert_subseteq.
  - destruct (children_of n); [|done]. by apply insert_subseteq.
Qed.

Lemma set_ent_ext W a xs : nent W !! a = None -> W ⊑w set_ent a xs W.
Proof. intros Hn. split; try done. by apply insert_subseteq. Qed.
Lemma set_key_ext W a id : nkey W !! a = None -> W ⊑w set_key a id W.
Proof. intros Hn. split; try done. by apply insert_subseteq. Qed.

(** A world that differs in its nodes only fits the same repository. *)
Lemma repo_ok_same W W' r : hashed W' = hashed W -> ids W' = ids W -> valued W' = valued W ->
  commits W' = commits W -> filed W' = filed W -> repo_ok W r -> repo_ok W' r.
Proof.
  destruct W, W'. cbn. intros -> -> -> -> -> []. split; try done.
Qed.

Lemma inv_alloc cov W s c n : invc cov W s ->
  (node_ok cov (add_node c n W) (length (nodes W)) c n) ->
  invc cov (add_node c n W) (set_heap (heap s ++ [n]) s).
Proof.
  intros Hi Hn. pose proof (add_node_ext _ _ _ c n Hi) as He. split.
  - cbn. rewrite !length_app, (inv_len _ _ _ Hi). done.
  - intros a id Hk. cbn in Hk |- *. rewrite length_app. cbn.
    destruct (entry_hash n); [|apply (inv_nkey _ _ _ Hi) in Hk; lia].
    apply lookup_insert_Some in Hk as [[<- _]|[_ Hk]]; [lia|]. apply (inv_nkey _ _ _ Hi) in Hk. lia.
  - intros a xs Hk. cbn in Hk |- *. rewrite length_app. cbn.
    destruct (children_of n); [|apply (inv_nent _ _ _ Hi) in Hk; lia].
    apply lookup_insert_Some in Hk as [[<- _]|[_ Hk]]; [lia|]. apply (inv_nent _ _ _ Hi) in Hk. lia.
  - intros a c' n' Hc Hh. unfold child in Hc. cbn in Hc, Hh.
    apply lookup_app_Some in Hc as [Hc|[Hle Hc]].
    + pose proof (lookup_lt_Some _ _ _ Hc) as Hlt. rewrite lookup_app_l in Hh by (rewrite <- (inv_len _ _ _ Hi); done).
      apply (node_ok_mono _ W); [done| | |by eapply inv_node]; cbn.
      * destruct (entry_hash n); [|done]. apply lookup_insert_ne. lia.
      * destruct (children_of n); [|done]. apply lookup_insert_ne. lia.
    + assert (a = length (nodes W)) as -> by (apply list_lookup_singleton_Some in Hc; lia).
      rewrite (inv_len _ _ _ Hi), lookup_app_r, Nat.sub_diag in Hh by lia. cbn in Hh.
      rewrite Nat.sub_diag in Hc. cbn in Hc. injection Hh as <-. by injection Hc as <-.
  - apply (repo_ok_same W); try done. apply (inv_repo _ _ _ Hi).
Qed.

Lemma inv_update cov cov' W W' s a c n' : invc cov W s -> child W c a -> W ⊑w W' ->
  nodes W' = nodes W -> (forall b, b <> a -> nkey W' !! b = nkey W !! b) ->
  (forall b, b <> a -> nent W' !! b = nent W !! b) -> repo_ok W' (repo s) ->
  (forall id, cov id -> cov' id) -> node_ok cov' W' a c n' ->
  invc cov' W' (set_heap (<[a := n']> (heap s)) s).
Proof.
  intros Hi Hc He Hn Hk Hx Hr Hcov Ho. pose proof (lookup_lt_Some _ _ _ Hc) as Hlt. split.
  - cbn. rewrite Hn, length_insert. by eapply inv_len.
  - intros b id Hb. rewrite Hn. destruct (decide (b = a)) as [->|Hne]; [done|].
    rewrite (Hk b Hne) in Hb. by eapply inv_nkey.
  - intros b xs Hb. rewrite Hn. destruct (decide (b = a)) as [->|Hne]; [done|].
    rewrite (Hx b Hne) in Hb. by eapply inv_nent.
  - intros b c' n Hb Hh. cbn in Hh. unfold child in Hb. rewrite Hn in Hb.
    destruct (decide (b = a)) as [->|Hne].
    + rewrite list_lookup_insert_eq in Hh by (rewrite <- (inv_len _ _ _ Hi); done). injection Hh as <-.
      unfold child in Hc. rewrite Hc in Hb. by injection Hb as <-.
    + rewrite list_lookup_insert_ne in Hh by done. pose proof (inv_node _ _ _ Hi b c' n Hb Hh) as Hok.
      apply (node_ok_mono _ W); [done|by apply Hk|by apply Hx|]. destruct Hok as [O1 O2 O3 O3' O4 O5 O6 O7]. split; try done.
      intros Ec. destruct (O6 Ec) as (id & Ei & Hcv). eauto.
  - done.
Qed.
End Rep.
