(* ===== verification/ContextEdit.v ===== *)
(** * Reading and changing working trees

    The judgement [yields] with its rules, and the specifications of the lookups
    and of the rebuilding of a path: they answer what [raw] and [rebuild] say of
    the content the tree represents, whatever is cached and whatever has to be
    loaded, and never fail. *)

From Stdlib Require Import ZArith Lia List Bool Ascii String.
From stdpp Require Import base option list numbers strings gmap sorting.
From S2P Require Import Prelude Spsc Types ContextStore ContextHash OrdMapFacts ContextContent WorkingTree ContextRep.

Set Warnings "-register-all".

Lemma sl_insert_last {V} k (v : V) l : Forall (fun kv => String.compare kv.1 k = Lt) l ->
  sl_insert k v l = l ++ [(k, v)].
Proof.
  induction 1 as [|[k' v'] l Hk _ IH]; [done|]. cbn in Hk |- *.
  rewrite String.compare_antisym, Hk. cbn. by rewrite IH.
Qed.

Lemma pairwise_app {C X} (P : C -> X -> Prop) l : forall xs l' xs', pairwise P l xs -> pairwise P l' xs' ->
  pairwise P (l ++ l') (xs ++ xs').
Proof.
  induction l as [|[k c] l IH]; intros [|[k1 x1] xs] l' xs'; cbn; try done.
  intros (-> & Hc & Hl) Hl'. auto.
Qed.

(** ** The judgement *)
Section Yields.
Context `{OrdMapCrate, BincodeCrate, Blake2Crate, Leb128Crate} (pfuel : nat).
Abbreviation inv := (inv pfuel).

Definition yields (Q : St -> Prop) {E A} (m : M E A) (W : world) (s : St) (P : world -> A -> Prop) : Prop :=
  exists W', W ⊑w W' /\ inv W' (m s).2 /\
    match (m s).1 with Ok a => P W' a | Err _ => Q (m s).2 end.

Definition never (s : St) : Prop := False.

Context (Q : St -> Prop).

Lemma yields_ret {E A} (a : A) W s P : inv W s -> P W a -> yields Q (mret a : M E A) W s P.
Proof. intros Hi HP. by exists W. Qed.

Lemma yields_bind {E A B} (m : M E A) (f : A -> M E B) W s P P' :
  yields Q m W s P' ->
  (forall W1 a s1, W ⊑w W1 -> P' W1 a -> inv W1 s1 -> yields Q (f a) W1 s1 P) ->
  yields Q (m ≫= f) W s P.
Proof.
  intros (W1 & He & Hi & Hm) Hf. unfold yields, mbind, M_bind.
  destruct (m s) as [[a|e] s1]; cbn in *; [|by exists W1].
  destruct (Hf W1 a s1 He Hm Hi) as (W2 & He2 & H'). exists W2. split; [by etrans|done].
Qed.

Lemma yields_mono {E A} (m : M E A) W s (P P' : world -> A -> Prop) :
  yields Q m W s P -> (forall W1 a, W ⊑w W1 -> P W1 a -> P' W1 a) -> yields Q m W s P'.
Proof.
  intros (W1 & He & Hi & Hm) Hp. exists W1. split; [done|]. split; [done|].
  destruct (m s).1; auto.
Qed.

Lemma yields_mapE {E F A} (f : E -> F) (m : M E A) W s P : yields Q m W s P -> yields Q (mapE f m) W s P.
Proof.
  intros (W1 & He & Hi & Hm). exists W1. unfold mapE. by destruct (m s) as [[a|e] s1].
Qed.

Lemma yields_lift {E A} (a : A) W s P : inv W s -> P W a -> yields Q (lift (Ok a) : M E A) W s P.
Proof. intros Hi HP. by exists W. Qed.

Lemma yields_lift_bind {E A B} (a : A) (f : A -> M E B) W s P :
  yields Q (f a) W s P -> yields Q (lift (Ok a) ≫= f) W s P.
Proof. done. Qed.

Lemma yields_get_node {E B} (d : E) c a (f : Node -> M E B) W s P : inv W s -> child W c a ->
  (forall n, heap s !! a = Some n -> node_ok (fun id => id ∈ valued W) W a c n -> yields Q (f n) W s P) ->
  yields Q (get_node d a ≫= f) W s P.
Proof.
  intros Hi Hc Hf. destruct (child_node _ _ _ _ _ _ Hi Hc) as (n & Hn & Ho).
  destruct (Hf n Hn Ho) as (W' & He & Hr). exists W'. split; [done|].
  unfold mbind, M_bind, get_node. by rewrite Hn.
Qed.

(** What a run that cannot fail does. *)
Lemma yields_run {E A} (m : M E A) W s P : yields never m W s P ->
  exists W' a s', m s = (Ok a, s') /\ W ⊑w W' /\ inv W' s' /\ P W' a.
Proof.
  intros (W' & He & Hi & Hm). destruct (m s) as [[a|e] s']; [|done]. by exists W', a, s'.
Qed.

Lemma yields_weaken {E A} (m : M E A) W s P : yields never m W s P -> yields Q m W s P.
Proof.
  intros (W' & He & Hi & Hm). exists W'. split; [done|]. split; [done|]. by destruct (m s).1.
Qed.
End Yields.

(** ** Lookups *)
Section Lookups.
Context `{OrdMapCrate, BincodeCrate, Blake2Crate, Leb128Crate} (pfuel : nat).
Abbreviation inv := (inv pfuel).
Abbreviation succeeds m W s P := (yields pfuel never m W s P).

Lemma alloc_yields {E} W s c n : inv W s ->
  node_ok (fun id => id ∈ valued W) (add_node c n W) (length (nodes W)) c n ->
  succeeds (alloc n : M E loc) W s (fun W' a => child W' c a /\
    (forall id, entry_hash n = Some id -> nkey W' !! a = Some id) /\ (children_of n = None -> nent W' = nent W)).
Proof.
  intros Hi Ho. exists (add_node c n W). split; [by eapply add_node_ext|]. split.
  - by apply inv_alloc.
  - unfold child. cbn. rewrite <- (inv_len _ _ _ _ Hi). split; [by rewrite list_lookup_middle|].
    split; [intros id ->; by rewrite lookup_insert_eq|by intros ->].
Qed.

(** The nodes of a tree have hash ids. *)
Definition keyed (W : world) (e : Entry) : Prop :=
  match e with ETree t => Forall (fun kl => is_Some (nkey W !! kl.2)) (om_iter t) | _ => True end.

Lemma keyed_mono W W' e : W ⊑w W' -> keyed W e -> keyed W' e.
Proof.
  intros He. destruct e; try done. intros Hk. eapply Forall_impl; [exact Hk|]. intros kl [i Hi].
  exists i. by eapply nkey_mono.
Qed.

(** A node that was just loaded: hashed, written and without its entry. *)
Lemma loaded_ok W s c n : inv W s -> snode_ok W c n ->
  let n := mkNode (s_kind n) true (Some (s_hash n)) None in
  node_ok (fun id => id ∈ valued W) (add_node c n W) (length (nodes W)) c n.
Proof.
  intros Hi (Hk & Hd & Hv). split; cbn; try done.
  - by rewrite lookup_insert_eq.
  - symmetry. by apply (fresh_key _ _ _ _ Hi).
  - by intros id [= <-].
  - eauto.
  - eauto.
Qed.

Lemma load_tree_yields {E} W s ns : forall l t l0, inv W s -> StronglySorted name_lt ns ->
  pairwise (snode_ok W) l ns -> tree_rep W l0 t -> keyed W (ETree t) ->
  Forall (fun kv => Forall (fun kn => String.compare kv.1 kn.1 = Lt) ns) (om_iter t) ->
  succeeds (load_tree ns t : M E Tree) W s (fun W' t' => tree_rep W' (l0 ++ l) t' /\ keyed W' (ETree t') /\ nent W' = nent W).
Proof.
  revert W s. induction ns as [|[k n] ns IH]; intros W s [|[k1 c] l] t l0 Hi Hs Hp Ht Hy Hb; try done.
  { apply yields_ret; [done|]. by rewrite app_nil_r. }
  destruct Hp as (-> & Hc & Hp). cbn [load_tree]. apply sorted_cons_inv in Hs as [Hs Hk].
  eapply yields_bind; [apply alloc_yields; [done|by eapply loaded_ok]|].
  intros W1 a s1 He (Ha & Hka & Hx) Hi1. rewrite <- Hx by done. replace (l0 ++ (k, c) :: l) with ((l0 ++ [(k, c)]) ++ l)
    by (by rewrite <- app_assoc).
  assert (om_iter (om_insert k a t) = om_iter t ++ [(k, a)]) as Eit.
  { rewrite iter_insert. apply sl_insert_last. eapply Forall_impl; [exact Hb|].
    intros kv Hkv. by apply Forall_cons in Hkv as [? _]. }
  apply IH; [done|done| | | |].
  - eapply pairwise_impl; [|exact Hp]. apply Forall_forall. intros kc _ m (O1 & O2 & O3).
    split; [done|]. split; [by eapply ids_mono|by apply (ext_valued _ _ He)].
  - unfold tree_rep. rewrite Eit. by apply pairwise_app; [eapply tree_rep_mono|].
  - cbn. rewrite Eit. apply Forall_app. split; [by apply (keyed_mono _ _ (ETree t) He)|].
    apply Forall_singleton. eauto.
  - rewrite Eit. apply Forall_app. split; [|by apply Forall_singleton].
    eapply Forall_impl; [exact Hb|]. intros kv Hkv. by apply Forall_cons in Hkv as [_ ?].
Qed.

Lemma load_entry_yields {E} W s c e : inv W s -> shape W c e ->
  succeeds (load_entry e : M E Entry) W s (fun W' e' => entry_rep W' c e' /\ keyed W' e' /\ nent W' = nent W).
Proof.
  intros Hi Hs. destruct c as [v|l], e as [ns|v'|]; try done; cbn in Hs.
  - apply yields_ret; [done|]. by subst.
  - destruct Hs as [Hs Hp]. cbn. eapply yields_bind.
    + apply (load_tree_yields W s ns l om_new []); try done; try by unfold tree_rep; cbn; rewrite iter_new.
    + intros W1 t s1 He Ht Hi1. by apply yields_ret.
Qed.

Lemma entries_get {V} id (l : list V) : 1 <= id -> Entries.get id l = Ok (l !! Z.to_nat (id - 1)).
Proof.
  intros Hid. unfold Entries.get, hash_id_index, checked_sub.
  by rewrite (proj2 (Z.leb_le 1 id)) by lia.
Qed.

Lemma get_value_at (r : InMemory) id : 1 <= id -> Mem.get_value id r = Ok (value_at r id).
Proof. intros Hid. unfold Mem.get_value, Hvs.get_value. by rewrite entries_get. Qed.

Lemma id_positive W s id c : inv W s -> ids W !! id = Some c -> 1 <= id.
Proof.
  intros Hi Hd. pose proof (inv_repo _ _ _ _ Hi) as Hr. destruct (r_ids _ _ _ Hr _ _ Hd) as (h & _ & Hh).
  by destruct (r_hash _ _ _ Hr _ _ Hh).
Qed.

Lemma find_entry_yields W s id c : inv W s -> ids W !! id = Some c -> id ∈ valued W ->
  succeeds (find_entry id) W s (fun W' e => exists e', e = Some e' /\ entry_rep W' c e' /\ keyed W' e' /\ nent W' = nent W).
Proof.
  intros Hi Hd Hv. destruct (r_vals _ _ _ (inv_repo _ _ _ _ Hi) _ _ Hd Hv) as (bs & e & Hb & He & Hs).
  unfold find_entry. eapply (yields_bind _ _ _ _ _ _ _ (fun W' o => W' = W /\ o = Some bs)).
  { exists W. unfold find_entry_bytes. rewrite get_value_at by (by eapply id_positive). cbn. by rewrite Hb. }
  intros W1 o s1 _ [-> ->] Hi1. rewrite He. cbn [ok_or].
  apply yields_lift_bind.
  eapply yields_bind; [by eapply load_entry_yields|]. intros W2 e2 s3 He2 (Hr & Hk & Hx) Hi3. apply yields_ret; [done|]. eauto.
Qed.

Lemma get_entry_yields W s id c : inv W s -> ids W !! id = Some c -> id ∈ valued W ->
  succeeds (get_entry id) W s (fun W' e => entry_rep W' c e /\ keyed W' e /\ nent W' = nent W).
Proof.
  intros Hi Hd Hv. unfold get_entry. eapply yields_bind; [by apply yields_mapE, find_entry_yields|].
  intros W1 o s1 He (e & -> & Hr & Hk & Hx) Hi1. by apply yields_lift.
Qed.

(** Keeping a loaded entry changes nothing of the world. *)
Lemma load_node_yields W s a c n : inv W s -> child W c a -> heap s !! a = Some n -> entry n = None ->
  succeeds (load_node a n) W s (fun W' e => entry_rep W' c e).
Proof.
  intros Hi Hc Hn En. pose proof (inv_node _ _ _ _ Hi a c n Hc Hn) as Ho.
  destruct (n_loaded _ _ _ _ _ Ho En) as (id & Ei & Hv). unfold load_node, get_hash_id. rewrite Ei.
  apply yields_lift_bind.
  eapply yields_bind; [apply (get_entry_yields _ _ _ _ Hi (n_id _ _ _ _ _ Ho _ Ei) Hv)|].
  intros W1 e s2 He1 (Hr & Hkeys & Hx) Hi2. pose proof (child_mono _ _ _ _ He1 Hc) as Hc1.
  assert (nent W1 !! a = None) as Hna.
  { rewrite Hx, <- (n_ent _ _ _ _ _ Ho). unfold children_of. by rewrite En. }
  eapply yields_get_node; [done..|]. intros n2 Hn2 [O1 O2 O3 O3' O4 O5 O6 O7].
  pose (W2 := match e with ETree t => set_ent a (om_iter t) W1 | _ => W1 end).
  assert (W1 ⊑w W2) as He2 by (destruct e; [by apply set_ent_ext|done..]).
  assert (nodes W2 = nodes W1 /\ nkey W2 = nkey W1 /\ valued W2 = valued W1 /\ ids W2 = ids W1)
    as (En2 & Ek2 & Ev2 & Ei2) by (by destruct e).
  exists W2. split; [done|]. split; [|by apply (entry_rep_mono W1)]. cbn. unfold ContextRep.inv. rewrite Ev2.
  eapply inv_update; try done.
  - intros b Hb. by rewrite Ek2.
  - intros b Hb. destruct e; try done. by apply lookup_insert_ne.
  - apply (repo_ok_same _ W1); [by destruct e..|by eapply inv_repo].
  - split; cbn; rewrite ?Ek2, ?Ev2, ?Ei2; try done.
    + intros e' [= <-]. by apply (entry_rep_mono W1).
    + unfold children_of. cbn. destruct e; cbn; [by rewrite lookup_insert_eq|done..].
    + intros id' xs Hid. unfold children_of. cbn. destruct e; [|done..]. by intros [= <-].
Qed.

Lemma node_entry_yields W s a c : inv W s -> child W c a ->
  succeeds (node_entry a) W s (fun W' e => entry_rep W' c e).
Proof.
  intros Hi Hc. unfold node_entry. eapply yields_get_node; [done..|]. intros n Hn Ho.
  destruct (entry n) as [e|] eqn:Ee; [|by eapply load_node_yields].
  apply yields_ret; [done|]. by apply (n_entry _ _ _ _ _ Ho).
Qed.

Lemma tree_rep_get W l t k : tree_rep W l t ->
  match hm_get k l, om_get k t with
  | Some c, Some a => child W c a
  | None, None => True
  | _, _ => False
  end.
Proof. intros Ht. rewrite <- iter_get. by apply pairwise_get. Qed.

Lemma tree_rep_new W : tree_rep W [] om_new.
Proof. unfold tree_rep. by rewrite iter_new. Qed.

Lemma find_raw_tree_yields W s l t key : inv W s -> tree_rep W l t ->
  succeeds (find_raw_tree t key) W s (fun W' t' => tree_rep W' (raw l key) t').
Proof.
  revert W s l t. induction key as [|k key IH]; intros W s l t Hi Ht; [by apply yields_ret|].
  cbn [find_raw_tree raw]. pose proof (tree_rep_get W l t k Ht) as Hg.
  destruct (hm_get k l) as [c|], (om_get k t) as [a|]; try done;
    [|apply yields_ret; [done|apply tree_rep_new]].
  assert (forall W1 s1 e, inv W1 s1 -> entry_rep W1 c e ->
    succeeds (match e with ETree tree => find_raw_tree tree key | EBlob _ => mret om_new
              | ECommit _ => throw (FoundUnexpectedStructure "Tree/Blob" "commit") end) W1 s1
      (fun W' t' => tree_rep W' match c with CDir l' => raw l' key | CBlob _ => [] end t')) as Hgo.
  { intros W1 s1 e Hi1 He. destruct c, e; try done; [|by apply IH].
    apply yields_ret; [done|apply tree_rep_new]. }
  eapply yields_get_node; [done..|]. intros n Hn Ho. destruct (entry n) as [e|] eqn:Ee.
  - pose proof (Hgo W s e Hi (n_entry _ _ _ _ _ Ho e Ee)) as Hy. by destruct c, e.
  - eapply yields_bind; [by eapply load_node_yields|]. intros W1 e s1 He1 Hr Hi1.
    pose proof (Hgo W1 s1 e Hi1 Hr) as Hy. by destruct c, e.
Qed.
End Lookups.

(** ** Changes *)
Section Changes.
Context `{OrdMapCrate, BincodeCrate, Blake2Crate, Leb128Crate} (pfuel : nat).
Abbreviation inv := (inv pfuel).
Abbreviation succeeds m W s P := (yields pfuel never m W s P).

(** A new node, not hashed and not written. *)
Definition fresh_rep (W : world) (c : content) (n : Node) : Prop :=
  node_kind n = kind_of c /\ commited n = false /\ entry_hash n = None /\
  exists e, entry n = Some e /\ entry_rep W c e.

Definition change_rep (W : world) (x : option content) (n : option Node) : Prop :=
  match x, n with Some c, Some n => fresh_rep W c n | None, None => True | _, _ => False end.

Lemma fresh_mono W W' x n : W ⊑w W' -> change_rep W x n -> change_rep W' x n.
Proof.
  intros He. destruct x, n; try done. intros (Hk & Hc & Hh & e & Ee & Hr). repeat split; try done.
  exists e. split; [done|]. by eapply entry_rep_mono.
Qed.

Lemma get_str_yields {E} W s k : inv W s -> succeeds (get_str k : M E string) W s (fun W' k' => k' = k).
Proof.
  intros Hi. exists W. split; [done|]. unfold get_str, mbind, M_bind.
  destruct (30 <=? _); cbn; [done|]. split; [|done]. by destruct Hi; split.
Qed.

Lemma fresh_alloc {E} W s c n : inv W s -> fresh_rep W c n ->
  succeeds (alloc n : M E loc) W s (fun W' a => child W' c a).
Proof.
  intros Hi (Hk & Hc & Hh & e & Ee & Hr). eapply yields_mono; [apply alloc_yields; [done|]|by intros ? ? ? [? _]].
  pose proof (add_node_ext _ _ _ _ c n Hi) as He. split; try done; try congruence.
  - intros e' Ee'. rewrite Ee in Ee'. injection Ee' as <-. by eapply entry_rep_mono.
  - rewrite Hh. cbn. rewrite Hh. symmetry. by eapply fresh_key.
  - cbn. destruct (children_of n); [by rewrite lookup_insert_eq|]. symmetry. by eapply fresh_key.
Qed.

Lemma tree_rep_insert W l t k c a : tree_rep W l t -> child W c a ->
  tree_rep W (sl_insert k c l) (om_insert k a t).
Proof. intros Ht Hc. unfold tree_rep. rewrite iter_insert. by apply pairwise_insert. Qed.
Lemma tree_rep_remove W l t k : tree_rep W l t -> tree_rep W (sl_remove k l) (om_remove k t).
Proof.
  intros Ht. unfold tree_rep. rewrite iter_remove. by apply pairwise_filter.
Qed.

Lemma tree_rep_empty W l t : tree_rep W l t ->
  WT.is_empty_tree t = match l with [] => true | _ => false end.
Proof.
  unfold tree_rep, WT.is_empty_tree. destruct l as [|[k c] l], (om_iter t) as [|[k' a] xs]; done.
Qed.

Lemma compute_new_root_yields rkey : forall W s l t x n, inv W s -> tree_rep W l t -> change_rep W x n ->
  succeeds (WT.compute_new_root t rkey n) W s
    (fun W' e => entry_rep W' (default (CDir []) (rebuild l rkey x)) e).
Proof.
  induction rkey as [|last rpath IH]; intros W s l t x n Hi Ht Hx; cbn [WT.compute_new_root rebuild].
  { destruct x as [c|], n as [n|]; try done; [|apply yields_ret; [done|apply tree_rep_new]].
    destruct Hx as (_ & _ & _ & e & -> & He). by apply yields_lift. }
  eapply yields_bind; [by apply find_raw_tree_yields|]. intros W1 d s1 He1 Hd Hi1.
  eapply (yields_bind _ _ _ _ _ _ _ (fun W' d' => tree_rep W' (change last x (raw l (rev rpath))) d')).
  { apply (fresh_mono _ _ _ _ He1) in Hx. destruct x as [c|], n as [n|]; try done.
    - eapply yields_bind; [by apply get_str_yields|]. intros W2 k s2 He2 -> Hi2.
      apply (fresh_mono _ _ (Some c) (Some n) He2) in Hx.
      eapply yields_bind; [by apply fresh_alloc|]. intros W3 a s3 He3 Ha Hi3.
      apply yields_ret; [done|]. apply tree_rep_insert; [|done].
      eapply tree_rep_mono; [|exact Hd]. by etrans.
    - apply yields_ret; [done|]. by apply tree_rep_remove. }
  intros W2 d' s2 He2 Hd' Hi2. pose proof (tree_rep_mono _ _ _ _ He1 Ht) as Ht1.
  pose proof (tree_rep_mono _ _ _ _ He2 Ht1) as Ht2.
  rewrite (tree_rep_empty _ _ _ Hd'). destruct (change last x (raw l (rev rpath))) as [|kc d0] eqn:Ed.
  - by apply IH.
  - apply IH; [done|done|]. repeat split. by exists (ETree d').
Qed.

(** ** Operations of a working tree *)
Definition wt_rep (W : world) (l : dir) (w : WorkingTree) : Prop :=
  tree_rep W l (WT.get_working_tree_root_ref w).

(** What the result of a change of the root is: a value at the root is refused. *)
Definition root_answer (c : content) : result MerkleError dir :=
  match c with CDir l => Ok l | CBlob _ => Err (FoundUnexpectedStructure "tree" "blob") end.

(** A run answers what a specification says. *)
Definition answers {E A B} (m : M E A) (W : world) (s : St) (P : world -> B -> A -> Prop)
  (r : result E B) : Prop :=
  exists W', W ⊑w W' /\ inv W' (m s).2 /\
    match r, (m s).1 with
    | Ok b, Ok a => P W' b a
    | Err e, Err e' => e = e'
    | _, _ => False
    end.

Lemma answers_bind {E A B A' B'} (m : M E A) (f : A -> M E A') W s P r (g : B -> result E B') P' :
  answers m W s P r ->
  (forall W1 a b s1, W ⊑w W1 -> P W1 b a -> inv W1 s1 -> answers (f a) W1 s1 P' (g b)) ->
  answers (m ≫= f) W s P' (r ≫= g).
Proof.
  intros (W1 & He & Hi & Hm) Hf. unfold answers, mbind, M_bind.
  destruct (m s) as [[a|e] s1], r as [b|e']; cbn in *; try done; [|by exists W1].
  destruct (Hf W1 a b s1 He Hm Hi) as (W2 & He2 & H'). exists W2. split; [by etrans|done].
Qed.

Lemma yields_answers {E A} (m : M E A) W s P : succeeds m W s P ->
  answers m W s (fun W' (_ : unit) a => P W' a) (Ok tt).
Proof. intros (W' & He & Hi & Hm). exists W'. split; [done|]. split; [done|]. by destruct (m s).1. Qed.

Lemma answers_after {E A A' B'} (m : M E A) (f : A -> M E A') W s P (r : result E B') P' :
  succeeds m W s P ->
  (forall W1 a s1, W ⊑w W1 -> P W1 a -> inv W1 s1 -> answers (f a) W1 s1 P' r) ->
  answers (m ≫= f) W s P' r.
Proof.
  intros (W1 & He & Hi & Hm) Hf. unfold answers, mbind, M_bind.
  destruct (m s) as [[a|e] s1]; cbn in *; [|done].
  destruct (Hf W1 a s1 He Hm Hi) as (W2 & He2 & H'). exists W2. split; [by etrans|done].
Qed.

Lemma answers_lift {E A B} (a : result E A) W s (P : world -> B -> A -> Prop) r : inv W s ->
  match r, a with Ok b, Ok a => P W b a | Err e, Err e' => e = e' | _, _ => False end ->
  answers (lift a : M E A) W s P r.
Proof. intros Hi HP. by exists W. Qed.

Lemma with_new_root_answers W s c e : inv W s -> entry_rep W c e ->
  answers (WT.with_new_root e) W s wt_rep (root_answer c).
Proof. intros Hi He. exists W. by destruct c, e. Qed.

(** *** What the operations mean *)
Definition set_at (l : dir) (key : ContextKey) (c : content) : content :=
  match key with [] => c | k :: key => CDir (put l k key c) end.
Definition delete_at (l : dir) (key : ContextKey) : dir :=
  match key with [] => l | k :: key => del l k key end.
Definition look (l : dir) (path : ContextKey) (file : string) : option content := hm_get file (raw l path).

Lemma rebuild_set l key c : default (CDir []) (rebuild l (rev key) (Some c)) = set_at l key c.
Proof. destruct key as [|k key]; [done|]. by rewrite rebuild_put. Qed.
Lemma rebuild_delete l k key : default (CDir []) (rebuild l (rev (k :: key)) None) = CDir (del l k key).
Proof. rewrite rebuild_del. by destruct (del l k key). Qed.

Lemma set_node_answers W s l w key c n : inv W s -> wt_rep W l w -> fresh_rep W c n ->
  answers (e ← WT.compute_new_root_with_change key (Some n) w; WT.with_new_root e) W s wt_rep
    (root_answer (set_at l key c)).
Proof.
  intros Hi Hw Hn. eapply answers_after; [by apply (compute_new_root_yields _ _ _ l _ (Some c))|].
  intros W1 e s1 He Hr Hi1. rewrite rebuild_set in Hr. by apply with_new_root_answers.
Qed.

Lemma add_answers W s l w key v : inv W s -> wt_rep W l w ->
  answers (WT.add key v w) W s wt_rep (root_answer (set_at l key (CBlob v))).
Proof. intros Hi Hw. apply set_node_answers; try done. repeat split. by exists (EBlob v). Qed.

Definition wt_content (W : world) (c : content) (w : WorkingTree) : Prop :=
  match c, w with
  | CDir l, WTree t => tree_rep W l t
  | CBlob v, WValue v' => v = v'
  | _, _ => False
  end.

Lemma add_tree_answers W s l w key c tree : inv W s -> wt_rep W l w -> wt_content W c tree ->
  answers (WT.add_tree key tree w) W s wt_rep (root_answer (set_at l key c)).
Proof.
  intros Hi Hw Hc. unfold WT.add_tree. apply set_node_answers; try done.
  destruct tree as [t|v], c as [v'|l']; try done; repeat split; eexists; by (split; [done|]).
Qed.

Lemma delete_answers W s l w key : inv W s -> wt_rep W l w ->
  answers (WT.delete key w) W s wt_rep (Ok (delete_at l key)).
Proof.
  intros Hi Hw. destruct key as [|k key]; [by exists W|]. unfold WT.delete.
  eapply answers_after; [by apply (compute_new_root_yields _ _ _ l _ None)|].
  intros W1 e s1 He Hr Hi1. rewrite rebuild_delete in Hr.
  exact (with_new_root_answers W1 s1 (CDir (del l k key)) e Hi1 Hr).
Qed.

Definition same {A} (W : world) (b a : A) : Prop := a = b.

Lemma yields_answer {E A B} (m : M E A) W s (P : world -> B -> A -> Prop) b :
  succeeds m W s (fun W' a => P W' b a) -> answers m W s P (Ok b).
Proof. intros (W' & He & Hi & Hm). exists W'. split; [done|]. split; [done|]. by destruct (m s).1. Qed.

Definition find_spec (l : dir) (key : ContextKey) : result MerkleError (option ContextValue) :=
  match split_last key with
  | None => Err KeyEmpty
  | Some (file, path) =>
      match look l path file with
      | None => Ok None
      | Some (CBlob v) => Ok (Some v)
      | Some (CDir _) => Err (ValueIsNotABlob key)
      end
  end.

(** The value, or the error the lookup makes of its absence. *)
Definition get_spec (l : dir) (key : ContextKey) : result MerkleError ContextValue :=
  match find_spec l key with
  | Ok (Some v) => Ok v
  | Ok None => Err (ValueNotFound key)
  | Err e => Err e
  end.

Lemma get_from_tree_answers W s l t key : inv W s -> tree_rep W l t ->
  answers (get_from_tree t key) W s same (get_spec l key).
Proof.
  intros Hi Ht. unfold get_from_tree, get_spec, find_spec, look.
  destruct (split_last key) as [[file path]|]; cbn [ok_or]; [|by exists W].
  eapply (answers_after (lift (Ok (file, path)))).
  { by apply (yields_lift _ _ (file, path) _ _ (fun W' p => p = (file, path))). }
  intros W0 p s0 He0 -> Hi0. apply (tree_rep_mono _ _ _ _ He0) in Ht.
  eapply answers_after; [by apply find_raw_tree_yields|]. intros W1 d s1 He1 Hd Hi1.
  pose proof (tree_rep_get _ _ _ file Hd) as Hg.
  destruct (hm_get file (raw l path)) as [c|], (om_get file d) as [a|]; try done; [|by exists W1].
  eapply (answers_after (lift (Ok a))); [by apply (yields_lift _ _ a _ _ (fun W' b => b = a))|].
  intros W2 b s2 He2 -> Hi2. apply (child_mono _ _ _ _ He2) in Hg.
  eapply answers_after; [by apply node_entry_yields|]. intros W3 e s3 He3 Hr Hi3.
  destruct c, e; try done; exists W3; try done.
Qed.

Lemma find_answers W s l w key : inv W s -> wt_rep W l w ->
  answers (WT.find key w) W s same (find_spec l key).
Proof.
  intros Hi Hw. destruct (get_from_tree_answers W s l _ key Hi Hw) as (W' & He & Hi' & Hm).
  exists W'. split; [done|]. unfold WT.find. unfold get_spec in Hm.
  destruct (get_from_tree _ key s) as [[v|e] s'] eqn:Eg; cbn in Hi', Hm.
  - cbn. split; [done|]. destruct (find_spec l key) as [[v'|]|]; try done. by rewrite Hm.
  - destruct (find_spec l key) as [[v'|]|e'] eqn:Ef; try done; subst e; [done|].
    unfold find_spec in Ef. destruct (split_last key) as [[file path]|]; [|by injection Ef as <-].
    destruct (look l path file) as [[]|]; try done. by injection Ef as <-.
Qed.

Definition mem_spec (l : dir) (key : ContextKey) : result MerkleError bool :=
  match split_last key with
  | None => Err KeyEmpty
  | Some (file, path) => Ok (match look l path file with Some _ => true | None => false end)
  end.

Lemma mem_answers W s l w key : inv W s -> wt_rep W l w ->
  answers (WT.mem key w) W s same (mem_spec l key).
Proof.
  intros Hi Hw. unfold WT.mem, mem_spec, look. destruct (split_last key) as [[file path]|]; [|by exists W].
  destruct (yields_run _ _ _ _ _ (find_raw_tree_yields _ W s l _ path Hi Hw)) as (W' & d & s' & Er & He & Hi' & Hd).
  exists W'. rewrite Er. split; [done|]. split; [done|]. cbn.
  pose proof (tree_rep_get _ _ _ file Hd) as Hg. by destruct (hm_get file _), (om_get file d).
Qed.

Definition mem_tree_spec (l : dir) (key : ContextKey) : bool :=
  match raw l key with [] => false | _ => true end.

Lemma mem_tree_answers W s l w key : inv W s -> wt_rep W l w ->
  answers (WT.mem_tree key w) W s same (Ok (mem_tree_spec l key)).
Proof.
  intros Hi Hw. unfold WT.mem_tree, mem_tree_spec.
  destruct (yields_run _ _ _ _ _ (find_raw_tree_yields _ W s l _ key Hi Hw)) as (W' & d & s' & Er & He & Hi' & Hd).
  exists W'. rewrite Er. split; [done|]. split; [done|]. cbn.
  rewrite (tree_rep_empty _ _ _ Hd). by destruct (raw l key).
Qed.

Definition find_tree_spec (l : dir) (key : ContextKey) : option dir :=
  match raw l key with [] => None | d => Some d end.

Definition opt_rep {A B} (P : world -> A -> B -> Prop) (W : world) (x : option A) (y : option B) : Prop :=
  match x, y with Some a, Some b => P W a b | None, None => True | _, _ => False end.

Lemma find_tree_answers W s l w key : inv W s -> wt_rep W l w ->
  answers (WT.find_tree key w) W s (opt_rep (fun W d => wt_content W (CDir d))) (Ok (find_tree_spec l key)).
Proof.
  intros Hi Hw. apply yields_answer. unfold WT.find_tree, find_tree_spec.
  eapply yields_bind; [by apply find_raw_tree_yields|]. intros W1 d s1 He Hd Hi1.
  apply yields_ret; [done|]. rewrite (tree_rep_empty _ _ _ Hd). by destruct (raw l key).
Qed.

Definition copy_spec (l : dir) (from_key to_key : ContextKey) : result MerkleError dir :=
  root_answer (set_at l to_key (CDir (raw l from_key))).

Lemma copy_answers W s l w from_key to_key : inv W s -> wt_rep W l w ->
  answers (WT.copy from_key to_key w) W s (fun W d o => exists w', o = Some w' /\ wt_rep W d w')
    (copy_spec l from_key to_key).
Proof.
  intros Hi Hw. unfold WT.copy, copy_spec.
  destruct (yields_run _ _ _ _ _ (find_raw_tree_yields _ W s l _ from_key Hi Hw))
    as (W1 & d & s1 & Er & He & Hi1 & Hd).
  apply (tree_rep_mono _ _ _ _ He) in Hw. assert (fresh_rep W1 (CDir (raw l from_key)) (WT.get_non_leaf (ETree d))) as Hf
    by (repeat split; by exists (ETree d)).
  destruct (set_node_answers _ _ _ _ to_key _ _ Hi1 Hw Hf) as (W2 & He2 & Hi2 & Hm).
  exists W2. rewrite Er. split; [by etrans|]. unfold mbind, M_bind in *.
  destruct (WT.compute_new_root_with_change to_key _ w s1) as [[e|e] s2]; [|done].
  destruct (WT.with_new_root e s2) as [[w'|e'] s3]; [|done]. cbn in *. split; [done|].
  destruct (root_answer _); [|done]. eauto.
Qed.

(** *** Listing *)
Lemma pairwise_take {C X} (P : C -> X -> Prop) n : forall l xs, pairwise P l xs -> pairwise P (take n l) (take n xs).
Proof.
  induction n as [|n IH]; intros [|[k c] l] [|[k' x] xs]; try done. cbn. intros (-> & Hc & Hl). auto.
Qed.
Lemma pairwise_drop {C X} (P : C -> X -> Prop) n : forall l xs, pairwise P l xs -> pairwise P (drop n l) (drop n xs).
Proof.
  induction n as [|n IH]; intros [|[k c] l] [|[k' x] xs]; try done. cbn. intros (-> & Hc & Hl). auto.
Qed.

Lemma wt_content_mono W W' c w : W ⊑w W' -> wt_content W c w -> wt_content W' c w.
Proof. intros He. destruct c, w; try done. by apply tree_rep_mono. Qed.

Lemma tree_rep_mono_list W W' (l : dir) xs : W ⊑w W' -> pairwise (child W) l xs -> pairwise (child W') l xs.
Proof. intros He. apply pairwise_impl, Forall_forall. intros kc _ a. by apply child_mono. Qed.

Lemma list_loop_yields xs : forall W s l, inv W s -> pairwise (child W) l xs ->
  succeeds (WT.list_loop xs) W s (fun W' r => pairwise (wt_content W') l r).
Proof.
  induction xs as [|[k a] xs IH]; intros W s [|[k' c] l] Hi Hp; try done; [by apply yields_ret|].
  destruct Hp as (-> & Hc & Hp). cbn [WT.list_loop].
  eapply yields_bind; [by apply node_entry_yields|]. intros W1 e s1 He Hr Hi1.
  apply (tree_rep_mono_list _ _ _ _ He) in Hp.
  destruct c, e; try done; (eapply yields_bind; [by apply IH|]); intros W2 r s2 He2 Hl Hi2;
    (apply yields_ret; [done|]); repeat split; try done. by eapply tree_rep_mono.
Qed.

Definition list_spec (offset length : option Z) (l : dir) (key : ContextKey) : dir :=
  let d := raw l key in
  take (Z.to_nat (Z.min (default (zlen d) length) (zlen d))) (drop (Z.to_nat (default 0 offset)) d).

Lemma list_answers W s l w offset length key : inv W s -> wt_rep W l w ->
  answers (WT.list_children offset length key w) W s (fun W d r => pairwise (wt_content W) d r)
    (Ok (list_spec offset length l key)).
Proof.
  intros Hi Hw. apply yields_answer. unfold WT.list_children, list_spec.
  eapply yields_bind; [by apply find_raw_tree_yields|]. intros W1 d s1 He Hd Hi1.
  rewrite <- (pairwise_length _ _ _ Hd). apply list_loop_yields; [done|].
  by apply pairwise_take, pairwise_drop.
Qed.
End Changes.
