(* ===== verification/ContextWalk.v ===== *)
(** * The walker visits a tree in order

    [walk] is the recursive meaning of [fold_iter]: a content before its children,
    in the order of their names, filtered by depth.  The iterator's stack of levels
    produces exactly these items, and comes to its end. *)

From Stdlib Require Import ZArith Lia List Bool Ascii String.
From stdpp Require Import base option list numbers strings gmap sorting.
From S2P Require Import Prelude Spsc Types ContextStore ContextHash OrdMapFacts ContextContent WorkingTree ContextRep ContextEdit.

Set Warnings "-register-all".

(** ** The specification *)
Abbreviation item := (ContextKey * content)%type.

Definition applies (depth : option FoldDepth) (d : Z) : bool :=
  match depth with Some f => should_apply f d | None => true end.
Definition continues (depth : option FoldDepth) (d : Z) : bool :=
  match depth with Some f => should_continue f d | None => true end.

Fixpoint walk (depth : option FoldDepth) (key : ContextKey) (d : Z) (c : content) : list item :=
  (if applies depth d then [(key, c)] else []) ++
  (if continues depth d then
     match c with
     | CBlob _ => []
     | CDir l =>
         (fix go (l : dir) : list item :=
            match l with [] => [] | (k, c) :: l => walk depth (key ++ [k]) (d + 1) c ++ go l end) l
     end
   else []).

Fixpoint walk_children (depth : option FoldDepth) (key : ContextKey) (d : Z) (l : dir) : list item :=
  match l with
  | [] => []
  | (k, c) :: l => walk depth (key ++ [k]) (d + 1) c ++ walk_children depth key d l
  end.

Lemma walk_dir depth key d l : walk depth key d (CDir l) =
  (if applies depth d then [(key, CDir l)] else []) ++
  (if continues depth d then walk_children depth key d l else []).
Proof.
  cbn. f_equal. destruct (continues depth d); [|done]. induction l as [|[k c] l IH]; [done|]. cbn. by rewrite IH.
Qed.

(** How many steps the iterator takes for a content: it pushes a level, yields it,
    visits the children and pops the level. *)
Fixpoint steps (c : content) : nat :=
  (3 + match c with
       | CBlob _ => 0
       | CDir l => (fix go (l : dir) : nat := match l with [] => 0 | (_, c) :: l => steps c + go l end) l
       end)%nat.
Fixpoint steps_children (l : dir) : nat := match l with [] => 0 | (_, c) :: l => steps c + steps_children l end%nat.
Lemma steps_dir l : steps (CDir l) = (3 + steps_children l)%nat.
Proof. done. Qed.

(** ** Levels *)
Section Walk.
Context `{OrdMapCrate, BincodeCrate, Blake2Crate, Leb128Crate} (pfuel : nat).
Abbreviation inv := (inv pfuel).
Abbreviation succeeds m W s P := (yields pfuel never m W s P).
Context (depth : option FoldDepth).

(** A level: what is left of it, and how many steps that takes. *)
Record slevel : Type := mkSlevel { l_content : content; l_children : option dir }.

Definition level_rep (W : world) (x : slevel) (lv : Walker.level) : Prop :=
  wt_content W (l_content x) (Walker.root lv) /\
  match l_children x, Walker.children_iter lv with
  | Some l, Some xs => pairwise (child W) l xs
  | None, None => True
  | _, _ => False
  end.

Definition level_items (x : slevel) (lv : Walker.level) : list item :=
  (if Walker.yield_self lv then [(Walker.key lv, l_content x)] else []) ++
  match l_children x with
  | Some l => walk_children depth (Walker.key lv) (Walker.current_depth lv) l
  | None => []
  end.
Definition level_steps (x : slevel) (lv : Walker.level) : nat :=
  ((if Walker.yield_self lv then 1 else 0) + 1 +
   match l_children x with Some l => steps_children l | None => 0 end)%nat.

Fixpoint stack_rep (W : world) (xs : list slevel) (lvs : list Walker.level) (items : list item) (n : nat) : Prop :=
  match xs, lvs with
  | [], [] => items = [] /\ n = 0%nat
  | x :: xs, lv :: lvs => level_rep W x lv /\ exists items' n', stack_rep W xs lvs items' n' /\
      items = level_items x lv ++ items' /\ n = (level_steps x lv + n')%nat
  | _, _ => False
  end.

Lemma level_rep_mono W W' x lv : W ⊑w W' -> level_rep W x lv -> level_rep W' x lv.
Proof.
  intros He [Hc Hl]. split; [by eapply wt_content_mono|].
  destruct (l_children x), (Walker.children_iter lv); try done. by eapply tree_rep_mono_list.
Qed.
Lemma stack_rep_mono W W' xs : W ⊑w W' -> forall lvs items n, stack_rep W xs lvs items n -> stack_rep W' xs lvs items n.
Proof.
  intros He. induction xs as [|x xs IH]; intros [|lv lvs] items n; try done. cbn.
  intros (Hl & items' & n' & Hs & -> & ->). split; [by eapply level_rep_mono|]. exists items', n'. auto.
Qed.

Lemma new_level_rep W key c w d : wt_content W c w ->
  exists x, level_rep W x (Walker.new_level key w d depth) /\
    level_items x (Walker.new_level key w d depth) = walk depth key d c /\
    (level_steps x (Walker.new_level key w d depth) < steps c)%nat.
Proof.
  intros Hc. unfold Walker.new_level. fold (continues depth d) (applies depth d).
  destruct c as [v|l], w as [t|v']; try done; cbn in Hc.
  - subst v'. exists (mkSlevel (CBlob v) None). repeat split.
    + cbn. by destruct (continues depth d).
    + unfold level_items. cbn. by destruct (continues depth d).
    + unfold level_steps. cbn. destruct (applies depth d); lia.
  - exists (mkSlevel (CDir l) (if continues depth d then Some l else None)). repeat split.
    + done.
    + cbn. by destruct (continues depth d).
    + rewrite walk_dir. unfold level_items. cbn. by destruct (continues depth d).
    + rewrite steps_dir. unfold level_steps. cbn. destruct (applies depth d), (continues depth d); lia.
Qed.

Lemma node_tree_yields W s a c : inv W s -> child W c a ->
  succeeds (WT.node_tree a) W s (fun W' w => wt_content W' c w).
Proof.
  intros Hi Hc. unfold WT.node_tree. eapply yields_bind; [by apply node_entry_yields|].
  intros W1 e s1 He Hr Hi1. pose proof (child_mono _ _ _ _ He Hc) as Hc1.
  eapply yields_get_node; [done..|]. intros n Hn Ho. rewrite (n_kind _ _ _ _ _ Ho).
  destruct c, e; try done; apply yields_lift_bind; by apply yields_ret.
Qed.

(** One item, or the end. *)
Lemma next_yields fuel : forall W s lvs xs items n, inv W s -> stack_rep W xs lvs items n -> (n < fuel)%nat ->
  succeeds (Walker.next fuel (Walker.mkWalker depth lvs)) W s (fun W' r =>
    match items, r.1 with
    | [], None => r.2 = Walker.mkWalker depth []
    | it :: items, Some (k, w) => k = it.1 /\ wt_content W' it.2 w /\ Walker.depth r.2 = depth /\
        exists xs' n', stack_rep W' xs' (Walker.stack r.2) items n' /\ (n' < n)%nat
    | _, _ => False
    end).
Proof.
  induction fuel as [|fuel IH]; intros W s lvs xs items n Hi Hs Hn; [lia|]. cbn [Walker.next Walker.stack].
  destruct lvs as [|lv lvs], xs as [|x xs]; try done.
  { destruct Hs as [-> ->]. by apply yields_ret. }
  destruct Hs as ([Hc Hl] & items' & n' & Hs & -> & ->). unfold level_items, level_steps in *.
  destruct (Walker.yield_self lv) eqn:Ey.
  { apply yields_ret; [done|]. cbn. split; [done|]. split; [done|]. split; [done|].
    exists (x :: xs). eexists. split; [cbn; split; [by split|]; exists items', n'; split; [done|]; split; reflexivity|].
    unfold level_steps. cbn. lia. }
  destruct (Walker.children_iter lv) as [[|[k a] iter]|], (l_children x) as [[|[k' c] l]|]; try done; cbn in Hl.
  1, 3: eapply yields_mono; [eapply IH; [done|exact Hs|lia]|]; intros W1 r _ Hr; cbn;
    (destruct items' as [|it items'], r.1 as [[k w]|]; try done);
    destruct Hr as (E1 & E2 & E3 & xs' & n1 & Hs' & Hlt); repeat (split; [done|]); exists xs', n1;
    (split; [done|lia]).
  destruct Hl as (-> & Ha & Hl).
  destruct (yields_run _ _ _ _ _ (node_tree_yields W s a c Hi Ha)) as (W1 & w & s1 & Er & He & Hi1 & Hw).
  set (lv' := Walker.mkLevel (Walker.key lv) (Walker.root lv) (Walker.current_depth lv) false (Some iter)).
  destruct (new_level_rep W1 (Walker.key lv ++ [k]) c w (Walker.current_depth lv + 1) Hw) as (y & Hy & Eit & Est).
  assert (stack_rep W1 (y :: mkSlevel (l_content x) (Some l) :: xs)
    (Walker.new_level (Walker.key lv ++ [k]) w (Walker.current_depth lv + 1) depth :: lv' :: lvs)
    (level_items y (Walker.new_level (Walker.key lv ++ [k]) w (Walker.current_depth lv + 1) depth) ++
     level_items (mkSlevel (l_content x) (Some l)) lv' ++ items')
    (level_steps y (Walker.new_level (Walker.key lv ++ [k]) w (Walker.current_depth lv + 1)%Z depth) +
     (level_steps (mkSlevel (l_content x) (Some l)) lv' + n'))%nat) as Hs1.
  { split; [done|]. eexists _, _. split; [|split; reflexivity]. split.
    - split; [by eapply wt_content_mono|]. cbn. by eapply tree_rep_mono_list.
    - exists items', n'. split; [by eapply stack_rep_mono|]. done. }
  eapply IH in Hs1; [|exact Hi1|unfold level_steps in *; cbn in *; lia].
  destruct Hs1 as (W2 & He2 & Hi2 & Hr). exists W2. split; [by etrans|].
  cbn [Walker.depth]. rewrite Er. fold lv'. split; [done|].
  rewrite Eit in Hr. unfold level_items at 1 in Hr. cbn in Hr |- *. rewrite <- app_assoc.
  destruct (Walker.next fuel _ s1) as [[[o wk]|] s2]; [|done]. cbn in Hr |- *.
  destruct (walk depth _ _ c ++ _) as [|it its]; [done|]. destruct o as [[k1 w1]|]; [|done].
  destruct Hr as (E1 & E2 & E3 & xs' & n1 & Hs' & Hlt). split; [done|]. split; [done|]. split; [done|].
  exists xs', n1. split; [done|]. unfold level_steps in *. cbn in *. lia.
Qed.

Definition item_rep (W : world) (it : item) (r : ContextKey * WorkingTree) : Prop :=
  r.1 = it.1 /\ wt_content W it.2 r.2.

Lemma collect_yields fuel n : forall W s lvs xs items m, inv W s -> stack_rep W xs lvs items m ->
  (m < fuel)%nat -> (m < n)%nat ->
  succeeds (Walker.collect n fuel (Walker.mkWalker depth lvs)) W s (fun W' r => Forall2 (item_rep W') items r).
Proof.
  induction n as [|n IH]; intros W s lvs xs items m Hi Hs Hf Hn; [lia|]. cbn [Walker.collect].
  eapply yields_bind; [by eapply next_yields|]. intros W1 [o wk] s1 He Hr Hi1. cbn in Hr.
  destruct items as [|it items], o as [[k w]|]; try done; [by apply yields_ret; [|constructor]|].
  destruct Hr as (-> & Hw & Ed & xs' & m' & Hs' & Hlt). destruct wk as [dp st]. cbn in Ed, Hs'. subst dp.
  eapply yields_bind; [eapply (IH W1 s1 st xs' items m'); [done|done|lia|lia]|].
  intros W2 r s2 He2 Hr Hi2. apply yields_ret; [done|]. constructor; [|done]. split; [done|].
  by eapply wt_content_mono.
Qed.

Definition fold_spec (l : dir) (key : ContextKey) : list item :=
  match raw l key with [] => [] | d => walk depth [] 0 (CDir d) end.

Lemma fold_yields fuel W s l w key : inv W s -> wt_rep W l w -> (steps (CDir (raw l key)) <= fuel)%nat ->
  succeeds (wk ← fold_iter depth key w; Walker.collect fuel fuel wk) W s
    (fun W' r => Forall2 (item_rep W') (fold_spec l key) r).
Proof.
  intros Hi Hw Hf. unfold fold_iter, fold_spec. rewrite steps_dir in Hf.
  destruct (find_tree_answers pfuel W s l w key Hi Hw) as (W1 & He & Hi1 & Hm). unfold find_tree_spec in Hm.
  eapply (yields_bind _ _ _ _ _ _ _ (fun W' wk => exists xs m, Walker.depth wk = depth /\
    stack_rep W' xs (Walker.stack wk) (fold_spec l key) m /\ (m < fuel)%nat \/ wk = Walker.empty /\ fold_spec l key = [])).
  - exists W1. split; [done|]. unfold mbind, M_bind.
    destruct (WT.find_tree key w s) as [[o|] s1]; [|done]. cbn in Hi1, Hm |- *. split; [done|].
    unfold fold_spec. destruct (raw l key) as [|kc d] eqn:Ed, o as [t|]; try done; [exists [], 0%nat; by right|].
    destruct (new_level_rep W1 [] _ _ 0 Hm) as (x & Hx & Ei & Es). exists [x].
    exists (level_steps x (Walker.new_level [] t 0 depth)). left. split; [done|]. split; [|rewrite steps_dir in Es; lia].
    cbn [Walker.stack Walker.new]. split; [done|]. exists [], 0%nat. split; [done|].
    rewrite Ei, app_nil_r. split; [done|]. by rewrite Nat.add_0_r.
  - intros W2 wk s2 He2 (xs & m & [(Edp & Hs & Hlt)|(-> & Efs)]) Hi2.
    + destruct wk as [dp st]. cbn in Edp, Hs. subst dp. unfold fold_spec in Hs.
      by apply (collect_yields fuel fuel W2 s2 st xs _ m).
    + unfold fold_spec in Efs. rewrite Efs. destruct fuel as [|fu]; [lia|]. cbn.
      apply yields_ret; [done|constructor].
Qed.
End Walk.
