(* ===== verification/ContextHashing.v ===== *)
(** * Hashing represents the hash of the content

    Computing the hash id of a node answers an id whose hash is [content_hash] of
    the node's content, whichever hashes were cached: the recursion through the
    nodes, the short and the long format and the partition of large directories
    follow the pure definition.  The only failure is a repository with no ids
    left ([full]). *)

From Stdlib Require Import ZArith Lia List Bool Ascii String.
From stdpp Require Import base option list numbers strings gmap sorting.
From S2P Require Import Prelude Spsc Types ContextStore ContextHash OrdMapFacts ContextContent WorkingTree ContextRep ContextEdit.

Set Warnings "-register-all".

Definition full `{OrdMapCrate} (s : St) : Prop := zlen (hashes (store (repo s))) = usize_max.

(** ** New ids *)
Section Ids.
Context `{OrdMapCrate, BincodeCrate, Blake2Crate, Leb128Crate} (pfuel : nat).
Abbreviation inv := (inv pfuel).
Abbreviation repo_ok := (repo_ok pfuel).

Definition add_hash (id : HashId) (h : EntryHash) (W : world) : world :=
  mkWorld (nodes W) (nkey W) (nent W) (<[id := h]> (hashed W)) (ids W) (valued W) (commits W) (filed W).

Lemma add_hash_ext id h W : hashed W !! id = None -> W ⊑w add_hash id h W.
Proof. intros Hn. split; try done. by apply insert_subseteq. Qed.

(** A repository in which a new id was given its hash. *)
Lemma repo_ok_add_hash W r r' id h : repo_ok W r -> 1 <= id -> hashed W !! id = None ->
  hashes (store r') !! Z.to_nat (id - 1) = Some h ->
  (forall i, 1 <= i -> is_Some (hashed W !! i) ->
     hashes (store r') !! Z.to_nat (i - 1) = hashes (store r) !! Z.to_nat (i - 1)) ->
  (forall i, 1 <= i -> is_Some (hashed W !! i) -> value_at r' i = value_at r i) ->
  NoDup (free_list r') ->
  (forall i, i ∈ free_list r' -> i ∈ free_list r /\ i <> id) ->
  zlen (values (store r')) = zlen (values (store r)) ->
  zlen (values (store r')) <= zlen (hashes (store r')) <= usize_max ->
  context_hashes r' = context_hashes r -> repo_ok (add_hash id h W) r'.
Proof.
  intros [R1 R2 R3 R4 R5 R6 R7 R8 R9] Hid Hn Hh Hsame Hvals Hnd Hfree Hlen Hlen' Hfiled.
  pose proof (add_hash_ext id h W Hn) as He. split; cbn.
  - intros i h' Hi. apply lookup_insert_Some in Hi as [[<- <-]|[_ Hi]]; [done|].
    destruct (R1 _ _ Hi) as [Hle Hl]. split; [done|]. by rewrite Hsame.
  - intros i c Hc. destruct (R2 _ _ Hc) as (h' & Hc' & Hh'). exists h'. split; [done|].
    exact (hashed_mono W (add_hash id h W) i h' He Hh').
  - intros i c Hc Hv. destruct (R3 _ _ Hc Hv) as (bs & e & Hb & Hd & Hs). exists bs, e.
    destruct (R2 _ _ Hc) as (h' & _ & Hh'). rewrite Hvals by (by eexists || by apply (R1 _ _ Hh')).
    split; [done|]. split; [done|]. by eapply shape_mono.
  - intros i l Hc. destruct (R4 _ _ Hc) as (Hi & [h' Hh'] & bs & cm & Hb & Hd). split; [done|]. split.
    { exists h'. exact (hashed_mono W (add_hash id h W) i h' He Hh'). }
    exists bs, cm. rewrite Hvals by (by eexists || by apply (R1 _ _ Hh')). done.
  - done.
  - done.
  - intros i Hi. destruct (Hfree _ Hi) as [Hi' Hne]. rewrite Hlen, lookup_insert_ne by done. by apply R7.
  - done.
  - by rewrite Hfiled.
Qed.

Lemma fresh_ids W r id : repo_ok W r -> hashed W !! id = None ->
  ids W !! id = None /\ commits W !! id = None /\ id ∉ valued W.
Proof.
  intros Hr Hn. assert (ids W !! id = None) as Hd.
  { destruct (ids W !! id) as [c|] eqn:Ec; [|done]. destruct (r_ids _ _ _ Hr _ _ Ec) as (h & _ & Hh). congruence. }
  split; [done|]. split.
  - destruct (commits W !! id) as [l|] eqn:Ec; [|done].
    destruct (r_commits _ _ _ Hr _ _ Ec) as (_ & [h Hh] & _). congruence.
  - intros [c Hc]%(r_valued _ _ _ Hr). congruence.
Qed.

Lemma nat_id_inj i j : 1 <= i -> 1 <= j -> Z.to_nat (i - 1) = Z.to_nat (j - 1) -> i = j.
Proof. lia. Qed.

Lemma get_free_id_cases (s : HashValueStore) :
  match free_ids s with
  | Some q =>
      match f_items q with
      | [] => Hvs.get_free_id s = (None, s)
      | x :: xs => Hvs.get_free_id s =
          (Some x, mkHvs (hashes s) (values s) (Some (mkFifo (f_cap q) xs (f_closed q))) (new_ids s))
      end
  | None => Hvs.get_free_id s = (None, s)
  end.
Proof.
  unfold Hvs.get_free_id. destruct s as [hs vs [[cap [|x xs] cl]|] nids]; done.
Qed.

(** The id after the last one. *)
Lemma vacant_last W r h : repo_ok W r -> Hvs.get_free_id (store r) = (None, store r) ->
  match Mem.get_vacant_entry_hash r with
  | Ok (id, r') => hashed W !! id = None /\ repo_ok (add_hash id h W) (Mem.write_with id h r')
  | Err _ => zlen (hashes (store r)) = usize_max
  end.
Proof.
  intros Hr Hg. pose proof Hr as [R1 R2 R3 R4 R5 R6 R7 R8 R9].
  unfold Mem.get_vacant_entry_hash, Hvs.get_vacant_entry_hash. rewrite Hg.
  unfold Entries.get_vacant_entry, index_hash_id, checked_add.
  destruct (Z.leb_spec (zlen (hashes (store r)) + 1) usize_max) as [Hle|Hgt]; cbn; [|lia].
  set (n := zlen (hashes (store r))) in *.
  assert (0 <= n) by apply zlen_nonneg.
  assert (forall i g, hashed W !! i = Some g -> 1 <= i <= n) as Hrange.
  { intros i g [Hi Hl%lookup_lt_Some]%R1. unfold n, zlen. lia. }
  assert (hashed W !! (n + 1) = None) as Hn.
  { destruct (hashed W !! (n + 1)) as [g|] eqn:E; [|done]. apply Hrange in E. lia. }
  assert (Z.to_nat (n + 1 - 1) = length (hashes (store r))) as Ei by (unfold n, zlen; lia).
  split; [done|]. apply (repo_ok_add_hash W r); cbn; rewrite ?Ei; try done.
  - lia.
  - rewrite list_lookup_insert_eq; [done|]. rewrite length_app. cbn. lia.
  - intros i Hi [g Hi'%Hrange]. rewrite list_lookup_insert_ne, lookup_app_l; [done|unfold n, zlen in *; lia..].
  - intros i Hi. split; [done|]. intros ->. destruct (R7 _ Hi) as [Hb _]. lia.
  - unfold zlen. rewrite length_insert, length_app. cbn. unfold n, zlen in *. lia.
Qed.

(** An id the collector gave back. *)
Lemma vacant_free W r h q x xs : repo_ok W r -> free_ids (store r) = Some q -> f_items q = x :: xs ->
  match Mem.get_vacant_entry_hash r with
  | Ok (id, r') => hashed W !! id = None /\ repo_ok (add_hash id h W) (Mem.write_with id h r')
  | Err _ => zlen (hashes (store r)) = usize_max
  end.
Proof.
  intros Hr Eq Ex. pose proof Hr as [R1 R2 R3 R4 R5 R6 R7 R8 R9].
  pose proof (get_free_id_cases (store r)) as Hg. rewrite Eq, Ex in Hg.
  assert (free_list r = x :: xs) as Hl by (unfold free_list; by rewrite Eq).
  rewrite Hl in R6, R7. destruct (R7 x (list_elem_of_here _ _)) as [Hx Hn].
  apply NoDup_cons in R6 as [Hnx Hnd].
  unfold Mem.get_vacant_entry_hash, Hvs.get_vacant_entry_hash. rewrite Hg. cbn [values hashes free_ids new_ids].
  rewrite entries_get by lia. unfold Entries.set, hash_id_index, checked_sub.
  rewrite (proj2 (Z.leb_le 1 x)) by lia. cbn [ok_or mbind].
  assert (x - 1 < zlen (values (store r))) as Hlt by lia. apply Z.ltb_lt in Hlt.
  assert (is_Some (hashes (store r) !! Z.to_nat (x - 1))) as [g Eg]
    by (apply lookup_lt_is_Some; unfold zlen in *; lia).
  unfold mbind, result_bind. rewrite Hlt, Eg. cbn. split; [done|].
  apply (repo_ok_add_hash W r); cbn; try done.
  - lia.
  - rewrite list_lookup_insert_eq; [done|]. by eapply lookup_lt_Some.
  - intros i Hi [g' Hg']. apply list_lookup_insert_ne. intros ?%nat_id_inj; [congruence|lia..].
  - intros i Hi [g' Hg']. unfold value_at. cbn. rewrite list_lookup_insert_ne; [done|].
    intros ?%nat_id_inj; [congruence|lia..].
  - intros i Hi. rewrite Hl. unfold free_list in Hi. cbn in Hi. split; [by apply list_elem_of_further|]. by intros ->.
  - unfold zlen. by rewrite length_insert.
  - unfold zlen in *. rewrite !length_insert. lia.
Qed.

(** A vacant id is new, and its hash is written without touching the others. *)
Lemma vacant_id W r h : repo_ok W r ->
  match Mem.get_vacant_entry_hash r with
  | Ok (id, r') => hashed W !! id = None /\ repo_ok (add_hash id h W) (Mem.write_with id h r')
  | Err _ => zlen (hashes (store r)) = usize_max
  end.
Proof.
  intros Hr. pose proof (get_free_id_cases (store r)) as Hg.
  destruct (free_ids (store r)) as [q|] eqn:Eq; [|by apply vacant_last].
  destruct (f_items q) as [|x xs] eqn:Ex; [by apply vacant_last|by eapply vacant_free].
Qed.

Lemma write_hash_yields W s pre : inv W s ->
  yields pfuel full (write_hash pre) W s (fun W' id => hashed W !! id = None /\ W' = add_hash id (blake2b pre) W).
Proof.
  intros Hi. pose proof (vacant_id W (repo s) (blake2b pre) (inv_repo _ _ _ _ Hi)) as Hv.
  unfold yields, write_hash. destruct (Mem.get_vacant_entry_hash (repo s)) as [[id r']|e]; [|by exists W].
  destruct Hv as [Hn Hr]. exists (add_hash id (blake2b pre) W). split; [by apply add_hash_ext|].
  split; [|done]. pose proof (add_hash_ext id (blake2b pre) W Hn) as He. destruct Hi as [I1 I2 I2' I3 I4].
  split; cbn; try done. intros a c n Hc Hh. by apply (node_ok_mono _ W), I3.
Qed.
End Ids.

(** ** The hash of a directory *)

(** Only nodes nested less than [n] deep get new hash ids, and none is loaded. *)
Definition below (n : nat) (W W' : world) : Prop :=
  nent W' = nent W /\ forall a c, child W c a -> (n <= depth c)%nat -> nkey W' !! a = nkey W !! a.

Lemma below_refl n W : below n W W.
Proof. done. Qed.
Lemma below_trans n W1 W2 W3 : W1 ⊑w W2 -> below n W1 W2 -> below n W2 W3 -> below n W1 W3.
Proof.
  intros He [E1 B1] [E2 B2]. split; [congruence|]. intros a c Hc Hd. rewrite <- (B1 a c Hc Hd).
  apply (B2 a c); [|done]. by eapply child_mono.
Qed.
Lemma below_weaken n m W W' : (n <= m)%nat -> below n W W' -> below m W W'.
Proof. intros Hle [E Hb]. split; [done|]. intros a c Hc Hd. apply (Hb a c Hc). lia. Qed.
Lemma below_zero n W W' : below 0 W W' -> below n W W'.
Proof. apply below_weaken. lia. Qed.

Section Directory.
Context `{OrdMapCrate, BincodeCrate, Blake2Crate, Leb128Crate} (pfuel : nat).
Abbreviation inv := (inv pfuel).
Abbreviation hashing m W s P := (yields pfuel full m W s P).

(** The hash id of a child: nodes nested less than [n] deep are hashed. *)
Context (f : loc -> M HashingError HashId) (n : nat).
Context (Hf : forall W s c a h, inv W s -> child W c a -> (depth c < n)%nat -> content_hash pfuel c = Some h ->
  hashing (f a) W s (fun W' id => nkey W' !! a = Some id /\ ids W' !! id = Some c /\ below n W W')).

(** The nodes a directory's hash depends on, with what is hashed of them. *)
Definition hrel (W : world) (es : list (string * (NodeKind * EntryHash))) (xs : list (string * loc)) : Prop :=
  pairwise (fun x a => exists c, child W c a /\ kind_of c = x.1 /\ content_hash pfuel c = Some x.2 /\
    (depth c < n)%nat) es xs.

Definition has_key (W : world) (kl : string * loc) : Prop := is_Some (nkey W !! kl.2).

Lemma has_key_mono W W' kl : W ⊑w W' -> has_key W kl -> has_key W' kl.
Proof. intros He [i Hi]. exists i. by eapply nkey_mono. Qed.

Lemma hrel_mono W W' es xs : W ⊑w W' -> hrel W es xs -> hrel W' es xs.
Proof.
  intros He. apply pairwise_impl, Forall_forall. intros kx _ a (c & Hc & Hr). exists c.
  split; [by eapply child_mono|done].
Qed.

Lemma store_get_hash_yields W s id h : inv W s -> hashed W !! id = Some h ->
  hashing (store_get_hash id) W s (fun W' o => W' = W /\ o = Some h).
Proof.
  intros Hi Hh. destruct (r_hash _ _ _ (inv_repo _ _ _ _ Hi) _ _ Hh) as [Hid Hl]. exists W. split; [done|].
  unfold store_get_hash, mbind, M_bind, read, lift, Mem.get_hash, Hvs.get_hash. rewrite entries_get by done.
  cbn. by rewrite Hl.
Qed.

Lemma node_hash_yields W s c a h : inv W s -> child W c a -> (depth c < n)%nat -> content_hash pfuel c = Some h ->
  hashing (node_hash f a) W s (fun W' h' => h' = h /\ is_Some (nkey W' !! a) /\ below n W W').
Proof.
  intros Hi Hc Hd Hh. unfold node_hash. eapply yields_bind; [by eapply Hf|].
  intros W1 id s1 He (Hk & Hid & Hb) Hi1.
  destruct (r_ids _ _ _ (inv_repo _ _ _ _ Hi1) _ _ Hid) as (h' & Hc' & Hh'). rewrite Hh in Hc'. injection Hc' as <-.
  eapply yields_bind; [by eapply store_get_hash_yields|]. intros W2 o s2 _ [-> ->] Hi2.
  apply yields_lift; [done|]. split; [done|]. split; [by eexists|done].
Qed.

(** An entry of a directory in one of the two formats. *)
Definition formats (g : string * loc -> M HashingError bytes) (b : string * (NodeKind * EntryHash) -> bytes) : Prop :=
  forall W s k c a h, inv W s -> child W c a -> (depth c < n)%nat -> content_hash pfuel c = Some h ->
    hashing (g (k, a)) W s (fun W' bs => bs = b (k, (kind_of c, h)) /\ is_Some (nkey W' !! a) /\ below n W W').

Lemma short_formats : formats (short_entry f) short_bytes.
Proof.
  intros W s k c a h Hi Hc Hd Hh. unfold short_entry. cbn [fst snd]. eapply yields_get_node; [done..|].
  intros nd Hn Ho. eapply yields_bind; [by eapply node_hash_yields|].
  intros W1 h' s1 He (-> & Hk & Hb) Hi1. apply yields_ret; [done|]. by rewrite (n_kind _ _ _ _ _ Ho).
Qed.
Lemma long_formats : formats (long_entry f) long_bytes.
Proof.
  intros W s k c a h Hi Hc Hd Hh. unfold long_entry. cbn [fst snd]. eapply yields_get_node; [done..|].
  intros nd Hn Ho. eapply yields_bind; [by eapply node_hash_yields|].
  intros W1 h' s1 He (-> & Hk & Hb) Hi1. apply yields_ret; [done|]. by rewrite (n_kind _ _ _ _ _ Ho).
Qed.

Lemma entries_yields g b xs : formats g b -> forall W s es, inv W s -> hrel W es xs ->
  hashing (mapM_ g xs) W s (fun W' bs => bs = b <$> es /\ Forall (has_key W') xs /\ below n W W').
Proof.
  intros Hg. induction xs as [|[k a] xs IH]; intros W s [|[k' [kd h]] es] Hi Hp; try done.
  { apply yields_ret; [done|]. split; [done|]. split; [by constructor|apply below_refl]. }
  destruct Hp as (-> & (c & Hc & Hk & Hh & Hd) & Hp). cbn in Hk, Hh. subst kd. cbn [mapM_].
  eapply yields_bind; [by eapply Hg|]. intros W1 bs s1 He (-> & Hka & Hb1) Hi1.
  eapply yields_bind; [by apply (IH W1 s1 es Hi1), (hrel_mono W)|].
  intros W2 bs' s2 He2 (-> & Hks & Hb2) Hi2. apply yields_ret; [done|]. split; [done|]. split.
  - apply Forall_cons. split; [|done]. by apply (has_key_mono W1 W2 (k, a)).
  - by eapply below_trans.
Qed.

(** *** Inodes *)
Definition inode_rep (W : world) (i : Inode) (j : inode) : Prop :=
  match i, j with
  | InodeEmpty, IEmpty => True
  | InodeValue xs, IValue es => hrel W es xs
  | InodeTree d c ps, INode d' c' ps' =>
      d = d' /\ c = c' /\ Forall2 (fun p p' => p.1 = p'.1 /\ hashed W !! p.2 = Some p'.2) ps ps'
  | _, _ => False
  end.

(** The nodes that get their ids when the inode is hashed. *)
Definition unhashed (i : Inode) : list (string * loc) := match i with InodeValue xs => xs | _ => [] end.

Lemma pointers_yields ps : forall W s ps', inv W s ->
  Forall2 (fun p p' => p.1 = p'.1 /\ hashed W !! p.2 = Some p'.2) ps ps' ->
  hashing (mapM_ pointer_bytes ps) W s (fun W' bs => bs = (fun p => p.1 :: p.2) <$> ps' /\ W' = W).
Proof.
  induction ps as [|[i id] ps IH]; intros W s ps' Hi Hp; inversion Hp as [|? [i' h] ? ps1 [Hi1 Hh] Hp']; subst.
  { by apply yields_ret. }
  cbn in Hi1, Hh. subst i'. cbn [mapM_]. eapply (yields_bind _ _ _ _ _ _ _ (fun W' bs => bs = i :: h /\ W' = W)).
  { unfold pointer_bytes. eapply yields_bind; [by eapply store_get_hash_yields|].
    intros W1 o s1 _ [-> ->] Hi1. by apply yields_ret. }
  intros W1 bs s1 _ [-> ->] Hi1. eapply yields_bind; [by apply IH|]. intros W2 bs' s2 _ [-> ->] Hi2.
  by apply yields_ret.
Qed.

Definition new_hash (W : world) (h : EntryHash) (W' : world) (id : HashId) : Prop :=
  hashed W' !! id = Some h /\ ids W' !! id = None /\ commits W' !! id = None /\ id ∉ valued W'.

Lemma write_new_hash W s pre : inv W s ->
  hashing (write_hash pre) W s (fun W' id => new_hash W (blake2b pre) W' id /\ below 0 W W').
Proof.
  intros Hi. eapply yields_mono; [by apply write_hash_yields|]. intros W1 id _ [Hn ->].
  destruct (fresh_ids _ _ _ _ (inv_repo _ _ _ _ Hi) Hn) as (Hd & Hc & Hv). split; [|done].
  split; [apply lookup_insert_eq|]. done.
Qed.

Lemma hash_long_inode_yields W s i j h : inv W s -> inode_rep W i j -> inode_hash j = Some h ->
  hashing (hash_long_inode f i) W s (fun W' id => new_hash W h W' id /\
    Forall (has_key W') (unhashed i) /\ below n W W').
Proof.
  intros Hi Hr Hh. destruct i as [|xs|d ch ps], j as [|es|d' ch' ps']; try done; cbn in Hh; injection Hh as <-.
  - cbn in Hr. cbn [hash_long_inode unhashed]. eapply yields_bind; [by eapply entries_yields, Hr; [apply long_formats|]|].
    intros W1 bs s1 He (-> & Hk & Hb) Hi1. rewrite <- (pairwise_length _ _ _ Hr).
    eapply yields_mono; [by apply write_new_hash|]. intros W2 id He2 [Hn Hb2%(below_zero n)]. split; [done|]. split.
    + eapply Forall_impl; [exact Hk|]. intros kl. by apply has_key_mono.
    + by eapply below_trans.
  - destruct Hr as (-> & -> & Hp). cbn [hash_long_inode unhashed].
    eapply yields_bind; [by eapply pointers_yields|].
    intros W1 bs s1 _ (-> & ->) Hi1. assert (zlen ps = zlen ps') as -> by (unfold zlen; f_equal; by eapply Forall2_length).
    eapply yields_mono; [by apply write_new_hash|]. intros W2 id He2 [Hn Hb2%(below_zero n)]. done.
Qed.

Lemma hrel_filter W es xs d i : hrel W es xs ->
  hrel W (filter (fun e => index d e.1 = i) es) (filter (fun kl => index d kl.1 = i) xs).
Proof. by apply pairwise_filter. Qed.

Lemma inode_rep_mono W W' i j : W ⊑w W' -> inode_rep W i j -> inode_rep W' i j.
Proof.
  intros He. destruct i, j; try done; [by apply hrel_mono|]. intros (-> & -> & Hp). repeat split.
  eapply Forall2_impl; [exact Hp|]. intros p p' [? ?]. split; [done|]. by eapply hashed_mono.
Qed.

(** What a partition of entries answers: an inode, whose entries and the rest
    have their ids or will have them. *)
Definition partitions (m : M HashingError Inode) (xs : list (string * loc)) W s (j : inode) : Prop :=
  hashing m W s (fun W' i => inode_rep W' i j /\
    (forall kl, kl ∈ xs -> has_key W' kl \/ kl ∈ unhashed i) /\ below n W W').

Section Loop.
Context (part : list (string * loc) -> M HashingError Inode).
Context (cpart : list (string * (NodeKind * EntryHash)) -> option inode) (d : Z).
Context (Hpart : forall W s es xs j, inv W s -> hrel W es xs -> cpart es = Some j ->
  partitions (part xs) xs W s j).

Lemma pointers_loop_yields es xs ixs : forall W s ps, inv W s -> hrel W es xs ->
  content_pointers cpart d es ixs = Some ps ->
  hashing (pointers_loop f part d xs ixs) W s (fun W' ps' =>
    Forall2 (fun p p' => p.1 = p'.1 /\ hashed W' !! p.2 = Some p'.2) ps' ps /\
    (forall kl, kl ∈ xs -> index d kl.1 ∈ ixs -> has_key W' kl) /\ below n W W').
Proof.
  induction ixs as [|i ixs IH]; intros W s ps Hi Hx Hps; cbn in Hps.
  { injection Hps as <-. apply yields_ret; [done|]. repeat split; [done|]. by intros kl _ ?%not_elem_of_nil. }
  destruct (cpart _) as [j|] eqn:Ej; [|done]. cbn in Hps. cbn [pointers_loop].
  eapply yields_bind; [by eapply Hpart, Ej; [|apply hrel_filter]|].
  intros W1 ti s1 He1 (Hr & Hk1 & Hb1) Hi1. apply (hrel_mono _ _ _ _ He1) in Hx as Hx1.
  assert (forall W', W1 ⊑w W' -> Forall (has_key W') (unhashed ti) ->
    forall kl, kl ∈ xs -> index d kl.1 = i -> has_key W' kl) as Hkeys.
  { intros W' He' Hun kl Hkl Hix. destruct (Hk1 kl) as [Hk|Hk].
    - by apply list_elem_of_filter.
    - by eapply has_key_mono.
    - rewrite Forall_forall in Hun. by apply Hun. }
  assert (forall h ps1, inode_hash j = Some h -> content_pointers cpart d es ixs = Some ps1 ->
    hashing (id ← hash_long_inode f ti; ps ← pointers_loop f part d xs ixs; mret ((i, id) :: ps)) W1 s1
      (fun W' ps' => Forall2 (fun p p' => p.1 = p'.1 /\ hashed W' !! p.2 = Some p'.2) ps' ((i, h) :: ps1) /\
        (forall kl, kl ∈ xs -> index d kl.1 ∈ i :: ixs -> has_key W' kl) /\ below n W W')) as Hgo.
  { intros h ps1 Hh Hps1. eapply yields_bind; [by eapply hash_long_inode_yields|].
    intros W2 id s2 He2 ((Hid & _) & Hun & Hb2) Hi2.
    eapply yields_bind; [by eapply (IH W2); [|eapply hrel_mono|]|].
    intros W3 ps' s3 He3 (Hp & Hk3 & Hb3) Hi3. apply yields_ret; [done|]. split.
    { apply Forall2_cons. split; [|done]. split; [done|]. by eapply hashed_mono. }
    split.
    - intros kl Hkl [Hix|Hix]%elem_of_cons; [|auto]. eapply has_key_mono; [exact He3|]. by apply (Hkeys W2).
    - eapply below_trans; [by etrans| |exact Hb3]. by eapply below_trans. }
  destruct j as [|es'|d' ch ps0] eqn:Edj.
  - destruct ti; try done. eapply yields_mono; [by eapply (IH W1)|].
    intros W2 ps' He2 (Hp & Hk2 & Hb2). split; [done|]. split; [|by eapply below_trans].
    intros kl Hkl [Hix|Hix]%elem_of_cons; [|auto]. by apply (Hkeys W2).
  - destruct (content_pointers _ _ _ _) as [ps1|] eqn:Ep; [|done]. injection Hps as <-.
    destruct ti; try done. by apply Hgo.
  - destruct (content_pointers _ _ _ _) as [ps1|] eqn:Ep; [|done]. injection Hps as <-.
    destruct ti; try done. by apply Hgo.
Qed.
End Loop.

Lemma index_in_indices d k : index d k ∈ indices.
Proof.
  assert (0 <= index d k < 32) as Hb by (unfold index; apply Z.mod_pos_bound; lia).
  unfold indices. apply list_elem_of_fmap. exists (Z.to_nat (index d k)). split; [lia|].
  apply elem_of_seq. lia.
Qed.

Lemma partition_yields fu : forall d W s es xs j, inv W s -> hrel W es xs ->
  content_partition fu d es = Some j -> partitions (partition_entries f fu d xs) xs W s j.
Proof.
  induction fu as [|fu IH]; intros d W s es xs j Hi Hx Hj.
  all: destruct es as [|[k e] es], xs as [|[k' a] xs]; try done.
  1,3: injection Hj as <-; apply yields_ret; [done|]; repeat split; by intros kl ?%not_elem_of_nil.
  all: unfold content_partition in Hj; fold content_partition in Hj;
    unfold partition_entries; fold partition_entries;
    rewrite (pairwise_length _ _ _ Hx) in Hj; destruct (_ <=? 32).
  1,3: injection Hj as <-; apply yields_ret; [done|]; (split; [done|]); (split; [|done]); intros kl Hkl; by right.
  - done.
  - destruct (content_pointers _ _ _ _) as [ps|] eqn:Ep; [|done]. injection Hj as <-.
    eapply yields_bind; [eapply pointers_loop_yields; [|done|exact Hx|exact Ep]|].
    { intros W0 s0 es0 xs0 j0 Hi0 Hx0 Hj0. by eapply IH. }
    intros W1 ps' s1 He (Hp & Hk & Hb) Hi1. apply yields_ret; [done|]. split; [done|]. split; [|done].
    intros kl Hkl. left. apply Hk; [done|]. apply index_in_indices.
Qed.

(** *** The hash of a tree *)
Lemma hashed_hrel W l : forall xs es, pairwise (child W) l xs -> hashed_entries pfuel l = Some es ->
  (depths l < n)%nat -> hrel W es xs.
Proof.
  induction l as [|[k c] l IH]; intros [|[k' a] xs] es; cbn; try done.
  { intros _ [= <-] _. done. }
  intros (-> & Hc & Hp) He Hd. destruct (content_hash pfuel c) as [h|] eqn:Ec; [|done]. cbn in He.
  destruct (hashed_entries pfuel l) as [es'|]; [|done]. injection He as <-. split; [done|]. split.
  - exists c. split; [done|]. split; [done|]. split; [done|]. lia.
  - apply IH; [done|done|lia].
Qed.

Lemma hash_tree_yields W s l t h : inv W s -> tree_rep W l t -> (depths l < n)%nat ->
  content_hash pfuel (CDir l) = Some h ->
  hashing (hash_tree f pfuel t) W s (fun W' id => new_hash W h W' id /\
    keyed W' (ETree t) /\ below n W W').
Proof.
  intros Hi Ht Hd Hh. rewrite content_hash_dir in Hh.
  destruct (hashed_entries pfuel l) as [es|] eqn:Ees; [|done]. cbn in Hh.
  pose proof (hashed_hrel W l _ _ Ht Ees Hd) as Hx. unfold dir_hash in Hh. unfold hash_tree.
  rewrite (pairwise_length _ _ _ Hx) in Hh. destruct (256 <? zlen (om_iter t)).
  - destruct (content_partition pfuel 0 es) as [j|] eqn:Ej; [|done]. cbn in Hh.
    eapply yields_bind; [by eapply partition_yields|]. intros W1 i s1 He (Hr & Hk & Hb) Hi1.
    eapply yields_mono; [by eapply hash_long_inode_yields|]. intros W2 id He2 (Hn & Hun & Hb2).
    split; [done|]. split; [|by eapply below_trans]. cbn. apply Forall_forall. intros kl Hkl.
    destruct (Hk kl Hkl) as [Hk'|Hk']; [by eapply (has_key_mono W1)|].
    rewrite Forall_forall in Hun. by apply Hun.
  - injection Hh as <-. unfold hash_short_inode.
    eapply yields_bind; [by eapply entries_yields, Hx; [apply short_formats|]|].
    intros W1 bs s1 He (-> & Hk & Hb) Hi1. eapply yields_mono; [by apply write_new_hash|].
    intros W2 id He2 [Hn Hb2%(below_zero n)]. split; [done|]. split.
    + eapply Forall_impl; [exact Hk|]. intros kl. by apply has_key_mono.
    + by eapply below_trans.
Qed.
End Directory.

(** ** The hash id of a node *)
Section Nodes.
Context `{OrdMapCrate, BincodeCrate, Blake2Crate, Leb128Crate} (pfuel : nat).
Abbreviation inv := (inv pfuel).
Abbreviation hashing m W s P := (yields pfuel full m W s P).

Definition add_id (id : HashId) (c : content) (W : world) : world :=
  mkWorld (nodes W) (nkey W) (nent W) (hashed W) (<[id := c]> (ids W)) (valued W) (commits W) (filed W).

(** A new hash becomes the id of a content. *)
Lemma name_id cov W W0 s id h c : invc pfuel cov W s -> new_hash W0 h W id -> content_hash pfuel c = Some h ->
  W ⊑w add_id id c W /\ invc pfuel cov (add_id id c W) s.
Proof.
  intros Hi (Hh & Hd & Hc & Hv) Hch.
  assert (W ⊑w add_id id c W) as He by (split; try done; by apply insert_subseteq).
  split; [done|]. destruct Hi as [I1 I2 I2' I3 [R1 R2 R3 R4 R5 R6 R7 R8 R9]]. split; try done.
  - intros a c' n Hc' Hn. by apply (node_ok_mono _ W), I3.
  - split; try done; cbn.
    + intros i c' Hi'. apply lookup_insert_Some in Hi' as [[<- <-]|[_ Hi']]; [by exists h|by apply R2].
    + intros i c' Hi' Hv'. apply lookup_insert_Some in Hi' as [[<- <-]|[_ Hi']]; [done|].
      destruct (R3 _ _ Hi' Hv') as (bs & e & Hb & Hde & Hs). exists bs, e. split; [done|]. split; [done|].
      by eapply shape_mono.
    + intros i l Hl. assert (id <> i) as Hne by (intros ->; congruence).
      destruct (R4 _ _ Hl) as (Hi' & Hh' & bs & cm & Hb & Hde & Hr & Hrv). rewrite lookup_insert_ne by done.
      split; [done|]. split; [done|]. exists bs, cm. repeat split; try done.
      exact (ids_mono W (add_id id c W) _ _ He Hr).
    + intros i Hiv. destruct (R5 _ Hiv) as [c' Hc']. exists c'. exact (ids_mono W (add_id id c W) _ _ He Hc').
Qed.

(** The id is kept in the node. *)
Lemma keep_hash_id W s a c n id : inv W s -> child W c a -> heap s !! a = Some n -> nkey W !! a = None ->
  ids W !! id = Some c -> (forall xs, children_of n = Some xs -> Forall (fun kl => is_Some (nkey W !! kl.2)) xs) ->
  inv (set_key a id W) (set_heap (<[a := set_entry_hash id n]> (heap s)) s).
Proof.
  intros Hi Hc Hn Hk Hd Hch. pose proof (inv_node _ _ _ _ Hi a c n Hc Hn) as [O1 O2 O3 O3' O4 O5 O6 O7].
  pose proof (set_key_ext W a id Hk) as He. eapply inv_update; try done.
  - intros b Hb. by apply lookup_insert_ne.
  - apply (repo_ok_same _ W); try done. by eapply inv_repo.
  - split; try done; cbn.
    + by rewrite lookup_insert_eq.
    + by intros i [= <-].
    + intros i xs _ Hxs. eapply Forall_impl; [by apply Hch|]. intros kl [j Hj]. exists j.
      exact (nkey_mono W (set_key a id W) _ _ He Hj).
    + intros Hcm. destruct (O6 Hcm) as (i & Ei & _). congruence.
    + intros Hen. destruct (O7 Hen) as (i & Ei & _). congruence.
Qed.

Lemma entry_hash_id_yields fuel : forall W s c a h, inv W s -> child W c a -> (depth c < fuel)%nat ->
  content_hash pfuel c = Some h ->
  hashing (entry_hash_id pfuel fuel a) W s
    (fun W' id => nkey W' !! a = Some id /\ ids W' !! id = Some c /\ below (S (depth c)) W W').
Proof.
  induction fuel as [|fuel IH]; intros W s c a h Hi Hc Hd Hh; [lia|]. cbn [entry_hash_id].
  eapply yields_get_node; [done..|]. intros n Hn Ho. destruct (entry_hash n) as [id|] eqn:Ei.
  { apply yields_ret; [done|]. rewrite <- (n_key _ _ _ _ _ Ho). split; [done|]. split; [|done].
    by apply (n_id _ _ _ _ _ Ho). }
  destruct (entry n) as [e|] eqn:Ee; [|by destruct (n_loaded _ _ _ _ _ Ho Ee) as (id & ? & _); congruence].
  apply yields_lift_bind. pose proof (n_entry _ _ _ _ _ Ho e Ee) as Hr.
  eapply (yields_bind _ _ _ _ _ _ _ (fun W' id => new_hash W h W' id /\ keyed W' e /\ below (depth c) W W')).
  { destruct c as [v|l], e as [t|v'|]; try done; cbn in Hr.
    - subst v'. injection Hh as <-. eapply yields_mono; [by apply write_new_hash|]. by intros W1 id _ [Hnh Hb].
    - rewrite depth_dir in Hd |- *. eapply hash_tree_yields; try done; [|lia].
      intros W0 s0 c0 a0 h0 Hi0 Hc0 Hd0 Hh0. eapply yields_mono; [eapply IH; try done; lia|].
      intros W1 id _ (? & ? & Hb). split; [done|]. split; [done|]. eapply below_weaken; [|exact Hb]. lia. }
  intros W1 id s1 He1 (Hnew & Hkeyed & [Ex1 Hb1]) Hi1. pose proof (child_mono _ _ _ _ He1 Hc) as Hc1.
  assert (nkey W1 !! a = None) as Hk1 by (rewrite (Hb1 a c Hc) by done; by rewrite <- (n_key _ _ _ _ _ Ho)).
  eapply yields_get_node; [done..|]. intros n1 Hn1 Ho1.
  destruct (name_id _ W1 W s1 id h c Hi1 Hnew Hh) as [He2 Hi2].
  assert (children_of n1 = children_of n) as Ech
    by (rewrite (n_ent _ _ _ _ _ Ho1), (n_ent _ _ _ _ _ Ho); by rewrite Ex1).
  exists (set_key a id (add_id id c W1)). split; [etrans; [exact He2|by apply set_key_ext]|]. split.
  - cbn. apply (keep_hash_id _ s1 a c n1); try done; [apply lookup_insert_eq|].
    intros xs. rewrite Ech. unfold children_of. rewrite Ee. destruct e; [|done..]. by intros [= <-].
  - cbn. split; [apply lookup_insert_eq|]. split; [apply lookup_insert_eq|]. split; [done|].
    intros b c' Hb Hdb. cbn. rewrite lookup_insert_ne; [by apply (Hb1 b c'); [|lia]|].
    intros <-. unfold child in Hc, Hb. rewrite Hc in Hb. injection Hb as <-. lia.
Qed.
End Nodes.
