(* ===== verification/ContextCommit.v ===== *)
(** * Committing writes what it must

    [prepare_commit] walks the nodes that are not committed and collects their
    serialized entries.  Whatever the walk skips is already written: at the end
    every id an entry of the batch refers to is written or in the batch, so that
    after [write_batch] the committed directory can be loaded from its id. *)

From Stdlib Require Import ZArith Lia List Bool Ascii String.
From stdpp Require Import base option list numbers strings gmap sorting.
From S2P Require Import Prelude Spsc Types ContextStore ContextHash OrdMapFacts ContextContent WorkingTree ContextRep ContextEdit ContextHashing.

Set Warnings "-register-all".

Section Walk.
Context `{OrdMapCrate, BincodeCrate, Blake2Crate, Leb128Crate} (pfuel fuel : nat).
Context (Hfuel : (0 < fuel)%nat).
Context (W : world).
Abbreviation invc := (invc pfuel).

(** Ids that are written, now or by the batch. *)
Definition covers (B : list (HashId * bytes)) (id : HashId) : Prop := id ∈ valued W \/ id ∈ B.*1.

Definition psnode_ok (cv : Z -> Prop) (c : content) (n : SNode) : Prop :=
  s_kind n = kind_of c /\ ids W !! s_hash n = Some c /\ cv (s_hash n).

Definition pshape (cv : Z -> Prop) (c : content) (e : SEntry) : Prop :=
  match c, e with
  | CBlob v, SBlob v' => v = v'
  | CDir l, STree ns => StronglySorted name_lt ns /\ pairwise (psnode_ok cv) l ns
  | _, _ => False
  end.

(** An entry of the batch: the serialized form of the content of its id. *)
Definition batch_ok (cv : Z -> Prop) (ib : HashId * bytes) : Prop :=
  exists c e, ids W !! ib.1 = Some c /\ ib.2 = bincode_serialize e /\ pshape cv c e.

Lemma pshape_mono (cv cv' : Z -> Prop) c e : (forall i, cv i -> cv' i) -> pshape cv c e -> pshape cv' c e.
Proof.
  intros Hcv. destruct c, e; try done. intros [Hs Hp]. split; [done|]. revert Hp.
  apply pairwise_impl, Forall_forall. intros kc _ n (Hk & Hi & Hc). split; [done|]. split; [done|]. auto.
Qed.
Lemma batch_ok_mono (cv cv' : Z -> Prop) l : (forall i, cv i -> cv' i) ->
  Forall (batch_ok cv) l -> Forall (batch_ok cv') l.
Proof.
  intros Hcv Hl. eapply Forall_impl; [exact Hl|]. intros ib (c & e & Hi & Hb & Hs). exists c, e.
  split; [done|]. split; [done|]. by eapply pshape_mono.
Qed.

Lemma invc_weaken (cov cov' : Z -> Prop) s : (forall i, cov i -> cov' i) -> invc cov W s -> invc cov' W s.
Proof.
  intros Hcov [I1 I2 I2' I3 I4]. split; try done. intros a c n Hc Hn. destruct (I3 a c n Hc Hn). split; try done.
  intros Hcm. destruct (n_commited Hcm) as (id & Ei & Hid). eauto.
Qed.

(** ** Serializing a tree *)
Lemma sentries_run {E} (err : E) cov s xs : forall l, invc cov W s -> pairwise (child W) l xs ->
  Forall (has_key W) xs ->
  exists ns, WT.sentries err xs s = (Ok ns, s) /\
    pairwise (fun c n => s_kind n = kind_of c /\ ids W !! s_hash n = Some c) l ns /\
    pairwise (fun a n => nkey W !! a = Some (s_hash n)) xs ns.
Proof.
  induction xs as [|[k a] xs IH]; intros [|[k' c] l] Hi Hp Hk; try done; [by exists []|].
  destruct Hp as (-> & Hc & Hp). apply Forall_cons in Hk as [[id Hid] Hk].
  destruct (child_node _ _ _ _ _ _ Hi Hc) as (n & Hn & Ho).
  destruct (IH l Hi Hp Hk) as (ns & Er & Hp1 & Hp2). exists ((k, mkSNode (node_kind n) id) :: ns).
  pose proof (n_key _ _ _ _ _ Ho) as En. cbn in Hid. rewrite Hid in En.
  unfold WT.sentries; fold (WT.sentries err). unfold mbind, M_bind, get_node. rewrite Hn. cbn.
  rewrite En. cbn. rewrite Er. split; [done|]. split; cbn.
  - split; [done|]. split; [|done]. split; [apply Ho|]. by apply (n_id _ _ _ _ _ Ho).
  - done.
Qed.

Lemma sorted_names {A B} (xs : list (string * A)) : forall ys : list (string * B), xs.*1 = ys.*1 ->
  StronglySorted name_lt xs -> StronglySorted name_lt ys.
Proof.
  induction xs as [|[k a] xs IH]; intros [|[k' b] ys]; try done; [constructor|].
  intros [= -> Hn] [Hs Hf]%sorted_cons_inv. constructor; [by apply IH|].
  apply Forall_forall. intros [k1 b1] Hin. unfold name_lt. cbn.
  assert (xs.*1 = ys.*1) as Hn' by exact Hn. pose proof (list_elem_of_fmap_2 fst ys (k1, b1) Hin) as Hk1.
  rewrite <- Hn' in Hk1. apply list_elem_of_fmap in Hk1 as (kv & E1 & Hkv). cbn in E1. subst k1.
  rewrite Forall_forall in Hf. by apply Hf.
Qed.

(** What the walk over a part of a tree leaves. *)
Definition walked (data : WT.SerializingData) (s : St) (r : result MerkleError WT.SerializingData * St)
  (P : (Z -> Prop) -> list (HashId * bytes) -> Prop) : Prop :=
  exists data' s' new, r = (Ok data', s') /\ repo s' = repo s /\ WT.batch data' = WT.batch data ++ new /\
    invc (covers (WT.batch data')) W s' /\ Forall (batch_ok (covers (WT.batch data'))) new /\
    P (covers (WT.batch data')) new.

Lemma covers_app B B' i : covers B i -> covers (B ++ B') i.
Proof. intros [Hi|Hi]; [by left|right]. rewrite fmap_app. apply elem_of_app. by left. Qed.

(** The hash id of a node that has one. *)
Lemma known_hash_id cov s a c id : invc cov W s -> child W c a -> nkey W !! a = Some id ->
  entry_hash_id pfuel fuel a s = (Ok id, s).
Proof.
  intros Hi Hc Hk. destruct (child_node _ _ _ _ _ _ Hi Hc) as (n & Hn & Ho).
  destruct fuel as [|fu]; [lia|]. cbn. unfold mbind, M_bind, get_node. rewrite Hn. cbn.
  by rewrite (n_key _ _ _ _ _ Ho), Hk.
Qed.

Section Children.
Context (recurse : Entry -> HashId -> WT.SerializingData -> M MerkleError WT.SerializingData) (n : nat).
Context (Hrec : forall c e id data s, (depth c < n)%nat -> entry_rep W c e -> keyed W e -> ids W !! id = Some c ->
  invc (fun i => covers (WT.batch data) i \/ i = id) W s ->
  walked data s (recurse e id data s) (fun cv _ => cv id)).


(** What is done with one child. *)
Definition serialize_child (a : loc) (data : WT.SerializingData) : M MerkleError WT.SerializingData :=
  n ← get_node MDangling a;
  (if commited n then WT.add_older_entry pfuel fuel true a data
   else
     set_node a (set_commited n);;
     match entry n with
     | None => mret data
     | Some e =>
         id ← mapE MHashingError (entry_hash_id pfuel fuel a);
         recurse e id data
     end).

Lemma child_walked c a data s : (depth c < n)%nat -> child W c a -> is_Some (nkey W !! a) ->
  invc (covers (WT.batch data)) W s ->
  walked data s (serialize_child a data s) (fun cv _ => forall id, nkey W !! a = Some id -> cv id).
Proof.
  intros Hd Hc [id Hk] Hi. destruct (child_node _ _ _ _ _ _ Hi Hc) as (nd & Hn & Ho).
  pose proof (n_key _ _ _ _ _ Ho) as Ek. rewrite Hk in Ek.
  unfold serialize_child, mbind, M_bind at 1, get_node. rewrite Hn. cbn.
  destruct (commited nd) eqn:Ecm.
  - destruct (n_commited _ _ _ _ _ Ho Ecm) as (id' & Ei & Hcv). rewrite Ek in Ei. injection Ei as <-.
    unfold WT.add_older_entry, mbind, M_bind, mapE. rewrite (known_hash_id _ _ _ _ _ Hi Hc Hk).
    eexists _, _, []. split; [done|]. split; [done|]. split; [by rewrite app_nil_r|]. split; [done|].
    split; [done|]. intros i. rewrite Hk. by intros [= <-].
  - set (s1 := set_heap (<[a := set_commited nd]> (heap s)) s).
    assert (invc (fun i => covers (WT.batch data) i \/ i = id) W s1) as Hi1.
    { eapply inv_update; try done; [by eapply inv_repo|by left|]. destruct Ho as [O1 O2 O3 O3' O4 O5 O6 O7].
      split; try done. intros _. exists id. split; [done|by right]. }
    cbn. destruct (entry nd) as [e|] eqn:Ee.
    + fold s1. unfold M_bind, mapE. rewrite (known_hash_id _ _ _ _ _ Hi1 Hc Hk).
      destruct (Hrec c e id data s1) as (data' & s' & new & Er & Erp & Eb & Hi' & Hnew & Hcov); try done.
      * by apply (n_entry _ _ _ _ _ Ho).
      * destruct e; try done. apply (n_children _ _ _ _ _ Ho id); [done|]. unfold children_of. by rewrite Ee.
      * by apply (n_id _ _ _ _ _ Ho).
      * exists data', s', new. split; [done|]. split; [done|]. split; [done|]. split; [done|]. split; [done|].
        intros i. rewrite Hk. by intros [= <-].
    + destruct (n_loaded _ _ _ _ _ Ho Ee) as (id' & Ei & Hv). rewrite Ek in Ei. injection Ei as <-.
      eexists _, _, []. split; [done|]. split; [done|]. split; [by rewrite app_nil_r|]. split.
      { revert Hi1. apply invc_weaken. intros i [Hcv| ->]; [done|by left]. }
      split; [done|]. intros i. rewrite Hk. intros [= <-]. by left.
Qed.

Lemma serialize_children_cons k a xs data s :
  WT.serialize_children pfuel fuel true recurse ((k, a) :: xs) data s =
  (serialize_child a data ≫= WT.serialize_children pfuel fuel true recurse xs) s.
Proof.
  cbn [WT.serialize_children]. unfold serialize_child, mbind, M_bind, get_node.
  by destruct (heap s !! a) as [nd|].
Qed.

Lemma children_walked xs : forall l data s, (depths l < n)%nat -> pairwise (child W) l xs ->
  Forall (has_key W) xs -> invc (covers (WT.batch data)) W s ->
  walked data s (WT.serialize_children pfuel fuel true recurse xs data s)
    (fun cv _ => forall kl id, kl ∈ xs -> nkey W !! kl.2 = Some id -> cv id).
Proof.
  induction xs as [|[k a] xs IH]; intros [|[k' c] l] data s Hd Hp Hk Hi; try done.
  { exists data, s, []. split; [done|]. split; [done|]. split; [by rewrite app_nil_r|]. split; [done|].
    split; [done|]. by intros kl id ?%not_elem_of_nil. }
  destruct Hp as (-> & Hc & Hp). apply Forall_cons in Hk as [Hka Hk]. cbn in Hd.
  destruct (child_walked c a data s) as (d1 & s1 & new1 & E1 & R1 & B1 & I1 & N1 & C1); try done; [lia|].
  destruct (IH l d1 s1) as (d2 & s2 & new2 & E2 & R2 & B2 & I2 & N2 & C2); try done; [lia|].
  exists d2, s2, (new1 ++ new2). split.
  { rewrite serialize_children_cons. unfold mbind, M_bind. by rewrite E1. }
  split; [by rewrite R2|]. split; [by rewrite B2, B1, app_assoc|]. split; [done|].
  assert (forall i, covers (WT.batch d1) i -> covers (WT.batch d2) i) as Hcov
    by (intros i; rewrite B2; apply covers_app).
  split.
  - apply Forall_app. split; [by eapply batch_ok_mono|done].
  - intros kl id [->|Hin]%elem_of_cons Hid; [by eapply Hcov, C1|by eapply C2].
Qed.
End Children.

(** *** The recursion *)
Lemma serialized c e id data s cov : invc cov W s -> entry_rep W c e -> keyed W e -> ids W !! id = Some c ->
  exists se, WT.add_serialized_entry true id e data s =
      (Ok (WT.mkData (WT.batch data ++ [(id, bincode_serialize se)]) (WT.referenced_older_entries data)), s) /\
    forall cv : Z -> Prop, (forall t kl i, e = ETree t -> kl ∈ om_iter t -> nkey W !! kl.2 = Some i -> cv i) ->
      pshape cv c se.
Proof.
  intros Hi Hr Hk Hid. destruct c as [v|l], e as [t|v'|]; try done; cbn in Hr.
  - subst v'. exists (SBlob v). by split.
  - destruct (sentries_run MSerializationError cov s (om_iter t) l Hi Hr Hk) as (ns & Er & Hp & Hp').
    exists (STree ns). split.
    { unfold WT.add_serialized_entry, WT.sentry, mbind, M_bind. by rewrite Er. }
    intros cv Hcv. split.
    { eapply sorted_names; [exact (pairwise_names _ _ _ Hp')|apply om_iter_sorted]. }
    assert (Forall (fun kn => cv (s_hash kn.2)) ns) as Hall.
    { apply Forall_forall. intros kn Hkn.
      destruct (pairwise_in _ _ _ kn.2 Hp' (list_elem_of_fmap_2 snd _ _ Hkn)) as (a & (ka & -> & Hka)%list_elem_of_fmap & Hn).
      by eapply (Hcv t ka). }
    clear -Hp Hall. revert ns Hp Hall. induction l as [|[k c] l IH]; intros [|[k' n] ns]; cbn; try done.
    intros (-> & (Hk & Hi) & Hp) [Hc Hall]%Forall_cons. split; [done|]. split; [done|]. auto.
Qed.

Lemma entries_walked rfuel : forall c e id data s, (depth c < rfuel)%nat -> entry_rep W c e -> keyed W e ->
  ids W !! id = Some c -> invc (fun i => covers (WT.batch data) i \/ i = id) W s ->
  walked data s (WT.get_entries_recursively pfuel fuel true rfuel e id None data s) (fun cv _ => cv id).
Proof.
  induction rfuel as [|rfuel IH]; intros c e id data s Hd Hr Hk Hid Hi; [lia|].
  destruct (serialized c e id data s _ Hi Hr Hk Hid) as (se & Es & Hsh). cbn [WT.get_entries_recursively].
  unfold mbind, M_bind at 1. rewrite Es. set (d1 := WT.mkData _ _).
  assert (covers (WT.batch d1) id) as Hcid by (right; cbn; rewrite fmap_app; apply elem_of_app; right; by left).
  assert (invc (covers (WT.batch d1)) W s) as Hi1.
  { revert Hi. apply invc_weaken. intros i [Hc| ->]; [by apply covers_app|done]. }
  destruct c as [v|l], e as [t|v'|]; try done.
  - exists d1, s, [(id, bincode_serialize se)]. split; [done|]. split; [done|]. split; [done|]. split; [done|].
    split; [|done]. apply Forall_singleton. exists (CBlob v), se. split; [done|]. split; [done|]. by apply Hsh.
  - rewrite depth_dir in Hd.
    destruct (children_walked (fun e id data => WT.get_entries_recursively pfuel fuel true rfuel e id None data) rfuel IH (om_iter t) l d1 s)
      as (d2 & s2 & new & E2 & R2 & B2 & I2 & N2 & C2); try done; [lia|].
    exists d2, s2, ((id, bincode_serialize se) :: new). split; [exact E2|]. split; [done|].
    split; [rewrite B2; cbn; by rewrite <- app_assoc|]. split; [done|]. split.
    + apply Forall_cons. split; [|done]. exists (CDir l), se. split; [done|]. split; [done|]. apply Hsh.
      intros t' kl i [= <-] Hkl Hki. by eapply C2.
    + rewrite B2. by apply covers_app.
Qed.
End Walk.

(** ** Writing the batch *)
Section Write.
Context `{OrdMapCrate, BincodeCrate, Blake2Crate, Leb128Crate} (pfuel : nat).

Lemma insert_value_run id v (s : HashValueStore) : 1 <= id -> exists s',
  Hvs.insert_value_at id v s = Ok s' /\ hashes s' = hashes s /\ free_ids s' = free_ids s /\
  zlen (values s) <= zlen (values s') <= Z.max (zlen (values s)) id /\
  forall i, 1 <= i -> match values s' !! Z.to_nat (i - 1) with Some x => x | None => None end =
    if decide (i = id) then Some v
    else match values s !! Z.to_nat (i - 1) with Some x => x | None => None end.
Proof.
  intros Hid. unfold Hvs.insert_value_at, Entries.insert_at, hash_id_index, checked_sub.
  rewrite (proj2 (Z.leb_le 1 id)) by lia. cbn [ok_or mbind]. unfold mbind, result_bind. cbn [hashes values].
  eexists. split; [done|]. cbn [hashes values free_ids]. split; [done|]. split; [done|].
  set (vs := if _ <=? _ then _ else _).
  assert (length vs = Nat.max (length (values s)) (Z.to_nat id)) as Hlen.
  { unfold vs, zlen. case_match eqn:E; [rewrite length_app, length_replicate; apply Z.leb_le in E; lia|].
    apply Z.leb_gt in E. lia. }
  split; [unfold zlen; rewrite length_insert; lia|]. intros i Hi. case_decide as Hd.
  - subst i. rewrite list_lookup_insert_eq by lia. done.
  - rewrite list_lookup_insert_ne by lia. unfold vs. destruct (zlen (values s) <=? id - 1); [|done].
    destruct (decide (Z.to_nat (i - 1) < length (values s))%nat) as [Hlt|Hge]; [by rewrite lookup_app_l|].
    rewrite lookup_app_r by lia. rewrite (lookup_ge_None_2 (values s)) by lia.
    destruct (replicate _ _ !! _) as [x|] eqn:Ex; [|done]. by apply lookup_replicate in Ex as [-> _].
Qed.

Record written (B : list (HashId * bytes)) (m m' : InMemory) : Prop := mkWritten {
  w_hashes : hashes (store m') = hashes (store m);
  w_free : free_ids (store m') = free_ids (store m);
  w_filed : context_hashes m' = context_hashes m;
  w_more : zlen (values (store m)) <= zlen (values (store m'));
  w_len : zlen (values (store m)) <= zlen (hashes (store m)) -> zlen (values (store m')) <= zlen (hashes (store m'));
  w_value i : 1 <= i -> ((i ∉ B.*1) /\ value_at m' i = value_at m i) \/
    exists bs, (i, bs) ∈ B /\ value_at m' i = Some bs;
}.

Lemma write_batch_run B : forall m, Forall (fun ib => 1 <= ib.1 <= zlen (hashes (store m))) B ->
  exists m', Mem.write_batch B m = Ok m' /\ written B m m'.
Proof.
  induction B as [|[id v] B IH]; intros m HB.
  { exists m. split; [done|]. split; try done. intros i _. left. split; [|done]. cbn. apply not_elem_of_nil. }
  apply Forall_cons in HB as [Hid HB]. cbn in Hid.
  destruct (insert_value_run id v (store m)) as (s' & Es & Hh & Hf & Hl & Hv); [lia|].
  set (m1 := mkInMemory (<[id := Some v]> (current_cycle m)) s' (sender m) (context_hashes m) (context_hashes_cycles m)).
  destruct (IH m1) as (m' & Em & [W1 W2 W3 W4 W5 W6]); [cbn; by rewrite Hh|].
  exists m'. split.
  { cbn. rewrite Es. exact Em. }
  cbn in W1, W2, W3, W4, W5. split; try congruence; [lia|intros Hle; apply W5; rewrite Hh; lia|].
  intros i Hi. destruct (W6 i Hi) as [[Hn Hvi]|(bs & Hb & Hvi)].
  - specialize (Hv i Hi). unfold value_at at 2 in Hvi. cbn in Hvi. rewrite Hv in Hvi. case_decide as Hd.
    + right. exists v. subst i. split; [by left|done].
    + left. split; [|done]. cbn. by rewrite not_elem_of_cons.
  - right. exists bs. split; [by right|done].
Qed.

(** The world in which a commit is written. *)
Definition commit_world (W : world) (B : list (HashId * bytes)) (cid : HashId) (l : dir) : world :=
  mkWorld (nodes W) (nkey W) (nent W) (hashed W) (ids W) (valued W ∪ list_to_set B.*1)
    (<[cid := l]> (commits W)) (filed W).

Lemma commit_world_ext W B cid l : commits W !! cid = None -> W ⊑w commit_world W B cid l.
Proof. intros Hn. split; try done; cbn; [set_solver|by apply insert_subseteq]. Qed.

Lemma id_valid W r id c : repo_ok pfuel W r -> ids W !! id = Some c -> valid_id id /\ id <= zlen (hashes (store r)).
Proof.
  intros Hr Hd. destruct (r_ids _ _ _ Hr _ _ Hd) as (h & _ & Hh).
  destruct (r_hash _ _ _ Hr _ _ Hh) as [Hle Hl%lookup_lt_Some]. pose proof (r_len _ _ _ Hr).
  unfold valid_id, zlen in *. lia.
Qed.

Lemma pshape_valid W r (cv : Z -> Prop) c e : repo_ok pfuel W r -> pshape W cv c e -> sentry_ok e.
Proof.
  intros Hr Hs. destruct c as [v|l], e as [ns| |]; try done. destruct Hs as [_ Hp]. cbn. apply Forall_forall.
  intros kn Hkn. destruct (pairwise_in _ _ _ kn.2 Hp (list_elem_of_fmap_2 snd _ _ Hkn)) as (c & _ & _ & Hi & _).
  by eapply id_valid.
Qed.

Context (W : world) (cid : HashId) (cm : Commit) (l : dir) (new : list (HashId * bytes)).
Abbreviation B := ((cid, bincode_serialize (SCommit cm)) :: new).
Abbreviation W' := (commit_world W new cid l).

(** The batch of a commit, ready to be written. *)
Record ready (s : St) : Prop := mkReady {
  y_inv : invc pfuel (covers W B) W s;
  y_new : Forall (batch_ok W (covers W B)) new;
  y_root : ids W !! root_hash cm = Some (CDir l);
  y_covered : root_hash cm ∈ valued W \/ root_hash cm ∈ new.*1;
  y_valid : sentry_ok (SCommit cm);
  y_hashed : is_Some (hashed W !! cid);
  y_fresh : ids W !! cid = None /\ commits W !! cid = None;
}.

Lemma commit_valued i : i ∈ valued W' <-> i ∈ valued W \/ i ∈ new.*1.
Proof. cbn. by rewrite elem_of_union, elem_of_list_to_set. Qed.

Lemma covers_valued s i c : ready s -> covers W B i -> ids W !! i = Some c -> i ∈ valued W'.
Proof.
  intros Hy [Hv|Hv] Hi; apply commit_valued; [by left|]. cbn in Hv.
  apply elem_of_cons in Hv as [->|Hv]; [|by right].
  destruct (y_fresh _ Hy). congruence.
Qed.

Lemma pshape_shape s c e : ready s -> pshape W (covers W B) c e -> shape W' c e.
Proof.
  intros Hy. destruct c, e; try done. intros [Hs Hp]. split; [done|]. revert Hp.
  apply pairwise_impl, Forall_forall. intros kc _ n (Hk & Hi & Hc). split; [done|]. split; [done|].
  by eapply covers_valued.
Qed.

Lemma new_not_cid s i : ready s -> i ∈ new.*1 -> i <> cid.
Proof.
  intros Hy (ib & Ei & Hin)%list_elem_of_fmap Ec. pose proof (y_new _ Hy) as Hn. rewrite Forall_forall in Hn.
  destruct (Hn _ Hin) as (c & e & Hi & _). destruct (y_fresh _ Hy). congruence.
Qed.

Lemma commit_repo_ok s r' : ready s -> written B (repo s) r' -> repo_ok pfuel W' r'.
Proof.
  intros Hy [V1 V2 V3 V4 V5 V6]. pose proof (inv_repo _ _ _ _ (y_inv _ Hy)) as Hr.
  pose proof (commit_world_ext W new cid l (proj2 (y_fresh _ Hy))) as He.
  pose proof Hr as [R1 R2 R3 R4 R5 R6 R7 R8 R9]. pose proof (y_new _ Hy) as Hnew. rewrite Forall_forall in Hnew.
  split; cbn.
  - intros id h Hh. rewrite V1. by apply R1.
  - done.
  - intros id c Hi Hv. destruct (id_valid _ _ _ _ Hr Hi) as [[Hpos _] _].
    destruct (V6 id Hpos) as [[Hn Hval]|(bs & Hin & Hval)].
    + apply not_elem_of_cons in Hn as [_ Hn]. assert (id ∈ valued W) as Hvw by (apply commit_valued in Hv; tauto).
      destruct (R3 _ _ Hi Hvw) as (bs & e & Hb & Hd & Hs). exists bs, e. rewrite Hval. split; [done|].
      split; [done|]. by eapply shape_mono.
    + apply elem_of_cons in Hin as [[= -> ->]|Hin]; [destruct (y_fresh _ Hy); congruence|].
      destruct (Hnew _ Hin) as (c' & e & Hi' & Hb & Hs). cbn in Hi', Hb. rewrite Hi in Hi'. injection Hi' as <-.
      subst bs. eexists _, e. split; [exact Hval|]. split; [|by eapply pshape_shape].
      apply bincode_roundtrip. by eapply pshape_valid.
  - intros id l' Hc. apply lookup_insert_Some in Hc as [[<- <-]|[Hne Hc]].
    + destruct (y_hashed _ Hy) as [h Hh]. destruct (R1 _ _ Hh) as [Hpos _]. split; [apply (y_fresh _ Hy)|].
      split; [by eexists|]. exists (bincode_serialize (SCommit cm)), cm.
      assert (value_at r' cid = Some (bincode_serialize (SCommit cm))) as Hval.
      { destruct (V6 cid Hpos) as [[Hn _]|(bs & Hin & Hval)].
        - cbn in Hn. rewrite not_elem_of_cons in Hn. tauto.
        - apply elem_of_cons in Hin as [[= ->]|Hin]; [done|].
          by apply (list_elem_of_fmap_2 fst) in Hin as Hc%(new_not_cid _ _ Hy). }
      split; [done|]. split; [apply bincode_roundtrip, (y_valid _ Hy)|]. split; [apply (y_root _ Hy)|].
      apply commit_valued, (y_covered _ Hy).
    + destruct (R4 _ _ Hc) as (Hi & [h Hh] & bs & cm' & Hb & Hd & Hr' & Hv). split; [done|]. split; [by eexists|].
      destruct (R1 _ _ Hh) as [Hpos _]. exists bs, cm'. split; [|split; [done|split; [done|by apply commit_valued; left]]].
      destruct (V6 id Hpos) as [[_ Hval]|(bs' & Hin & _)]; [by rewrite Hval|].
      apply elem_of_cons in Hin as [[= -> _]|Hin]; [done|]. destruct (Hnew _ Hin) as (c' & e & Hi' & _). cbn in Hi'. congruence.
  - intros id Hv. apply elem_of_union in Hv as [Hv|Hv]; [by apply R5|]. apply elem_of_list_to_set in Hv.
    apply list_elem_of_fmap in Hv as (ib & -> & Hin). destruct (Hnew _ Hin) as (c' & e & Hi' & _). by eexists.
  - unfold free_list. by rewrite V2.
  - intros id Hin. unfold free_list in Hin. rewrite V2 in Hin. destruct (R7 id Hin) as [Hb Hh]. split; [lia|done].
  - rewrite V1 in *. specialize (V5 (proj1 R8)). lia.
  - congruence.
Qed.

Lemma commit_written s : ready s -> exists r', Mem.write_batch B (repo s) = Ok r' /\
  hashes (store r') = hashes (store (repo s)) /\ inv pfuel W' (set_repo r' s).
Proof.
  intros Hy. pose proof (inv_repo _ _ _ _ (y_inv _ Hy)) as Hr.
  destruct (write_batch_run B (repo s)) as (r' & Er & Hw).
  { apply Forall_cons. split.
    - destruct (y_hashed _ Hy) as [h Hh]. destruct (r_hash _ _ _ Hr _ _ Hh) as [Hp Hl%lookup_lt_Some].
      cbn. unfold zlen. lia.
    - eapply Forall_impl; [apply (y_new _ Hy)|]. intros ib (c & e & Hi & _).
      destruct (id_valid _ _ _ _ Hr Hi) as [[Hp _] Hle]. done. }
  exists r'. split; [done|]. split; [by apply Hw|].
  pose proof (commit_world_ext W new cid l (proj2 (y_fresh _ Hy))) as He.
  destruct (y_inv _ Hy) as [I1 I2 I2' I3 I4]. split; try done; [|by apply (commit_repo_ok s)].
  intros a c n Hc Hn. pose proof (I3 a c n Hc Hn) as Ho. apply (node_ok_mono _ W); try done.
  destruct Ho as [O1 O2 O3 O3' O4 O5 O6 O7]. split; try done. intros Hcm. destruct (O6 Hcm) as (i & Ei & Hi).
  exists i. split; [done|]. eapply covers_valued; [done..|]. by apply O4.
Qed.
End Write.

(** ** Preparing a commit *)
Section Prepare.
Context `{OrdMapCrate, BincodeCrate, Blake2Crate, Leb128Crate} (pfuel fuel : nat).
Abbreviation inv := (inv pfuel).

(** The hash of a commit from the hashes of its root and its parent. *)
Definition commit_hash_of (root : EntryHash) (parent : option EntryHash) (time : Z) (author message : bytes)
  : EntryHash :=
  blake2b (u64_bytes ENTRY_HASH_LEN ++ root ++
    match parent with Some h => u64_bytes 1 ++ u64_bytes (zlen h) ++ h | None => u64_bytes 0 end ++
    u64_bytes time ++ u64_bytes (zlen author) ++ author ++ u64_bytes (zlen message) ++ message).

Definition parent_rep (W : world) (hp : option EntryHash) (parent : option HashId) : Prop :=
  match hp, parent with Some h, Some id => hashed W !! id = Some h | None, None => True | _, _ => False end.

Lemma parent_mono W W' hp parent : W ⊑w W' -> parent_rep W hp parent -> parent_rep W' hp parent.
Proof. intros He. destruct hp, parent; try done. by apply hashed_mono. Qed.

Lemma hash_commit_yields W s cm hr hp : inv W s -> hashed W !! root_hash cm = Some hr ->
  parent_rep W hp (parent_commit_hash cm) ->
  yields pfuel full (hash_commit cm) W s (fun W' id =>
    new_hash W (commit_hash_of hr hp (time cm) (author cm) (message cm)) W' id).
Proof.
  intros Hi Hr Hp. unfold hash_commit. eapply yields_bind; [by eapply store_get_hash_yields|].
  intros W1 o s1 _ [-> ->] Hi1. apply yields_lift_bind.
  eapply (yields_bind _ _ _ _ _ _ _ (fun W' bs => W' = W /\
    bs = match hp with Some h => u64_bytes 1 ++ u64_bytes (zlen h) ++ h | None => u64_bytes 0 end)).
  { destruct hp as [h|], (parent_commit_hash cm) as [p|]; try done; [|by apply yields_ret].
    eapply yields_bind; [by eapply store_get_hash_yields|]. intros W1 o s2 _ [-> ->] Hi2.
    apply yields_lift_bind. by apply yields_ret. }
  intros W1 bs s2 _ [-> ->] Hi2. eapply yields_mono; [by apply write_new_hash|]. by intros W1 id _ [Hn _].
Qed.

Lemma root_hash_yields W s l w h : inv W s -> wt_rep W l w -> (depths l < fuel)%nat ->
  content_hash pfuel (CDir l) = Some h ->
  yields pfuel full (WT.get_working_tree_root_hash pfuel fuel w) W s (fun W' id =>
    new_hash W h W' id /\ keyed W' (ETree (WT.get_working_tree_root_ref w))).
Proof.
  intros Hi Hw Hd Hh. unfold WT.get_working_tree_root_hash.
  eapply yields_mono; [eapply (hash_tree_yields _ _ fuel); try done|by intros W1 id _ (? & ? & _)].
  intros W0 s0 c a h0 Hi0 Hc Hd0 Hh0. eapply yields_mono; [by eapply entry_hash_id_yields|].
  intros W1 id _ (? & ? & Hb). split; [done|]. split; [done|]. eapply below_weaken; [|exact Hb]. lia.
Qed.

Lemma parent_valid W r hp parent : repo_ok pfuel W r -> parent_rep W hp parent ->
  match parent with Some p => valid_id p | None => True end.
Proof.
  intros Hr Hp. destruct hp as [h|], parent as [p|]; try done. cbn in Hp.
  destruct (r_hash _ _ _ Hr _ _ Hp) as [Hle Hl%lookup_lt_Some]. pose proof (r_len _ _ _ Hr).
  unfold valid_id, zlen in *. lia.
Qed.

(** The commit's own entry comes first. *)
Lemma commit_entry rf cm cid t s : fuel = S rf ->
  WT.get_entries_recursively pfuel fuel true fuel (ECommit cm) cid (Some t) (WT.mkData [] []) s =
  WT.get_entries_recursively pfuel fuel true rf (ETree t) (root_hash cm) None
    (WT.mkData [(cid, bincode_serialize (SCommit cm))] []) s.
Proof. intros Ef. rewrite Ef at 2. reflexivity. Qed.

Lemma prepare_commit_run W s l w h hp parent time author message : inv W s -> wt_rep W l w ->
  content_hash pfuel (CDir l) = Some h -> (S (S (depths l)) < fuel)%nat -> parent_rep W hp parent ->
  match WT.prepare_commit pfuel fuel time author message parent true w s with
  | (Err _, s') => full s' /\ exists W', W ⊑w W' /\ inv W' s'
  | (Ok (cid, data), s') => exists W1 cm new, W ⊑w W1 /\
      WT.batch data = (cid, bincode_serialize (SCommit cm)) :: new /\ ready pfuel W1 cid cm l new s' /\
      hashed W1 !! cid = Some (commit_hash_of h hp time author message)
  end.
Proof.
  intros Hi Hw Hh Hd Hp. assert (depths l < fuel)%nat as Hd' by lia. unfold WT.prepare_commit, mbind, M_bind, mapE.
  destruct (root_hash_yields W s l w h Hi Hw Hd' Hh) as (W1 & He1 & Hi1 & Hm1).
  destruct (WT.get_working_tree_root_hash pfuel fuel w s) as [[rid|e] s1]; cbn in Hi1, Hm1; [|by eauto].
  destruct Hm1 as [Hn1 Hk1]. destruct (name_id _ _ _ _ _ _ _ _ Hi1 Hn1 Hh) as [He2 Hi2].
  set (W2 := add_id rid (CDir l) W1) in *. set (cm := mkCommit parent rid time author message).
  assert (hashed W2 !! root_hash cm = Some h) as Hr2 by apply Hn1.
  assert (W ⊑w W2) as He12 by (by etrans). pose proof (parent_mono _ _ _ _ He12 Hp) as Hp2.
  destruct (hash_commit_yields W2 s1 cm h hp Hi2 Hr2 Hp2) as (W3 & He3 & Hi3 & Hm3).
  destruct (hash_commit cm s1) as [[cid|e] s2]; cbn in Hi3, Hm3;
    [|by split; [|exists W3; split; [etrans|]]].
  assert (ids W3 !! rid = Some (CDir l)) as Hrid by (apply (ids_mono W2); [done|apply lookup_insert_eq]).
  pose proof (inv_repo _ _ _ _ Hi3) as Hr3. destruct Hm3 as (Hc1 & Hc2 & Hc3 & Hc4).
  assert (exists rf, fuel = S rf /\ (S (depths l) < rf)%nat) as (rf & Ef & Hrf) by (exists (pred fuel); lia).
  rewrite (commit_entry rf) by done.
  set (d0 := WT.mkData [(cid, _)] []). set (t := WT.get_working_tree_root_ref w) in *.
  destruct (entries_walked pfuel fuel ltac:(lia) W3 rf (CDir l) (ETree t) rid d0 s2)
    as (d1 & s3 & new & Er & Erp & Eb & Hi4 & Hnew & Hcov).
  - by rewrite depth_dir.
  - cbn. eapply tree_rep_mono; [exact He3|]. exact (tree_rep_mono W W2 l t He12 Hw).
  - by apply (keyed_mono W2 W3).
  - done.
  - revert Hi3. apply invc_weaken. intros i Hv. by do 2 left.
  - cbn. cbn in Er. rewrite Er. exists W3, cm, new. split; [by etrans|]. rewrite Eb in *. split; [done|].
    split; [|done]. split; try done.
    + destruct Hcov as [Hv|Hv]; [by left|right]. cbn in Hv. apply elem_of_cons in Hv as [->|Hv]; [congruence|done].
    + split; [by apply (id_valid pfuel W3 _ rid (CDir l) Hr3)|].
      eapply parent_valid; [exact Hr3|]. by apply (parent_mono W2).
Qed.
End Prepare.
