(* ===== verification/TezedgeContext.v ===== *)
(** * Contexts and the index ([new_context/src/tezedge_context.rs])

    A context is a working tree with the commit it comes from.  Committing hashes
    the tree, writes the entries that are not written yet and files the commit
    under its hash; checking out loads the tree of a commit again.  The system is
    the repository, which the index shares, and the collector's thread. *)

From Stdlib Require Import ZArith Lia List Bool Ascii String.
From stdpp Require Import base option list numbers strings gmap.
From S2P Require Import Prelude Spsc CryptoHash ContextStore ContextHash WorkingTree.

Inductive ContextError : Type :=
| UnknownContextHashAndEntryError
| UnknownContextHashError (context_hash : bytes)
| MerkleStorageError (error : MerkleError)
| InvalidCommitDate
| HashConversionError
| HashError (error : FromBytesError)
| CGarbageCollectionError
| CDBError (error : DBError)
| CSerializationError
| CFoundUnexpectedStructure (sought found : string)
| CLockError.

(** [tree_id_generator] is the location of the shared counter. *)
Record TezedgeContext `{OrdMapCrate} : Type := mkContext {
  parent_commit : option HashId;
  tree_id : Z;
  tree_id_generator : nat;
  ctx_tree : WorkingTree;
}.
Arguments mkContext {_} _ _ _ _.
Arguments parent_commit {_} _.
Arguments tree_id {_} _.
Arguments tree_id_generator {_} _.
Arguments ctx_tree {_} _.

Module Ctx.
Section Ops.
Context `{OrdMapCrate, BincodeCrate, DefaultHasher}.

(** [TreeIdGenerator::next] on an [i32]. *)
Definition next_tree_id {E} (g : nat) : M E Z := fun s =>
  let id := swrap 32 (default 0 (tree_ids s !! g) + 1) in
  (Ok id, mkSt (heap s) (repo s) (strings s) (<[g := id]> (tree_ids s))).

Definition new {E} (parent : option HashId) (tree : option WorkingTree) : M E TezedgeContext := fun s =>
  let g := length (tree_ids s) in
  (id ← next_tree_id g;
   mret (mkContext parent id g (default WT.new tree)))
    (mkSt (heap s) (repo s) (strings s) (tree_ids s ++ [0])).

Definition with_tree {E} (tree : WorkingTree) (c : TezedgeContext) : M E TezedgeContext :=
  id ← next_tree_id (tree_id_generator c);
  mret (mkContext (parent_commit c) id (tree_id_generator c) tree).

(** *** [ProtocolContextApi] *)
Abbreviation merkle m := (mapE MerkleStorageError m).

Definition add (key : ContextKey) (value : ContextValue) (c : TezedgeContext)
  : M ContextError TezedgeContext :=
  tree ← merkle (WT.add key value (ctx_tree c)); with_tree tree c.
Definition delete (key : ContextKey) (c : TezedgeContext) : M ContextError TezedgeContext :=
  tree ← merkle (WT.delete key (ctx_tree c)); with_tree tree c.
Definition copy (from_key to_key : ContextKey) (c : TezedgeContext)
  : M ContextError (option TezedgeContext) :=
  tree ← merkle (WT.copy from_key to_key (ctx_tree c));
  match tree with
  | Some tree => c ← with_tree tree c; mret (Some c)
  | None => mret None
  end.
Definition find (key : ContextKey) (c : TezedgeContext) : M ContextError (option ContextValue) :=
  merkle (WT.find key (ctx_tree c)).
Definition mem (key : ContextKey) (c : TezedgeContext) : M ContextError bool :=
  merkle (WT.mem key (ctx_tree c)).
Definition mem_tree (key : ContextKey) (c : TezedgeContext) : M ContextError bool :=
  merkle (WT.mem_tree key (ctx_tree c)).
Definition find_tree (key : ContextKey) (c : TezedgeContext) : M ContextError (option WorkingTree) :=
  merkle (WT.find_tree key (ctx_tree c)).
Definition add_tree (key : ContextKey) (tree : WorkingTree) (c : TezedgeContext)
  : M ContextError TezedgeContext :=
  tree ← merkle (WT.add_tree key tree (ctx_tree c)); with_tree tree c.
Definition empty (c : TezedgeContext) : M ContextError TezedgeContext :=
  with_tree (WT.empty (ctx_tree c)) c.
Definition list_children (offset length : option Z) (key : ContextKey) (c : TezedgeContext)
  : M ContextError (list (string * WorkingTree)) :=
  merkle (WT.list_children offset length key (ctx_tree c)).
Definition fold_iter (depth : option FoldDepth) (key : ContextKey) (c : TezedgeContext)
  : M ContextError Walker.t :=
  merkle (fold_iter depth key (ctx_tree c)).

(** *** [ShellContextApi] *)
Section Shell.
Context `{Blake2Crate, Leb128Crate} (pfuel fuel : nat).

Definition get_merkle_root (c : TezedgeContext) : M ContextError EntryHash :=
  merkle (WT.hash pfuel fuel (ctx_tree c)).

Definition get_commit_hash (id : HashId) : M ContextError bytes :=
  h ← mapE CDBError (get_hash id);
  h ← lift (ok_or h (MerkleStorageError (EntryNotFound id)));
  lift (map_err HashError (hash_from_bytes ContextHash h)).

(** A change of the repository that can fail. *)
Definition update_repo (f : InMemory -> result DBError InMemory) : M ContextError unit := fun s =>
  match f (repo s) with
  | Ok r => (Ok tt, set_repo r s)
  | Err e => (Err (CDBError e), s)
  end.

(** [i64::try_into::<u64>]. *)
Definition commit_date (date : Z) : M ContextError Z :=
  if date <? 0 then throw InvalidCommitDate else mret date.

Definition commit (author message : bytes) (date : Z) (c : TezedgeContext) : M ContextError bytes :=
  date ← commit_date date;
  '(id, data) ← merkle (WT.prepare_commit pfuel fuel date author message (parent_commit c) true (ctx_tree c));
  update_repo (Mem.write_batch (WT.batch data));;
  update_repo (Mem.put_context_hash id);;
  update_repo (fun r => Ok (Mem.block_applied (WT.referenced_older_entries data) r));;
  get_commit_hash id.

(** [hash]: the hash the commit would have. *)
Definition hash (author message : bytes) (date : Z) (c : TezedgeContext) : M ContextError bytes :=
  date ← commit_date date;
  '(id, _) ← merkle (WT.prepare_commit pfuel fuel date author message (parent_commit c) false (ctx_tree c));
  get_commit_hash id.
End Shell.

Definition get_last_commit_hash (c : TezedgeContext) : M ContextError (option bytes) :=
  match parent_commit c with
  | Some id => mapE CDBError (find_entry_bytes id)
  | None => mret None
  end.
End Ops.
End Ctx.

(** ** [IndexApi] *)
Module Index.
Section Ops.
Context `{OrdMapCrate, BincodeCrate, DefaultHasher}.

Definition context_id {E} (context_hash : bytes) : M E (option HashId) :=
  read (fun s => Mem.get_context_hash context_hash (repo s)).

Definition exists_commit (context_hash : bytes) : M ContextError bool :=
  id ← context_id context_hash;
  match id with
  | None => mret false
  | Some id =>
      e ← mapE CDBError (find_entry id);
      mret (match e with Some (ECommit _) => true | _ => false end)
  end.

Definition checkout (context_hash : bytes) : M ContextError (option TezedgeContext) :=
  id ← context_id context_hash;
  match id with
  | None => mret None
  | Some id =>
      commit ← mapE CDBError (find_commit id);
      match commit with
      | None => mret None
      | Some commit =>
          tree ← mapE CDBError (find_tree_by_id (root_hash commit));
          match tree with
          | None => mret None
          | Some tree => c ← Ctx.new (Some id) (Some (WTree tree)); mret (Some c)
          end
      end
  end.

Definition block_applied (referenced_older_entries : list HashId) : M ContextError unit :=
  modify (fun s => set_repo (Mem.block_applied referenced_older_entries (repo s)) s).
Definition cycle_started : M ContextError unit :=
  modify (fun s => set_repo (Mem.new_cycle_started (repo s)) s).

(** A context hash that is not filed is an error here. *)
Definition known_id (context_hash : bytes) : M ContextError HashId :=
  id ← context_id context_hash;
  lift (ok_or id (UnknownContextHashError context_hash)).

Definition get_key_from_history (context_hash : bytes) (key : ContextKey)
  : M ContextError (option ContextValue) :=
  id ← known_id context_hash;
  settle (fun r =>
    match r with
    | Err (ValueNotFound _) | Err (EntryNotFound _) => Ok None
    | Err err => Err (MerkleStorageError err)
    | Ok val => Ok (Some val)
    end) (get_history id key).

Definition get_key_values_by_prefix (fuel : nat) (context_hash : bytes) (prefix : ContextKey)
  : M ContextError (option (list (ContextKey * ContextValue))) :=
  id ← known_id context_hash;
  context ← checkout context_hash;
  match context with
  | None => mret None
  | Some _ => mapE MerkleStorageError (get_key_values_by_prefix fuel id prefix)
  end.

Definition get_context_tree_by_prefix (fuel : nat) (context_hash : bytes) (prefix : ContextKey)
  (depth : option Z) : M ContextError StringTreeEntry :=
  id ← known_id context_hash;
  mapE MerkleStorageError (get_context_tree_by_prefix fuel id prefix depth).
End Ops.
End Index.

(** ** The system *)
Module Sys.
Section Ops.
Context `{OrdMapCrate, BincodeCrate}.

Record t : Type := mkSys { st : St; gc : GCThread }.

Definition start : t := mkSys (mkSt [] (Mem.new false) ∅ []) Gc.new.

(** The collector receives one command, when there is one. *)
Definition gc_step (s : t) : option t :=
  let r := repo (st s) in
  match sender r, free_ids (store r) with
  | Some (c :: commands), Some q =>
      '(gc', q') ← Gc.handle c (gc s) q;
      let store' := mkHvs (hashes (store r)) (values (store r)) (Some q') (new_ids (store r)) in
      Some (mkSys
        (set_repo (mkInMemory (current_cycle r) store' (Some commands) (context_hashes r)
                     (context_hashes_cycles r)) (st s)) gc')
  | _, _ => Some s
  end.
End Ops.
End Sys.
