(* ===== verification/ContextSpec.v ===== *)
(** * What contexts promise

    A client holds contexts and calls their operations in any order.  [spec_step]
    answers the calls from contents alone: a context is a directory with the hash of
    the commit it comes from, and committed directories are filed by the hash of
    their commit.  [ctx_step] runs the code.  The two answer the same, the hashes
    included, until the repository has no ids left. *)

From Stdlib Require Import ZArith Lia List Bool Ascii String.
From stdpp Require Import base option list numbers strings gmap sorting.
From S2P Require Import Prelude Spsc Types CryptoHash ContextStore ContextHash OrdMapFacts ContextContent.
From S2P Require Import WorkingTree ContextRep ContextEdit ContextWalk ContextHashing ContextCommit TezedgeContext.

Set Warnings "-register-all".

(** ** Calls and answers *)
Inductive call : Type :=
| CAdd (i : nat) (key : ContextKey) (value : ContextValue)
| CDelete (i : nat) (key : ContextKey)
| CCopy (i : nat) (from_key to_key : ContextKey)
| CGraft (i : nat) (key : ContextKey) (j : nat) (from_key : ContextKey)
| CEmpty (i : nat)
| CFind (i : nat) (key : ContextKey)
| CMem (i : nat) (key : ContextKey)
| CMemTree (i : nat) (key : ContextKey)
| CList (i : nat) (offset length : option Z) (key : ContextKey)
| CFold (i : nat) (depth : option FoldDepth) (key : ContextKey)
| CRoot (i : nat)
| CCommit (i : nat) (author message : bytes) (date : Z)
| CCheckout (context_hash : bytes)
| CExists (context_hash : bytes)
| CHistory (context_hash : bytes) (key : ContextKey).

(** A listing shows the values; trees are [None]. *)
Inductive reply : Type :=
| NoContext
| RContext (r : result ContextError bool)
| RValue (r : result ContextError (option ContextValue))
| RBool (r : result ContextError bool)
| RList (r : result ContextError (list (string * option ContextValue)))
| RFold (r : result ContextError (list (ContextKey * option ContextValue)))
| RHash (r : result ContextError EntryHash).

(** ** The specification *)
Record sctx : Type := mkSctx { sdir : dir; sparent : option EntryHash }.
Record spec_state : Type := mkSpec { contexts : list sctx; book : gmap Z (dir * EntryHash) }.

Section Spec.
Context `{DefaultHasher, Blake2Crate, Leb128Crate} (pfuel : nat).

(** A new context is kept after the others. *)
Definition keep (c : sctx) (d : result MerkleError dir) (st : spec_state) : reply * spec_state :=
  match d with
  | Ok d => (RContext (Ok true), mkSpec (contexts st ++ [mkSctx d (sparent c)]) (book st))
  | Err e => (RContext (Err (MerkleStorageError e)), st)
  end.

Definition merkle_reply {A} (r : result MerkleError A) : result ContextError A := map_err MerkleStorageError r.

Definition shown (c : content) : option ContextValue := match c with CBlob v => Some v | CDir _ => None end.

Definition with_context (i : nat) (st : spec_state) (f : sctx -> reply * spec_state) : reply * spec_state :=
  match contexts st !! i with Some c => f c | None => (NoContext, st) end.

Definition spec_hash (l : dir) : EntryHash := default [] (content_hash pfuel (CDir l)).

Definition spec_commit (author message : bytes) (date : Z) (c : sctx) (st : spec_state) : reply * spec_state :=
  if date <? 0 then (RHash (Err InvalidCommitDate), st)
  else
    let h := commit_hash_of (spec_hash (sdir c)) (sparent c) date author message in
    (RHash (Ok h), mkSpec (contexts st) (<[default_hash h := (sdir c, h)]> (book st))).

Definition spec_step (o : call) (st : spec_state) : reply * spec_state :=
  match o with
  | CAdd i key v => with_context i st (fun c => keep c (root_answer (set_at (sdir c) key (CBlob v))) st)
  | CDelete i key => with_context i st (fun c => keep c (Ok (delete_at (sdir c) key)) st)
  | CCopy i from_key to_key => with_context i st (fun c => keep c (copy_spec (sdir c) from_key to_key) st)
  | CGraft i key j from_key =>
      with_context i st (fun c => with_context j st (fun c' =>
        match find_tree_spec (sdir c') from_key with
        | Some d => keep c (root_answer (set_at (sdir c) key (CDir d))) st
        | None => (RContext (Ok false), st)
        end))
  | CEmpty i => with_context i st (fun c => keep c (Ok []) st)
  | CFind i key => with_context i st (fun c => (RValue (merkle_reply (find_spec (sdir c) key)), st))
  | CMem i key => with_context i st (fun c => (RBool (merkle_reply (mem_spec (sdir c) key)), st))
  | CMemTree i key => with_context i st (fun c => (RBool (Ok (mem_tree_spec (sdir c) key)), st))
  | CList i offset length key =>
      with_context i st (fun c => (RList (Ok (prod_map id shown <$> list_spec offset length (sdir c) key)), st))
  | CFold i depth key =>
      with_context i st (fun c => (RFold (Ok (prod_map id shown <$> fold_spec depth (sdir c) key)), st))
  | CRoot i => with_context i st (fun c => (RHash (Ok (spec_hash (sdir c))), st))
  | CCommit i author message date => with_context i st (fun c => spec_commit author message date c st)
  | CCheckout h =>
      match book st !! default_hash h with
      | Some (l, h') => (RContext (Ok true), mkSpec (contexts st ++ [mkSctx l (Some h')]) (book st))
      | None => (RContext (Ok false), st)
      end
  | CExists h => (RBool (Ok (bool_decide (is_Some (book st !! default_hash h)))), st)
  | CHistory h key =>
      match book st !! default_hash h with
      | Some (l, _) => (RValue (merkle_reply (find_spec l key)), st)
      | None => (RValue (Err (UnknownContextHashError h)), st)
      end
  end.

(** Directories that are hashed are not nested deeper than the fuel, and their
    partitions end; a walk takes no more steps than the fuel. *)
Definition fits (fuel : nat) (l : dir) : bool :=
  bool_decide (S (S (depths l)) < fuel)%nat && bool_decide (is_Some (content_hash pfuel (CDir l))).

Definition call_fits (fuel : nat) (o : call) (st : spec_state) : bool :=
  match o with
  | CRoot i | CCommit i _ _ _ => match contexts st !! i with Some c => fits fuel (sdir c) | None => true end
  | CFold i _ key =>
      match contexts st !! i with
      | Some c => bool_decide (steps (CDir (raw (sdir c) key)) <= fuel)%nat
      | None => true
      end
  | _ => true
  end.

Fixpoint calls_fit (fuel : nat) (ops : list call) (st : spec_state) : bool :=
  match ops with
  | [] => true
  | o :: ops => call_fits fuel o st && calls_fit fuel ops (spec_step o st).2
  end.
End Spec.

(** ** The code *)
Section Code.
Context `{OrdMapCrate, BincodeCrate, DefaultHasher, Blake2Crate, Leb128Crate} (pfuel fuel : nat).

Definition code_state : Type := list TezedgeContext * St.

Definition push (m : M ContextError (option TezedgeContext)) (st : code_state) : reply * code_state :=
  match m st.2 with
  | (Ok (Some c), s) => (RContext (Ok true), (st.1 ++ [c], s))
  | (Ok None, s) => (RContext (Ok false), (st.1, s))
  | (Err e, s) => (RContext (Err e), (st.1, s))
  end.
Definition query {A} (f : result ContextError A -> reply) (m : M ContextError A) (st : code_state)
  : reply * code_state :=
  let (r, s) := m st.2 in (f r, (st.1, s)).

Definition on_context (i : nat) (st : code_state) (f : TezedgeContext -> code_state -> reply * code_state)
  : reply * code_state :=
  match st.1 !! i with Some c => f c st | None => (NoContext, st) end.

Definition shown_tree (w : WorkingTree) : option ContextValue :=
  match w with WValue v => Some v | WTree _ => None end.

Definition ctx_step (o : call) (st : code_state) : reply * code_state :=
  match o with
  | CAdd i key v => on_context i st (fun c => push (c ← Ctx.add key v c; mret (Some c)))
  | CDelete i key => on_context i st (fun c => push (c ← Ctx.delete key c; mret (Some c)))
  | CCopy i from_key to_key => on_context i st (fun c => push (Ctx.copy from_key to_key c))
  | CGraft i key j from_key =>
      on_context i st (fun c st => on_context j st (fun c' => push (
        tree ← Ctx.find_tree from_key c';
        match tree with
        | Some tree => c ← Ctx.add_tree key tree c; mret (Some c)
        | None => mret None
        end)))
  | CEmpty i => on_context i st (fun c => push (c ← Ctx.empty c; mret (Some c)))
  | CFind i key => on_context i st (fun c => query RValue (Ctx.find key c))
  | CMem i key => on_context i st (fun c => query RBool (Ctx.mem key c))
  | CMemTree i key => on_context i st (fun c => query RBool (Ctx.mem_tree key c))
  | CList i offset length key =>
      on_context i st (fun c => query RList (l ← Ctx.list_children offset length key c;
        mret (prod_map id shown_tree <$> l)))
  | CFold i depth key =>
      on_context i st (fun c => query RFold (
        walker ← Ctx.fold_iter depth key c;
        l ← mapE MerkleStorageError (Walker.collect fuel fuel walker);
        mret (prod_map id shown_tree <$> l)))
  | CRoot i => on_context i st (fun c => query RHash (Ctx.get_merkle_root pfuel fuel c))
  | CCommit i author message date =>
      on_context i st (fun c => query RHash (Ctx.commit pfuel fuel author message date c))
  | CCheckout h => push (Index.checkout h) st
  | CExists h => query RBool (Index.exists_commit h) st
  | CHistory h key => query RValue (Index.get_key_from_history h key) st
  end.

(** The same answers, until the repository has no ids left. *)
Fixpoint agrees (ops : list call) (st : code_state) (sp : spec_state) : Prop :=
  match ops with
  | [] => True
  | o :: ops =>
      ((ctx_step o st).1 = (spec_step pfuel o sp).1 /\
       agrees ops (ctx_step o st).2 (spec_step pfuel o sp).2) \/
      full (ctx_step o st).2.2
  end.

(** A process that was just started, with an empty context. *)
Definition first_context (gc_disabled : bool) : code_state :=
  match Ctx.new (E := ContextError) None None (mkSt [] (Mem.new gc_disabled) ∅ []) with
  | (Ok c, s) => ([c], s)
  | (Err _, s) => ([], s)
  end.
Definition first_spec : spec_state := mkSpec [mkSctx [] None] ∅.
End Code.
