(* ===== verification/ContextRefine.v ===== *)
(** * Contexts keep their promise

    The simulation between the code and the specification of [ContextSpec.v]: a
    world relates the contexts a client holds and the commits that are filed to
    their directories. *)

From Stdlib Require Import ZArith Lia List Bool Ascii String.
From stdpp Require Import base option list numbers strings gmap sorting.
From S2P Require Import Prelude Spsc Types CryptoHash ContextStore ContextGc ContextHash OrdMapFacts ContextContent.
From S2P Require Import WorkingTree ContextRep ContextEdit ContextWalk ContextHashing ContextCommit TezedgeContext ContextSpec.

Set Warnings "-register-all".

Section Sim.
Context `{OrdMapCrate, BincodeCrate, DefaultHasher, Blake2Crate, Leb128Crate} (pfuel fuel : nat).
Abbreviation inv := (inv pfuel).
Abbreviation answers m W s P r := (answers pfuel m W s P r).
Abbreviation succeeds m W s P := (yields pfuel never m W s P).

Definition ctx_rep (W : world) (a : sctx) (c : TezedgeContext) : Prop :=
  wt_rep W (sdir a) (ctx_tree c) /\ parent_rep W (sparent a) (parent_commit c).

Definition filed_rep (W : world) (x : option (dir * EntryHash)) (y : option HashId) : Prop :=
  match x, y with
  | Some (l, h), Some id => commits W !! id = Some l /\ hashed W !! id = Some h
  | None, None => True
  | _, _ => False
  end.
Definition book_rep (W : world) (b : gmap Z (dir * EntryHash)) : Prop :=
  forall k, filed_rep W (b !! k) (filed W !! k).

Record sim_in (W : world) (sp : spec_state) (st : code_state) : Prop := mkSim {
  sim_inv : inv W st.2;
  sim_contexts : Forall2 (ctx_rep W) (contexts sp) st.1;
  sim_book : book_rep W (book sp);
}.
Definition sim (sp : spec_state) (st : code_state) : Prop := exists W, sim_in W sp st.

Lemma ctx_rep_mono W W' a c : W ⊑w W' -> ctx_rep W a c -> ctx_rep W' a c.
Proof. intros He [Ht Hp]. split; [by eapply tree_rep_mono|by eapply parent_mono]. Qed.

Lemma filed_rep_mono W W' x y : W ⊑w W' -> filed_rep W x y -> filed_rep W' x y.
Proof.
  intros He. destruct x as [[l h]|], y as [id|]; try done. intros [Hc Hh].
  split; [eapply lookup_weaken; [exact Hc|apply He]|by eapply hashed_mono].
Qed.

Lemma sim_mono W W' sp p s s' : W ⊑w W' -> sim_in W sp (p, s) -> inv W' s' -> sim_in W' sp (p, s').
Proof.
  intros He [S1 S2 S3] Hi. split; [done| |].
  - eapply Forall2_impl; [exact S2|]. intros a c. by apply ctx_rep_mono.
  - intros k. rewrite <- (ext_filed _ _ He). by eapply filed_rep_mono.
Qed.

(** ** Rules *)
Lemma answers_mapE {E F A B} (f : E -> F) (m : M E A) W s (P : world -> B -> A -> Prop) r :
  answers m W s P r -> answers (mapE f m) W s P (map_err f r).
Proof.
  intros (W' & He & Hi & Hm). exists W'. unfold mapE.
  destruct (m s) as [[a|e] s'], r as [b|e']; try done. cbn in *. by subst.
Qed.

Lemma answers_then {E A B A' B'} (m : M E A) (f : A -> M E A') W s (P : world -> B -> A -> Prop) b P' (r : result E B') :
  answers m W s P (Ok b) ->
  (forall W1 a s1, W ⊑w W1 -> P W1 b a -> inv W1 s1 -> answers (f a) W1 s1 P' r) ->
  answers (m ≫= f) W s P' r.
Proof.
  intros (W1 & He & Hi & Hm) Hf. unfold ContextEdit.answers, mbind, M_bind.
  destruct (m s) as [[a|e] s1]; cbn in *; [|done].
  destruct (Hf W1 a s1 He Hm Hi) as (W2 & He2 & Hr). exists W2. split; [by etrans|done].
Qed.

Lemma inv_same W s s' : heap s' = heap s -> repo s' = repo s -> inv W s -> inv W s'.
Proof. intros Eh Er [I1 I2 I2' I3 I4]. by split; rewrite ?Eh, ?Er. Qed.

Lemma with_tree_yields {E} W s a c l t : inv W s -> ctx_rep W a c -> wt_rep W l t ->
  succeeds (Ctx.with_tree t c : M E TezedgeContext) W s (fun W' c' => ctx_rep W' (mkSctx l (sparent a)) c').
Proof.
  intros Hi [_ Hp] Ht. exists W. split; [done|]. split; [by apply (inv_same W s)|]. done.
Qed.

(** A change of a context: the new tree with the parent of the old one. *)
Lemma edit_answers W s a c m r : inv W s -> ctx_rep W a c -> answers m W s wt_rep r ->
  answers (c ← (t ← mapE MerkleStorageError m; Ctx.with_tree t c); mret (Some c)) W s (opt_rep ctx_rep)
    (d ← merkle_reply r; Ok (Some (mkSctx d (sparent a)))).
Proof.
  intros Hi Hc Hm. apply (answers_mapE MerkleStorageError) in Hm. destruct Hm as (W1 & He & Hi1 & Hm).
  unfold merkle_reply. pose proof (ctx_rep_mono _ _ _ _ He Hc) as Hc1.
  destruct (mapE MerkleStorageError m s) as [[t|e] s1] eqn:Em, (map_err MerkleStorageError r) as [d|e'];
    cbn in Hi1, Hm; try done.
  - exists W1. split; [done|]. unfold mbind, M_bind. rewrite Em. cbn. split; [by apply (inv_same W1 s1)|].
    split; [done|]. apply Hc1.
  - exists W1. split; [done|]. unfold mbind, M_bind. rewrite Em. by subst.
Qed.

(** ** One call *)
Definition spush (r : result ContextError (option sctx)) (sp : spec_state) : reply * spec_state :=
  match r with
  | Ok (Some c) => (RContext (Ok true), mkSpec (contexts sp ++ [c]) (book sp))
  | Ok None => (RContext (Ok false), sp)
  | Err e => (RContext (Err e), sp)
  end.

Lemma keep_spush c d sp : keep c d sp = spush (x ← merkle_reply d; Ok (Some (mkSctx x (sparent c)))) sp.
Proof. by destruct d. Qed.

(** The answer of the specification and a state that still agrees with it. *)
Definition stepped (r : reply * spec_state) (r' : reply * code_state) : Prop := r'.1 = r.1 /\ sim r.2 r'.2.

Lemma push_sim W sp p s m r : sim_in W sp (p, s) -> answers m W s (opt_rep ctx_rep) r ->
  stepped (spush r sp) (push m (p, s)).
Proof.
  intros Hs (W' & He & Hi & Hm). unfold push, stepped. cbn [fst snd].
  destruct (m s) as [[[c|]|e] s'], r as [[a|]|e']; try done; cbn in Hi, Hm; cbn.
  - split; [done|]. exists W'. pose proof (sim_mono _ _ _ _ _ _ He Hs Hi) as [S1 S2 S3]. split; try done.
    apply Forall2_app; [done|]. by constructor.
  - split; [done|]. exists W'. by eapply sim_mono.
  - subst e'. split; [done|]. exists W'. by eapply sim_mono.
Qed.

Lemma query_sim {A} W sp p s (m : M ContextError A) r f : sim_in W sp (p, s) -> answers m W s same r ->
  stepped (f r, sp) (query f m (p, s)).
Proof.
  intros Hs (W' & He & Hi & Hm). unfold query, stepped. cbn [fst snd].
  destruct (m s) as [a s'] eqn:Em. cbn in *. split.
  - destruct a, r; try done; by rewrite Hm.
  - exists W'. by eapply sim_mono.
Qed.

Lemma on_context_full W sp st i f g : sim_in W sp st ->
  (forall a c, contexts sp !! i = Some a -> ctx_rep W a c -> stepped (f a) (g c st) \/ full (g c st).2.2) ->
  stepped (with_context i sp f) (on_context i st g) \/ full (on_context i st g).2.2.
Proof.
  intros Hs Hf. unfold with_context, on_context. pose proof (sim_contexts _ _ _ Hs) as Hp.
  destruct (contexts sp !! i) as [a|] eqn:Ea.
  - destruct (Forall2_lookup_l _ _ _ _ _ Hp Ea) as (c & -> & Hc). by apply Hf.
  - pose proof (Forall2_length _ _ _ Hp) as Hl. apply lookup_ge_None in Ea. left.
    rewrite (lookup_ge_None_2 st.1) by lia. split; [done|by exists W].
Qed.

Lemma on_context_sim W sp st i f g : sim_in W sp st ->
  (forall a c, contexts sp !! i = Some a -> ctx_rep W a c -> stepped (f a) (g c st)) ->
  stepped (with_context i sp f) (on_context i st g).
Proof.
  intros Hs Hf. unfold with_context, on_context. pose proof (sim_contexts _ _ _ Hs) as Hp.
  destruct (contexts sp !! i) as [a|] eqn:Ea.
  - destruct (Forall2_lookup_l _ _ _ _ _ Hp Ea) as (c & -> & Hc). by apply Hf.
  - pose proof (Forall2_length _ _ _ Hp) as Hl. apply lookup_ge_None in Ea.
    rewrite (lookup_ge_None_2 st.1) by lia. split; [done|by exists W].
Qed.

(** ** The index *)
Lemma find_entry_commit W s id l : inv W s -> commits W !! id = Some l ->
  succeeds (find_entry id) W s (fun W' e => exists cm, e = Some (ECommit cm) /\
    ids W' !! root_hash cm = Some (CDir l) /\ root_hash cm ∈ valued W').
Proof.
  intros Hi Hc. pose proof (inv_repo _ _ _ _ Hi) as Hr.
  destruct (r_commits _ _ _ Hr _ _ Hc) as (_ & [h Hh] & bs & cm & Hb & Hd & Hroot & Hv).
  destruct (r_hash _ _ _ Hr _ _ Hh) as [Hpos _]. exists W. split; [done|].
  unfold find_entry, find_entry_bytes, mbind, M_bind. rewrite get_value_at by done. cbn. rewrite Hb. cbn.
  rewrite Hd. cbn. split; [done|]. by exists cm.
Qed.

Lemma find_commit_yields W s id l : inv W s -> commits W !! id = Some l ->
  succeeds (find_commit id) W s (fun W' o => exists cm, o = Some cm /\
    ids W' !! root_hash cm = Some (CDir l) /\ root_hash cm ∈ valued W').
Proof.
  intros Hi Hc. unfold find_commit. eapply yields_bind; [by apply find_entry_commit|].
  intros W1 e s1 _ (cm & -> & Hr & Hv) Hi1. apply yields_ret; [done|]. by exists cm.
Qed.

Lemma find_tree_yields W s id l : inv W s -> ids W !! id = Some (CDir l) -> id ∈ valued W ->
  succeeds (find_tree_by_id id) W s (fun W' o => exists t, o = Some t /\ tree_rep W' l t).
Proof.
  intros Hi Hd Hv. unfold find_tree_by_id. eapply yields_bind; [by apply find_entry_yields|].
  intros W1 e s1 _ (e' & -> & Hr & _) Hi1. destruct e'; try done. apply yields_ret; [done|]. by eexists.
Qed.

Lemma filed_id W s h : inv W s -> Mem.get_context_hash h (repo s) = filed W !! default_hash h.
Proof. intros Hi. unfold Mem.get_context_hash. by rewrite (r_filed _ _ _ (inv_repo _ _ _ _ Hi)). Qed.

Lemma new_yields {E} W s parent hp l t : inv W s -> parent_rep W hp parent -> tree_rep W l t ->
  succeeds (Ctx.new parent (Some (WTree t)) : M E TezedgeContext) W s (fun W' c => ctx_rep W' (mkSctx l hp) c).
Proof. intros Hi Hp Ht. exists W. split; [done|]. split; [by apply (inv_same W s)|]. done. Qed.

Definition checkout_spec (x : option (dir * EntryHash)) : option sctx :=
  match x with Some (l, h) => Some (mkSctx l (Some h)) | None => None end.

Lemma checkout_answers W s h x : inv W s -> filed_rep W x (filed W !! default_hash h) ->
  answers (Index.checkout h) W s (opt_rep ctx_rep) (Ok (checkout_spec x)).
Proof.
  intros Hi Hf. apply yields_answer. unfold Index.checkout, Index.context_id.
  rewrite <- (filed_id W s h Hi) in Hf. unfold yields, mbind, M_bind, read.
  destruct x as [[l hc]|], (Mem.get_context_hash h (repo s)) as [id|]; try done; [|by exists W].
  destruct Hf as [Hc Hh]. cbn [checkout_spec opt_rep].
  eapply yields_bind; [by apply yields_mapE, find_commit_yields|]. intros W1 o s1 He1 (cm & -> & Hr & Hv) Hi1.
  eapply yields_bind; [by apply yields_mapE, find_tree_yields|]. intros W2 o s2 He2 (t & -> & Ht) Hi2.
  eapply yields_bind; [apply (new_yields W2 s2 (Some id) (Some hc) l t); try done|].
  { eapply hashed_mono; [exact He2|]. by eapply hashed_mono. }
  intros W3 c s3 He3 Hcr Hi3. by apply yields_ret.
Qed.

Lemma exists_answers W s h x : inv W s -> filed_rep W x (filed W !! default_hash h) ->
  answers (Index.exists_commit h) W s same (Ok (bool_decide (is_Some x))).
Proof.
  intros Hi Hf. apply yields_answer. unfold Index.exists_commit, Index.context_id.
  rewrite <- (filed_id W s h Hi) in Hf. unfold yields, mbind, M_bind, read.
  destruct x as [[l hc]|], (Mem.get_context_hash h (repo s)) as [id|]; try done; [|by exists W].
  destruct Hf as [Hc Hh].
  eapply yields_bind; [by apply yields_mapE, find_entry_commit|]. intros W1 o s1 He1 (cm & -> & Hr & Hv) Hi1.
  by apply yields_ret.
Qed.

Definition history_spec (h : bytes) (x : option (dir * EntryHash)) (key : ContextKey)
  : result ContextError (option ContextValue) :=
  match x with
  | Some (l, _) => merkle_reply (find_spec l key)
  | None => Err (UnknownContextHashError h)
  end.

(** The errors [get_key_from_history] answers with nothing. *)
Lemma get_spec_find l key :
  match get_spec l key with
  | Ok v => find_spec l key = Ok (Some v)
  | Err (ValueNotFound _) => find_spec l key = Ok None
  | Err (EntryNotFound _) => False
  | Err e => find_spec l key = Err e
  end.
Proof.
  unfold get_spec. destruct (find_spec l key) as [[v|]|e] eqn:E; try done. unfold find_spec in E.
  destruct (split_last key) as [[file path]|]; [|by injection E as <-].
  destruct (look l path file) as [[]|]; try done. by injection E as <-.
Qed.

Lemma history_answers W s h x key : inv W s -> filed_rep W x (filed W !! default_hash h) ->
  answers (Index.get_key_from_history h key) W s same (history_spec h x key).
Proof.
  intros Hi Hf. unfold Index.get_key_from_history, Index.known_id, Index.context_id.
  rewrite <- (filed_id W s h Hi) in Hf. unfold ContextEdit.answers, mbind, M_bind, read, lift.
  destruct x as [[l hc]|], (Mem.get_context_hash h (repo s)) as [id|]; try done; [|by exists W].
  cbn [ok_or]. destruct Hf as [Hc Hh].
  assert (answers (get_history id key) W s same (get_spec l key)) as (W' & He & Hi' & Hm).
  { unfold get_history. eapply answers_after.
    - unfold get_commit. eapply yields_bind; [by apply yields_mapE, find_commit_yields|].
      intros W1 o s1 _ (cm & -> & Hr & Hv) Hi1. apply yields_lift; [done|]. exact (conj Hr Hv).
    - intros W1 cm s1 He1 [Hr Hv] Hi1. cbn in Hr, Hv. eapply answers_after.
      + unfold get_tree. eapply yields_bind; [by apply yields_mapE, find_tree_yields|].
        intros W2 o s2 _ (t & -> & Ht) Hi2. apply yields_lift; [done|]. exact Ht.
      + intros W2 t s2 He2 Ht Hi2. by apply get_from_tree_answers. }
  exists W'. split; [done|]. unfold settle. pose proof (get_spec_find l key) as Hg. cbn [history_spec].
  destruct (get_history id key s) as [[v|e] s'], (get_spec l key) as [v'|e']; try done; cbn in Hi', Hm |- *.
  - rewrite Hg. split; [done|]. cbn. by rewrite Hm.
  - subst e. destruct e'; rewrite ?Hg; try done.
Qed.

(** ** Hashes and commits *)
Lemma get_hash_at W r id h : repo_ok pfuel W r -> hashed W !! id = Some h -> Mem.get_hash id r = Ok (Some h).
Proof.
  intros Hr Hh. destruct (r_hash _ _ _ Hr _ _ Hh) as [Hpos Hl]. unfold Mem.get_hash, Hvs.get_hash.
  rewrite entries_get by done. cbn. by rewrite Hl.
Qed.

Lemma fits_hash l : fits pfuel fuel l -> (S (S (depths l)) < fuel)%nat /\
  content_hash pfuel (CDir l) = Some (spec_hash pfuel l).
Proof.
  unfold fits, spec_hash. intros [Hd Hh]%andb_prop_elim. apply bool_decide_unpack in Hd, Hh.
  split; [done|]. by destruct Hh as [h ->].
Qed.

Lemma root_sim W sp p s a c : sim_in W sp (p, s) -> ctx_rep W a c -> fits pfuel fuel (sdir a) ->
  stepped (RHash (Ok (spec_hash pfuel (sdir a))), sp)
    (query RHash (Ctx.get_merkle_root pfuel fuel c) (p, s)) \/
  full (query RHash (Ctx.get_merkle_root pfuel fuel c) (p, s)).2.2.
Proof.
  intros Hs [Ht _] [Hd Hh]%fits_hash. pose proof (sim_inv _ _ _ Hs) as Hi. cbn in Hi.
  assert (yields pfuel full (Ctx.get_merkle_root pfuel fuel c) W s (fun W' h => h = spec_hash pfuel (sdir a)))
    as (W' & He & Hi' & Hm).
  { apply yields_mapE. unfold WT.hash.
    eapply yields_bind; [apply yields_mapE; eapply root_hash_yields; [done|done|lia|exact Hh]|].
    intros W1 id s1 He1 [(Hh1 & _) _] Hi1. eapply (yields_bind _ _ _ _ _ _ _ (fun W' o => o = Some _)).
    - apply yields_mapE. exists W1. split; [done|]. split; [done|]. cbn.
      rewrite (get_hash_at _ _ _ _ (inv_repo _ _ _ _ Hi1) Hh1). done.
    - intros W2 o s2 _ -> Hi2. by apply yields_lift. }
  unfold query, stepped. cbn [snd fst]. destruct (Ctx.get_merkle_root pfuel fuel c s) as [[h|e] s'].
  - left. cbn in Hm |- *. split; [by rewrite Hm|]. exists W'. by eapply sim_mono.
  - by right.
Qed.

Definition refile (k : Z) (id : HashId) (W : world) : world :=
  mkWorld (nodes W) (nkey W) (nent W) (hashed W) (ids W) (valued W) (commits W) (<[k := id]> (filed W)).

(** Filing a commit, and commands for the collector, change nothing else. *)
Lemma refile_inv W s k id r : inv W s -> store r = store (repo s) ->
  context_hashes r = <[k := id]> (context_hashes (repo s)) -> inv (refile k id W) (set_repo r s).
Proof.
  intros [I1 I2 I2' I3 [R1 R2 R3 R4 R5 R6 R7 R8 R9]] Es Ef. split; try done.
  - intros a c n Hc Hn. destruct (I3 a c n Hc Hn). by split.
  - split; cbn; unfold free_list, value_at in *; rewrite ?Es; try done. by rewrite Ef, R9.
Qed.

Lemma refile_sim W sp p s k id l h : sim_in W sp (p, s) -> commits W !! id = Some l -> hashed W !! id = Some h ->
  forall s', inv (refile k id W) s' ->
  sim_in (refile k id W) (mkSpec (contexts sp) (<[k := (l, h)]> (book sp))) (p, s').
Proof.
  intros [S1 S2 S3] Hc Hh s' Hi. split; [done|done|]. intros k'. cbn.
  destruct (decide (k = k')) as [<-|Hne]; [by rewrite !lookup_insert_eq|].
  rewrite !lookup_insert_ne by done. apply S3.
Qed.

Lemma commit_hash_len root hp t au msg : zlen (commit_hash_of root hp t au msg) = 32.
Proof. apply blake2b_len. Qed.

(** What [commit] does once the commit is prepared. *)
Definition finish (cid : HashId) (data : WT.SerializingData) : M ContextError bytes :=
  Ctx.update_repo (Mem.write_batch (WT.batch data));;
  Ctx.update_repo (Mem.put_context_hash cid);;
  Ctx.update_repo (fun r => Ok (Mem.block_applied (WT.referenced_older_entries data) r));;
  Ctx.get_commit_hash cid.

Lemma block_applied_same ids r : store (Mem.block_applied ids r) = store r /\
  context_hashes (Mem.block_applied ids r) = context_hashes r.
Proof. unfold Mem.block_applied. by destruct (sender r). Qed.

Lemma finish_run W sp p s cid cm l new data h : ready pfuel W cid cm l new s -> hashed W !! cid = Some h ->
  zlen h = 32 -> WT.batch data = (cid, bincode_serialize (SCommit cm)) :: new ->
  Forall2 (ctx_rep W) (contexts sp) p -> book_rep W (book sp) ->
  exists s', finish cid data s = (Ok h, s') /\
    sim (mkSpec (contexts sp) (<[default_hash h := (l, h)]> (book sp))) (p, s').
Proof.
  intros Hy Hh Hlen Eb Hp Hbk. destruct (commit_written _ _ _ _ _ _ _ Hy) as (r1 & E1 & _ & Hi1).
  set (W1 := commit_world W new cid l) in *. pose proof (commit_world_ext W new cid l (proj2 (y_fresh _ _ _ _ _ _ _ Hy))) as He.
  set (s1 := set_repo r1 s) in *. pose proof (get_hash_at W1 r1 cid h (inv_repo _ _ _ _ Hi1) Hh) as Eg.
  set (r2 := mkInMemory (current_cycle r1) (store r1) (sender r1) (<[default_hash h := cid]> (context_hashes r1))
        (Mem.push_last (default_hash h) (context_hashes_cycles r1))).
  set (r3 := Mem.block_applied (WT.referenced_older_entries data) r2).
  destruct (block_applied_same (WT.referenced_older_entries data) r2) as [Es3 Ef3].
  assert (inv (refile (default_hash h) cid W1) (set_repo r3 s1)) as Hi3.
  { apply refile_inv; [done| |]; unfold r3; by rewrite ?Es3, ?Ef3. }
  exists (set_repo r3 s1). split.
  - unfold finish, Ctx.update_repo, mbind, M_bind. rewrite Eb, E1. cbn [repo set_repo].
    unfold Mem.put_context_hash. rewrite Eg. cbn -[Mem.block_applied]. fold r2 r3.
    unfold Ctx.get_commit_hash, mapE, get_hash, mbind, M_bind. cbn [repo set_repo].
    rewrite (get_hash_at (refile (default_hash h) cid W1) r3 cid h (inv_repo _ _ _ _ Hi3) Hh). cbn. unfold hash_from_bytes. by rewrite Hlen.
  - eexists. apply (refile_sim W1 sp p s1); try done.
    + split; [done| |].
      * eapply Forall2_impl; [exact Hp|]. intros a c. by apply ctx_rep_mono.
      * intros k. by eapply filed_rep_mono.
    + apply lookup_insert_eq.
Qed.

Lemma commit_sim W sp p s a c author message date : sim_in W sp (p, s) -> ctx_rep W a c -> fits pfuel fuel (sdir a) ->
  stepped (spec_commit pfuel author message date a sp)
    (query RHash (Ctx.commit pfuel fuel author message date c) (p, s)) \/
  full (query RHash (Ctx.commit pfuel fuel author message date c) (p, s)).2.2.
Proof.
  intros Hs [Ht Hp] [Hd Hh]%fits_hash. pose proof (sim_inv _ _ _ Hs) as Hi. cbn in Hi.
  unfold spec_commit, Ctx.commit, Ctx.commit_date, query. destruct (date <? 0); cbn [snd].
  { left. split; [done|]. by exists W. }
  pose proof (prepare_commit_run _ _ _ _ _ _ _ _ _ date author message Hi Ht Hh Hd Hp) as Hr.
  unfold mbind, M_bind, mapE. cbn [mret M_ret].
  destruct (WT.prepare_commit _ _ _ _ _ _ _ _ s) as [[[cid data]|e] s1]; [|by right; destruct Hr].
  left. destruct Hr as (W1 & cm & new & He & Eb & Hy & Hcid).
  destruct (finish_run W1 sp p s1 cid cm (sdir a) new data _ Hy Hcid (commit_hash_len _ _ _ _ _) Eb)
    as (s2 & Ef & Hs2).
  - eapply Forall2_impl; [exact (sim_contexts _ _ _ Hs)|]. intros a' c'. by apply ctx_rep_mono.
  - intros k. rewrite <- (ext_filed _ _ He). eapply filed_rep_mono; [exact He|]. apply (sim_book _ _ _ Hs).
  - unfold finish, mbind, M_bind in Ef. rewrite Ef. by split.
Qed.

(** ** All calls *)
Lemma list_shown W l r : pairwise (wt_content W) l r -> prod_map id shown_tree <$> r = prod_map id shown <$> l.
Proof.
  revert r. induction l as [|[k c] l IH]; intros [|[k' w] r]; try done. intros (-> & Hc & Hl). cbn.
  rewrite (IH r Hl). f_equal. f_equal. destruct c, w; try done. cbn in *. by subst.
Qed.

Lemma list_shown_answers W s l w offset length key : inv W s -> wt_rep W l w ->
  answers (r ← mapE MerkleStorageError (WT.list_children offset length key w); mret (prod_map id shown_tree <$> r))
    W s same (Ok (prod_map id shown <$> list_spec offset length l key)).
Proof.
  intros Hi Hw. destruct (list_answers pfuel W s l w offset length key Hi Hw) as (W' & He & Hi' & Hm).
  exists W'. split; [done|]. unfold mbind, M_bind, mapE.
  destruct (WT.list_children offset length key w s) as [[r|] s']; [|done]. split; [done|]. by apply (list_shown W').
Qed.

Lemma items_shown W its r : Forall2 (item_rep W) its r -> prod_map id shown_tree <$> r = prod_map id shown <$> its.
Proof.
  induction 1 as [|[k c] [k' w] its r [Ek Hc] _ IH]; [done|]. cbn in Ek, Hc. subst k'.
  rewrite !fmap_cons, IH. f_equal. unfold prod_map. cbn. f_equal. destruct c, w; try done. cbn in *. by subst.
Qed.

Lemma fold_answers W s l c depth key : inv W s -> wt_rep W l (ctx_tree c) -> (steps (CDir (raw l key)) <= fuel)%nat ->
  answers (w ← Ctx.fold_iter depth key c; r ← mapE MerkleStorageError (Walker.collect fuel fuel w);
           mret (prod_map id shown_tree <$> r)) W s same (Ok (prod_map id shown <$> fold_spec depth l key)).
Proof.
  intros Hi Hw Hf. destruct (fold_yields pfuel depth fuel W s l _ key Hi Hw Hf) as (W' & He & Hi' & Hm).
  exists W'. split; [done|]. unfold Ctx.fold_iter, mbind, M_bind, mapE in *.
  destruct (fold_iter depth key (ctx_tree c) s) as [[w|] s1]; [|done].
  destruct (Walker.collect fuel fuel w s1) as [[r|] s2]; [|done]. cbn in Hi', Hm |- *. split; [done|].
  by apply (items_shown W').
Qed.

Lemma copy_ctx_answers W s a c from_key to_key : inv W s -> ctx_rep W a c ->
  answers (Ctx.copy from_key to_key c) W s (opt_rep ctx_rep)
    (d ← merkle_reply (copy_spec (sdir a) from_key to_key); Ok (Some (mkSctx d (sparent a)))).
Proof.
  intros Hi [Ht Hp]. destruct (copy_answers pfuel W s _ _ from_key to_key Hi Ht) as (W' & He & Hi' & Hm).
  pose proof (parent_mono _ _ _ _ He Hp) as Hp'. exists W'. split; [done|].
  unfold Ctx.copy, mbind, M_bind, mapE, merkle_reply.
  destruct (WT.copy from_key to_key (ctx_tree c) s) as [[o|e] s'], (copy_spec _ _ _) as [d|e']; try done; cbn in Hi', Hm.
  - destruct Hm as (w & -> & Hw). cbn. split; [by apply (inv_same W' s')|]. done.
  - cbn. by subst.
Qed.

Lemma graft_answers W s a c a' c' key from_key : inv W s -> ctx_rep W a c -> ctx_rep W a' c' ->
  answers (t ← Ctx.find_tree from_key c';
           match t with
           | Some t => c ← Ctx.add_tree key t c; mret (Some c)
           | None => mret None
           end) W s (opt_rep ctx_rep)
    (match find_tree_spec (sdir a') from_key with
     | Some d => x ← merkle_reply (root_answer (set_at (sdir a) key (CDir d))); Ok (Some (mkSctx x (sparent a)))
     | None => Ok None
     end).
Proof.
  intros Hi Hc [Ht' _].
  eapply answers_then; [apply (answers_mapE MerkleStorageError _ _ _ _ (Ok _)); by apply find_tree_answers|].
  intros W1 o s1 He Hm Hi1. apply (ctx_rep_mono _ _ _ _ He) in Hc.
  destruct o as [t|], (find_tree_spec (sdir a') from_key) as [d|]; try done; [|by exists W1].
  apply edit_answers; [done..|]. by apply add_tree_answers, Hm; [|apply Hc].
Qed.

Lemma step_sim o sp st : sim sp st -> call_fits pfuel fuel o sp ->
  stepped (spec_step pfuel o sp) (ctx_step pfuel fuel o st) \/ full (ctx_step pfuel fuel o st).2.2.
Proof.
  intros [W Hs] Hfit. destruct st as [p s]. pose proof (sim_inv _ _ _ Hs) as Hi. cbn in Hi.
  destruct o as [i key v|i key|i from to|i key j from|i|i key|i key|i key|i off len key|i dp key|i|i au msg date|h|h|h key];
    cbn [spec_step ctx_step].
  - left. apply (on_context_sim W); [done|]. intros a c _ Hc. rewrite keep_spush.
    eapply push_sim; [done|]. apply edit_answers; [done..|]. by apply add_answers, Hc.
  - left. apply (on_context_sim W); [done|]. intros a c _ Hc. rewrite keep_spush.
    eapply push_sim; [done|]. apply edit_answers; [done..|]. by apply delete_answers, Hc.
  - left. apply (on_context_sim W); [done|]. intros a c _ Hc. rewrite keep_spush.
    eapply push_sim; [done|]. by apply copy_ctx_answers.
  - left. apply (on_context_sim W); [done|]. intros a c _ Hc. apply (on_context_sim W); [done|].
    intros a' c' _ Hc'. pose proof (graft_answers W s a c a' c' key from Hi Hc Hc') as Hg.
    pose proof (push_sim W sp p s _ _ Hs Hg) as Hp. destruct (find_tree_spec (sdir a') from); [|exact Hp].
    rewrite keep_spush. exact Hp.
  - left. apply (on_context_sim W); [done|]. intros a c _ Hc. rewrite keep_spush.
    eapply push_sim; [done|]. exists W. split; [done|]. split; [by apply (inv_same W s)|].
    split; [apply tree_rep_new|apply Hc].
  - left. apply (on_context_sim W); [done|]. intros a c _ [Ht _]. eapply query_sim; [done|].
    by apply answers_mapE, find_answers.
  - left. apply (on_context_sim W); [done|]. intros a c _ [Ht _]. eapply query_sim; [done|].
    by apply answers_mapE, mem_answers.
  - left. apply (on_context_sim W); [done|]. intros a c _ [Ht _]. eapply query_sim; [done|].
    by apply (answers_mapE MerkleStorageError _ _ _ same (Ok _)), mem_tree_answers.
  - left. apply (on_context_sim W); [done|]. intros a c _ [Ht _]. eapply query_sim; [done|].
    by apply list_shown_answers.
  - left. apply (on_context_sim W); [done|]. intros a c Ea [Ht _]. eapply query_sim; [done|].
    unfold call_fits in Hfit. rewrite Ea in Hfit. apply bool_decide_unpack in Hfit.
    by apply fold_answers.
  - apply (on_context_full W); [done|]. intros a c Ea Hc. unfold call_fits in Hfit. rewrite Ea in Hfit.
    by apply (root_sim W).
  - apply (on_context_full W); [done|]. intros a c Ea Hc. unfold call_fits in Hfit. rewrite Ea in Hfit.
    by apply (commit_sim W).
  - left. pose proof (push_sim W sp p s _ _ Hs (checkout_answers W s h _ Hi (sim_book _ _ _ Hs (default_hash h)))) as Hp.
    destruct (book sp !! default_hash h) as [[l hc]|]; exact Hp.
  - left. eapply query_sim; [done|]. apply exists_answers; [done|]. apply (sim_book _ _ _ Hs).
  - left. pose proof (query_sim W sp p s _ _ RValue Hs (history_answers W s h _ key Hi (sim_book _ _ _ Hs (default_hash h)))) as Hp.
    destruct (book sp !! default_hash h) as [[l hc]|]; exact Hp.
Qed.

Lemma sim_agrees ops : forall sp st, sim sp st -> calls_fit pfuel fuel ops sp -> agrees pfuel fuel ops st sp.
Proof.
  induction ops as [|o ops IH]; intros sp st Hs Hf; [done|].
  cbn [calls_fit] in Hf. apply andb_prop_elim in Hf as [Hf1 Hf2].
  destruct (step_sim o sp st Hs Hf1) as [[Ea Hs']|Hfull]; [left|by right].
  split; [done|]. by apply IH.
Qed.

Definition empty_world : world := mkWorld [] ∅ ∅ ∅ ∅ ∅ ∅ ∅.

Lemma first_sim gc_disabled : sim first_spec (first_context gc_disabled).
Proof.
  exists empty_world. split.
  - split; try done. cbn. split; try done; destruct gc_disabled; try (by apply NoDup_nil).
    + intros id Hin. by apply elem_of_nil in Hin.
    + intros id Hin. by apply elem_of_nil in Hin.
  - constructor; [|constructor]. split; [apply tree_rep_new|done].
  - intros k. cbn. by rewrite !lookup_empty.
Qed.
End Sim.

(** (C3) Contexts implement their specification.  A process that was just started,
    with the collector enabled or not, answers every sequence of [add], [delete],
    [copy], [find_tree] with [add_tree], [empty], [find], [mem], [mem_tree],
    [list], [get_merkle_root], [commit], [checkout], [exists] and
    [get_key_from_history] on any of the contexts it made so far as [spec_step]
    does: from the directories alone, with the top-down meaning of paths and the
    pure hash of directories and commits, whatever is cached in nodes, loaded from
    the repository or shared between contexts.  It answers until an id cannot be
    given out because [usize::MAX] of them are.  Directories that are hashed must
    not be nested deeper than the fuel of the model. *)
Theorem context_refines `{OrdMapCrate, BincodeCrate, DefaultHasher, Blake2Crate, Leb128Crate}
  (pfuel fuel : nat) (gc_disabled : bool) (ops : list call) :
  calls_fit pfuel fuel ops first_spec ->
  agrees pfuel fuel ops (first_context gc_disabled) first_spec.
Proof. intros Hf. apply sim_agrees; [apply first_sim|done]. Qed.

(** A run: two commits, one made from a checkout of the other, and what the first
    still answers. *)
Definition demo_hash : EntryHash :=
  commit_hash_of (spec_hash 3 [("a"%string, CDir [("x"%string, CBlob [7])])]) None 1 [] [].
Definition demo : list call :=
  [CAdd 0 ["a"; "x"]%string [7]; CRoot 1; CCommit 1 [] [] 1; CCheckout demo_hash; CCopy 2 ["a"]%string ["b"]%string;
   CDelete 3 ["a"; "x"]%string; CFind 4 ["b"; "x"]%string; CMemTree 4 ["a"]%string; CCommit 4 [] [] 2;
   CList 4 None None []; CFold 4 (Some (DLe 1)) []; CGraft 4 ["c"; "d"]%string 1 ["a"]%string;
   CHistory demo_hash ["a"; "x"]%string; CExists [1; 2]; CCommit 1 [] [] (-1)].

Lemma context_refines_witness :
  calls_fit 3 20 demo first_spec /\ agrees 3 20 demo (first_context false) first_spec.
Proof.
  assert (calls_fit 3 20 demo first_spec) as Hf by (vm_compute; exact I).
  split; [exact Hf|]. exact (context_refines 3 20 false demo Hf).
Defined.

(** Its answers. *)
Fixpoint spec_run (ops : list call) (sp : spec_state) : list reply :=
  match ops with [] => [] | o :: ops => let (r, sp) := spec_step 3 o sp in r :: spec_run ops sp end.

Example demo_answers :
  drop 9 (spec_run demo first_spec) =
  [RList (Ok [("b"%string, None)]);
   RFold (Ok [([], None); (["b"%string], None)]);
   RContext (Ok true); RValue (Ok (Some [7])); RBool (Ok false); RHash (Err InvalidCommitDate)].
Proof. vm_compute. reflexivity. Qed.
