(* ===== verification/ContextFindings.v ===== *)
(** * Where contexts do not do what they say

    Runs of the code, with the collector's thread where it matters, whose results
    contradict what the operations promise.  They are runs with small stand-ins for
    the hash functions and the serializer; none depends on a collision. *)

From Stdlib Require Import ZArith Lia List Bool Ascii String.
From stdpp Require Import base option list numbers strings gmap sorting.
From S2P Require Import Prelude Spsc CryptoHash ContextStore ContextGc ContextHash OrdMapFacts WorkingTree TezedgeContext.

Open Scope string_scope.

(** ** Runs *)
Definition started : St := mkSt [] (Mem.new false) ∅ [].

(** A commit with a value more than the context it is made from. *)
Definition commit_with (base : option bytes) (key : ContextKey) (value : ContextValue) : M ContextError bytes :=
  c ← match base with
      | None => Ctx.new None None
      | Some h =>
          c ← Index.checkout h;
          match c with Some c => mret c | None => throw (UnknownContextHashError h) end
      end;
  c ← Ctx.add key value c;
  Ctx.commit 5 5 [] [] 0 c.

(** A step of the client, then the collector until it has nothing to do. *)
Definition client {A} (m : M ContextError A) (s : Sys.t) : option (A * Sys.t) :=
  match m (Sys.st s) with
  | (Ok a, st) => s ← Sys.gc_step (Sys.mkSys st (Sys.gc s)); s ← Sys.gc_step s; Some (a, s)
  | (Err _, _) => None
  end.

Fixpoint new_cycles (n : nat) (s : Sys.t) : option Sys.t :=
  match n with
  | O => Some s
  | S n => '(_, s) ← client Index.cycle_started s; new_cycles n s
  end.

(** ** Asking for a hash and then committing *)
Definition hash_then_commit : M ContextError (bool * option ContextValue) :=
  c ← Ctx.new None None;
  c ← Ctx.add ["a"; "b"] [1%Z] c;
  h ← Ctx.hash 5 5 [] [] 0 c;
  h' ← Ctx.commit 5 5 [] [] 0 c;
  c ← Index.checkout h';
  match c with
  | Some c => v ← Ctx.find ["a"; "b"] c; mret (bool_decide (h = h'), v)
  | None => mret (false, None)
  end.

(** [TezedgeContext::hash] must only compute the hash a commit would have, but
    it marks the nodes it visits as committed without writing them.  The commit
    that follows has that hash and reports success, and its directories are not in
    the repository: after checking it out, finding the value fails. *)
Theorem hash_spoils_commit :
  fst (hash_then_commit started) = Err (MerkleStorageError (EntryNotFound 2)).
Proof. vm_compute. reflexivity. Qed.

(** The same without [hash] finds the value. *)
Lemma commit_alone :
  fst ((h ← commit_with None ["a"; "b"] [1%Z]; Index.get_key_from_history h ["a"; "b"]) started) =
    Ok (Some [1%Z]).
Proof. vm_compute. reflexivity. Qed.

(** ** The collector and shared directories *)
Definition reuse_run (cycles : nat) : option (bool * option ContextValue) :=
  '(h0, s) ← client (commit_with None ["d"; "y"] [1%Z]) Sys.start;
  s ← new_cycles 1 s;
  '(h1, s) ← client (commit_with (Some h0) ["d"; "z"] [2%Z]) s;
  s ← new_cycles 1 s;
  '(h2, s) ← client (commit_with (Some h1) ["e"] [3%Z]) s;
  s ← new_cycles cycles s;
  '(h3, s) ← client (commit_with None ["q"] [9%Z]) s;
  '(there, s) ← client (Index.exists_commit h2) s;
  '(v, s) ← client (Index.get_key_from_history h2 ["d"; "y"]) s;
  Some (there, v).

(** The collector frees entries a kept commit still refers to.  A directory
    that was reused moves to the last cycle with what it refers to, but entries
    that are in the last cycle already are not followed, and what they refer to
    stays in its older cycle.  Here [d/y] is written, [d/z] is committed a cycle
    later and [e] one more cycle later.  Six cycles on, the last commit is still
    filed and its entry is there, while the id of [d/y] was freed and given to
    another commit's value: the lookup answers the wrong value.  One cycle earlier
    it was right. *)
Theorem collector_frees_used :
  reuse_run 5 = Some (true, Some [1%Z]) /\ reuse_run 6 = Some (true, Some [9%Z]).
Proof. split; vm_compute; reflexivity. Qed.

(** ** Ids that never had a value *)
Definition hashed_only : option (result DBError Z) :=
  '(_, s) ← client (c ← Ctx.new None None; c ← Ctx.add ["a"] [1%Z] c; Ctx.hash 5 5 [] [] 0 c) Sys.start;
  s ← new_cycles 8 s;
  Some (fst <$> Mem.get_vacant_entry_hash (repo (Sys.st s))).

(** An id that was only ever hashed has no slot in the vector of values.  When
    the collector gives it back, taking it indexes that vector out of range: the
    process panics. *)
Theorem freed_id_panics : hashed_only = Some (Err DBPanic).
Proof. vm_compute. reflexivity. Qed.

(** ** Paths *)
Definition edited {A} (edit : TezedgeContext -> M ContextError A) : result ContextError A :=
  fst ((c ← Ctx.new None None; c ← Ctx.add ["a"] [1%Z] c; edit c) started).

(** Three operations do not do what they are documented to do.  Deleting a
    path below a value removes the value.  Copying from a path where nothing is,
    which should answer nothing, makes an empty directory, and so does copying a
    value.  [mem], which is to say whether a value exists, is true of a directory. *)
Theorem paths_undocumented :
  edited (fun c => c ← Ctx.delete ["a"; "b"] c; Ctx.find ["a"] c) = Ok None /\
  edited (fun c => c ← Ctx.copy ["x"] ["y"] c;
    match c with Some c => b ← Ctx.mem ["y"] c; mret (Some b) | None => mret None end) = Ok (Some true) /\
  edited (fun c => c ← Ctx.copy ["a"] ["y"] c;
    match c with Some c => l ← Ctx.list_children None None ["y"] c; mret (Some (length l)) | None => mret None end)
    = Ok (Some 0%nat) /\
  edited (fun c => c ← Ctx.add ["d"; "v"] [2%Z] c; Ctx.mem ["d"] c) = Ok true.
Proof. repeat split; vm_compute; reflexivity. Qed.
