(* ===== verification/ApiTypes.v ===== *)
(** * The messages of the protocol runner ([tezos/api/src/ffi.rs])

    The requests and answers that travel between the node and the protocol
    runner, the errors of every call with the conversions that make them out of
    the errors of the OCaml side, the storage configurations, the merging of
    validation results and the keys of the routed requests.  Hashes are their
    bytes; operations and block headers are those of [MessageTypes].  The [url] crate and the Unicode case tables are
    classes. *)

From Stdlib Require Import ZArith Lia List Bool String Ascii.
From stdpp Require Import base option list numbers strings gmap.
From S2P Require Import Prelude Extern CryptoHash Types Serializer BinaryWriter NomCrate NomReader DeriveMake Derive MerklePath BinaryMessage MessageTypes ProtocolConstants.

Local Open Scope string_scope.

(** [str::as_bytes], and the text of bytes. *)
Definition str_bytes (s : string) : bytes :=
  (fun a => Z.of_N (N_of_ascii a)) <$> list_ascii_of_string s.
Definition bytes_str (l : bytes) : string :=
  string_of_list_ascii ((fun b => ascii_of_N (Z.to_N b)) <$> l).

(** [str::split] at a character: always at least one piece. *)
Fixpoint split_on (sep : ascii) (s : string) : list string :=
  match s with
  | EmptyString => [""]
  | String a s' =>
      if Ascii.eqb a sep then "" :: split_on sep s'
      else match split_on sep s' with
           | piece :: pieces => String a piece :: pieces
           | [] => [String a ""]
           end
  end.

Definition RustBytes : Type := bytes.

(** ** Configuration *)
Record GenesisChain : Type := mkGenesisChain {
  genesis_time_text : string;
  genesis_block : string;
  genesis_protocol_text : string;
}.

Record ProtocolOverrides : Type := mkOverrides {
  user_activated_upgrades : list (Z * string);
  user_activated_protocol_overrides : list (string * string);
}.

Definition upgrade_json (u : Z * string) : RpcJsonMap :=
  <["replacement_protocol" := Text (str_bytes u.2)]> (<["level" := Number u.1]> ∅).
Definition user_activated_upgrades_to_rpc_json (o : ProtocolOverrides) : list RpcJsonMap :=
  upgrade_json <$> user_activated_upgrades o.

Definition override_json (u : string * string) : RpcJsonMap :=
  <["replacement_protocol" := Text (str_bytes u.2)]> (<["replaced_protocol" := Text (str_bytes u.1)]> ∅).
Definition user_activated_protocol_overrides_to_rpc_json (o : ProtocolOverrides) : list RpcJsonMap :=
  override_json <$> user_activated_protocol_overrides o.

Record PatchContext : Type := mkPatch { patch_key : string; patch_json : string }.

Record TezosRuntimeConfiguration : Type := mkRuntimeConfiguration {
  log_enabled : bool;
  debug_mode : bool;
  compute_context_action_tree_hashes : bool;
}.

Record TezosContextIrminStorageConfiguration : Type := mkIrmin { data_dir : string }.
Inductive ContextKvStoreConfiguration : Type := ReadOnlyIpc | InMem.
Record TezosContextTezEdgeStorageConfiguration : Type := mkTezEdge {
  backend : ContextKvStoreConfiguration;
  ipc_socket_path : option string;
}.
Inductive TezosContextStorageConfiguration : Type :=
| IrminOnly (irmin : TezosContextIrminStorageConfiguration)
| TezEdgeOnly (tezedge : TezosContextTezEdgeStorageConfiguration)
| Both (irmin : TezosContextIrminStorageConfiguration)
    (tezedge : TezosContextTezEdgeStorageConfiguration).

#[export] Instance irmin_eq_dec : EqDecision TezosContextIrminStorageConfiguration.
Proof. solve_decision. Defined.
#[export] Instance kv_store_eq_dec : EqDecision ContextKvStoreConfiguration.
Proof. solve_decision. Defined.
#[export] Instance tezedge_eq_dec : EqDecision TezosContextTezEdgeStorageConfiguration.
Proof. solve_decision. Defined.
#[export] Instance storage_configuration_eq_dec : EqDecision TezosContextStorageConfiguration.
Proof. solve_decision. Defined.

Definition readonly (self : TezosContextStorageConfiguration) : TezosContextStorageConfiguration :=
  match self with
  | IrminOnly _ => self
  | TezEdgeOnly tezedge => TezEdgeOnly (mkTezEdge ReadOnlyIpc (ipc_socket_path tezedge))
  | Both _irmin tezedge => TezEdgeOnly (mkTezEdge ReadOnlyIpc (ipc_socket_path tezedge))
  end.

Definition get_ipc_socket_path (self : TezosContextStorageConfiguration) : option string :=
  match self with
  | IrminOnly _ => None
  | TezEdgeOnly tezedge => ipc_socket_path tezedge
  | Both _irmin tezedge => ipc_socket_path tezedge
  end.

Definition tezedge_is_enabled (self : TezosContextStorageConfiguration) : bool :=
  match self with IrminOnly _ => false | TezEdgeOnly _ => true | Both _ _ => true end.

Record TezosContextConfiguration : Type := mkContextConfiguration {
  cfg_storage : TezosContextStorageConfiguration;
  cfg_genesis : GenesisChain;
  cfg_protocol_overrides : ProtocolOverrides;
  cfg_commit_genesis : bool;
  cfg_enable_testchain : bool;
  cfg_readonly : bool;
  cfg_sandbox_json_patch_context : option PatchContext;
  cfg_context_stats_db_path : option string;
}.

(** ** Blocks *)
Record ApplyBlockRequest : Type := mkApplyBlockRequest {
  ab_chain_id : bytes;
  ab_block_header : BlockHeader.t;
  ab_pred_header : BlockHeader.t;
  ab_max_operations_ttl : Z;
  ab_operations : list (list Operation.t);
  ab_predecessor_block_metadata_hash : option bytes;
  ab_predecessor_ops_metadata_hash : option bytes;
}.

(** [From<OperationsForBlocksMessage> for Vec<Operation>] is the [operations]
    field of the message. *)
Definition convert_operations (block_operations : list OperationsForBlocksMessage.t)
  : list (list Operation.t) :=
  OperationsForBlocksMessage.operations <$> block_operations.

Record ForkingTestchainData : Type := mkForkingTestchainData {
  forking_block_hash : bytes;
  test_chain_id : bytes;
}.

Record ApplyBlockResponse : Type := mkApplyBlockResponse {
  validation_result_message : string;
  context_hash : bytes;
  protocol_hash : bytes;
  next_protocol_hash : bytes;
  block_header_proto_json : string;
  block_header_proto_metadata_bytes : bytes;
  operations_proto_metadata_bytes : list (list bytes);
  max_operations_ttl : Z;
  last_allowed_fork_level : Z;
  forking_testchain : bool;
  forking_testchain_data : option ForkingTestchainData;
  block_metadata_hash : option bytes;
  ops_metadata_hashes : option (list (list bytes));
  ops_metadata_hash : option bytes;
}.

Record PrevalidatorWrapper : Type := mkPrevalidator {
  pv_chain_id : bytes;
  pv_protocol : bytes;
  pv_context_fitness : option (list bytes);
}.

Record BeginApplicationRequest : Type := mkBeginApplicationRequest {
  ba_chain_id : bytes;
  ba_pred_header : BlockHeader.t;
  ba_block_header : BlockHeader.t;
}.
Record BeginApplicationResponse : Type := mkBeginApplicationResponse { ba_result : string }.

Record BeginConstructionRequest : Type := mkBeginConstructionRequest {
  bc_chain_id : bytes;
  bc_predecessor : BlockHeader.t;
  bc_protocol_data : option bytes;
}.

Record InitProtocolContextResult : Type := mkInitResult {
  supported_protocol_hashes : list bytes;
  genesis_commit_hash : option bytes;
}.

Record CommitGenesisResult : Type := mkCommitGenesisResult {
  cg_block_header_proto_json : string;
  cg_block_header_proto_metadata_bytes : bytes;
  cg_operations_proto_metadata_bytes : list (list bytes);
}.

(** ** Validation of operations *)
Record OperationProtocolDataJsonWithErrorListJson : Type := mkJsonWithError {
  protocol_data_json : string;
  error_json : string;
}.

Class HasOperationHash (ITEM : Type) : Type := operation_hash : ITEM -> bytes.

Record Applied : Type := mkApplied {
  applied_hash : bytes;
  applied_protocol_data_json : string;
}.
#[export] Instance Applied_hash : HasOperationHash Applied := applied_hash.

Record Errored : Type := mkErrored {
  errored_hash : bytes;
  is_endorsement : option bool;
  protocol_data_json_with_error_json : OperationProtocolDataJsonWithErrorListJson;
}.
#[export] Instance Errored_hash : HasOperationHash Errored := errored_hash.

Record ValidateOperationResult : Type := mkValidateResult {
  applied : list Applied;
  refused : list Errored;
  branch_refused : list Errored;
  branch_delayed : list Errored;
}.

Section Merge.
Context {ITEM : Type} `{!HasOperationHash ITEM}.

(** [iter().position(..)]. *)
Fixpoint position (p : ITEM -> bool) (l : list ITEM) : option nat :=
  match l with
  | [] => None
  | x :: l => if p x then Some 0%nat else S <$> position p l
  end.

Definition same_operation (new_item old_item : ITEM) : bool :=
  bool_decide (operation_hash old_item = operation_hash new_item).

Fixpoint merge_loop (new_items result_items : list ITEM) (changed added : bool)
  : list ITEM * bool :=
  match new_items with
  | [] => (result_items, added || changed)
  | new_item :: new_items =>
      match position (same_operation new_item) result_items with
      | Some idx => merge_loop new_items (<[idx := new_item]> result_items) true added
      | None => merge_loop new_items (result_items ++ [new_item]) changed true
      end
  end.

Definition merge_items (result_items new_items : list ITEM) : list ITEM * bool :=
  merge_loop new_items result_items false false.
End Merge.

Definition merge (self new_result : ValidateOperationResult) : ValidateOperationResult * bool :=
  let (applied', c1) := merge_items (applied self) (applied new_result) in
  let (refused', c2) := merge_items (refused self) (refused new_result) in
  let (branch_refused', c3) := merge_items (branch_refused self) (branch_refused new_result) in
  let (branch_delayed', c4) := merge_items (branch_delayed self) (branch_delayed new_result) in
  (mkValidateResult applied' refused' branch_refused' branch_delayed', ((c1 || c2) || c3) || c4).

Record ValidateOperationRequest : Type := mkValidateRequest {
  vo_prevalidator : PrevalidatorWrapper;
  vo_operation : Operation.t;
}.
Record ValidateOperationResponse : Type := mkValidateResponse {
  vr_prevalidator : PrevalidatorWrapper;
  vr_result : ValidateOperationResult;
}.

(** ** Errors of the OCaml side *)
Record TezosErrorTrace : Type := mkTrace { head_error_id : string; trace_json : string }.

(** [ocaml_conv::ffi_error_ids]. *)
Definition PREDECESSOR_MISMATCH : string := "ffi.predecessor_mismatch".
Definition UNKNOWN_PREDECESSOR_CONTEXT : string := "ffi.unknown_predecessor_context".

Module CallError.
Inductive t : Type :=
| FailedToCall (error_id trace_message : string)
| InvalidRequestData (message : string)
| InvalidResponseData (message : string).

Definition from_trace (error : TezosErrorTrace) : t :=
  FailedToCall (head_error_id error) (trace_json error).
End CallError.

(** The [Debug] text of the only [FromBytesError]. *)
Definition from_bytes_message (error : CryptoHash.FromBytesError) : string :=
  match error with InvalidSize => "Error constructing hash from bytes: InvalidSize" end.

Module TezosRuntimeConfigurationError.
Inductive t : Type := ChangeConfigurationError (message : string).
Definition from_trace (error : TezosErrorTrace) : t := ChangeConfigurationError (trace_json error).
End TezosRuntimeConfigurationError.

Module TezosStorageInitError.
Inductive t : Type := InitializeError (message : string).
Definition from_trace (error : TezosErrorTrace) : t := InitializeError (trace_json error).
Definition from_bytes_error (error : CryptoHash.FromBytesError) : t :=
  InitializeError (from_bytes_message error).
End TezosStorageInitError.

Module GetDataError.
Inductive t : Type := ReadError (message : string).
Definition from_trace (error : TezosErrorTrace) : t := ReadError (trace_json error).
End GetDataError.

Module ApplyBlockError.
Inductive t : Type :=
| IncompleteOperations (expected actual : Z)
| FailedToApplyBlock (message : string)
| UnknownPredecessorContext (message : string)
| PredecessorMismatch (message : string)
| InvalidRequestResponseData (message : string).

Definition from_call_error (error : CallError.t) : t :=
  match error with
  | CallError.FailedToCall error_id trace_message =>
      if String.eqb error_id UNKNOWN_PREDECESSOR_CONTEXT
      then UnknownPredecessorContext trace_message
      else if String.eqb error_id PREDECESSOR_MISMATCH
      then PredecessorMismatch trace_message
      else FailedToApplyBlock trace_message
  | CallError.InvalidRequestData message => InvalidRequestResponseData message
  | CallError.InvalidResponseData message => InvalidRequestResponseData message
  end.
End ApplyBlockError.

Module BeginApplicationError.
Inductive t : Type :=
| FailedToBeginApplication (message : string)
| UnknownPredecessorContext (message : string)
| InvalidRequestResponseData (message : string).

Definition from_call_error (error : CallError.t) : t :=
  match error with
  | CallError.FailedToCall error_id trace_message =>
      if String.eqb error_id UNKNOWN_PREDECESSOR_CONTEXT
      then UnknownPredecessorContext trace_message
      else FailedToBeginApplication trace_message
  | CallError.InvalidRequestData message => InvalidRequestResponseData message
  | CallError.InvalidResponseData message => InvalidRequestResponseData message
  end.
End BeginApplicationError.

Module BeginConstructionError.
Inductive t : Type :=
| FailedToBeginConstruction (message : string)
| UnknownPredecessorContext (message : string)
| InvalidRequestResponseData (message : string).

Definition from_call_error (error : CallError.t) : t :=
  match error with
  | CallError.FailedToCall error_id trace_message =>
      if String.eqb error_id UNKNOWN_PREDECESSOR_CONTEXT
      then UnknownPredecessorContext trace_message
      else FailedToBeginConstruction trace_message
  | CallError.InvalidRequestData message => InvalidRequestResponseData message
  | CallError.InvalidResponseData message => InvalidRequestResponseData message
  end.
End BeginConstructionError.

Module ValidateOperationError.
Inductive t : Type :=
| FailedToValidateOperation (message : string)
| InvalidRequestResponseData (message : string).

Definition from_call_error (error : CallError.t) : t :=
  match error with
  | CallError.FailedToCall _ trace_message => FailedToValidateOperation trace_message
  | CallError.InvalidRequestData message => InvalidRequestResponseData message
  | CallError.InvalidResponseData message => InvalidRequestResponseData message
  end.
End ValidateOperationError.

Module ContextDataError.
Inductive t : Type := DecodeError (message : string).
Definition from_trace (error : TezosErrorTrace) : t := DecodeError (trace_json error).
End ContextDataError.

Module ProtocolDataError.
Inductive t : Type := DecodeError (message : string).
Definition from_trace (error : TezosErrorTrace) : t := DecodeError (trace_json error).
Definition from_bytes_error (error : CryptoHash.FromBytesError) : t :=
  DecodeError (from_bytes_message error).
End ProtocolDataError.

Module FfiJsonEncoderError.
Inductive t : Type := EncodeError (message : string).
Definition from_trace (error : TezosErrorTrace) : t := EncodeError (trace_json error).
End FfiJsonEncoderError.

(** ** RPC *)
Definition Json : Type := string.
Inductive RpcMethod : Type := DELETE | GET | PATCH | POST | PUT.

Record RpcRequest : Type := mkRpcRequest {
  rpc_body : Json;
  context_path : string;
  meth : RpcMethod;
  content_type : option string;
  accept : option string;
}.

Record ProtocolRpcRequest : Type := mkProtocolRpcRequest {
  pr_block_header : BlockHeader.t;
  chain_arg : string;
  pr_chain_id : bytes;
  rpc_request : RpcRequest;
}.

Record HelpersPreapplyBlockRequest : Type := mkHelpersPreapplyBlockRequest {
  hp_protocol_rpc_request : ProtocolRpcRequest;
  hp_predecessor_block_metadata_hash : option bytes;
  hp_predecessor_ops_metadata_hash : option bytes;
}.
Record HelpersPreapplyResponse : Type := mkHelpersPreapplyResponse { hp_body : Json }.

Inductive ProtocolRpcResponse : Type :=
| RPCConflict (body : option string)
| RPCCreated (body : option string)
| RPCError (body : option string)
| RPCForbidden (body : option string)
| RPCGone (body : option string)
| RPCNoContent
| RPCNotFound (body : option string)
| RPCOk (body : string)
| RPCUnauthorized.

Definition body_or_empty (body : option string) : string :=
  match body with Some body => body | None => "" end.

Definition status_code (self : ProtocolRpcResponse) : Z :=
  match self with
  | RPCConflict _ => 409
  | RPCCreated _ => 201
  | RPCError _ => 500
  | RPCForbidden _ => 403
  | RPCGone _ => 410
  | RPCNoContent => 204
  | RPCNotFound _ => 404
  | RPCOk _ => 200
  | RPCUnauthorized => 401
  end.

Definition body_json_string_or_empty (self : ProtocolRpcResponse) : string :=
  match self with
  | RPCConflict body => body_or_empty body
  | RPCCreated body => body_or_empty body
  | RPCError body => body_or_empty body
  | RPCForbidden body => body_or_empty body
  | RPCGone body => body_or_empty body
  | RPCNoContent => ""
  | RPCNotFound body => body_or_empty body
  | RPCOk body => body
  | RPCUnauthorized => ""
  end.

Record RpcArgDesc : Type := mkRpcArgDesc { arg_name : string; arg_descr : option string }.

Module ProtocolRpcError.
Inductive t : Type :=
| RPCErrorCannotParseBody (s : string)
| RPCErrorCannotParsePath (path : list string) (arg_desc : RpcArgDesc) (message : string)
| RPCErrorCannotParseQuery (s : string)
| RPCErrorInvalidMethodString (s : string)
| RPCErrorMethodNotAllowed (l : list RpcMethod)
| RPCErrorServiceNotFound
| FailedToCallProtocolRpc (s : string).
End ProtocolRpcError.

Module HelpersPreapplyError.
Inductive t : Type :=
| FailedToCallProtocolRpc (message : string)
| InvalidRequestData (message : string)
| InvalidResponseData (message : string).

Definition from_call_error (error : CallError.t) : t :=
  match error with
  | CallError.FailedToCall _ trace_message => FailedToCallProtocolRpc trace_message
  | CallError.InvalidRequestData message => InvalidRequestData message
  | CallError.InvalidResponseData message => InvalidResponseData message
  end.
End HelpersPreapplyError.

(** [str::to_uppercase] follows the Unicode tables; on ASCII text it is the
    usual one. *)
Definition ascii_upper (a : ascii) : ascii :=
  let n := nat_of_ascii a in
  if ((97 <=? n) && (n <=? 122))%nat then ascii_of_nat (n - 32) else a.
Definition ascii_uppercase (s : string) : string :=
  string_of_list_ascii (ascii_upper <$> list_ascii_of_string s).
Definition is_ascii (s : string) : Prop :=
  Forall (fun a => (nat_of_ascii a < 128)%nat) (list_ascii_of_string s).

Class UnicodeCase : Type := {
  to_uppercase : string -> string;
  (** The [Debug] form of a string, for the message below. *)
  debug_str : string -> string;
  to_uppercase_ascii s : is_ascii s -> to_uppercase s = ascii_uppercase s;
}.

Definition reference_unicode_case : UnicodeCase.
Proof. refine {| to_uppercase := ascii_uppercase; debug_str s := s |}. done. Defined.

Definition RpcMethod_try_from `{UnicodeCase} (s : string) : result string RpcMethod :=
  let upper := to_uppercase s in
  if String.eqb upper "DELETE" then Ok DELETE
  else if String.eqb upper "GET" then Ok GET
  else if String.eqb upper "PATCH" then Ok PATCH
  else if String.eqb upper "POST" then Ok POST
  else if String.eqb upper "PUT" then Ok PUT
  else Err ("Invalid RPC method: " ++ debug_str upper).

(** The name a method prints as. *)
Definition RpcMethod_name (m : RpcMethod) : string :=
  match m with
  | DELETE => "DELETE" | GET => "GET" | PATCH => "PATCH" | POST => "POST" | PUT => "PUT"
  end.

(** ** The keys of routed requests

    [url::Url] joined to a base: a path that starts with a slash, its segments,
    and the query. *)
Class UrlCrate : Type := {
  Url : Type;
  Url_parse : string -> option Url;
  Url_join : Url -> string -> option Url;
  url_path : Url -> string;
  url_query : Url -> option string;
  path_segments : Url -> option (list string);
  url_base_ok : is_Some (Url_parse "http://tezedge.com");
  url_segments u l : path_segments u = Some l -> url_path u = "/" ++ String.concat "/" l;
}.

(** Paths that start with a slash, and a query after a question mark. *)
Definition reference_url : UrlCrate.
Proof.
  refine {|
    Url := (list string * option string)%type;
    Url_parse _ := Some ([], None);
    Url_join _ s :=
      match split_on "?" s with
      | String "/" p :: query => Some (split_on "/" p, List.hd_error query)
      | _ => None
      end;
    url_path u := "/" ++ String.concat "/" u.1;
    url_query u := u.2;
    path_segments u := Some u.1;
  |}.
  - done.
  - by intros u l [= <-].
Defined.

(** [trim_end_matches('/')]. *)
Fixpoint drop_slashes (l : list ascii) : list ascii :=
  match l with
  | [] => []
  | a :: l' => if Ascii.eqb a "/" then drop_slashes l' else l
  end.
Definition trim_end_slashes (s : string) : string :=
  string_of_list_ascii (rev (drop_slashes (rev (list_ascii_of_string s)))).

(** [None] is the panic of [unwrap] on a path the crate refuses. *)
Definition ffi_rpc_router_cache_key_helper `{UrlCrate} (path : string) : option string :=
  match Url_parse "http://tezedge.com" with
  | None => Some path
  | Some base =>
      parsed ← Url_join base path;
      let normalized_path :=
        match url_query parsed with
        | Some query => trim_end_slashes (url_path parsed) ++ "?" ++ query
        | None => trim_end_slashes (url_path parsed)
        end in
      Some match path_segments parsed with
      | None => normalized_path
      | Some segments =>
          match segments !! 0%nat, segments !! 2%nat with
          | Some "chains", Some "blocks" =>
              let remaining := filter (fun s => negb (String.eqb s "")) (drop 4 segments) in
              let subpath := String.concat "/" remaining in
              if String.eqb subpath "" then normalized_path
              else match url_query parsed with
                   | Some query => "/" ++ subpath ++ "?" ++ query
                   | None => "/" ++ subpath
                   end
          | _, _ => normalized_path
          end
      end
  end.

Definition ffi_rpc_router_cache_key `{UrlCrate} (self : RpcRequest) : option string :=
  ffi_rpc_router_cache_key_helper (context_path self).

(** ** Paths of operations *)
Record ComputePathRequest : Type := mkComputePathRequest {
  cp_operations : list (list bytes);
}.
Record ComputePathResponse : Type := mkComputePathResponse {
  operations_hashes_path : list Path;
}.

Section ComputePath.
Context `{BytesCrate, BitVecCrate, HexCrate, UnicodeTables, BigIntCrate, NomCrate, Sodium}.
Context (operation_impl : type_impl).

(** The inner loop: the hash of every operation of one list. *)
Fixpoint operation_hashes (inner_ops : list Operation.t) : result MessageHashError (list bytes) :=
  match inner_ops with
  | [] => Ok []
  | op :: inner_ops =>
      digest ← message_hash operation_impl (Operation.to_rval op);
      h ← map_err (fun _ => FromBytesError) (hash_from_bytes OperationHash digest);
      iophs ← operation_hashes inner_ops;
      Ok (h :: iophs)
  end.

Fixpoint operation_hashes_lists (ops : list (list Operation.t))
  : result MessageHashError (list (list bytes)) :=
  match ops with
  | [] => Ok []
  | inner_ops :: ops =>
      iophs ← operation_hashes inner_ops;
      rest ← operation_hashes_lists ops;
      Ok (iophs :: rest)
  end.

Definition ComputePathRequest_try_from (ops : list (list Operation.t))
  : result MessageHashError ComputePathRequest :=
  operation_hashes ← operation_hashes_lists ops;
  Ok (mkComputePathRequest operation_hashes).
End ComputePath.

Module ComputePathError.
Inductive t : Type :=
| PathError (message : string)
| InvalidRequestResponseData (message : string).

Definition from_call_error (error : CallError.t) : t :=
  match error with
  | CallError.FailedToCall _ trace_message => PathError trace_message
  | CallError.InvalidRequestData message => InvalidRequestResponseData message
  | CallError.InvalidResponseData message => InvalidRequestResponseData message
  end.
End ComputePathError.

(** ** Facts

    Merging validation results is a keyed update: [find_operation] of the merged
    list is the last new item of that hash, or else the old one, and the hashes
    keep their order.  The keys of routed requests do not depend on the chain
    and the block of the path.  Readonly configurations, RPC methods and the
    conversions of errors. *)
Module ApiFacts.
Local Open Scope string_scope.
Local Open Scope list_scope.

(** ** Merging *)
Section Merging.
Context {ITEM : Type} `{!HasOperationHash ITEM}.

Definition find_operation (h : bytes) (l : list ITEM) : option ITEM :=
  List.find (fun i => bool_decide (operation_hash i = h)) l.
Definition hashes (l : list ITEM) : list bytes := operation_hash <$> l.

(** One item of the loop: replaced where its hash is found first, or added. *)
Definition upsert (l : list ITEM) (n : ITEM) : list ITEM :=
  match position (same_operation n) l with
  | Some idx => <[idx := n]> l
  | None => l ++ [n]
  end.

Lemma merge_loop_fold new l c a :
  merge_loop new l c a = (fold_left upsert new l, a || c || negb (bool_decide (new = []))).
Proof.
  revert l c a. induction new as [|n new IH]; intros l c a; simpl.
  { by rewrite orb_false_r. }
  unfold upsert at 2. destruct (position (same_operation n) l); rewrite IH; f_equal;
    by destruct a, c, (bool_decide (new = [])).
Qed.

Lemma upsert_cons n x l :
  upsert (x :: l) n =
    if bool_decide (operation_hash x = operation_hash n) then n :: l else x :: upsert l n.
Proof.
  unfold upsert. simpl. unfold same_operation at 1.
  destruct (bool_decide _); [done|]. by destruct (position _ l).
Qed.

Lemma find_operation_upsert h n l :
  find_operation h (upsert l n) =
    if bool_decide (operation_hash n = h) then Some n else find_operation h l.
Proof.
  unfold find_operation. induction l as [|x l IH]; [simpl; by destruct (bool_decide _)|].
  rewrite upsert_cons. destruct (bool_decide_reflect (operation_hash x = operation_hash n)) as [Hx|Hx].
  - simpl. rewrite Hx. by destruct (bool_decide _).
  - simpl. rewrite IH. repeat case_bool_decide; congruence.
Qed.

Lemma hashes_upsert n l :
  hashes (upsert l n) =
    hashes l ++ (if bool_decide (operation_hash n ∈ hashes l) then [] else [operation_hash n]).
Proof.
  unfold hashes. induction l as [|x l IH]; [done|].
  rewrite upsert_cons. cbn [fmap list_fmap].
  destruct (bool_decide_reflect (operation_hash x = operation_hash n)) as [Hx|Hx].
  - cbn [fmap list_fmap]. rewrite bool_decide_eq_true_2 by (rewrite Hx; left).
    by rewrite app_nil_r, Hx.
  - cbn [fmap list_fmap app]. rewrite IH. f_equal. f_equal.
    erewrite bool_decide_ext; [done|set_solver].
Qed.

Lemma find_operation_app h l1 l2 :
  find_operation h (l1 ++ l2) =
    match find_operation h l1 with Some i => Some i | None => find_operation h l2 end.
Proof. unfold find_operation. induction l1 as [|x l1 IH]; simpl; [done|]. by case_bool_decide. Qed.

Lemma find_operation_fold h new l :
  find_operation h (fold_left upsert new l) =
    match find_operation h (rev new) with Some i => Some i | None => find_operation h l end.
Proof.
  revert l. induction new as [|n new IH]; intros l; [done|].
  simpl. rewrite IH, find_operation_upsert, find_operation_app.
  destruct (find_operation h (rev new)); [done|]. simpl. by case_bool_decide.
Qed.

Lemma hashes_fold_prefix new l : hashes l `prefix_of` hashes (fold_left upsert new l).
Proof.
  revert l. induction new as [|n new IH]; intros l; [done|]. simpl.
  transitivity (hashes (upsert l n)); [|done]. rewrite hashes_upsert. by eexists.
Qed.

Lemma hashes_fold_NoDup new l : NoDup (hashes l) -> NoDup (hashes (fold_left upsert new l)).
Proof.
  revert l. induction new as [|n new IH]; intros l Hl; [done|]. simpl. apply IH.
  rewrite hashes_upsert. case_bool_decide as Hn; [by rewrite app_nil_r|].
  apply NoDup_app. split; [done|]. split; [|apply NoDup_singleton]. set_solver.
Qed.

(** (C38) [merge_items] is a keyed update: every hash finds the last new item that
    carries it, or else what it found before; the hashes that were there keep
    their places, none appears twice, and the result says whether there was
    anything to merge. *)
Theorem merge_items_keyed (result_items new_items : list ITEM) :
  NoDup (hashes result_items) ->
  let (merged, changed) := merge_items result_items new_items in
  (forall h, find_operation h merged =
     match find_operation h (rev new_items) with
     | Some i => Some i
     | None => find_operation h result_items
     end) /\
  hashes result_items `prefix_of` hashes merged /\
  NoDup (hashes merged) /\
  changed = negb (bool_decide (new_items = [])).
Proof.
  intros Hnd. unfold merge_items. rewrite merge_loop_fold. ssplit.
  - intros h. apply find_operation_fold.
  - apply hashes_fold_prefix.
  - by apply hashes_fold_NoDup.
  - done.
Qed.
End Merging.

Lemma merge_items_keyed_witness :
  let old := [mkApplied [1] "a"; mkApplied [2] "b"] in
  let new := [mkApplied [2] "c"; mkApplied [3] "d"; mkApplied [2] "e"] in
  merge_items old new = ([mkApplied [1] "a"; mkApplied [2] "e"; mkApplied [3] "d"], true) /\
  find_operation [2] (merge_items old new).1 = Some (mkApplied [2] "e") /\
  (let (merged, changed) := merge_items old new in
   (forall h, find_operation h merged =
     match find_operation h (rev new) with
     | Some i => Some i | None => find_operation h old end) /\
   hashes old `prefix_of` hashes merged /\ NoDup (hashes merged) /\
   changed = negb (bool_decide (new = []))).
Proof.
  intros old new. split; [reflexivity|]. split; [reflexivity|].
  apply (merge_items_keyed old new). apply (bool_decide_unpack _). vm_compute. exact I.
Defined.

(** Merging a result into itself changes nothing and still reports a change. *)
Example merge_reports_no_change :
  let r := mkValidateResult [mkApplied [1] "a"] [] [] [] in merge r r = (r, true).
Proof. reflexivity. Qed.

Lemma merge_changed self new_result :
  (merge self new_result).2 =
    negb (bool_decide (applied new_result = [] /\ refused new_result = [] /\
      branch_refused new_result = [] /\ branch_delayed new_result = [])).
Proof.
  unfold merge, merge_items. rewrite !merge_loop_fold. simpl.
  by destruct (applied new_result), (refused new_result), (branch_refused new_result),
    (branch_delayed new_result).
Qed.

(** ** Configurations *)
Lemma readonly_idempotent c : readonly (readonly c) = readonly c.
Proof. by destruct c. Qed.

Lemma readonly_socket c : get_ipc_socket_path (readonly c) = get_ipc_socket_path c.
Proof. by destruct c. Qed.

(** The comment of [readonly] promises an Irmin-only configuration here. *)
Lemma readonly_both irmin tezedge :
  tezedge_is_enabled (readonly (Both irmin tezedge)) = true.
Proof. done. Qed.

(** ** RPC methods *)
Lemma RpcMethod_try_from_ascii `{UnicodeCase} s :
  is_ascii s ->
  RpcMethod_try_from s =
    match List.find (fun m => String.eqb (ascii_uppercase s) (RpcMethod_name m))
            [DELETE; GET; PATCH; POST; PUT] with
    | Some m => Ok m
    | None => Err ("Invalid RPC method: " ++ debug_str (ascii_uppercase s))%string
    end.
Proof.
  intros Hs. unfold RpcMethod_try_from. rewrite to_uppercase_ascii by done. cbn [List.find RpcMethod_name].
  repeat destruct (String.eqb _ _); reflexivity.
Qed.

(** ** Cache keys *)
Section CacheKeys.
Context `{UrlCrate}.

Definition with_query (path : string) (query : option string) : string :=
  match query with Some query => (path ++ "?" ++ query)%string | None => path end.

Lemma concat_slash_empty l :
  Forall (fun s => s <> "") l -> String.concat "/" l = "" <-> l = [].
Proof.
  intros Hl. split; [|by intros ->].
  destruct Hl as [|x l Hx Hl]; [done|]. destruct l; simpl; [done|].
  destruct x; [done|]. by intros [=].
Qed.

Lemma remaining_nonempty (l : list string) :
  Forall (fun s => s <> "") (filter (fun s => negb (String.eqb s "")) l).
Proof.
  apply Forall_forall. intros s [Hs _]%list_elem_of_filter. by destruct s.
Qed.

(** The key of a request under [/chains/c/blocks/b] with something after it
    is that something, slashes that separate nothing left out, with the query:
    the chain and the block do not enter it, so that all of them share the
    cached route. *)
Theorem cache_key_of_block_path path u base c b rest :
  Url_parse "http://tezedge.com" = Some base ->
  Url_join base path = Some u ->
  path_segments u = Some ("chains" :: c :: "blocks" :: b :: rest) ->
  Exists (fun s => s <> "") rest ->
  ffi_rpc_router_cache_key_helper path =
    Some (with_query ("/" ++ String.concat "/" (filter (fun s => negb (String.eqb s "")) rest))%string
            (url_query u)).
Proof.
  intros Hb Hj Hs Hrest. unfold ffi_rpc_router_cache_key_helper. rewrite Hb, Hj.
  cbn [mbind option_bind]. rewrite Hs. cbn [lookup list_lookup drop]. rewrite drop_0.
  destruct (String.eqb_spec (String.concat "/" (filter (fun s => negb (String.eqb s "")) rest)) "")
    as [He|_].
  - exfalso. apply concat_slash_empty in He; [|apply remaining_nonempty].
    apply Exists_exists in Hrest as (s & Hin & Hne).
    assert (Hf : s ∈ filter (fun s => negb (String.eqb s "")) rest).
    { apply list_elem_of_filter. split; [by destruct s|done]. }
    rewrite He in Hf. by apply not_elem_of_nil in Hf.
  - by destruct (url_query u).
Qed.
End CacheKeys.

Lemma cache_key_of_block_path_witness :
  @ffi_rpc_router_cache_key_helper reference_url "/chains/main/blocks/head/helpers//forge/?depth=2" =
    Some "/helpers/forge?depth=2" /\
  Some (with_query ("/" ++ String.concat "/"
         (filter (fun s => negb (String.eqb s "")) ["helpers"; ""; "forge"; ""]))%string
         (Some "depth=2")) = Some "/helpers/forge?depth=2".
Proof.
  split; [|reflexivity].
  apply (@cache_key_of_block_path reference_url "/chains/main/blocks/head/helpers//forge/?depth=2"
    (["chains"; "main"; "blocks"; "head"; "helpers"; ""; "forge"; ""], Some "depth=2") ([], None)
    "main" "head" ["helpers"; ""; "forge"; ""]); [reflexivity|reflexivity|reflexivity|by left].
Defined.
End ApiFacts.
