(* ===== verification/Environment.v ===== *)
(** * Tezos networks ([tezos/api/src/environment.rs])

    The networks and their names, the hard-coded configuration of each, the
    genesis data derived from it, the parsing of bootstrap addresses and the
    set-up of the zcash parameters.  [chrono] is a class; the process's
    environment variables and the file system are parameters. *)

From Stdlib Require Import ZArith Lia List Bool String Ascii.
From stdpp Require Import base option list numbers strings gmap countable.
From S2P Require Import Prelude Extern CryptoHash Types Serializer BinaryWriter NomCrate NomReader Derive BinaryMessage MessageTypes ProtocolConstants ApiTypes.

Local Open Scope string_scope.
Local Open Scope list_scope.

(** ** [TezosEnvironment] *)
Inductive TezosEnvironment : Type :=
| Mainnet | Sandbox | Zeronet | Alphanet | Babylonnet | Carthagenet | Delphinet
| Edonet | Edo2net | Florencenet | Granadanet.

#[export] Instance TezosEnvironment_eq_dec : EqDecision TezosEnvironment.
Proof. solve_decision. Defined.

(** [TezosEnvironment::iter()], in declaration order. *)
Definition TezosEnvironment_iter : list TezosEnvironment :=
  [Mainnet; Sandbox; Zeronet; Alphanet; Babylonnet; Carthagenet; Delphinet;
   Edonet; Edo2net; Florencenet; Granadanet].

Definition environment_index (e : TezosEnvironment) : nat :=
  match e with
  | Mainnet => 0 | Sandbox => 1 | Zeronet => 2 | Alphanet => 3 | Babylonnet => 4
  | Carthagenet => 5 | Delphinet => 6 | Edonet => 7 | Edo2net => 8 | Florencenet => 9
  | Granadanet => 10
  end.

#[export] Instance TezosEnvironment_countable : Countable TezosEnvironment.
Proof.
  apply (inj_countable environment_index (fun n => TezosEnvironment_iter !! n)).
  by intros [].
Defined.

Definition supported_values (self : TezosEnvironment) : list string :=
  match self with
  | Mainnet => ["mainnet"]
  | Sandbox => ["sandbox"]
  | Zeronet => ["zeronet"]
  | Alphanet => ["alphanet"]
  | Babylonnet => ["babylonnet"; "babylon"]
  | Carthagenet => ["carthagenet"; "carthage"]
  | Delphinet => ["delphinet"; "delphi"]
  | Edonet => ["edonet"; "edo"]
  | Edo2net => ["edo2net"; "edo2"]
  | Florencenet => ["florencenet"; "florence"]
  | Granadanet => ["granadanet"; "granada"]
  end.

Definition possible_values : list string :=
  fold_left (fun possible_values sp => possible_values ++ supported_values sp)
    TezosEnvironment_iter [].

(** [to_ascii_lowercase]. *)
Definition ascii_lower (a : ascii) : ascii :=
  let n := nat_of_ascii a in
  if ((65 <=? n) && (n <=? 90))%nat then ascii_of_nat (n + 32) else a.
Definition to_ascii_lowercase (s : string) : string :=
  string_of_list_ascii (ascii_lower <$> list_ascii_of_string s).

Definition ParseTezosEnvironmentError : Type := string.

Fixpoint find_environment (s : string) (l : list TezosEnvironment)
  : result ParseTezosEnvironmentError TezosEnvironment :=
  match l with
  | [] => Err ("Invalid variant name: " ++ s)%string
  | sp :: l => if bool_decide (s ∈ supported_values sp) then Ok sp else find_environment s l
  end.
Definition from_str (s : string) : result ParseTezosEnvironmentError TezosEnvironment :=
  find_environment (to_ascii_lowercase s) TezosEnvironment_iter.

(** *** Notices

    [slice::sort] on names, and the [Debug] form of a list of names (none has a
    character that is escaped). *)
Definition quote : string := String (ascii_of_nat 34) "".
Definition newline : string := String (ascii_of_nat 10) "".
Definition newlines (n : nat) : string := String.concat "" (replicate n newline).
Definition quoted (s : string) : string := (quote ++ s ++ quote)%string.
Definition debug_names (l : list string) : string :=
  ("[" ++ String.concat ", " (quoted <$> l) ++ "]")%string.

Fixpoint insert_name (s : string) (l : list string) : list string :=
  match l with
  | [] => [s]
  | x :: l' => if String.leb s x then s :: l else x :: insert_name s l'
  end.
Definition sort_names (l : list string) : list string := foldr insert_name [] l.

Definition rule : string := "//////////////////////////////////////////".

Definition deprecated_testnet_notice (selected_network : TezosEnvironment)
  (alternate_networks : list TezosEnvironment) : string :=
  let selected := sort_names (supported_values selected_network) in
  let alternate_networks := sort_names (alternate_networks ≫= supported_values) in
  String.concat ""
    [newlines 4; rule; " "; newline; "//      !!! DEPRECATED TESTNET !!!      //"; newline; rule; " ";
     newline; "// Selected (deprecated) network: "; debug_names selected; " ";
     newline; "// Use recommended network(s): "; debug_names alternate_networks; " ";
     newline; "// Possible problems: "; newline; "// - no peers to connect ";
     newline; "// - no data to download "; newline; rule; newlines 4].

Definition deprecated_net_notice (title : string) (selected alternate : TezosEnvironment) : string :=
  let selected := sort_names (supported_values selected) in
  let alternate_networks := sort_names (supported_values alternate) in
  String.concat ""
    [newlines 4; rule; " "; newline; "//      !!! DEPRECATED "; title; " !!!      //"; newline; rule; " ";
     newline; "// "; debug_names selected; " is automatically switched to ";
     debug_names alternate_networks; " ";
     newline; "// Better use directly network(s): "; debug_names alternate_networks; " ";
     newline; "// Possible problems: "; newline; "// - deprecated network will be removed soon ";
     newline; rule; newlines 4].

Definition check_deprecated_network (self : TezosEnvironment) : option string :=
  match self with
  | Mainnet => None
  | Sandbox => None
  | Zeronet => Some (deprecated_testnet_notice Zeronet [Delphinet; Edo2net])
  | Alphanet => Some (deprecated_testnet_notice Alphanet [Delphinet; Edo2net])
  | Babylonnet => Some (deprecated_testnet_notice Babylonnet [Delphinet; Edo2net])
  | Carthagenet => Some (deprecated_testnet_notice Carthagenet [Delphinet; Edo2net])
  | Delphinet => None
  | Edonet => Some (deprecated_net_notice "EDONET" Edonet Edo2net)
  | Edo2net => None
  | Florencenet => None
  | Granadanet => None
  end.

(** ** Configurations *)
Record TezosEnvironmentConfiguration : Type := mkEnvironment {
  genesis : GenesisChain;
  bootstrap_lookup_addresses : list string;
  version : string;
  protocol_overrides : ProtocolOverrides;
  enable_testchain : bool;
  patch_context_genesis_parameters : option PatchContext;
}.

Definition NO_OVERRIDES : ProtocolOverrides := mkOverrides [] [].
Definition genesis_pubkey (key : string) : PatchContext :=
  mkPatch "sandbox_parameter" ("{ " ++ quoted "genesis_pubkey" ++ ": " ++ quoted key ++ " }")%string.

Definition mainnet_cfg : TezosEnvironmentConfiguration := mkEnvironment
  (mkGenesisChain "2018-06-30T16:07:32Z"
    "BLockGenesisGenesisGenesisGenesisGenesisf79b5d1CoW2"
    "Ps9mPmXaRzmzk35gbAYNCAw6UXdE2qoABTHbN2oEEc1qM7CwT9P")
  ["boot.tzbeta.net";
   "116.202.172.21";
   "95.216.45.62"]
  "TEZOS_MAINNET"
  (mkOverrides
    [(28082, "PsYLVpVvgbLhAhoqAkMFUo6gudkJ9weNXhUYCiLDzcUpFpkk8Wt");
     (204761, "PsddFKi32cMJ2qPjf43Qv5GDWLDPZb3T3bF6fLKiF5HtvHNU7aP")]
    [("PsBABY5HQTSkA4297zNHfsZNKtxULfL18y95qb3m53QJiXGmrbU", "PsBabyM1eUXZseaJdmXFApDSBqj8YBfwELoxZHHW77EMcAbbwAS");
     ("PtEdoTezd3RHSC31mpxxo1npxFjoWWcFgQtxapi51Z8TLu6v6Uq", "PtEdo2ZkT9oKpimTah6x2embF25oss54njMuPzkJTEi5RqfdZFA")])
  false
  None.

Definition zeronet_cfg : TezosEnvironmentConfiguration := mkEnvironment
  (mkGenesisChain "2019-08-06T15:18:56Z"
    "BLockGenesisGenesisGenesisGenesisGenesiscde8db4cX94"
    "PtBMwNZT94N7gXKw4i273CKcSaBrrBnqnt3RATExNKr9KNX2USV")
  ["bootstrap.zeronet.fun";
   "bootzero.tzbeta.net"]
  "TEZOS_ZERONET_2019-08-06T15:18:56Z"
  NO_OVERRIDES
  true
  None.

Definition alphanet_cfg : TezosEnvironmentConfiguration := mkEnvironment
  (mkGenesisChain "2018-11-30T15:30:56Z"
    "BLockGenesisGenesisGenesisGenesisGenesisb83baZgbyZe"
    "Ps6mwMrF2ER2s51cp9yYpjDcuzQjsc2yAz8bQsRgdaRxw4Fk95H")
  ["boot.tzalpha.net";
   "bootalpha.tzbeta.net"]
  "TEZOS_ALPHANET_2018-11-30T15:30:56Z"
  NO_OVERRIDES
  false
  None.

Definition babylonnet_cfg : TezosEnvironmentConfiguration := mkEnvironment
  (mkGenesisChain "2019-09-27T07:43:32Z"
    "BLockGenesisGenesisGenesisGenesisGenesisd1f7bcGMoXy"
    "PtBMwNZT94N7gXKw4i273CKcSaBrrBnqnt3RATExNKr9KNX2USV")
  ["35.246.251.120";
   "34.89.154.253";
   "babylonnet.kaml.fr"]
  "TEZOS_ALPHANET_BABYLON_2019-09-27T07:43:32Z"
  NO_OVERRIDES
  true
  None.

Definition carthagenet_cfg : TezosEnvironmentConfiguration := mkEnvironment
  (mkGenesisChain "2019-11-28T13:02:13Z"
    "BLockGenesisGenesisGenesisGenesisGenesisd6f5afWyME7"
    "PtYuensgYBb3G3x1hLLbCmcav8ue8Kyd2khADcL5LsT5R1hcXex")
  ["34.76.169.218";
   "34.90.24.160";
   "carthagenet.kaml.fr";
   "104.248.136.94"]
  "TEZOS_ALPHANET_CARTHAGE_2019-11-28T13:02:13Z"
  NO_OVERRIDES
  true
  None.

Definition delphinet_cfg : TezosEnvironmentConfiguration := mkEnvironment
  (mkGenesisChain "2020-09-04T07:08:53Z"
    "BLockGenesisGenesisGenesisGenesisGenesis355e8bjkYPv"
    "PtYuensgYBb3G3x1hLLbCmcav8ue8Kyd2khADcL5LsT5R1hcXex")
  ["delphinet.tezos.co.il";
   "delphinet.smartpy.io";
   "delphinet.kaml.fr";
   "13.53.41.201"]
  "TEZOS_DELPHINET_2020-09-04T07:08:53Z"
  NO_OVERRIDES
  true
  (Some (genesis_pubkey "edpkugeDwmwuwyyD3Q5enapgEYDxZLtEUFFSrvVwXASQMVEqsvTqWu")).

Definition edo2net_cfg : TezosEnvironmentConfiguration := mkEnvironment
  (mkGenesisChain "2021-02-11T14:00:00Z"
    "BLockGenesisGenesisGenesisGenesisGenesisdae8bZxCCxh"
    "PtYuensgYBb3G3x1hLLbCmcav8ue8Kyd2khADcL5LsT5R1hcXex")
  ["edonet.tezos.co.il";
   "188.40.128.216:29732";
   "51.79.165.131";
   "edo2net.kaml.fr";
   "edonet2.smartpy.io";
   "edonetb.boot.tezostaquito.io"]
  "TEZOS_EDO2NET_2021-02-11T14:00:00Z"
  NO_OVERRIDES
  true
  (Some (genesis_pubkey "edpkugeDwmwuwyyD3Q5enapgEYDxZLtEUFFSrvVwXASQMVEqsvTqWu")).

Definition florencenet_cfg : TezosEnvironmentConfiguration := mkEnvironment
  (mkGenesisChain "2021-03-04T20:00:00Z"
    "BMFCHw1mv3A71KpTuGD3MoFnkHk9wvTYjUzuR9QqiUumKGFG6pM"
    "PtYuensgYBb3G3x1hLLbCmcav8ue8Kyd2khADcL5LsT5R1hcXex")
  ["florencenoba.tznode.net";
   "florencenobanet.kaml.fr";
   "florencenobanet.tezos.co.il";
   "florencenobanet.boot.tez.ie";
   "florencenobanet.smartpy.io:9733"]
  "TEZOS_FLORENCENOBANET_2021-03-04T20:00:00Z"
  NO_OVERRIDES
  true
  (Some (genesis_pubkey "edpkuix6Lv8vnrz6uDe1w8uaXY7YktitAxn6EHdy2jdzq5n5hZo94n")).

Definition granadanet_cfg : TezosEnvironmentConfiguration := mkEnvironment
  (mkGenesisChain "2021-05-21T15:00:00Z"
    "BLockGenesisGenesisGenesisGenesisGenesisd4299hBGVoU"
    "PtYuensgYBb3G3x1hLLbCmcav8ue8Kyd2khADcL5LsT5R1hcXex")
  ["granadanet.smartpy.io";
   "granadanet.tezos.co.il";
   "granadanet.kaml.fr"]
  "TEZOS_GRANADANET_2021-05-21T15:00:00Z"
  (mkOverrides
    [(4095, "PtGRANADsDU8R9daYKAgWnQYAJ64omN1o3KMGVCykShA97vQbvV")]
    [])
  true
  (Some (genesis_pubkey "edpkuix6Lv8vnrz6uDe1w8uaXY7YktitAxn6EHdy2jdzq5n5hZo94n")).

Definition sandbox_cfg : TezosEnvironmentConfiguration := mkEnvironment
  (mkGenesisChain "2018-06-30T16:07:32Z"
    "BLockGenesisGenesisGenesisGenesisGenesisf79b5d1CoW2"
    "ProtoGenesisGenesisGenesisGenesisGenesisGenesk612im")
  []
  "SANDBOXED_TEZOS"
  NO_OVERRIDES
  false
  (Some (genesis_pubkey "edpkuSLWfVU1Vq7Jg9FucPyKmma6otcMHac9zG4oU1KMHSTBpJuGQ2")).

(** [init]: the insertions in the order of the code. *)
Definition init : gmap TezosEnvironment TezosEnvironmentConfiguration :=
  fold_left (fun env c => <[c.1 := c.2]> env)
    [(Mainnet, mainnet_cfg);
     (Zeronet, zeronet_cfg);
     (Alphanet, alphanet_cfg);
     (Babylonnet, babylonnet_cfg);
     (Carthagenet, carthagenet_cfg);
     (Delphinet, delphinet_cfg);
     (Edonet, edo2net_cfg);
     (Edo2net, edo2net_cfg);
     (Florencenet, florencenet_cfg);
     (Granadanet, granadanet_cfg);
     (Sandbox, sandbox_cfg)] ∅.

(** ** Genesis *)
Inductive TezosEnvironmentError : Type :=
| InvalidBlockHash (hash : string) (error : FromBase58CheckError)
| InvalidProtocolHash (hash : string) (error : FromBase58CheckError)
| InvalidTime (time : string) (reason : string)
| EnvBlake2bError.

Record GenesisAdditionalData : Type := mkAdditionalData {
  genesis_max_operations_ttl : Z;
  genesis_last_allowed_fork_level : Z;
  genesis_protocol_hash : bytes;
  genesis_next_protocol_hash : bytes;
}.

Definition PROTOCOL_HASH_ZERO_BASE58_CHECK : string :=
  "PrihK96nBAFSxVL1GLJTVhu9YnzkMFiBeuJRPA8NwuZVZCE1L6i".

(** [chrono::DateTime::parse_from_rfc3339], as seconds since the epoch. *)
Class ChronoCrate : Type := {
  chrono_parse_from_rfc3339 : string -> result string Z;
}.

Section Genesis.
Context `{Base58Crate, Sodium, ChronoCrate}.

Definition get_empty_operation_list_list_hash : result FromBase58CheckError bytes :=
  b58check_to_hash OperationListListHash
    (str_bytes "LLoZS2LW3rEi7KYU4ouBQtorua37aWWCtpDmv1n2x3xoKi6sVXLWp").

Definition genesis_header_hash (self : TezosEnvironmentConfiguration)
  : result TezosEnvironmentError bytes :=
  map_err (InvalidBlockHash (genesis_block (genesis self)))
    (b58check_to_hash BlockHash (str_bytes (genesis_block (genesis self)))).

Definition main_chain_id (self : TezosEnvironmentConfiguration)
  : result TezosEnvironmentError bytes :=
  h ← genesis_header_hash self;
  map_err (fun _ => EnvBlake2bError) (chain_id_from_block_hash h).

Definition genesis_protocol (self : TezosEnvironmentConfiguration)
  : result TezosEnvironmentError bytes :=
  map_err (InvalidProtocolHash (genesis_protocol_text (genesis self)))
    (b58check_to_hash ProtocolHash (str_bytes (genesis_protocol_text (genesis self)))).

Definition parse_from_rfc3339 (time : string) : result TezosEnvironmentError Z :=
  map_err (InvalidTime time) (chrono_parse_from_rfc3339 time).

Definition genesis_time (self : TezosEnvironmentConfiguration) : result TezosEnvironmentError Z :=
  parse_from_rfc3339 (genesis_time_text (genesis self)).

Definition genesis_header (self : TezosEnvironmentConfiguration)
  (context_hash operation_list_list_hash : bytes) : result TezosEnvironmentError BlockHeader.t :=
  genesis_hash ← genesis_header_hash self;
  genesis_time ← genesis_time self;
  Ok (BlockHeader.mk 0 0 genesis_hash genesis_time 0 operation_list_list_hash [] context_hash []).

(** The error of the zero hash names the genesis protocol. *)
Definition genesis_additional_data (self : TezosEnvironmentConfiguration)
  : result TezosEnvironmentError GenesisAdditionalData :=
  protocol_hash ← map_err (InvalidProtocolHash (genesis_protocol_text (genesis self)))
    (b58check_to_hash ProtocolHash (str_bytes PROTOCOL_HASH_ZERO_BASE58_CHECK));
  next_protocol_hash ← genesis_protocol self;
  Ok (mkAdditionalData 0 0 protocol_hash next_protocol_hash).
End Genesis.

(** ** Bootstrap addresses *)

(** [str::rfind] of a character, [str::starts_with]. *)
Fixpoint rfind (c : ascii) (s : string) : option nat :=
  match s with
  | EmptyString => None
  | String a s' =>
      match rfind c s' with
      | Some i => Some (S i)
      | None => if Ascii.eqb a c then Some 0%nat else None
      end
  end.
Definition starts_with (c : ascii) (s : string) : bool :=
  match s with String a _ => Ascii.eqb a c | EmptyString => false end.
Fixpoint count_char (c : ascii) (s : string) : nat :=
  match s with
  | EmptyString => 0
  | String a s' => ((if Ascii.eqb a c then 1 else 0) + count_char c s')%nat
  end.

(** [str::parse::<u16>]: a plus sign is allowed before the digits. *)
Inductive ParseIntError : Type := IntEmpty | IntInvalidDigit | IntPosOverflow.
Definition int_error_text (e : ParseIntError) : string :=
  match e with
  | IntEmpty => "cannot parse integer from empty string"
  | IntInvalidDigit => "invalid digit found in string"
  | IntPosOverflow => "number too large to fit in target type"
  end.

Definition decimal_digit (a : ascii) : option Z :=
  let n := Z.of_nat (nat_of_ascii a) in
  if ((48 <=? n) && (n <=? 57))%Z then Some (n - 48) else None.

Fixpoint parse_digits (max : Z) (acc : Z) (s : string) : result ParseIntError Z :=
  match s with
  | EmptyString => Ok acc
  | String a s' =>
      match decimal_digit a with
      | None => Err IntInvalidDigit
      | Some d =>
          if (max <? acc * 10)%Z then Err IntPosOverflow
          else if (max <? acc * 10 + d)%Z then Err IntPosOverflow
          else parse_digits max (acc * 10 + d) s'
      end
  end.

Definition parse_u16 (s : string) : result ParseIntError Z :=
  match s with
  | EmptyString => Err IntEmpty
  | String a EmptyString =>
      if (Ascii.eqb a "+" || Ascii.eqb a "-")%bool then Err IntInvalidDigit
      else parse_digits 65535 0 s
  | String a s' => if Ascii.eqb a "+" then parse_digits 65535 0 s' else parse_digits 65535 0 s
  end.

Definition AddrParseError : Type := string.
Definition invalid_value (addr reason : string) : AddrParseError :=
  ("Invalid value '" ++ addr ++ "' - " ++ reason)%string.

(** The address part and the port part, if there is one. *)
Definition split_addr (addr : string) : result AddrParseError (string * option string) :=
  if starts_with "[" addr then
    match rfind "]" addr with
    | Some idx =>
        let addr_part := substring 1 (idx - 1) addr in
        if (String.length addr - 1 <=? idx)%nat then Ok (addr_part, None)
        else if negb (String.eqb (substring (idx + 1) 1 addr) ":")
        then Err (invalid_value addr "invalid part with '<:PORT>'")
        else Ok (addr_part, Some (substring (idx + 2) (String.length addr - (idx + 2)) addr))
    | None => Err (invalid_value addr "missing closing ']'")
    end
  else
    match rfind "]" addr with
    | Some _ => Err (invalid_value addr "missing starting '['")
    | None =>
        match count_char ":" addr with
        | 0%nat => Ok (addr, None)
        | 1%nat =>
            match split_on ":" addr with
            | [] => Err (invalid_value addr "invalid addr part")
            | [_] => Err (invalid_value addr "invalid port part")
            | addr_part :: port_part :: _ => Ok (addr_part, Some port_part)
            end
        | _ => Err (invalid_value addr "Ipv6 addr should be wrapped with '[...]'")
        end
    end.

Definition parse_bootstrap_addr_port (addr : string) (default_port : Z)
  : result AddrParseError (string * Z) :=
  parts ← split_addr addr;
  let (addr, port) := (parts : string * option string) in
  match port with
  | Some p =>
      match parse_u16 p with
      | Ok p => Ok (addr, p)
      | Err e =>
          Err (invalid_value addr
                 ("invalid port value '" ++ p ++ "', reason: " ++ int_error_text e)%string)
      end
  | None => Ok (addr, default_port)
  end.

(** ** [ZcashParams] *)

(** [Path::join]: an absolute path replaces, otherwise one slash separates. *)
Definition ends_with_slash (s : string) : bool :=
  match List.rev (list_ascii_of_string s) with a :: _ => Ascii.eqb a "/" | [] => false end.
Definition path_join (a b : string) : string :=
  if starts_with "/" b then b
  else if String.eqb a "" then b
  else if ends_with_slash a then (a ++ b)%string
  else (a ++ "/" ++ b)%string.

(** [env::var_os] and [OsStr::to_str]. *)
Record OsEnv : Type := mkOsEnv {
  var_os : string -> option string;
  to_str : string -> option string;
}.

(** The file system: the operations may fail, a copy leaves a file at the
    destination, and nothing is removed. *)
Class FileSystem : Type := {
  Fs : Type;
  path_exists : Fs -> string -> bool;
  create_dir_all : string -> Fs -> result string Fs;
  fs_copy : string -> string -> Fs -> result string Fs;
  create_dir_all_keeps d fs fs' p :
    create_dir_all d fs = Ok fs' -> path_exists fs p = true -> path_exists fs' p = true;
  fs_copy_exists a b fs fs' : fs_copy a b fs = Ok fs' -> path_exists fs' b = true;
  fs_copy_keeps a b fs fs' p :
    fs_copy a b fs = Ok fs' -> path_exists fs p = true -> path_exists fs' p = true;
}.

Definition SAPLING_SPEND_PARAMS_FILE_NAME : string := "sapling-spend.params".
Definition SAPLING_OUTPUT_PARAMS_FILE_NAME : string := "sapling-output.params".

Record ZcashParams : Type := mkZcashParams {
  init_sapling_spend_params_file : string;
  init_sapling_output_params_file : string;
}.

Section Zcash.
Context (env : OsEnv).

Definition home_dir : string := default "/" (var_os env "HOME").

Definition candidate_dirs : list string :=
  let opam :=
    match var_os env "OPAM_SWITCH_PREFIX" with
    | Some opam_switch_path => [path_join opam_switch_path "share/zcash-params"]
    | None => []
    end in
  let home := [path_join home_dir ".zcash-params"] in
  let data_home :=
    match var_os env "XDG_DATA_HOME" with
    | Some xdg_data_home => xdg_data_home
    | None => path_join home_dir ".local/share/"
    end in
  let xdg := default "/usr/local/share/:/usr/share/" (var_os env "XDG_DATA_DIRS") in
  let data_dirs :=
    data_home :: split_on ":" (default "/usr/local/share/:/usr/share/" (to_str env xdg)) in
  opam ++ home ++ ((fun dir => path_join dir "zcash-params") <$> data_dirs).

Section Files.
Context `{FileSystem}.

Definition has_params (fs : Fs) (candidate : string) : bool :=
  path_exists fs (path_join candidate SAPLING_SPEND_PARAMS_FILE_NAME) &&
  path_exists fs (path_join candidate SAPLING_OUTPUT_PARAMS_FILE_NAME).

(** The loop does not stop at the first directory found. *)
Definition zcash_params_dir_found (fs : Fs) : bool :=
  fold_left (fun found candidate => if has_params fs candidate then true else found)
    candidate_dirs false.

Definition assert_zcash_params (self : ZcashParams) (fs : Fs) : result string Fs :=
  if zcash_params_dir_found fs then Ok fs
  else if negb (path_exists fs (init_sapling_spend_params_file self)) then
    Err ("File not found for init_sapling_spend_params_file: " ++
         quoted (init_sapling_spend_params_file self))%string
  else if negb (path_exists fs (init_sapling_output_params_file self)) then
    Err ("File not found for init_sapling_output_params_file: " ++
         quoted (init_sapling_output_params_file self))%string
  else
    let zcash_param_dir := path_join home_dir ".zcash-params" in
    fs ← (if path_exists fs zcash_param_dir then Ok fs else create_dir_all zcash_param_dir fs);
    fs ← fs_copy (init_sapling_spend_params_file self)
           (path_join zcash_param_dir SAPLING_SPEND_PARAMS_FILE_NAME) fs;
    fs_copy (init_sapling_output_params_file self)
      (path_join zcash_param_dir SAPLING_OUTPUT_PARAMS_FILE_NAME) fs.
End Files.
End Zcash.
