(* ===== verification/EnvironmentFacts.v ===== *)
(** * Facts about the networks

    Names parse to the network that lists them, every network has a
    configuration whose addresses and version are usable, bootstrap addresses
    parse back to the host and the port they were written from, ports stay in
    range, and the zcash parameters are in place after the check. *)

From Stdlib Require Import ZArith Lia List Bool String Ascii.
From stdpp Require Import base option list numbers strings gmap.
From S2P Require Import Prelude Extern CryptoHash Types Serializer BinaryWriter NomCrate NomReader Derive BinaryMessage Messages MessageTypes ProtocolConstants ApiTypes Environment.

Local Open Scope string_scope.
Local Open Scope list_scope.

(** ** Names *)
Lemma environment_iter_all e : e ∈ TezosEnvironment_iter.
Proof. unfold TezosEnvironment_iter. destruct e; set_solver. Qed.

Lemma find_environment_ok s l e : find_environment s l = Ok e -> e ∈ l /\ s ∈ supported_values e.
Proof.
  induction l as [|sp l IH]; simpl; [done|]. case_bool_decide as Hs.
  - intros [= <-]. split; [left|done].
  - intros He. destruct (IH He). split; [by right|done].
Qed.

(** No name is listed by two networks. *)
Lemma supported_values_disjoint s e e' :
  s ∈ supported_values e -> s ∈ supported_values e' -> e = e'.
Proof.
  intros H1 H2.
  assert (Hall : Forall (fun e => Forall (fun s => find_environment s TezosEnvironment_iter = Ok e)
    (supported_values e)) TezosEnvironment_iter).
  { repeat (apply Forall_cons; split); try apply Forall_nil; try done; vm_compute; reflexivity. }
  assert (Hf : forall e, s ∈ supported_values e -> find_environment s TezosEnvironment_iter = Ok e).
  { intros e0 Hs. pose proof (proj1 (Forall_forall _ _) Hall e0 (environment_iter_all e0)) as He.
    exact (proj1 (Forall_forall _ _) He s Hs). }
  pose proof (Hf e H1). pose proof (Hf e' H2). congruence.
Qed.

(** Parsing the name of a network ignores the case of ASCII letters and
    answers the one network that lists the name, and no other text parses. *)
Theorem from_str_spec s e : from_str s = Ok e <-> to_ascii_lowercase s ∈ supported_values e.
Proof.
  unfold from_str. split; [by intros [_ ?]%find_environment_ok|]. intros Hs.
  assert (Hin := environment_iter_all e). revert Hin.
  generalize TezosEnvironment_iter. intros l. induction l as [|sp l IH]; simpl; intros Hin.
  { by apply not_elem_of_nil in Hin. }
  case_bool_decide as Hsp.
  - f_equal. by eapply supported_values_disjoint.
  - apply IH. apply elem_of_cons in Hin as [->|]; [done|done].
Qed.

(** ** Configurations *)
Lemma init_is_Some e : is_Some (init !! e).
Proof. destruct e; vm_compute; eauto. Qed.

Definition configuration_ok (c : TezosEnvironmentConfiguration) : bool :=
  forallb (fun a => is_ok (parse_bootstrap_addr_port a 9732)) (bootstrap_lookup_addresses c) &&
  (Z.of_nat (String.length (version c)) <=? CHAIN_NAME_MAX_LENGTH)%Z &&
  forallb (fun u => (0 <=? u.1) && (u.1 <? 2 ^ 31))%Z (user_activated_upgrades (protocol_overrides c)).

Lemma is_ok_addr_default a p q :
  is_ok (parse_bootstrap_addr_port a p) = is_ok (parse_bootstrap_addr_port a q).
Proof.
  unfold parse_bootstrap_addr_port. destruct (split_addr a) as [[? [?|]]|]; [|done..].
  simpl. by destruct (parse_u16 _).
Qed.

(** Every network has a configuration: its bootstrap addresses parse with any
    default port, its version fits the chain name of a connection message, and
    its upgrades are at levels of a block. *)
Theorem init_configures_all e :
  exists c, init !! e = Some c /\
    Forall (fun a => forall port, exists host p, parse_bootstrap_addr_port a port = Ok (host, p))
      (bootstrap_lookup_addresses c) /\
    Z.of_nat (String.length (version c)) <= CHAIN_NAME_MAX_LENGTH /\
    Forall (fun u => in_s 32 u.1) (user_activated_upgrades (protocol_overrides c)).
Proof.
  destruct (init_is_Some e) as [c Hc]. exists c. split; [done|].
  assert (Hok : configuration_ok c = true).
  { destruct e; vm_compute in Hc; injection Hc as <-; vm_compute; reflexivity. }
  unfold configuration_ok in Hok. apply andb_true_iff in Hok as [[Ha Hv%Z.leb_le]%andb_true_iff Hu].
  ssplit; [|done|].
  - apply Forall_forall. intros a Hin port.
    assert (Hp : is_ok (parse_bootstrap_addr_port a port) = true).
    { rewrite (is_ok_addr_default _ _ 9732). apply (proj1 (forallb_forall _ _) Ha).
      by apply list_elem_of_In. }
    destruct (parse_bootstrap_addr_port a port) as [[host p]|]; [eauto|done].
  - apply Forall_forall. intros u Hin%list_elem_of_In.
    pose proof (proj1 (forallb_forall _ _) Hu u Hin) as Hb. unfold in_s. cbn in *. lia.
Qed.

(** The deprecated Edo network has the configuration of the one that replaced it. *)
Lemma edonet_redirected : init !! Edonet = init !! Edo2net.
Proof. reflexivity. Qed.

(** ** Numbers *)
Fixpoint digits_value (acc : Z) (s : string) : Z :=
  match s with
  | EmptyString => acc
  | String a s' => digits_value (acc * 10 + default 0 (decimal_digit a)) s'
  end.
Definition is_digits (s : string) : Prop :=
  s <> "" /\ Forall (fun a => is_Some (decimal_digit a)) (list_ascii_of_string s).

Lemma decimal_digit_range a d : decimal_digit a = Some d -> 0 <= d <= 9.
Proof.
  unfold decimal_digit. intros Hd.
  destruct ((48 <=? Z.of_nat (nat_of_ascii a))%Z && (Z.of_nat (nat_of_ascii a) <=? 57)%Z) eqn:E;
    [|done]. simplify_eq. lia.
Qed.

Lemma digits_value_ge acc s :
  0 <= acc -> Forall (fun a => is_Some (decimal_digit a)) (list_ascii_of_string s) ->
  acc <= digits_value acc s.
Proof.
  revert acc. induction s as [|a s IH]; intros acc Ha Hs; simpl; [lia|].
  apply Forall_cons in Hs as [[d Hd] Hs]. rewrite Hd. simpl.
  apply decimal_digit_range in Hd. specialize (IH (acc * 10 + d)). lia || (etransitivity; [|apply IH; [lia|done]]; lia).
Qed.

Lemma parse_digits_value max acc s :
  0 <= acc <= max -> Forall (fun a => is_Some (decimal_digit a)) (list_ascii_of_string s) ->
  parse_digits max acc s =
    if (digits_value acc s <=? max)%Z then Ok (digits_value acc s) else Err IntPosOverflow.
Proof.
  revert acc. induction s as [|a s IH]; intros acc Ha Hs; simpl.
  { by rewrite (proj2 (Z.leb_le acc max)) by lia. }
  apply Forall_cons in Hs as [[d Hd] Hs]. rewrite Hd. simpl.
  pose proof (decimal_digit_range _ _ Hd).
  pose proof (digits_value_ge (acc * 10 + d) s ltac:(lia) Hs).
  destruct (Z.ltb_spec max (acc * 10)), (Z.ltb_spec max (acc * 10 + d)); [|lia| |].
  - by rewrite (proj2 (Z.leb_gt _ _)) by lia.
  - by rewrite (proj2 (Z.leb_gt _ _)) by lia.
  - by apply IH; [lia|].
Qed.

Lemma parse_u16_digits s :
  is_digits s ->
  parse_u16 s = if (digits_value 0 s <=? 65535)%Z then Ok (digits_value 0 s) else Err IntPosOverflow.
Proof.
  intros [Hne Hs]. rewrite <- parse_digits_value by (done || lia).
  destruct s as [|a s]; [done|]. unfold parse_u16.
  assert (Ascii.eqb a "+" = false /\ Ascii.eqb a "-" = false) as [-> ->].
  { apply Forall_cons in Hs as [[d Hd] _].
    split; apply Ascii.eqb_neq; intros ->; by vm_compute in Hd. }
  by destruct s.
Qed.

Lemma parse_digits_range max acc s n :
  0 <= acc <= max -> parse_digits max acc s = Ok n -> 0 <= n <= max.
Proof.
  revert acc. induction s as [|a s IH]; intros acc Ha; simpl; [intros [= <-]; lia|].
  destruct (decimal_digit a) as [d|] eqn:Hd; [|done]. apply decimal_digit_range in Hd.
  destruct (Z.ltb_spec max (acc * 10)), (Z.ltb_spec max (acc * 10 + d)); try done.
  apply IH. lia.
Qed.

Lemma parse_u16_range s n : parse_u16 s = Ok n -> in_u 16 n.
Proof.
  assert (Hr : forall s, parse_digits 65535 0 s = Ok n -> in_u 16 n).
  { intros s' Hs%parse_digits_range; unfold in_u; lia. }
  unfold parse_u16. destruct s as [|a [|b s]]; [done| |].
  - destruct (_ || _)%bool; [done|apply Hr].
  - destruct (Ascii.eqb _ _); apply Hr.
Qed.

(** ** Text *)
Lemma substring_0_app a b : substring 0 (String.length a) (a ++ b)%string = a.
Proof. induction a as [|c a IH]; simpl; [by destruct b|]. by rewrite IH. Qed.

Lemma substring_all a : substring 0 (String.length a) a = a.
Proof. induction a as [|c a IH]; simpl; [done|]. by rewrite IH. Qed.

Lemma substring_skip a b n :
  substring (String.length a) n (a ++ b)%string = substring 0 n b.
Proof. by induction a. Qed.

Lemma length_append a b :
  String.length (a ++ b)%string = (String.length a + String.length b)%nat.
Proof. induction a as [|c a IH]; simpl; [done|]. by rewrite IH. Qed.

Lemma rfind_none c s : count_char c s = 0%nat -> rfind c s = None.
Proof.
  induction s as [|a s IH]; simpl; [done|]. destruct (Ascii.eqb a c); [done|].
  intros Hs. by rewrite IH.
Qed.

Lemma rfind_app c a b : count_char c b = 0%nat -> rfind c (a ++ String c b)%string = Some (String.length a).
Proof.
  intros Hb. induction a as [|x a IH]; simpl.
  - by rewrite (rfind_none _ _ Hb), Ascii.eqb_refl.
  - by rewrite IH.
Qed.

Lemma count_char_app c a b : count_char c (a ++ b)%string = (count_char c a + count_char c b)%nat.
Proof. induction a as [|x a IH]; simpl; [done|]. rewrite IH. lia. Qed.

Lemma split_on_none c s : count_char c s = 0%nat -> split_on c s = [s].
Proof.
  induction s as [|a s IH]; simpl; [done|]. destruct (Ascii.eqb a c); [done|].
  intros Hs. by rewrite IH.
Qed.

Lemma split_on_app c a b :
  count_char c a = 0%nat -> split_on c (a ++ String c b)%string = a :: split_on c b.
Proof.
  induction a as [|x a IH]; simpl; [by rewrite Ascii.eqb_refl|].
  destruct (Ascii.eqb x c); [done|]. intros Ha. by rewrite IH.
Qed.

Lemma count_char_digits c s :
  Forall (fun a => is_Some (decimal_digit a)) (list_ascii_of_string s) ->
  decimal_digit c = None -> count_char c s = 0%nat.
Proof.
  intros Hs Hc. induction s as [|a s IH]; simpl; [done|].
  apply Forall_cons in Hs as [[d Hd] Hs].
  destruct (Ascii.eqb_spec a c) as [->|_]; [congruence|]. by apply IH.
Qed.

(** ** Addresses *)

(** How an address is written: bare, or between brackets, with or without a port. *)
Definition write_addr (bracketed : bool) (host : string) (port : option string) : string :=
  ((if bracketed then "[" ++ host ++ "]" else host) ++
   match port with Some p => ":" ++ p | None => "" end)%string.

(** Brackets quote everything; a bare host must not look like something else. *)
Definition writable (bracketed : bool) (host : string) : Prop :=
  bracketed = true \/
  (count_char ":" host = 0%nat /\ count_char "]" host = 0%nat /\ starts_with "[" host = false).

Lemma append_empty_r (a : string) : (a ++ "")%string = a.
Proof.
  induction a as [|x a IH]; [done|]. change (String x (a ++ "") = String x a)%string. by rewrite IH.
Qed.

Lemma write_addr_bracketed host port :
  write_addr true host port =
    String "[" (host ++ String "]" match port with Some p => String ":" p | None => "" end)%string.
Proof.
  unfold write_addr.
  assert (Ht : forall t, (("[" ++ host ++ "]") ++ t = String "[" (host ++ String "]" t))%string).
  { intros t. change (String "[" ((host ++ "]") ++ t) = String "[" (host ++ String "]" t))%string.
    f_equal. induction host as [|x h IH]; [done|].
    change (String x ((h ++ "]") ++ t) = String x (h ++ String "]" t))%string. by rewrite IH. }
  rewrite Ht. by destruct port.
Qed.

Lemma substring_in_host host k n t :
  substring (String.length host + k) n (host ++ t)%string = substring k n t.
Proof. by induction host. Qed.

Lemma split_addr_bracketed host : split_addr (write_addr true host None) = Ok (host, None).
Proof.
  rewrite write_addr_bracketed. unfold split_addr. cbn [starts_with].
  change (Ascii.eqb "[" "[") with true. cbn [rfind].
  rewrite (rfind_app "]" host "") by done. cbn [substring].
  rewrite Nat.sub_succ, Nat.sub_0_r, substring_0_app. cbn [String.length].
  rewrite length_append. cbn [String.length].
  rewrite (proj2 (Nat.leb_le _ _)) by lia. done.
Qed.

Lemma split_addr_bracketed_port host p :
  count_char "]" p = 0%nat ->
  split_addr (write_addr true host (Some p)) = Ok (host, Some p).
Proof.
  intros Hp. rewrite write_addr_bracketed. unfold split_addr. cbn [starts_with]. change (Ascii.eqb "[" "[") with true. cbn [rfind].
  rewrite (rfind_app "]" host (String ":" p)) by done. cbn [substring].
  rewrite Nat.sub_succ, Nat.sub_0_r, substring_0_app. cbn [String.length].
  rewrite length_append. cbn [String.length].
  destruct (Nat.leb_spec (S (String.length host + S (S (String.length p))) - 1) (S (String.length host)));
    [lia|].
  replace (S (String.length host) + 1)%nat with (S (String.length host + 1)) by lia.
  replace (S (String.length host) + 2)%nat with (S (String.length host + 2)) by lia.
  cbn [substring]. rewrite !substring_in_host. cbn [substring].
  replace (substring 0 0 p) with "" by (by destruct p).
  change (String.eqb ":" ":") with true. cbn [negb].
  replace (S (String.length host + S (S (String.length p))) - S (String.length host + 2))%nat
    with (String.length p) by lia.
  by rewrite substring_all.
Qed.

Lemma split_addr_bare host port :
  count_char ":" host = 0%nat -> count_char "]" host = 0%nat -> starts_with "[" host = false ->
  match port with
  | Some p => count_char ":" p = 0%nat /\ count_char "]" p = 0%nat
  | None => True
  end ->
  split_addr (write_addr false host port) = Ok (host, port).
Proof.
  intros Hc Hb Hs Hp. unfold write_addr, split_addr.
  destruct port as [p|].
  - destruct Hp as [Hpc Hpb].
    replace (starts_with "[" (host ++ ":" ++ p)%string) with false
      by (destruct host as [|a h]; [done|exact (eq_sym Hs)]).
    change (":" ++ p)%string with (String ":" p).
    rewrite rfind_none by (rewrite count_char_app; simpl; lia).
    rewrite count_char_app. simpl. rewrite Hc, Hpc. simpl.
    by rewrite split_on_app, split_on_none.
  - rewrite append_empty_r, Hs, rfind_none, Hc by done. done.
Qed.

(** (C36) An address parses back to the host and the port it was written from,
    bare or between brackets; a port is any decimal number of at most 65535, a
    larger one is refused, and without a port the default is used. *)
Theorem parse_bootstrap_addr_port_written bracketed host port default_port :
  writable bracketed host ->
  match port with Some p => is_digits p | None => True end ->
  parse_bootstrap_addr_port (write_addr bracketed host port) default_port =
    match port with
    | None => Ok (host, default_port)
    | Some p =>
        if (digits_value 0 p <=? 65535)%Z then Ok (host, digits_value 0 p)
        else Err (invalid_value host ("invalid port value '" ++ p ++ "', reason: " ++
                    int_error_text IntPosOverflow)%string)
    end.
Proof.
  intros Hw Hp. unfold parse_bootstrap_addr_port.
  assert (split_addr (write_addr bracketed host port) = Ok (host, port)) as ->.
  { assert (Hc : match port with
      | Some p => count_char ":" p = 0%nat /\ count_char "]" p = 0%nat | None => True end).
    { destruct port; [|done]. destruct Hp as [_ Hp]. split; by apply count_char_digits. }
    destruct bracketed, Hw as [Hw|(Hw1 & Hw2 & Hw3)]; try done.
    - destruct port; [apply split_addr_bracketed_port, Hc|apply split_addr_bracketed].
    - destruct port; [apply split_addr_bracketed_port, Hc|apply split_addr_bracketed].
    - by apply split_addr_bare. }
  simpl. destruct port as [p|]; [|done]. rewrite parse_u16_digits by done.
  by destruct (_ <=? 65535)%Z.
Qed.

Lemma parse_bootstrap_addr_port_written_witness :
  parse_bootstrap_addr_port "[fe80:e828:209d:20e:c0ae::]:375" 5 = Ok ("fe80:e828:209d:20e:c0ae::", 375) /\
  parse_bootstrap_addr_port "188.40.128.216:29732" 5 = Ok ("188.40.128.216", 29732) /\
  parse_bootstrap_addr_port "edonet.tezos.co.il" 5 = Ok ("edonet.tezos.co.il", 5) /\
  is_ok (parse_bootstrap_addr_port "edonet.tezos.co.il:65536" 5) = false.
Proof.
  assert (Hd : forall a n, forallb (fun x => match decimal_digit x with Some _ => true | None => false end)
      (list_ascii_of_string (String a n)) = true -> is_digits (String a n)).
  { intros a n Hn. split; [done|]. apply Forall_forall. intros x Hx%list_elem_of_In.
    pose proof (proj1 (forallb_forall _ _) Hn x Hx) as Hxx. simpl in Hxx.
    destruct (decimal_digit x); [by eexists|discriminate Hxx]. }
  ssplit.
  - apply (parse_bootstrap_addr_port_written true "fe80:e828:209d:20e:c0ae::" (Some "375") 5);
      [by left|by apply Hd].
  - apply (parse_bootstrap_addr_port_written false "188.40.128.216" (Some "29732") 5);
      [right; ssplit; reflexivity|by apply Hd].
  - apply (parse_bootstrap_addr_port_written false "edonet.tezos.co.il" None 5);
      [right; ssplit; reflexivity|done].
  - change "edonet.tezos.co.il:65536" with (write_addr false "edonet.tezos.co.il" (Some "65536")).
    rewrite (parse_bootstrap_addr_port_written false "edonet.tezos.co.il" (Some "65536") 5);
      [reflexivity|right; ssplit; reflexivity|by apply Hd].
Defined.

Lemma parse_bootstrap_addr_port_range addr default_port host port :
  in_u 16 default_port -> parse_bootstrap_addr_port addr default_port = Ok (host, port) ->
  in_u 16 port.
Proof.
  intros Hd. unfold parse_bootstrap_addr_port. destruct (split_addr addr) as [[h [p|]]|]; simpl; [| |done].
  - destruct (parse_u16 p) eqn:Hp; [|done]. intros [= <- <-]. by eapply parse_u16_range.
  - by intros [= <- <-].
Qed.

(** A bare IPv6 address is refused. *)
Lemma parse_bootstrap_bare_ipv6 addr default_port :
  starts_with "[" addr = false -> (2 <= count_char ":" addr)%nat ->
  is_ok (parse_bootstrap_addr_port addr default_port) = false.
Proof.
  intros Hs Hc. unfold parse_bootstrap_addr_port, split_addr. rewrite Hs.
  destruct (rfind "]" addr); [done|]. by destruct (count_char ":" addr) as [|[|n]]; [lia|lia|].
Qed.

(** ** Zcash parameters *)
Section Zcash.
Context (env : OsEnv) `{FileSystem}.

Lemma zcash_found_spec fs :
  zcash_params_dir_found env fs = true <->
  Exists (fun d => has_params fs d = true) (candidate_dirs env).
Proof.
  unfold zcash_params_dir_found.
  assert (Hgen : forall l b,
    fold_left (fun found candidate => if has_params fs candidate then true else found) l b = true <->
    b = true \/ Exists (fun d => has_params fs d = true) l).
  { induction l as [|d l IH]; intros b; simpl.
    - rewrite Exists_nil. tauto.
    - rewrite IH, Exists_cons. destruct (has_params fs d); naive_solver. }
  rewrite Hgen. naive_solver.
Qed.

(** When [assert_zcash_params] returns without an error, one of the directories
    the protocol looks in holds both parameter files: it was there already, or
    the files were copied to the home directory. *)
Theorem assert_zcash_params_found (self : ZcashParams) (fs fs' : Fs) :
  assert_zcash_params env self fs = Ok fs' ->
  Exists (fun d => has_params fs' d = true) (candidate_dirs env).
Proof.
  unfold assert_zcash_params. destruct (zcash_params_dir_found env fs) eqn:Hf.
  { intros [= <-]. by apply zcash_found_spec. }
  destruct (path_exists fs (init_sapling_spend_params_file self)); simpl; [|done].
  destruct (path_exists fs (init_sapling_output_params_file self)); simpl; [|done].
  intros Hr. inv_res Hr. apply Exists_exists.
  exists (path_join (home_dir env) ".zcash-params"). split.
  - unfold candidate_dirs. set_solver.
  - unfold has_params. apply andb_true_iff. split.
    + eapply fs_copy_keeps; [done|]. by eapply fs_copy_exists.
    + by eapply fs_copy_exists.
Qed.
End Zcash.

(** A file system that is the list of its paths. *)
Definition reference_fs : FileSystem.
Proof.
  refine {|
    Fs := list string;
    path_exists fs p := bool_decide (p ∈ fs);
    create_dir_all d fs := Ok (d :: fs);
    fs_copy a b fs := if bool_decide (a ∈ fs) then Ok (b :: fs) else Err "not found";
  |}.
  - intros d fs fs' p [= <-] Hp%bool_decide_eq_true. apply bool_decide_eq_true. by right.
  - intros a b fs fs' Hc. case_bool_decide; [|done]. simplify_eq. apply bool_decide_eq_true. left.
  - intros a b fs fs' p Hc Hp%bool_decide_eq_true. case_bool_decide; [|done]. simplify_eq.
    apply bool_decide_eq_true. by right.
Defined.

Lemma assert_zcash_params_found_witness :
  let env := mkOsEnv (fun v => if String.eqb v "HOME" then Some "/root" else None) Some in
  let zcash := mkZcashParams "spend" "output" in
  match @assert_zcash_params env reference_fs zcash ["spend"; "output"] with
  | Ok fs' => Exists (fun d => @has_params reference_fs fs' d = true) (candidate_dirs env) /\
      "/root/.zcash-params/sapling-spend.params" ∈ fs'
  | Err _ => False
  end.
Proof.
  intros env zcash.
  destruct (@assert_zcash_params env reference_fs zcash ["spend"; "output"]) as [fs'|] eqn:E.
  - split; [exact (@assert_zcash_params_found env reference_fs zcash _ fs' E)|].
    vm_compute in E. injection E as <-. right. left.
  - vm_compute in E. discriminate E.
Defined.
