(* ===== verification/Rpc.v ===== *)
(** * Requests and answers over a channel

    The shape that the protocol service and the context service share: a server
    that takes requests from a channel one by one and sends an answer for each,
    and a client that sends one request, waits a limited time and checks the kind
    of the answer.  How much of its work the server gets done before the wait ends
    is the number of rounds an exchange takes.

    In step, an exchange gets the answer to its request.  When it times out, the
    answer stays behind, and every later exchange gets the answer to an earlier
    request. *)

From Stdlib Require Import ZArith Lia List Bool String.
From stdpp Require Import base option list.
From S2P Require Import Prelude.

(** ** The [ipc] crate

    It carries typed messages over a Unix socket.  Its sources are not part of the
    repository, so it is a class: a channel of one direction, with the messages that
    were sent and not received yet.  [healthy] channels deliver in order and lose
    nothing; a receive with a time limit on an empty channel is an error and changes
    nothing. *)
Class IpcCrate : Type := {
  IpcError : Type;
  (** [IpcError::OtherError { reason }], [SocketConfigurationError]. *)
  IpcOtherError : string -> IpcError;
  IpcTimeout : IpcError;
  debug_ipc_error : IpcError -> string;

  chan : Type -> Type;
  new_chan : forall A, chan A;
  queued : forall {A}, chan A -> list A;
  healthy : forall {A}, chan A -> Prop;
  ipc_send : forall {A}, A -> chan A -> result IpcError unit * chan A;
  (** Blocking: [None] while there is nothing to receive. *)
  ipc_receive : forall {A}, chan A -> option (result IpcError A * chan A);
  (** With the time limit, in seconds, for the message to arrive. *)
  ipc_try_receive : forall {A}, option Z -> chan A -> result IpcError A * chan A;

  new_chan_healthy A : healthy (new_chan A) /\ queued (new_chan A) = [];
  send_healthy A (m : A) c : healthy c ->
    exists c', ipc_send m c = (Ok tt, c') /\ queued c' = queued c ++ [m] /\ healthy c';
  receive_healthy A (c : chan A) : healthy c ->
    match queued c with
    | [] => ipc_receive c = None
    | m :: l => exists c', ipc_receive c = Some (Ok m, c') /\ queued c' = l /\ healthy c'
    end;
  try_receive_healthy A timeout (c : chan A) : healthy c ->
    match queued c with
    | [] => exists c', ipc_try_receive (Some timeout) c = (Err IpcTimeout, c') /\
              queued c' = [] /\ healthy c'
    | m :: l => exists c', ipc_try_receive (Some timeout) c = (Ok m, c') /\
              queued c' = l /\ healthy c'
    end;
}.

(** A channel that is the list of its messages. *)
Inductive reference_ipc_error : Type := RefOther (reason : string) | RefTimeout.

Definition reference_ipc : IpcCrate.
Proof.
  refine {|
    IpcError := reference_ipc_error;
    IpcOtherError := RefOther;
    IpcTimeout := RefTimeout;
    debug_ipc_error e := match e with RefOther r => r | RefTimeout => "Timeout"%string end;
    chan A := list A;
    new_chan A := [];
    queued A c := c;
    healthy A c := True;
    ipc_send A m c := (Ok tt, c ++ [m]);
    ipc_receive A c := match c with [] => None | m :: l => Some (Ok m, l) end;
    ipc_try_receive A timeout c :=
      match c with [] => (Err RefTimeout, []) | m :: l => (Ok m, l) end;
  |}.
  - done.
  - intros A m c _. by eexists.
  - intros A [|m l] _; [done|]. by eexists.
  - intros A timeout [|m l] _; by eexists.
Defined.

(** ** Servers *)

(** What the handling of a request ends in: an answer, an error that ends the loop
    without one, or the last answer. *)
Inductive outcome (A E : Type) : Type :=
| Answer (m : A)
| Fail (e : E)
| Stop (m : A).
Arguments Answer {A E} m.
Arguments Fail {A E} e.
Arguments Stop {A E} m.

(** The server with both channels; [ended] is the result of its loop once it has
    left it. *)
Record World `{IpcCrate} (Q A St E : Type) : Type := mkWorld {
  to_server : chan Q;
  to_client : chan A;
  server : St;
  ended : option (result E unit);
}.
Arguments mkWorld {_ Q A St E} _ _ _ _.
Arguments to_server {_ Q A St E} _.
Arguments to_client {_ Q A St E} _.
Arguments server {_ Q A St E} _.
Arguments ended {_ Q A St E} _.

Section Rpc.
Context `{IpcCrate} {Q A St E : Type}.
Context (handle : Q -> St -> outcome A E * St).
(** What the loop returns when a channel fails. *)
Context (send_failed : IpcError -> E) (receive_failed : IpcError -> result E unit).

(** One round of the loop; nothing happens while there is no request, or after it. *)
Definition round (w : World Q A St E) : World Q A St E :=
  match ended w with
  | Some _ => w
  | None =>
      match ipc_receive (to_server w) with
      | None => w
      | Some (Err e, rx) => mkWorld rx (to_client w) (server w) (Some (receive_failed e))
      | Some (Ok cmd, rx) =>
          match handle cmd (server w) with
          | (Answer m, s) =>
              match ipc_send m (to_client w) with
              | (Ok _, tx) => mkWorld rx tx s None
              | (Err e, tx) => mkWorld rx tx s (Some (Err (send_failed e)))
              end
          | (Fail e, s) => mkWorld rx (to_client w) s (Some (Err e))
          | (Stop m, s) => mkWorld rx (ipc_send m (to_client w)).2 s (Some (Ok tt))
          end
      end
  end.

Definition rounds (n : nat) (w : World Q A St E) : World Q A St E := Nat.iter n round w.

(** The client's errors. *)
Context {CE : Type} (ipc_failed : IpcError -> CE) (unexpected : A -> CE).

(** Send, wait, and look at the kind of the answer: [expect] is [None] on the
    others. *)
Definition exchange {B} (n : nat) (timeout : Z) (msg : Q) (expect : A -> option (result CE B))
  (w : World Q A St E) : result CE B * World Q A St E :=
  match ipc_send msg (to_server w) with
  | (Err e, tx) => (Err (ipc_failed e), mkWorld tx (to_client w) (server w) (ended w))
  | (Ok _, tx) =>
      let w := rounds n (mkWorld tx (to_client w) (server w) (ended w)) in
      let (answer, rx) := ipc_try_receive (Some timeout) (to_client w) in
      let w := mkWorld (to_server w) rx (server w) (ended w) in
      match answer with
      | Err e => (Err (ipc_failed e), w)
      | Ok message => (default (Err (unexpected message)) (expect message), w)
      end
  end.

(** ** States *)

(** Working channels and a server that is in its loop. *)
Definition up (w : World Q A St E) : Prop :=
  healthy (to_server w) /\ healthy (to_client w) /\ ended w = None.

(** Nothing is under way. *)
Definition in_step (w : World Q A St E) : Prop :=
  up w /\ queued (to_server w) = [] /\ queued (to_client w) = [].

(** ** Rounds *)
Lemma round_idle w : up w -> queued (to_server w) = [] -> round w = w.
Proof.
  intros (Ht & _ & He) Hq. unfold round. rewrite He.
  pose proof (receive_healthy _ _ Ht) as Hr. rewrite Hq in Hr. by rewrite Hr.
Qed.

Lemma round_answer w cmd l m s :
  up w -> queued (to_server w) = cmd :: l -> handle cmd (server w) = (Answer m, s) ->
  up (round w) /\ queued (to_server (round w)) = l /\
  queued (to_client (round w)) = queued (to_client w) ++ [m] /\ server (round w) = s.
Proof.
  intros (Ht & Hn & He) Hq Hp. unfold round. rewrite He.
  pose proof (receive_healthy _ _ Ht) as Hr. rewrite Hq in Hr.
  destruct Hr as (rx & -> & Hrx & Hhrx). rewrite Hp.
  destruct (send_healthy _ m (to_client w) Hn) as (tx & -> & Htx & Hhtx). done.
Qed.

Lemma rounds_idle n w : up w -> queued (to_server w) = [] -> rounds n w = w.
Proof.
  intros Hu Hq. unfold rounds. induction n as [|n IH]; [done|].
  simpl. rewrite IH. by apply round_idle.
Qed.

Lemma rounds_S n w : rounds (S n) w = rounds n (round w).
Proof. unfold rounds. by rewrite Nat.iter_succ_r. Qed.

Lemma rounds_ended n w : is_Some (ended w) -> rounds n w = w.
Proof.
  intros [r Hw]. unfold rounds. induction n as [|n IH]; [done|]. simpl. rewrite IH.
  unfold round. by rewrite Hw.
Qed.

(** ** One exchange *)
Lemma exchange_sent {B} n timeout msg (expect : A -> option (result CE B)) w :
  up w ->
  exists w1, up w1 /\ queued (to_server w1) = queued (to_server w) ++ [msg] /\
    to_client w1 = to_client w /\ server w1 = server w /\
    exchange n timeout msg expect w =
      (let w2 := rounds n w1 in
       let (answer, rx) := ipc_try_receive (Some timeout) (to_client w2) in
       let w3 := mkWorld (to_server w2) rx (server w2) (ended w2) in
       match answer with
       | Err e => (Err (ipc_failed e), w3)
       | Ok message => (default (Err (unexpected message)) (expect message), w3)
       end).
Proof.
  intros (Ht & Hn & He). destruct (send_healthy _ msg (to_server w) Ht) as (tx & Hs & Htx & Hhtx).
  exists (mkWorld tx (to_client w) (server w) (ended w)). ssplit; [done..|].
  unfold exchange. by rewrite Hs.
Qed.

(** In step, an exchange that the server answers in time gets that answer, and
    both sides are in step again. *)
Lemma exchange_in_step {B} n timeout msg (expect : A -> option (result CE B)) w m s :
  in_step w -> (1 <= n)%nat -> handle msg (server w) = (Answer m, s) ->
  exists w', exchange n timeout msg expect w =
      (default (Err (unexpected m)) (expect m), w') /\
    in_step w' /\ server w' = s.
Proof.
  intros (Hu & Hq & Hqn) Hn Hp.
  destruct (exchange_sent n timeout msg expect w Hu) as (w1 & Hu1 & Hq1 & Hn1 & Hr1 & ->).
  cbv zeta. destruct n as [|n]; [lia|]. rewrite rounds_S.
  rewrite Hq in Hq1. rewrite <- Hr1 in Hp.
  destruct (round_answer w1 msg [] m s Hu1 Hq1 Hp) as (Hu2 & Hq2 & Hqn2 & Hr2).
  rewrite rounds_idle by done. rewrite Hn1, Hqn in Hqn2.
  destruct Hu2 as (Ht2 & Hh2 & He2).
  pose proof (try_receive_healthy _ timeout _ Hh2) as Hrec. rewrite Hqn2 in Hrec.
  destruct Hrec as (rx & -> & Hrx & Hhrx). eexists. split; [done|]. by split.
Qed.

(** When nothing arrives in time, the request stays with the server. *)
Lemma exchange_late {B} timeout msg (expect : A -> option (result CE B)) w :
  in_step w ->
  exists w', exchange 0 timeout msg expect w = (Err (ipc_failed IpcTimeout), w') /\
    up w' /\ queued (to_server w') = [msg] /\ queued (to_client w') = [] /\ server w' = server w.
Proof.
  intros (Hu & Hq & Hqn).
  destruct (exchange_sent 0 timeout msg expect w Hu) as (w1 & (Ht1 & Hh1 & He1) & Hq1 & Hn1 & Hr1 & ->).
  unfold rounds. simpl. rewrite Hn1 in *.
  pose proof (try_receive_healthy _ timeout _ Hh1) as Hrec. rewrite Hqn in Hrec.
  destruct Hrec as (rx & -> & Hrx & Hhrx). eexists. split; [done|]. rewrite Hq in Hq1. by ssplit.
Qed.

(** The last exchange: the server answers and leaves its loop. *)
Lemma exchange_stop {B} n timeout msg (expect : A -> option (result CE B)) w m s :
  in_step w -> (1 <= n)%nat -> handle msg (server w) = (Stop m, s) ->
  exists w', exchange n timeout msg expect w = (default (Err (unexpected m)) (expect m), w') /\
    ended w' = Some (Ok tt) /\ server w' = s /\ queued (to_client w') = [].
Proof.
  intros (Hu & Hq & Hqn) Hn Hp.
  destruct (exchange_sent n timeout msg expect w Hu)
    as (w1 & (Ht1 & Hh1 & He1) & Hq1 & Hn1 & Hr1 & ->).
  cbv zeta. destruct n as [|n]; [lia|]. rewrite rounds_S. rewrite <- Hr1 in Hp.
  assert (Hround : exists rx tx, round w1 = mkWorld rx tx s (Some (Ok tt)) /\
     healthy tx /\ queued tx = [m]).
  { unfold round. rewrite He1.
    pose proof (receive_healthy _ _ Ht1) as Hrec. rewrite Hq1, Hq in Hrec.
    destruct Hrec as (rx & -> & _). rewrite Hp.
    destruct (send_healthy _ m (to_client w1) Hh1) as (tx & -> & Htx & Hhtx).
    exists rx, tx. split; [done|]. split; [done|]. by rewrite Htx, Hn1, Hqn. }
  destruct Hround as (rx & tx & -> & Hh & Hqt).
  rewrite rounds_ended by done. cbn [to_client to_server server ended].
  pose proof (try_receive_healthy _ timeout _ Hh) as Hrec. rewrite Hqt in Hrec.
  destruct Hrec as (rx' & -> & Hrx' & _). eexists. by ssplit.
Qed.

(** ** Out of step *)

(** An answer that waits to be received stays the first, whatever the server does. *)
Lemma round_keeps_head w m l :
  healthy (to_client w) -> queued (to_client w) = m :: l ->
  healthy (to_client (round w)) /\ exists l', queued (to_client (round w)) = m :: l'.
Proof.
  intros Hn Hq. unfold round.
  destruct (ended w); [eauto|]. destruct (ipc_receive (to_server w)) as [[[cmd|e] rx]|]; [|eauto..].
  destruct (handle cmd (server w)) as [[m'|e|m'] r]; [|eauto|].
  - destruct (send_healthy _ m' (to_client w) Hn) as (tx & -> & Htx & Hh). simpl. rewrite Htx, Hq.
    split; [done|]. by eexists.
  - destruct (send_healthy _ m' (to_client w) Hn) as (tx & -> & Htx & Hh). simpl. rewrite Htx, Hq.
    split; [done|]. by eexists.
Qed.

Lemma rounds_keep_head n w m l :
  healthy (to_client w) -> queued (to_client w) = m :: l ->
  healthy (to_client (rounds n w)) /\ exists l', queued (to_client (rounds n w)) = m :: l'.
Proof.
  revert w l. induction n as [|n IH]; intros w l Hn Hq; [eauto|].
  rewrite rounds_S. destruct (round_keeps_head w m l Hn Hq) as (Hn' & l' & Hq'). by eapply IH.
Qed.

(** The answer an exchange receives is that of the oldest request that is not
    answered. *)
Lemma exchange_oldest {B} n timeout msg (expect : A -> option (result CE B)) w cmd l m s :
  up w -> queued (to_client w) = [] -> queued (to_server w) = cmd :: l -> (1 <= n)%nat ->
  handle cmd (server w) = (Answer m, s) ->
  (exchange n timeout msg expect w).1 = default (Err (unexpected m)) (expect m).
Proof.
  intros Hu Hqn Hq Hn Hp.
  destruct (exchange_sent n timeout msg expect w Hu) as (w1 & Hu1 & Hq1 & Hn1 & Hr1 & ->).
  cbv zeta. destruct n as [|n]; [lia|]. rewrite rounds_S.
  rewrite Hq in Hq1. rewrite <- Hr1 in Hp.
  destruct (round_answer w1 cmd (l ++ [msg]) m s Hu1 Hq1 Hp) as (Hu2 & _ & Hqn2 & _).
  rewrite Hn1, Hqn in Hqn2. destruct Hu2 as (_ & Hh2 & _).
  destruct (rounds_keep_head n _ _ _ Hh2 Hqn2) as (Hh3 & l' & Hq3).
  pose proof (try_receive_healthy _ timeout _ Hh3) as Hrec. rewrite Hq3 in Hrec.
  by destruct Hrec as (rx & -> & _).
Qed.

(** The next exchange after one that timed out gets the answer that was meant for
    it. *)
Lemma stale_answer {B B'} timeout timeout' msg msg' (expect : A -> option (result CE B))
  (expect' : A -> option (result CE B')) w m s n :
  in_step w -> (1 <= n)%nat -> handle msg (server w) = (Answer m, s) ->
  let w1 := (exchange 0 timeout msg expect w).2 in
  (exchange 0 timeout msg expect w).1 = Err (ipc_failed IpcTimeout) /\
  (exchange n timeout' msg' expect' w1).1 = default (Err (unexpected m)) (expect' m).
Proof.
  intros Hw Hn Hp. destruct (exchange_late timeout msg expect w Hw)
    as (w' & Heq & Hu & Hq & Hqn & Hr).
  cbv zeta. rewrite Heq. split; [done|].
  eapply exchange_oldest; [done..|]. simpl. by rewrite Hr.
Qed.

(** *** Requests that are not answered yet

    [plain] requests are answered in every state. *)
Context (plain : Q -> Prop).
Hypothesis plain_answered : forall cmd s, plain cmd -> exists m s', handle cmd s = (Answer m, s').

Definition unanswered (w : World Q A St E) : nat :=
  (length (queued (to_server w)) + length (queued (to_client w)))%nat.

Definition steady (w : World Q A St E) : Prop := up w /\ Forall plain (queued (to_server w)).

Lemma round_unanswered w : steady w -> steady (round w) /\ unanswered (round w) = unanswered w.
Proof.
  intros [Hu Hp]. destruct (queued (to_server w)) as [|cmd l] eqn:Hq.
  - rewrite round_idle by done. by rewrite <- Hq in Hp.
  - apply Forall_cons in Hp as [Hc Hl].
    destruct (plain_answered cmd (server w) Hc) as (m & s & Hm).
    destruct (round_answer w cmd l m s Hu Hq Hm) as (Hu2 & Hq2 & Hqn2 & _).
    unfold steady, unanswered. rewrite Hq2, Hqn2, Hq, length_app. simpl. split; [done|lia].
Qed.

Lemma rounds_unanswered n w : steady w -> steady (rounds n w) /\ unanswered (rounds n w) = unanswered w.
Proof.
  revert w. induction n as [|n IH]; intros w Hw; [done|]. rewrite rounds_S.
  destruct (round_unanswered w Hw) as [Hw' <-]. by apply IH.
Qed.

Lemma exchange_lag {B} n timeout msg (expect : A -> option (result CE B)) w :
  steady w -> plain msg ->
  let (r, w') := exchange n timeout msg expect w in
  steady w' /\
  ((unanswered w' = unanswered w /\ exists m, r = default (Err (unexpected m)) (expect m)) \/
   (unanswered w' = S (unanswered w) /\ r = Err (ipc_failed IpcTimeout))).
Proof.
  intros [Hu Hp] Hm.
  destruct (exchange_sent n timeout msg expect w Hu) as (w1 & Hu1 & Hq1 & Hn1 & _ & ->).
  assert (Hs1 : steady w1).
  { split; [done|]. rewrite Hq1. apply Forall_app. split; [done|]. by apply Forall_singleton. }
  assert (Hun : unanswered w1 = S (unanswered w)).
  { unfold unanswered. rewrite Hq1, Hn1, length_app. simpl. lia. }
  cbv zeta. destruct (rounds_unanswered n w1 Hs1) as [[Hu2 Hp2] Hun2].
  destruct Hu2 as (Ht2 & Hh2 & He2). revert Hun2. unfold unanswered at 1. intros Hun2.
  pose proof (try_receive_healthy _ timeout _ Hh2) as Hrec.
  destruct (queued (to_client (rounds n w1))) as [|m l]; destruct Hrec as (rx & -> & Hrx & Hhrx);
    (split; [done|]); unfold unanswered at 1 3; cbn [to_server to_client];
    rewrite Hrx; simpl in Hun2 |- *.
  - right. split; [lia|done].
  - left. split; [lia|]. by exists m.
Qed.
End Rpc.

(** A server in step on the reference channels. *)
Definition first_world {Q A St E} (s : St) : @World reference_ipc Q A St E :=
  @mkWorld reference_ipc Q A St E [] [] s None.

Lemma first_world_in_step {Q A St E} (s : St) : @in_step reference_ipc Q A St E (first_world s).
Proof. done. Qed.
