(* ===== verification/ProtocolService.v ===== *)
(** * Node and protocol runner over IPC ([tezos/wrapper/src/service.rs])

    The messages of both directions, one round of the runner's command loop over
    the functions of the [ProtocolApi] trait and the context index, and the
    methods of [ProtocolController]: each is an exchange of [Rpc], with the number
    [n] of rounds the runner gets done before the wait for the answer ends. *)

From Stdlib Require Import ZArith Lia List Bool String Ascii.
From stdpp Require Import base option list numbers strings gmap.
From S2P Require Import Prelude Extern CryptoHash MessageTypes ContextStore ContextHash WorkingTree TezedgeContext ApiTypes Environment Rpc.

Local Open Scope string_scope.
Local Open Scope list_scope.

(** ** The [ProtocolApi] trait ([protocol.rs])

    [P] is the state of the process the trait's functions run in. *)
Class ProtocolApi (P : Type) : Type := {
  apply_block : ApplyBlockRequest -> P -> result ApplyBlockError.t ApplyBlockResponse * P;
  begin_application :
    BeginApplicationRequest -> P -> result BeginApplicationError.t BeginApplicationResponse * P;
  begin_construction :
    BeginConstructionRequest -> P -> result BeginConstructionError.t PrevalidatorWrapper * P;
  validate_operation :
    ValidateOperationRequest -> P -> result ValidateOperationError.t ValidateOperationResponse * P;
  call_protocol_rpc :
    ProtocolRpcRequest -> P -> result ProtocolRpcError.t ProtocolRpcResponse * P;
  helpers_preapply_operations :
    ProtocolRpcRequest -> P -> result HelpersPreapplyError.t HelpersPreapplyResponse * P;
  helpers_preapply_block :
    HelpersPreapplyBlockRequest -> P -> result HelpersPreapplyError.t HelpersPreapplyResponse * P;
  change_runtime_configuration :
    TezosRuntimeConfiguration -> P -> result TezosRuntimeConfigurationError.t unit * P;
  init_protocol_context :
    TezosContextConfiguration -> P -> result TezosStorageInitError.t InitProtocolContextResult * P;
  genesis_result_data :
    bytes -> bytes -> bytes -> Z -> P -> result GetDataError.t CommitGenesisResult * P;
  compute_path : ComputePathRequest -> P -> result ComputePathError.t ComputePathResponse * P;
  assert_encoding_for_protocol_data :
    bytes -> RustBytes -> P -> result ProtocolDataError.t unit * P;
  apply_block_result_metadata :
    bytes -> RustBytes -> Z -> bytes -> bytes -> P -> result FfiJsonEncoderError.t string * P;
  apply_block_operations_metadata :
    bytes -> list (list Operation.t) -> list (list RustBytes) -> bytes -> bytes -> P ->
    result FfiJsonEncoderError.t string * P;
}.

(** The part of the [IndexApi] trait the service uses, on a repository [S]. *)
Class IndexApi (S : Type) : Type := {
  get_key_from_history :
    bytes -> list string -> S -> result ContextError (option bytes) * S;
  get_key_values_by_prefix :
    bytes -> list string -> S -> result ContextError (option (list (list string * bytes))) * S;
  get_context_tree_by_prefix :
    bytes -> list string -> option Z -> S -> result ContextError StringTreeEntry * S;
  (** The [Debug] form of an error. *)
  debug_context_error : ContextError -> string;
}.

(** ** Messages *)
Record ContextGetKeyFromHistoryRequest : Type := mkKeyFromHistory {
  kh_context_hash : bytes; kh_key : list string }.
Record ContextGetKeyValuesByPrefixRequest : Type := mkKeyValuesByPrefix {
  kv_context_hash : bytes; kv_prefix : list string }.
Record ContextGetTreeByPrefixRequest : Type := mkTreeByPrefix {
  tp_context_hash : bytes; tp_prefix : list string; tp_depth : option Z }.

Record InitProtocolContextParams : Type := mkInitParams {
  ip_storage : TezosContextStorageConfiguration;
  ip_genesis : GenesisChain;
  ip_genesis_max_operations_ttl : Z;
  ip_protocol_overrides : ProtocolOverrides;
  ip_commit_genesis : bool;
  ip_enable_testchain : bool;
  ip_readonly : bool;
  ip_turn_off_context_raw_inspector : bool;
  ip_patch_context : option PatchContext;
  ip_context_stats_db_path : option string;
}.
Record GenesisResultDataParams : Type := mkGenesisParams {
  gr_genesis_context_hash : bytes;
  gr_chain_id : bytes;
  gr_genesis_protocol_hash : bytes;
  gr_genesis_max_operations_ttl : Z;
}.

Inductive ProtocolMessage : Type :=
| ApplyBlockCall (r : ApplyBlockRequest)
| AssertEncodingForProtocolDataCall (protocol_hash : bytes) (data : RustBytes)
| BeginApplicationCall (r : BeginApplicationRequest)
| BeginConstructionCall (r : BeginConstructionRequest)
| ValidateOperationCall (r : ValidateOperationRequest)
| ProtocolRpcCall (r : ProtocolRpcRequest)
| HelpersPreapplyOperationsCall (r : ProtocolRpcRequest)
| HelpersPreapplyBlockCall (r : HelpersPreapplyBlockRequest)
| ComputePathCall (r : ComputePathRequest)
| ChangeRuntimeConfigurationCall (c : TezosRuntimeConfiguration)
| InitProtocolContextCall (p : InitProtocolContextParams)
| InitProtocolContextIpcServer (c : TezosContextStorageConfiguration)
| GenesisResultDataCall (p : GenesisResultDataParams)
| JsonEncodeApplyBlockResultMetadata (context_hash : bytes) (metadata_bytes : RustBytes)
    (max_operations_ttl : Z) (protocol_hash next_protocol_hash : bytes)
| JsonEncodeApplyBlockOperationsMetadata (chain_id : bytes) (operations : list (list Operation.t))
    (operations_metadata_bytes : list (list RustBytes)) (protocol_hash next_protocol_hash : bytes)
| ContextGetKeyFromHistory (r : ContextGetKeyFromHistoryRequest)
| ContextGetKeyValuesByPrefix (r : ContextGetKeyValuesByPrefixRequest)
| ContextGetTreeByPrefix (r : ContextGetTreeByPrefixRequest)
| ShutdownCall.

Inductive NodeMessage : Type :=
| ApplyBlockResult (r : result ApplyBlockError.t ApplyBlockResponse)
| AssertEncodingForProtocolDataResult (r : result ProtocolDataError.t unit)
| BeginApplicationResult (r : result BeginApplicationError.t BeginApplicationResponse)
| BeginConstructionResult (r : result BeginConstructionError.t PrevalidatorWrapper)
| ValidateOperationAnswer (r : result ValidateOperationError.t ValidateOperationResponse)
| RpcResponse (r : result ProtocolRpcError.t ProtocolRpcResponse)
| HelpersPreapplyAnswer (r : result HelpersPreapplyError.t HelpersPreapplyResponse)
| ChangeRuntimeConfigurationResult (r : result TezosRuntimeConfigurationError.t unit)
| InitProtocolContextAnswer (r : result TezosStorageInitError.t InitProtocolContextResult)
| InitProtocolContextIpcServerResult (r : result string unit)
| CommitGenesisResultData (r : result GetDataError.t CommitGenesisResult)
| ComputePathAnswer (r : result ComputePathError.t ComputePathResponse)
| JsonEncodeApplyBlockResultMetadataResponse (r : result FfiJsonEncoderError.t string)
| JsonEncodeApplyBlockOperationsMetadataResponse (r : result FfiJsonEncoderError.t string)
| ContextGetKeyFromHistoryResult (r : result string (option bytes))
| ContextGetKeyValuesByPrefixResult (r : result string (option (list (list string * bytes))))
| ContextGetTreeByPrefixResult (r : result string StringTreeEntry)
| ShutdownResult.

(** [IntoStaticStr]: the name of the variant. *)
Definition message_name (m : NodeMessage) : string :=
  match m with
  | ApplyBlockResult _ => "ApplyBlockResult"
  | AssertEncodingForProtocolDataResult _ => "AssertEncodingForProtocolDataResult"
  | BeginApplicationResult _ => "BeginApplicationResult"
  | BeginConstructionResult _ => "BeginConstructionResult"
  | ValidateOperationAnswer _ => "ValidateOperationResponse"
  | RpcResponse _ => "RpcResponse"
  | HelpersPreapplyAnswer _ => "HelpersPreapplyResponse"
  | ChangeRuntimeConfigurationResult _ => "ChangeRuntimeConfigurationResult"
  | InitProtocolContextAnswer _ => "InitProtocolContextResult"
  | InitProtocolContextIpcServerResult _ => "InitProtocolContextIpcServerResult"
  | CommitGenesisResultData _ => "CommitGenesisResultData"
  | ComputePathAnswer _ => "ComputePathResponse"
  | JsonEncodeApplyBlockResultMetadataResponse _ => "JsonEncodeApplyBlockResultMetadataResponse"
  | JsonEncodeApplyBlockOperationsMetadataResponse _ => "JsonEncodeApplyBlockOperationsMetadata"
  | ContextGetKeyFromHistoryResult _ => "ContextGetKeyFromHistoryResult"
  | ContextGetKeyValuesByPrefixResult _ => "ContextGetKeyValuesByPrefixResult"
  | ContextGetTreeByPrefixResult _ => "ContextGetTreeByPrefixResult"
  | ShutdownResult => "ShutdownResult"
  end.

(** ** Errors *)
Module ProtocolError.
Inductive t : Type :=
| ApplyBlockError (reason : ApplyBlockError.t)
| AssertEncodingForProtocolDataError (reason : ProtocolDataError.t)
| BeginApplicationError (reason : BeginApplicationError.t)
| BeginConstructionError (reason : BeginConstructionError.t)
| ValidateOperationError (reason : ValidateOperationError.t)
| ProtocolRpcError (reason : ProtocolRpcError.t) (request_path : string)
| HelpersPreapplyError (reason : HelpersPreapplyError.t)
| ComputePathError (reason : ComputePathError.t)
| TezosRuntimeConfigurationError (reason : TezosRuntimeConfigurationError.t)
| OcamlStorageInitError (reason : TezosStorageInitError.t)
| GenesisResultDataError (reason : GetDataError.t)
| FfiJsonEncoderError (caller : string) (reason : FfiJsonEncoderError.t)
| ContextGetKeyFromHistoryError (reason : string)
| ContextGetKeyValuesByPrefixError (reason : string).
End ProtocolError.

Inductive ProtocolServiceError `{IpcCrate} : Type :=
| ServiceIpcError (reason : IpcError)
| ServiceProtocolError (reason : ProtocolError.t)
| UnexpectedMessage (message : string)
| InvalidDataError (message : string)
| LockPoisonError (message : string)
| ContextIpcServerError (message : string).

(** The answer tells the caller to replace the runner, or the error was logged. *)
Definition handle_protocol_service_error `{IpcCrate} {L} (error : ProtocolServiceError)
  (log_callback : ProtocolServiceError -> L -> L) (log : L) : result ProtocolServiceError unit * L :=
  match error with
  | ServiceIpcError _ | UnexpectedMessage _ => (Err error, log)
  | _ => (Ok tt, log_callback error log)
  end.

(** [tezos_new_context::ffi::TEZEDGE_CONTEXT_REPOSITORY]. *)
Record ContextRepository (S : Type) : Type := mkRepository {
  repository : option S;
  lock_poisoned : bool;
}.
Arguments mkRepository {S} _ _.
Arguments repository {S} _.
Arguments lock_poisoned {S} _.

Inductive TezedgeIndexError : Type := TezedgeLockPoisonError.

Definition get_context_index {S} (r : ContextRepository S) : result TezedgeIndexError (option S) :=
  if lock_poisoned r then Err TezedgeLockPoisonError else Ok (repository r).

(** ** The runner's side *)
Section Service.
Context `{IpcCrate} {P S : Type} `{!ProtocolApi (P * ContextRepository S), !IndexApi S}.
(** Whether the listener of the context server can be bound to a socket. *)
Context (listener_try_new : string -> result IpcError unit).
Context (shutdown_callback : P * ContextRepository S -> P * ContextRepository S).

(** The protocol's functions share the process with the repository of the context,
    which they may install. *)
Record Runner : Type := mkRunner {
  process : P * ContextRepository S;
  listening : list string;
}.
Definition context_repository (r : Runner) : ContextRepository S := (process r).2.

Abbreviation outcome := (outcome NodeMessage IpcError).

Definition on_proto {A} (f : P * ContextRepository S -> A * (P * ContextRepository S))
  (wrap : A -> NodeMessage) (r : Runner) : outcome * Runner :=
  let (res, p) := f (process r) in
  (Answer (wrap res), mkRunner p (listening r)).

(** The three requests to the context have one shape; the answer without an index
    is the same variant for all of them. *)
Definition on_index {A} (f : S -> result ContextError A * S) (wrap : result string A -> NodeMessage)
  (r : Runner) : outcome * Runner :=
  match get_context_index (context_repository r) with
  | Err TezedgeLockPoisonError => (Fail (IpcOtherError "LockPoisonError"), r)
  | Ok None => (Answer (ContextGetKeyFromHistoryResult (Err "Context index unavailable")), r)
  | Ok (Some index) =>
      let (res, index) := f index in
      (Answer (wrap (map_err debug_context_error res)),
       mkRunner ((process r).1, mkRepository (Some index) (lock_poisoned (context_repository r)))
         (listening r))
  end.

Definition init_context_ipc (storage_cfg : TezosContextStorageConfiguration) (r : Runner)
  : outcome * Runner :=
  match get_ipc_socket_path storage_cfg with
  | None => (Answer (InitProtocolContextIpcServerResult (Ok tt)), r)
  | Some socket_path =>
      match listener_try_new socket_path with
      | Ok _ =>
          (Answer (InitProtocolContextIpcServerResult (Ok tt)),
           mkRunner (process r) (listening r ++ [socket_path]))
      | Err err =>
          (Answer (InitProtocolContextIpcServerResult
             (Err ("Failed to initialize context IPC server: " ++ debug_ipc_error err)%string)), r)
      end
  end.

Definition context_config (params : InitProtocolContextParams) : TezosContextConfiguration :=
  mkContextConfiguration (ip_storage params) (ip_genesis params) (ip_protocol_overrides params)
    (ip_commit_genesis params) (ip_enable_testchain params) (ip_readonly params)
    (ip_patch_context params) (ip_context_stats_db_path params).

Definition process_command (cmd : ProtocolMessage) : Runner -> outcome * Runner :=
  match cmd with
  | ApplyBlockCall request => on_proto (apply_block request) ApplyBlockResult
  | AssertEncodingForProtocolDataCall protocol_hash protocol_data =>
      on_proto (assert_encoding_for_protocol_data protocol_hash protocol_data)
        AssertEncodingForProtocolDataResult
  | BeginConstructionCall request => on_proto (begin_construction request) BeginConstructionResult
  | BeginApplicationCall request => on_proto (begin_application request) BeginApplicationResult
  | ValidateOperationCall request => on_proto (validate_operation request) ValidateOperationAnswer
  | ProtocolRpcCall request => on_proto (call_protocol_rpc request) RpcResponse
  | HelpersPreapplyOperationsCall request =>
      on_proto (helpers_preapply_operations request) HelpersPreapplyAnswer
  | HelpersPreapplyBlockCall request =>
      on_proto (helpers_preapply_block request) HelpersPreapplyAnswer
  | ComputePathCall request => on_proto (compute_path request) ComputePathAnswer
  | ChangeRuntimeConfigurationCall params =>
      on_proto (change_runtime_configuration params) ChangeRuntimeConfigurationResult
  | InitProtocolContextCall params =>
      on_proto (init_protocol_context (context_config params)) InitProtocolContextAnswer
  | InitProtocolContextIpcServer storage_cfg => init_context_ipc storage_cfg
  | GenesisResultDataCall params =>
      on_proto (genesis_result_data (gr_genesis_context_hash params) (gr_chain_id params)
                  (gr_genesis_protocol_hash params) (gr_genesis_max_operations_ttl params))
        CommitGenesisResultData
  | JsonEncodeApplyBlockResultMetadata context_hash metadata_bytes max_operations_ttl protocol_hash
      next_protocol_hash =>
      on_proto (apply_block_result_metadata context_hash metadata_bytes max_operations_ttl
                  protocol_hash next_protocol_hash)
        JsonEncodeApplyBlockResultMetadataResponse
  | JsonEncodeApplyBlockOperationsMetadata chain_id operations operations_metadata_bytes
      protocol_hash next_protocol_hash =>
      on_proto (apply_block_operations_metadata chain_id operations operations_metadata_bytes
                  protocol_hash next_protocol_hash)
        JsonEncodeApplyBlockOperationsMetadataResponse
  | ContextGetKeyFromHistory r =>
      on_index (get_key_from_history (kh_context_hash r) (kh_key r)) ContextGetKeyFromHistoryResult
  | ContextGetKeyValuesByPrefix r =>
      on_index (get_key_values_by_prefix (kv_context_hash r) (kv_prefix r))
        ContextGetKeyValuesByPrefixResult
  | ContextGetTreeByPrefix r =>
      on_index (get_context_tree_by_prefix (tp_context_hash r) (tp_prefix r) (tp_depth r))
        ContextGetTreeByPrefixResult
  | ShutdownCall => fun r =>
      (Stop ShutdownResult,
       mkRunner (shutdown_callback (process r)) (listening r))
  end.

(** The two processes and the channels between them. *)
Abbreviation World := (World ProtocolMessage NodeMessage Runner IpcError).

(** One round of the loop of [process_protocol_commands], which ends without an
    error when nothing more can be received. *)
Definition process_protocol_commands : World -> World :=
  Rpc.round process_command (fun e => e) (fun _ => Ok tt).

(** ** [ProtocolController] *)
Definition IO_TIMEOUT : Z := 10.
Definition IO_TIMEOUT_LONG : Z := 300.
Definition APPLY_BLOCK_TIMEOUT : Z := 60 * 60 * 2.
Definition INIT_PROTOCOL_CONTEXT_TIMEOUT : Z := 60.
Definition BEGIN_APPLICATION_TIMEOUT : Z := 120.
Definition BEGIN_CONSTRUCTION_TIMEOUT : Z := 120.
Definition VALIDATE_OPERATION_TIMEOUT : Z := 120.
Definition CALL_PROTOCOL_RPC_TIMEOUT : Z := 30.
Definition COMPUTE_PATH_TIMEOUT : Z := 30.
Definition JSON_ENCODE_DATA_TIMEOUT : Z := 30.
Definition ASSERT_ENCODING_FOR_PROTOCOL_DATA_TIMEOUT : Z := 15.

Definition call_result (A : Type) : Type := result ProtocolServiceError A * World.

(** [From<ProtocolError>] after [map_err]. *)
Definition protocol_result {E A} (f : E -> ProtocolError.t) (r : result E A)
  : result ProtocolServiceError A :=
  map_err (fun e => ServiceProtocolError (f e)) r.

(** A method: send the command, wait for the answer, check its variant. *)
Definition exchange {A} : nat -> Z -> ProtocolMessage ->
  (NodeMessage -> option (result ProtocolServiceError A)) -> World -> call_result A :=
  Rpc.exchange process_command (fun e => e) (fun _ => Ok tt) ServiceIpcError
    (fun message => UnexpectedMessage (message_name message)).

Definition Ctl_apply_block (n : nat) (request : ApplyBlockRequest) : World -> call_result ApplyBlockResponse :=
  exchange n APPLY_BLOCK_TIMEOUT (ApplyBlockCall request) (fun m =>
    match m with
    | ApplyBlockResult r => Some (protocol_result ProtocolError.ApplyBlockError r)
    | _ => None
    end).

Definition Ctl_assert_encoding_for_protocol_data (n : nat) (protocol_hash : bytes)
  (protocol_data : RustBytes) : World -> call_result unit :=
  exchange n ASSERT_ENCODING_FOR_PROTOCOL_DATA_TIMEOUT
    (AssertEncodingForProtocolDataCall protocol_hash protocol_data) (fun m =>
    match m with
    | AssertEncodingForProtocolDataResult r =>
        Some (protocol_result ProtocolError.AssertEncodingForProtocolDataError r)
    | _ => None
    end).

Definition Ctl_begin_application (n : nat) (request : BeginApplicationRequest)
  : World -> call_result BeginApplicationResponse :=
  exchange n BEGIN_APPLICATION_TIMEOUT (BeginApplicationCall request) (fun m =>
    match m with
    | BeginApplicationResult r => Some (protocol_result ProtocolError.BeginApplicationError r)
    | _ => None
    end).

Definition Ctl_begin_construction (n : nat) (request : BeginConstructionRequest)
  : World -> call_result PrevalidatorWrapper :=
  exchange n BEGIN_CONSTRUCTION_TIMEOUT (BeginConstructionCall request) (fun m =>
    match m with
    | BeginConstructionResult r => Some (protocol_result ProtocolError.BeginConstructionError r)
    | _ => None
    end).

Definition Ctl_validate_operation (n : nat) (request : ValidateOperationRequest)
  : World -> call_result ValidateOperationResponse :=
  exchange n VALIDATE_OPERATION_TIMEOUT (ValidateOperationCall request) (fun m =>
    match m with
    | ValidateOperationAnswer r => Some (protocol_result ProtocolError.ValidateOperationError r)
    | _ => None
    end).

Definition Ctl_compute_path (n : nat) (request : ComputePathRequest)
  : World -> call_result ComputePathResponse :=
  exchange n COMPUTE_PATH_TIMEOUT (ComputePathCall request) (fun m =>
    match m with
    | ComputePathAnswer r => Some (protocol_result ProtocolError.ComputePathError r)
    | _ => None
    end).

Definition Ctl_apply_block_result_metadata (n : nat) (context_hash : bytes) (metadata_bytes : RustBytes)
  (max_operations_ttl : Z) (protocol_hash next_protocol_hash : bytes) : World -> call_result string :=
  exchange n JSON_ENCODE_DATA_TIMEOUT
    (JsonEncodeApplyBlockResultMetadata context_hash metadata_bytes max_operations_ttl protocol_hash
       next_protocol_hash) (fun m =>
    match m with
    | JsonEncodeApplyBlockResultMetadataResponse r =>
        Some (protocol_result (ProtocolError.FfiJsonEncoderError "apply_block_result_metadata") r)
    | _ => None
    end).

Definition Ctl_apply_block_operations_metadata (n : nat) (chain_id : bytes)
  (operations : list (list Operation.t)) (operations_metadata_bytes : list (list RustBytes))
  (protocol_hash next_protocol_hash : bytes) : World -> call_result string :=
  exchange n JSON_ENCODE_DATA_TIMEOUT
    (JsonEncodeApplyBlockOperationsMetadata chain_id operations operations_metadata_bytes
       protocol_hash next_protocol_hash) (fun m =>
    match m with
    | JsonEncodeApplyBlockOperationsMetadataResponse r =>
        Some (protocol_result (ProtocolError.FfiJsonEncoderError "apply_block_operations_metadata") r)
    | _ => None
    end).

Definition call_protocol_rpc_internal (n : nat) (request_path : string) (msg : ProtocolMessage)
  : World -> call_result ProtocolRpcResponse :=
  exchange n CALL_PROTOCOL_RPC_TIMEOUT msg (fun m =>
    match m with
    | RpcResponse r =>
        Some (protocol_result (fun err => ProtocolError.ProtocolRpcError err request_path) r)
    | _ => None
    end).

Definition Ctl_call_protocol_rpc (n : nat) (request : ProtocolRpcRequest)
  : World -> call_result ProtocolRpcResponse :=
  call_protocol_rpc_internal n (context_path (rpc_request request)) (ProtocolRpcCall request).

Definition call_helpers_preapply_internal (n : nat) (msg : ProtocolMessage)
  : World -> call_result HelpersPreapplyResponse :=
  exchange n CALL_PROTOCOL_RPC_TIMEOUT msg (fun m =>
    match m with
    | HelpersPreapplyAnswer r => Some (protocol_result ProtocolError.HelpersPreapplyError r)
    | _ => None
    end).

Definition Ctl_helpers_preapply_operations (n : nat) (request : ProtocolRpcRequest)
  : World -> call_result HelpersPreapplyResponse :=
  call_helpers_preapply_internal n (HelpersPreapplyOperationsCall request).

Definition Ctl_helpers_preapply_block (n : nat) (request : HelpersPreapplyBlockRequest)
  : World -> call_result HelpersPreapplyResponse :=
  call_helpers_preapply_internal n (HelpersPreapplyBlockCall request).

Definition Ctl_change_runtime_configuration (n : nat) (settings : TezosRuntimeConfiguration)
  : World -> call_result unit :=
  exchange n IO_TIMEOUT (ChangeRuntimeConfigurationCall settings) (fun m =>
    match m with
    | ChangeRuntimeConfigurationResult r =>
        Some (protocol_result ProtocolError.TezosRuntimeConfigurationError r)
    | _ => None
    end).

Definition Ctl_get_context_key_from_history (n : nat) (context_hash : bytes) (key : list string)
  : World -> call_result (option bytes) :=
  exchange n IO_TIMEOUT_LONG (ContextGetKeyFromHistory (mkKeyFromHistory context_hash key)) (fun m =>
    match m with
    | ContextGetKeyFromHistoryResult r =>
        Some (protocol_result ProtocolError.ContextGetKeyFromHistoryError r)
    | _ => None
    end).

Definition Ctl_get_context_key_values_by_prefix (n : nat) (context_hash : bytes) (prefix : list string)
  : World -> call_result (option (list (list string * bytes))) :=
  exchange n IO_TIMEOUT_LONG
    (ContextGetKeyValuesByPrefix (mkKeyValuesByPrefix context_hash prefix)) (fun m =>
    match m with
    | ContextGetKeyValuesByPrefixResult r =>
        Some (protocol_result ProtocolError.ContextGetKeyValuesByPrefixError r)
    | _ => None
    end).

(** The error is the one of the previous request. *)
Definition Ctl_get_context_tree_by_prefix (n : nat) (context_hash : bytes) (prefix : list string)
  (depth : option Z) : World -> call_result StringTreeEntry :=
  exchange n IO_TIMEOUT_LONG
    (ContextGetTreeByPrefix (mkTreeByPrefix context_hash prefix depth)) (fun m =>
    match m with
    | ContextGetTreeByPrefixResult r =>
        Some (protocol_result ProtocolError.ContextGetKeyValuesByPrefixError r)
    | _ => None
    end).

(** *** Initialisation and shutdown *)
Record ProtocolEndpointConfiguration : Type := mkEndpointConfiguration {
  runtime_configuration : TezosRuntimeConfiguration;
  environment : TezosEnvironmentConfiguration;
  ec_enable_testchain : bool;
  storage : TezosContextStorageConfiguration;
  executable_path : string;
  log_level : string;
}.

Record ProtocolController : Type := mkController {
  configuration : ProtocolEndpointConfiguration;
  shutting_down : bool;
}.

(** [ProtocolController::shutdown]; a second call does nothing. *)
Definition shutdown (n : nat) (self : ProtocolController) (w : World)
  : result ProtocolServiceError unit * ProtocolController * World :=
  if shutting_down self then (Ok tt, self, w)
  else
    let self := mkController (configuration self) true in
    let (r, w) := exchange n IO_TIMEOUT ShutdownCall (fun m =>
      match m with ShutdownResult => Some (Ok tt) | _ => None end) w in
    (r, self, w).

(** [Drop]. *)
Definition drop_controller (n : nat) (self : ProtocolController) (w : World) : World :=
  if shutting_down self then w else (shutdown n self w).2.

Definition init_context_ipc_server (n : nat) (self : ProtocolController) (w : World)
  : call_result unit :=
  match get_ipc_socket_path (storage (configuration self)) with
  | Some _ =>
      exchange n IO_TIMEOUT (InitProtocolContextIpcServer (storage (configuration self))) (fun m =>
        match m with
        | InitProtocolContextIpcServerResult r =>
            Some (map_err (fun _ =>
              ContextIpcServerError "Failure when starting context IPC server") r)
        | _ => None
        end) w
  | None => (Ok tt, w)
  end.

Section Environments.
Context `{Base58Crate, Sodium, ChronoCrate}.
(** The [Debug] form of an error of the environment. *)
Context (debug_environment_error : TezosEnvironmentError -> string).

Definition invalid_data {A} (r : result TezosEnvironmentError A) : result ProtocolServiceError A :=
  map_err (fun e => InvalidDataError (debug_environment_error e)) r.

Definition Ctl_genesis_result_data (n : nat) (self : ProtocolController)
  (genesis_context_hash : bytes) (w : World) : call_result CommitGenesisResult :=
  let env := environment (configuration self) in
  match (chain_id ← invalid_data (main_chain_id env);
         protocol ← invalid_data (genesis_protocol env);
         data ← invalid_data (genesis_additional_data env);
         Ok (mkGenesisParams genesis_context_hash chain_id protocol
               (genesis_max_operations_ttl data))) with
  | Err e => (Err e, w)
  | Ok params =>
      exchange n IO_TIMEOUT (GenesisResultDataCall params) (fun m =>
        match m with
        | CommitGenesisResultData r => Some (protocol_result ProtocolError.GenesisResultDataError r)
        | _ => None
        end) w
  end.

(** [init_protocol_context] once it may go on (see [InitLock]): the request, and
    the flag that a write succeeded, which the first successful write sets. *)
Definition Ctl_init_protocol_context (n : nat) (storage : TezosContextStorageConfiguration)
  (tezos_environment : TezosEnvironmentConfiguration) (commit_genesis enable_testchain readonly : bool)
  (patch_context : option PatchContext) (context_stats_db_path : option string)
  (was_one_write_success : bool) (w : World) : call_result InitProtocolContextResult * bool :=
  match invalid_data (genesis_additional_data tezos_environment) with
  | Err e => (Err e, w, was_one_write_success)
  | Ok data =>
      let params := mkInitParams storage (genesis tezos_environment)
        (genesis_max_operations_ttl data) (protocol_overrides tezos_environment) commit_genesis
        enable_testchain readonly true patch_context context_stats_db_path in
      let (r, w) := exchange n INIT_PROTOCOL_CONTEXT_TIMEOUT (InitProtocolContextCall params) (fun m =>
        match m with
        | InitProtocolContextAnswer r => Some (protocol_result ProtocolError.OcamlStorageInitError r)
        | _ => None
        end) w in
      (r, w, was_one_write_success || (is_ok r && negb readonly))
  end.

(** [n] rounds for the first request and [n'] for the second. *)
Definition init_protocol_for_write (n n' : nat) (self : ProtocolController) (commit_genesis : bool)
  (patch_context : option PatchContext) (context_stats_db_path : option string)
  (was_one_write_success : bool) (w : World) : call_result InitProtocolContextResult * bool :=
  let cfg := configuration self in
  match Ctl_change_runtime_configuration n (runtime_configuration cfg) w with
  | (Err e, w) => (Err e, w, was_one_write_success)
  | (Ok _, w) =>
      Ctl_init_protocol_context n' (storage cfg) (environment cfg) commit_genesis
        (ec_enable_testchain cfg) false patch_context context_stats_db_path was_one_write_success w
  end.

Definition init_protocol_for_read (n n' : nat) (self : ProtocolController)
  (was_one_write_success : bool) (w : World) : call_result InitProtocolContextResult * bool :=
  let cfg := configuration self in
  match Ctl_change_runtime_configuration n (runtime_configuration cfg) w with
  | (Err e, w) => (Err e, w, was_one_write_success)
  | (Ok _, w) =>
      Ctl_init_protocol_context n' (storage cfg) (environment cfg) false
        (ec_enable_testchain cfg) true None None was_one_write_success w
  end.
End Environments.
End Service.

Arguments Runner P S : clear implicits.
Arguments mkRunner {P S} _ _.
Arguments process {P S} _.
Arguments context_repository {P S} _.
Arguments listening {P S} _.

(** The service of a runner with protocol state [P] and context repository [S]. *)
Abbreviation ServiceWorld P S := (World ProtocolMessage NodeMessage (Runner P S) IpcError).
