(* ===== verification/ProtocolServiceFacts.v ===== *)
(** * Facts about the protocol service

    In step, every method of the controller answers what the runner's function
    answers and leaves both channels empty.  A call that runs out of time leaves
    its answer behind, and from then on every answer belongs to an earlier
    request.  Requests to a context that is not there. *)

From Stdlib Require Import ZArith Lia List Bool String Ascii.
From stdpp Require Import base option list numbers strings gmap.
From S2P Require Import Prelude Extern CryptoHash MessageTypes ContextStore ContextHash WorkingTree TezedgeContext ApiTypes Environment Rpc ProtocolService.

Local Open Scope string_scope.
Local Open Scope list_scope.

Section Facts.
Context `{IpcCrate} {P S : Type} `{!ProtocolApi (P * ContextRepository S), !IndexApi S}.
Context (listener_try_new : string -> result IpcError unit).
Context (shutdown_callback : P * ContextRepository S -> P * ContextRepository S).

Abbreviation process_command := (process_command listener_try_new shutdown_callback).
Abbreviation exchange := (exchange listener_try_new shutdown_callback).

Lemma call_in_step {A} n timeout msg (expect : NodeMessage -> option (result _ A))
  (w : ServiceWorld P S) m r :
  in_step w -> (1 <= n)%nat -> process_command msg (server w) = (Answer m, r) ->
  exists w', exchange n timeout msg expect w =
      (default (Err (UnexpectedMessage (message_name m))) (expect m), w') /\
    in_step w' /\ server w' = r.
Proof.
  exact (exchange_in_step process_command (fun e => e) (fun _ => Ok tt) ServiceIpcError
    (fun message => UnexpectedMessage (message_name message)) n timeout msg expect w m r).
Qed.

(** ** The methods *)

(** [call] answers what [f] answers in the runner's process, and stays in step. *)
Definition answers {E A} (call : ServiceWorld P S -> call_result A)
  (f : P * ContextRepository S -> result E A * (P * ContextRepository S))
  (wrap : E -> ProtocolError.t) : Prop :=
  forall w, in_step w ->
    exists w', call w = (protocol_result wrap (f (process (server w))).1, w') /\
      in_step w' /\
      server w' = mkRunner (f (process (server w))).2 (listening (server w)).

Lemma exchange_answers {E A} n timeout msg
  (f : P * ContextRepository S -> result E A * (P * ContextRepository S))
  (wrap : E -> ProtocolError.t) (variant : result E A -> NodeMessage)
  (expect : NodeMessage -> option (result _ A)) :
  (1 <= n)%nat ->
  (forall r, process_command msg r = on_proto f variant r) ->
  (forall r, expect (variant r) = Some (protocol_result wrap r)) ->
  answers (exchange n timeout msg expect) f wrap.
Proof.
  intros Hn Hp He w Hw.
  destruct (f (process (server w))) as [res p] eqn:Hf.
  destruct (call_in_step n timeout msg expect w (variant res) (mkRunner p (listening (server w))))
    as (w' & -> & Hw' & Hr); [done|done| |].
  { rewrite Hp. unfold on_proto. by rewrite Hf. }
  exists w'. simpl. by rewrite He.
Qed.

Abbreviation ctl f := (f listener_try_new shutdown_callback).

Section Environments.
Context `{Base58Crate, Sodium}.
Context (debug_environment_error : TezosEnvironmentError -> string).
Abbreviation ctl_genesis_result_data :=
  (Ctl_genesis_result_data listener_try_new shutdown_callback debug_environment_error).
Abbreviation ctl_init_protocol_context :=
  (Ctl_init_protocol_context listener_try_new shutdown_callback debug_environment_error).

Lemma genesis_call_answers n self h chain_id protocol data :
  (1 <= n)%nat ->
  main_chain_id (environment (configuration self)) = Ok chain_id ->
  genesis_protocol (environment (configuration self)) = Ok protocol ->
  genesis_additional_data (environment (configuration self)) = Ok data ->
  answers (ctl_genesis_result_data n self h)
    (genesis_result_data h chain_id protocol (genesis_max_operations_ttl data))
    ProtocolError.GenesisResultDataError.
Proof.
  intros Hn Hc Hp Hd w. unfold Ctl_genesis_result_data. rewrite Hc, Hp, Hd. simpl.
  by refine (exchange_answers n IO_TIMEOUT (GenesisResultDataCall _) _ _
    CommitGenesisResultData _ Hn _ _ w).
Qed.

Lemma init_call_answers n storage env commit_genesis enable_testchain readonly patch stats
  success data :
  (1 <= n)%nat -> genesis_additional_data env = Ok data ->
  let call w := ctl_init_protocol_context n storage env commit_genesis
    enable_testchain readonly patch stats success w in
  let f := init_protocol_context (mkContextConfiguration storage (genesis env)
    (protocol_overrides env) commit_genesis enable_testchain readonly patch stats) in
  answers (fun w => (call w).1) f ProtocolError.OcamlStorageInitError /\
  (forall w, in_step w ->
     (call w).2 = success || (is_ok (f (process (server w))).1 && negb readonly)).
Proof.
  intros Hn Hd call f. unfold call, Ctl_init_protocol_context. rewrite Hd. cbn [invalid_data map_err].
  set (params := mkInitParams _ _ _ _ _ _ _ _ _ _). set (expect := fun m : NodeMessage => _).
  assert (Ha : answers (exchange n INIT_PROTOCOL_CONTEXT_TIMEOUT (InitProtocolContextCall params) expect)
    f ProtocolError.OcamlStorageInitError) by by eapply exchange_answers.
  split; intros w Hw; destruct (Ha w Hw) as (w' & -> & Hw' & Hr); simpl; [by exists w'|].
  by destruct (f (process (server w))).1.
Qed.

End Environments.

(** *** Requests to the context *)
Lemma on_index_answer {A} (f : S -> result ContextError A * S) variant (r : Runner P S) s :
  lock_poisoned (context_repository r) = false -> repository (context_repository r) = Some s ->
  on_index f variant r =
    (Answer (variant (map_err debug_context_error (f s).1)),
     mkRunner ((process r).1, mkRepository (Some (f s).2) false) (listening r)).
Proof.
  intros Hl Hs. unfold on_index, get_context_index. rewrite Hl, Hs. by destruct (f s).
Qed.

(** In step and with a context, the controller's three requests to it answer
    what the index of the runner's repository answers. *)
Theorem context_calls_answer n w s :
  (1 <= n)%nat -> in_step w ->
  lock_poisoned (context_repository (server w)) = false ->
  repository (context_repository (server w)) = Some s ->
  (forall h k, exists w', in_step w' /\
     ctl Ctl_get_context_key_from_history n h k w =
       (protocol_result ProtocolError.ContextGetKeyFromHistoryError
          (map_err debug_context_error (get_key_from_history h k s).1), w')) /\
  (forall h k, exists w', in_step w' /\
     ctl Ctl_get_context_key_values_by_prefix n h k w =
       (protocol_result ProtocolError.ContextGetKeyValuesByPrefixError
          (map_err debug_context_error (get_key_values_by_prefix h k s).1), w')) /\
  (forall h k d, exists w', in_step w' /\
     ctl Ctl_get_context_tree_by_prefix n h k d w =
       (protocol_result ProtocolError.ContextGetKeyValuesByPrefixError
          (map_err debug_context_error (get_context_tree_by_prefix h k d s).1), w')).
Proof.
  intros Hn Hw Hl Hs. ssplit; intros.
  1: unfold Ctl_get_context_key_from_history.
  2: unfold Ctl_get_context_key_values_by_prefix.
  3: unfold Ctl_get_context_tree_by_prefix.
  all: edestruct (@call_in_step) as (w' & -> & Hw' & _);
    [done|done|simpl; by apply on_index_answer|by exists w'].
Qed.

(** Without a context, every request gets the answer of the first one: its caller
    sees the reason, the callers of the other two an unexpected message. *)
Lemma context_calls_no_index n w :
  (1 <= n)%nat -> in_step w ->
  lock_poisoned (context_repository (server w)) = false ->
  repository (context_repository (server w)) = None ->
  (forall h k, (ctl Ctl_get_context_key_from_history n h k w).1 =
     Err (ServiceProtocolError
            (ProtocolError.ContextGetKeyFromHistoryError "Context index unavailable"))) /\
  (forall h k, (ctl Ctl_get_context_key_values_by_prefix n h k w).1 =
     Err (UnexpectedMessage "ContextGetKeyFromHistoryResult")) /\
  (forall h k d, (ctl Ctl_get_context_tree_by_prefix n h k d w).1 =
     Err (UnexpectedMessage "ContextGetKeyFromHistoryResult")).
Proof.
  intros Hn Hw Hl Hs. ssplit; intros.
  1: unfold Ctl_get_context_key_from_history.
  2: unfold Ctl_get_context_key_values_by_prefix.
  3: unfold Ctl_get_context_tree_by_prefix.
  all: edestruct (@call_in_step) as (w' & -> & Hw' & _);
    [done|done|simpl; unfold on_index, get_context_index; by rewrite Hl, Hs|done].
Qed.

(** ** Out of step

    [plain] commands are answered by every runner. *)
Definition plain (cmd : ProtocolMessage) : Prop :=
  match cmd with
  | ShutdownCall | ContextGetKeyFromHistory _ | ContextGetKeyValuesByPrefix _
  | ContextGetTreeByPrefix _ => False
  | _ => True
  end.

Lemma plain_answered cmd r : plain cmd -> exists m r', process_command cmd r = (Answer m, r').
Proof.
  unfold ProtocolService.process_command, on_proto, init_context_ipc.
  destruct cmd; intros Hc; try done;
    repeat match goal with
    | |- context [let (_, _) := ?x in _] => destruct x
    | |- context [match ?x with _ => _ end] => destruct x
    end; eauto.
Qed.

(** (C15) Between protocol calls the number of requests whose answers were not
    received never goes down: a call that gets an answer leaves it as it was, and
    one that gets none in time adds one.  Once a call has timed out, the
    connection stays behind by an answer for good. *)
Theorem exchange_unanswered {A} n timeout msg (expect : NodeMessage -> option (result _ A)) w :
  steady plain w -> plain msg ->
  let (r, w') := exchange n timeout msg expect w in
  steady plain w' /\
  ((unanswered w' = unanswered w /\
      exists m, r = default (Err (UnexpectedMessage (message_name m))) (expect m)) \/
   (unanswered w' = Datatypes.S (unanswered w) /\ r = Err (ServiceIpcError IpcTimeout))).
Proof. intros Hw Hm. exact (exchange_lag process_command (fun e => e) (fun _ => Ok tt)
    ServiceIpcError (fun message => UnexpectedMessage (message_name message)) plain plain_answered
    n timeout msg expect w Hw Hm). Qed.

(** ** Shutdown *)
Lemma shutdown_once n self w :
  shutting_down self = true ->
  ProtocolService.shutdown listener_try_new shutdown_callback n self w = (Ok tt, self, w).
Proof. intros Hs. unfold ProtocolService.shutdown. by rewrite Hs. Qed.

(** The runner answers a shutdown and leaves its loop; later rounds do nothing. *)
Lemma shutdown_in_step n self (w : ServiceWorld P S) :
  in_step w -> (1 <= n)%nat -> shutting_down self = false ->
  exists w', ProtocolService.shutdown listener_try_new shutdown_callback n self w =
      (Ok tt, mkController (configuration self) true, w') /\
    ended w' = Some (Ok tt) /\ process (server w') = shutdown_callback (process (server w)) /\
    queued (to_client w') = [].
Proof.
  intros Hw Hn Hs. unfold ProtocolService.shutdown, ProtocolService.exchange. rewrite Hs.
  destruct (exchange_stop process_command (fun e => e) (fun _ => Ok tt) ServiceIpcError
    (fun message => UnexpectedMessage (message_name message)) n IO_TIMEOUT ShutdownCall
    (fun m => match m with ShutdownResult => Some (Ok tt) | _ => None end) w _ _ Hw Hn eq_refl)
    as (w' & -> & He & Hr & Hq).
  exists w'. rewrite Hr. by ssplit.
Qed.
End Facts.

(** ** A runner for the examples

    A process whose state counts the blocks it was asked to apply; everything else
    is refused. *)
Definition counting_protocol {R : Type} : ProtocolApi (Z * R) := {|
  apply_block request p :=
    (Err (ApplyBlockError.IncompleteOperations p.1 (zlen (ab_operations request))), (p.1 + 1, p.2));
  begin_application _ p := (Err (BeginApplicationError.FailedToBeginApplication "refused"), p);
  begin_construction _ p := (Err (BeginConstructionError.FailedToBeginConstruction "refused"), p);
  validate_operation _ p := (Err (ValidateOperationError.FailedToValidateOperation "refused"), p);
  call_protocol_rpc _ p := (Ok RPCNoContent, p);
  helpers_preapply_operations _ p := (Err (HelpersPreapplyError.FailedToCallProtocolRpc "refused"), p);
  helpers_preapply_block _ p := (Err (HelpersPreapplyError.FailedToCallProtocolRpc "refused"), p);
  change_runtime_configuration _ p := (Ok tt, p);
  init_protocol_context _ p := (Ok (mkInitResult [] None), p);
  genesis_result_data _ _ _ _ p := (Err (GetDataError.ReadError "refused"), p);
  compute_path _ p := (Err (ComputePathError.PathError "refused"), p);
  assert_encoding_for_protocol_data _ _ p := (Ok tt, p);
  apply_block_result_metadata _ _ _ _ _ p := (Err (FfiJsonEncoderError.EncodeError "refused"), p);
  apply_block_operations_metadata _ _ _ _ _ p := (Err (FfiJsonEncoderError.EncodeError "refused"), p);
|}.

(** A context that answers a key with its own bytes. *)
Definition echo_index : IndexApi unit := {|
  get_key_from_history _ key s := (Ok (Some (str_bytes (String.concat "/" key))), s);
  get_key_values_by_prefix _ prefix s := (Ok None, s);
  get_context_tree_by_prefix _ _ _ s := (Ok StNull, s);
  debug_context_error _ := "ContextError";
|}.

Definition first_service {R S} (p : R) (s : option S)
  : @World reference_ipc ProtocolMessage NodeMessage (Runner R S) (@IpcError reference_ipc) :=
  first_world (mkRunner (p, mkRepository s false) []).

Section Examples.
#[local] Existing Instance reference_ipc.
#[local] Existing Instance counting_protocol.
#[local] Existing Instance echo_index.
Let no_listener (_ : string) : result (@IpcError reference_ipc) unit := Ok tt.
Abbreviation cb := (fun p => p).


Lemma context_calls_answer_witness :
  (Ctl_get_context_key_from_history (P := Z) no_listener cb 2 [] ["a"; "b"] (first_service 0 (Some tt))).1 =
    Ok (Some [97; 47; 98]).
Proof.
  destruct (context_calls_answer (P := Z) (S := unit) no_listener cb 2 (first_service 0 (Some tt)) tt
    ltac:(lia) (first_world_in_step _) eq_refl eq_refl) as (Hkey & _).
  destruct (Hkey [] ["a"; "b"]) as (w' & _ & ->). reflexivity.
Defined.

Lemma exchange_unanswered_witness :
  let msg := ChangeRuntimeConfigurationCall (mkRuntimeConfiguration true true true) in
  let expect (m : NodeMessage) : option (result ProtocolServiceError unit) := None in
  let (r, w') := exchange (S := unit) no_listener cb 0 10 msg expect (first_service 0 None) in
  r = Err (ServiceIpcError RefTimeout) /\ unanswered w' = 1%nat /\ steady plain w'.
Proof.
  intros msg expect.
  assert (Hs : steady plain (first_service (S := unit) 0 None)) by (split; [done|constructor]).
  pose proof (exchange_unanswered (P := Z) (S := unit) no_listener cb 0 10 msg expect
    (first_service 0 None) Hs I) as Hu.
  destruct (exchange no_listener cb 0 10 msg expect (first_service 0 None)) as [r w'] eqn:E.
  destruct Hu as [Hst [[Hu (m & ->)]|[Hu ->]]]; [discriminate E|]. by ssplit.
Defined.
End Examples.
