(* ===== verification/ContextService.v ===== *)
(** * Reading contexts through the protocol runner

    The index of [TezedgeContext] behind the requests of [ProtocolService]: an
    instance of the interface the service is written against, and what a node
    reads of the contexts that were committed in the runner. *)

From Stdlib Require Import ZArith Lia List Bool Ascii String.
From stdpp Require Import base option list numbers strings gmap sorting.
From S2P Require Import Prelude Spsc Types CryptoHash MessageTypes ContextStore ContextGc ContextHash OrdMapFacts ContextContent.
From S2P Require Import WorkingTree ContextRep ContextEdit ContextWalk ContextHashing ContextCommit TezedgeContext ContextSpec ContextRefine ApiTypes Environment Rpc ProtocolService ProtocolServiceFacts.

Local Open Scope string_scope.
Local Open Scope list_scope.

(** [get_context_index] makes a new [TezedgeIndex] on the repository: its interner
    is empty and is dropped with it. *)
Definition with_new_index `{OrdMapCrate} {A} (m : M ContextError A) (s : St)
  : result ContextError A * St :=
  let (r, s') := m (mkSt (heap s) (repo s) ∅ (tree_ids s)) in
  (r, mkSt (heap s') (repo s') (strings s) (tree_ids s')).

Definition tezedge_index_api `{OrdMapCrate, BincodeCrate, DefaultHasher} (fuel : nat)
  (debug : ContextError -> string) : IndexApi St := {|
  ProtocolService.get_key_from_history h key := with_new_index (Index.get_key_from_history h key);
  ProtocolService.get_key_values_by_prefix h prefix :=
    with_new_index (Index.get_key_values_by_prefix fuel h prefix);
  ProtocolService.get_context_tree_by_prefix h prefix depth :=
    with_new_index (Index.get_context_tree_by_prefix fuel h prefix depth);
  debug_context_error := debug;
|}.

Section Reading.
Context `{OrdMapCrate, BincodeCrate, DefaultHasher, Blake2Crate, Leb128Crate} (pfuel fuel : nat).

(** The interner does not matter to the simulation. *)
Lemma sim_interner sp p s l : sim pfuel sp (p, s) ->
  sim pfuel sp (p, mkSt (heap s) (repo s) l (tree_ids s)).
Proof. intros [W [Hi Hc Hb]]. exists W. split; [|done..]. destruct Hi. by split. Qed.

Lemma with_new_index_sim {A} (m : M ContextError A) sp p s r f :
  (forall s0, sim pfuel sp (p, s0) -> stepped pfuel (f r, sp) (query f m (p, s0))) ->
  (forall x y, f x = f y -> x = y) ->
  sim pfuel sp (p, s) ->
  (with_new_index m s).1 = r /\ sim pfuel sp (p, (with_new_index m s).2).
Proof.
  intros Hm Hf Hs. specialize (Hm _ (sim_interner _ _ _ ∅ Hs)). unfold with_new_index.
  unfold query in Hm. cbn [fst snd] in Hm.
  destruct (m _) as [r' s'] eqn:E. destruct Hm as [Hr Hs']. split.
  - by apply Hf.
  - simpl. by apply sim_interner.
Qed.

(** What the specification answers to a request for a value of a commit. *)
Definition spec_history (sp : spec_state) (h : bytes) (key : ContextKey)
  : result ContextError (option ContextValue) :=
  history_spec h (book sp !! default_hash h) key.

Lemma history_sim sp p s h key :
  sim pfuel sp (p, s) ->
  stepped pfuel (RValue (spec_history sp h key), sp)
    (query RValue (Index.get_key_from_history h key) (p, s)).
Proof.
  intros [W Hs]. pose proof (sim_inv _ _ _ _ Hs) as Hi.
  exact (query_sim pfuel W sp p s _ _ RValue Hs
    (history_answers pfuel W s h _ key Hi (sim_book _ _ _ _ Hs (default_hash h)))).
Qed.

Section Node.
Context `{IpcCrate} {P : Type} `{!ProtocolApi (P * ContextRepository St)}.
Context (debug : ContextError -> string).
Context (listener_try_new : string -> result IpcError unit).
Context (shutdown_callback : P * ContextRepository St -> P * ContextRepository St).
#[local] Existing Instance tezedge_index_api.

(** (C4) What the node reads of a context through the runner is what was committed:
    in step, a request for a key of a commit answers as the specification of
    contexts does from the commit's directory, and the runner's repository still
    implements the specification afterwards. *)
Theorem node_reads_committed (n : nat) (w : ServiceWorld P St) (sp : spec_state) (p : list TezedgeContext)
  (s : St) (h : bytes) (key : ContextKey) :
  (1 <= n)%nat -> in_step w ->
  context_repository (server w) = mkRepository (Some s) false ->
  sim pfuel sp (p, s) ->
  exists w' s',
    @Ctl_get_context_key_from_history _ P St _ (tezedge_index_api fuel debug)
      listener_try_new shutdown_callback n h key w =
      (protocol_result ProtocolError.ContextGetKeyFromHistoryError
         (map_err debug (spec_history sp h key)), w') /\
    in_step w' /\ context_repository (server w') = mkRepository (Some s') false /\
    sim pfuel sp (p, s').
Proof.
  intros Hn Hw Hr Hs.
  destruct (with_new_index_sim (Index.get_key_from_history h key) sp p s (spec_history sp h key)
    RValue (fun s0 => history_sim sp p s0 h key) ltac:(by intros ? ? [=]) Hs) as [Ha Hs'].
  unfold Ctl_get_context_key_from_history.
  edestruct (@call_in_step) as (w' & -> & Hw' & Hrun); [done|done| |].
  { simpl. apply (on_index_answer (IndexApi0 := tezedge_index_api fuel debug)) with (s := s).
    - by rewrite Hr.
    - by rewrite Hr. }
  exists w', (with_new_index (Index.get_key_from_history h key) s).2. simpl. rewrite Ha.
  rewrite Hrun. by ssplit.
Qed.
End Node.
End Reading.

(** A runner that committed a directory, asked for its value. *)
Section Example_.
#[local] Existing Instance reference_ipc.
#[local] Existing Instance counting_protocol.

Definition committed : reply * code_state :=
  ctx_step 3 20 (CCommit 1 [] [] 1) (ctx_step 3 20 (CAdd 0 ["a"; "x"] [7]) (first_context false)).2.
Definition committed_spec : reply * spec_state :=
  spec_step 3 (CCommit 1 [] [] 1) (spec_step 3 (CAdd 0 ["a"; "x"] [7]) first_spec).2.

Lemma committed_sim : sim 3 committed_spec.2 committed.2.
Proof.
  destruct (step_sim 3 20 (CAdd 0 ["a"; "x"] [7]) first_spec (first_context false)
    (first_sim 3 false) I) as [[_ Hs]|Hf]; [|by vm_compute in Hf].
  destruct (step_sim 3 20 (CCommit 1 [] [] 1) _ _ Hs) as [[_ Hs']|Hf]; [by vm_compute|done|by vm_compute in Hf].
Qed.

Lemma node_reads_committed_witness :
  exists w' s',
    @Ctl_get_context_key_from_history reference_ipc Z St _ (tezedge_index_api 20 (fun _ => "error"))
      (fun _ => Ok tt) (fun p => p) 1 demo_hash ["a"; "x"] (first_service 0 (Some committed.2.2)) =
      (Ok (Some [7]), w') /\ sim 3 committed_spec.2 (committed.2.1, s').
Proof.
  destruct (node_reads_committed 3 20 (P := Z) (fun _ => "error") (fun _ => Ok tt) (fun p => p) 1
    (first_service 0 (Some committed.2.2)) committed_spec.2 committed.2.1 committed.2.2 demo_hash ["a"; "x"])
    as (w' & s' & He & _ & _ & Hs).
  - lia.
  - apply first_world_in_step.
  - reflexivity.
  - rewrite <- surjective_pairing. exact committed_sim.
  - exists w', s'. rewrite He. split; [|exact Hs]. by f_equal.
Defined.
End Example_.
