(* ===== verification/InitLock.v ===== *)
(** * Who may initialise a context first ([tezos/wrapper/src/service.rs])

    [init_protocol_context] holds the threads that open a context for reading until
    one thread has created it: a flag under a mutex, and a condition variable that
    the first successful write notifies.  The threads of the node are a step
    relation; a wait may also end by itself, as [Condvar::wait] allows, when
    [spurious] is set. *)

From Stdlib Require Import ZArith Lia List Bool Relations.
From stdpp Require Import base option list relations.
From S2P Require Import Prelude.

(** Where a thread is: before the lock, in [cvar.wait], past the lock (the request
    to the runner is under way), or back with the result's [is_ok]. *)
Inductive pc : Type := Start | Waiting | Calling | Finished (ok : bool).

#[export] Instance pc_eq_dec : EqDecision pc.
Proof. solve_decision. Defined.

Record thread : Type := mkThread { readonly_init : bool; at_pc : pc }.

Record lock_state : Type := mkLock {
  was_one_write_success : bool;
  threads : list thread;
}.

Definition goto (p : pc) (t : thread) : thread := mkThread (readonly_init t) p.

(** [cvar.notify_all()]. *)
Definition wake (t : thread) : thread :=
  match at_pc t with Waiting => goto Calling t | _ => t end.

(** The block at the start of [init_protocol_context]. *)
Definition enter (s : lock_state) (t : thread) : pc :=
  if negb (was_one_write_success s) && readonly_init t then Waiting else Calling.

(** The block after a result: the first successful write sets the flag and wakes
    everyone. *)
Definition finish (ok : bool) (i : nat) (t : thread) (s : lock_state) : lock_state :=
  let ts := <[i := goto (Finished ok) t]> (threads s) in
  if ok && negb (readonly_init t) && negb (was_one_write_success s)
  then mkLock true (wake <$> ts)
  else mkLock (was_one_write_success s) ts.

Inductive step (spurious : bool) : lock_state -> lock_state -> Prop :=
| step_enter i t s :
    threads s !! i = Some t -> at_pc t = Start ->
    step spurious s (mkLock (was_one_write_success s) (<[i := goto (enter s t) t]> (threads s)))
| step_spurious i t s :
    spurious = true -> threads s !! i = Some t -> at_pc t = Waiting ->
    step spurious s (mkLock (was_one_write_success s) (<[i := goto Calling t]> (threads s)))
| step_finish i t ok s :
    threads s !! i = Some t -> at_pc t = Calling ->
    step spurious s (finish ok i t s).

(** Any number of threads of either kind, none of which has started. *)
Definition initial (kinds : list bool) : lock_state :=
  mkLock false ((fun ro => mkThread ro Start) <$> kinds).

Definition reachable (spurious : bool) (kinds : list bool) (s : lock_state) : Prop :=
  rtc (step spurious) (initial kinds) s.

(** Past the lock. *)
Definition past (t : thread) : Prop :=
  match at_pc t with Calling | Finished _ => True | _ => False end.

(** A write that succeeded. *)
Definition wrote (t : thread) : Prop := readonly_init t = false /\ at_pc t = Finished true.

#[export] Instance wrote_dec t : Decision (wrote t).
Proof. unfold wrote. apply _. Defined.

Definition lock_inv (s : lock_state) : Prop :=
  (was_one_write_success s = true <-> Exists wrote (threads s)) /\
  Forall (fun t => readonly_init t = true -> past t -> was_one_write_success s = true) (threads s) /\
  (was_one_write_success s = true -> Forall (fun t => at_pc t <> Waiting) (threads s)).

Lemma lock_inv_initial kinds : lock_inv (initial kinds).
Proof.
  split; [|split].
  - split; [done|]. simpl. intros (t & Hin & [_ Hf])%Exists_exists.
    apply list_elem_of_fmap in Hin as (ro & -> & _). done.
  - apply Forall_fmap, Forall_forall. intros ro _ _ Hp. done.
  - done.
Qed.

Lemma Exists_insert {A} (Q : A -> Prop) l i x y :
  l !! i = Some x -> (Q x -> Q y) -> Exists Q l -> Exists Q (<[i := y]> l).
Proof.
  intros Hi Hxy. revert i Hi. induction l as [|z l IH]; intros i Hi Hex; [by apply Exists_nil in Hex|].
  apply Exists_cons in Hex. destruct i as [|i]; simpl in *.
  - simplify_eq. apply Exists_cons. naive_solver.
  - apply Exists_cons. destruct Hex; [by left|]. right. by apply IH.
Qed.

Lemma Exists_insert_inv {A} (Q : A -> Prop) l i x y :
  l !! i = Some x -> ~ Q y -> Exists Q (<[i := y]> l) -> Exists Q l.
Proof.
  intros Hi Hy. revert i Hi. induction l as [|z l IH]; intros i Hi Hex; [done|].
  destruct i as [|i]; simpl in *; apply Exists_cons in Hex; apply Exists_cons; [naive_solver|].
  destruct Hex; [by left|right]. by eapply IH.
Qed.

(** A thread that moves without having written leaves the flag justified. *)
Lemma lock_inv_move s i t p :
  lock_inv s -> threads s !! i = Some t -> ~ wrote (goto p t) -> ~ wrote t ->
  (readonly_init t = true -> past (goto p t) -> was_one_write_success s = true) ->
  (was_one_write_success s = true -> p <> Waiting) ->
  lock_inv (mkLock (was_one_write_success s) (<[i := goto p t]> (threads s))).
Proof.
  intros (Hw & Hr & Hn) Hi Hp Ht Hro Hwait. split; [|split]; simpl.
  - rewrite Hw. split.
    + apply (Exists_insert _ _ _ _ _ Hi). tauto.
    + by apply (Exists_insert_inv _ _ _ _ _ Hi).
  - by apply Forall_insert.
  - intros Hf. apply Forall_insert; [by apply Hn|]. simpl. by apply Hwait.
Qed.

Lemma lock_inv_step s s' : lock_inv s -> step false s s' -> lock_inv s'.
Proof.
  intros Hinv Hstep. destruct Hstep as [i t s Hi Hpc|i t s Hsp|i t ok s Hi Hpc]; [|done|].
  - unfold enter. destruct (negb (was_one_write_success s) && readonly_init t) eqn:E.
    + apply andb_true_iff in E as [Hf%negb_true_iff Hro]. apply lock_inv_move; try done.
      * by intros [_ ?].
      * intros [_ Hx]. congruence.
      * congruence.
    + apply andb_false_iff in E. apply lock_inv_move; try done.
      * by intros [_ ?].
      * intros [_ Hx]. congruence.
      * intros Hro _. destruct E as [Hf%negb_false_iff|]; congruence.
  - assert (Hnw : ~ wrote t) by (intros [_ Hx]; congruence).
    assert (Hread : readonly_init t = true -> was_one_write_success s = true).
    { intros Hro. destruct Hinv as (_ & Hr & _).
      apply (Forall_lookup_1 _ _ _ _ Hr Hi Hro). unfold past. by rewrite Hpc. }
    unfold finish. destruct (ok && negb (readonly_init t) && negb (was_one_write_success s)) eqn:E.
    + apply andb_true_iff in E as [[-> Hro%negb_true_iff]%andb_true_iff Hf%negb_true_iff].
      split; [|split]; simpl.
      * split; [intros _|done]. apply Exists_exists. exists (goto (Finished true) t). split; [|done].
        apply list_elem_of_fmap. exists (goto (Finished true) t). split; [done|].
        apply list_elem_of_lookup. exists i. apply list_lookup_insert_eq. by eapply lookup_lt_Some.
      * apply Forall_forall. done.
      * intros _. apply Forall_fmap, Forall_forall. intros x _. unfold wake, compose.
        by destruct x as [ro []].
    + destruct (decide (wrote (goto (Finished ok) t))) as [Hw|Hw].
      * destruct Hw as [Hro [= ->]]. simpl in Hro. rewrite Hro in E. simpl in E.
        apply negb_false_iff in E. destruct Hinv as (Hw & Hr & Hn). split; [|split]; simpl.
        -- split; [intros _|done]. apply Exists_exists. exists (goto (Finished true) t). split; [|done].
           apply list_elem_of_lookup. exists i. apply list_lookup_insert_eq. by eapply lookup_lt_Some.
        -- by apply Forall_insert.
        -- intros _. apply Forall_insert; [by apply Hn|done].
      * apply lock_inv_move; try done. intros Hro _. by apply Hread.
Qed.

(** One step of a run, its side conditions by computation. *)
Ltac lock_step c := eapply rtc_l; [apply c; reflexivity|cbn].

(** (C20) When waits only end by being notified, no thread gets past the lock to
    open a context for reading before a write has succeeded, and once one has, no
    thread is left waiting. *)
Theorem readers_after_write (kinds : list bool) (s : lock_state) :
  reachable false kinds s ->
  (forall t, t ∈ threads s -> readonly_init t = true -> past t -> Exists wrote (threads s)) /\
  (Exists wrote (threads s) -> Forall (fun t => at_pc t <> Waiting) (threads s)).
Proof.
  intros Hr. assert (Hinv : lock_inv s).
  { unfold reachable in Hr. pose proof (lock_inv_initial kinds) as Hi.
    induction Hr as [|x y z Hs _ IH]; [done|]. apply IH. by eapply lock_inv_step. }
  destruct Hinv as (Hw & Hro & Hn). split.
  - intros t Hin Ht Hp. apply Hw. exact (proj1 (Forall_forall _ _) Hro t Hin Ht Hp).
  - intros He. by apply Hn, Hw.
Qed.

(** A reader that sleeps, a writer that succeeds, and the reader awake. *)
Lemma readers_after_write_witness :
  let s := mkLock true [mkThread true Calling; mkThread false (Finished true)] in
  reachable false [true; false] s /\ Exists wrote (threads s) /\
  Forall (fun t => at_pc t <> Waiting) (threads s).
Proof.
  intros s.
  assert (Hr : reachable false [true; false] s).
  { unfold reachable, initial. cbn. lock_step (step_enter false 0 (mkThread true Start)).
    lock_step (step_enter false 1 (mkThread false Start)).
    lock_step (step_finish false 1 (mkThread false Calling) true).
    apply rtc_refl. }
  destruct (readers_after_write [true; false] s Hr) as [Hread Hwait].
  assert (He : Exists wrote (threads s)).
  { apply (Hread (mkThread true Calling)); [left|reflexivity|exact I]. }
  exact (conj Hr (conj He (Hwait He))).
Defined.

(** The wait is not in a loop: a spurious end of it lets a reader through although
    nothing was written. *)
Lemma spurious_reader : reachable true [true] (mkLock false [mkThread true Calling]).
Proof.
  unfold reachable, initial. cbn.
  lock_step (step_enter true 0 (mkThread true Start)).
  lock_step (step_spurious true 0 (mkThread true Waiting)).
  apply rtc_refl.
Qed.

(** A write that fails wakes nobody: when every writer is back with an error, the
    readers wait for ever. *)
Lemma failed_write_strands s :
  was_one_write_success s = false ->
  Forall (fun t => at_pc t = Waiting \/ at_pc t = Finished false) (threads s) ->
  forall s', step false s s' -> False.
Proof.
  intros _ Hall s' Hs. destruct Hs as [i t s Hi Hpc|i t s Hsp|i t ok s Hi Hpc]; [|done|];
    destruct (Forall_lookup_1 _ _ _ _ Hall Hi) as [Hx|Hx]; congruence.
Qed.

Lemma stranded_reachable :
  reachable false [true; false] (mkLock false [mkThread true Waiting; mkThread false (Finished false)]).
Proof.
  unfold reachable, initial. cbn.
  lock_step (step_enter false 0 (mkThread true Start)).
  lock_step (step_enter false 1 (mkThread false Start)).
  lock_step (step_finish false 1 (mkThread false Calling) false).
  apply rtc_refl.
Qed.
