(* ===== verification/RunnerPool.v ===== *)
(** * Protocol runner processes and their pool ([tezos/wrapper/src/runner.rs],
    [pool.rs], [lib.rs], [tezedge_context_client.rs])

    Starting, watching and ending the sub-process of a runner, the connections the
    pool manages, and the client that reads contexts through a pooled connection.
    Processes are a class, and so is [r2d2], with what its documentation says of
    returned connections.  The last part follows an answer that comes too late. *)

From Stdlib Require Import ZArith Lia List Bool String Ascii.
From stdpp Require Import base option list numbers strings pretty.
From S2P Require Import Prelude Extern CryptoHash MessageTypes ContextStore ContextHash WorkingTree TezedgeContext ApiTypes Environment Rpc ProtocolService ProtocolServiceFacts.

Local Open Scope string_scope.
Local Open Scope list_scope.

(** Durations in nanoseconds. *)
Definition secs (n : Z) : Z := n * 10 ^ 9.

(** ** Processes *)
Class ProcessApi : Type := {
  Child : Type;
  (** [Command::spawn] with the program and its arguments. *)
  command_spawn : string -> list string -> result string Child;
  (** SIGINT, [Child::kill]. *)
  send_sigint : Child -> result string unit * Child;
  child_kill : Child -> result string unit * Child;
  (** [Some] exit status once the process has ended. *)
  wait_timeout : Z -> Child -> result string (option Z) * Child;
  try_wait : Child -> result string (option Z) * Child;
}.

Inductive ProtocolRunnerError : Type :=
| SpawnError (reason : string)
| TerminateError (reason : string).

(** The [ProtocolRunner] trait, with [R] the runner and [Sub] its sub-process. *)
Class ProtocolRunner (R Sub : Type) : Type := {
  runner_new : ProtocolEndpointConfiguration -> string -> string -> R;
  runner_spawn : R -> result ProtocolRunnerError Sub;
  wait_and_terminate_ref : Z -> Sub -> result ProtocolRunnerError unit * Sub;
  is_running : Sub -> bool * Sub;
  PROCESS_TERMINATE_WAIT_TIMEOUT : Z;
}.

Module Executable.
Section Ops.
Context `{ProcessApi}.

Record ExecutableProtocolRunner : Type := mkExecutable {
  sock_cmd_path : string;
  exec_path : string;
  endpoint_name : string;
  exec_log_level : string;
}.

Definition new (configuration : ProtocolEndpointConfiguration) (sock_cmd_path endpoint_name : string)
  : ExecutableProtocolRunner :=
  mkExecutable sock_cmd_path (executable_path configuration) endpoint_name (log_level configuration).

Definition terminate_or_kill (reason : string) (process : Child)
  : result ProtocolRunnerError unit * Child :=
  match send_sigint process with
  | (Ok _, process) => (Ok tt, process)
  | (Err sigint_error, process) =>
      match child_kill process with
      | (Ok _, process) => (Ok tt, process)
      | (Err kill_error, process) =>
          (Err (TerminateError ("Reason for termination: " ++ reason ++ ", sigint_error: " ++
                  sigint_error ++ ", kill_error: " ++ kill_error)%string), process)
      end
  end.

Definition arguments (self : ExecutableProtocolRunner) : list string :=
  ["--sock-cmd"; sock_cmd_path self; "--endpoint"; endpoint_name self; "--log-level";
   to_ascii_lowercase (exec_log_level self)].

Definition spawn (self : ExecutableProtocolRunner) : result ProtocolRunnerError Child :=
  map_err SpawnError (command_spawn (exec_path self) (arguments self)).

Definition wait_and_terminate (timeout : Z) (process : Child)
  : result ProtocolRunnerError unit * Child :=
  match wait_timeout timeout process with
  | (Ok (Some _), process) => (Ok tt, process)
  | (Ok None, process) => terminate_or_kill "wait timeout exceeded" process
  | (Err e, process) => terminate_or_kill e process
  end.

Definition running (process : Child) : bool * Child :=
  match try_wait process with
  | (Ok None, process) => (true, process)
  | (_, process) => (false, process)
  end.

#[global] Instance executable_runner : ProtocolRunner ExecutableProtocolRunner Child := {|
  runner_new := new;
  runner_spawn := spawn;
  wait_and_terminate_ref := wait_and_terminate;
  is_running := running;
  PROCESS_TERMINATE_WAIT_TIMEOUT := secs 10;
|}.

(** Ending a process fails only when the signal and the kill both fail. *)
Lemma wait_and_terminate_error timeout process e :
  (wait_and_terminate timeout process).1 = Err e ->
  exists reason s k p1 p2 p3,
    e = TerminateError ("Reason for termination: " ++ reason ++ ", sigint_error: " ++ s ++
          ", kill_error: " ++ k)%string /\
    send_sigint p1 = (Err s, p2) /\ child_kill p2 = (Err k, p3).
Proof.
  unfold wait_and_terminate.
  assert (Hk : forall reason p, (terminate_or_kill reason p).1 = Err e ->
    exists reason s k p1 p2 p3, e = TerminateError ("Reason for termination: " ++ reason ++
      ", sigint_error: " ++ s ++ ", kill_error: " ++ k)%string /\
      send_sigint p1 = (Err s, p2) /\ child_kill p2 = (Err k, p3)).
  { intros reason p. unfold terminate_or_kill. destruct (send_sigint p) as [[|s] p2] eqn:E1; [done|].
    destruct (child_kill p2) as [[|k] p3] eqn:E2; [done|]. intros [= <-]. eauto 10. }
  destruct (wait_timeout timeout process) as [[[|]|] p]; [done|apply Hk..].
Qed.
End Ops.
End Executable.

(** ** Connections ([pool.rs]) *)
Section Pool.
Context `{IpcCrate} {P S : Type} `{!ProtocolApi (P * ContextRepository S), !IndexApi S}.
Context {R Sub : Type} `{!ProtocolRunner R Sub}.
Context (listener_try_new : string -> result IpcError unit).
Context (shutdown_callback : P * ContextRepository S -> P * ContextRepository S).

Inductive PoolError : Type :=
| SpawnRunnerError (error : ProtocolRunnerError)
| PoolIpcError (reason : string) (error : IpcError)
| InitContextError (message : string) (error : ProtocolServiceError).

(** The controller with the channels it owns, and the process at their other end. *)
Record ProtocolRunnerConnection : Type := mkConnection {
  api : ProtocolController;
  link : ServiceWorld P S;
  subprocess : Sub;
  conn_name : string;
  release_on_return_to_pool : bool;
}.

Definition set_link (w : ServiceWorld P S) (c : ProtocolRunnerConnection) : ProtocolRunnerConnection :=
  mkConnection (api c) w (subprocess c) (conn_name c) (release_on_return_to_pool c).
Definition set_subprocess (s : Sub) (c : ProtocolRunnerConnection) : ProtocolRunnerConnection :=
  mkConnection (api c) (link c) s (conn_name c) (release_on_return_to_pool c).

Definition is_valid (c : ProtocolRunnerConnection) : result PoolError unit := Ok tt.

Definition has_broken (c : ProtocolRunnerConnection) : bool * ProtocolRunnerConnection :=
  if release_on_return_to_pool c then (true, c)
  else
    let (is_subprocess_running, s) := is_running (R := R) (subprocess c) in
    (negb is_subprocess_running, set_subprocess s c).

(** The errors of both steps are logged. *)
Definition terminate_subprocess (n : nat) (c : ProtocolRunnerConnection) : ProtocolRunnerConnection :=
  let '(_, api', w) := shutdown listener_try_new shutdown_callback n (api c) (link c) in
  let (_, s) := wait_and_terminate_ref (R := R) (PROCESS_TERMINATE_WAIT_TIMEOUT (R := R)) (subprocess c) in
  mkConnection api' w s (conn_name c) (release_on_return_to_pool c).

Definition set_release_on_return_to_pool (c : ProtocolRunnerConnection) : ProtocolRunnerConnection :=
  mkConnection (api c) (link c) (subprocess c) (conn_name c) true.

(** *** [ProtocolRunnerManager] *)
Record ProtocolRunnerManager : Type := mkManager {
  pool_name : string;
  pool_name_counter : Z;
  pool_connection_timeout : Z;
  endpoint_cfg : ProtocolEndpointConfiguration;
}.

Definition MIN_ACCEPT_TIMEOUT : Z := secs 3.

Definition new_manager (name : string) (timeout : Z) (cfg : ProtocolEndpointConfiguration)
  : ProtocolRunnerManager := mkManager name 1 timeout cfg.

(** [checked_div(3)] never fails. *)
Definition accept_timeout (self : ProtocolRunnerManager) : Z :=
  Z.max MIN_ACCEPT_TIMEOUT (pool_connection_timeout self / 3).

(** What the sockets answer: the path of the endpoint, and the channels once the
    sub-process has connected. *)
Record Sockets : Type := mkSockets {
  bind_path : result IpcError string;
  try_accept : Z -> Sub -> result IpcError (ServiceWorld P S);
  (** [set_read_timeout(..).and(set_write_timeout(..))]. *)
  set_timeouts : result IpcError unit;
}.

(** [IpcCmdServer::try_accept]. *)
Definition cmd_server_try_accept (os : Sockets) (timeout : Z) (s : Sub)
  (configuration : ProtocolEndpointConfiguration) : result IpcError (ProtocolController * ServiceWorld P S) :=
  w ← try_accept os timeout s;
  _ ← set_timeouts os;
  Ok (mkController configuration false, w).

Definition create_connection (os : Sockets) (self : ProtocolRunnerManager)
  : result PoolError ProtocolRunnerConnection * ProtocolRunnerManager * option Sub :=
  let endpoint_name := (pool_name self ++ "_" ++ pretty (pool_name_counter self))%string in
  let self := mkManager (pool_name self) (uwrap 64 (pool_name_counter self + 1))
    (pool_connection_timeout self) (endpoint_cfg self) in
  match bind_path os with
  | Err error => (Err (PoolIpcError "fail to setup protocol runner endpoint" error), self, None)
  | Ok path =>
      match runner_spawn (runner_new (R := R) (endpoint_cfg self) path endpoint_name) with
      | Err e => (Err (SpawnRunnerError e), self, None)
      | Ok subprocess =>
          match cmd_server_try_accept os (accept_timeout self) subprocess (endpoint_cfg self) with
          | Err e =>
              let (_, s) := wait_and_terminate_ref (R := R) (PROCESS_TERMINATE_WAIT_TIMEOUT (R := R)) subprocess in
              (Err (PoolIpcError "fail to accept IPC for sub-process" e), self, Some s)
          | Ok (api, w) =>
              (Ok (mkConnection api w subprocess endpoint_name false), self, Some subprocess)
          end
      end
  end.

(** *** Customizers *)
Section ReadonlyContext.
Context `{Base58Crate, Sodium, ChronoCrate}.
Context (debug_environment_error : TezosEnvironmentError -> string).

(** [InitReadonlyContextProtocolRunnerConnectionCustomizer::on_acquire]; the numbers
    are the rounds of the two requests and of a shutdown after a failure. *)
Definition on_acquire_readonly (n n' m : nat) (was_one_write_success : bool)
  (c : ProtocolRunnerConnection) : result PoolError unit * ProtocolRunnerConnection :=
  match init_protocol_for_read listener_try_new shutdown_callback debug_environment_error n n' (api c)
          was_one_write_success (link c) with
  | (Ok _, w, _) => (Ok tt, set_link w c)
  | (Err e, w, _) => (Err (InitContextError "readonly_context" e), terminate_subprocess m (set_link w c))
  end.
End ReadonlyContext.

(** [NoopProtocolRunnerConnectionCustomizer::on_acquire], and the [on_release] of both. *)
Definition on_acquire_noop (c : ProtocolRunnerConnection) : result PoolError unit * ProtocolRunnerConnection :=
  (Ok tt, c).
Definition on_release (m : nat) (c : ProtocolRunnerConnection) : ProtocolRunnerConnection :=
  terminate_subprocess m c.

(** ** The pool

    [r2d2]: a connection that is returned and not broken can be handed out again.
    [idle] is a pool that holds one connection and may not open another. *)
Class R2d2 : Type := {
  r2d2_Pool : Type;
  r2d2_Error : Type;
  idle : r2d2_Pool -> ProtocolRunnerConnection -> Prop;
  lent : r2d2_Pool -> Prop;
  pool_get : r2d2_Pool -> result r2d2_Error (ProtocolRunnerConnection * r2d2_Pool);
  pool_return : ProtocolRunnerConnection -> r2d2_Pool -> r2d2_Pool;
  pool_get_idle p c : idle p c -> is_valid c = Ok tt ->
    exists p', pool_get p = Ok (c, p') /\ lent p';
  pool_return_works p c : lent p -> (has_broken c).1 = false -> idle (pool_return c p) (has_broken c).2;
}.

Section Client.
Context `{R2d2}.

Inductive TezedgeContextClientError : Type :=
| ClientPoolError (error : r2d2_Error)
| ClientServiceError (error : ProtocolServiceError).

(** A connection is taken, used and returned at the end of the statement. *)
Definition with_connection {A} (call : ServiceWorld P S -> call_result A) (p : r2d2_Pool)
  : result TezedgeContextClientError A * r2d2_Pool :=
  match pool_get p with
  | Err e => (Err (ClientPoolError e), p)
  | Ok (c, p) =>
      let (r, w) := call (link c) in
      (map_err ClientServiceError r, pool_return (set_link w c) p)
  end.

Definition client_get_key_from_history (n : nat) (context_hash : bytes) (key : list string)
  : r2d2_Pool -> result TezedgeContextClientError (option bytes) * r2d2_Pool :=
  with_connection (Ctl_get_context_key_from_history listener_try_new shutdown_callback n context_hash key).

Definition client_get_key_values_by_prefix (n : nat) (context_hash : bytes) (prefix : list string)
  : r2d2_Pool -> result TezedgeContextClientError (option (list (list string * bytes))) * r2d2_Pool :=
  with_connection
    (Ctl_get_context_key_values_by_prefix listener_try_new shutdown_callback n context_hash prefix).

Definition client_get_context_tree_by_prefix (n : nat) (context_hash : bytes) (prefix : list string)
  (depth : option Z) : r2d2_Pool -> result TezedgeContextClientError StringTreeEntry * r2d2_Pool :=
  with_connection
    (Ctl_get_context_tree_by_prefix listener_try_new shutdown_callback n context_hash prefix depth).

(** A connection whose process runs and that nobody asked to release is not broken,
    whatever is in its channels. *)
Lemma with_connection_idle {A} (call : ServiceWorld P S -> call_result A) p c :
  idle p c -> release_on_return_to_pool c = false -> (is_running (R := R) (subprocess c)).1 = true ->
  exists p', with_connection call p = (map_err ClientServiceError (call (link c)).1, p') /\
    idle p' (set_subprocess (is_running (R := R) (subprocess c)).2 (set_link (call (link c)).2 c)).
Proof.
  intros Hi Hrel Hrun. destruct (pool_get_idle p c Hi eq_refl) as (p1 & Hget & Hlent).
  unfold with_connection. rewrite Hget. destruct (call (link c)) as [r w]. eexists. split; [done|]. simpl.
  pose proof (pool_return_works p1 (set_link w c) Hlent) as Hret.
  unfold has_broken in Hret. simpl in Hret. rewrite Hrel in Hret.
  destruct (is_running (subprocess c)) as [[] s]; [|done]. by apply Hret.
Qed.

(** (C40) A pooled connection can hand an answer to the wrong caller.  A client asks
    for a key and gives up after the time limit; its connection goes back to the
    pool, which only asks whether the sub-process runs; the next client that asks
    for any key on that connection is told the value of the first client's key. *)
Theorem late_answer_reaches_next_client (p : r2d2_Pool) (c : ProtocolRunnerConnection) (s : S)
  (n : nat) (h h' : bytes) (k k' : list string) :
  idle p c -> release_on_return_to_pool c = false -> (is_running (R := R) (subprocess c)).1 = true ->
  in_step (link c) -> (1 <= n)%nat ->
  context_repository (server (link c)) = mkRepository (Some s) false ->
  let (r, p1) := client_get_key_from_history 0 h k p in
  let (r', p2) := client_get_key_from_history n h' k' p1 in
  r = Err (ClientServiceError (ServiceIpcError IpcTimeout)) /\
  r' = map_err (fun e => ClientServiceError (ServiceProtocolError
         (ProtocolError.ContextGetKeyFromHistoryError (debug_context_error e))))
         (get_key_from_history h k s).1.
Proof.
  intros Hi Hrel Hrun Hw Hn Hrep. unfold client_get_key_from_history.
  destruct (with_connection_idle (Ctl_get_context_key_from_history listener_try_new shutdown_callback 0 h k)
    p c Hi Hrel Hrun) as (p1 & -> & Hi1).
  destruct (pool_get_idle _ _ Hi1 eq_refl) as (p2 & Hget & _).
  unfold with_connection at 1. rewrite Hget. cbn [link set_subprocess set_link].
  pose proof (on_index_answer (get_key_from_history h k) ContextGetKeyFromHistoryResult
    (server (link c)) s ltac:(by rewrite Hrep) ltac:(by rewrite Hrep)) as Hp.
  destruct (stale_answer (process_command listener_try_new shutdown_callback) (fun e => e) (fun _ => Ok tt)
    ServiceIpcError (fun message => UnexpectedMessage (message_name message)) IO_TIMEOUT_LONG IO_TIMEOUT_LONG
    (ContextGetKeyFromHistory (mkKeyFromHistory h k)) (ContextGetKeyFromHistory (mkKeyFromHistory h' k'))
    (fun m => match m with
      | ContextGetKeyFromHistoryResult r =>
          Some (protocol_result ProtocolError.ContextGetKeyFromHistoryError r)
      | _ => None end)
    (fun m => match m with
      | ContextGetKeyFromHistoryResult r =>
          Some (protocol_result ProtocolError.ContextGetKeyFromHistoryError r)
      | _ => None end) (link c) _ _ n Hw Hn Hp) as [H1 H2].
  unfold Ctl_get_context_key_from_history, exchange. cbv zeta in H2. rewrite H1.
  destruct (Rpc.exchange _ _ _ _ _ n _ _ _ _) as [r' w2].
  simpl in H2. rewrite H2. split; [done|]. simpl. by destruct (get_key_from_history h k s).1.
Qed.
End Client.

(** *** Creating connections *)
Lemma accept_timeout_range self :
  secs 3 <= accept_timeout self /\
  (secs 9 <= pool_connection_timeout self -> accept_timeout self = pool_connection_timeout self / 3).
Proof.
  unfold accept_timeout, MIN_ACCEPT_TIMEOUT, secs. split; [lia|]. intros Hp.
  assert (3 * 10 ^ 9 <= pool_connection_timeout self / 3) by (apply Z.div_le_lower_bound; lia). lia.
Qed.

(** A connection is new, numbered, and configured as the pool; when the sub-process
    does not connect in time it is ended before the error is returned. *)
Lemma create_connection_spec os self :
  match create_connection os self with
  | (Ok c, self', Some sub) =>
      release_on_return_to_pool c = false /\ api c = mkController (endpoint_cfg self) false /\
      subprocess c = sub /\
      conn_name c = (pool_name self ++ "_" ++ pretty (pool_name_counter self))%string /\
      pool_name_counter self' = uwrap 64 (pool_name_counter self + 1)
  | (Ok _, _, None) => False
  | (Err (PoolIpcError reason _), _, Some sub) =>
      reason = "fail to accept IPC for sub-process" /\
      exists path started,
        runner_spawn (runner_new (R := R) (endpoint_cfg self) path
          (pool_name self ++ "_" ++ pretty (pool_name_counter self))%string) = Ok started /\
        sub = (wait_and_terminate_ref (R := R) (PROCESS_TERMINATE_WAIT_TIMEOUT (R := R)) started).2
  | (Err _, _, Some _) => False
  | (Err _, _, None) => True
  end.
Proof.
  unfold create_connection, cmd_server_try_accept. destruct (bind_path os) as [path|]; [|done]. cbn.
  destruct (runner_spawn _) as [sub|] eqn:Hs; [|done].
  destruct (try_accept os _ sub) as [w|e]; cbn.
  - destruct (set_timeouts os) as [|e]; cbn; [done|].
    destruct (wait_and_terminate_ref _ sub) as [? s'] eqn:Hw. split; [done|].
    exists path, sub. split; [done|]. by rewrite Hw.
  - destruct (wait_and_terminate_ref _ sub) as [? s'] eqn:Hw. split; [done|].
    exists path, sub. split; [done|]. by rewrite Hw.
Qed.
End Pool.

(** ** Examples *)

(** A pool of one connection. *)
Definition reference_pool `{IpcCrate} {P S R Sub} `{!ProtocolRunner R Sub}
  : R2d2 (P := P) (S := S) (R := R) (Sub := Sub).
Proof.
  refine {|
    r2d2_Pool := option (ProtocolRunnerConnection (P := P) (S := S) (Sub := Sub));
    r2d2_Error := unit;
    idle p c := p = Some c;
    lent p := p = None;
    pool_get p := match p with Some c => Ok (c, None) | None => Err tt end;
    pool_return c p := if (has_broken (R := R) c).1 then None else Some (has_broken (R := R) c).2;
  |}.
  - intros p c -> _. by eexists.
  - intros p c _ Hb. by rewrite Hb.
Defined.

(** A sub-process that always runs. *)
Definition running_forever : ProtocolRunner unit unit := {|
  runner_new _ _ _ := tt;
  runner_spawn _ := Ok tt;
  wait_and_terminate_ref _ s := (Ok tt, s);
  is_running s := (true, s);
  PROCESS_TERMINATE_WAIT_TIMEOUT := secs 10;
|}.

Section Example_.
#[local] Existing Instance reference_ipc.
#[local] Existing Instance counting_protocol.
#[local] Existing Instance echo_index.
#[local] Existing Instance running_forever.
#[local] Existing Instance reference_pool.

Definition demo_configuration : ProtocolEndpointConfiguration :=
  mkEndpointConfiguration (mkRuntimeConfiguration false false false) sandbox_cfg false
    (TezEdgeOnly (mkTezEdge InMem None)) "protocol-runner" "Info".
Definition demo_connection : ProtocolRunnerConnection (P := Z) (S := unit) (Sub := unit) :=
  mkConnection (mkController demo_configuration false) (first_service 0 (Some tt)) tt "pool_1" false.

Lemma late_answer_reaches_next_client_witness :
  let no_listener (_ : string) : result (@IpcError reference_ipc) unit := Ok tt in
  let ask n key := client_get_key_from_history (P := Z) (S := unit) (R := unit) (Sub := unit)
    no_listener (fun p => p) n [] key in
  let (r, p1) := ask 0%nat ["secret"] (Some demo_connection) in
  let (r', p2) := ask 2%nat ["other"] p1 in
  r = Err (ClientServiceError (ServiceIpcError RefTimeout)) /\ r' = Ok (Some (str_bytes "secret")).
Proof.
  intros no_listener ask.
  exact (late_answer_reaches_next_client (P := Z) (S := unit) (R := unit) (Sub := unit) no_listener
    (fun p => p) (Some demo_connection) demo_connection tt 2 [] [] ["secret"] ["other"]
    eq_refl eq_refl eq_refl (first_world_in_step _) ltac:(lia) eq_refl).
Defined.
End Example_.
