(* ===== verification/ReadonlyIpc.v ===== *)
(** * Contexts read over IPC ([new_context/src/kv_store/readonly_ipc.rs])

    A readonly runner has no repository: it asks the one of the writing runner over
    a socket, and keeps the hashes it makes itself in a store of its own, under ids
    with the highest bit set.  The server's loop, the client's calls, the backend
    over both, and how an index is initialised ([initializer.rs]). *)

From Stdlib Require Import ZArith Lia List Bool Ascii String.
From stdpp Require Import base option list numbers strings gmap.
From S2P Require Import Prelude Spsc CryptoHash ContextStore ContextGc ContextHash WorkingTree ApiTypes Rpc ProtocolService.

Local Open Scope string_scope.
Local Open Scope list_scope.

(** ** Messages *)
Inductive ContextRequest : Type :=
| GetContextHashId (context_hash : bytes)
| GetHash (hash_id : HashId)
| GetValue (hash_id : HashId)
| ContainsEntry (hash_id : HashId)
| ContextShutdownCall.

Inductive ContextResponse : Type :=
| GetContextHashResponse (r : result string (option EntryHash))
| GetContextHashIdResponse (r : result string (option HashId))
| GetValueResponse (r : result string (option bytes))
| ContainsEntryResponse (r : result string bool)
| ContextShutdownResult.

Definition response_name (m : ContextResponse) : string :=
  match m with
  | GetContextHashResponse _ => "GetContextHashResponse"
  | GetContextHashIdResponse _ => "GetContextHashIdResponse"
  | GetValueResponse _ => "GetValueResponse"
  | ContainsEntryResponse _ => "ContainsEntryResponse"
  | ContextShutdownResult => "ShutdownResult"
  end.

Module ContextError.
Inductive t : Type :=
| GetValueError (reason : string)
| ContainsEntryError (reason : string)
| GetContextHashIdError (reason : string)
| GetContextHashError (reason : string).
End ContextError.

Section Service.
Context `{IpcCrate, DefaultHasher}.
(** The [Debug] form of the repository's errors. *)
Context (debug_db_error : DBError -> string).

Inductive IpcContextError : Type :=
| TezedgeIndexReadLockError
| ContextIpcError (reason : IpcError).

Inductive ContextServiceError : Type :=
| CSIpcError (reason : IpcError)
| CSContextError (reason : ContextError.t)
| CSUnexpectedMessage (message : string)
| CSLockPoisonError (message : string).

(** ** The writer's side

    Requests read the repository that [set_context_index] installed last. *)
Definition with_index (f : InMemory -> ContextResponse) (unavailable : ContextResponse)
  (r : ContextRepository InMemory) : outcome ContextResponse IpcContextError :=
  match get_context_index r with
  | Err TezedgeLockPoisonError => Fail TezedgeIndexReadLockError
  | Ok None => Answer unavailable
  | Ok (Some index) => Answer (f index)
  end.

Definition context_error {A} (r : result DBError A) : result string A :=
  map_err (fun err => ("Context error: " ++ debug_db_error err)%string) r.

Definition unavailable : string := "Context index unavailable".

(** The answer to [ContainsEntry] without an index is that of [GetValue]. *)
Definition process_context_request (cmd : ContextRequest) (r : ContextRepository InMemory)
  : outcome ContextResponse IpcContextError * ContextRepository InMemory :=
  (match cmd with
   | GetValue hash =>
       with_index (fun index => GetValueResponse (context_error (Mem.get_value hash index)))
         (GetValueResponse (Err unavailable)) r
   | ContainsEntry hash =>
       with_index (fun index => ContainsEntryResponse (context_error (Mem.contains hash index)))
         (GetValueResponse (Err unavailable)) r
   | ContextShutdownCall => Stop ContextShutdownResult
   | GetContextHashId context_hash =>
       with_index (fun index => GetContextHashIdResponse (Ok (Mem.get_context_hash context_hash index)))
         (GetContextHashIdResponse (Err unavailable)) r
   | GetHash hash_id =>
       with_index (fun index => GetContextHashResponse (context_error (Mem.get_hash hash_id index)))
         (GetContextHashResponse (Err unavailable)) r
   end, r).

Abbreviation ContextWorld :=
  (World ContextRequest ContextResponse (ContextRepository InMemory) IpcContextError).

(** One round of the loop, which ends with the error of its channel. *)
Definition process_context_requests : ContextWorld -> ContextWorld :=
  Rpc.round process_context_request ContextIpcError (fun e => Err (ContextIpcError e)).

(** ** The reader's side *)
Definition CLIENT_TIMEOUT : Z := 180.

Definition ask {A} (n : nat) (msg : ContextRequest)
  (expect : ContextResponse -> option (result ContextServiceError A)) (w : ContextWorld)
  : result ContextServiceError A * ContextWorld :=
  Rpc.exchange process_context_request ContextIpcError (fun e => Err (ContextIpcError e)) CSIpcError
    (fun m => CSUnexpectedMessage (response_name m)) n CLIENT_TIMEOUT msg expect w.

Definition context_result {A} (f : string -> ContextError.t) (r : result string A)
  : result ContextServiceError A := map_err (fun err => CSContextError (f err)) r.

Definition Client_get_value (n : nat) (hash_id : HashId) : ContextWorld -> _ :=
  ask n (GetValue hash_id) (fun m =>
    match m with
    | GetValueResponse r => Some (context_result ContextError.GetValueError r)
    | _ => None
    end).
Definition Client_contains_entry (n : nat) (hash_id : HashId) : ContextWorld -> _ :=
  ask n (ContainsEntry hash_id) (fun m =>
    match m with
    | ContainsEntryResponse r => Some (context_result ContextError.ContainsEntryError r)
    | _ => None
    end).
Definition Client_get_context_hash_id (n : nat) (context_hash : bytes) : ContextWorld -> _ :=
  ask n (GetContextHashId context_hash) (fun m =>
    match m with
    | GetContextHashIdResponse r => Some (context_result ContextError.GetContextHashIdError r)
    | _ => None
    end).
Definition Client_get_hash (n : nat) (hash_id : HashId) : ContextWorld -> _ :=
  ask n (GetHash hash_id) (fun m =>
    match m with
    | GetContextHashResponse r => Some (context_result ContextError.GetContextHashError r)
    | _ => None
    end).

(** ** [ReadonlyIpcBackend] *)
Record ReadonlyIpcBackend : Type := mkBackend {
  client : ContextWorld;
  own : HashValueStore;
}.

Definition set_client (b : ReadonlyIpcBackend) (w : ContextWorld) : ReadonlyIpcBackend :=
  mkBackend w (own b).

(** [IpcContextClient::try_connect]: the socket file is looked for five times, a
    second apart, then the connection is tried whether it is there or not. *)
Fixpoint wait_for_socket (tries : nat) (exists_at : nat -> bool) (second : nat) : nat :=
  match tries with
  | O => second
  | S tries => if exists_at second then second else wait_for_socket tries exists_at (S second)
  end.
Definition try_connect (exists_at : nat -> bool) (connect : nat -> result IpcError ContextWorld)
  : result IpcError ReadonlyIpcBackend :=
  w ← connect (wait_for_socket 5 exists_at 0);
  Ok (mkBackend w (Hvs.new None)).

(** What belongs to the reader is answered here, the rest is asked for. *)
Definition dispatch {A} (hash_id : HashId) (here : HashId -> result DBError A)
  (there : ContextWorld -> result ContextServiceError A * ContextWorld) (b : ReadonlyIpcBackend)
  : result DBError A * ReadonlyIpcBackend :=
  match get_readonly_id hash_id with
  | Err e => (Err (db_error e), b)
  | Ok (Some id) => (here id, b)
  | Ok None =>
      let (r, w) := there (client b) in (map_err (fun _ => IpcAccessError) r, set_client b w)
  end.

Definition backend_contains (n : nat) (hash_id : HashId) (b : ReadonlyIpcBackend) :=
  dispatch hash_id (fun id => map_err db_error (Hvs.contains id (own b)))
    (Client_contains_entry n hash_id) b.
Definition backend_get_hash (n : nat) (hash_id : HashId) (b : ReadonlyIpcBackend) :=
  dispatch hash_id (fun id => map_err db_error (Hvs.get_hash id (own b)))
    (Client_get_hash n hash_id) b.
Definition backend_get_value (n : nat) (hash_id : HashId) (b : ReadonlyIpcBackend) :=
  dispatch hash_id (fun id => map_err db_error (Hvs.get_value id (own b)))
    (Client_get_value n hash_id) b.
Definition backend_get_context_hash (n : nat) (context_hash : bytes) (b : ReadonlyIpcBackend)
  : result DBError (option HashId) * ReadonlyIpcBackend :=
  let (r, w) := Client_get_context_hash_id n context_hash (client b) in
  (map_err (fun _ => IpcAccessError) r, set_client b w).

(** [VacantEntryHash]: the entry it borrows in the reader's store, and the id it
    will have; [write_with] fills the entry. *)
Record VacantEntryHash : Type := mkVacant { entry : HashId; vacant_id : HashId }.

Definition backend_get_vacant_entry_hash (b : ReadonlyIpcBackend)
  : result DBError (VacantEntryHash * ReadonlyIpcBackend) :=
  '(id, s) ← map_err db_error (Hvs.get_vacant_entry_hash (own b));
  Ok (mkVacant id (set_readonly_runner id), mkBackend (client b) s).
Definition backend_write_with (v : VacantEntryHash) (hash : EntryHash) (b : ReadonlyIpcBackend)
  : HashId * ReadonlyIpcBackend :=
  (vacant_id v, mkBackend (client b) (Hvs.write_with (entry v) hash (own b))).

(** Nothing is written. *)
Definition backend_write_batch (batch : list (HashId * bytes)) (b : ReadonlyIpcBackend)
  : result DBError ReadonlyIpcBackend := Ok b.
Definition backend_put_context_hash (hash_id : HashId) (b : ReadonlyIpcBackend)
  : result DBError ReadonlyIpcBackend := Ok b.
Definition backend_clear_entries (b : ReadonlyIpcBackend) : result DBError ReadonlyIpcBackend :=
  Ok (mkBackend (client b) (Hvs.clear (own b))).

(** ** [initializer.rs] *)
Inductive IndexInitializationError : Type :=
| InitIpcError (reason : IpcError)
| IpcSocketPathMissing.

Inductive Repository : Type :=
| RInMemory (m : InMemory)
| RReadonlyIpc (b : ReadonlyIpcBackend).

Definition initialize_tezedge_index (gc_disabled : bool)
  (connect : string -> result IpcError ReadonlyIpcBackend)
  (configuration : TezosContextTezEdgeStorageConfiguration)
  : result IndexInitializationError Repository :=
  match backend configuration with
  | ReadOnlyIpc =>
      match ipc_socket_path configuration with
      | None => Err IpcSocketPathMissing
      | Some path => b ← map_err InitIpcError (connect path); Ok (RReadonlyIpc b)
      end
  | InMem => Ok (RInMemory (Mem.new gc_disabled))
  end.

(** ** Facts *)
Lemma readonly_bit id : 1 <= id < 2 ^ 63 ->
  Z.land id READONLY = 0 /\ Z.land (Z.lor id READONLY) (not64 READONLY) = id /\
  Z.land (Z.lor id READONLY) READONLY = READONLY.
Proof.
  intros Hid. assert (Hr : READONLY = 2 ^ 63) by reflexivity.
  assert (Hb : forall i, 63 <= i -> Z.testbit id i = false).
  { intros i Hi. destruct (Z.eq_dec id 0); [lia|]. apply Z.bits_above_log2; [lia|].
    apply Z.log2_lt_pow2; [lia|]. eapply Z.lt_le_trans; [apply Hid|]. apply Z.pow_le_mono_r; lia. }
  ssplit; apply Z.bits_inj'; intros i Hi; unfold not64;
    rewrite ?Z.land_spec, ?Z.lor_spec, ?Z.lxor_spec, ?Z.bits_0, Hr, ?Z.pow2_bits_eqb by lia.
  - destruct (Z.eqb_spec 63 i) as [<-|]; [by rewrite Hb|]. by rewrite andb_false_r.
  - rewrite Z.testbit_ones by lia. destruct (Z.eqb_spec 63 i) as [<-|].
    + by rewrite (Hb 63).
    + rewrite orb_false_r. destruct (Z.ltb_spec i 64) as [?|Hge].
      * rewrite (proj2 (Z.leb_le 0 i)) by lia. simpl. by rewrite andb_true_r.
      * rewrite Hb by lia. done.
  - destruct (Z.eqb_spec 63 i); [by rewrite orb_true_r|]. by rewrite orb_false_r, andb_false_r.
Qed.

Lemma writer_id id : 1 <= id < 2 ^ 63 -> get_readonly_id id = Ok None.
Proof. intros Hid. unfold get_readonly_id. by rewrite (proj1 (readonly_bit id Hid)). Qed.

Lemma own_id id : 1 <= id < 2 ^ 63 -> get_readonly_id (set_readonly_runner id) = Ok (Some id).
Proof.
  intros Hid. destruct (readonly_bit id Hid) as (_ & H1 & H2).
  unfold get_readonly_id, set_readonly_runner. rewrite H2, H1. cbn.
  destruct (Z.eqb_spec id 0); [lia|done].
Qed.

(** The answer of the service in step, on a repository [r]. *)
Lemma ask_in_step {A} n msg (expect : ContextResponse -> option (result _ A)) w m :
  in_step w -> (1 <= n)%nat -> (process_context_request msg (server w)).1 = Answer m ->
  exists w', ask n msg expect w = (default (Err (CSUnexpectedMessage (response_name m))) (expect m), w') /\
    in_step w' /\ server w' = server w.
Proof.
  intros Hw Hn Hm.
  exact (exchange_in_step process_context_request ContextIpcError (fun e => Err (ContextIpcError e))
    CSIpcError (fun m => CSUnexpectedMessage (response_name m)) n CLIENT_TIMEOUT msg expect w m
    (server w) Hw Hn ltac:(by rewrite (surjective_pairing (process_context_request _ _)), Hm)).
Qed.

Definition ipc_access {A} (r : result DBError A) : result DBError A := map_err (fun _ => IpcAccessError) r.

(** [call] on a backend in step answers [r] and leaves it in step, with the same
    hashes of its own. *)
Definition reads {A} (call : ReadonlyIpcBackend -> result DBError A * ReadonlyIpcBackend)
  (b : ReadonlyIpcBackend) (r : result DBError A) : Prop :=
  exists b', call b = (r, b') /\ in_step (client b') /\ server (client b') = server (client b) /\
    own b' = own b.

Lemma dispatch_there {A} id here there b (r : result ContextServiceError A) w :
  1 <= id < 2 ^ 63 -> there (client b) = (r, w) ->
  dispatch id here there b = (map_err (fun _ => IpcAccessError) r, set_client b w).
Proof. intros Hid Hr. unfold dispatch. rewrite writer_id by done. by rewrite Hr. Qed.

(** The writer's repository [m] is asked. *)
Lemma asked {A} n (b : ReadonlyIpcBackend) (m : InMemory) msg
  (expect : ContextResponse -> option (result ContextServiceError A)) resp :
  (1 <= n)%nat -> in_step (client b) -> server (client b) = mkRepository (Some m) false ->
  (process_context_request msg (mkRepository (Some m) false)).1 = Answer resp ->
  exists w', ask n msg expect (client b) =
      (default (Err (CSUnexpectedMessage (response_name resp))) (expect resp), w') /\
    in_step w' /\ server w' = server (client b).
Proof. intros Hn Hw Hs Hm. apply ask_in_step; [done..|]. by rewrite Hs. Qed.

Lemma get_hash_asks n (b : ReadonlyIpcBackend) (m : InMemory) id :
  (1 <= n)%nat -> in_step (client b) -> server (client b) = mkRepository (Some m) false ->
  1 <= id < 2 ^ 63 -> reads (backend_get_hash n id) b (ipc_access (Mem.get_hash id m)).
Proof.
  intros Hn Hw Hs Hid.
  destruct (asked n b m (GetHash id) (fun m => match m with
    | GetContextHashResponse r => Some (context_result ContextError.GetContextHashError r) | _ => None end) _
    Hn Hw Hs eq_refl) as (w' & Hask & Hw' & Hs').
  exists (set_client b w'). split; [|by ssplit]. unfold backend_get_hash. rewrite (dispatch_there _ _ _ _ _ _ Hid Hask).
  cbn. by destruct (Mem.get_hash id m).
Qed.

(** (C17) A readonly backend in step with a writer that has a repository answers for
    the writer's ids and for context hashes what that repository answers, with
    every error turned into one of access, and changes nothing on either side. *)
Theorem readonly_reads_writer (n : nat) (b : ReadonlyIpcBackend) (m : InMemory) (id : HashId)
  (context_hash : bytes) :
  (1 <= n)%nat -> in_step (client b) -> server (client b) = mkRepository (Some m) false ->
  1 <= id < 2 ^ 63 ->
  reads (backend_get_value n id) b (ipc_access (Mem.get_value id m)) /\
  reads (backend_get_hash n id) b (ipc_access (Mem.get_hash id m)) /\
  reads (backend_contains n id) b (ipc_access (Mem.contains id m)) /\
  reads (backend_get_context_hash n context_hash) b (Ok (Mem.get_context_hash context_hash m)).
Proof.
  intros Hn Hw Hs Hid.
  ssplit.
  - destruct (asked n b m (GetValue id) (fun m => match m with
      | GetValueResponse r => Some (context_result ContextError.GetValueError r) | _ => None end) _ Hn Hw Hs eq_refl)
      as (w' & Hask & Hw' & Hs').
    exists (set_client b w'). split; [|by ssplit]. unfold backend_get_value. rewrite (dispatch_there _ _ _ _ _ _ Hid Hask).
    cbn. by destruct (Mem.get_value id m).
  - by apply get_hash_asks.
  - destruct (asked n b m (ContainsEntry id) (fun m => match m with
      | ContainsEntryResponse r => Some (context_result ContextError.ContainsEntryError r) | _ => None end) _ Hn Hw Hs eq_refl)
      as (w' & Hask & Hw' & Hs').
    exists (set_client b w'). split; [|by ssplit]. unfold backend_contains. rewrite (dispatch_there _ _ _ _ _ _ Hid Hask).
    cbn. by destruct (Mem.contains id m).
  - destruct (asked n b m (GetContextHashId context_hash) (fun m => match m with
      | GetContextHashIdResponse r => Some (context_result ContextError.GetContextHashIdError r) | _ => None end) _ Hn Hw Hs eq_refl)
      as (w' & Hask & Hw' & Hs').
    exists (set_client b w'). split; [|by ssplit]. unfold backend_get_context_hash, Client_get_context_hash_id. by rewrite Hask.
Qed.

(** Without a repository, [contains] is told by an unexpected message; the others
    get the reason. *)
Lemma contains_no_index n (b : ReadonlyIpcBackend) id :
  (1 <= n)%nat -> in_step (client b) -> server (client b) = mkRepository None false ->
  (Client_contains_entry n id (client b)).1 = Err (CSUnexpectedMessage "GetValueResponse") /\
  (Client_get_value n id (client b)).1 = Err (CSContextError (ContextError.GetValueError unavailable)).
Proof.
  intros Hn Hw Hs. split.
  - destruct (ask_in_step n (ContainsEntry id) (fun m => match m with
      | ContainsEntryResponse r => Some (context_result ContextError.ContainsEntryError r)
      | _ => None end) (client b) (GetValueResponse (Err unavailable)) Hw Hn) as (w' & Hask & _);
      [by rewrite Hs|]. unfold Client_contains_entry. by rewrite Hask.
  - destruct (ask_in_step n (GetValue id) (fun m => match m with
      | GetValueResponse r => Some (context_result ContextError.GetValueError r)
      | _ => None end) (client b) (GetValueResponse (Err unavailable)) Hw Hn) as (w' & Hask & _);
      [by rewrite Hs|]. unfold Client_get_value. by rewrite Hask.
Qed.

Lemma set_readonly_add id : 1 <= id < 2 ^ 63 -> set_readonly_runner id = id + 2 ^ 63.
Proof.
  intros Hid. unfold set_readonly_runner. pose proof (proj1 (readonly_bit id Hid)) as Hl.
  rewrite <- Z.lxor_lor by done. rewrite <- Z.add_nocarry_lxor by done. done.
Qed.

Lemma hash_id_index_pos id : 1 <= id -> hash_id_index id = Ok (id - 1).
Proof.
  intros Hid. unfold hash_id_index, checked_sub. by rewrite (proj2 (Z.leb_le _ _)) by lia.
Qed.

Lemma own_get_hash n id b : 1 <= id < 2 ^ 63 ->
  backend_get_hash n (set_readonly_runner id) b = (Ok (hashes (own b) !! Z.to_nat (id - 1)), b).
Proof.
  intros Hid. unfold backend_get_hash, dispatch. rewrite own_id by done.
  unfold Hvs.get_hash, Entries.get. by rewrite hash_id_index_pos by lia.
Qed.

Lemma own_get_value n id b : 1 <= id < 2 ^ 63 ->
  backend_get_value n (set_readonly_runner id) b =
    (Ok (match values (own b) !! Z.to_nat (id - 1) with Some v => v | None => None end), b).
Proof.
  intros Hid. unfold backend_get_value, dispatch. rewrite own_id by done.
  unfold Hvs.get_value, Entries.get. by rewrite hash_id_index_pos by lia.
Qed.

(** A store without free ids hands out the next position. *)
Definition own_ok (b : ReadonlyIpcBackend) : Prop :=
  free_ids (own b) = None /\ values (own b) = [] /\ zlen (hashes (own b)) < 2 ^ 63 - 1.

Lemma own_vacant (b : ReadonlyIpcBackend) : own_ok b ->
  let k := zlen (hashes (own b)) in
  backend_get_vacant_entry_hash b = Ok (mkVacant (k + 1) (set_readonly_runner (k + 1)),
    mkBackend (client b) (mkHvs (hashes (own b) ++ [default_hash_bytes]) [] None (new_ids (own b) ++ [k + 1]))).
Proof.
  intros (Hfree & Hval & Hlen) k. assert (Hk : 0 <= k) by (unfold k; apply zlen_nonneg).
  unfold backend_get_vacant_entry_hash, Hvs.get_vacant_entry_hash, Hvs.get_free_id. rewrite Hfree.
  unfold Entries.get_vacant_entry, index_hash_id, checked_add, usize_max. fold k in Hlen |- *.
  rewrite (proj2 (Z.leb_le _ _)) by lia. cbn. by rewrite Hval, Hfree.
Qed.

(** The hashes a readonly runner makes stay with it: a new id is none of the
    writer's, the hash written through it is the one read back, without a message
    to the writer, and the ids made before keep theirs. *)
Theorem readonly_keeps_own (n : nat) (b : ReadonlyIpcBackend) (hash : EntryHash) :
  own_ok b ->
  exists v b1, backend_get_vacant_entry_hash b = Ok (v, b1) /\
    let (id, b2) := backend_write_with v hash b1 in
    2 ^ 63 <= id /\ backend_get_hash n id b2 = (Ok (Some hash), b2) /\
    backend_get_value n id b2 = (Ok None, b2) /\ client b2 = client b /\
    forall i h, hashes (own b) !! i = Some h ->
      backend_get_hash n (set_readonly_runner (Z.of_nat i + 1)) b2 = (Ok (Some h), b2).
Proof.
  intros Hok. pose proof (own_vacant b Hok) as Hv. cbv zeta in Hv. destruct Hok as (Hfree & Hval & Hlen).
  set (k := zlen (hashes (own b))) in *.
  assert (Hk : 0 <= k) by (unfold k; apply zlen_nonneg).
  assert (Hlast : Z.to_nat (k + 1 - 1) = length (hashes (own b))) by (unfold k, zlen; lia).
  eexists _, _. split; [exact Hv|]. cbn [backend_write_with entry vacant_id client own]. ssplit.
  - rewrite set_readonly_add by lia. lia.
  - rewrite own_get_hash by lia. cbn [own Hvs.write_with hashes]. rewrite Hlast.
    rewrite list_lookup_insert_eq; [done|]. rewrite length_app. simpl. lia.
  - rewrite own_get_value by lia. cbn [own Hvs.write_with values]. done.
  - done.
  - intros i h Hi. pose proof (lookup_lt_Some _ _ _ Hi) as Hlt.
    assert (Z.of_nat i < k) by (unfold k, zlen; lia).
    rewrite own_get_hash by lia. cbn [own Hvs.write_with hashes]. rewrite Hlast.
    replace (Z.to_nat (Z.of_nat i + 1 - 1)) with i by lia.
    rewrite list_lookup_insert_ne by lia. rewrite lookup_app_l by done. by rewrite Hi.
Qed.
End Service.

(** ** Examples *)
Section Example_.
#[local] Existing Instance reference_ipc.
#[local] Existing Instance reference_default_hasher.

(** A writer's repository with one entry, and a reader connected to it. *)
Definition writer_repository : InMemory :=
  mkInMemory ∅ (mkHvs [[7]] [Some [1; 2]] None []) None ∅ [].
Definition demo_backend : ReadonlyIpcBackend :=
  mkBackend (first_world (mkRepository (Some writer_repository) false)) (Hvs.new None).

Lemma readonly_reads_writer_witness :
  (backend_get_value (fun _ => "error") 1 1 demo_backend).1 = Ok (Some [1; 2]) /\
  (backend_get_hash (fun _ => "error") 1 1 demo_backend).1 = Ok (Some [7]).
Proof.
  destruct (readonly_reads_writer (fun _ => "error") 1 demo_backend writer_repository 1 []
    ltac:(lia) (first_world_in_step _) eq_refl ltac:(lia)) as ((b1 & -> & _) & (b2 & -> & _) & _).
  by split.
Defined.

Lemma readonly_keeps_own_witness :
  own_ok demo_backend /\
  exists v b1, backend_get_vacant_entry_hash demo_backend = Ok (v, b1) /\
    backend_get_hash (fun _ => "error") 0 (vacant_id v) (backend_write_with v [9] b1).2 =
      (Ok (Some [9]), (backend_write_with v [9] b1).2).
Proof.
  assert (Hok : own_ok demo_backend) by (split; [done|split; [done|vm_compute; done]]).
  split; [exact Hok|].
  destruct (readonly_keeps_own (fun _ => "error") 0 demo_backend [9] Hok) as (v & b1 & Hv & Hw).
  exists v, b1. split; [exact Hv|]. exact (proj1 (proj2 Hw)).
Defined.
End Example_.
