(* ===== verification/KeyValueStore.v ===== *)
(** * The interface of repositories
    ([new_context/src/persistent/mod.rs], [lib.rs], [gc/mod.rs], [kv_store/mod.rs])

    What a context asks of the repository behind it, as the class
    [ContextKeyValueStore]; [InMemory], the readonly backend and the choice between
    them that an index is initialised with are its instances.  [StoreLaws] is what
    the instances promise about hashes, in terms of the partial map a repository
    stands for; [store_all_reads] is proved against it once and holds of each.
    Storing in memory panics when a freed id has no slot ([store_all_panics]). *)

From Stdlib Require Import ZArith Lia List Bool Ascii String.
From stdpp Require Import base option list numbers strings gmap.
From S2P Require Import Prelude Spsc CryptoHash ContextStore ContextGc ContextHash WorkingTree ApiTypes Environment Rpc ProtocolService ReadonlyIpc.

Set Warnings "-register-all".
Local Open Scope Z_scope.

(** ** The traits

    [KeyValueStoreBackend], [GarbageCollector], [Flushable] and [Persistable]
    together.  Reading may go over a channel, so it gives a state back. *)
Class ContextKeyValueStore (S : Type) : Type := {
  kv_write_batch : list (HashId * bytes) -> S -> result DBError S;
  kv_contains : HashId -> S -> result DBError bool * S;
  kv_put_context_hash : HashId -> S -> result DBError S;
  kv_get_context_hash : bytes -> S -> result DBError (option HashId) * S;
  kv_get_hash : HashId -> S -> result DBError (option EntryHash) * S;
  kv_get_value : HashId -> S -> result DBError (option bytes) * S;
  kv_get_vacant_entry_hash : S -> result DBError (VacantEntryHash * S);
  kv_write_with : VacantEntryHash -> EntryHash -> S -> HashId * S;
  kv_clear_entries : S -> result DBError S;
  kv_new_cycle_started : S -> S;
  kv_block_applied : list HashId -> S -> S;
  kv_flush : S -> result DBError unit;
  kv_is_persistent : S -> bool;
}.

(** [impl GarbageCollector for T: NotGarbageCollected]. *)
Definition not_collected_cycle {S} (s : S) : S := s.
Definition not_collected_block {S} (ids : list HashId) (s : S) : S := s.

(** [InMemory] reads from itself. *)
#[export] Instance in_memory_store `{DefaultHasher} : ContextKeyValueStore InMemory := {|
  kv_write_batch := Mem.write_batch;
  kv_contains id m := (Mem.contains id m, m);
  kv_put_context_hash := Mem.put_context_hash;
  kv_get_context_hash h m := (Ok (Mem.get_context_hash h m), m);
  kv_get_hash id m := (Mem.get_hash id m, m);
  kv_get_value id m := (Mem.get_value id m, m);
  kv_get_vacant_entry_hash m := '(id, m) ← Mem.get_vacant_entry_hash m; Ok (mkVacant id id, m);
  kv_write_with v h m := (vacant_id v, Mem.write_with (entry v) h m);
  kv_clear_entries m := Ok m;
  kv_new_cycle_started := Mem.new_cycle_started;
  kv_block_applied := Mem.block_applied;
  kv_flush _ := Ok tt;
  kv_is_persistent _ := false;
|}.

(** [SupportedContextKeyValueStore::from_str]. *)
Inductive SupportedContextKeyValueStore : Type := SupportedInMem.
Definition supported_iter : list SupportedContextKeyValueStore := [SupportedInMem].
Definition supported_values (s : SupportedContextKeyValueStore) : list string :=
  match s with SupportedInMem => ["inmem"%string] end.
Definition possible_values : list string := concat (map supported_values supported_iter).
Definition store_from_str (s : string) : result string SupportedContextKeyValueStore :=
  let s := to_ascii_lowercase s in
  ok_or (List.find (fun sp => bool_decide (s ∈ supported_values sp)) supported_iter)
    ("Invalid variant name: " ++ s)%string.

Section Readonly.
Context `{IpcCrate, DefaultHasher} (debug_db_error : DBError -> string).
(** The rounds the writer's loop is given to answer. *)
Context (n : nat).

Abbreviation Backend := ReadonlyIpcBackend.

#[export] Instance readonly_store : ContextKeyValueStore Backend := {|
  kv_write_batch := backend_write_batch;
  kv_contains := backend_contains debug_db_error n;
  kv_put_context_hash := backend_put_context_hash;
  kv_get_context_hash := backend_get_context_hash debug_db_error n;
  kv_get_hash := backend_get_hash debug_db_error n;
  kv_get_value := backend_get_value debug_db_error n;
  kv_get_vacant_entry_hash := backend_get_vacant_entry_hash;
  kv_write_with := backend_write_with;
  kv_clear_entries := backend_clear_entries;
  kv_new_cycle_started := not_collected_cycle;
  kv_block_applied := not_collected_block;
  kv_flush _ := Ok tt;
  kv_is_persistent _ := false;
|}.

(** The trait object behind an index. *)
Definition on_repository {A} (f : InMemory -> result DBError A * InMemory) (g : Backend -> result DBError A * Backend)
  (r : Repository) : result DBError A * Repository :=
  match r with
  | RInMemory m => let (a, m) := f m in (a, RInMemory m)
  | RReadonlyIpc b => let (a, b) := g b in (a, RReadonlyIpc b)
  end.
Definition change_repository (f : InMemory -> result DBError InMemory) (g : Backend -> result DBError Backend)
  (r : Repository) : result DBError Repository :=
  match r with
  | RInMemory m => RInMemory <$> f m
  | RReadonlyIpc b => RReadonlyIpc <$> g b
  end.

#[export] Instance repository_store : ContextKeyValueStore Repository := {|
  kv_write_batch l := change_repository (kv_write_batch l) (kv_write_batch l);
  kv_contains id := on_repository (kv_contains id) (kv_contains id);
  kv_put_context_hash id := change_repository (kv_put_context_hash id) (kv_put_context_hash id);
  kv_get_context_hash h := on_repository (kv_get_context_hash h) (kv_get_context_hash h);
  kv_get_hash id := on_repository (kv_get_hash id) (kv_get_hash id);
  kv_get_value id := on_repository (kv_get_value id) (kv_get_value id);
  kv_get_vacant_entry_hash r :=
    match r with
    | RInMemory m => '(v, m) ← kv_get_vacant_entry_hash m; Ok (v, RInMemory m)
    | RReadonlyIpc b => '(v, b) ← kv_get_vacant_entry_hash b; Ok (v, RReadonlyIpc b)
    end;
  kv_write_with v h r :=
    match r with
    | RInMemory m => let (id, m) := kv_write_with v h m in (id, RInMemory m)
    | RReadonlyIpc b => let (id, b) := kv_write_with v h b in (id, RReadonlyIpc b)
    end;
  kv_clear_entries := change_repository kv_clear_entries kv_clear_entries;
  kv_new_cycle_started r :=
    match r with
    | RInMemory m => RInMemory (kv_new_cycle_started m)
    | RReadonlyIpc b => RReadonlyIpc (kv_new_cycle_started b)
    end;
  kv_block_applied ids r :=
    match r with
    | RInMemory m => RInMemory (kv_block_applied ids m)
    | RReadonlyIpc b => RReadonlyIpc (kv_block_applied ids b)
    end;
  kv_flush r := match r with RInMemory m => kv_flush m | RReadonlyIpc b => kv_flush b end;
  kv_is_persistent r :=
    match r with RInMemory m => kv_is_persistent m | RReadonlyIpc b => kv_is_persistent b end;
|}.
End Readonly.

(** ** What an instance promises about hashes *)
Class StoreLaws (S : Type) `{ContextKeyValueStore S} : Type := {
  (** States with room for so many more hashes, and the ids that can be read. *)
  kv_ok : nat -> S -> Prop;
  kv_id : HashId -> Prop;
  kv_view : S -> HashId -> option EntryHash;
  kv_get_hash_view k s id : kv_ok k s -> kv_id id ->
    exists s', kv_get_hash id s = (Ok (kv_view s id), s') /\ kv_ok k s' /\ kv_view s' = kv_view s;
  kv_stores k s hash : kv_ok (Datatypes.S k) s ->
    exists v s1 id s2, kv_get_vacant_entry_hash s = Ok (v, s1) /\ kv_write_with v hash s1 = (id, s2) /\
      kv_ok k s2 /\ kv_id id /\ kv_view s2 id = Some hash /\
      forall id', id' <> id -> kv_view s2 id' = kv_view s id';
}.

Section Client.
Context {St : Type} `{!ContextKeyValueStore St, !StoreLaws St}.

(** How hashing puts the hashes of new entries into the repository, one by one. *)
Fixpoint store_all (hs : list EntryHash) (s : St) : result DBError (list HashId * St) :=
  match hs with
  | [] => Ok ([], s)
  | h :: hs =>
      '(v, s) ← kv_get_vacant_entry_hash s;
      let (id, s) := kv_write_with v h s in
      '(ids, s) ← store_all hs s;
      Ok (id :: ids, s)
  end.

(** Storing succeeds as long as there is room; afterwards every id reads as the hash
    it was last given for, and all other ids read as before. *)
Lemma store_all_reads hs : forall s k, kv_ok (length hs + k) s ->
  exists ids s', store_all hs s = Ok (ids, s') /\ length ids = length hs /\ kv_ok k s' /\
    Forall kv_id ids /\
    (forall i id h, ids !! i = Some id -> hs !! i = Some h -> id ∉ drop (Datatypes.S i) ids ->
       kv_view s' id = Some h) /\
    (forall id, id ∉ ids -> kv_view s' id = kv_view s id).
Proof.
  induction hs as [|h hs IH]; intros s k Hs; [by exists [], s|]. cbn [length Nat.add] in Hs.
  destruct (kv_stores _ s h Hs) as (v & s1 & id & s2 & E1 & E2 & Hs2 & Hid & Hv & Ho).
  destruct (IH s2 k Hs2) as (ids & s' & E3 & Hl & Hs' & Hids & Hr & Hk).
  exists (id :: ids), s'. cbn [store_all]. rewrite E1. cbn [mbind result_bind]. rewrite E2, E3.
  split; [done|]. split; [cbn; lia|]. split; [done|]. split; [by constructor|]. split.
  - intros [|i] id' h' Hi Hh Hd; cbn in *; simplify_eq; [|by eapply Hr]. rewrite Hk; [done|]. by rewrite drop_0 in Hd.
  - intros id' Hn. apply not_elem_of_cons in Hn as [Hne Hn]. by rewrite Hk, Ho.
Qed.
End Client.

(** ** [InMemory] *)
Section InMemory.
Context `{DefaultHasher}.

Definition position (id : HashId) (l : list EntryHash) : option EntryHash :=
  if 1 <=? id then l !! Z.to_nat (id - 1) else None.

Lemma position_insert id id' h l : 1 <= id <= zlen l ->
  position id' (<[Z.to_nat (id - 1) := h]> l) = if decide (id' = id) then Some h else position id' l.
Proof.
  intros Hid. unfold position. destruct (decide (id' = id)) as [->|Hne].
  - rewrite (proj2 (Z.leb_le _ _)) by lia. apply list_lookup_insert_eq. unfold zlen in Hid. lia.
  - destruct (Z.leb_spec 1 id'); [|done]. apply list_lookup_insert_ne. lia.
Qed.

Lemma position_app id l k : id <= zlen l -> position id (l ++ k) = position id l.
Proof.
  intros Hid. unfold position. destruct (Z.leb_spec 1 id); [|done]. apply lookup_app_l. unfold zlen in *. lia.
Qed.

(** Ids of a repository: those of the writer, and from [2 ^ 63] on those of a reader. *)
Definition store_id (id : HashId) : Prop := valid_id id /\ id <> 2 ^ 63.

(** The ids that the collector gave back and that were not used again yet. *)
Definition freed (m : InMemory) : list HashId :=
  match free_ids (store m) with Some q => f_items q | None => [] end.

(** Room for [k] more hashes; freed ids are ids that were given out. *)
Definition memory_room (k : nat) (m : InMemory) : Prop :=
  zlen (hashes (store m)) + Z.of_nat k < 2 ^ 63 /\
  Forall (fun id => 1 <= id <= zlen (hashes (store m))) (freed m).

(** The next [k] freed ids have a slot in the vector of values, which only grows
    when a value is written. *)
Definition freed_have_slots (k : nat) (m : InMemory) : bool :=
  forallb (fun id => id <=? zlen (values (store m))) (take k (freed m)).

Definition memory_ok (k : nat) (m : InMemory) : Prop :=
  memory_room k m /\ freed_have_slots k m = true.

Definition memory_view (m : InMemory) (id : HashId) : option EntryHash := position id (hashes (store m)).

(** Without a freed id, the new one is the next position ... *)
Lemma vacant_fresh k m : memory_room (S k) m -> freed m = [] ->
  exists id m1, Mem.get_vacant_entry_hash m = Ok (id, m1) /\ memory_room k m1 /\ freed m1 = [] /\
    1 <= id <= zlen (hashes (store m1)) /\
    (forall id', id' <> id -> memory_view m1 id' = memory_view m id').
Proof.
  destruct m as [cc [hs vs fr ni] se ch cy]. unfold memory_room, memory_view, freed.
  cbn [store hashes values free_ids]. intros [Hroom Hfree] Hnil. pose proof (zlen_nonneg hs).
  assert (E : Mem.get_vacant_entry_hash (mkInMemory cc (mkHvs hs vs fr ni) se ch cy) =
    Ok (zlen hs + 1, mkInMemory cc (mkHvs (hs ++ [default_hash_bytes]) vs fr (ni ++ [zlen hs + 1])) se ch cy)).
  { unfold Mem.get_vacant_entry_hash, Hvs.get_vacant_entry_hash, Hvs.get_free_id.
    unfold Entries.get_vacant_entry, index_hash_id, checked_add.
    destruct fr as [[cap items closed]|]; cbn in Hnil |- *; try rewrite Hnil; cbn;
      by rewrite (proj2 (Z.leb_le _ _)) by (unfold usize_max; lia). }
  revert E. generalize default_hash_bytes as d. intros d E.
  eexists _, _. split; [exact E|]. cbn. rewrite zlen_app. change (zlen [d]) with 1.
  split; [split; [lia|by rewrite Hnil]|]. split; [done|]. split; [lia|]. intros id' Hne.
  destruct (Z.le_gt_cases id' (zlen hs)) as [|Hgt]; [by apply position_app|].
  unfold position. destruct (Z.leb_spec 1 id'); [|done].
  rewrite !lookup_ge_None_2; [done|..]; rewrite ?length_app; cbn; unfold zlen in *; lia.
Qed.

(** ... a freed id that has a slot is used again ... *)
Lemma vacant_reused k m x items : memory_room (S k) m -> freed m = x :: items ->
  x <= zlen (values (store m)) ->
  exists m1, Mem.get_vacant_entry_hash m = Ok (x, m1) /\ memory_room k m1 /\ freed m1 = items /\
    zlen (values (store m1)) = zlen (values (store m)) /\ hashes (store m1) = hashes (store m).
Proof.
  destruct m as [cc [hs vs fr ni] se ch cy]. unfold memory_room, freed. cbn [store hashes values free_ids].
  intros [Hroom Hfree] Hx Hle. destruct fr as [[cap its closed]|]; cbn in Hx, Hfree; [|done]. subst its.
  apply Forall_cons in Hfree as [Hb Hfree].
  unfold Mem.get_vacant_entry_hash, Hvs.get_vacant_entry_hash, Hvs.get_free_id.
  cbn [store free_ids fifo_step f_items f_cap f_closed hashes values new_ids].
  unfold Entries.set, Entries.get. rewrite !hash_id_index_pos by lia.
  cbn [mbind result_bind]. rewrite (proj2 (Z.ltb_lt _ _)) by lia. cbn [mbind result_bind].
  destruct (lookup_lt_is_Some_2 hs (Z.to_nat (x - 1))) as [h0 Hh0]; [unfold zlen in *; lia|].
  rewrite Hh0. cbn. eexists. split; [reflexivity|]. cbn.
  split; [split; [lia|done]|]. split; [done|]. split; [unfold zlen; by rewrite length_insert|done].
Qed.

(** ... and one that has none panics. *)
Lemma vacant_panics m x items : freed m = x :: items -> 1 <= x -> zlen (values (store m)) < x ->
  Mem.get_vacant_entry_hash m = Err DBPanic.
Proof.
  destruct m as [cc [hs vs fr ni] se ch cy]. unfold freed. cbn [store free_ids values].
  intros Hx H1 Hlt. destruct fr as [[cap its closed]|]; cbn in Hx; [|done]. subst its.
  unfold Mem.get_vacant_entry_hash, Hvs.get_vacant_entry_hash, Hvs.get_free_id.
  cbn [store free_ids fifo_step f_items f_cap f_closed hashes values new_ids].
  unfold Entries.set. rewrite !hash_id_index_pos by lia.
  cbn [mbind result_bind]. by rewrite (proj2 (Z.ltb_ge _ _)) by lia.
Qed.

Lemma memory_vacant k m : memory_ok (S k) m ->
  exists id m1, Mem.get_vacant_entry_hash m = Ok (id, m1) /\ memory_ok k m1 /\
    1 <= id <= zlen (hashes (store m1)) /\
    (forall id', id' <> id -> memory_view m1 id' = memory_view m id').
Proof.
  intros [Hm Hs]. unfold memory_ok, freed_have_slots in *. destruct (freed m) as [|x items] eqn:Hf.
  - destruct (vacant_fresh k m Hm Hf) as (id & m1 & E & Hm1 & Hf1 & Hid & Hv).
    exists id, m1. rewrite Hf1, take_nil. done.
  - cbn [take forallb] in Hs. apply andb_true_iff in Hs as [Hx%Z.leb_le Hs].
    destruct (vacant_reused k m x items Hm Hf Hx) as (m1 & E & Hm1 & Hf1 & Hvs & Hh).
    exists x, m1. rewrite Hf1, Hvs, Hh. destruct Hm as [_ Hfree]. rewrite Hf in Hfree.
    apply Forall_cons in Hfree as [Hb _]. unfold memory_view. by rewrite Hh.
Qed.

Lemma memory_write_ok k m id hash : memory_ok k m -> memory_ok k (Mem.write_with id hash m).
Proof.
  unfold memory_ok, memory_room, freed_have_slots, freed. cbn.
  unfold zlen. by rewrite length_insert.
Qed.

#[export] Program Instance in_memory_laws : StoreLaws InMemory := {|
  kv_ok := memory_ok; kv_id := store_id; kv_view := memory_view |}.
Next Obligation.
  intros k m id Hm [Hid _]. exists m. split; [|done]. unfold valid_id in Hid. cbn.
  unfold Mem.get_hash, Hvs.get_hash, Entries.get, memory_view, position.
  rewrite hash_id_index_pos by lia. cbn. by rewrite (proj2 (Z.leb_le _ _)) by lia.
Qed.
Next Obligation.
  intros k m hash Hm. destruct (memory_vacant k m Hm) as (id & m1 & E & Hm1 & Hid & Hv).
  exists (mkVacant id id), m1, id, (Mem.write_with id hash m1). cbn. rewrite E.
  split; [done|]. split; [done|]. split; [by apply memory_write_ok|]. destruct Hm1 as [[Hroom _] _].
  split; [unfold store_id, valid_id, usize_max; lia|]. unfold memory_view. cbn. split.
  - rewrite position_insert by done. by rewrite decide_True.
  - intros id' Hne. rewrite position_insert by done. rewrite decide_False by done. by apply Hv.
Qed.
End InMemory.

(** ** The readonly backend *)
Section ReadonlyLaws.
Context `{IpcCrate, DefaultHasher} (debug_db_error : DBError -> string) (n : nat) (Hn : (1 <= n)%nat).

(** In step with a writer that has a repository. *)
Definition readonly_ok (k : nat) (b : ReadonlyIpcBackend) : Prop :=
  in_step (client b) /\ (exists m, server (client b) = mkRepository (Some m) false) /\
  free_ids (own b) = None /\ values (own b) = [] /\ zlen (hashes (own b)) + Z.of_nat k < 2 ^ 63.

Definition readonly_view (b : ReadonlyIpcBackend) (id : HashId) : option EntryHash :=
  if 2 ^ 63 <? id then position (id - 2 ^ 63) (hashes (own b))
  else match get_context_index (server (client b)) with
       | Ok (Some m) => memory_view m id
       | _ => None
       end.

Lemma own_store_id id : store_id id -> 2 ^ 63 < id ->
  id = set_readonly_runner (id - 2 ^ 63) /\ 1 <= id - 2 ^ 63 < 2 ^ 63.
Proof.
  intros [[Hl Hu] Hne] Hid. assert (1 <= id - 2 ^ 63 < 2 ^ 63) by (unfold usize_max in Hu; lia).
  split; [|done]. rewrite set_readonly_add by done. lia.
Qed.

Lemma readonly_view_reads k b id : readonly_ok k b -> store_id id ->
  exists b', backend_get_hash debug_db_error n id b = (Ok (readonly_view b id), b') /\
    readonly_ok k b' /\ readonly_view b' = readonly_view b.
Proof.
  intros Hb Hid. pose proof Hb as (Hw & (m & Hs) & Hf & Hv & Hroom). unfold readonly_view at 1.
  destruct (Z.ltb_spec (2 ^ 63) id) as [Hlt|Hge].
  - destruct (own_store_id id Hid Hlt) as [E Hr]. exists b. split; [|done].
    rewrite E at 1. rewrite own_get_hash by done. unfold position. by rewrite (proj2 (Z.leb_le _ _)) by lia.
  - destruct Hid as [[Hl Hu] Hne].
    destruct (get_hash_asks debug_db_error n b m id Hn Hw Hs) as (b' & E & Hw' & Hs' & Ho); [lia|].
    exists b'. rewrite E, Hs. cbn [get_context_index]. split.
    { unfold ipc_access, Mem.get_hash, Hvs.get_hash, Entries.get, memory_view, position.
      rewrite hash_id_index_pos by lia. cbn. by rewrite (proj2 (Z.leb_le _ _)) by lia. }
    split; [split; [done|]; rewrite Ho, Hs'; eauto|]. unfold readonly_view. by rewrite Hs', Ho.
Qed.

Lemma readonly_stores k b hash : readonly_ok (S k) b ->
  exists v b1 id b2, backend_get_vacant_entry_hash b = Ok (v, b1) /\ backend_write_with v hash b1 = (id, b2) /\
    readonly_ok k b2 /\ store_id id /\ readonly_view b2 id = Some hash /\
    forall id', id' <> id -> readonly_view b2 id' = readonly_view b id'.
Proof.
  intros (Hw & Hs & Hf & Hv & Hroom). pose proof (zlen_nonneg (hashes (own b))).
  assert (Hok : own_ok b) by (split; [done|]; split; [done|lia]).
  pose proof (own_vacant b Hok) as E. cbv zeta in E. revert E.
  generalize default_hash_bytes as d. intros d E. set (k' := zlen (hashes (own b))) in *.
  eexists _, _, _, _. split; [exact E|]. split; [reflexivity|]. cbn [entry client own].
  rewrite set_readonly_add by lia. unfold readonly_view, readonly_ok, store_id, valid_id, usize_max.
  cbn [vacant_id client own Hvs.write_with hashes values free_ids].
  assert (Hz : zlen (hashes (own b) ++ [d]) = k' + 1) by (rewrite zlen_app; done).
  split. { split; [done|]. split; [done|]. do 2 (split; [done|]). unfold zlen in *. rewrite length_insert. lia. }
  split; [lia|]. split.
  - rewrite (proj2 (Z.ltb_lt _ _)) by lia. replace (k' + 1 + 2 ^ 63 - 2 ^ 63) with (k' + 1) by lia.
    rewrite position_insert by lia. by rewrite decide_True.
  - intros id' Hne. destruct (Z.ltb_spec (2 ^ 63) id'); [|done].
    rewrite position_insert by lia. rewrite decide_False by lia.
    destruct (Z.le_gt_cases (id' - 2 ^ 63) k') as [|Hgt]; [by apply position_app|].
    unfold position. destruct (Z.leb_spec 1 (id' - 2 ^ 63)); [|done].
    rewrite !lookup_ge_None_2; [done|..]; rewrite ?length_app; cbn; unfold k', zlen in *; lia.
Qed.

#[export] Instance readonly_laws : @StoreLaws ReadonlyIpcBackend (readonly_store debug_db_error n) :=
  @Build_StoreLaws _ (readonly_store debug_db_error n) readonly_ok store_id readonly_view
    readonly_view_reads readonly_stores.

(** ** The repository of an index *)
Definition repository_ok (k : nat) (r : Repository) : Prop :=
  match r with RInMemory m => memory_ok k m | RReadonlyIpc b => readonly_ok k b end.
Definition repository_view (r : Repository) : HashId -> option EntryHash :=
  match r with RInMemory m => memory_view m | RReadonlyIpc b => readonly_view b end.

#[export] Program Instance repository_laws : @StoreLaws Repository (repository_store debug_db_error n) := {|
  kv_ok := repository_ok; kv_id := store_id; kv_view := repository_view |}.
Next Obligation.
  intros k [m|b] id Hr Hid; cbn.
  - destruct (@kv_get_hash_view _ _ in_memory_laws k m id Hr Hid) as (m' & E & Hm & Ev). injection E as E <-.
    exists (RInMemory m). split; [by rewrite <- E|done].
  - destruct (readonly_view_reads k b id Hr Hid) as (b' & -> & Hb & Ev). by exists (RReadonlyIpc b').
Qed.
Next Obligation.
  intros k [m|b] hash Hr; cbn.
  - destruct (@kv_stores _ _ in_memory_laws k m hash Hr) as (v & m1 & id & m2 & E1 & E2 & Hm). cbn in E1, E2.
    destruct (Mem.get_vacant_entry_hash m) as [[id1 m1']|]; [|done]. cbn in E1. injection E1 as <- <-.
    injection E2 as <- <-. eexists _, (RInMemory _), _, (RInMemory _). split; [reflexivity|].
    split; [reflexivity|]. exact Hm.
  - destruct (readonly_stores k b hash Hr) as (v & b1 & id & b2 & -> & E2 & Hb).
    injection E2 as <- <-. eexists _, (RReadonlyIpc _), _, (RReadonlyIpc _). split; [reflexivity|].
    split; [reflexivity|]. exact Hb.
Qed.
End ReadonlyLaws.

(** What a repository needs to store [k] hashes: room, and over IPC a working
    connection to a writer that has a repository. *)
Definition repository_room `{IpcCrate, DefaultHasher} (k : nat) (r : Repository) : Prop :=
  match r with RInMemory m => memory_room k m | RReadonlyIpc b => readonly_ok k b end.

Definition repository_has_slots `{IpcCrate, DefaultHasher} (k : nat) (r : Repository) : bool :=
  match r with RInMemory m => freed_have_slots k m | RReadonlyIpc _ => true end.

(** A freed id without a slot for its value stops the storing. *)
Lemma store_all_panics `{IpcCrate, DefaultHasher} (debug_db_error : DBError -> string) (n : nat)
  (hs : list EntryHash) : forall m,
  memory_room (length hs) m -> freed_have_slots (length hs) m = false ->
  store_all (ContextKeyValueStore0 := repository_store debug_db_error n) hs (RInMemory m) = Err DBPanic.
Proof.
  induction hs as [|h hs IH]; intros m Hm Hs; [done|]. cbn [length] in Hm, Hs.
  unfold freed_have_slots in *. destruct (freed m) as [|x items] eqn:Hf; [done|].
  pose proof Hm as [_ Hfree]. rewrite Hf in Hfree. apply Forall_cons in Hfree as [Hx _].
  cbn [take forallb] in Hs. cbn [store_all kv_get_vacant_entry_hash repository_store in_memory_store].
  destruct (Z.leb_spec x (zlen (values (store m)))) as [Hle|Hlt]; cbn in Hs.
  - destruct (vacant_reused _ m x items Hm Hf Hle) as (m1 & -> & Hm1 & Hf1 & Hvs & Hh).
    cbn. rewrite IH; [done| |].
    + unfold memory_room, freed in *. cbn. unfold zlen in *. by rewrite length_insert.
    + unfold freed in *. cbn. by rewrite Hf1, Hvs.
  - by rewrite (vacant_panics m x items Hf) by lia.
Qed.

(** (C19) Whatever repository an index was initialised with, in memory or over IPC:
    when it has room (the ids stay below 2^63, the ids the collector gave back
    are ids it was given, a readonly backend is in step with a writer that has a
    repository), storing hashes one after the other succeeds unless one of the
    freed ids it would use again has no slot in the vector of values; every id
    then reads as the hash it was last given for, and all other ids read as
    before.  If such a freed id comes up, the storing panics. *)
Theorem repository_stores `{IpcCrate, DefaultHasher} (debug_db_error : DBError -> string) (n : nat)
  (hs : list EntryHash) (r : Repository) :
  (1 <= n)%nat -> repository_room (length hs) r ->
  let kv := repository_store debug_db_error n in
  if repository_has_slots (length hs) r
  then exists ids r', store_all hs r = Ok (ids, r') /\ length ids = length hs /\
    (forall i id h, ids !! i = Some id -> hs !! i = Some h -> id ∉ drop (S i) ids ->
       (kv_get_hash id r').1 = Ok (Some h)) /\
    (forall id, store_id id -> id ∉ ids -> (kv_get_hash id r').1 = (kv_get_hash id r).1)
  else store_all hs r = Err DBPanic.
Proof.
  intros Hn Hroom kv. destruct (repository_has_slots (length hs) r) eqn:Hslots.
  2:{ destruct r as [m|b]; [|done]. by apply store_all_panics. }
  assert (Hr : repository_ok (length hs) r) by (destruct r; [by split|done]).
  pose (L := repository_laws debug_db_error n Hn). rewrite <- (Nat.add_0_r (length hs)) in Hr.
  destruct (@store_all_reads _ _ L hs r 0 Hr) as (ids & r' & E & Hl & Hr' & Hids & Hv & Ho).
  exists ids, r'. split; [done|]. split; [done|]. split.
  - intros i id h Hi Hh Hd. destruct (@kv_get_hash_view _ _ L 0 r' id Hr') as (r2 & E2 & _).
    { by eapply Forall_lookup_1. }
    unfold kv. rewrite E2. cbn. f_equal. by eapply Hv.
  - intros id Hid Hn'. destruct (@kv_get_hash_view _ _ L 0 r' id Hr' Hid) as (r2 & E2 & _).
    destruct (@kv_get_hash_view _ _ L _ r id Hr Hid) as (r3 & E3 & _). unfold kv. rewrite E2, E3. cbn. f_equal.
    by apply Ho.
Qed.

Section Example_.
#[local] Existing Instance reference_ipc.
#[local] Existing Instance reference_default_hasher.

(** A repository in memory with an id that the collector has given back. *)
Definition used_memory : InMemory :=
  mkInMemory ∅ (mkHvs [[7]; [8]] [Some [1]; Some [2]] (Some (mkFifo 10 [1] false)) []) (Some []) ∅ [].

Lemma repository_stores_witness :
  (store_all (ContextKeyValueStore0 := repository_store (fun _ => EmptyString) 1) [[5]; [6]] (RInMemory used_memory)) =
    Ok ([1; 3], RInMemory (mkInMemory ∅ (mkHvs [[5]; [8]; [6]] [None; Some [2]] (Some (mkFifo 10 [] false)) [1; 3])
      (Some []) ∅ [])) /\
  exists ids r', store_all (ContextKeyValueStore0 := repository_store (fun _ => EmptyString) 1) [[5]; [6]]
      (RReadonlyIpc demo_backend) = Ok (ids, r') /\ length ids = 2%nat /\
    (forall i id h, ids !! i = Some id -> [[5]; [6]] !! i = Some h -> id ∉ drop (S i) ids ->
       (kv_get_hash (ContextKeyValueStore := repository_store (fun _ => EmptyString) 1) id r').1 = Ok (Some h)) /\
    (forall id, store_id id -> id ∉ ids ->
       (kv_get_hash (ContextKeyValueStore := repository_store (fun _ => EmptyString) 1) id r').1 =
       (kv_get_hash (ContextKeyValueStore := repository_store (fun _ => EmptyString) 1) id (RReadonlyIpc demo_backend)).1).
Proof.
  split; [vm_compute; reflexivity|].
  apply (repository_stores (fun _ => EmptyString) 1 [[5]; [6]] (RReadonlyIpc demo_backend)); [lia|].
  split; [apply first_world_in_step|]. split; [by eexists|]. done.
Defined.
End Example_.
