(* ===== verification/ContextListener.v ===== *)
(** * The listener for readonly contexts
    ([new_context/src/kv_store/readonly_ipc.rs])

    The writing runner accepts connections and starts a thread for each, and all
    threads read the one repository while the writer goes on changing it.  A step
    relation: readers connect, send and receive, threads take one request each, and
    the writer installs new states, in any order.  Whatever the interleaving, a
    reader is answered in the order of its own requests, and each answer was true of
    the repository at some moment; an error or a shutdown ends one thread only. *)

From Stdlib Require Import ZArith Lia List Bool Ascii String.
From stdpp Require Import base option list numbers strings gmap.
From S2P Require Import Prelude Spsc CryptoHash ContextStore ContextGc ContextHash WorkingTree ApiTypes Rpc ProtocolService ReadonlyIpc.

Set Warnings "-register-all".
Local Open Scope list_scope.

Section Listener.
Context `{IpcCrate, DefaultHasher} (debug_db_error : DBError -> string).

Abbreviation Repo := (ContextRepository InMemory).

(** A connection: both channels and the result of its thread, with what went
    through the channels so far. *)
Record Session : Type := mkSession {
  requests : chan ContextRequest;
  responses : chan ContextResponse;
  thread : option (result IpcContextError unit);
  asked : list ContextRequest;
  told : list ContextResponse;
  heard : list ContextResponse;
}.

(** The repository, its earlier states, and the connections. *)
Record Listener : Type := mkListener {
  repository : Repo;
  past : list Repo;
  sessions : list Session;
}.

(** [accept]: a server of its own for each connection. *)
Definition new_session : Session := mkSession (new_chan _) (new_chan _) None [] [] [].

(** One round of the thread of a connection, on the repository as it is now; [told]
    grows by what was put into the channel. *)
Definition serve (r : Repo) (s : Session) : Session :=
  let w := process_context_requests debug_db_error (mkWorld (requests s) (responses s) r (thread s)) in
  mkSession (to_server w) (to_client w) (ended w) (asked s)
    (told s ++ drop (length (queued (responses s))) (queued (to_client w))) (heard s).

(** [handle_incoming_connections]: a connection that fails is reported and skipped,
    every other one gets its thread. *)
Definition handle_connection (connection : result IpcError unit) (l : Listener) : Listener :=
  match connection with
  | Err _ => l
  | Ok _ => mkListener (repository l) (past l) (sessions l ++ [new_session])
  end.

Inductive listener_step : Listener -> Listener -> Prop :=
| step_connect c l : listener_step l (handle_connection c l)
| step_ask i s msg tx l : sessions l !! i = Some s -> ipc_send msg (requests s) = (Ok tt, tx) ->
    listener_step l (mkListener (repository l) (past l)
      (<[i := mkSession tx (responses s) (thread s) (asked s ++ [msg]) (told s) (heard s)]> (sessions l)))
| step_serve i s l : sessions l !! i = Some s ->
    listener_step l (mkListener (repository l) (past l) (<[i := serve (repository l) s]> (sessions l)))
| step_hear i s m rx l : sessions l !! i = Some s -> ipc_receive (responses s) = Some (Ok m, rx) ->
    listener_step l (mkListener (repository l) (past l)
      (<[i := mkSession (requests s) rx (thread s) (asked s) (told s) (heard s ++ [m])]> (sessions l)))
| step_write r l : listener_step l (mkListener r (past l ++ [repository l]) (sessions l)).

(** An answer that was true of the contents of a repository: a value is the one
    in the slot of its id, if there is one, a hash is the one in its slot, an
    entry is there when its slot has a value, and the id of a context is the one
    its hash was registered with.  Without a repository the answer says so (that
    of [ContainsEntry] in the message of [GetValue]); an id that is none (ids
    start at 1) is refused. *)
Definition refused_id (r : Repo) (id : HashId) (reason : string) : Prop :=
  is_Some (ProtocolService.repository r) /\ id < 1 /\
  reason = ("Context error: " ++ debug_db_error DBHashIdFailed)%string.

Definition no_index (r : Repo) (reason : string) : Prop :=
  ProtocolService.repository r = None /\ reason = "Context index unavailable"%string.

Definition true_of (r : Repo) (qa : ContextRequest * ContextResponse) : Prop :=
  match qa with
  | (GetValue id, GetValueResponse (Ok value)) =>
      exists m, ProtocolService.repository r = Some m /\ 1 <= id /\
        forall v, value = Some v <-> values (store m) !! Z.to_nat (id - 1) = Some (Some v)
  | (GetValue id, GetValueResponse (Err e)) => refused_id r id e \/ no_index r e
  | (ContainsEntry id, ContainsEntryResponse (Ok found)) =>
      exists m, ProtocolService.repository r = Some m /\ 1 <= id /\
        (found = true <-> exists v, values (store m) !! Z.to_nat (id - 1) = Some (Some v))
  | (ContainsEntry id, ContainsEntryResponse (Err e)) => refused_id r id e
  | (ContainsEntry id, GetValueResponse (Err e)) => no_index r e
  | (GetContextHashId context_hash, GetContextHashIdResponse (Ok id)) =>
      exists m, ProtocolService.repository r = Some m /\
        context_hashes m !! default_hash context_hash = id
  | (GetContextHashId _, GetContextHashIdResponse (Err e)) => no_index r e
  | (GetHash id, GetContextHashResponse (Ok hash)) =>
      exists m, ProtocolService.repository r = Some m /\ 1 <= id /\
        hashes (store m) !! Z.to_nat (id - 1) = hash
  | (GetHash id, GetContextHashResponse (Err e)) => refused_id r id e \/ no_index r e
  | (ContextShutdownCall, ContextShutdownResult) => True
  | _ => False
  end.

(** The ids of a request, read off the slots. *)
Lemma slots_get {V} (id : HashId) (l : list V) :
  Entries.get id l = if id <? 1 then Err HashIdFailed else Ok (l !! Z.to_nat (id - 1)).
Proof.
  unfold Entries.get, hash_id_index, checked_sub.
  destruct (Z.leb_spec 1 id), (Z.ltb_spec id 1); try lia; done.
Qed.

(** What the service answers is true of its repository. *)
Lemma answers_true cmd r m :
  (process_context_request debug_db_error cmd r).1 = Answer m \/
  (process_context_request debug_db_error cmd r).1 = Stop m ->
  true_of r (cmd, m).
Proof.
  unfold process_context_request, with_index, get_context_index.
  unfold Mem.get_value, Mem.contains, Mem.get_hash, Mem.get_context_hash.
  unfold Hvs.get_value, Hvs.contains, Hvs.get_hash.
  destruct (lock_poisoned r); [by destruct cmd; intros [|]; simplify_eq/=|].
  destruct (ProtocolService.repository r) as [mem|] eqn:Er.
  - destruct cmd as [h|id|id|id|]; rewrite ?slots_get; intros [|]; simplify_eq/=; try done;
      try (destruct (Z.ltb_spec id 1); simplify_eq/=).
    all: try (left; by split_and!; [rewrite Er; eauto|..]).
    all: try (by split_and!; [rewrite Er; eauto|..]).
    all: exists mem; split_and!; try done.
    + intros v. destruct (values (store mem) !! _) as [[v'|]|]; split; intros; simplify_eq; done.
    + destruct (values (store mem) !! _) as [[v'|]|]; split; try done; eauto; by intros [? ?].
  - destruct cmd as [h|id|id|id|]; intros [|]; simplify_eq/=; try done; try right; by split.
Qed.

(** The answers of a connection, request by request. *)
Definition session_true (rs : list Repo) (s : Session) : Prop :=
  healthy (requests s) /\ healthy (responses s) /\ told s = heard s ++ queued (responses s) /\
  exists qa rest, asked s = map fst qa ++ rest /\ told s = map snd qa /\
    (thread s = None -> rest = queued (requests s)) /\
    Forall (fun x => exists r, r ∈ rs /\ true_of r x) qa.

Lemma session_more rs rs' s : (forall r, r ∈ rs -> r ∈ rs') -> session_true rs s -> session_true rs' s.
Proof.
  intros Hin (H1 & H2 & H3 & qa & rest & H4 & H5 & H6 & H7). split; [done|]. split; [done|]. split; [done|].
  exists qa, rest. do 3 (split; [done|]). eapply Forall_impl; [exact H7|]. intros x (r & Hr & Hx). eauto.
Qed.

Lemma new_session_ok rs : session_true rs new_session.
Proof.
  destruct (new_chan_healthy ContextRequest) as [H1 Q1]. destruct (new_chan_healthy ContextResponse) as [H2 Q2].
  split; [done|]. split; [done|]. split; [cbn; by rewrite Q2|]. exists [], []. cbn. by rewrite Q1.
Qed.

Lemma session_asks rs s msg tx : session_true rs s -> ipc_send msg (requests s) = (Ok tt, tx) ->
  session_true rs (mkSession tx (responses s) (thread s) (asked s ++ [msg]) (told s) (heard s)).
Proof.
  intros (H1 & H2 & H3 & qa & rest & H4 & H5 & H6 & H7) E.
  destruct (send_healthy _ msg (requests s) H1) as (tx' & E' & Q & Hh). rewrite E in E'. injection E' as <-.
  split; [done|]. split; [done|]. split; [done|]. exists qa, (rest ++ [msg]). cbn.
  split; [by rewrite H4, app_assoc|]. split; [done|]. split; [intros Ht; by rewrite Q, H6|done].
Qed.

Lemma session_hears rs s m rx : session_true rs s -> ipc_receive (responses s) = Some (Ok m, rx) ->
  session_true rs (mkSession (requests s) rx (thread s) (asked s) (told s) (heard s ++ [m])).
Proof.
  intros (H1 & H2 & H3 & H4) E. pose proof (receive_healthy _ (responses s) H2) as Hr.
  destruct (queued (responses s)) as [|m' l] eqn:Q; [by rewrite E in Hr|].
  destruct Hr as (rx' & E' & Q' & Hh). rewrite E in E'. injection E' as <- <-.
  split; [done|]. split; [done|]. split; [cbn; by rewrite Q', H3, <- app_assoc|]. done.
Qed.

Lemma drop_own (l k : list ContextResponse) : drop (length l) (l ++ k) = k.
Proof. by rewrite drop_app_length. Qed.

(** What a thread answers is true of the repository it reads. *)
Lemma session_serves rs r s : r ∈ rs -> session_true rs s -> session_true rs (serve r s).
Proof.
  intros Hr Hs. pose proof Hs as (H1 & H2 & H3 & qa & rest & H4 & H5 & H6 & H7).
  assert (Hsame : session_true rs (mkSession (requests s) (responses s) (thread s) (asked s)
    (told s ++ drop (length (queued (responses s))) (queued (responses s))) (heard s))).
  { rewrite drop_all, app_nil_r. by destruct s. }
  unfold serve, process_context_requests, round. cbn [ended to_server to_client server].
  destruct (thread s) as [res|] eqn:Et; [exact Hsame|].
  pose proof (receive_healthy _ (requests s) H1) as Hrec.
  destruct (queued (requests s)) as [|cmd l] eqn:Q; [rewrite Hrec; cbn; exact Hsame|].
  destruct Hrec as (rx & -> & Q' & Hh).
  assert (Htold : forall m tx, ipc_send m (responses s) = (Ok tt, tx) -> true_of r (cmd, m) ->
    forall th, session_true rs (mkSession rx tx th (asked s)
      (told s ++ drop (length (queued (responses s))) (queued tx)) (heard s))).
  { intros m tx E Ht th. destruct (send_healthy _ m (responses s) H2) as (tx' & E' & Qx & Hhx).
    rewrite E in E'. injection E' as <-. rewrite Qx, drop_own. split; [done|]. split; [done|].
    split; [cbn; by rewrite Qx, H3, <- app_assoc|]. exists (qa ++ [(cmd, m)]), l. cbn.
    rewrite !map_app, H4, H5, (H6 eq_refl). cbn. rewrite <- app_assoc. split; [done|]. split; [done|].
    split; [by rewrite Q'|]. apply Forall_app. split; [done|]. apply Forall_singleton. eauto. }
  destruct (process_context_request debug_db_error cmd r) as [[m|e|m] r'] eqn:Ep; cbn [fst snd].
  - destruct (send_healthy _ m (responses s) H2) as (tx & E & _). rewrite E. cbn [to_server to_client ended].
    apply (Htold m tx E), answers_true. rewrite Ep. by left.
  - cbn [to_server to_client ended]. rewrite drop_all, app_nil_r. split; [done|]. split; [done|]. split; [done|].
    exists qa, rest. by cbn.
  - destruct (send_healthy _ m (responses s) H2) as (tx & E & _). rewrite E. cbn [to_server to_client ended snd].
    apply (Htold m tx E), answers_true. rewrite Ep. by right.
Qed.

Definition listener_ok (l : Listener) : Prop :=
  Forall (session_true (past l ++ [repository l])) (sessions l).

Lemma listener_keeps l l' : listener_step l l' -> listener_ok l -> listener_ok l'.
Proof.
  unfold listener_ok. intros Hstep Hl.
  destruct Hstep as [[u|e] l|i s msg tx l Hi E|i s l Hi|i s m rx l Hi E|r l]; cbn [past repository sessions].
  - apply Forall_app. split; [done|]. apply Forall_singleton, new_session_ok.
  - done.
  - apply Forall_insert; [done|]. apply session_asks; [|done]. by eapply Forall_lookup_1.
  - apply Forall_insert; [done|]. apply session_serves; [|by eapply Forall_lookup_1].
    apply elem_of_app. right. by apply list_elem_of_singleton.
  - apply Forall_insert; [done|]. apply session_hears; [|done]. by eapply Forall_lookup_1.
  - eapply Forall_impl; [exact Hl|]. intros s. apply session_more. intros x Hx. apply elem_of_app. by left.
Qed.

(** (C18) In any interleaving of readers, threads and the writer, what a reader has
    heard is a prefix of the answers to its own requests, in their order, and each
    of them was true of the contents of the repository at some moment ([true_of]):
    the value or the hash in the slot of the id asked for, whether that slot has a
    value, the id the context hash is registered with, or that there was no
    repository or no such id. *)
Theorem readers_hear_truth (r0 : Repo) (l : Listener) (i : nat) (s : Session) :
  rtc listener_step (mkListener r0 [] []) l -> sessions l !! i = Some s ->
  exists qa rest later, asked s = map fst qa ++ rest /\ map snd qa = heard s ++ later /\
    Forall (fun x => exists r, r ∈ past l ++ [repository l] /\ true_of r x) qa.
Proof.
  intros Hr Hi. assert (Hl : listener_ok l).
  { remember (mkListener r0 [] []) as l0 eqn:E0. assert (H0l : listener_ok l0) by (subst; constructor).
    clear E0 Hi. induction Hr as [|l1 l2 l3 Hstep _ IH]; [done|]. apply IH. by eapply listener_keeps. }
  pose proof (Forall_lookup_1 _ _ _ _ Hl Hi) as (_ & _ & Hh & qa & rest & Ha & Ht & _ & Hf).
  exists qa, rest, (queued (responses s)). by rewrite <- Ht, Hh.
Qed.
End Listener.

(** ** Example *)
Section Example_.
#[local] Existing Instance reference_ipc.
#[local] Existing Instance reference_default_hasher.
Abbreviation quiet := (fun _ : DBError => EmptyString).

Definition first_listener : Listener := mkListener (mkRepository None false) [] [].
(** A reader asks, the writer installs its repository, the thread answers, and the
    reader hears it. *)
Definition heard_listener : Listener :=
  mkListener (mkRepository (Some writer_repository) false) [mkRepository None false]
    [@mkSession reference_ipc [] [] None [GetValue 1] [GetValueResponse (Ok (Some [1; 2]))] [GetValueResponse (Ok (Some [1; 2]))]].

Lemma listener_runs : rtc (listener_step quiet) first_listener heard_listener.
Proof.
  eapply rtc_l; [exact (step_connect quiet (Ok tt) first_listener)|].
  eapply rtc_l; [apply (step_ask quiet 0 new_session (GetValue 1)); reflexivity|].
  eapply rtc_l; [apply (step_write quiet (mkRepository (Some writer_repository) false))|].
  eapply rtc_l; [eapply (step_serve quiet 0); reflexivity|].
  eapply rtc_l; [eapply (step_hear quiet 0); reflexivity|].
  apply rtc_refl.
Qed.

Lemma readers_hear_truth_witness :
  exists qa rest later, [GetValue 1] = map fst qa ++ rest /\
    map snd qa = [GetValueResponse (Ok (Some [1; 2]))] ++ later /\
    Forall (fun x => exists r, r ∈ past heard_listener ++ [repository heard_listener] /\ true_of quiet r x) qa.
Proof.
  apply (readers_hear_truth quiet (mkRepository None false) heard_listener 0
    (@mkSession reference_ipc [] [] None [GetValue 1] [GetValueResponse (Ok (Some [1; 2]))] [GetValueResponse (Ok (Some [1; 2]))])).
  - exact listener_runs.
  - reflexivity.
Defined.
End Example_.
