(* ===== verification/OcamlRuntime.v ===== *)
(** * The thread of the OCaml runtime ([tezos/interop/src/runtime.rs])

    One thread owns the OCaml runtime and runs the tasks it is sent, one after
    another.  A caller polls the future of its task: it takes the result, or leaves
    a waker under the lock of the result and sleeps.  The locks are the steps that
    cannot overlap: the thread holds the lock of a result from the start of the
    task until it is stored, so that its owner cannot poll in between.

    [execute] is the composition a caller sees. *)

From Stdlib Require Import ZArith Lia List Bool String.
From stdpp Require Import base option list relations.
From S2P Require Import Prelude.

Inductive OCamlBlockPanic : Type := mkPanic.
Definition panic_text (_ : OCamlBlockPanic) : string := "Panic during the execution of an OCaml block".

Section Runtime.
(** The runtime, and what a task computes of it; [None] is a panic. *)
Context {Rt T : Type}.
Abbreviation op := (Rt -> option T * Rt).

(** [std::panic::catch_unwind]. *)
Definition catch_unwind (f : op) (rt : Rt) : result OCamlBlockPanic T * Rt :=
  let (r, rt) := f rt in (match r with Some t => Ok t | None => Err mkPanic end, rt).

(** Where the caller of a task is. *)
Inductive caller_pc : Type := Polling | Parked | Done (r : result OCamlBlockPanic T).

(** [OCamlCallResult] and [OCamlTask] of one call: the result holder and the waker
    they share. *)
Record OCamlTask : Type := mkTask {
  task_op : op;
  task_result : option (result OCamlBlockPanic T);
  waker : bool;
  caller : caller_pc;
}.

(** [OCamlThreadExecutor::run]: waiting for a task, in a task, or about to wake its
    caller. *)
Inductive executor_pc : Type := Receiving | InTask (i : nat) | Waking (i : nat).

Record Env : Type := mkEnv {
  tasks : list OCamlTask;
  ready_tasks : list nat;
  executor : executor_pc;
  ocaml_runtime : Rt;
  sender_open : bool;
}.

Definition set_task (i : nat) (t : OCamlTask) (s : Env) : Env :=
  mkEnv (<[i := t]> (tasks s)) (ready_tasks s) (executor s) (ocaml_runtime s) (sender_open s).
Definition set_executor (e : executor_pc) (s : Env) : Env :=
  mkEnv (tasks s) (ready_tasks s) e (ocaml_runtime s) (sender_open s).

(** [spawn]: a task with an empty holder and no waker is sent. *)
Definition spawn (f : op) (s : Env) : Env :=
  mkEnv (tasks s ++ [mkTask f None false Polling]) (ready_tasks s ++ [length (tasks s)])
    (executor s) (ocaml_runtime s) (sender_open s).

(** [OCamlCallResult::poll]. *)
Definition poll (t : OCamlTask) : OCamlTask :=
  match task_result t with
  | Some r => mkTask (task_op t) None (waker t) (Done r)
  | None => mkTask (task_op t) None true Parked
  end.

(** The task's closure, under the lock of the result. *)
Definition run_task (t : OCamlTask) (rt : Rt) : OCamlTask * Rt :=
  let (r, rt) := catch_unwind (task_op t) rt in
  (mkTask (task_op t) (Some r) (waker t) (caller t), rt).

(** [waker.take()] and [wake()]. *)
Definition notify (t : OCamlTask) : OCamlTask :=
  if waker t
  then mkTask (task_op t) (task_result t) false
         match caller t with Parked => Polling | c => c end
  else t.

(** [OCamlTaskSpawner::shutdown] drops the guard of the mutex, not the sender. *)
Definition shutdown (s : Env) : Env := s.

Inductive step : Env -> Env -> Prop :=
| step_spawn f s : sender_open s = true -> step s (spawn f s)
| step_poll i t s :
    tasks s !! i = Some t -> caller t = Polling -> executor s <> InTask i ->
    step s (set_task i (poll t) s)
| step_receive i q s :
    executor s = Receiving -> ready_tasks s = i :: q ->
    step s (mkEnv (tasks s) q (InTask i) (ocaml_runtime s) (sender_open s))
| step_run i t s :
    executor s = InTask i -> tasks s !! i = Some t ->
    step s (let (t', rt) := run_task t (ocaml_runtime s) in
            mkEnv (<[i := t']> (tasks s)) (ready_tasks s) (Waking i) rt (sender_open s))
| step_wake i t s :
    executor s = Waking i -> tasks s !! i = Some t ->
    step s (set_executor Receiving (set_task i (notify t) s))
| step_shutdown s : step s (shutdown s).

Definition initial (rt : Rt) : Env := mkEnv [] [] Receiving rt true.

(** ** No wake-up is lost *)

(** A task that is queued or runs; one whose caller waits for it properly; one whose
    caller has the result. *)
Definition busy (s : Env) (i : nat) : Prop := i ∈ ready_tasks s \/ executor s = InTask i.
Definition waits (t : OCamlTask) : Prop :=
  caller t = Polling \/ (caller t = Parked /\ waker t = true).
Definition is_done (t : OCamlTask) : Prop := exists r, caller t = Done r.

(** Parked callers have left a waker, and it is used before the thread turns to the
    next task. *)
Definition task_ok (s : Env) (i : nat) (t : OCamlTask) : Prop :=
  (busy s i -> task_result t = None /\ waits t) /\
  (executor s = Waking i -> (is_Some (task_result t) /\ waits t) \/ is_done t) /\
  (~ busy s i -> executor s <> Waking i ->
     (is_Some (task_result t) /\ caller t = Polling) \/ is_done t).

(** The tasks the thread still has to deal with. *)
Definition current (s : Env) : list nat :=
  match executor s with InTask i | Waking i => i :: ready_tasks s | Receiving => ready_tasks s end.

Definition env_ok (s : Env) : Prop :=
  (forall i t, tasks s !! i = Some t -> task_ok s i t) /\
  Forall (fun i => (i < length (tasks s))%nat) (current s) /\ NoDup (current s).

Lemma env_ok_initial rt : env_ok (initial rt).
Proof. split; [done|]. split; constructor. Qed.

(** A step that changes one task keeps the others, when it keeps their phases. *)
Lemma tasks_ok_update s s' i t :
  env_ok s -> tasks s' = <[i := t]> (tasks s) -> (i < length (tasks s))%nat -> task_ok s' i t ->
  (forall j, j <> i -> (busy s' j <-> busy s j) /\ (executor s' = Waking j <-> executor s = Waking j)) ->
  forall j u, tasks s' !! j = Some u -> task_ok s' j u.
Proof.
  intros (Hok & _ & _) Ht Hi Hnew Hph j u Hj. rewrite Ht in Hj.
  destruct (decide (j = i)) as [->|Hne].
  - rewrite list_lookup_insert_eq in Hj by done. by simplify_eq.
  - rewrite list_lookup_insert_ne in Hj by done. destruct (Hph j Hne) as [Hb Hw].
    destruct (Hok j u Hj) as (H1 & H2 & H3). unfold task_ok. rewrite Hb, Hw. by ssplit.
Qed.

Lemma env_ok_spawn f s : env_ok s -> env_ok (spawn f s).
Proof.
  intros Hs. pose proof Hs as (Hok & Hlt & Hnd).
  split; [|split].
  - intros j u Hj. cbn in Hj. apply lookup_app_Some in Hj as [Hj|[Hlen Hj]].
    + pose proof (lookup_lt_Some _ _ _ Hj) as Hjl. destruct (Hok j u Hj) as (H1 & H2 & H3).
      assert (Hb : busy (spawn f s) j <-> busy s j).
      { unfold busy. cbn. rewrite elem_of_app, list_elem_of_singleton. intuition lia. }
      unfold task_ok. rewrite Hb. by ssplit.
    + apply list_lookup_singleton_Some in Hj as [Hj <-].
      replace j with (length (tasks s)) in * by lia. unfold task_ok. ssplit.
      * intros _. split; [done|]. by left.
      * cbn. intros He. exfalso. unfold current in Hlt. rewrite He in Hlt.
         apply Forall_cons in Hlt as [? _]. lia.
      * intros Hb. destruct Hb. left. cbn. apply elem_of_app. right. by apply list_elem_of_singleton.
  - unfold current in *. cbn. rewrite length_app. cbn.
    assert (Forall (fun i => (i < length (tasks s) + 1)%nat) (current s)) as Hl.
    { eapply Forall_impl; [exact Hlt|]. cbn. intros. lia. }
    unfold current in Hl. destruct (executor s); rewrite ?Forall_cons in *;
      rewrite ?Forall_app, ?Forall_singleton; intuition lia.
  - assert (Hfresh : length (tasks s) ∉ current s).
    { intros Hin. apply (proj1 (Forall_forall _ _) Hlt) in Hin. lia. }
    assert (Hc : current (spawn f s) = current s ++ [length (tasks s)])
      by (unfold current; cbn; by destruct (executor s)).
    rewrite Hc. apply NoDup_app. split; [done|]. split; [|apply NoDup_singleton].
    intros x Hx ->%list_elem_of_singleton. done.
Qed.

Lemma env_ok_poll i t s :
  env_ok s -> tasks s !! i = Some t -> caller t = Polling -> executor s <> InTask i ->
  env_ok (set_task i (poll t) s).
Proof.
  intros Hs Hi Hp Hex. pose proof Hs as (Hok & Hlt & Hnd).
  pose proof (lookup_lt_Some _ _ _ Hi) as Hil. destruct (Hok i t Hi) as (H1 & H2 & H3). split; [|split].
  - eapply tasks_ok_update; [exact Hs|done|done| |done]. unfold task_ok, poll. ssplit.
    + intros Hb. change (busy (set_task i (poll t) s) i) with (busy s i) in Hb.
      destruct (H1 Hb) as [-> _]. split; [done|]. by right.
    + intros Hw. destruct (H2 Hw) as [[[r Hr] _]|[r Hr]]; [|congruence].
      rewrite Hr. right. by eexists.
    + intros Hb Hw. destruct (H3 Hb Hw) as [[[r Hr] _]|[r Hr]]; [|congruence].
      rewrite Hr. right. by eexists.
  - cbn. rewrite length_insert. exact Hlt.
  - exact Hnd.
Qed.

Lemma env_ok_receive i q s :
  env_ok s -> executor s = Receiving -> ready_tasks s = i :: q ->
  env_ok (mkEnv (tasks s) q (InTask i) (ocaml_runtime s) (sender_open s)).
Proof.
  intros Hs He Hq. pose proof Hs as (Hok & Hlt & Hnd).
  unfold current in Hlt, Hnd. rewrite He, Hq in Hlt, Hnd. split; [|split; done].
  intros j u Hj. destruct (Hok j u Hj) as (H1 & H2 & H3).
  set (s' := mkEnv (tasks s) q (InTask i) (ocaml_runtime s) (sender_open s)).
  assert (Hb : busy s' j <-> busy s j).
  { unfold busy, s'. cbn. rewrite He, Hq, elem_of_cons. split; [|intuition congruence].
    intros [?|[= ->]]; tauto. }
  unfold task_ok. rewrite Hb. ssplit; [done|done|]. intros Hn _. apply H3; [done|]. by rewrite He.
Qed.

Lemma env_ok_run i t s :
  env_ok s -> executor s = InTask i -> tasks s !! i = Some t ->
  env_ok (let (t', rt) := run_task t (ocaml_runtime s) in
          mkEnv (<[i := t']> (tasks s)) (ready_tasks s) (Waking i) rt (sender_open s)).
Proof.
  intros Hs He Hi. pose proof Hs as (Hok & Hlt & Hnd).
  pose proof (lookup_lt_Some _ _ _ Hi) as Hil. unfold current in Hlt, Hnd. rewrite He in Hlt, Hnd.
  unfold run_task. destruct (catch_unwind (task_op t) (ocaml_runtime s)) as [r rt].
  destruct (Hok i t Hi) as (H1 & _ & _). destruct (H1 (or_intror He)) as [_ Hwt].
  split; [|split].
  - eapply tasks_ok_update; [exact Hs|done|done| |].
    + unfold task_ok. ssplit.
      * intros [Hin|Hbad]; [|done]. apply NoDup_cons in Hnd as [? _]. done.
      * intros _. left. split; [by eexists|]. exact Hwt.
      * intros _ Hbad. done.
    + intros j Hj. unfold busy. cbn. rewrite He. split; split; intuition congruence.
  - unfold current. cbn. by rewrite length_insert.
  - exact Hnd.
Qed.

Lemma env_ok_wake i t s :
  env_ok s -> executor s = Waking i -> tasks s !! i = Some t ->
  env_ok (set_executor Receiving (set_task i (notify t) s)).
Proof.
  intros Hs He Hi. pose proof Hs as (Hok & Hlt & Hnd).
  pose proof (lookup_lt_Some _ _ _ Hi) as Hil. unfold current in Hlt, Hnd. rewrite He in Hlt, Hnd.
  apply NoDup_cons in Hnd as [Hni Hnd]. apply Forall_cons in Hlt as [_ Hlt].
  destruct (Hok i t Hi) as (_ & H2 & _). split; [|split].
  - eapply tasks_ok_update; [exact Hs|done|done| |].
    + unfold task_ok. ssplit.
      * intros [Hin|Hbad]; done.
      * done.
      * intros _ _. unfold notify. destruct (H2 He) as [[Hr [Hw|[Hw ->]]]|[r Hr]].
         -- left. destruct (waker t); cbn; by rewrite ?Hw.
         -- left. cbn. by rewrite Hw.
         -- right. exists r. destruct (waker t); cbn; by rewrite ?Hr.
    + intros j Hj. unfold busy. cbn. rewrite He. split; split; intuition congruence.
  - cbn. by rewrite length_insert.
  - exact Hnd.
Qed.

Lemma env_ok_step s s' : env_ok s -> step s s' -> env_ok s'.
Proof.
  intros Hs Hst. revert Hs. destruct Hst; intros Hs; [by apply env_ok_spawn|by apply env_ok_poll|by eapply env_ok_receive|
    by eapply env_ok_run|by eapply env_ok_wake|done].
Qed.

Lemma reachable_ok rt s : rtc step (initial rt) s -> env_ok s.
Proof.
  intros Hr. pose proof (env_ok_initial rt) as Hi.
  induction Hr as [|x y z Hs _ IH]; [done|]. apply IH. by eapply env_ok_step.
Qed.

(** (C16) No wake-up is lost between the thread of the runtime and its callers,
    however their steps interleave: when the thread has nothing to do, nobody
    sleeps, and each caller has its result or will take it with its next poll. *)
Theorem no_lost_wakeup (rt : Rt) (s : Env) (i : nat) (t : OCamlTask) :
  rtc step (initial rt) s -> executor s = Receiving -> ready_tasks s = [] ->
  tasks s !! i = Some t ->
  is_done t \/ (caller t = Polling /\ is_done (poll t)).
Proof.
  intros Hr He Hq Hi. destruct (reachable_ok rt s Hr) as (Hok & _ & _).
  destruct (Hok i t Hi) as (_ & _ & H3).
  destruct H3 as [[[r Hres] Hc]|Hd].
  - intros [Hin|Hbad]; [|congruence]. rewrite Hq in Hin. by apply not_elem_of_nil in Hin.
  - congruence.
  - right. split; [done|]. unfold poll. rewrite Hres. by eexists.
  - by left.
Qed.

(** ** [execute]

    What a caller gets of a task that is run on a runtime. *)
Definition execute (f : op) (rt : Rt) : result OCamlBlockPanic T * Rt := catch_unwind f rt.

(** A call on an idle thread: send, sleep, run, wake, take the result. *)
Lemma execute_run f rt :
  exists s, rtc step (initial rt) s /\ executor s = Receiving /\ ready_tasks s = [] /\
    ocaml_runtime s = (execute f rt).2 /\
    exists t, tasks s !! 0%nat = Some t /\ caller t = Done (execute f rt).1.
Proof.
  unfold execute. destruct (catch_unwind f rt) as [r rt'] eqn:Hf.
  eexists. split; [|].
  { eapply rtc_l; [apply (step_spawn f); reflexivity|].
    eapply rtc_l; [eapply (step_poll 0); [reflexivity..|discriminate]|].
    eapply rtc_l; [eapply (step_receive 0); reflexivity|].
    eapply rtc_l; [eapply (step_run 0); reflexivity|]. cbn. unfold run_task. cbn. rewrite Hf.
    eapply rtc_l; [eapply (step_wake 0); reflexivity|]. cbn.
    eapply rtc_l; [eapply (step_poll 0); [reflexivity..|discriminate]|]. cbn. apply rtc_refl. }
  cbn. ssplit; try done. by eexists.
Qed.
End Runtime.

(** A call that panics, on a runtime that counts. *)
Lemma no_lost_wakeup_witness :
  exists s, rtc (step (T := nat)) (initial 0%nat) s /\
    exists t, tasks s !! 0%nat = Some t /\ caller t = Done (Err mkPanic) /\
      (is_done t \/ (caller t = Polling /\ is_done (poll t))).
Proof.
  destruct (execute_run (fun n : nat => (@None nat, S n)) 0%nat) as (s & Hr & He & Hq & _ & t & Ht & Hc).
  exists s. split; [exact Hr|]. exists t. split; [exact Ht|]. split; [exact Hc|].
  exact (no_lost_wakeup 0%nat s 0 t Hr He Hq Ht).
Defined.

(** The runtime is still there after a shutdown: tasks that are sent later run. *)
Lemma shutdown_keeps_running {Rt T : Type} (s : Env (Rt := Rt) (T := T)) f :
  sender_open s = true -> step (shutdown s) (spawn f (shutdown s)).
Proof. intros Hs. by apply step_spawn. Qed.
