(* ===== verification/Interop.v ===== *)
(** * Calls into the OCaml protocol ([tezos/interop/src/ffi.rs],
    [tezos/client/src/client.rs])

    Every call runs on the thread of the OCaml runtime; what OCaml answers, a trace
    of errors or a panic becomes the error type of the call.  The client's functions
    check the request and rename the errors; they are an implementation of the
    functions the protocol service is written against.  The OCaml functions are a
    class. *)

From Stdlib Require Import ZArith Lia List Bool String Ascii.
From stdpp Require Import base option list numbers strings.
From S2P Require Import Prelude Extern CryptoHash MerklePath MessageTypes ApiTypes Environment Rpc OcamlRuntime ProtocolService ProtocolServiceFacts.

Local Open Scope string_scope.
Local Open Scope list_scope.

Abbreviation TzResult := (result TezosErrorTrace).

(** [ocaml_conv::FfiPath]. *)
Inductive FfiPath : Type :=
| FfiRight (left : bytes) (path : FfiPath)
| FfiLeft (path : FfiPath) (right : bytes)
| FfiOp.

(** [tezos_ffi]: the functions OCaml registers, on the state of its runtime.
    [None] is a panic in the block of the call. *)
Class OcamlProtocol (O : Type) : Type := {
  ml_apply_block : ApplyBlockRequest -> O -> option (TzResult ApplyBlockResponse) * O;
  ml_begin_application : BeginApplicationRequest -> O -> option (TzResult BeginApplicationResponse) * O;
  ml_begin_construction : BeginConstructionRequest -> O -> option (TzResult PrevalidatorWrapper) * O;
  ml_validate_operation : ValidateOperationRequest -> O -> option (TzResult ValidateOperationResponse) * O;
  ml_call_protocol_rpc :
    ProtocolRpcRequest -> O -> option (result ProtocolRpcError.t ProtocolRpcResponse) * O;
  ml_helpers_preapply_operations :
    ProtocolRpcRequest -> O -> option (TzResult HelpersPreapplyResponse) * O;
  ml_helpers_preapply_block :
    HelpersPreapplyBlockRequest -> O -> option (TzResult HelpersPreapplyResponse) * O;
  ml_change_runtime_configuration : bool -> bool -> bool -> O -> option unit * O;
  ml_init_protocol_context :
    TezosContextConfiguration -> O -> option (TzResult (list bytes * option bytes)) * O;
  ml_genesis_result_data :
    bytes -> bytes -> bytes -> Z -> O -> option (TzResult (string * bytes * list (list bytes))) * O;
  ml_decode_context_data : bytes -> list string -> bytes -> O -> option (TzResult (option string)) * O;
  ml_compute_path : list (list bytes) -> O -> option (TzResult (list FfiPath)) * O;
  ml_assert_encoding_for_protocol_data : bytes -> bytes -> O -> option (TzResult unit) * O;
  ml_apply_block_result_metadata :
    bytes -> bytes -> Z -> bytes -> bytes -> O -> option (TzResult string) * O;
  ml_apply_block_operations_metadata :
    bytes -> list (list Operation.t) -> list (list bytes) -> bytes -> bytes -> O ->
    option (TzResult string) * O;
}.

Module Ffi.
Section Ops.
Context {O : Type} `{!OcamlProtocol O}.

(** A block that returns a [Result]: what it returns, or what becomes of a panic. *)
Definition run {E A} (f : O -> option (result E A) * O) (panicked : string -> E) (o : O)
  : result E A * O :=
  match execute f o with
  | (Ok r, o) => (r, o)
  | (Err p, o) => (Err (panicked (panic_text p)), o)
  end.

(** The result of the OCaml function inside the block. *)
Definition in_block {E E' A B} (f : O -> option (result E A) * O) (k : result E A -> result E' B) (o : O)
  : option (result E' B) * O :=
  let (r, o) := f o in (k <$> r, o).

(** [call_helper!]. *)
Definition call_helper {A} (f : O -> option (TzResult A) * O) : O -> result CallError.t A * O :=
  run (in_block f (map_err CallError.from_trace)) (CallError.FailedToCall "@OCamlBlockPanic").

Definition apply_block (request : ApplyBlockRequest) := call_helper (ml_apply_block request).
Definition begin_application (request : BeginApplicationRequest) :=
  call_helper (ml_begin_application request).
Definition begin_construction (request : BeginConstructionRequest) :=
  call_helper (ml_begin_construction request).
Definition validate_operation (request : ValidateOperationRequest) :=
  call_helper (ml_validate_operation request).
Definition helpers_preapply_operations (request : ProtocolRpcRequest) :=
  call_helper (ml_helpers_preapply_operations request).
Definition helpers_preapply_block (request : HelpersPreapplyBlockRequest) :=
  call_helper (ml_helpers_preapply_block request).

Definition call_protocol_rpc (request : ProtocolRpcRequest)
  : O -> result ProtocolRpcError.t ProtocolRpcResponse * O :=
  run (ml_call_protocol_rpc request) ProtocolRpcError.FailedToCallProtocolRpc.

Definition change_runtime_configuration (settings : TezosRuntimeConfiguration) (o : O)
  : result TezosRuntimeConfigurationError.t unit * O :=
  match execute (ml_change_runtime_configuration (log_enabled settings) (debug_mode settings)
                   (compute_context_action_tree_hashes settings)) o with
  | (Ok r, o) => (Ok r, o)
  | (Err p, o) => (Err (TezosRuntimeConfigurationError.ChangeConfigurationError (panic_text p)), o)
  end.

(** [collect::<Result<_, _>>] of typed hashes. *)
Fixpoint typed_hashes (t : HashType) (l : list bytes) : result CryptoHash.FromBytesError (list bytes) :=
  match l with
  | [] => Ok []
  | h :: l => h ← hash_from_bytes t h; l ← typed_hashes t l; Ok (h :: l)
  end.

Definition init_result (r : TzResult (list bytes * option bytes))
  : result TezosStorageInitError.t InitProtocolContextResult :=
  match r with
  | Ok (supported_protocol_hashes, genesis_commit_hash) =>
      supported ← map_err TezosStorageInitError.from_bytes_error
                    (typed_hashes ProtocolHash supported_protocol_hashes);
      genesis ← match genesis_commit_hash with
                | Some h => h ← map_err TezosStorageInitError.from_bytes_error
                                  (hash_from_bytes ContextHash h); Ok (Some h)
                | None => Ok None
                end;
      Ok (mkInitResult supported genesis)
  | Err e => Err (TezosStorageInitError.from_trace e)
  end.

Definition init_protocol_context (context_config : TezosContextConfiguration)
  : O -> result TezosStorageInitError.t InitProtocolContextResult * O :=
  run (in_block (ml_init_protocol_context context_config) init_result)
    TezosStorageInitError.InitializeError.

Definition genesis_result_data (context_hash chain_id protocol_hash : bytes)
  (genesis_max_operations_ttl : Z) : O -> result GetDataError.t CommitGenesisResult * O :=
  run (in_block (ml_genesis_result_data context_hash chain_id protocol_hash genesis_max_operations_ttl)
         (fun r => match r with
                   | Ok (json, metadata, operations) => Ok (mkCommitGenesisResult json metadata operations)
                   | Err e => Err (GetDataError.from_trace e)
                   end))
    GetDataError.ReadError.

(** The loop over a path: the item of every level, from the root down. *)
Fixpoint path_of_ffi (path : FfiPath) : Path :=
  match path with
  | FfiRight l path => PathItemRight l :: path_of_ffi path
  | FfiLeft path r => PathItemLeft r :: path_of_ffi path
  | FfiOp => []
  end.

Definition compute_path (request : ComputePathRequest) : O -> result CallError.t ComputePathResponse * O :=
  run (in_block (ml_compute_path (cp_operations request))
         (fun r => match r with
                   | Ok response => Ok (mkComputePathResponse (path_of_ffi <$> response))
                   | Err e => Err (CallError.from_trace e)
                   end))
    (CallError.FailedToCall "@exception").

Definition decode_context_data (protocol_hash : bytes) (key : list string) (data : bytes)
  : O -> result ContextDataError.t (option string) * O :=
  run (in_block (ml_decode_context_data protocol_hash key data) (map_err ContextDataError.from_trace))
    ContextDataError.DecodeError.

(** The hash is checked in the block, before OCaml is called. *)
Definition assert_encoding_for_protocol_data (protocol_hash protocol_data : bytes)
  : O -> result ProtocolDataError.t unit * O :=
  run (fun o =>
         match hash_from_bytes ProtocolHash protocol_hash with
         | Err e => (Some (Err (ProtocolDataError.from_bytes_error e)), o)
         | Ok h => in_block (ml_assert_encoding_for_protocol_data h protocol_data)
                     (map_err ProtocolDataError.from_trace) o
         end)
    ProtocolDataError.DecodeError.

Definition apply_block_result_metadata (context_hash metadata_bytes : bytes) (max_operations_ttl : Z)
  (protocol_hash next_protocol_hash : bytes) : O -> result FfiJsonEncoderError.t string * O :=
  run (in_block (ml_apply_block_result_metadata context_hash metadata_bytes max_operations_ttl
                   protocol_hash next_protocol_hash) (map_err FfiJsonEncoderError.from_trace))
    FfiJsonEncoderError.EncodeError.

Definition apply_block_operations_metadata (chain_id : bytes) (operations : list (list Operation.t))
  (operations_metadata_bytes : list (list bytes)) (protocol_hash next_protocol_hash : bytes)
  : O -> result FfiJsonEncoderError.t string * O :=
  run (in_block (ml_apply_block_operations_metadata chain_id operations operations_metadata_bytes
                   protocol_hash next_protocol_hash) (map_err FfiJsonEncoderError.from_trace))
    FfiJsonEncoderError.EncodeError.
End Ops.
End Ffi.

(** ** [client.rs] *)

(** The [Debug] forms the messages are made with. *)
Record DebugTexts : Type := mkDebugTexts {
  debug_runtime_error : TezosRuntimeConfigurationError.t -> string;
  debug_init_error : TezosStorageInitError.t -> string;
  debug_data_error : GetDataError.t -> string;
  debug_call_error : CallError.t -> string;
  debug_context_data_error : ContextDataError.t -> string;
  debug_protocol_data_error : ProtocolDataError.t -> string;
}.

Module Client.
Section Ops.
Context {O : Type} `{!OcamlProtocol O} (debug : DebugTexts).

(** [.map_err(..)] after a call. *)
Definition renamed {E F A} (f : E -> F) (r : result E A * O) : result F A * O := (map_err f r.1, r.2).

Definition change_runtime_configuration (settings : TezosRuntimeConfiguration) (o : O)
  : result TezosRuntimeConfigurationError.t unit * O :=
  renamed (fun e => TezosRuntimeConfigurationError.ChangeConfigurationError
             ("FFI 'change_runtime_configuration' failed, reason: " ++ debug_runtime_error debug e)%string)
    (Ffi.change_runtime_configuration settings o).

Definition init_protocol_context (context_config : TezosContextConfiguration) (o : O)
  : result TezosStorageInitError.t InitProtocolContextResult * O :=
  renamed (fun e => TezosStorageInitError.InitializeError
             ("FFI 'init_protocol_context' failed! Initialization of Tezos context failed, this storage is required, we can do nothing without that, reason: " ++
              debug_init_error debug e)%string)
    (Ffi.init_protocol_context context_config o).

Definition genesis_result_data (context_hash chain_id protocol_hash : bytes)
  (genesis_max_operations_ttl : Z) (o : O) : result GetDataError.t CommitGenesisResult * O :=
  renamed (fun e => GetDataError.ReadError
             ("FFI 'genesis_result_data' failed, reason: " ++ debug_data_error debug e)%string)
    (Ffi.genesis_result_data context_hash chain_id protocol_hash genesis_max_operations_ttl o).

(** As many lists of operations as the header says there are passes. *)
Definition apply_block (request : ApplyBlockRequest) (o : O)
  : result ApplyBlockError.t ApplyBlockResponse * O :=
  let expected := BlockHeader.validation_pass (ab_block_header request) in
  let actual := zlen (ab_operations request) in
  if negb (expected =? actual)%Z
  then (Err (ApplyBlockError.IncompleteOperations expected actual), o)
  else renamed ApplyBlockError.from_call_error (Ffi.apply_block request o).

Definition begin_application (request : BeginApplicationRequest) (o : O)
  : result BeginApplicationError.t BeginApplicationResponse * O :=
  renamed BeginApplicationError.from_call_error (Ffi.begin_application request o).

Definition begin_construction (request : BeginConstructionRequest) (o : O)
  : result BeginConstructionError.t PrevalidatorWrapper * O :=
  renamed BeginConstructionError.from_call_error (Ffi.begin_construction request o).

Definition validate_operation (request : ValidateOperationRequest) (o : O)
  : result ValidateOperationError.t ValidateOperationResponse * O :=
  renamed ValidateOperationError.from_call_error (Ffi.validate_operation request o).

Definition call_protocol_rpc (request : ProtocolRpcRequest) (o : O)
  : result ProtocolRpcError.t ProtocolRpcResponse * O := Ffi.call_protocol_rpc request o.

Definition compute_path (request : ComputePathRequest) (o : O)
  : result ComputePathError.t ComputePathResponse * O :=
  renamed (fun e => ComputePathError.PathError
             ("Path computation failed, reason: " ++ debug_call_error debug e)%string)
    (Ffi.compute_path request o).

Definition helpers_preapply_operations (request : ProtocolRpcRequest) (o : O)
  : result HelpersPreapplyError.t HelpersPreapplyResponse * O :=
  renamed HelpersPreapplyError.from_call_error (Ffi.helpers_preapply_operations request o).

Definition helpers_preapply_block (request : HelpersPreapplyBlockRequest) (o : O)
  : result HelpersPreapplyError.t HelpersPreapplyResponse * O :=
  renamed HelpersPreapplyError.from_call_error (Ffi.helpers_preapply_block request o).

Definition decode_context_data (protocol_hash : bytes) (key : list string) (data : bytes) (o : O)
  : result ContextDataError.t (option string) * O :=
  renamed (fun e => ContextDataError.DecodeError
             ("FFI 'decode_context_data' failed, reason: " ++ debug_context_data_error debug e)%string)
    (Ffi.decode_context_data protocol_hash key data o).

Definition assert_encoding_for_protocol_data (protocol_hash protocol_data : bytes) (o : O)
  : result ProtocolDataError.t unit * O :=
  renamed (fun e => ProtocolDataError.DecodeError
             ("FFI 'assert_encoding_for_protocol_data' failed, reason: " ++
              debug_protocol_data_error debug e)%string)
    (Ffi.assert_encoding_for_protocol_data protocol_hash protocol_data o).

Definition apply_block_result_metadata (context_hash metadata_bytes : bytes) (max_operations_ttl : Z)
  (protocol_hash next_protocol_hash : bytes) (o : O) : result FfiJsonEncoderError.t string * O :=
  Ffi.apply_block_result_metadata context_hash metadata_bytes max_operations_ttl protocol_hash
    next_protocol_hash o.

Definition apply_block_operations_metadata (chain_id : bytes) (operations : list (list Operation.t))
  (operations_metadata_bytes : list (list bytes)) (protocol_hash next_protocol_hash : bytes) (o : O)
  : result FfiJsonEncoderError.t string * O :=
  Ffi.apply_block_operations_metadata chain_id operations operations_metadata_bytes protocol_hash
    next_protocol_hash o.
End Ops.
End Client.

(** The client's functions behind the service. *)
Definition client_protocol_api {O : Type} `{!OcamlProtocol O} (debug : DebugTexts) : ProtocolApi O := {|
  ProtocolService.apply_block := Client.apply_block;
  ProtocolService.begin_application := Client.begin_application;
  ProtocolService.begin_construction := Client.begin_construction;
  ProtocolService.validate_operation := Client.validate_operation;
  ProtocolService.call_protocol_rpc := Client.call_protocol_rpc;
  ProtocolService.helpers_preapply_operations := Client.helpers_preapply_operations;
  ProtocolService.helpers_preapply_block := Client.helpers_preapply_block;
  ProtocolService.change_runtime_configuration := Client.change_runtime_configuration debug;
  ProtocolService.init_protocol_context := Client.init_protocol_context debug;
  ProtocolService.genesis_result_data := Client.genesis_result_data debug;
  ProtocolService.compute_path := Client.compute_path debug;
  ProtocolService.assert_encoding_for_protocol_data := Client.assert_encoding_for_protocol_data debug;
  ProtocolService.apply_block_result_metadata := Client.apply_block_result_metadata;
  ProtocolService.apply_block_operations_metadata := Client.apply_block_operations_metadata;
|}.

(** ** What becomes of a block *)
Section Facts.
Context {O : Type} `{!OcamlProtocol O}.

(** The error of [apply_block] by what OCaml answered. *)
Definition apply_error (e : TezosErrorTrace) : ApplyBlockError.t :=
  if String.eqb (head_error_id e) "ffi.unknown_predecessor_context"
  then ApplyBlockError.UnknownPredecessorContext (trace_json e)
  else if String.eqb (head_error_id e) "ffi.predecessor_mismatch"
  then ApplyBlockError.PredecessorMismatch (trace_json e)
  else ApplyBlockError.FailedToApplyBlock (trace_json e).

(** [apply_block] in every case.  A request with the wrong number of operation
    lists is refused without calling OCaml; otherwise OCaml is called once, its
    response is returned as it is, a trace of errors becomes the error its first
    id stands for, and a panic on the OCaml side an ordinary failure. *)
Theorem apply_block_outcomes (request : ApplyBlockRequest) (o : O) :
  let expected := BlockHeader.validation_pass (ab_block_header request) in
  let actual := zlen (ab_operations request) in
  Client.apply_block request o =
    if decide (expected = actual) then
      let (r, o') := ml_apply_block request o in
      (match r with
       | Some (Ok response) => Ok response
       | Some (Err e) => Err (apply_error e)
       | None => Err (ApplyBlockError.FailedToApplyBlock "Panic during the execution of an OCaml block")
       end, o')
    else (Err (ApplyBlockError.IncompleteOperations expected actual), o).
Proof.
  cbv zeta. unfold Client.apply_block.
  destruct (Z.eqb_spec (BlockHeader.validation_pass (ab_block_header request)) (zlen (ab_operations request)))
    as [He|He]; [rewrite decide_True by done|by rewrite decide_False by done]. cbn [negb].
  unfold Ffi.apply_block, Ffi.call_helper, Ffi.run, Ffi.in_block, execute, catch_unwind, Client.renamed.
  destruct (ml_apply_block request o) as [[[r|e]|] o']; done.
Qed.

(** A path keeps its levels and its hashes. *)
Fixpoint ffi_path_items (path : FfiPath) : list (bool * bytes) :=
  match path with
  | FfiRight l path => (true, l) :: ffi_path_items path
  | FfiLeft path r => (false, r) :: ffi_path_items path
  | FfiOp => []
  end.
Lemma path_of_ffi_items path :
  (fun i => match i with PathItemRight h => (true, h) | PathItemLeft h => (false, h) end)
    <$> Ffi.path_of_ffi path = ffi_path_items path.
Proof. induction path as [l path IH|path IH r|]; cbn; by rewrite ?IH. Qed.

(** Hashes of the wrong size make the initialisation fail although OCaml succeeded. *)
Lemma init_result_ok protocols genesis r :
  Ffi.init_result (Ok (protocols, genesis)) = Ok r ->
  supported_protocol_hashes r = protocols /\ genesis_commit_hash r = genesis /\
  Forall (fun h => zlen h = 32) protocols.
Proof.
  assert (Hty : forall l l', Ffi.typed_hashes ProtocolHash l = Ok l' ->
    l' = l /\ Forall (fun h => zlen h = 32) l).
  { induction l as [|h l IH]; intros l'; cbn; [by intros [= <-]|].
    unfold hash_from_bytes. destruct (Z.eqb_spec (zlen h) (hash_size ProtocolHash)) as [Hh|]; [|done].
    cbn. destruct (Ffi.typed_hashes ProtocolHash l) as [l2|] eqn:E; [|done]. intros [= <-].
    destruct (IH l2 eq_refl) as [-> Hl]. split; [done|]. by constructor. }
  unfold Ffi.init_result. destruct (Ffi.typed_hashes ProtocolHash protocols) as [l|] eqn:E; [|done].
  destruct (Hty _ _ E) as [-> Hl]. cbn. destruct genesis as [h|]; [|by intros [= <-]].
  unfold hash_from_bytes. destruct (zlen h =? hash_size ContextHash)%Z; [|done]. by intros [= <-].
Qed.
End Facts.
