(* ===== verification/ContextFfi.v ===== *)
(** * The context as OCaml sees it ([new_context/src/ffi.rs])

    The functions exported to OCaml: each borrows the values behind its handles,
    runs one operation of the index, of a context or of a working tree, and turns
    errors into their text.  Handles of contexts and trees are values; the handle of
    a walker is shared by its copies, so walkers live in a table.  The repository
    that [tezedge_index_init] makes is also installed for the context service. *)

From Stdlib Require Import ZArith Lia List Bool Ascii String.
From stdpp Require Import base option list numbers strings gmap.
From S2P Require Import Prelude Spsc CryptoHash ContextStore ContextGc ContextHash OrdMapFacts WorkingTree ContextContent ContextRep ContextEdit ContextWalk TezedgeContext ContextSpec ContextRefine ApiTypes ProtocolService.

Set Warnings "-register-all".
Local Open Scope string_scope.
Local Open Scope list_scope.

(** ** The installed repository *)
Definition set_context_index {R} (index : R) (g : ContextRepository R)
  : result TezedgeIndexError (ContextRepository R) :=
  if lock_poisoned g then Err TezedgeLockPoisonError else Ok (mkRepository (Some index) false).

(** [initialize] is [initialize_tezedge_index] with its error as text. *)
Definition tezedge_index_init {R C} (initialize : C -> result string R) (configuration : C)
  (g : ContextRepository R) : result string R * ContextRepository R :=
  match initialize configuration with
  | Ok index =>
      match set_context_index index g with
      | Err TezedgeLockPoisonError => (Err "LockPoisonError", g)
      | Ok g => (Ok index, g)
      end
  | Err e => (Err e, g)
  end.

(** [TreeKind]. *)
Inductive TreeKind : Type := KindTree | KindValue.

(** [n as usize] of an [i64]. *)
Definition as_usize (n : Z) : Z := uwrap 64 n.

Section Exports.
Context `{OrdMapCrate, BincodeCrate, DefaultHasher, Blake2Crate, Leb128Crate} (pfuel fuel : nat).
(** The [Debug] forms of the errors. *)
Context (debug : ContextError -> string) (debug_merkle : MerkleError -> string).

(** The index with its repository, and the walkers OCaml holds handles of. *)
Record FfiState : Type := mkFfi { st : St; walkers : list Walker.t }.
Definition F (A : Type) : Type := FfiState -> result string A * FfiState.

Definition on_context_error {A} (m : M ContextError A) : F A := fun f =>
  let (r, s) := m (st f) in (map_err debug r, mkFfi s (walkers f)).
Definition on_merkle_error {A} (m : M MerkleError A) : F A := fun f =>
  let (r, s) := m (st f) in (map_err debug_merkle r, mkFfi s (walkers f)).

(** *** Index *)
Definition tezedge_index_exists (context_hash : bytes) : F bool :=
  on_context_error (Index.exists_commit context_hash).
Definition tezedge_index_checkout (context_hash : bytes) : F (option TezedgeContext) :=
  on_context_error (Index.checkout context_hash).
(** Closing does nothing: the repository lives as long as its handles. *)
Definition tezedge_index_close : F unit := fun f => (Ok tt, f).
(** Only the first block of a cycle does something. *)
Definition tezedge_index_block_applied (cycle_position : option Z) : F unit := fun f =>
  match cycle_position with
  | Some 0 =>
      let (r, s) := Index.cycle_started (st f) in
      (map_err (fun err => ("BlockApplied->CycleStarted: " ++ debug err)%string) r, mkFfi s (walkers f))
  | _ => (Ok tt, f)
  end.

(** *** Contexts *)
Definition tezedge_context_commit (date : Z) (message author : bytes) (context : TezedgeContext) : F bytes :=
  on_context_error (Ctx.commit pfuel fuel author message date context).
Definition tezedge_context_hash (date : Z) (message author : bytes) (context : TezedgeContext) : F bytes :=
  on_context_error (Ctx.hash pfuel fuel author message date context).
Definition tezedge_context_mem (context : TezedgeContext) (key : ContextKey) : F bool :=
  on_context_error (Ctx.mem key context).
Definition tezedge_context_empty : F TezedgeContext := on_context_error (Ctx.new None None).
Definition tezedge_context_mem_tree (context : TezedgeContext) (key : ContextKey) : F bool :=
  on_context_error (Ctx.mem_tree key context).
Definition tezedge_context_find (context : TezedgeContext) (key : ContextKey) : F (option ContextValue) :=
  on_context_error (Ctx.find key context).
Definition tezedge_context_find_tree (context : TezedgeContext) (key : ContextKey) : F (option WorkingTree) :=
  on_context_error (Ctx.find_tree key context).
Definition tezedge_context_add (context : TezedgeContext) (key : ContextKey) (value : ContextValue)
  : F TezedgeContext := on_context_error (Ctx.add key value context).
Definition tezedge_context_add_tree (context : TezedgeContext) (key : ContextKey) (tree : WorkingTree)
  : F TezedgeContext := on_context_error (Ctx.add_tree key tree context).
Definition tezedge_context_remove (context : TezedgeContext) (key : ContextKey) : F TezedgeContext :=
  on_context_error (Ctx.delete key context).
Definition tezedge_context_list (context : TezedgeContext) (offset length : option Z) (key : ContextKey)
  : F (list (string * WorkingTree)) :=
  on_context_error (Ctx.list_children (as_usize <$> offset) (as_usize <$> length) key context).
Definition tezedge_context_get_tree (context : TezedgeContext) : WorkingTree := ctx_tree context.
(** The clone keeps its id: no new one is taken. *)
Definition tezedge_context_set_tree (context : TezedgeContext) (tree : WorkingTree) : TezedgeContext :=
  mkContext (parent_commit context) (tree_id context) (tree_id_generator context) tree.

(** *** Trees *)
Definition tezedge_tree_hash (tree : WorkingTree) : F bytes := fun f =>
  let (r, f) := on_merkle_error (WT.hash pfuel fuel tree) f in
  (h ← r; map_err (fun _ => "InvalidSize") (hash_from_bytes ContextHash h), f).
Definition tezedge_tree_mem (tree : WorkingTree) (key : ContextKey) : F bool :=
  on_merkle_error (WT.mem key tree).
Definition tezedge_tree_empty : WorkingTree := WTree om_new.
Definition tezedge_tree_to_value (tree : WorkingTree) : option ContextValue := WT.get_value tree.
Definition tezedge_tree_of_value (value : ContextValue) : WorkingTree := WValue value.
Definition tezedge_tree_is_empty (tree : WorkingTree) : bool := WT.is_empty tree.
Definition tezedge_tree_equal (tree1 tree2 : WorkingTree) : F bool :=
  on_merkle_error (WT.equal pfuel fuel tree1 tree2).
Definition tezedge_tree_kind (tree : WorkingTree) : TreeKind :=
  match WT.kind tree with Leaf => KindValue | NonLeaf => KindTree end.
Definition tezedge_tree_mem_tree (tree : WorkingTree) (key : ContextKey) : F bool :=
  on_merkle_error (WT.mem_tree key tree).
Definition tezedge_tree_find (tree : WorkingTree) (key : ContextKey) : F (option ContextValue) :=
  on_merkle_error (WT.find key tree).
Definition tezedge_tree_find_tree (tree : WorkingTree) (key : ContextKey) : F (option WorkingTree) :=
  on_merkle_error (WT.find_tree key tree).
Definition tezedge_tree_add (tree : WorkingTree) (key : ContextKey) (value : ContextValue) : F WorkingTree :=
  on_merkle_error (WT.add key value tree).
Definition tezedge_tree_add_tree (tree : WorkingTree) (key : ContextKey) (new_tree : WorkingTree)
  : F WorkingTree := on_merkle_error (WT.add_tree key new_tree tree).
Definition tezedge_tree_remove (tree : WorkingTree) (key : ContextKey) : F WorkingTree :=
  on_merkle_error (WT.delete key tree).
Definition tezedge_tree_list (tree : WorkingTree) (offset length : option Z) (key : ContextKey)
  : F (list (string * WorkingTree)) :=
  on_merkle_error (WT.list_children (as_usize <$> offset) (as_usize <$> length) key tree).

(** *** Walkers: a handle is a position of the table.

    Advancing a walker has no error of its own: [Err] stands for a search for the
    next item that takes more than [fuel] steps of the iterator ([walkers_fold]:
    a fold whose tree has fewer steps never gets it). *)
Definition tezedge_tree_walker_make (tree : WorkingTree) (depth : option FoldDepth) (key : ContextKey)
  : F nat := fun f =>
  match on_merkle_error (fold_iter depth key tree) f with
  | (Ok w, f) => (Ok (length (walkers f)), mkFfi (st f) (walkers f ++ [w]))
  | (Err e, f) => (Err e, f)
  end.
Definition tezedge_tree_walker_next (walker : nat) : F (option (ContextKey * WorkingTree)) := fun f =>
  match walkers f !! walker with
  | Some w =>
      match on_merkle_error (Walker.next fuel w) f with
      | (Ok (item, w), f) => (Ok item, mkFfi (st f) (<[walker := w]> (walkers f)))
      | (Err e, f) => (Err e, f)
      end
  | None => (Ok None, f)
  end.

(** ** Several folds at once

    OCaml may advance the walkers it holds in any order; [asks] is such a sequence
    of calls, each naming a handle. *)
Fixpoint asks (handles : list nat) : F (list (option (ContextKey * WorkingTree))) := fun f =>
  match handles with
  | [] => (Ok [], f)
  | i :: handles =>
      match tezedge_tree_walker_next i f with
      | (Ok a, f) => let (rest, f) := asks handles f in (cons a <$> rest, f)
      | (Err e, f) => (Err e, f)
      end
  end.

(** What the calls should answer: each handle has a list of items of its own. *)
Fixpoint deal (handles : list nat) (specs : list (list item)) : list (option item) * list (list item) :=
  match handles with
  | [] => ([], specs)
  | i :: handles =>
      let items := default [] (specs !! i) in
      let (answers, specs) := deal handles (<[i := tl items]> specs) in
      (hd_error items :: answers, specs)
  end.

Definition walker_rep (W : world) (w : Walker.t) (items : list item) : Prop :=
  exists xs n, stack_rep (Walker.depth w) W xs (Walker.stack w) items n /\ (n < fuel)%nat.

(** A state of the index in which the walkers stand for what is left of their folds. *)
Definition walkers_ok (W : world) (f : FfiState) (specs : list (list item)) : Prop :=
  inv pfuel W (st f) /\ Forall2 (walker_rep W) (walkers f) specs.

Definition answer_rep (W : world) (o : option item) (a : option (ContextKey * WorkingTree)) : Prop :=
  match o, a with
  | Some it, Some kw => item_rep W it kw
  | None, None => True
  | _, _ => False
  end.

Lemma walker_rep_mono W W' w items : W ⊑w W' -> walker_rep W w items -> walker_rep W' w items.
Proof. intros He (xs & n & Hs & Hn). exists xs, n. split; [by eapply stack_rep_mono|done]. Qed.

Lemma answer_rep_mono W W' o a : W ⊑w W' -> answer_rep W o a -> answer_rep W' o a.
Proof.
  intros He. destruct o, a; try done. intros [Hk Hc]. split; [done|by eapply wt_content_mono].
Qed.

(** A call on a handle answers the next item of its fold and leaves the others alone. *)
Lemma next_answers W f specs i items : walkers_ok W f specs -> specs !! i = Some items ->
  exists W' a f', tezedge_tree_walker_next i f = (Ok a, f') /\ W ⊑w W' /\
    walkers_ok W' f' (<[i := tl items]> specs) /\ answer_rep W' (hd_error items) a.
Proof.
  intros [Hi Hws] Hit. destruct (Forall2_lookup_r _ _ _ _ _ Hws Hit) as (w & Hw & xs & n & Hs & Hn).
  destruct w as [dp lvs]. cbn in Hs.
  destruct (yields_run _ _ _ _ _ (next_yields pfuel dp fuel _ _ _ _ _ _ Hi Hs Hn))
    as (W' & [a w'] & s' & E & He & Hi' & Hr).
  exists W', a, (mkFfi s' (<[i := w']> (walkers f))). split.
  { unfold tezedge_tree_walker_next, on_merkle_error. rewrite Hw, E. done. }
  split; [done|].
  assert (Hrest : Forall2 (walker_rep W') (walkers f) specs).
  { eapply Forall2_impl; [exact Hws|]. intros. by eapply walker_rep_mono. }
  cbn in Hr. destruct items as [|it items], a as [[k t]|]; try done; cbn.
  - subst w'. split; [|done]. split; [done|]. apply Forall2_insert; [done|].
    exists [], 0%nat. cbn. split; [done|lia].
  - destruct Hr as (-> & Hc & Hd & xs' & n' & Hs' & Hlt). split; [|by split].
    split; [done|]. apply Forall2_insert; [done|]. exists xs', n'. rewrite Hd. split; [done|lia].
Qed.

(** A new walker stands for the whole fold. *)
Lemma make_answers W f specs tree l depth key :
  walkers_ok W f specs -> wt_rep W l tree -> (steps (CDir (raw l key)) <= fuel)%nat ->
  exists W' f', tezedge_tree_walker_make tree depth key f = (Ok (length specs), f') /\ W ⊑w W' /\
    walkers_ok W' f' (specs ++ [fold_spec depth l key]).
Proof.
  intros [Hi Hws] Ht Hf. pose proof (Forall2_length _ _ _ Hws) as Hlen.
  destruct (find_tree_answers pfuel W (st f) l tree key Hi Ht) as (W' & He & Hi' & Hm).
  unfold tezedge_tree_walker_make, on_merkle_error, fold_iter, mbind, M_bind.
  unfold find_tree_spec in Hm. destruct (WT.find_tree key tree (st f)) as [[o|] s'] eqn:E; [|done].
  cbn in Hm, Hi' |- *. exists W'. eexists. rewrite Hlen. split; [reflexivity|]. split; [done|].
  split; [done|]. cbn. apply Forall2_app.
  { eapply Forall2_impl; [exact Hws|]. intros. by eapply walker_rep_mono. }
  apply Forall2_cons. split; [|constructor]. unfold fold_spec.
  destruct (raw l key) as [|kc d] eqn:Ed, o as [t|]; try done.
  - exists [], 0%nat. split; [done|]. cbn in Hf. lia.
  - destruct (new_level_rep depth W' [] _ _ 0 Hm) as (x & Hx & Ei & Es).
    exists [x], (level_steps x (Walker.new_level [] t 0 depth)). split; [|lia].
    cbn [Walker.stack Walker.depth Walker.new]. split; [done|]. exists [], 0%nat. split; [done|].
    rewrite Ei, app_nil_r. split; [done|]. by rewrite Nat.add_0_r.
Qed.

Lemma asks_answer handles : forall W f specs, walkers_ok W f specs ->
  Forall (fun i => (i < length specs)%nat) handles ->
  exists W' answers f', asks handles f = (Ok answers, f') /\ W ⊑w W' /\
    walkers_ok W' f' (deal handles specs).2 /\
    Forall2 (answer_rep W') (deal handles specs).1 answers.
Proof.
  induction handles as [|i handles IH]; intros W f specs Hok Hh.
  { exists W, [], f. split; [done|]. split; [reflexivity|]. split; [done|constructor]. }
  apply Forall_cons in Hh as [Hi Hh]. apply lookup_lt_is_Some_2 in Hi as [items Hit].
  destruct (next_answers W f specs i items Hok Hit) as (W1 & a & f1 & E & He & Hok1 & Ha).
  destruct (IH W1 f1 (<[i := tl items]> specs) Hok1) as (W2 & answers & f2 & E2 & He2 & Hok2 & Ha2).
  { by rewrite length_insert. }
  exists W2, (a :: answers), f2. cbn [asks deal]. rewrite E, E2, Hit. cbn [default from_option].
  cbn [id]. destruct (deal handles _) as [expected specs'] in Hok2, Ha2 |- *. cbn [fst snd] in *.
  split; [done|]. split; [by etrans|]. split; [done|]. constructor; [|done]. by eapply answer_rep_mono.
Qed.

(** (C21) Folds through the exported walkers.  In any state of the index in which
    the walkers OCaml holds stand for folds, [tezedge_tree_walker_make] on a tree
    makes a new handle for the fold of the tree below the key, and whatever
    sequence of [tezedge_tree_walker_next] calls on the old and the new handles
    follows, each call answers the next item of the fold of its own handle - the
    directory and everything below it in the order of their names, kept by the
    depth, with its path and a tree of its content - and the end once there is
    none, although all of them load entries into one index.  No call fails, as
    long as the iterator takes fewer than [fuel] steps for the fold. *)
Theorem walkers_fold W f specs tree l depth key handles :
  walkers_ok W f specs -> wt_rep W l tree -> (steps (CDir (raw l key)) <= fuel)%nat ->
  Forall (fun i => (i <= length specs)%nat) handles ->
  exists W' f1 answers f2,
    tezedge_tree_walker_make tree depth key f = (Ok (length specs), f1) /\
    asks handles f1 = (Ok answers, f2) /\
    W ⊑w W' /\ walkers_ok W' f2 (deal handles (specs ++ [fold_spec depth l key])).2 /\
    Forall2 (answer_rep W') (deal handles (specs ++ [fold_spec depth l key])).1 answers.
Proof.
  intros Hok Ht Hf Hh. destruct (make_answers W f specs tree l depth key Hok Ht Hf) as (W1 & f1 & E & He & Hok1).
  destruct (asks_answer handles W1 f1 _ Hok1) as (W2 & answers & f2 & E2 & He2 & Hok2 & Ha).
  { eapply Forall_impl; [exact Hh|]. intros i Hi. cbn in Hi |- *. rewrite length_app. cbn. lia. }
  exists W2, f1, answers, f2. split; [done|]. split; [done|]. split; [by etrans|]. done.
Qed.

(** A block in the middle of a cycle changes nothing; the first one starts a cycle. *)
Lemma block_applied_spec cycle_position f :
  tezedge_index_block_applied cycle_position f =
    if decide (cycle_position = Some 0)
    then (Ok tt, mkFfi (set_repo (Mem.new_cycle_started (repo (st f))) (st f)) (walkers f))
    else (Ok tt, f).
Proof.
  unfold tezedge_index_block_applied. destruct cycle_position as [[|p|p]|]; try done.
Qed.

(** Setting the tree of a context and taking it back. *)
Lemma get_set_tree context tree :
  tezedge_context_get_tree (tezedge_context_set_tree context tree) = tree.
Proof. done. Qed.
End Exports.

(** The repository of the last successful initialisation is the installed one. *)
Lemma index_init_installs {R C} (initialize : C -> result string R) c g r g' :
  tezedge_index_init initialize c g = (Ok r, g') -> get_context_index g' = Ok (Some r).
Proof.
  unfold tezedge_index_init. destruct (initialize c) as [i|]; [|done].
  unfold set_context_index. destruct (lock_poisoned g); [done|]. by intros [= <- <-].
Qed.

(** ** Example

    Two folds over the same tree, one of them to the first level only, advanced
    in turns. *)
Section Example_.
Abbreviation quiet := (fun _ => EmptyString).

(** A state with a tree of one value at [a/x]. *)
Lemma demo_tree :
  exists W s t, inv 3 W s /\ wt_rep W [("a", CDir [("x", CBlob [7])])] t.
Proof.
  destruct (first_sim 3 false) as (W & [Hi Hc _]).
  apply Forall2_cons_inv_l in Hc as (c & cs & [Ht _] & _ & _).
  destruct (add_answers 3 W _ [] (ctx_tree c) ["a"; "x"] [7] Hi Ht) as (W' & _ & Hi' & Hr).
  destruct (WT.add ["a"; "x"] [7] (ctx_tree c) _) as [[t|] s']; [|done].
  exists W', s', t. done.
Qed.

Lemma walkers_fold_witness :
  exists (f1 : FfiState) t f2 f3 answers,
    tezedge_tree_walker_make quiet t (Some (DLe 1)) [] f1 = (Ok 1%nat, f2) /\
    asks 20 quiet [0; 1; 0; 1; 1; 0; 0]%nat f2 = (Ok answers, f3) /\
    map (option_map fst) answers =
      [Some []; Some []; Some ["a"]; Some ["a"]; None; Some ["a"; "x"]; None].
Proof.
  destruct demo_tree as (W & s & t & Hi & Ht).
  assert (Hok : walkers_ok 3 20 W (mkFfi s []) []) by (split; [exact Hi|constructor]).
  destruct (make_answers 3 20 quiet W (mkFfi s []) [] t _ None [] Hok Ht) as (W1 & f1 & _ & He & Hok1);
    [vm_compute; lia|].
  destruct (walkers_fold 3 20 quiet W1 f1 _ t [("a", CDir [("x", CBlob [7])])] (Some (DLe 1)) [] [0; 1; 0; 1; 1; 0; 0]%nat Hok1)
    as (W2 & f2 & answers & f3 & E1 & E2 & _ & _ & Ha).
  - exact (tree_rep_mono _ _ _ _ He Ht).
  - vm_compute; lia.
  - repeat constructor.
  - exists f1, t, f2, f3, answers. split; [exact E1|]. split; [exact E2|].
    set (d := CDir [("a", CDir [("x", CBlob [7])])]) in Ha.
    change (Forall2 (answer_rep W2)
      [Some ([], d); Some ([], d); Some (["a"], CDir [("x", CBlob [7])]);
       Some (["a"], CDir [("x", CBlob [7])]); None; Some (["a"; "x"], CBlob [7]); None] answers) in Ha.
    repeat (apply Forall2_cons_inv_l in Ha as (?a & ?l & ?Hr & Ha & ->)).
    apply Forall2_nil_inv_l in Ha as ->.
    repeat match goal with H : answer_rep _ _ ?a |- _ => destruct a as [[? ?]|]; cbn in H; try done end.
    repeat match goal with H : item_rep _ _ _ |- _ => destruct H as [H _]; cbn in H end.
    subst. reflexivity.
Defined.
End Example_.
