(* ===== verification/RpcFuzz.v ===== *)
(** * The RPC fuzzer ([rpc_fuzzer/src/bin/rpc_fuzzer.rs])

    Workers send random requests to the RPC server of a node: the paths and the
    schemas of the bodies come from OpenAPI documents, the arguments from a random
    number generator and from the hashes of earlier replies.  Texts are their UTF-8
    bytes.  A random function is a computation over the generator that gives a value
    or panics; the recursion of [random_json] is bounded only by its draws and runs
    on fuel.  The HTTP client, the parsers of JSON and of schemas and the order of a
    [HashSet] are classes; printing and sleeping are left out. *)

From Stdlib Require Import ZArith Lia List Bool String.
From stdpp Require Import base option list numbers strings gmap pretty.
From S2P Require Import Prelude Extern BitUtils CryptoHash Nonce Types Serializer BinaryWriter WriterSpec NomCrate NomReader DeriveMake Derive RoundTrip DerivedCodec MerklePath Messages BinaryMessage ExternRef Zarith ChunkStream PublicKeys MessageFits MessageTypes Generator.

Set Warnings "-register-all".

(** ** Third-party data *)

(** [serde_json::Value]; a number is its text, an object its entries in the order of
    iteration. *)
Inductive Value : Type :=
| VNull
| VBool (b : bool)
| VNumber (text : bytes)
| VString (s : bytes)
| VArray (values : list Value)
| VObject (dict : list (bytes * Value)).

(** [serde_json_schema::property]: the variants the fuzzer matches on, with the
    properties of an object in the order of iteration. *)
Inductive PropertyInstance : Type :=
| PNull
| PBoolean
| PInteger
| PNumber
| PArray (items : PropertyInstance)
| PObject (properties : list (bytes * Property))
| PString
with Property : Type :=
| PropertyValue (p : PropertyInstance)
| PropertyRef (reference : bytes).

(** [serde_json::from_slice] and [Value::to_string]. *)
Class SerdeJson : Type := {
  json_from_slice : bytes -> option Value;
  json_to_string : Value -> bytes;
}.

(** [serde_json_schema::Schema]. *)
Class SchemaCrate : Type := {
  Schema : Type;
  schema_try_from : bytes -> option Schema;
  specification : Schema -> option PropertyInstance;
}.

(** A [HashSet] is visited once, in an order of its own. *)
Class SetOrder : Type := {
  set_iter : gset bytes -> list bytes;
  set_iter_elements s x : x ∈ set_iter s <-> x ∈ s;
}.

(** ** Data *)
Inductive Method : Type := GET | PATCH | POST | PUT | DELETE.

#[export] Instance Method_eq_dec : EqDecision Method.
Proof. solve_decision. Defined.

Inductive ParamSchema : Type := SchemaString | SchemaInteger | SchemaBoolean.

Record Param : Type := mkParam { param_name : bytes; param_schema : ParamSchema; required : bool }.

Section Requests.
Context `{SchemaCrate}.

Record PathMethod : Type := mkPathMethod {
  method : Method;
  path_params : list Param;
  query_params : list Param;
  request_body : option Schema;
}.

Record Path : Type := mkPath { path_name : bytes; methods : list PathMethod }.

(** ** Reading the schemas

    [unwrap] and a missing key of a [Map] panic; a missing key of a [Value] is null. *)
Definition unwrap_opt {A} (o : option A) : result stop A :=
  match o with Some a => Ok a | None => Err StopPanicked end.

Definition as_str (v : Value) : option bytes := match v with VString s => Some s | _ => None end.
Definition as_array (v : Value) : option (list Value) :=
  match v with VArray l => Some l | _ => None end.
Definition as_object (v : Value) : option (list (bytes * Value)) :=
  match v with VObject d => Some d | _ => None end.

Fixpoint map_get (k : bytes) (d : list (bytes * Value)) : option Value :=
  match d with
  | [] => None
  | (k', v) :: d => if bool_decide (k = k') then Some v else map_get k d
  end.
Definition map_index (k : string) (d : list (bytes * Value)) : result stop Value :=
  unwrap_opt (map_get (lit k) d).
Definition value_index (k : string) (v : Value) : Value :=
  match v with VObject d => default VNull (map_get (lit k) d) | _ => VNull end.

Definition parse_parameter (param : Value) : result stop Param :=
  o ← unwrap_opt (as_object (value_index "schema" param));
  t ← map_index "type" o;
  t ← unwrap_opt (as_str t);
  schema ← (if bool_decide (t = lit "string") then Ok SchemaString
            else if bool_decide (t = lit "integer") then Ok SchemaInteger
            else if bool_decide (t = lit "boolean") then Ok SchemaBoolean
            else Err StopPanicked);
  let required := bool_decide (as_str (value_index "required" param) = Some (lit "true")) in
  name ← unwrap_opt (as_str (value_index "name" param));
  Ok (mkParam name schema required).

(** The loop over ["parameters"]. *)
Fixpoint parse_parameters (l : list Value) (path_params query_params : list Param)
  : result stop (list Param * list Param) :=
  match l with
  | [] => Ok (path_params, query_params)
  | param :: l =>
      place ← unwrap_opt (as_str (value_index "in" param));
      if bool_decide (place = lit "path") then
        p ← parse_parameter param; parse_parameters l (path_params ++ [p]) query_params
      else if bool_decide (place = lit "query") then
        p ← parse_parameter param; parse_parameters l path_params (query_params ++ [p])
      else Err StopPanicked
  end.

(** The part for ["requestBody"]. *)
Definition parse_body `{SerdeJson} (meth_info : list (bytes * Value)) : result stop (option Schema) :=
  match map_get (lit "requestBody") meth_info with
  | Some (VObject req_body) =>
      content ← map_index "content" req_body;
      match as_object content with
      | Some content =>
          app ← map_index "application/json" content;
          match as_object app with
          | Some app =>
              schema ← map_index "schema" app;
              Ok (schema_try_from (json_to_string schema))
          | None => Ok None
          end
      | None => Ok None
      end
  | _ => Ok None
  end.

Definition method_of (meth : bytes) : result stop Method :=
  if bool_decide (meth = lit "get") then Ok GET
  else if bool_decide (meth = lit "patch") then Ok PATCH
  else if bool_decide (meth = lit "post") then Ok POST
  else if bool_decide (meth = lit "put") then Ok PUT
  else if bool_decide (meth = lit "delete") then Ok DELETE
  else Err StopPanicked.

Definition parse_method `{SerdeJson} (meth : bytes) (value : Value) : result stop PathMethod :=
  m ← method_of meth;
  meth_info ← unwrap_opt (as_object value);
  params ← match map_get (lit "parameters") meth_info with
           | Some ps => l ← unwrap_opt (as_array ps); parse_parameters l [] []
           | None => Ok ([], [])
           end;
  body ← parse_body meth_info;
  Ok (mkPathMethod m params.1 params.2 body).

Fixpoint parse_methods `{SerdeJson} (l : list (bytes * Value)) : result stop (list PathMethod) :=
  match l with
  | [] => Ok []
  | (meth, value) :: l => m ← parse_method meth value; ms ← parse_methods l; Ok (m :: ms)
  end.

Definition parse_path `{SerdeJson} (path : bytes) (value : Value) : result stop Path :=
  methods_of ← unwrap_opt (as_object value);
  ms ← parse_methods methods_of;
  Ok (mkPath path ms).

(** The two loops of [main] over the documents of a directory; those of protocols
    get a prefix. *)
Fixpoint parse_paths `{SerdeJson} (prefix : bytes) (l : list (bytes * Value)) : result stop (list Path) :=
  match l with
  | [] => Ok []
  | (path, value) :: l => p ← parse_path (prefix ++ path) value; ps ← parse_paths prefix l; Ok (p :: ps)
  end.
Fixpoint load_schemas `{SerdeJson} (prefix : bytes) (documents : list Value) : result stop (list Path) :=
  match documents with
  | [] => Ok []
  | schema :: documents =>
      o ← unwrap_opt (as_object schema);
      paths ← map_index "paths" o;
      paths ← unwrap_opt (as_object paths);
      ps ← parse_paths prefix paths;
      qs ← load_schemas prefix documents;
      Ok (ps ++ qs)
  end.
Definition PROTOCOL_PREFIX : bytes := lit "/chains/{chain_id}/blocks/{block_id}".
Definition load_paths `{SerdeJson} (shell_schemas protocol_schemas : list Value) : result stop (list Path) :=
  ps ← load_schemas [] shell_schemas;
  qs ← load_schemas PROTOCOL_PREFIX protocol_schemas;
  Ok (ps ++ qs).

(** The seed of the worker [n], in a release build. *)
Definition worker_seed (seed n : Z) : Z := uwrap 64 (seed * n).

(** ** Replies *)
Record Hashes : Type := mkHashes {
  chains : gset bytes;
  branches : gset bytes;
  blocks_seen : gset bytes;
}.

Definition add_chain (x : bytes) (h : Hashes) : Hashes :=
  mkHashes ({[x]} ∪ chains h) (branches h) (blocks_seen h).
Definition add_branch (x : bytes) (h : Hashes) : Hashes :=
  mkHashes (chains h) ({[x]} ∪ branches h) (blocks_seen h).
Definition add_block (x : bytes) (h : Hashes) : Hashes :=
  mkHashes (chains h) (branches h) ({[x]} ∪ blocks_seen h).

(** What a key of a reply stands for. *)
Definition collector (k : bytes) : option (bytes -> Hashes -> Hashes) :=
  if bool_decide (k = lit "branch") then Some add_branch
  else if bool_decide (k = lit "chain_id") then Some add_chain
  else if bool_decide (k = lit "block") then Some add_block
  else if bool_decide (k = lit "block_hash") then Some add_block
  else if bool_decide (k = lit "predecessor") then Some add_block
  else None.

Fixpoint collect_reply_data (value : Value) (h : Hashes) : result stop Hashes :=
  match value with
  | VArray values =>
      (fix over l h := match l with
       | [] => Ok h
       | v :: l => h ← collect_reply_data v h; over l h
       end) values h
  | VObject dict =>
      (fix over l h := match l with
       | [] => Ok h
       | (k, v) :: l =>
           h ← match collector k with
               | Some add => x ← unwrap_opt (as_str v); Ok (add x h)
               | None => collect_reply_data v h
               end;
           over l h
       end) dict h
  | _ => Ok h
  end.
End Requests.

(** ** Random texts *)
Section Random.
Context `{RandValues, SetOrder}.

Definition R (A : Type) : Type := rng -> result stop (A * rng).

#[global] Instance R_ret : MRet R := fun A a r => Ok (a, r).
#[global] Instance R_bind : MBind R := fun A B f m r =>
  match m r with Ok (a, r) => f a r | Err e => Err e end.

#[global] Instance R_fmap : FMap R := fun A B f m r =>
  match m r with Ok (a, r) => Ok (f a, r) | Err e => Err e end.

Definition stopped {A} (e : stop) : R A := fun _ => Err e.
Definition lift {A} (f : rng -> option (A * rng)) : R A := fun r =>
  match f r with Some ar => Ok ar | None => Err StopPanicked end.
Definition range (lo hi : Z) : R Z := lift (rng_range lo hi).
Definition coin (p : f64) : R bool := lift (rng_bool p).

(** [l[rng.gen_range(0..l.len())]]. *)
Definition choose {A} (l : list A) : R A :=
  i ← range 0 (zlen l);
  match l !! Z.to_nat i with Some a => mret a | None => stopped StopPanicked end.

Fixpoint repeat_draw {A} (n : nat) (g : R A) : R (list A) :=
  match n with
  | O => mret []
  | S n => a ← g; l ← repeat_draw n g; mret (a :: l)
  end.

Definition random_len (min_size max_size : Z) : R Z := range min_size max_size.

(** The levels at which protocols change. *)
Definition random_level : R Z :=
  k ← range 0 11;
  match k with
  | 0 => mret 0
  | 1 => mret 1
  | 2 => range 2 28082
  | 3 => range 28083 204761
  | 4 => range 204762 458752
  | 5 => range 458753 655360
  | 6 => range 655361 851968
  | 7 => range 851969 1212416
  | 8 => range 1212417 1343488
  | 9 => range 1343489 1466367
  | 10 => range 1466368 1589247
  | _ => lift (fun r => Some (rng_i64 r))
  end.

Definition random_number (size : Z) : R bytes :=
  b ← coin p_0_5;
  rnum ← (if b : bool then random_level else lift (fun r => Some (rng_i64 r)));
  mret (take (Z.to_nat size) (lit (pretty rnum))).

Definition CHARSET : bytes := lit "0123456789ABCDEFGHJKLMNPQRSTUVWXYZabcdefghijkmnopqrstuvwxyz".

Definition random_string (size : Z) : R bytes :=
  b ← coin p_0_5;
  if b : bool then repeat_draw (Z.to_nat size) (choose CHARSET)
  else
    chars ← repeat_draw (Z.to_nat size) (lift (fun r => Some (rng_char r)));
    mret (truncate_below (Z.to_nat size) (concat (map utf8_char chars))).

(** One of the three loops over hashes: each is taken with probability 0.1. *)
Fixpoint pick (l : list bytes) : R (option bytes) :=
  match l with
  | [] => mret None
  | x :: l => b ← coin p_0_1; if b : bool then mret (Some x) else pick l
  end.
Definition pick_opt (s : option (gset bytes)) : R (option bytes) :=
  match s with Some s => pick (set_iter s) | None => mret None end.

Definition CONSTANTS : list bytes :=
  map lit ["main"; "test"; "head"; "genesis"; "1"; "cycle"; "voting-period"].
Definition OPERATORS : list bytes := map lit ["~"; "-"; "+"].

Definition random_arg (chains branches blocks : option (gset bytes)) : R bytes :=
  size ← random_len 1 30;
  c ← pick_opt chains;
  match c with Some x => mret x | None =>
  b ← pick_opt branches;
  match b with Some x => mret x | None =>
  k ← pick_opt blocks;
  match k with Some x => mret x | None =>
  constant ← coin p_0_5;
  if constant : bool then
    hc_str ← choose CONSTANTS;
    relative ← coin p_0_5;
    if relative : bool then
      hc_op ← choose OPERATORS;
      n ← random_number size;
      mret (hc_str ++ hc_op ++ n)
    else mret hc_str
  else random_number size
  end end end.

(** ** Random bodies *)
Definition quote : bytes := [34].
Definition quoted (s : bytes) : bytes := quote ++ s ++ quote.

(** The loop of [random_json_list]. *)
Fixpoint list_loop (n : nat) (element : Z -> R bytes) (remaining : Z) (ret : bytes) : R bytes :=
  match n with
  | O => stopped OutOfFuel
  | S n =>
      if remaining =? 0 then mret ret
      else
        element_size ← range 0 (remaining + 1);
        let remaining := remaining - element_size in
        e ← element element_size;
        list_loop n element remaining (ret ++ e ++ (if remaining =? 0 then [] else lit ","))
  end.

(** The loop of [random_json_dict]. *)
Fixpoint dict_loop (n : nat) (element : Z -> R bytes) (remaining : Z) (ret : bytes) : R bytes :=
  match n with
  | O => stopped OutOfFuel
  | S n =>
      if remaining =? 0 then mret ret
      else
        key_size ← range 0 (remaining + 1);
        let remaining := remaining - key_size in
        key ← random_string key_size;
        let ret := ret ++ quoted key in
        if remaining =? 0 then mret (ret ++ lit ": null")
        else
          element_size ← range 0 (remaining + 1);
          let remaining := remaining - element_size in
          e ← element element_size;
          dict_loop n element remaining (ret ++ lit ": " ++ e ++ (if remaining =? 0 then [] else lit ","))
  end.

(** The loop over the properties of an object. *)
Fixpoint object_loop (element : PropertyInstance -> R bytes) (properties : list (bytes * Property))
  (ret : bytes) : R bytes :=
  match properties with
  | [] => mret ret
  | (name, PropertyValue p) :: properties =>
      e ← element p;
      object_loop element properties (ret ++ name ++ quote ++ lit ": " ++ e ++ lit ",")
  | (name, PropertyRef reference) :: properties =>
      object_loop element properties (ret ++ name ++ reference ++ lit ",")
  end.

(** [ret.pop()]: the last character is a comma or a quote. *)
Definition close_object (ret : bytes) : bytes :=
  (if 1 <? zlen ret then removelast ret else ret) ++ lit "}".

Fixpoint random_json (n : nat) (prop : option PropertyInstance) (size : Z) : R bytes :=
  match n with
  | O => stopped OutOfFuel
  | S n =>
      let random_json_list prop :=
        ret ← list_loop n (random_json n prop) size (lit "["); mret (ret ++ lit "]") in
      match prop with
      | Some PNull => mret (lit "null")
      | Some PBoolean => b ← coin p_0_5; mret (if b : bool then lit "true" else lit "false")
      | Some (PInteger | PNumber) => quoted <$> random_number size
      | Some (PArray items) => random_json_list (Some items)
      | Some (PObject properties) =>
          close_object <$> object_loop (fun p => random_json n (Some p) size) properties (lit "{" ++ quote)
      | Some PString => quoted <$> random_string size
      | None =>
          k ← range 0 10;
          match k with
          | 0 => mret (lit "true")
          | 1 => mret (lit "false")
          | 2 => mret (lit "null")
          | 3 => quoted <$> random_number size
          | 4 => quoted <$> random_string size
          | 5 => random_json_list None
          | _ => ret ← dict_loop n (random_json n None) size (lit "{"); mret (ret ++ lit "}")
          end
      end
  end.

(** ** One request *)

(** [str::replace] of a pattern that is not empty: matches from left to right that
    do not overlap.  [skip] bytes belong to the last match. *)
Fixpoint replace_from (skip : nat) (pat rep s : bytes) : bytes :=
  match s with
  | [] => []
  | c :: s' =>
      match skip with
      | S skip => replace_from skip pat rep s'
      | O => if bool_decide (take (length pat) s = pat)
             then rep ++ replace_from (length pat - 1) pat rep s'
             else c :: replace_from 0 pat rep s'
      end
  end.
Definition replace (pat rep s : bytes) : bytes := replace_from 0 pat rep s.

Definition hole (name : bytes) : bytes := lit "{" ++ name ++ lit "}".

Fixpoint fill_path (h : Hashes) (params : list Param) (name : bytes) : R bytes :=
  match params with
  | [] => mret name
  | param :: params =>
      arg ← random_arg (Some (chains h)) (Some (branches h)) (Some (blocks_seen h));
      fill_path h params (replace (hole (param_name param)) arg name)
  end.

(** One pass over the parameters of the query. *)
Fixpoint add_query (h : Hashes) (params : list Param) (name_prefix : bytes * bytes) : R (bytes * bytes) :=
  match params with
  | [] => mret name_prefix
  | param :: params =>
      b ← coin p_0_5;
      if b : bool then
        let name := name_prefix.1 ++ name_prefix.2 ++ param_name param in
        v ← coin p_0_5;
        name ← (if v : bool then
                  arg ← random_arg (Some (chains h)) (Some (branches h)) (Some (blocks_seen h));
                  mret (name ++ lit "=" ++ arg)
                else mret name);
        add_query h params (name, lit "&")
      else add_query h params name_prefix
  end.
Fixpoint add_queries (n : nat) (h : Hashes) (params : list Param) (name_prefix : bytes * bytes)
  : R (bytes * bytes) :=
  match n with
  | O => mret name_prefix
  | S n => np ← add_query h params name_prefix; add_queries n h params np
  end.

Definition request_name {X : SchemaCrate} (h : Hashes) (path : Path) (m : PathMethod) : R bytes :=
  name ← fill_path h (path_params m) (path_name path);
  arg ← random_arg (Some (chains h)) None None;
  let name := replace (lit "{chain_id}") arg name in
  arg ← random_arg None None (Some (blocks_seen h));
  let name := replace (lit "{block_id}") arg name in
  count ← range 1 5;
  np ← add_queries (Z.to_nat count) h (query_params m) (name, lit "?");
  mret np.1.

Record Request : Type := mkRequest {
  req_method : Method;
  req_uri : bytes;
  content_type : option bytes;
  accept : option bytes;
  req_body : bytes;
}.

Definition random_header : R (option bytes) :=
  b ← coin p_0_5;
  if b : bool then Some <$> random_string 15 else mret None.

Definition has_body (m : Method) : bool := match m with PATCH | POST => true | _ => false end.

Definition random_body {X : SchemaCrate} (fuel : nat) (m : PathMethod) (size : Z) : R bytes :=
  if has_body (method m) then random_json fuel (s ← request_body m; specification s) size
  else mret [].

Definition random_request {X : SchemaCrate} (fuel : nat) (target : bytes) (paths : list Path)
  (h : Hashes) : R Request :=
  path ← choose paths;
  m ← choose (methods path);
  name ← request_name h path m;
  size ← random_len 0x500 0x5000;
  body ← random_body fuel m size;
  ct ← random_header;
  ac ← random_header;
  mret (mkRequest (method m) (lit "http://" ++ target ++ name) ct ac body).
End Random.

(** ** The worker *)

(** [hyper]: [Request::builder] keeps the first error, which [body] gives back; the
    answer to a request is a timeout, an error or a response with its body.  A
    header with a control character is refused. *)
Class HyperCrate : Type := {
  buildable : Request -> bool;
  build_header q x b : content_type q = Some x \/ accept q = Some x -> b ∈ x ->
    0 <= b < 32 \/ b = 127 -> b <> 9 -> buildable q = false;
}.

(** What reading a body gives within a second. *)
Inductive BodyOutcome : Type := BodyTimeout | BodyError | BodyBytes (b : bytes).
Inductive Exchange : Type := RequestTimeout | RequestError | Response (body : BodyOutcome).

Section Worker.
Context `{RandValues, SetOrder, SerdeJson, SchemaCrate, HyperCrate}.

(** The body is read as an [Option<Value>]: null is no value. *)
Definition recv_body (o : BodyOutcome) : option Value :=
  let of_bytes b :=
    if 0x1000 <? zlen b then None
    else match json_from_slice b with
         | Some VNull => None
         | v => v
         end in
  match o with
  | BodyTimeout => None
  | BodyError => of_bytes []
  | BodyBytes b => of_bytes b
  end.

Record WorkerState : Type := mkWorker { worker_rng : rng; hashes : Hashes }.

Definition no_hashes : Hashes := mkHashes ∅ ∅ ∅.
Definition start_worker (seed : Z) : WorkerState := mkWorker (seed_from_u64 seed) no_hashes.

(** One round of the loop, against a node that answers [answer]. *)
Definition worker_round (fuel : nat) (target : bytes) (paths : list Path)
  (answer : Request -> Exchange) (w : WorkerState) : result stop WorkerState :=
  qr ← random_request fuel target paths (hashes w) (worker_rng w);
  let '(q, r) := (qr : Request * rng) in
  if buildable q then
    match answer q with
    | Response o =>
        match recv_body o with
        | Some body => h ← collect_reply_data body (hashes w); Ok (mkWorker r h)
        | None => Ok (mkWorker r (hashes w))
        end
    | _ => Ok (mkWorker r (hashes w))
    end
  else Err StopPanicked.
End Worker.
