(* ===== verification/RpcFuzzFacts.v ===== *)
(** * What the RPC fuzzer sends and survives

    Total correctness of the random texts ([draws]), the paths of requests, the
    hashes collected from replies, a worker that keeps going, and four ways in which
    requests go wrong. *)

From Stdlib Require Import ZArith Lia List Bool String.
From stdpp Require Import base option list numbers strings gmap pretty.
From S2P Require Import Prelude Extern BitUtils CryptoHash Nonce Types Serializer BinaryWriter WriterSpec NomCrate NomReader DeriveMake Derive RoundTrip DerivedCodec MerklePath Messages BinaryMessage ExternRef Zarith ChunkStream PublicKeys MessageFits MessageTypes Generator GeneratorFacts RpcFuzz.

Set Warnings "-register-all".

(** ** Texts of numbers *)
Definition number_byte (b : Z) : Prop := b = 45 \/ 48 <= b <= 57.

Lemma lit_cons a s : lit (String a s) = Z.of_nat (Ascii.nat_of_ascii a) :: lit s.
Proof. done. Qed.

Lemma pretty_N_char_byte x : number_byte (Z.of_nat (Ascii.nat_of_ascii (pretty_N_char x))).
Proof. unfold number_byte, pretty_N_char. right. repeat case_match; by vm_compute. Qed.

Lemma pretty_N_go_bytes x s : Forall number_byte (lit s) -> Forall number_byte (lit (pretty_N_go x s)).
Proof.
  revert s. induction (N.lt_wf_0 x) as [x _ IH]; intros s Hs.
  destruct (decide (0 < x)%N) as [Hx|Hx].
  - rewrite pretty_N_go_step by done. apply IH; [by apply N.div_lt|].
    rewrite lit_cons. constructor; [apply pretty_N_char_byte|done].
  - assert (x = 0%N) as -> by lia. by rewrite pretty_N_go_0.
Qed.

Lemma pretty_Z_bytes (z : Z) : Forall number_byte (lit (pretty z)).
Proof.
  unfold pretty, pretty_Z. destruct z as [|p|p].
  - apply Forall_singleton. right. by vm_compute.
  - apply pretty_N_go_bytes. constructor.
  - change (lit ("-" +:+ pretty (N.pos p))) with (45 :: lit (pretty (N.pos p))).
    constructor; [by left|]. apply pretty_N_go_bytes. constructor.
Qed.

(** ** Computations that always give a value *)
Section Draws.
Context `{RandValues, SetOrder}.

Definition draws {A} (m : R A) (P : A -> Prop) : Prop := forall r, exists a r', m r = Ok (a, r') /\ P a.

Lemma draws_weaken {A} (m : R A) (P Q : A -> Prop) : draws m P -> (forall a, P a -> Q a) -> draws m Q.
Proof. intros Hm HQ r. destruct (Hm r) as (a & r' & E & Ha). eauto. Qed.

Lemma draws_ret {A} (a : A) (P : A -> Prop) : P a -> draws (mret a) P.
Proof. intros Ha r. by exists a, r. Qed.

Lemma draws_bind {A B} (m : R A) (f : A -> R B) (P : A -> Prop) (Q : B -> Prop) :
  draws m P -> (forall a, P a -> draws (f a) Q) -> draws (m ≫= f) Q.
Proof.
  intros Hm Hf r. destruct (Hm r) as (a & r1 & E & Ha). destruct (Hf a Ha r1) as (b & r2 & E2 & Hb).
  exists b, r2. unfold mbind, R_bind. by rewrite E.
Qed.

Lemma draws_fmap {A B} (f : A -> B) (m : R A) (P : B -> Prop) : draws m (fun a => P (f a)) -> draws (f <$> m) P.
Proof.
  intros Hm r. destruct (Hm r) as (a & r1 & E & Ha). exists (f a), r1. unfold fmap, R_fmap. by rewrite E.
Qed.

Lemma draws_if {A} (b : bool) (m n : R A) (P : A -> Prop) :
  draws m P -> draws n P -> draws (if b then m else n) P.
Proof. by destruct b. Qed.

Lemma draws_range lo hi : lo < hi -> draws (range lo hi) (fun z => lo <= z < hi).
Proof.
  intros Hl r. destruct (rng_range_some lo hi r Hl) as (z & r' & E & Hz).
  exists z, r'. unfold range, lift. by rewrite E.
Qed.

Lemma draws_coin p : p ∈ [p_0_01; p_0_1; p_0_5; p_0_9] -> draws (coin p) (fun _ => True).
Proof.
  intros Hp r. destruct (rng_bool_some p r Hp) as [[b r'] E]. exists b, r'. unfold coin, lift. by rewrite E.
Qed.

Lemma draws_lift {A} (f : rng -> A * rng) (P : A -> Prop) :
  (forall r, P (f r).1) -> draws (lift (fun r => Some (f r))) P.
Proof. intros Hf r. exists (f r).1, (f r).2. split; [|done]. unfold lift. by destruct (f r). Qed.

Lemma draws_choose {A} (l : list A) : l <> [] -> draws (choose l) (fun a => a ∈ l).
Proof.
  intros Hl. unfold choose. eapply draws_bind.
  { apply draws_range. destruct l; [done|]. unfold zlen. cbn [length]. lia. }
  intros i Hi. unfold zlen in Hi. destruct (lookup_lt_is_Some_2 l (Z.to_nat i)) as [a Ha]; [lia|].
  rewrite Ha. apply draws_ret. by eapply list_elem_of_lookup_2.
Qed.

Lemma draws_repeat {A} n (g : R A) (P : A -> Prop) :
  draws g P -> draws (repeat_draw n g) (fun l => length l = n /\ Forall P l).
Proof.
  intros Hg. induction n as [|n IH]; cbn [repeat_draw]; [by apply draws_ret|].
  eapply draws_bind; [done|]. intros a Ha. eapply draws_bind; [done|]. intros l [Hl Hf].
  apply draws_ret. cbn. split; [lia|by constructor].
Qed.
End Draws.

Create HintDb rand.
#[export] Hint Resolve draws_coin draws_range draws_choose : rand.
#[export] Hint Constructors list_elem_of : rand.
#[export] Hint Extern 1 (_ < _) => lia : rand.

(** The next draw of a computation, and a branch on a coin. *)
Ltac draw a Ha := eapply draws_bind; [solve [eauto with rand]|]; intros a Ha; cbn beta in Ha.
Ltac flip := eapply draws_bind; [solve [eauto 8 with rand]|]; intros [|] _.

(** ** Random texts *)

(** Texts without an opening brace. *)
Definition plain (s : bytes) : Prop := Forall (fun b => b <> 123) s.

Lemma plain_number s : Forall number_byte s -> plain s.
Proof. intros Hs. eapply Forall_impl; [exact Hs|]. unfold number_byte. simpl. intros b. lia. Qed.

Definition plain_hashes (h : Hashes) : Prop :=
  (forall x, x ∈ chains h -> plain x) /\ (forall x, x ∈ branches h -> plain x) /\
  (forall x, x ∈ blocks_seen h -> plain x).

Definition plain_opt (s : option (gset bytes)) : Prop :=
  match s with Some s => forall x, x ∈ s -> plain x | None => True end.

Section Texts.
Context `{RandValues, SetOrder}.

Lemma draws_level : draws random_level (fun _ => True).
Proof.
  unfold random_level. draw k Hk. assert (Hc : exists n, (n < 11)%nat /\ k = Z.of_nat n).
  { exists (Z.to_nat k). lia. }
  destruct Hc as (n & Hn & ->).
  do 11 (destruct n as [|n]; [first [by apply draws_ret
    | eapply draws_weaken; [apply draws_range; lia|done]]|]). lia.
Qed.

Lemma draws_number size :
  draws (random_number size) (fun s => Forall number_byte s /\ (length s <= Z.to_nat size)%nat).
Proof.
  unfold random_number. eapply draws_bind; [eauto 8 with rand|]. intros b _.
  eapply draws_bind with (P := fun _ => True).
  { apply draws_if; [apply draws_level|by apply draws_lift]. }
  intros z _. apply draws_ret. split; [apply Forall_take, pretty_Z_bytes|]. rewrite length_take. lia.
Qed.

Lemma charset_ascii : Forall (fun b => 48 <= b < 123) CHARSET.
Proof. apply (bool_decide_unpack _). by vm_compute. Qed.

Lemma ascii_text s : Forall (fun b => 0 <= b < 128) s -> utf8_valid s = true.
Proof.
  induction 1 as [|b s Hb _ IH]; [done|]. replace (b :: s) with (utf8_char b ++ s).
  - rewrite utf8_char_valid; [done|]. left. lia.
  - unfold utf8_char. by destruct (Z.ltb_spec b 0x80); [|lia].
Qed.

(** A random string is a text of at most [size] bytes. *)
Lemma draws_string size : 0 <= size ->
  draws (random_string size) (fun s => utf8_valid s = true /\ zlen s <= size).
Proof.
  intros Hz. unfold random_string. flip.
  - eapply draws_weaken.
    { apply draws_repeat, draws_choose. by vm_compute. }
    intros s [Hl Hs]. split; [|unfold zlen; lia]. apply ascii_text.
    eapply Forall_impl; [exact Hs|]. intros b Hb.
    pose proof (proj1 (Forall_forall _ _) charset_ascii b Hb). simpl in *. lia.
  - eapply draws_bind.
    { apply draws_repeat, (draws_lift _ is_char). intros r. apply rng_char_range. }
    intros cs [Hl Hcs]. apply draws_ret. destruct (decide (Z.to_nat size = 0%nat)) as [E|E].
    + rewrite E in *. destruct cs; [|done]. unfold zlen. cbn. split; [done|lia].
    + destruct (truncate_spec cs Hcs (Z.to_nat size) ltac:(lia) E) as [Hu Hlt].
      split; [done|]. unfold zlen. lia.
Qed.

Lemma draws_pick l : draws (pick l) (fun o => forall x, o = Some x -> x ∈ l).
Proof.
  induction l as [|x l IH]; cbn [pick]; [by apply draws_ret|]. flip.
  - apply draws_ret. intros y [= <-]. left.
  - eapply draws_weaken; [done|]. intros o Ho y Hy. right. by apply Ho.
Qed.

Lemma draws_pick_opt s : plain_opt s -> draws (pick_opt s) (fun o => forall x, o = Some x -> plain x).
Proof.
  destruct s as [s|]; intros Hs; [|by apply draws_ret].
  eapply draws_weaken; [apply draws_pick|]. intros o Ho x Hx. apply Hs, set_iter_elements. auto.
Qed.

Lemma draws_arg cs bs ks : plain_opt cs -> plain_opt bs -> plain_opt ks ->
  draws (random_arg cs bs ks) plain.
Proof.
  intros Hc Hb Hk. unfold random_arg, random_len. draw sz Hs.
  eapply draws_bind; [by apply draws_pick_opt|]. intros [x|] Hx; [by apply draws_ret, Hx|].
  eapply draws_bind; [by apply draws_pick_opt|]. intros [y|] Hy; [by apply draws_ret, Hy|].
  eapply draws_bind; [by apply draws_pick_opt|]. intros [z|] Hz; [by apply draws_ret, Hz|].
  assert (Hconst : forall c, c ∈ CONSTANTS ++ OPERATORS -> plain c).
  { apply (Forall_forall plain). unfold plain. apply (bool_decide_unpack _). by vm_compute. }
  flip.
  - eapply draws_bind; [by apply draws_choose|]. intros c Hin. flip.
    + eapply draws_bind; [by apply draws_choose|]. intros o Ho.
      eapply draws_bind; [apply draws_number|]. intros n [Hn _]. apply draws_ret.
      apply Forall_app. split; [apply Hconst, elem_of_app; auto|].
      apply Forall_app. split; [apply Hconst, elem_of_app; auto|by apply plain_number].
    + apply draws_ret, Hconst, elem_of_app. auto.
  - eapply draws_weaken; [apply draws_number|]. intros n [Hn _]. by apply plain_number.
Qed.
End Texts.

(** ** Paths

    A path as OpenAPI writes it: texts and holes. *)
Inductive token : Type := Text (s : bytes) | Hole (name : bytes).

Definition render_token (t : token) : bytes := match t with Text s => s | Hole name => hole name end.
Definition render (ts : list token) : bytes := concat (map render_token ts).

Definition token_ok (t : token) : Prop :=
  match t with Text s => plain s | Hole name => plain name /\ 125 ∉ name end.

Definition fill (name arg : bytes) (t : token) : token :=
  match t with Hole n => if decide (n = name) then Text arg else t | _ => t end.

Lemma hole_bytes name : hole name = 123 :: name ++ [125].
Proof. done. Qed.

Lemma replace_from_skip pat rep k s : replace_from k pat rep s = replace_from 0 pat rep (drop k s).
Proof. revert k. induction s as [|c s IH]; intros [|k]; try done. cbn [replace_from drop]. apply IH. Qed.

Lemma replace_app_plain name rep s rest : plain s ->
  replace (hole name) rep (s ++ rest) = s ++ replace (hole name) rep rest.
Proof.
  induction 1 as [|c s Hc _ IH]; [done|]. unfold replace in *. rewrite hole_bytes in *.
  cbn [app replace_from length take]. rewrite bool_decide_false by congruence. by rewrite IH.
Qed.

(** Names of holes end at the first closing brace. *)
Lemma hole_prefix a b rest : 125 ∉ a -> 125 ∉ b ->
  take (length (hole a)) (hole b ++ rest) = hole a <-> a = b.
Proof.
  rewrite !hole_bytes. cbn [length app take]. rewrite length_app. cbn [length].
  rewrite <- app_assoc. cbn [app]. intros Ha Hb. split.
  - intros [= E]. revert b Ha Hb E. induction a as [|x a IH]; intros [|y b] Ha Hb E; cbn in *.
    + done.
    + apply not_elem_of_cons in Hb as [Hb _]. congruence.
    + apply not_elem_of_cons in Ha as [Ha _]. congruence.
    + injection E as -> E. f_equal. apply IH; [set_solver..|done].
  - intros ->. f_equal. rewrite Nat.add_1_r. replace (S (length b)) with (length (b ++ [125])).
    + replace (b ++ 125 :: rest) with ((b ++ [125]) ++ rest) by by rewrite <- app_assoc.
      by rewrite take_app_length.
    + rewrite length_app. cbn. lia.
Qed.

(** Replacing a parameter in a path fills its holes and nothing else. *)
Lemma replace_render name arg ts : 125 ∉ name -> Forall token_ok ts ->
  replace (hole name) arg (render ts) = render (map (fill name arg) ts).
Proof.
  intros Hname. induction 1 as [|[s|n] ts Ht _ IH]; [done|..]; unfold render in *; cbn [map concat render_token fill].
  - by rewrite replace_app_plain, IH.
  - destruct Ht as [Hp Hn]. destruct (decide (n = name)) as [->|Hne]; cbn [render_token].
    + rewrite <- IH. unfold replace.
      pose proof (proj2 (hole_prefix name name (concat (map render_token ts)) Hname Hname) eq_refl) as Hm.
      rewrite hole_bytes in *. cbn [app replace_from] in *. rewrite bool_decide_true by done. f_equal.
      rewrite replace_from_skip. f_equal. cbn [length]. rewrite Nat.sub_1_r, drop_app_length'; [done|].
      by rewrite length_app.
    + assert (Hm : take (length (hole name)) (hole n ++ concat (map render_token ts)) <> hole name).
      { intros E. apply hole_prefix in E; congruence. }
      unfold replace in *. rewrite (hole_bytes n) in *. cbn [app replace_from] in *.
      rewrite bool_decide_false by done. f_equal. rewrite <- IH.
      apply replace_app_plain. apply Forall_app. split; [done|]. by apply Forall_singleton.
Qed.

(** The holes that are left. *)
Definition open_holes (names : list bytes) (ts : list token) : Prop :=
  forall n, Hole n ∈ ts -> n ∈ names.

Lemma open_holes_nil ts : Forall token_ok ts -> open_holes [] ts -> plain (render ts).
Proof.
  induction 1 as [|[s|n] ts Ht _ IH]; intros Ho; [constructor|..]; unfold render in *; cbn.
  - apply Forall_app. split; [done|]. apply IH. intros n Hn. apply Ho. by right.
  - exfalso. specialize (Ho n ltac:(left)). by apply not_elem_of_nil in Ho.
Qed.

Lemma fill_holes name names arg ts : plain arg -> Forall token_ok ts -> open_holes (name :: names) ts ->
  Forall token_ok (map (fill name arg) ts) /\ open_holes names (map (fill name arg) ts).
Proof.
  intros Ha Hts Ho. split.
  - apply Forall_map. eapply Forall_impl; [exact Hts|]. intros [s|n] Ht; [done|]. cbn.
    by destruct (decide (n = name)).
  - intros n Hn. apply list_elem_of_fmap in Hn as ([s|m] & E & Hm); [done|]. cbn in E.
    destruct (decide (m = name)) as [|Hne]; [done|]. injection E as ->.
    apply Ho in Hm. apply elem_of_cons in Hm as [->|Hm]; done.
Qed.

Section Requests.
Context `{RandValues, SetOrder, SchemaCrate}.

Lemma draws_fill_path h params names ts : plain_hashes h ->
  Forall (fun p => 125 ∉ param_name p) params -> Forall token_ok ts ->
  open_holes (map param_name params ++ names) ts ->
  draws (fill_path h params (render ts)) (fun name =>
    exists ts', name = render ts' /\ Forall token_ok ts' /\ open_holes names ts').
Proof.
  intros (Hc & Hb & Hk) Hps. revert ts. induction Hps as [|p ps Hp _ IH]; intros ts Hts Ho; cbn [fill_path].
  - apply draws_ret. by exists ts.
  - eapply draws_bind; [by apply draws_arg|]. intros arg Harg.
    rewrite replace_render by done.
    destruct (fill_holes (param_name p) (map param_name ps ++ names) arg ts Harg Hts Ho). by apply IH.
Qed.

Lemma draws_query h params np : plain_hashes h -> Forall (fun p => plain (param_name p)) params ->
  plain np.1 /\ plain np.2 -> draws (add_query h params np) (fun np => plain np.1 /\ plain np.2).
Proof.
  intros (Hc & Hb & Hk) Hps. revert np.
  induction Hps as [|p ps Hp _ IH]; intros [name prefix] [Hn Hx]; cbn [add_query]; [by apply draws_ret|].
  flip; [|by apply IH]. eapply draws_bind; [eauto 8 with rand|]. intros v _.
  eapply draws_bind with (P := plain).
  - destruct v; cbn [fst snd] in *.
    + eapply draws_bind; [by apply draws_arg|]. intros arg Harg. apply draws_ret.
      apply Forall_app. split; [by repeat (apply Forall_app; split)|].
      apply Forall_app. split; [by apply Forall_singleton|done].
    + apply draws_ret. by repeat (apply Forall_app; split).
  - intros name' Hname. apply IH. split; [done|]. by apply Forall_singleton.
Qed.

Lemma draws_queries n h params np : plain_hashes h -> Forall (fun p => plain (param_name p)) params ->
  plain np.1 /\ plain np.2 -> draws (add_queries n h params np) (fun np => plain np.1 /\ plain np.2).
Proof.
  intros Hh Hps. revert np. induction n as [|n IH]; intros np Hnp; cbn [add_queries]; [by apply draws_ret|].
  eapply draws_bind; [by apply draws_query|]. intros np' Hnp'. by apply IH.
Qed.

(** A method of a path whose holes are all declared, or the two that every path may
    have, with names that are no holes themselves. *)
Definition path_ok (path : Path) (m : PathMethod) : Prop :=
  exists ts, path_name path = render ts /\ Forall token_ok ts /\
    open_holes (map param_name (path_params m) ++ [lit "chain_id"; lit "block_id"]) ts /\
    Forall (fun p => 125 ∉ param_name p) (path_params m) /\
    Forall (fun p => plain (param_name p)) (query_params m).

Lemma draws_name h path m : plain_hashes h -> path_ok path m -> draws (request_name h path m) plain.
Proof.
  intros Hh (ts & E & Hts & Ho & Hp & Hq). pose proof Hh as (Hc & Hb & Hk). unfold request_name. rewrite E.
  eapply draws_bind; [by eapply draws_fill_path|]. intros name (ts1 & -> & Hts1 & Ho1).
  eapply draws_bind; [by apply draws_arg|]. intros a1 Ha1. change (lit "{chain_id}") with (hole (lit "chain_id")).
  rewrite replace_render; [|by apply (bool_decide_unpack _); vm_compute|done].
  destruct (fill_holes _ _ a1 ts1 Ha1 Hts1 Ho1) as [Hts2 Ho2].
  eapply draws_bind; [by apply draws_arg|]. intros a2 Ha2. change (lit "{block_id}") with (hole (lit "block_id")).
  rewrite replace_render; [|by apply (bool_decide_unpack _); vm_compute|done].
  destruct (fill_holes _ _ a2 _ Ha2 Hts2 Ho2) as [Hts3 Ho3].
  draw n Hn. eapply draws_bind.
  { apply draws_queries; [done..|]. split; [by apply open_holes_nil|]. by apply Forall_singleton. }
  intros np [Hname _]. by apply draws_ret.
Qed.

Lemma draws_header : draws random_header
  (fun o => forall x, o = Some x -> utf8_valid x = true /\ zlen x <= 15).
Proof.
  unfold random_header. flip; [|by apply draws_ret]. apply draws_fmap.
  eapply draws_weaken; [by apply draws_string|]. intros s Hs x [= <-]. done.
Qed.

(** A request without a body to a path that is declared. *)
Definition fetches (paths : list Path) : Prop :=
  paths <> [] /\ forall path, path ∈ paths -> methods path <> [] /\
    forall m, m ∈ methods path -> has_body (method m) = false /\ path_ok path m.

(** What is sent: the address of the node, a path without holes, headers that are
    short texts, and no body. *)
Definition fetch_request (target : bytes) (q : Request) : Prop :=
  (exists name, req_uri q = lit "http://" ++ target ++ name /\ plain name) /\
  (forall x, content_type q = Some x \/ accept q = Some x -> utf8_valid x = true /\ zlen x <= 15) /\
  has_body (req_method q) = false /\ req_body q = [].

Lemma draws_request fuel target paths h : fetches paths -> plain_hashes h ->
  draws (random_request fuel target paths h) (fetch_request target).
Proof.
  intros [Hne Hps] Hh. unfold random_request, random_len.
  draw path Hpath. destruct (Hps path Hpath) as [Hms Hall].
  draw m Hm. destruct (Hall m Hm) as [Hb Hok].
  eapply draws_bind; [by apply draws_name|]. intros name Hname. draw sz Hsz.
  unfold random_body. rewrite Hb. eapply draws_bind; [by apply draws_ret with (P := fun b => b = [])|].
  intros body ->. eapply draws_bind; [apply draws_header|]. intros ct Hct.
  eapply draws_bind; [apply draws_header|]. intros ac Hac. apply draws_ret.
  split; [by exists name|]. cbn. split; [|done]. intros x [Hx|Hx]; auto.
Qed.
End Requests.

(** ** Replies *)
Lemma Value_rect_nested (P : Value -> Prop) :
  P VNull -> (forall b, P (VBool b)) -> (forall t, P (VNumber t)) -> (forall s, P (VString s)) ->
  (forall l, Forall P l -> P (VArray l)) ->
  (forall d, Forall (fun kv => P kv.2) d -> P (VObject d)) -> forall v, P v.
Proof.
  intros Hn Hb Ht Hs Ha Ho. fix IH 1. intros [|b|t|s|l|d]; [done..| |].
  - apply Ha. induction l as [|v l IHl]; constructor; [apply IH|done].
  - apply Ho. induction d as [|[k v] d IHd]; constructor; [apply IH|done].
Qed.

(** [mentions k x v]: the reply [v] has the value [x] at the collected key [k];
    what is below a collected key is not looked at. *)
Inductive mentions (k : bytes) (x : Value) : Value -> Prop :=
| mentions_key d : (k, x) ∈ d -> collector k <> None -> mentions k x (VObject d)
| mentions_object d k' v : (k', v) ∈ d -> collector k' = None -> mentions k x v -> mentions k x (VObject d)
| mentions_array l v : v ∈ l -> mentions k x v -> mentions k x (VArray l).

(** What the mentions [S] make of the hashes: all of them are strings and are added,
    or one is not a string and the worker panics. *)
Definition gathered (S : bytes -> Value -> Prop) (h h' : Hashes) : Prop := forall s,
  (s ∈ chains h' <-> s ∈ chains h \/ S (lit "chain_id") (VString s)) /\
  (s ∈ branches h' <-> s ∈ branches h \/ S (lit "branch") (VString s)) /\
  (s ∈ blocks_seen h' <-> s ∈ blocks_seen h \/
     exists k, k ∈ [lit "block"; lit "block_hash"; lit "predecessor"] /\ S k (VString s)).

Definition collected (S : bytes -> Value -> Prop) (h : Hashes) (r : result stop Hashes) : Prop :=
  match r with
  | Ok h' => (forall k x, S k x -> is_Some (as_str x)) /\ gathered S h h'
  | Err e => e = StopPanicked /\ exists k x, S k x /\ as_str x = None
  end.

Lemma collected_iff S S' h r : (forall k x, S k x <-> S' k x) -> collected S h r -> collected S' h r.
Proof. intros E. unfold collected, gathered. destruct r; by setoid_rewrite E. Qed.

Lemma collected_none h : collected (fun _ _ => False) h (Ok h).
Proof. split; [done|]. intros s. split_and!; [tauto..|]. split; [tauto|]. by intros [|(k & _ & [])]. Qed.

Lemma collected_seq S1 S2 h r f : collected S1 h r -> (forall h', collected S2 h' (f h')) ->
  collected (fun k x => S1 k x \/ S2 k x) h (h' ← r; f h').
Proof.
  intros H1 H2. destruct r as [h1|e]; cbn in *.
  - destruct H1 as [Hs1 Hg1]. specialize (H2 h1). destruct (f h1) as [h2|e]; cbn in *.
    + destruct H2 as [Hs2 Hg2]. split; [intros k x [?|?]; eauto|]. intros s.
      destruct (Hg1 s) as (C1 & B1 & K1), (Hg2 s) as (C2 & B2 & K2). split_and!.
      * tauto.
      * tauto.
      * rewrite K2, K1. split; [intros [[?|(k & ?)]|(k & ?)]; [tauto|right; exists k; tauto..]|].
        intros [?|(k & ? & [?|?])]; [tauto|left; right; eauto|right; eauto].
    + destruct H2 as (-> & k & x & ? & ?). split; [done|]. exists k, x. tauto.
  - destruct H1 as (-> & k & x & ? & ?). split; [done|]. exists k, x. tauto.
Qed.

(** One entry with a collected key. *)
Lemma collected_key k v h add : collector k = Some add ->
  collected (fun k' x => k' = k /\ x = v) h (x ← unwrap_opt (as_str v); Ok (add x h)).
Proof.
  intros Hc. destruct (as_str v) as [s|] eqn:E; cbn.
  2: { split; [done|]. by exists k, v. }
  split; [intros ? ? [_ ->]; by rewrite E|]. destruct v as [| | |s'| |]; try done. injection E as ->.
  unfold collector in Hc. intros s'. cbn.
  assert (Hk : forall A : bytes, (A = k /\ VString s' = VString s) <-> (A = k /\ s' = s)).
  { intros A. split; intros [-> E]; [by injection E as ->|by subst]. }
  setoid_rewrite Hk. repeat case_bool_decide; simplify_eq; cbn [chains branches blocks_seen add_chain add_branch add_block];
    rewrite ?elem_of_union, ?elem_of_singleton; split_and!; try (split; [tauto|]; intros [?|[? ?]]; [tauto|done]).
  all: try (split; [intros [->|?]; [right; done|by left]|intros [?|[_ ->]]; tauto]).
  all: try (split; [tauto|]; intros [?|(k & Hin & -> & _)]; [done|]; exfalso; revert Hin;
            apply (bool_decide_unpack _); by vm_compute).
  all: split; [intros [->|?]; [right; eexists; split; [|done]; repeat constructor|by left]
              |intros [?|(k & _ & _ & ->)]; [by right|by left]].
Qed.

Lemma mentions_cons_array k x v l :
  mentions k x (VArray (v :: l)) <-> mentions k x v \/ mentions k x (VArray l).
Proof.
  split.
  - intros Hm. inversion Hm as [| |? w Hin Hw]; subst. apply elem_of_cons in Hin as [->|Hin]; [by left|].
    right. by eapply mentions_array.
  - intros [Hm|Hm]; [by eapply mentions_array; [left|]|].
    inversion Hm as [| |? w Hin Hw]; subst. eapply mentions_array; [by right|done].
Qed.

Lemma mentions_cons_object k x k' v d :
  mentions k x (VObject ((k', v) :: d)) <->
  (match collector k' with Some _ => k = k' /\ x = v | None => mentions k x v end \/ mentions k x (VObject d)).
Proof.
  split.
  - intros Hm. inversion Hm as [? Hin Hc|? k2 v2 Hin Hc Hv|]; subst; apply elem_of_cons in Hin as [E|Hin].
    + injection E as -> ->. left. by destruct (collector k').
    + right. by apply mentions_key.
    + injection E as -> ->. left. by rewrite Hc.
    + right. by eapply mentions_object.
  - intros [Hm|Hm].
    + destruct (collector k') eqn:Hc; [destruct Hm as [-> ->]; apply mentions_key; [left|by rewrite Hc]|].
      by eapply mentions_object; [left|..].
    + inversion Hm as [? Hin Hc|? k2 v2 Hin Hc Hv|]; subst; [apply mentions_key; [by right|done]|].
      eapply mentions_object; [by right|done..].
Qed.

Lemma collect_spec v h : collected (fun k x => mentions k x v) h (collect_reply_data v h).
Proof.
  revert h. induction v as [|b|t|s|l IH|d IH] using Value_rect_nested; intros h;
    try (eapply collected_iff; [|apply collected_none]; intros k x; split; [done|by inversion 1]).
  - revert h. induction IH as [|v l Hv _ IHl]; intros h.
    + eapply collected_iff; [|apply collected_none]. intros k x. split; [done|].
      inversion 1 as [| |? w Hin]; subst. by apply not_elem_of_nil in Hin.
    + eapply collected_iff; [intros k x; symmetry; apply mentions_cons_array|].
      apply (collected_seq _ _ _ _ (fun h => collect_reply_data (VArray l) h)); [apply Hv|apply IHl].
  - revert h. induction IH as [|[k' v] d Hv _ IHd]; intros h.
    + eapply collected_iff; [|apply collected_none]. intros k x. split; [done|].
      inversion 1 as [? Hin|? ? ? Hin|]; subst; by apply not_elem_of_nil in Hin.
    + eapply collected_iff; [intros k x; symmetry; apply mentions_cons_object|].
      apply (collected_seq _ _ _ _ (fun h => collect_reply_data (VObject d) h)); [|apply IHd].
      destruct (collector k') as [add|] eqn:Hc; [by apply collected_key|apply Hv].
Qed.

(** (C24) A reply of the node is searched completely: if the values at the collected
    keys are strings, the known chains, branches and blocks are afterwards those
    from before and those the reply mentions, at any depth; if one of them is
    anything else, the worker panics, and it panics for no other reason. *)
Theorem reply_is_collected (v : Value) (h : Hashes) :
  match collect_reply_data v h with
  | Ok h' => (forall k x, mentions k x v -> is_Some (as_str x)) /\ gathered (fun k x => mentions k x v) h h'
  | Err e => e = StopPanicked /\ exists k x, mentions k x v /\ as_str x = None
  end.
Proof. apply collect_spec. Qed.

(** ** The worker *)
Section Worker.
Context `{RandValues, SetOrder, SerdeJson, SchemaCrate, HyperCrate}.

(** A node whose replies have plain strings at the collected keys. *)
Definition honest (answer : Request -> Exchange) : Prop := forall q o v,
  answer q = Response o -> recv_body o = Some v ->
  forall k x, mentions k x v -> exists s, x = VString s /\ plain s.

Lemma collect_honest v h : plain_hashes h ->
  (forall k x, mentions k x v -> exists s, x = VString s /\ plain s) ->
  exists h', collect_reply_data v h = Ok h' /\ plain_hashes h'.
Proof.
  intros (Hc & Hb & Hk) Hm. pose proof (collect_spec v h) as Hs.
  destruct (collect_reply_data v h) as [h'|e]; cbn in Hs.
  - exists h'. split; [done|]. destruct Hs as [_ Hg].
    assert (Hx : forall k s, mentions k (VString s) v -> plain s).
    { intros k s Hk'. destruct (Hm _ _ Hk') as (s' & E & Hs'). by injection E as ->. }
    split_and!; intros s Hin; destruct (Hg s) as (Gc & Gb & Gk).
    + apply Gc in Hin as [?|?]; eauto.
    + apply Gb in Hin as [?|?]; eauto.
    + apply Gk in Hin as [?|(k & _ & ?)]; eauto.
  - destruct Hs as (_ & k & x & Hk' & Hx). destruct (Hm _ _ Hk') as (s & -> & _). done.
Qed.

(** The request of a round: it is drawn without a panic, goes to the node, and
    unless the library refuses it the round survives. *)
Lemma round_survives fuel target paths answer w :
  fetches paths -> honest answer -> plain_hashes (hashes w) ->
  exists q r, random_request fuel target paths (hashes w) (worker_rng w) = Ok (q, r) /\
    fetch_request target q /\
    match worker_round fuel target paths answer w with
    | Ok w' => buildable q = true /\ plain_hashes (hashes w')
    | Err e => buildable q = false /\ e = StopPanicked
    end.
Proof.
  intros Hf Hn Hw. destruct (draws_request fuel target paths (hashes w) Hf Hw (worker_rng w))
    as (q & r & E & Hq).
  exists q, r. split; [done|]. split; [done|].
  unfold worker_round. rewrite E. cbn [mbind result_bind].
  destruct (buildable q) eqn:Hb; [|done].
  destruct (answer q) as [| |o] eqn:Ea; [done..|]. destruct (recv_body o) as [v|] eqn:Ev; [|done].
  by destruct (collect_honest v (hashes w) Hw (Hn q o v Ea Ev)) as (h' & -> & Hh).
Qed.

(** The first [n] rounds of the loop; [answer i] is what the node answers in the
    [i]-th. *)
Fixpoint worker_rounds (n fuel : nat) (target : bytes) (paths : list Path)
  (answer : nat -> Request -> Exchange) (w : WorkerState) : result stop WorkerState :=
  match n with
  | O => Ok w
  | S n => w ← worker_rounds n fuel target paths answer w; worker_round fuel target paths (answer n) w
  end.

(** (C7) A worker on paths that are only fetched runs for any number of rounds
    against a node that sends plain strings as hashes: it never panics in its random
    functions or on a reply, whatever seed it has and whatever order its sets have.
    In every round it reaches, the request it draws goes to the node, to a path in
    which every parameter is filled, without a body.  If it stops, there is a round
    it reached whose own request the HTTP library refuses to build; until then
    every request could be built. *)
Theorem worker_keeps_going (n fuel : nat) (target : bytes) (paths : list Path)
  (answer : nat -> Request -> Exchange) (seed : Z) :
  fetches paths -> (forall i, honest (answer i)) ->
  let reached k := worker_rounds k fuel target paths answer (start_worker seed) in
  let draws w q := exists r, random_request fuel target paths (hashes w) (worker_rng w) = Ok (q, r) in
  match reached n with
  | Ok w => plain_hashes (hashes w) /\
      (exists q, draws w q /\ fetch_request target q) /\
      (forall k, (k < n)%nat -> exists w q, reached k = Ok w /\ draws w q /\
         fetch_request target q /\ buildable q = true)
  | Err e => e = StopPanicked /\
      exists k w q, (k < n)%nat /\ reached k = Ok w /\ draws w q /\
        fetch_request target q /\ buildable q = false
  end.
Proof.
  intros Hf Hn reached draws.
  assert (Hw : plain_hashes (hashes (start_worker seed))) by (split_and!; set_solver).
  induction n as [|n IH]; unfold reached in *; cbn [worker_rounds].
  - destruct (round_survives fuel target paths (answer 0%nat) _ Hf (Hn 0%nat) Hw) as (q & r & E & Hq & _).
    split; [done|]. split; [by exists q; split; [exists r|]|]. intros k Hk. lia.
  - destruct (worker_rounds n fuel target paths answer (start_worker seed)) as [w|e] eqn:Er; cbn [mbind result_bind].
    2:{ destruct IH as (-> & k & w & q & Hk & Hs). split; [done|]. exists k, w, q. split; [lia|done]. }
    destruct IH as (Hh & _ & Hbefore).
    destruct (round_survives fuel target paths (answer n) w Hf (Hn n) Hh) as (q & r & E & Hq & Hr).
    destruct (worker_round fuel target paths (answer n) w) as [w'|e].
    + destruct Hr as [Hb Hh']. split; [done|].
      destruct (round_survives fuel target paths (answer 0%nat) w' Hf (Hn 0%nat) Hh') as (q' & r' & E' & Hq' & _).
      split; [by exists q'; split; [exists r'|]|]. intros k Hk.
      destruct (decide (k = n)) as [->|Hne]; [|apply Hbefore; lia].
      exists w, q. split; [done|]. split; [by exists r|]. done.
    + destruct Hr as [Hb ->]. split; [done|]. exists n, w, q. split; [lia|]. split; [done|].
      split; [by exists r|]. done.
Qed.

(** A header is a random string, and a random string can have a control
    character: the request cannot be built then, and the [unwrap] of the request
    ends the worker. *)
Theorem control_header_panics (fuel : nat) (target : bytes) (paths : list Path)
  (answer : Request -> Exchange) (w : WorkerState) (q : Request) (r : rng) (x : bytes) (b : Z) :
  random_request fuel target paths (hashes w) (worker_rng w) = Ok (q, r) ->
  content_type q = Some x \/ accept q = Some x -> b ∈ x -> 0 <= b < 32 \/ b = 127 -> b <> 9 ->
  worker_round fuel target paths answer w = Err StopPanicked.
Proof.
  intros E Hx Hb Hc Hne. unfold worker_round. rewrite E. cbn [mbind result_bind].
  by rewrite (build_header q x b Hx Hb Hc Hne).
Qed.
End Worker.

(** ** Examples *)
#[export] Instance reference_set_order : SetOrder.
Proof. refine {| set_iter := elements |}. intros s x. apply elem_of_elements. Defined.

(** A parser that knows one reply. *)
Definition head_reply : Value :=
  VObject [(lit "chain_id", VString (lit "main"));
           (lit "header", VObject [(lit "predecessor", VString (lit "BL1"))])].
#[export] Instance reference_json : SerdeJson :=
  {| json_from_slice b := if bool_decide (b = lit "head") then Some head_reply else None;
     json_to_string _ := [] |}.
#[export] Instance reference_schema : SchemaCrate :=
  {| Schema := PropertyInstance; schema_try_from _ := None; specification p := Some p |}.

Definition control (b : Z) : bool := ((0 <=? b) && (b <? 32) && negb (b =? 9)) || (b =? 127).
#[export] Instance reference_hyper : HyperCrate.
Proof.
  refine {| buildable q := negb (existsb control (default [] (content_type q)) ||
                                 existsb control (default [] (accept q))) |}.
  intros q x b Hx Hb Hc Hne. apply negb_false_iff, orb_true_iff.
  assert (He : existsb control x = true).
  { apply existsb_exists. exists b. split; [by apply list_elem_of_In|]. unfold control.
    destruct (Z.leb_spec 0 b), (Z.ltb_spec b 32), (Z.eqb_spec b 9), (Z.eqb_spec b 127); done || lia. }
  destruct Hx as [->| ->]; [by left|by right].
Defined.

(** Every coin shows the other side than the last, every number drawn is the
    smallest, and the characters are all that of the seed. *)
#[export] Instance alternating_rand : RandCrate | 100.
Proof.
  refine {| rng := bool * Z; f64 := unit; rng_bool _ r := Some (r.1, (negb r.1, r.2));
            rng_range lo hi r := if lo <? hi then Some (lo, r) else None;
            rng_flag r := (r.1, r); rng_shuffle l r := (l, r) |}.
  - intros lo hi r Hl. destruct (Z.ltb_spec lo hi); [|lia]. exists lo, r. split; [done|lia].
  - intros lo hi r Hl. by destruct (Z.ltb_spec lo hi); [lia|].
  - intros l r. reflexivity.
Defined.
#[export] Instance alternating_values : @RandValues alternating_rand | 100.
Proof.
  refine {| seed_from_u64 := fun s => (true, s) : @rng alternating_rand;
            p_0_01 := tt : @f64 alternating_rand; p_0_1 := tt : @f64 alternating_rand;
            p_0_5 := tt : @f64 alternating_rand; p_0_9 := tt : @f64 alternating_rand;
            rng_u8 r := (7, r); rng_i8 r := (7, r); rng_u16 r := (7, r); rng_i16 r := (7, r);
            rng_i32 r := (7, r); rng_i64 r := (7, r); rng_char r := (r.2 mod 128, r) |};
    try (intros r; unfold in_u, in_s; cbn; lia).
  - intros r. cbn. pose proof (Z.mod_pos_bound r.2 128). lia.
  - intros q r _. by eexists.
Defined.

Definition header_path : Path :=
  mkPath (lit "/chains/{chain_id}/blocks/{block_id}/header") [mkPathMethod GET [] [] None].

Lemma header_fetches : fetches [header_path].
Proof.
  split; [done|]. intros path ->%list_elem_of_singleton. split; [done|].
  intros m ->%list_elem_of_singleton. split; [done|].
  exists [Text (lit "/chains/"); Hole (lit "chain_id"); Text (lit "/blocks/"); Hole (lit "block_id");
     Text (lit "/header")].
  split; [by vm_compute|]. split; [|split; [|by repeat constructor]].
  - repeat (apply Forall_cons; split); try apply Forall_nil; try done; cbn [token_ok]; try split;
      unfold plain; apply (bool_decide_unpack _); by vm_compute.
  - intros n Hn. cbn. repeat (apply elem_of_cons in Hn as [Hn|Hn]; [try done; injection Hn as ->; repeat constructor|]).
    by apply not_elem_of_nil in Hn.
Qed.

Definition header_answer (q : Request) : Exchange := Response (BodyBytes (lit "head")).

Lemma header_honest : honest header_answer.
Proof.
  intros q o v [= <-] Hv. assert (v = head_reply) as -> by (vm_compute in Hv; by injection Hv as <-).
  assert (Hp : forall s, s ∈ [lit "main"; lit "BL1"] -> plain s).
  { apply (Forall_forall plain). unfold plain. apply (bool_decide_unpack _). by vm_compute. }
  assert (He : forall k x, mentions k x (VObject []) -> False).
  { intros k x Hm. inversion Hm as [? Hin|? ? ? Hin|]; subst; by apply not_elem_of_nil in Hin. }
  intros k x Hm. unfold head_reply in Hm. apply mentions_cons_object in Hm as [[_ ->]|Hm].
  { exists (lit "main"). split; [done|]. apply Hp. left. }
  apply mentions_cons_object in Hm as [Hm|Hm]; [|by apply He in Hm].
  apply mentions_cons_object in Hm as [[_ ->]|Hm]; [|by apply He in Hm].
  exists (lit "BL1"). split; [done|]. apply Hp. right. left.
Qed.

(** Three rounds with harmless headers; the hashes of the reply are known then. *)
Lemma worker_keeps_going_witness :
  exists w', worker_rounds 3 0 (lit "node") [header_path] (fun _ => header_answer)
          (start_worker (H0 := alternating_values) 65) = Ok w' /\
    plain_hashes (hashes w') /\ lit "BL1" ∈ blocks_seen (hashes w').
Proof.
  pose proof (worker_keeps_going (H0 := alternating_values) 3 0 (lit "node") [header_path]
    (fun _ => header_answer) 65 header_fetches (fun _ => header_honest)) as Hw.
  cbv zeta beta in Hw.
  destruct (worker_rounds 3 0 (lit "node") [header_path] (fun _ => header_answer)
    (start_worker (H0 := alternating_values) 65)) as [w'|e] eqn:E; [|by vm_compute in E].
  exists w'. split; [done|]. split; [exact (proj1 Hw)|]. vm_compute in E. injection E as <-.
  by apply (bool_decide_unpack _).
Defined.

Definition control_request : Request :=
  mkRequest GET (lit "http://node/chains/main/blocks/main/header") (Some (repeat 1 14)) (Some (repeat 1 14)) [].
Lemma control_header_panics_witness :
  worker_round 0 (lit "node") [header_path] header_answer (start_worker (H0 := alternating_values) 1) =
    Err StopPanicked.
Proof.
  apply (control_header_panics 0 (lit "node") [header_path] header_answer
    (start_worker (H0 := alternating_values) 1) control_request (true, 1) (repeat 1 14) 1);
    [by vm_compute|by left|left|lia|done].
Defined.
