(* ===== verification/RpcBodies.v ===== *)
(** * The bodies of the RPC fuzzer's requests

    When [random_json] ends, and what its objects look like to a reader of JSON. *)

From Stdlib Require Import ZArith Lia List Bool String.
From stdpp Require Import base option list numbers strings gmap pretty.
From S2P Require Import Prelude Extern BitUtils CryptoHash Nonce Types Serializer BinaryWriter WriterSpec NomCrate NomReader DeriveMake Derive RoundTrip DerivedCodec MerklePath Messages BinaryMessage ExternRef Zarith ChunkStream PublicKeys MessageFits MessageTypes Generator GeneratorFacts RpcFuzz RpcFuzzFacts.

Set Warnings "-register-all".

(** ** JSON (RFC 8259)

    Each function gives what follows the part it accepts. *)
Module Json.
Definition is_ws (b : Z) : bool := (b =? 32) || (b =? 9) || (b =? 10) || (b =? 13).
Fixpoint skip_ws (s : bytes) : bytes :=
  match s with b :: s' => if is_ws b then skip_ws s' else s | [] => [] end.

Definition is_digit (b : Z) : bool := (48 <=? b) && (b <=? 57).
Definition is_hex (b : Z) : bool :=
  is_digit b || ((65 <=? b) && (b <=? 70)) || ((97 <=? b) && (b <=? 102)).
(** A quote, a backslash, a slash, b, f, n, r or t. *)
Definition is_escape (b : Z) : bool := bool_decide (b ∈ [34; 92; 47; 98; 102; 110; 114; 116]).

(** The rest of a string after its opening quote. *)
Fixpoint string_rest (s : bytes) : option bytes :=
  match s with
  | [] => None
  | c :: s =>
      if c =? 34 then Some s
      else if c =? 92 then
        match s with
        | 117 :: a :: b :: c :: d :: s => if forallb is_hex [a; b; c; d] then string_rest s else None
        | c :: s => if is_escape c then string_rest s else None
        | [] => None
        end
      else if 32 <=? c then string_rest s else None
  end.

Fixpoint digits (s : bytes) : bytes :=
  match s with b :: s' => if is_digit b then digits s' else s | [] => [] end.
Definition digits1 (s : bytes) : option bytes :=
  match s with b :: s => if is_digit b then Some (digits s) else None | [] => None end.
Definition fraction (s : bytes) : option bytes :=
  match s with 46 :: s => digits1 s | s => Some s end.
Definition exponent (s : bytes) : option bytes :=
  match s with
  | 101 :: s | 69 :: s => match s with 43 :: s | 45 :: s => digits1 s | s => digits1 s end
  | s => Some s
  end.
Definition number (s : bytes) : option bytes :=
  let s := match s with 45 :: s => s | s => s end in
  i ← match s with 48 :: s => Some s | s => digits1 s end;
  f ← fraction i;
  exponent f.

Definition literal (w : string) (s : bytes) : option bytes :=
  if bool_decide (take (length (lit w)) s = lit w) then Some (drop (length (lit w)) s) else None.

Definition scalar (s : bytes) : option bytes :=
  match literal "null" s with
  | Some s => Some s
  | None =>
      match literal "true" s with
      | Some s => Some s
      | None => match literal "false" s with Some s => Some s | None => number s end
      end
  end.

(** What follows the byte [b], after white space. *)
Definition after (b : Z) (s : bytes) : option bytes :=
  match skip_ws s with c :: s => if c =? b then Some s else None | [] => None end.

Fixpoint value (n : nat) (s : bytes) : option bytes :=
  match n with
  | O => None
  | S n =>
      match after 34 s, after 91 s, after 123 s with
      | Some s, _, _ => string_rest s
      | _, Some s, _ => match after 93 s with Some s => Some s | None => elements n s end
      | _, _, Some s => match after 125 s with Some s => Some s | None => members n s end
      | _, _, _ => scalar (skip_ws s)
      end
  end
with elements (n : nat) (s : bytes) : option bytes :=
  match n with
  | O => None
  | S n =>
      rest ← value n s;
      match after 93 rest with
      | Some s => Some s
      | None => s ← after 44 rest; elements n s
      end
  end
with members (n : nat) (s : bytes) : option bytes :=
  match n with
  | O => None
  | S n =>
      s ← after 34 s;
      rest ← string_rest s;
      s ← after 58 rest;
      rest ← value n s;
      match after 125 rest with
      | Some s => Some s
      | None => s ← after 44 rest; members n s
      end
  end.

(** [n] bounds the nesting and the number of parts. *)
Definition accepts (n : nat) (s : bytes) : bool :=
  match value n s with Some rest => bool_decide (skip_ws rest = []) | None => false end.
End Json.
Import Json.

Example json_samples :
  accepts 9 (lit "[1, -2.5e3, null, {}, [true]]") = true /\
  accepts 9 (lit "{" ++ quoted (lit "a") ++ lit ": 1, " ++ quoted (lit "b") ++ lit ":[]} ") = true /\
  accepts 9 (lit "[1,]") = false /\ accepts 9 (lit "{" ++ quoted (lit "a") ++ lit "}") = false.
Proof. by vm_compute. Qed.

(** A text that a string can hold as it is. *)
Definition clean (s : bytes) : Prop := Forall (fun c => 32 <= c /\ c <> 34 /\ c <> 92) s.

Lemma string_rest_clean s rest : clean s -> string_rest (s ++ 34 :: rest) = Some rest.
Proof.
  induction 1 as [|c s (Hc & Hq & Hb) _ IH]; [done|]. cbn [app string_rest].
  destruct (Z.eqb_spec c 34), (Z.eqb_spec c 92), (Z.leb_spec 32 c); done || lia.
Qed.

Lemma clean_number s : Forall number_byte s -> clean s.
Proof. intros Hs. eapply Forall_impl; [exact Hs|]. unfold number_byte. simpl. intros c. lia. Qed.

(** What a schema without parts makes. *)
Inductive simple_text : bytes -> Prop :=
| simple_null : simple_text (lit "null")
| simple_bool b : simple_text (if b : bool then lit "true" else lit "false")
| simple_number s : Forall number_byte s -> simple_text (quoted s).

Lemma literal_app w rest : literal w (lit w ++ rest) = Some rest.
Proof. unfold literal. by rewrite take_app_length, drop_app_length, bool_decide_true. Qed.

Lemma literal_other v w rest : take (length (lit v)) (lit w ++ rest) <> lit v -> literal v (lit w ++ rest) = None.
Proof. intros Hne. unfold literal. by rewrite bool_decide_false. Qed.

Lemma value_scalar n c s : is_ws c = false -> c <> 34 -> c <> 91 -> c <> 123 ->
  value (S n) (c :: s) = scalar (c :: s).
Proof.
  intros Hw H1 H2 H3. cbn [value]. unfold after. cbn [skip_ws]. rewrite Hw.
  by destruct (Z.eqb_spec c 34), (Z.eqb_spec c 91), (Z.eqb_spec c 123).
Qed.

Lemma value_simple n e rest : simple_text e -> value (S n) (e ++ rest) = Some rest.
Proof.
  intros He. destruct He as [|[|]|s Hs].
  - transitivity (scalar (lit "null" ++ rest)); [by apply value_scalar|].
    unfold scalar. by rewrite (literal_app "null" rest).
  - transitivity (scalar (lit "true" ++ rest)); [by apply value_scalar|].
    unfold scalar. by rewrite (literal_other "null" "true" rest), (literal_app "true" rest).
  - transitivity (scalar (lit "false" ++ rest)); [by apply value_scalar|].
    unfold scalar. by rewrite (literal_other "null" "false" rest), (literal_other "true" "false" rest),
      (literal_app "false" rest).
  - unfold quoted, quote. rewrite <- !app_assoc. cbn [app value].
    unfold after at 1. cbn [skip_ws is_ws]. cbn. apply string_rest_clean. by apply clean_number.
Qed.

(** The first byte of a name that is neither white space nor a quote. *)
Definition opens_badly (s : bytes) : Prop :=
  match s with c :: _ => is_ws c = false /\ c <> 34 | [] => False end.

Lemma members_bad n s : opens_badly s -> members n s = None.
Proof.
  destruct s as [|c s]; [done|]. intros [Hw Hq]. destruct n as [|n]; [done|]. cbn [members].
  unfold after. cbn [skip_ws]. rewrite Hw. by destruct (Z.eqb_spec c 34).
Qed.

(** ** When [random_json] ends *)

(** A schema without arrays, nested less than [n] deep. *)
Fixpoint shallow (n : nat) (p : PropertyInstance) : bool :=
  match n with
  | O => false
  | S n =>
      match p with
      | PArray _ => false
      | PObject properties =>
          forallb (fun np => match np.2 with PropertyValue p => shallow n p | PropertyRef _ => true end) properties
      | _ => true
      end
  end.

Definition property_ok (P : PropertyInstance -> Prop) (np : bytes * Property) : Prop :=
  match np.2 with PropertyValue p => P p | PropertyRef _ => True end.

Section Bodies.
Context `{RandValues}.

Lemma object_loop_extends element properties ret :
  Forall (property_ok (fun p => draws (element p) (fun _ => True))) properties ->
  draws (object_loop element properties ret) (fun t => exists tail, t = ret ++ tail).
Proof.
  intros Hps. revert ret.
  induction Hps as [|[name [p|reference]] ps Hp _ IH]; intros ret; cbn [object_loop].
  - apply draws_ret. exists []. by rewrite app_nil_r.
  - eapply draws_bind; [exact Hp|]. intros e _. eapply draws_weaken; [apply IH|].
    intros t [tail ->]. eexists. by rewrite <- app_assoc.
  - eapply draws_weaken; [apply IH|]. intros t [tail ->]. eexists. by rewrite <- app_assoc.
Qed.

(** After a first property, the text goes on with the name of the second. *)
Lemma object_loop_second element name q ps ret :
  Forall (property_ok (fun p => draws (element p) (fun _ => True))) ((name, q) :: ps) ->
  draws (object_loop element ((name, q) :: ps) ret)
    (fun t => exists tail, t = ret ++ name ++ tail /\ tail <> []).
Proof.
  intros Hps. inversion Hps as [|? ? Hq Hrest]; subst. destruct q as [p|reference]; cbn [object_loop].
  - eapply draws_bind; [exact Hq|]. intros e _. eapply draws_weaken; [by apply object_loop_extends|].
    intros t [tail ->]. eexists. split; [by rewrite <- !app_assoc|done].
  - eapply draws_weaken; [by apply object_loop_extends|].
    intros t [tail ->]. eexists. split; [by rewrite <- !app_assoc|]. by destruct reference.
Qed.

Lemma shallow_properties n properties (P : PropertyInstance -> Prop) :
  (forall p, shallow n p = true -> P p) ->
  forallb (fun np => match np.2 with PropertyValue p => shallow n p | PropertyRef _ => true end) properties = true ->
  Forall (property_ok P) properties.
Proof.
  intros HP Hf. apply Forall_forall. intros [name q] Hin. rewrite forallb_forall in Hf.
  specialize (Hf _ (proj1 (list_elem_of_In _ _) Hin)). destruct q as [p|]; [by apply HP|done].
Qed.

Lemma draws_json n p size : 0 <= size -> shallow n p = true -> draws (random_json n (Some p) size) (fun _ => True).
Proof.
  intros Hz. revert p. induction n as [|n IH]; intros p Hp; [done|]. cbn [random_json shallow] in *.
  destruct p as [| | | |items|properties|]; try done.
  - by apply draws_ret.
  - flip; by apply draws_ret.
  - apply draws_fmap. eapply draws_weaken; [apply draws_number|done].
  - apply draws_fmap. eapply draws_weaken; [apply draws_number|done].
  - apply draws_fmap. eapply draws_weaken; [apply object_loop_extends|done].
    by apply (shallow_properties n).
  - apply draws_fmap. eapply draws_weaken; [by apply draws_string|done].
Qed.

Definition is_simple (p : PropertyInstance) : bool :=
  match p with PNull | PBoolean | PInteger | PNumber => true | _ => false end.

Lemma draws_simple n p size : is_simple p = true -> draws (random_json (S n) (Some p) size) simple_text.
Proof.
  destruct p; try done; intros _; cbn [random_json].
  - apply draws_ret. constructor.
  - eapply draws_bind; [eauto 8 with rand|]. intros b _. apply draws_ret, simple_bool.
  - apply draws_fmap. eapply draws_weaken; [apply draws_number|]. intros s [Hs _]. by constructor.
  - apply draws_fmap. eapply draws_weaken; [apply draws_number|]. intros s [Hs _]. by constructor.
Qed.

(** The text of an object with two properties or more. *)
Definition two_properties (a e b tail : bytes) : bytes :=
  lit "{" ++ quoted a ++ lit ": " ++ e ++ lit "," ++ b ++ tail.

Lemma two_properties_rejected n a e b tail : clean a -> simple_text e -> opens_badly b ->
  accepts n (two_properties a e b tail) = false.
Proof.
  intros Ha He Hb. unfold accepts. replace (value n (two_properties a e b tail)) with (@None bytes); [done|].
  symmetry. unfold two_properties, quoted, quote. rewrite <- !app_assoc.
  change (value n (123 :: 34 :: a ++ 34 :: 58 :: 32 :: e ++ 44 :: b ++ tail) = None).
  destruct n as [|n]; [done|].
  transitivity (members n (34 :: a ++ 34 :: 58 :: 32 :: e ++ 44 :: b ++ tail)); [done|].
  destruct n as [|n]; [done|].
  transitivity (rest ← string_rest (a ++ 34 :: 58 :: 32 :: e ++ 44 :: b ++ tail); s ← after 58 rest;
    rest ← value n s; match after 125 rest with Some s => Some s | None => s ← after 44 rest; members n s end);
    [done|].
  rewrite string_rest_clean by done.
  transitivity (rest ← value n (32 :: e ++ 44 :: b ++ tail);
    match after 125 rest with Some s => Some s | None => s ← after 44 rest; members n s end); [done|].
  destruct n as [|n]; [done|]. change (value (S n) (32 :: ?s)) with (value (S n) s).
  rewrite value_simple by done. change (members (S n) (b ++ tail) = None). apply members_bad. by destruct b.
Qed.

(** The body for an object schema with two properties or more is no JSON: it is
    always made, without a panic, and no reader of JSON accepts it, because only
    the first name has its opening quote.  The first property is null, a boolean or
    a number here, and the names are ordinary texts. *)
Theorem object_body_malformed (n : nat) (a b : bytes) (p : PropertyInstance) (q : Property)
  (ps : list (bytes * Property)) (size : Z) (r : rng) :
  0 <= size -> clean a -> is_simple p = true -> opens_badly b ->
  shallow (S n) (PObject ((a, PropertyValue p) :: (b, q) :: ps)) = true ->
  exists text r', random_json (S n) (Some (PObject ((a, PropertyValue p) :: (b, q) :: ps))) size r = Ok (text, r') /\
    forall m, accepts m text = false.
Proof.
  intros Hz Ha Hp Hb Hs. cbn [shallow forallb] in Hs. apply andb_true_iff in Hs as [Hp' Hrest].
  destruct n as [|n]; [done|]. set (element p := random_json (S n) (Some p) size).
  assert (Hobj : draws (close_object <$> object_loop element ((a, PropertyValue p) :: (b, q) :: ps) (lit "{" ++ quote))
    (fun t => forall m, accepts m t = false)); [|exact (Hobj r)].
  apply draws_fmap. cbn [object_loop]. eapply draws_bind; [by apply draws_simple|]. intros e He.
  eapply draws_weaken.
  { apply object_loop_second. apply (shallow_properties (S n)); [|done]. intros p'. by apply draws_json. }
  intros t (tail & -> & Htail) m.
  destruct (exists_last Htail) as (tail' & c & ->).
  assert (E : close_object (((lit "{" ++ quote) ++ a ++ quote ++ lit ": " ++ e ++ lit ",") ++ b ++ tail' ++ [c]) =
    two_properties a e b (tail' ++ lit "}")).
  { unfold close_object, two_properties, quoted. destruct (Z.ltb_spec 1 (zlen
      (((lit "{" ++ quote) ++ a ++ quote ++ lit ": " ++ e ++ lit ",") ++ b ++ tail' ++ [c]))) as [_|Hl].
    - rewrite !app_assoc, removelast_last. by rewrite <- !app_assoc.
    - unfold zlen in Hl. rewrite !length_app in Hl. cbn in Hl. lia. }
  rewrite E. by apply two_properties_rejected.
Qed.

(** An object with one such property is JSON. *)
Lemma one_property_accepted a e : clean a -> simple_text e ->
  accepts 3 (lit "{" ++ quoted a ++ lit ": " ++ e ++ lit "}") = true.
Proof.
  intros Ha He. unfold accepts, quoted, quote. rewrite <- !app_assoc.
  match goal with |- context [value 3 ?s] => replace (value 3 s) with (Some (@nil Z)); [done|symmetry] end.
  change (value 3 (123 :: 34 :: a ++ 34 :: 58 :: 32 :: e ++ [125]) = Some []).
  transitivity (rest ← string_rest (a ++ 34 :: 58 :: 32 :: e ++ [125]); s ← after 58 rest;
    rest ← value 1 s; match after 125 rest with Some s => Some s | None => s ← after 44 rest; members 1 s end);
    [done|].
  rewrite string_rest_clean by done.
  transitivity (rest ← value 1 (e ++ [125]);
    match after 125 rest with Some s => Some s | None => s ← after 44 rest; members 1 s end); [done|].
  by rewrite value_simple.
Qed.
End Bodies.

(** The injection of a block: two numbers. *)
Lemma object_body_malformed_witness :
  exists text r', random_json (H0 := alternating_values) 3
      (Some (PObject [(lit "level", PropertyValue PInteger); (lit "data", PropertyValue PString)])) 7
      (true, 65) = Ok (text, r') /\ forall m, accepts m text = false.
Proof.
  apply (object_body_malformed (H0 := alternating_values) 2 (lit "level") (lit "data") PInteger (PropertyValue PString) []);
    [done| |done|done|done].
  unfold clean. apply (bool_decide_unpack _). by vm_compute.
Defined.

(** ** Smaller facts *)

(** Nothing bounds the nesting of a body without a schema: a generator that always
    draws a list, and the whole size for its first element, never comes back. *)
#[export] Instance greedy_rand : RandCrate | 100.
Proof.
  refine {| rng := unit; f64 := unit; rng_bool _ r := Some (true, r);
            rng_range lo hi r :=
              if lo <? hi then Some (if (lo =? 0) && (hi =? 10) then 5 else hi - 1, r) else None;
            rng_flag r := (true, r); rng_shuffle l r := (l, r) |}.
  - intros lo hi r Hl. destruct (Z.ltb_spec lo hi); [|lia]. eexists _, _. split; [done|].
    destruct (Z.eqb_spec lo 0), (Z.eqb_spec hi 10); cbn; lia.
  - intros lo hi r Hl. by destruct (Z.ltb_spec lo hi); [lia|].
  - intros l r. reflexivity.
Defined.

Lemma list_loop_greedy n (element : Z -> R (H := greedy_rand) bytes) ret :
  element 1 tt = Err OutOfFuel -> list_loop (H := greedy_rand) n element 1 ret tt = Err OutOfFuel.
Proof.
  intros He. destruct n as [|n]; [done|].
  transitivity (match element 1 tt with
    | Ok (e, r) => list_loop (H := greedy_rand) n element 0 (ret ++ e ++ []) r | Err x => Err x end); [done|].
  by rewrite He.
Qed.

Lemma body_without_end (V : @RandValues greedy_rand) n : random_json (H0 := V) n None 1 tt = Err OutOfFuel.
Proof.
  induction n as [|n IH]; [done|].
  transitivity (match list_loop (H := greedy_rand) n (random_json (H0 := V) n None) 1 (lit "[") tt with
    | Ok (ret, r) => Ok (ret ++ lit "]", r) | Err x => Err x end); [done|]. by rewrite list_loop_greedy.
Qed.

(** The first worker's seed does not depend on the seed. *)
Lemma first_worker_seed seed : worker_seed seed 0 = 0.
Proof. unfold worker_seed. by rewrite Z.mul_0_r. Qed.

(** [required] is a boolean in OpenAPI, and never true here. *)
Lemma required_not_read param b p : value_index "required" param = VBool b ->
  parse_parameter param = Ok p -> required p = false.
Proof.
  intros Hr. unfold parse_parameter. rewrite Hr. cbn [as_str].
  destruct (as_object (value_index "schema" param)) as [o|]; [|done]. cbn.
  destruct (map_index "type" o) as [t|]; [|done]. cbn. destruct (as_str t) as [s|]; [|done]. cbn.
  destruct (if bool_decide (s = lit "string") then _ else _); [|done]. cbn.
  destruct (as_str (value_index "name" param)); [|done]. by intros [= <-].
Qed.
