(* ===== verification/RpcMain.v ===== *)
(** * How the RPC fuzzer is started ([rpc_fuzzer/src/bin/rpc_fuzzer.rs], [main])

    The options with their defaults, the schema files, and the workers that are
    spawned.  [clap] gives the value of an option or its default; the directories of
    schemas are a class, in which a failure that is unwrapped is [None]. *)

From Stdlib Require Import ZArith Lia List Bool String Ascii.
From stdpp Require Import base option list numbers strings gmap.
From S2P Require Import Prelude CryptoHash ChunkStream PublicKeys Generator RpcFuzz Environment EnvironmentFacts.

Set Warnings "-register-all".
Local Open Scope string_scope.
Local Open Scope list_scope.
Local Open Scope Z_scope.

(** ** Options *)
Record FuzzerOptions : Type := mkFuzzerOptions {
  node : string; seed : string; threads : string; shell_schemas : string; protocol_schemas : string;
}.

(** What is not given on the command line. *)
Definition default_options : FuzzerOptions :=
  mkFuzzerOptions "172.18.0.101:18732" "1234567890" "20" "./rpc_shell_schemas/" "./rpc_protocol_schemas/".

Definition get_matches (value_of : string -> option string) : FuzzerOptions :=
  mkFuzzerOptions (default (node default_options) (value_of "node")) (default (seed default_options) (value_of "seed"))
    (default (threads default_options) (value_of "threads"))
    (default (shell_schemas default_options) (value_of "shell_schemas"))
    (default (protocol_schemas default_options) (value_of "protocol_schemas")).

(** [str::parse] at an unsigned type. *)
Definition parse_unsigned (max : Z) (s : string) : result ParseIntError Z :=
  match s with
  | EmptyString => Err IntEmpty
  | String a EmptyString =>
      if (Ascii.eqb a "+" || Ascii.eqb a "-")%bool then Err IntInvalidDigit else parse_digits max 0 s
  | String a s' => if Ascii.eqb a "+" then parse_digits max 0 s' else parse_digits max 0 s
  end.
Definition parse_u64 : string -> result ParseIntError Z := parse_unsigned (2 ^ 64 - 1).

Lemma parse_unsigned_u16 s : parse_unsigned 65535 s = parse_u16 s.
Proof. reflexivity. Qed.

(** ** [main] *)

(** The texts of the files of a directory. *)
Class SchemaDirs : Type := {
  read_schemas : string -> option (list bytes);
  max_fd : option Z;
}.

Section Main.
Context `{SerdeJson, SchemaCrate, SchemaDirs}.

(** [read_to_string] and [serde_json::from_str]. *)
Definition documents (dir : string) : result stop (list Value) :=
  texts ← ok_or (read_schemas dir) StopPanicked;
  try_map (fun text => ok_or (json_from_slice text) StopPanicked) texts.

(** A task: what [worker] is called with. *)
Record Task : Type := mkTask { task_target : bytes; task_paths : list Path; task_seed : Z }.

Definition spawn (target : bytes) (paths : list Path) (seed threads : Z) : list Task :=
  map (fun n => mkTask target paths (worker_seed seed (Z.of_nat n))) (seq 0 (Z.to_nat threads)).

Definition main (value_of : string -> option string) : result stop (list Task) :=
  let matches := get_matches value_of in
  seed ← map_err (fun _ => StopPanicked) (parse_u64 (seed matches));
  threads ← map_err (fun _ => StopPanicked) (parse_u64 (threads matches));
  _ ← ok_or max_fd StopPanicked;
  shell ← documents (shell_schemas matches);
  protocol ← documents (protocol_schemas matches);
  paths ← load_paths shell protocol;
  Ok (spawn (lit (node matches)) paths seed threads).

(** The tasks that are started: as many as asked for, each on all paths, and with
    seeds of their own as long as the largest product does not wrap. *)
Lemma main_tasks value_of tasks : main value_of = Ok tasks ->
  exists seed threads paths, parse_u64 (RpcMain.seed (get_matches value_of)) = Ok seed /\
    parse_u64 (RpcMain.threads (get_matches value_of)) = Ok threads /\
    length tasks = Z.to_nat threads /\
    Forall (fun t => task_target t = lit (node (get_matches value_of)) /\ task_paths t = paths) tasks /\
    (0 < seed -> seed * (threads - 1) < 2 ^ 64 -> NoDup (map task_seed tasks)).
Proof.
  unfold main. intros E. destruct (parse_u64 (RpcMain.seed _)) as [sd|]; [|done].
  destruct (parse_u64 (RpcMain.threads _)) as [th|]; [|done]. cbn [map_err mbind result_bind] in E.
  destruct max_fd; [|done]. cbn [ok_or mbind result_bind] in E.
  destruct (documents (shell_schemas _)) as [shell|]; [|done]. cbn [mbind result_bind] in E.
  destruct (documents (protocol_schemas _)) as [protocol|]; [|done]. cbn [mbind result_bind] in E.
  destruct (load_paths shell protocol) as [paths|]; [|done]. injection E as <-.
  exists sd, th, paths. split; [done|]. split; [done|]. unfold spawn.
  split; [by rewrite length_map, length_seq|]. split.
  - apply Forall_map, Forall_true. by intros n.
  - intros Hs Hw. rewrite map_map. cbn [task_seed]. apply NoDup_fmap_2_strong; [|apply NoDup_seq].
    intros x y [_ Hx]%elem_of_seq [_ Hy]%elem_of_seq. unfold worker_seed, uwrap.
    rewrite !Z.mod_small by nia. nia.
Qed.
End Main.

(** Without options: twenty workers with different seeds, the first of which is 0. *)
Lemma default_seeds : parse_u64 (seed default_options) = Ok 1234567890 /\ parse_u64 (threads default_options) = Ok 20.
Proof. by vm_compute. Qed.
