(* ===== verification/Timing.v ===== *)
(** * Timing statistics of context actions ([tezos/timing/src/lib.rs],
    [tezos/new_context/src/timings.rs])

    The hooks of the context send messages to a thread that sums up the times of
    actions, per block and over all blocks, and writes them to an SQLite database
    ([schema_stats.sql]).  Times are IEEE binary64 numbers, computed with
    [SpecFloat].  The database is a class: what the thread executes is a value of
    [Statement], one for each SQL text of the source, and the law says what the
    statement does to the [Tables] of the schema.  A call that fails leaves the
    statistics as far as it got.  Printing is left out, and so is the table
    [actions], whose insertion is disabled in the source. *)

From Stdlib Require Import ZArith Lia List Bool String Ascii SpecFloat.
From stdpp Require Import base option list numbers strings gmap pretty.
From S2P Require Import Prelude.

Local Open Scope string_scope.
Local Open Scope list_scope.
Local Open Scope Z_scope.

(** ** [f64] *)
Definition f64 : Type := spec_float.
Definition f64_add : f64 -> f64 -> f64 := SFadd 53 1024.
Definition f64_div : f64 -> f64 -> f64 := SFdiv 53 1024.
Definition f64_lt : f64 -> f64 -> bool := SFltb.
Definition is_nan (x : f64) : bool := match x with S754_nan => true | _ => false end.
(** [f64::max]: a NaN gives way to the other argument. *)
Definition f64_max (x y : f64) : f64 :=
  if is_nan x then y else if is_nan y then x else if f64_lt x y then y else x.
(** [n as f64]. *)
Definition f64_of (n : Z) : f64 := binary_normalize 53 1024 n 0 false.
Definition f64_zero : f64 := S754_zero false.
(** The decimal literal [1 / n], correctly rounded. *)
Definition f64_inv (n : Z) : f64 := f64_div (f64_of 1) (f64_of n).

Definition usize_add (n k : Z) : Z := Z.min (n + k) (2 ^ 64 - 1).

(** ** Messages *)
Definition FILENAME_DB : string := "context_stats.db".

Inductive ActionKind : Type := Mem | MemTree | Find | FindTree | Add | AddTree | Remove.

#[export] Instance ActionKind_eq_dec : EqDecision ActionKind.
Proof. solve_decision. Defined.

Definition to_str (k : ActionKind) : string :=
  match k with
  | Mem => "mem" | MemTree => "mem_tree" | Find => "find" | FindTree => "find_tree"
  | Add => "add" | AddTree => "add_tree" | Remove => "remove"
  end.

Record Action : Type := mkAction {
  action_name : ActionKind;
  key : list string;
  irmin_time : option f64;
  tezedge_time : option f64;
}.

(** Durations and instants are nanoseconds. *)
Inductive TimingMessage : Type :=
| SetBlock (block_hash : option bytes) (timestamp : option Z) (instant : Z)
| SetOperation (operation_hash : option bytes)
| Checkout (context_hash : bytes) (irmin_time tezedge_time : option f64)
| Commit (irmin_time tezedge_time : option f64)
| TimeAction (a : Action)
| InitTiming (db_path : option string).

(** ** Statistics *)
Record DetailedTime : Type := mkDetailed {
  count : Z; mean_time : f64; max_time : f64; total_time : f64;
}.
Definition no_time : DetailedTime := mkDetailed 0 f64_zero f64_zero f64_zero.

Definition mean (total : f64) (n : Z) : f64 := f64_max (f64_div total (f64_of n)) f64_zero.
Definition detailed_compute_mean (d : DetailedTime) : DetailedTime :=
  mkDetailed (count d) (mean (total_time d) (count d)) (max_time d) (total_time d).
Definition detailed_add (time : f64) (d : DetailedTime) : DetailedTime :=
  mkDetailed (usize_add (count d) 1) (mean_time d) (f64_max (max_time d) time) (f64_add (total_time d) time).

(** The ranges of a [RangeStats], from the fastest to the slowest: the fields
    [one_to_ten_us] to [one_hundred_s]. *)
Inductive Range : Type :=
| OneToTenUs | TenToOneHundredUs | OneHundredUsToOneMs | OneToTenMs | TenToOneHundredMs
| OneHundredMsToOneS | OneToTenS | TenToOneHundredS | OneHundredS.

#[export] Instance Range_eq_dec : EqDecision Range.
Proof. solve_decision. Defined.

Definition ranges : list Range :=
  [OneToTenUs; TenToOneHundredUs; OneHundredUsToOneMs; OneToTenMs; TenToOneHundredMs;
   OneHundredMsToOneS; OneToTenS; TenToOneHundredS; OneHundredS].

Record RangeStats : Type := mkRange {
  range_total_time : f64;
  range_actions_count : Z;
  one_to_ten_us : DetailedTime;
  ten_to_one_hundred_us : DetailedTime;
  one_hundred_us_to_one_ms : DetailedTime;
  one_to_ten_ms : DetailedTime;
  ten_to_one_hundred_ms : DetailedTime;
  one_hundred_ms_to_one_s : DetailedTime;
  one_to_ten_s : DetailedTime;
  ten_to_one_hundred_s : DetailedTime;
  one_hundred_s : DetailedTime;
}.
Definition no_ranges : RangeStats :=
  mkRange f64_zero 0 no_time no_time no_time no_time no_time no_time no_time no_time no_time.

Definition in_range (r : Range) (s : RangeStats) : DetailedTime :=
  match r with
  | OneToTenUs => one_to_ten_us s
  | TenToOneHundredUs => ten_to_one_hundred_us s
  | OneHundredUsToOneMs => one_hundred_us_to_one_ms s
  | OneToTenMs => one_to_ten_ms s
  | TenToOneHundredMs => ten_to_one_hundred_ms s
  | OneHundredMsToOneS => one_hundred_ms_to_one_s s
  | OneToTenS => one_to_ten_s s
  | TenToOneHundredS => ten_to_one_hundred_s s
  | OneHundredS => one_hundred_s s
  end.

(** An assignment to one range, or to all of them. *)
Definition map_ranges (f : Range -> DetailedTime -> DetailedTime) (s : RangeStats) : RangeStats :=
  mkRange (range_total_time s) (range_actions_count s)
    (f OneToTenUs (one_to_ten_us s)) (f TenToOneHundredUs (ten_to_one_hundred_us s))
    (f OneHundredUsToOneMs (one_hundred_us_to_one_ms s)) (f OneToTenMs (one_to_ten_ms s))
    (f TenToOneHundredMs (ten_to_one_hundred_ms s)) (f OneHundredMsToOneS (one_hundred_ms_to_one_s s))
    (f OneToTenS (one_to_ten_s s)) (f TenToOneHundredS (ten_to_one_hundred_s s))
    (f OneHundredS (one_hundred_s s)).

Definition range_compute_mean (s : RangeStats) : RangeStats :=
  map_ranges (fun _ => detailed_compute_mean) s.

(** The bounds of the [match] of [add_time]. *)
Definition range_of (t : f64) : Range :=
  if f64_lt t (f64_inv 100000) then OneToTenUs
  else if f64_lt t (f64_inv 10000) then TenToOneHundredUs
  else if f64_lt t (f64_inv 1000) then OneHundredUsToOneMs
  else if f64_lt t (f64_inv 100) then OneToTenMs
  else if f64_lt t (f64_inv 10) then TenToOneHundredMs
  else if f64_lt t (f64_of 1) then OneHundredMsToOneS
  else if f64_lt t (f64_of 10) then OneToTenS
  else if f64_lt t (f64_of 100) then TenToOneHundredS
  else OneHundredS.

Definition add_time (time : option f64) (s : RangeStats) : RangeStats :=
  match time with
  | None => s
  | Some t =>
      map_ranges (fun r d => if decide (r = range_of t) then detailed_add t d else d)
        (mkRange (f64_add (range_total_time s) t) (usize_add (range_actions_count s) 1)
           (one_to_ten_us s) (ten_to_one_hundred_us s) (one_hundred_us_to_one_ms s) (one_to_ten_ms s)
           (ten_to_one_hundred_ms s) (one_hundred_ms_to_one_s s) (one_to_ten_s s)
           (ten_to_one_hundred_s s) (one_hundred_s s))
  end.

(** A value for each kind of action: the seven fields of the records below. *)
Record PerAction (A : Type) : Type := mkPer {
  p_mem : A; p_mem_tree : A; p_find : A; p_find_tree : A; p_add : A; p_add_tree : A; p_remove : A;
}.
Arguments mkPer {A}.
Arguments p_mem {A}.
Arguments p_mem_tree {A}.
Arguments p_find {A}.
Arguments p_find_tree {A}.
Arguments p_add {A}.
Arguments p_add_tree {A}.
Arguments p_remove {A}.

Definition per_all {A} (a : A) : PerAction A := mkPer a a a a a a a.
Definition per_get {A} (k : ActionKind) (p : PerAction A) : A :=
  match k with
  | Mem => p_mem p | MemTree => p_mem_tree p | Find => p_find p | FindTree => p_find_tree p
  | Add => p_add p | AddTree => p_add_tree p | Remove => p_remove p
  end.
Definition per_map {A B} (f : A -> B) (p : PerAction A) : PerAction B :=
  mkPer (f (p_mem p)) (f (p_mem_tree p)) (f (p_find p)) (f (p_find_tree p)) (f (p_add p))
    (f (p_add_tree p)) (f (p_remove p)).
Definition per_update {A} (k : ActionKind) (f : A -> A) (p : PerAction A) : PerAction A :=
  match k with
  | Mem => mkPer (f (p_mem p)) (p_mem_tree p) (p_find p) (p_find_tree p) (p_add p) (p_add_tree p) (p_remove p)
  | MemTree => mkPer (p_mem p) (f (p_mem_tree p)) (p_find p) (p_find_tree p) (p_add p) (p_add_tree p) (p_remove p)
  | Find => mkPer (p_mem p) (p_mem_tree p) (f (p_find p)) (p_find_tree p) (p_add p) (p_add_tree p) (p_remove p)
  | FindTree => mkPer (p_mem p) (p_mem_tree p) (p_find p) (f (p_find_tree p)) (p_add p) (p_add_tree p) (p_remove p)
  | Add => mkPer (p_mem p) (p_mem_tree p) (p_find p) (p_find_tree p) (f (p_add p)) (p_add_tree p) (p_remove p)
  | AddTree => mkPer (p_mem p) (p_mem_tree p) (p_find p) (p_find_tree p) (p_add p) (f (p_add_tree p)) (p_remove p)
  | Remove => mkPer (p_mem p) (p_mem_tree p) (p_find p) (p_find_tree p) (p_add p) (p_add_tree p) (f (p_remove p))
  end.

Record ActionStatsWithRange : Type := mkWithRange {
  wr_root : string;
  wr_total_time_read : f64;
  wr_total_time_write : f64;
  wr_total_time : f64;
  wr_actions_count : Z;
  wr_actions : PerAction RangeStats;
}.
Definition with_range_default (root : string) : ActionStatsWithRange :=
  mkWithRange root f64_zero f64_zero f64_zero 0 (per_all no_ranges).

Definition with_range_compute_mean (s : ActionStatsWithRange) : ActionStatsWithRange :=
  mkWithRange (wr_root s) (wr_total_time_read s) (wr_total_time_write s) (wr_total_time s)
    (wr_actions_count s) (per_map range_compute_mean (wr_actions s)).

Definition compute_total (s : ActionStatsWithRange) : ActionStatsWithRange :=
  let time k := range_total_time (per_get k (wr_actions s)) in
  let n k := range_actions_count (per_get k (wr_actions s)) in
  let read := f64_add (f64_add (f64_add (time Mem) (time MemTree)) (time Find)) (time FindTree) in
  let write := f64_add (f64_add (time Add) (time AddTree)) (time Remove) in
  mkWithRange (wr_root s) read write (f64_add read write)
    (usize_add (usize_add (usize_add (usize_add (usize_add (usize_add (n Mem) (n MemTree)) (n Find))
       (n FindTree)) (n Add)) (n AddTree)) (n Remove))
    (wr_actions s).

(** One of the two halves of an [ActionStats]: the fields [tezedge_*] or [irmin_*]. *)
Record HalfStats : Type := mkHalf {
  h_count : Z; h_mean_time : f64; h_max_time : f64; h_total_time : f64; h_actions : PerAction f64;
}.
Definition no_half : HalfStats := mkHalf 0 f64_zero f64_zero f64_zero (per_all f64_zero).
Record ActionStats : Type := mkStats { as_root : string; tezedge : HalfStats; irmin : HalfStats }.

Definition half_compute_mean (h : HalfStats) : HalfStats :=
  mkHalf (h_count h) (mean (h_total_time h) (h_count h)) (h_max_time h) (h_total_time h) (h_actions h).
Definition stats_compute_mean (s : ActionStats) : ActionStats :=
  mkStats (as_root s) (half_compute_mean (tezedge s)) (half_compute_mean (irmin s)).

Definition half_add (k : ActionKind) (time : option f64) (h : HalfStats) : HalfStats :=
  match time with
  | None => h
  | Some t =>
      mkHalf (usize_add (h_count h) 1) (h_mean_time h) (f64_max (h_max_time h) t)
        (f64_add (h_total_time h) t) (per_update k (fun v => f64_add v t) (h_actions h))
  end.

(** ** The database *)
Inductive HashTable : Type := Blocks | Operations | Contexts.

#[export] Instance HashTable_eq_dec : EqDecision HashTable.
Proof. solve_decision. Defined.

(** What the thread executes, with the values it binds.  Ids are bound as text. *)
Inductive Statement : Type :=
| InsertHash (table : HashTable) (hash : string)
| InsertKey (k : string)
| UpdateBlockTime (secs nanos duration : Z) (block_id : option string)
| UpdateBlockStats (actions_count : Z) (checkout_irmin checkout_tezedge commit_irmin commit_tezedge : option f64)
    (block_id : option string)
| InsertBlockStats (root : string) (block_id : option string) (stats : ActionStats)
| InsertGlobal (root action_name context_name : string)
| UpdateGlobal (root action_name context_name : string) (stats : RangeStats).

(** The rows of the schema; a column that was never set is null. *)
Record BlockInfo : Type := mkInfo {
  b_actions_count : option Z;
  b_checkout_irmin : option f64;
  b_checkout_tezedge : option f64;
  b_commit_irmin : option f64;
  b_commit_tezedge : option f64;
  b_time : option (Z * Z * Z);
}.
Definition no_info : BlockInfo := mkInfo None None None None None None.

Record HashRow : Type := mkRow { row_id : Z; row_hash : string; row_info : BlockInfo }.

Record Tables : Type := mkTables {
  hash_rows : HashTable -> list HashRow;
  key_rows : list (Z * string);
  block_stats_rows : list (string * option string * ActionStats);
  global_rows : list (string * string * string * RangeStats);
}.

(** [AUTOINCREMENT] with no deletions: one more than the largest id. *)
Definition next_id (ids : list Z) : Z := 1 + foldr Z.max 0 ids.

(** [INSERT OR IGNORE] with a unique hash. *)
Definition insert_hash (hash : string) (rows : list HashRow) : list HashRow :=
  if existsb (fun r => bool_decide (row_hash r = hash)) rows then rows
  else rows ++ [mkRow (next_id (map row_id rows)) hash no_info].

(** [WHERE id = ..]: nothing is equal to null. *)
Definition update_block (f : BlockInfo -> BlockInfo) (block_id : option string) (rows : list HashRow)
  : list HashRow :=
  map (fun r => if bool_decide (block_id = Some (pretty (row_id r)))
                then mkRow (row_id r) (row_hash r) (f (row_info r)) else r) rows.

Definition set_rows (t : HashTable) (f : list HashRow -> list HashRow) (T : Tables) : Tables :=
  mkTables (fun t' => if decide (t' = t) then f (hash_rows T t) else hash_rows T t')
    (key_rows T) (block_stats_rows T) (global_rows T).

Definition apply_statement (s : Statement) (T : Tables) : Tables :=
  match s with
  | InsertHash t hash => set_rows t (insert_hash hash) T
  | InsertKey k =>
      mkTables (hash_rows T)
        (if existsb (fun r => bool_decide (r.2 = k)) (key_rows T) then key_rows T
         else key_rows T ++ [(next_id (map fst (key_rows T)), k)])
        (block_stats_rows T) (global_rows T)
  | UpdateBlockTime secs nanos duration id =>
      set_rows Blocks (update_block (fun i =>
        mkInfo (b_actions_count i) (b_checkout_irmin i) (b_checkout_tezedge i) (b_commit_irmin i)
          (b_commit_tezedge i) (Some (secs, nanos, duration))) id) T
  | UpdateBlockStats n ci ct mi mt id =>
      set_rows Blocks (update_block (fun i => mkInfo (Some n) ci ct mi mt (b_time i)) id) T
  | InsertBlockStats root id stats =>
      mkTables (hash_rows T) (key_rows T) (block_stats_rows T ++ [(root, id, stats)]) (global_rows T)
  | InsertGlobal root name context =>
      mkTables (hash_rows T) (key_rows T) (block_stats_rows T)
        (if existsb (fun r => bool_decide (r.1 = (root, name, context))) (global_rows T) then global_rows T
         else global_rows T ++ [(root, name, context, no_ranges)])
  | UpdateGlobal root name context stats =>
      mkTables (hash_rows T) (key_rows T) (block_stats_rows T)
        (map (fun r => if bool_decide (r.1 = (root, name, context)) then (r.1, stats) else r) (global_rows T))
  end.

Definition find_hash (hash : string) (rows : list HashRow) : option Z :=
  row_id <$> List.find (fun r => bool_decide (row_hash r = hash)) rows.
Definition find_key (k : string) (rows : list (Z * string)) : option Z :=
  fst <$> List.find (fun r => bool_decide (r.2 = k)) rows.

(** [rusqlite]: any call may fail; a statement that fails has no effect. *)
Class Rusqlite : Type := {
  Connection : Type;
  SQLError : Type;
  NoRows : SQLError;
  tables : Connection -> Tables;
  execute : Statement -> Connection -> result SQLError unit * Connection;
  query_hash : HashTable -> string -> Connection -> result SQLError (option Z) * Connection;
  query_key : string -> Connection -> result SQLError (option Z) * Connection;
  begin_transaction : Connection -> result SQLError unit * Connection;
  commit_transaction : Connection -> result SQLError unit * Connection;
  execute_ok s c c' : execute s c = (Ok tt, c') -> tables c' = apply_statement s (tables c);
  execute_err s c e c' : execute s c = (Err e, c') -> tables c' = tables c;
  query_hash_ok t h c r c' : query_hash t h c = (r, c') ->
    tables c' = tables c /\ forall o, r = Ok o -> o = find_hash h (hash_rows (tables c) t);
  query_key_ok k c r c' : query_key k c = (r, c') ->
    tables c' = tables c /\ forall o, r = Ok o -> o = find_key k (key_rows (tables c));
  begin_ok c r c' : begin_transaction c = (r, c') -> tables c' = tables c;
  commit_ok c c' : commit_transaction c = (Ok tt, c') -> tables c' = tables c;
}.

(** The order in which a [HashMap] is visited. *)
Class MapOrder : Type := {
  map_iter : forall {A}, gmap string A -> list (string * A);
  map_iter_perm {A} (m : gmap string A) : Permutation (map_iter m) (map_to_list m);
}.

(** ** [Timing] *)
Section Timing.
Context `{Rusqlite, MapOrder}.

Record Timing : Type := mkTiming {
  current_block : option (string * bytes);
  current_operation : option (string * bytes);
  current_context : option (string * bytes);
  block_started_at : option (Z * Z);
  nactions : Z;
  checkout_time : option (option f64 * option f64);
  block_stats : gmap string ActionStats;
  tezedge_global_stats : gmap string ActionStatsWithRange;
  irmin_global_stats : gmap string ActionStatsWithRange;
  tezedge_commit_stats : RangeStats;
  irmin_commit_stats : RangeStats;
  tezedge_checkout_stats : RangeStats;
  irmin_checkout_stats : RangeStats;
}.

Definition Timing_new : Timing :=
  mkTiming None None None None 0 None ∅ ∅ ∅ no_ranges no_ranges no_ranges no_ranges.

(** The thread: its statistics, the connection, and whether it holds a transaction. *)
Record Thread : Type := mkThread { timing : Timing; sql : Connection; transaction : bool }.

Definition T (A : Type) : Type := Thread -> result SQLError A * Thread.

#[global] Instance T_ret : MRet T := fun A a s => (Ok a, s).
#[global] Instance T_bind : MBind T := fun A B f m s =>
  match m s with (Ok a, s) => f a s | (Err e, s) => (Err e, s) end.

Definition get : T Timing := fun s => (Ok (timing s), s).
Definition modify (f : Timing -> Timing) : T unit := fun s =>
  (Ok tt, mkThread (f (timing s)) (sql s) (transaction s)).
Definition fail {A} (e : SQLError) : T A := fun s => (Err e, s).
Definition on_sql {A} (f : Connection -> result SQLError A * Connection) : T A := fun s =>
  let (r, c) := f (sql s) in (r, mkThread (timing s) c (transaction s)).
Definition exec (st : Statement) : T unit := on_sql (execute st).
Definition set_transaction (b : bool) : T unit := fun s => (Ok tt, mkThread (timing s) (sql s) b).

Fixpoint for_each {A} (f : A -> T unit) (l : list A) : T unit :=
  match l with [] => mret tt | a :: l => _ ← f a; for_each f l end.

(** Assignments. *)
Definition set_block_field (v : option (string * bytes)) (t : Timing) : Timing :=
  mkTiming v (current_operation t) (current_context t) (block_started_at t) (nactions t) (checkout_time t)
    (block_stats t) (tezedge_global_stats t) (irmin_global_stats t) (tezedge_commit_stats t)
    (irmin_commit_stats t) (tezedge_checkout_stats t) (irmin_checkout_stats t).
Definition set_operation_field (v : option (string * bytes)) (t : Timing) : Timing :=
  mkTiming (current_block t) v (current_context t) (block_started_at t) (nactions t) (checkout_time t)
    (block_stats t) (tezedge_global_stats t) (irmin_global_stats t) (tezedge_commit_stats t)
    (irmin_commit_stats t) (tezedge_checkout_stats t) (irmin_checkout_stats t).
Definition set_context_field (v : option (string * bytes)) (t : Timing) : Timing :=
  mkTiming (current_block t) (current_operation t) v (block_started_at t) (nactions t) (checkout_time t)
    (block_stats t) (tezedge_global_stats t) (irmin_global_stats t) (tezedge_commit_stats t)
    (irmin_commit_stats t) (tezedge_checkout_stats t) (irmin_checkout_stats t).
Definition set_started (v : option (Z * Z)) (t : Timing) : Timing :=
  mkTiming (current_block t) (current_operation t) (current_context t) v (nactions t) (checkout_time t)
    (block_stats t) (tezedge_global_stats t) (irmin_global_stats t) (tezedge_commit_stats t)
    (irmin_commit_stats t) (tezedge_checkout_stats t) (irmin_checkout_stats t).
Definition set_nactions (v : Z) (t : Timing) : Timing :=
  mkTiming (current_block t) (current_operation t) (current_context t) (block_started_at t) v (checkout_time t)
    (block_stats t) (tezedge_global_stats t) (irmin_global_stats t) (tezedge_commit_stats t)
    (irmin_commit_stats t) (tezedge_checkout_stats t) (irmin_checkout_stats t).
Definition set_checkout_time (v : option (option f64 * option f64)) (t : Timing) : Timing :=
  mkTiming (current_block t) (current_operation t) (current_context t) (block_started_at t) (nactions t) v
    (block_stats t) (tezedge_global_stats t) (irmin_global_stats t) (tezedge_commit_stats t)
    (irmin_commit_stats t) (tezedge_checkout_stats t) (irmin_checkout_stats t).
Definition set_block_stats (v : gmap string ActionStats) (t : Timing) : Timing :=
  mkTiming (current_block t) (current_operation t) (current_context t) (block_started_at t) (nactions t)
    (checkout_time t) v (tezedge_global_stats t) (irmin_global_stats t) (tezedge_commit_stats t)
    (irmin_commit_stats t) (tezedge_checkout_stats t) (irmin_checkout_stats t).
Definition set_globals (te ir : gmap string ActionStatsWithRange) (t : Timing) : Timing :=
  mkTiming (current_block t) (current_operation t) (current_context t) (block_started_at t) (nactions t)
    (checkout_time t) (block_stats t) te ir (tezedge_commit_stats t) (irmin_commit_stats t)
    (tezedge_checkout_stats t) (irmin_checkout_stats t).
Definition set_commits (te ir : RangeStats) (t : Timing) : Timing :=
  mkTiming (current_block t) (current_operation t) (current_context t) (block_started_at t) (nactions t)
    (checkout_time t) (block_stats t) (tezedge_global_stats t) (irmin_global_stats t) te ir
    (tezedge_checkout_stats t) (irmin_checkout_stats t).
Definition set_checkouts (te ir : RangeStats) (t : Timing) : Timing :=
  mkTiming (current_block t) (current_operation t) (current_context t) (block_started_at t) (nactions t)
    (checkout_time t) (block_stats t) (tezedge_global_stats t) (irmin_global_stats t)
    (tezedge_commit_stats t) (irmin_commit_stats t) te ir.

(** [hash_to_string]. *)
Definition HEXCHARS : list ascii := list_ascii_of_string "0123456789abcdef".
Definition hex_char (n : Z) : ascii := nth (Z.to_nat n) HEXCHARS "0"%char.
Fixpoint hash_to_string (hash : bytes) : string :=
  match hash with
  | [] => EmptyString
  | b :: hash => String (hex_char (Z.shiftr b 4)) (String (hex_char (Z.land b 0xF)) (hash_to_string hash))
  end.

(** [set_current]: the new value of [current].  The row is looked for again after
    the insertion; [None] there is the panic of [expect], which the laws exclude. *)
Definition set_current (hash : option bytes) (current : option (string * bytes)) (table : HashTable)
  : T (option (string * bytes)) :=
  match hash with
  | None => mret None
  | Some h =>
      if bool_decide ((snd <$> current) = Some h) then mret current
      else
        let hash_string := hash_to_string h in
        found ← on_sql (query_hash table hash_string);
        match found with
        | Some id => mret (Some (pretty id, h))
        | None =>
            _ ← exec (InsertHash table hash_string);
            found ← on_sql (query_hash table hash_string);
            match found with
            | Some id => mret (Some (pretty id, h))
            | None => fail NoRows
            end
        end
  end.

Definition set_current_operation (operation_hash : option bytes) : T unit :=
  t ← get;
  v ← set_current operation_hash (current_operation t) Operations;
  modify (set_operation_field v).
Definition set_current_context (context_hash : bytes) : T unit :=
  t ← get;
  v ← set_current (Some context_hash) (current_context t) Contexts;
  modify (set_context_field v).

(** [saturating_duration_since(..).as_millis()] as a [u64]. *)
Definition millis_since (instant started : Z) : Z :=
  Z.min (Z.max 0 (instant - started) / 1000000) (2 ^ 64 - 1).

Definition block_id (t : Timing) : option string := fst <$> current_block t.

(** The reset at the end of [set_current_block]. *)
Definition reset_block (t : Timing) : Timing :=
  set_block_stats ∅ (set_nactions 0 (set_checkout_time None (set_operation_field None (set_context_field None t)))).

Definition set_current_block (block_hash : option bytes) (timestamp : option Z) (instant : Z) : T unit :=
  t ← get;
  _ ← match timestamp with
      | Some ts => modify (set_started (Some (ts, instant)))
      | None =>
          match block_started_at t with
          | Some (ts, started) =>
              _ ← modify (set_started None);
              exec (UpdateBlockTime (ts / 1000000000) (ts mod 1000000000) (millis_since instant started) (block_id t))
          | None => mret tt
          end
      end;
  v ← set_current block_hash (current_block t) Blocks;
  _ ← modify (set_block_field v);
  _ ← (fun s => if transaction s
                then (_ ← set_transaction false; on_sql commit_transaction) s
                else (Ok tt, s));
  _ ← on_sql begin_transaction;
  _ ← set_transaction true;
  modify reset_block.

(** [add_global_stats] for one of the two contexts. *)
Definition add_global (root : string) (k : ActionKind) (time : option f64)
  (m : gmap string ActionStatsWithRange) : gmap string ActionStatsWithRange :=
  match time with
  | None => m
  | Some t =>
      let entry := default (with_range_default root) (m !! root) in
      <[root := mkWithRange (wr_root entry) (wr_total_time_read entry) (wr_total_time_write entry)
           (f64_add (wr_total_time entry) t) (usize_add (wr_actions_count entry) 1)
           (per_update k (add_time (Some t)) (wr_actions entry))]> m
  end.
Definition add_global_stats (root : string) (a : Action) (t : Timing) : Timing :=
  set_globals (add_global root (action_name a) (tezedge_time a) (tezedge_global_stats t))
    (add_global root (action_name a) (irmin_time a) (irmin_global_stats t)) t.

Definition add_block_stats (root : string) (a : Action) (t : Timing) : Timing :=
  let entry := default (mkStats root no_half no_half) (block_stats t !! root) in
  set_block_stats (<[root := mkStats (as_root entry)
    (half_add (action_name a) (tezedge_time a) (tezedge entry))
    (half_add (action_name a) (irmin_time a) (irmin entry))]> (block_stats t)) t.

Definition join_key (l : list string) : string := String.concat "/" l.

Definition insert_action (a : Action) : T unit :=
  t ← get;
  match current_block t with
  | None => mret tt
  | Some _ =>
      root ← match key a with
             | [] => mret None
             | root :: _ =>
                 _ ← exec (InsertKey (join_key (key a)));
                 id ← on_sql (query_key (join_key (key a)));
                 match id with Some _ => mret (Some root) | None => fail NoRows end
             end;
      _ ← modify (fun t => set_nactions (usize_add (nactions t) 1) t);
      match root with
      | None => mret tt
      | Some root =>
          _ ← modify (add_block_stats root a);
          modify (add_global_stats root a)
      end
  end.

Definition insert_checkout (context_hash : bytes) (irmin_time tezedge_time : option f64) : T unit :=
  t ← get;
  match current_block t with
  | None => mret tt
  | Some _ =>
      _ ← modify (fun t => set_checkouts (add_time tezedge_time (tezedge_checkout_stats t))
                             (add_time irmin_time (irmin_checkout_stats t)) t);
      _ ← set_current_context context_hash;
      modify (set_checkout_time (Some (irmin_time, tezedge_time)))
  end.

Definition sync_block_stats : T unit :=
  _ ← modify (fun t => set_block_stats (stats_compute_mean <$> block_stats t) t);
  t ← get;
  for_each (fun rs => exec (InsertBlockStats rs.1 (block_id t) rs.2)) (map_iter (block_stats t)).

Definition insert_action_stats (context_name root action_name : string) (s : RangeStats) : T unit :=
  _ ← exec (InsertGlobal root action_name context_name);
  exec (UpdateGlobal root action_name context_name s).

(** The order of the seven insertions. *)
Definition kinds : list ActionKind := [Mem; MemTree; Find; FindTree; Add; AddTree; Remove].

(** One round of the loop over the two contexts. *)
Definition sync_context (name : string) (global_stats : gmap string ActionStatsWithRange)
  (commits checkouts : RangeStats) : T unit :=
  _ ← for_each (fun rs => for_each (fun k =>
         insert_action_stats name rs.1 (to_str k) (per_get k (wr_actions rs.2))) kinds) (map_iter global_stats);
  _ ← insert_action_stats name "commit" "commit" commits;
  insert_action_stats name "checkout" "checkout" checkouts.

Definition compute_means (t : Timing) : Timing :=
  set_globals (with_range_compute_mean <$> tezedge_global_stats t) (with_range_compute_mean <$> irmin_global_stats t)
    (set_checkouts (range_compute_mean (tezedge_checkout_stats t)) (range_compute_mean (irmin_checkout_stats t))
       (set_commits (range_compute_mean (tezedge_commit_stats t)) (range_compute_mean (irmin_commit_stats t)) t)).

Definition sync_global_stats (commit_time_irmin commit_time_tezedge : option f64) : T unit :=
  t ← get;
  _ ← exec (UpdateBlockStats (nactions t) (c ← checkout_time t; c.1) (c ← checkout_time t; c.2)
              commit_time_irmin commit_time_tezedge (block_id t));
  _ ← modify compute_means;
  t ← get;
  _ ← sync_context "tezedge" (tezedge_global_stats t) (tezedge_commit_stats t) (tezedge_checkout_stats t);
  sync_context "irmin" (irmin_global_stats t) (irmin_commit_stats t) (irmin_checkout_stats t).

Definition insert_commit (irmin_time tezedge_time : option f64) : T unit :=
  t ← get;
  match current_block t with
  | None => mret tt
  | Some _ =>
      _ ← modify (fun t => set_commits (add_time tezedge_time (tezedge_commit_stats t))
                             (add_time irmin_time (irmin_commit_stats t)) t);
      _ ← sync_global_stats irmin_time tezedge_time;
      sync_block_stats
  end.

Definition process_msg (msg : TimingMessage) : T unit :=
  match msg with
  | SetBlock block_hash timestamp instant => set_current_block block_hash timestamp instant
  | SetOperation operation_hash => set_current_operation operation_hash
  | TimeAction action => insert_action action
  | Checkout context_hash irmin tezedge => insert_checkout context_hash irmin tezedge
  | Commit irmin tezedge => insert_commit irmin tezedge
  | InitTiming _ => mret tt
  end.

(** [start_timing] on the messages that arrive: everything before the first
    [InitTiming] is dropped; an error of a message is printed. *)
Fixpoint drop_until_init (msgs : list TimingMessage) : option string * list TimingMessage :=
  match msgs with
  | [] => (None, [])
  | InitTiming path :: msgs => (path, msgs)
  | _ :: msgs => drop_until_init msgs
  end.
Fixpoint process_all (msgs : list TimingMessage) (s : Thread) : Thread :=
  match msgs with [] => s | msg :: msgs => process_all msgs (process_msg msg s).2 end.
Definition start_timing (init_sqlite : option string -> result SQLError Connection)
  (msgs : list TimingMessage) : option Thread :=
  let (db_path, msgs) := drop_until_init msgs in
  match init_sqlite db_path with
  | Err _ => None
  | Ok c => Some (process_all msgs (mkThread Timing_new c false))
  end.
End Timing.

(** ** The hooks ([timings.rs])

    A hook is the message it sends; [context_action] sends nothing for a name it
    does not know. *)
Definition get_time (time : f64) : option f64 := if f64_lt time f64_zero then None else Some time.

Definition set_block (now_since_epoch instant : Z) (block_hash : option bytes) : TimingMessage :=
  SetBlock block_hash (match block_hash with Some _ => Some (Z.max 0 now_since_epoch) | None => None end) instant.
Definition set_operation (operation_hash : option bytes) : TimingMessage := SetOperation operation_hash.
Definition checkout (context_hash : bytes) (irmin_time tezedge_time : f64) : TimingMessage :=
  Checkout context_hash (get_time irmin_time) (get_time tezedge_time).
Definition commit (new_context_hash : bytes) (irmin_time tezedge_time : f64) : TimingMessage :=
  Commit (get_time irmin_time) (get_time tezedge_time).
Definition kind_of_name (name : string) : option ActionKind :=
  if bool_decide (name = "mem") then Some Mem
  else if bool_decide (name = "mem_tree") then Some MemTree
  else if bool_decide (name = "find") then Some Find
  else if bool_decide (name = "find_tree") then Some FindTree
  else if bool_decide (name = "add") then Some Add
  else if bool_decide (name = "add_tree") then Some AddTree
  else if bool_decide (name = "remove") then Some Remove
  else None.
Definition context_action (name : string) (k : list string) (irmin_time tezedge_time : f64)
  : option TimingMessage :=
  kind ← kind_of_name name;
  Some (TimeAction (mkAction kind k (get_time irmin_time) (get_time tezedge_time))).
Definition init_timing (db_path : string) : TimingMessage := InitTiming (Some db_path).
