(* ===== verification/TimingFacts.v ===== *)
(** * What the timing database says

    The times of a range are counted once, every hash has one row, and after a block
    the database has its row and one row of statistics for every root. *)

From Stdlib Require Import ZArith Lia List Bool String Ascii SpecFloat.
From stdpp Require Import base option list numbers strings gmap pretty.
From S2P Require Import Prelude Timing.

Local Open Scope Z_scope.

(** ** Numbers *)

(** A mean of nothing is zero: the NaN of [0 / 0] gives way. *)
Lemma mean_of_nothing : mean f64_zero 0 = f64_zero.
Proof. by vm_compute. Qed.

(** A NaN is slower than everything. *)
Lemma range_of_nan : range_of S754_nan = OneHundredS.
Proof. by vm_compute. Qed.

Example range_samples :
  map range_of [f64_inv 1000000; f64_inv 100000; f64_inv 5000; f64_of 0; f64_of 7; f64_of 100] =
  [OneToTenUs; TenToOneHundredUs; OneHundredUsToOneMs; OneToTenUs; OneToTenS; OneHundredS].
Proof. by vm_compute. Qed.

Lemma in_range_map f s r : in_range r (map_ranges f s) = f r (in_range r s).
Proof. by destruct r. Qed.

(** The times that fall into a range. *)
Definition times_in (r : Range) (ts : list f64) : list f64 := filter (fun t => range_of t = r) ts.

Definition saturated (n : nat) : Z := Z.min (Z.of_nat n) (2 ^ 64 - 1).

Lemma saturated_S n : usize_add (saturated n) 1 = saturated (S n).
Proof. unfold usize_add, saturated. lia. Qed.

Lemma saturated_small n : Z.of_nat n < 2 ^ 64 -> saturated n = Z.of_nat n.
Proof. unfold saturated. lia. Qed.

(** Adding times one after the other counts each of them once, in its range. *)
Lemma add_times_spec ts :
  let s := fold_left (fun s t => add_time (Some t) s) ts no_ranges in
  range_actions_count s = saturated (length ts) /\
  range_total_time s = fold_left f64_add ts f64_zero /\
  forall r, count (in_range r s) = saturated (length (times_in r ts)) /\
    total_time (in_range r s) = fold_left f64_add (times_in r ts) f64_zero /\
    max_time (in_range r s) = fold_left f64_max (times_in r ts) f64_zero.
Proof.
  induction ts as [|t ts IH] using rev_ind; [by split_and!; [..|intros []]|].
  cbn zeta in *. rewrite !fold_left_app. destruct IH as (Hn & Ht & Hr). cbn [fold_left].
  set (s := fold_left _ ts no_ranges) in *. split_and!.
  - cbn. rewrite Hn, length_app. cbn. by rewrite saturated_S, Nat.add_1_r.
  - cbn. by rewrite Ht.
  - intros r. unfold add_time. rewrite in_range_map. destruct (Hr r) as (Hc & Hs & Hm).
    unfold times_in in *. rewrite filter_app. cbn [filter list_filter].
    replace (in_range r (mkRange _ _ _ _ _ _ _ _ _ _ _)) with (in_range r s) by by destruct r.
    destruct (decide (r = range_of t)) as [->|Hne].
    + rewrite decide_True by done. cbn [detailed_add count total_time max_time].
      rewrite !fold_left_app, length_app, Hc, Hs, Hm. cbn. by rewrite saturated_S, Nat.add_1_r.
    + rewrite decide_False by congruence. by rewrite app_nil_r.
Qed.

(** ** Rows *)
Definition rows_ok (rows : list HashRow) : Prop := NoDup (map row_id rows) /\ NoDup (map row_hash rows).

Lemma next_id_above ids i : i ∈ ids -> i < next_id ids.
Proof.
  unfold next_id. induction ids as [|j ids IH]; [by intros ?%not_elem_of_nil|].
  intros [->|Hi]%elem_of_cons; cbn [foldr]; [lia|]. specialize (IH Hi). lia.
Qed.

Lemma find_hash_some hash rows id : find_hash hash rows = Some id ->
  exists r, r ∈ rows /\ row_id r = id /\ row_hash r = hash.
Proof.
  unfold find_hash. destruct (List.find _ rows) as [r|] eqn:E; [|done]. intros [= <-].
  apply List.find_some in E as [Hin Hh%bool_decide_eq_true]. exists r.
  split; [by apply list_elem_of_In|done].
Qed.

Lemma insert_hash_ok hash rows : rows_ok rows -> rows_ok (insert_hash hash rows).
Proof.
  intros [Hi Hh]. unfold insert_hash. destruct (existsb _ rows) eqn:E; [done|].
  split; rewrite map_app; apply NoDup_app; split_and!; try done; try apply NoDup_singleton.
  - intros i Hin Ei%list_elem_of_singleton. cbn [row_id map] in Ei. apply next_id_above in Hin. lia.
  - intros x Hin ->%list_elem_of_singleton. apply list_elem_of_fmap in Hin as (r & Er & Hr).
    assert (existsb (fun r => bool_decide (row_hash r = hash)) rows = true); [|congruence].
    apply existsb_exists. exists r. split; [by apply list_elem_of_In|]. by apply bool_decide_eq_true.
Qed.

Lemma insert_hash_in hash rows r : r ∈ rows -> r ∈ insert_hash hash rows.
Proof. intros Hr. unfold insert_hash. destruct (existsb _ rows); [done|]. apply elem_of_app. by left. Qed.

Lemma update_block_keys f id rows :
  map row_id (update_block f id rows) = map row_id rows /\
  map row_hash (update_block f id rows) = map row_hash rows.
Proof.
  unfold update_block. rewrite !map_map. split; apply map_ext; intros r; by destruct (bool_decide _).
Qed.

(** A current hash has its row. *)
Definition current_ok (T : Tables) (table : HashTable) (cur : option (string * bytes)) : Prop :=
  match cur with
  | None => True
  | Some (id, h) => exists r, r ∈ hash_rows T table /\ pretty (row_id r) = id /\ row_hash r = hash_to_string h
  end.

(** Statements that keep the rows of a table, up to its data. *)
Definition keeps (T T' : Tables) : Prop := forall table,
  (rows_ok (hash_rows T table) -> rows_ok (hash_rows T' table)) /\
  forall r, r ∈ hash_rows T table -> exists r', r' ∈ hash_rows T' table /\ row_id r' = row_id r /\ row_hash r' = row_hash r.

Lemma keeps_refl T : keeps T T.
Proof. intros table. split; [done|]. intros r Hr. by exists r. Qed.

Lemma keeps_trans T1 T2 T3 : keeps T1 T2 -> keeps T2 T3 -> keeps T1 T3.
Proof.
  intros H12 H23 table. destruct (H12 table) as [A B], (H23 table) as [C D]. split; [auto|].
  intros r Hr. destruct (B r Hr) as (r2 & Hr2 & E2 & E2'). destruct (D r2 Hr2) as (r3 & Hr3 & E3 & E3').
  exists r3. split; [done|]. split; congruence.
Qed.

Lemma keeps_set_rows T table f :
  (rows_ok (hash_rows T table) -> rows_ok (f (hash_rows T table))) ->
  (forall r, r ∈ hash_rows T table -> exists r', r' ∈ f (hash_rows T table) /\ row_id r' = row_id r /\ row_hash r' = row_hash r) ->
  keeps T (set_rows table f T).
Proof.
  intros Hok Hin table'. cbn. destruct (decide (table' = table)) as [->|]; [done|].
  split; [done|]. intros r Hr. by exists r.
Qed.

Lemma keeps_update T f id : keeps T (set_rows Blocks (update_block f id) T).
Proof.
  apply keeps_set_rows.
  - unfold rows_ok. by destruct (update_block_keys f id (hash_rows T Blocks)) as [-> ->].
  - intros r Hr. exists (if bool_decide (id = Some (pretty (row_id r)))
      then mkRow (row_id r) (row_hash r) (f (row_info r)) else r).
    split; [|by destruct (bool_decide _)]. apply list_elem_of_fmap. by exists r.
Qed.

Lemma keeps_statement st T : keeps T (apply_statement st T).
Proof.
  destruct st; cbn [apply_statement]; try apply keeps_update;
    try (intros table'; split; [done|]; intros r Hr; by exists r).
  apply keeps_set_rows; [apply insert_hash_ok|]. intros r Hr. exists r. split; [by apply insert_hash_in|done].
Qed.

Lemma current_keeps T T' table cur : keeps T T' -> current_ok T table cur -> current_ok T' table cur.
Proof.
  intros Hk. destruct cur as [[id h]|]; [|done]. intros (r & Hr & Ei & Eh).
  destruct (proj2 (Hk table) r Hr) as (r' & Hr' & Ei' & Eh'). exists r'. split; [done|]. split; congruence.
Qed.

(** ** Steps of the thread *)
Section Thread.
Context `{Rusqlite, MapOrder}.

Definition db (s : Thread) : Tables := tables (sql s).

Record thread_ok (s : Thread) : Prop := {
  ok_rows table : rows_ok (hash_rows (db s) table);
  ok_block : current_ok (db s) Blocks (current_block (timing s));
  ok_operation : current_ok (db s) Operations (current_operation (timing s));
  ok_context : current_ok (db s) Contexts (current_context (timing s));
}.

Lemma bind_ok {A B} (m : T A) (f : A -> T B) s b s2 :
  (m ≫= f) s = (Ok b, s2) -> exists a s1, m s = (Ok a, s1) /\ f a s1 = (Ok b, s2).
Proof. unfold mbind, T_bind. destruct (m s) as [[a|e] s1]; [|done]. intros E. by exists a, s1. Qed.

Lemma exec_ok st s s' : exec st s = (Ok tt, s') ->
  timing s' = timing s /\ transaction s' = transaction s /\ db s' = apply_statement st (db s).
Proof.
  unfold exec, on_sql, db. destruct (execute st (sql s)) as [[[]|e] c] eqn:E; [|done]. intros [= <-].
  cbn. by rewrite (execute_ok _ _ _ E).
Qed.

Lemma query_hash_step table h s o s' : on_sql (query_hash table h) s = (Ok o, s') ->
  timing s' = timing s /\ db s' = db s /\ o = find_hash h (hash_rows (db s) table).
Proof.
  unfold on_sql, db. destruct (query_hash table h (sql s)) as [r c] eqn:E. intros [= -> <-].
  destruct (query_hash_ok _ _ _ _ _ E) as [Ht Ho]. cbn. rewrite Ht. split_and!; [done..|]. by apply Ho.
Qed.

(** What a successful [set_current] gives. *)
Lemma set_current_spec hash cur table s v s' :
  current_ok (db s) table cur -> set_current hash cur table s = (Ok v, s') ->
  timing s' = timing s /\ snd <$> v = hash /\ current_ok (db s') table v /\
  (db s' = db s \/ exists h, db s' = apply_statement (InsertHash table h) (db s)).
Proof.
  intros Hcur. destruct hash as [h|]; cbn [set_current]; [|by intros [= <- <-]; split_and!; [done..|left]].
  case_bool_decide as Ec.
  { intros [= <- <-]. split_and!; auto. }
  intros (found & s1 & E1 & E2)%bind_ok. apply query_hash_step in E1 as (T1 & D1 & ->).
  destruct (find_hash (hash_to_string h) (hash_rows (db s) table)) as [id|] eqn:Ef.
  - injection E2 as <- <-. split_and!; [done|done| |by left]. cbn. rewrite D1.
    apply find_hash_some in Ef as (r & Hr & <- & Eh). by exists r.
  - apply bind_ok in E2 as ([] & s2 & Ex & E3). apply exec_ok in Ex as (T2 & _ & D2).
    apply bind_ok in E3 as (o & s3 & Eq & E4). apply query_hash_step in Eq as (T3 & D3 & ->).
    destruct (find_hash (hash_to_string h) (hash_rows (db s2) table)) as [id|] eqn:Ef2; [|done].
    injection E4 as <- <-. split_and!; [congruence|done| |right; eexists; by rewrite D3, D2, D1].
    cbn. rewrite D3. apply find_hash_some in Ef2 as (r & Hr & <- & Eh). by exists r.
Qed.

Lemma begin_step s u s' : on_sql begin_transaction s = (Ok u, s') ->
  timing s' = timing s /\ db s' = db s.
Proof.
  unfold on_sql, db. destruct (begin_transaction (sql s)) as [r c] eqn:E. intros [= _ <-].
  split; [done|]. by apply (begin_ok _ _ _ E).
Qed.

Lemma commit_step s s' : on_sql commit_transaction s = (Ok tt, s') -> timing s' = timing s /\ db s' = db s.
Proof.
  unfold on_sql, db. destruct (commit_transaction (sql s)) as [r c] eqn:E. intros [= -> <-].
  split; [done|]. by apply (commit_ok _ _ E).
Qed.

Lemma key_step k s o s' : on_sql (query_key k) s = (Ok o, s') -> timing s' = timing s /\ db s' = db s.
Proof.
  unfold on_sql, db. destruct (query_key k (sql s)) as [r c] eqn:E. intros [= _ <-].
  split; [done|]. by apply (query_key_ok _ _ _ _ E).
Qed.

Lemma for_each_ok {A} (f : A -> T unit) (l : list A) (P : Thread -> Thread -> Prop) s s' :
  (forall s, P s s) -> (forall a s1 s2 s3, f a s1 = (Ok tt, s2) -> P s2 s3 -> P s1 s3) ->
  for_each f l s = (Ok tt, s') -> P s s'.
Proof.
  intros Hr Ht. revert s. induction l as [|a l IH]; intros s; cbn [for_each]; [by intros [= <-]|].
  intros ([] & s1 & E1 & E2)%bind_ok. eapply Ht; [exact E1|]. by apply IH.
Qed.

Lemma thread_ok_keeps s s' : thread_ok s -> keeps (db s) (db s') ->
  current_block (timing s') = current_block (timing s) ->
  current_operation (timing s') = current_operation (timing s) ->
  current_context (timing s') = current_context (timing s) -> thread_ok s'.
Proof.
  intros [Hr Hb Ho Hc] Hk Eb Eo Ec. split.
  - intros table. by apply (Hk table).
  - rewrite Eb. by eapply current_keeps.
  - rewrite Eo. by eapply current_keeps.
  - rewrite Ec. by eapply current_keeps.
Qed.

(** *** A new block *)
Lemma set_current_keeps s s' table : 
  db s' = db s \/ (exists h, db s' = apply_statement (InsertHash table h) (db s)) -> keeps (db s) (db s').
Proof. intros [->|[h ->]]; [apply keeps_refl|apply keeps_statement]. Qed.

Lemma set_current_stats s s' table :
  db s' = db s \/ (exists h, db s' = apply_statement (InsertHash table h) (db s)) ->
  block_stats_rows (db s') = block_stats_rows (db s) /\
  (table <> Blocks -> hash_rows (db s') Blocks = hash_rows (db s) Blocks).
Proof.
  intros [->|[h ->]]; [done|]. split; [done|]. intros Ht. cbn. by rewrite decide_False.
Qed.

(** Closing the last block writes its time. *)
Lemma close_block_spec timestamp instant s s' :
  (match timestamp with
   | Some ts => modify (set_started (Some (ts, instant)))
   | None =>
       match block_started_at (timing s) with
       | Some (ts, started) =>
           _ ← modify (set_started None);
           exec (UpdateBlockTime (ts / 1000000000) (ts mod 1000000000) (millis_since instant started)
                   (block_id (timing s)))
       | None => mret tt
       end
   end : T unit) s = (Ok tt, s') ->
  current_block (timing s') = current_block (timing s) /\ keeps (db s) (db s') /\
  block_stats_rows (db s') = block_stats_rows (db s).
Proof.
  destruct timestamp as [ts|].
  { intros [= <-]. split_and!; [done|apply keeps_refl|done]. }
  destruct (block_started_at (timing s)) as [[ts started]|].
  - intros ([] & s1 & [= <-] & Ex)%bind_ok. apply exec_ok in Ex as (Et & _ & Ed). rewrite Et, Ed.
    split_and!; [done|apply keeps_statement|done].
  - intros [= <-]. split_and!; [done|apply keeps_refl|done].
Qed.

Lemma set_block_spec bh ts i s s' : thread_ok s -> set_current_block bh ts i s = (Ok tt, s') ->
  thread_ok s' /\ snd <$> current_block (timing s') = bh /\ nactions (timing s') = 0 /\
  block_stats (timing s') = ∅ /\ block_stats_rows (db s') = block_stats_rows (db s).
Proof.
  intros [Hr Hb Ho Hc]. unfold set_current_block.
  intros (t & s0 & [= <- <-] & E)%bind_ok.
  apply bind_ok in E as ([] & s1 & E1 & E). apply close_block_spec in E1 as (B1 & K1 & R1).
  apply bind_ok in E as (v & s2 & E2 & E). rewrite <- B1 in E2.
  apply set_current_spec in E2 as (T2 & Hv & Cv & D2); [|rewrite B1; by eapply current_keeps].
  pose proof (set_current_keeps _ _ _ D2) as K2. pose proof (set_current_stats _ _ _ D2) as [R2 _].
  apply bind_ok in E as ([] & s3 & [= <-] & E).
  apply bind_ok in E as ([] & s4 & E4 & E).
  assert (H4 : timing s4 = set_block_field v (timing s2) /\ db s4 = db s2).
  { destruct (transaction _) in E4; [|by injection E4 as <-].
    apply bind_ok in E4 as ([] & s5 & [= <-] & E5). by apply commit_step in E5. }
  destruct H4 as [T4 D4].
  apply bind_ok in E as ([] & s5 & E5 & E). apply begin_step in E5 as [T5 D5].
  apply bind_ok in E as ([] & s6 & [= <-] & [= <-]).
  assert (Kall : keeps (db s) (db s5)) by (rewrite D5, D4; by eapply keeps_trans).
  cbn [timing reset_block set_block_stats set_nactions set_checkout_time set_operation_field set_context_field
       current_block nactions block_stats].
  assert (Hcur : current_block (timing s5) = v) by by rewrite T5, T4.
  rewrite Hcur. split_and!; [|done..|].
  - split; cbn [timing reset_block set_block_stats set_nactions set_checkout_time set_operation_field
      set_context_field current_block current_operation current_context db sql]; [|rewrite Hcur|done|done].
    + intros table. by apply (Kall table).
    + unfold db in *. cbn. by rewrite D5, D4.
  - unfold db in *. cbn. by rewrite D5, D4, R2, R1.
Qed.

(** *** The other messages *)
Lemma set_operation_spec h s s' : thread_ok s -> set_current_operation h s = (Ok tt, s') -> thread_ok s'.
Proof.
  intros Hs. unfold set_current_operation. intros (t & s0 & [= <- <-] & E)%bind_ok.
  apply bind_ok in E as (v & s1 & E1 & [= <-]). pose proof Hs as [Hr Hb Ho Hc].
  apply set_current_spec in E1 as (T1 & _ & Cv & D1); [|done]. apply set_current_keeps in D1.
  split; cbn [timing set_operation_field current_block current_operation current_context db sql].
  - intros table. by apply (D1 table).
  - rewrite T1. by eapply current_keeps.
  - done.
  - rewrite T1. by eapply current_keeps.
Qed.

(** What stays of the current block between its start and its commit. *)
Definition same_block (s s' : Thread) : Prop :=
  current_block (timing s') = current_block (timing s) /\
  hash_rows (db s') Blocks = hash_rows (db s) Blocks /\ block_stats_rows (db s') = block_stats_rows (db s).

Lemma checkout_spec h ti tt' s s' : thread_ok s -> current_block (timing s) <> None ->
  insert_checkout h ti tt' s = (Ok tt, s') ->
  thread_ok s' /\ same_block s s' /\ nactions (timing s') = nactions (timing s) /\
  block_stats (timing s') = block_stats (timing s) /\ checkout_time (timing s') = Some (ti, tt').
Proof.
  intros Hs Hcur. unfold insert_checkout. intros (t & s0 & [= <- <-] & E)%bind_ok.
  destruct (current_block (timing s)) as [b|] eqn:Eb; [|done].
  apply bind_ok in E as ([] & s1 & [= <-] & E). apply bind_ok in E as ([] & s2 & E & [= <-]).
  unfold set_current_context in E. apply bind_ok in E as (t & s3 & [= <- <-] & E).
  apply bind_ok in E as (v & s4 & E & [= <-]). pose proof Hs as [Hr Hb Ho Hc].
  apply set_current_spec in E as (T1 & _ & Cv & D1); [|done].
  pose proof (set_current_keeps _ _ _ D1) as K. pose proof (set_current_stats _ _ _ D1) as [R1 R2].
  unfold same_block. cbn [timing set_context_field set_checkout_time current_block current_operation current_context
    nactions block_stats checkout_time] in *. rewrite T1. cbn. rewrite Eb.
  split; [|split_and!; try done; by apply R2].
  split; cbn; [intros table; by apply (K table)| | |done].
  all: by eapply current_keeps.
Qed.

Definition action_timing (a : Action) (t : Timing) : Timing :=
  let t := set_nactions (usize_add (nactions t) 1) t in
  match key a with
  | [] => t
  | root :: _ => add_global_stats root a (add_block_stats root a t)
  end.

Lemma action_spec a s s' : current_block (timing s) <> None -> insert_action a s = (Ok tt, s') ->
  timing s' = action_timing a (timing s) /\ keeps (db s) (db s') /\ same_block s s'.
Proof.
  intros Hcur. unfold insert_action. intros (t & s0 & [= <- <-] & E)%bind_ok.
  destruct (current_block (timing s)) as [b|] eqn:Eb; [|done].
  apply bind_ok in E as (root & s1 & E1 & E).
  assert (H1 : root = head (key a) /\ timing s1 = timing s /\
    (db s1 = db s \/ db s1 = apply_statement (InsertKey (join_key (key a))) (db s))).
  { destruct (key a) as [|r l]; [injection E1 as <- <-; by auto|].
    apply bind_ok in E1 as ([] & s2 & E2 & E1). apply exec_ok in E2 as (T2 & _ & D2).
    apply bind_ok in E1 as (o & s3 & E3 & E1). apply key_step in E3 as [T3 D3].
    destruct o; [|done]. injection E1 as <- <-. split; [done|]. split; [congruence|]. right. congruence. }
  destruct H1 as (-> & T1 & D1). apply bind_ok in E as ([] & s2 & [= <-] & E).
  assert (HE : timing s' = action_timing a (timing s) /\ db s' = db s1).
  { unfold action_timing. rewrite <- T1. destruct (key a) as [|r l]; cbn [head] in E; [by injection E as <-|].
    apply bind_ok in E as ([] & s3 & [= <-] & [= <-]). done. }
  destruct HE as [HT HD].
  assert (Hb : current_block (timing s') = current_block (timing s)).
  { rewrite HT. unfold action_timing. by destruct (key a). }
  split; [done|]. unfold same_block. rewrite HD, Hb.
  destruct D1 as [->| ->]; split; try done; [apply keeps_refl|apply keeps_statement].
Qed.

(** *** Committing *)

(** The rows of blocks that a commit leaves. *)
Definition only_globals (s s' : Thread) : Prop :=
  timing s' = timing s /\ hash_rows (db s') = hash_rows (db s) /\ block_stats_rows (db s') = block_stats_rows (db s).

Lemma only_globals_trans s1 s2 s3 : only_globals s1 s2 -> only_globals s2 s3 -> only_globals s1 s3.
Proof. intros (A1 & A2 & A3) (B1 & B2 & B3). split_and!; congruence. Qed.

Lemma action_stats_spec c r n st s s' : insert_action_stats c r n st s = (Ok tt, s') -> only_globals s s'.
Proof.
  intros ([] & s1 & E1 & E2)%bind_ok. apply exec_ok in E1 as (T1 & _ & D1), E2 as (T2 & _ & D2).
  unfold only_globals. rewrite T2, T1, D2, D1. done.
Qed.

Lemma sync_context_spec name m c1 c2 s s' : sync_context name m c1 c2 s = (Ok tt, s') -> only_globals s s'.
Proof.
  intros ([] & s1 & E1 & E)%bind_ok. apply bind_ok in E as ([] & s2 & E2 & E3).
  apply action_stats_spec in E2, E3.
  assert (E0 : only_globals s s1); [|by eapply only_globals_trans; [|eapply only_globals_trans]].
  revert E1. apply for_each_ok; [done|]. intros rs t1 t2 t3 Et Hp. eapply only_globals_trans; [|exact Hp].
  revert Et. apply for_each_ok; [done|]. intros k u1 u2 u3 Eu Hp'. eapply only_globals_trans; [|exact Hp'].
  by apply action_stats_spec in Eu.
Qed.

Lemma for_each_stats id l s s' :
  for_each (fun rs => exec (InsertBlockStats rs.1 id rs.2)) l s = (Ok tt, s') ->
  timing s' = timing s /\ hash_rows (db s') = hash_rows (db s) /\
  block_stats_rows (db s') = block_stats_rows (db s) ++ map (fun rs => (rs.1, id, rs.2)) l.
Proof.
  revert s. induction l as [|[r st] l IH]; intros s; cbn [for_each map].
  - intros [= <-]. by rewrite app_nil_r.
  - intros ([] & s1 & E1 & E2)%bind_ok. apply exec_ok in E1 as (T1 & _ & D1).
    apply IH in E2 as (T2 & H2 & R2). rewrite T2, H2, R2, T1, D1. cbn. by rewrite <- app_assoc.
Qed.

Definition commit_info (t : Timing) (ci ct : option f64) (i : BlockInfo) : BlockInfo :=
  mkInfo (Some (nactions t)) (c ← checkout_time t; c.1) (c ← checkout_time t; c.2) ci ct (b_time i).

Lemma commit_spec ci ct s s' : current_block (timing s) <> None -> insert_commit ci ct s = (Ok tt, s') ->
  hash_rows (db s') Blocks = update_block (commit_info (timing s) ci ct) (block_id (timing s)) (hash_rows (db s) Blocks) /\
  (forall table, table <> Blocks -> hash_rows (db s') table = hash_rows (db s) table) /\
  block_stats_rows (db s') = block_stats_rows (db s) ++
    map (fun rs => (rs.1, block_id (timing s), rs.2)) (map_iter (stats_compute_mean <$> block_stats (timing s))) /\
  current_block (timing s') = current_block (timing s) /\
  current_operation (timing s') = current_operation (timing s) /\
  current_context (timing s') = current_context (timing s).
Proof.
  intros Hcur (t & s0 & [= <- <-] & E)%bind_ok.
  destruct (current_block (timing s)) as [b|] eqn:Eb; [|done].
  apply bind_ok in E as ([] & s1 & [= <-] & E). apply bind_ok in E as ([] & s2 & E2 & E).
  unfold sync_global_stats in E2. apply bind_ok in E2 as (t & s3 & [= <- <-] & E2).
  apply bind_ok in E2 as ([] & s4 & E4 & E2). apply exec_ok in E4 as (T4 & _ & D4).
  apply bind_ok in E2 as ([] & s5 & [= <-] & E2). apply bind_ok in E2 as (t & s6 & [= <- <-] & E2).
  apply bind_ok in E2 as ([] & s7 & E7 & E2). apply sync_context_spec in E7 as (T7 & H7 & R7).
  apply sync_context_spec in E2 as (T2 & H2 & R2).
  unfold sync_block_stats in E. apply bind_ok in E as ([] & s8 & [= <-] & E).
  apply bind_ok in E as (t & s9 & [= <- <-] & E). apply for_each_stats in E as (T9 & H9 & R9).
  rewrite H9, R9, T9. cbn [timing]. unfold db in *. cbn [sql timing] in *.
  rewrite H2, R2, T2, H7, R7, T7, T4, D4. cbn. unfold block_id. cbn. rewrite Eb. split_and!; try done.
  intros table Ht. by rewrite decide_False.
Qed.

(** *** The actions of a block *)
Definition block_entry (m : gmap string ActionStats) (a : Action) : gmap string ActionStats :=
  match key a with
  | [] => m
  | root :: _ =>
      let entry := default (mkStats root no_half no_half) (m !! root) in
      <[root := mkStats (as_root entry) (half_add (action_name a) (tezedge_time a) (tezedge entry))
                  (half_add (action_name a) (irmin_time a) (irmin entry))]> m
  end.

Lemma actions_spec l s s' : thread_ok s -> current_block (timing s) <> None ->
  for_each process_msg (map TimeAction l) s = (Ok tt, s') ->
  thread_ok s' /\ same_block s s' /\
  nactions (timing s') = fold_left (fun n _ => usize_add n 1) l (nactions (timing s)) /\
  checkout_time (timing s') = checkout_time (timing s) /\
  block_stats (timing s') = fold_left block_entry l (block_stats (timing s)).
Proof.
  revert s. induction l as [|a l IH]; intros s Hs Hcur; cbn [map for_each fold_left]; [by intros [= <-]|].
  intros ([] & s1 & E1 & E2)%bind_ok. cbn [process_msg] in E1.
  apply action_spec in E1 as (T1 & K1 & B1 & R1 & S1); [|done].
  assert (Hs1 : thread_ok s1).
  { apply (thread_ok_keeps s); [done..| |]; rewrite T1; unfold action_timing; by destruct (key a). }
  apply IH in E2 as (Hs' & (B2 & R2 & S2) & N2 & C2 & M2); [|done|by rewrite B1].
  split; [done|]. unfold same_block. rewrite B2, R2, S2, N2, C2, M2, B1, R1, S1, T1.
  unfold action_timing, block_entry. by destruct (key a).
Qed.

(** The times of the actions below a root. *)
Definition times_of (time : Action -> option f64) (root : string) (l : list Action) : list f64 :=
  omap time (filter (fun a => head (key a) = Some root) l).

Definition summed (time : Action -> option f64) (root : string) (l : list Action) (h : HalfStats) : Prop :=
  let ts := times_of time root l in
  h_count h = saturated (length ts) /\ h_total_time h = fold_left f64_add ts f64_zero /\
  h_max_time h = fold_left f64_max ts f64_zero.

Lemma summed_other time root l a h : head (key a) <> Some root -> summed time root l h -> summed time root (l ++ [a]) h.
Proof.
  intros Hne. unfold summed, times_of. rewrite filter_app. cbn [filter list_filter].
  rewrite decide_False by done. by rewrite app_nil_r.
Qed.

Lemma summed_add time root l a k h : head (key a) = Some root -> summed time root l h ->
  summed time root (l ++ [a]) (half_add k (time a) h).
Proof.
  intros Ha. unfold summed, times_of. rewrite filter_app, omap_app. cbn [filter list_filter].
  rewrite decide_True by done. cbn [omap list_omap]. intros (Hc & Ht & Hm).
  destruct (time a) as [t|]; cbn [half_add]; [|by rewrite app_nil_r].
  rewrite !fold_left_app, length_app. cbn. by rewrite Hc, Ht, Hm, saturated_S, Nat.add_1_r.
Qed.

Lemma times_of_none time root l : (forall a, a ∈ l -> head (key a) <> Some root) -> times_of time root l = [].
Proof.
  unfold times_of. induction l as [|a l IH]; intros Hl; [done|]. cbn [filter list_filter].
  rewrite decide_False by (apply Hl; left). apply IH. intros b Hb. apply Hl. by right.
Qed.

Lemma block_entries_spec l root :
  match fold_left block_entry l ∅ !! root with
  | Some st => (exists a, a ∈ l /\ head (key a) = Some root) /\
      summed tezedge_time root l (tezedge st) /\ summed irmin_time root l (irmin st)
  | None => forall a, a ∈ l -> head (key a) <> Some root
  end.
Proof.
  induction l as [|a l IH] using rev_ind.
  { cbn. rewrite lookup_empty. by intros a ?%not_elem_of_nil. }
  rewrite fold_left_app. cbn [fold_left]. set (m := fold_left block_entry l ∅) in *.
  unfold block_entry. destruct (key a) as [|r ks] eqn:Ek.
  - assert (Hne : head (key a) <> Some root) by by rewrite Ek.
    destruct (m !! root) as [st|].
    + destruct IH as ((b & Hb & Eb) & H1 & H2). split_and!; [|by apply summed_other..].
      exists b. split; [|done]. apply elem_of_app. by left.
    + intros b [Hb| ->%list_elem_of_singleton]%elem_of_app; auto.
  - destruct (decide (r = root)) as [->|Hr].
    + rewrite lookup_insert_eq. assert (Ha : head (key a) = Some root) by by rewrite Ek. split.
      { exists a. split; [|done]. apply elem_of_app. right. by apply list_elem_of_singleton. }
      cbn [tezedge irmin]. destruct (m !! root) as [st|]; cbn [default from_option].
      * destruct IH as (_ & H1 & H2). split; by apply summed_add.
      * assert (Hz : forall time, summed time root l no_half).
        { intros time. unfold summed. rewrite (times_of_none time root l IH). by split_and!. }
        split; by apply summed_add.
    + rewrite lookup_insert_ne by done. assert (Hne : head (key a) <> Some root) by (rewrite Ek; cbn; congruence).
      destruct (m !! root) as [st|].
      * destruct IH as ((b & Hb & Eb) & H1 & H2). split_and!; [|by apply summed_other..].
        exists b. split; [|done]. apply elem_of_app. by left.
      * intros b [Hb| ->%list_elem_of_singleton]%elem_of_app; auto.
Qed.

(** *** Runs *)
Lemma for_each_app {A} (f : A -> T unit) (l1 l2 : list A) s s' :
  for_each f (l1 ++ l2) s = (Ok tt, s') ->
  exists s1, for_each f l1 s = (Ok tt, s1) /\ for_each f l2 s1 = (Ok tt, s').
Proof.
  revert s. induction l1 as [|a l1 IH]; intros s; cbn [app for_each]; [by exists s|].
  intros ([] & s1 & E1 & E2)%bind_ok. apply IH in E2 as (s2 & E2 & E3). exists s2.
  split; [|done]. unfold mbind, T_bind. by rewrite E1.
Qed.

Lemma process_msg_ok msg s s' : thread_ok s -> process_msg msg s = (Ok tt, s') -> thread_ok s'.
Proof.
  intros Hs. destruct msg as [bh ts i|oh|ch ti t2|ci ct|a|path]; cbn [process_msg].
  - intros E. by apply set_block_spec in E as (? & _).
  - by apply set_operation_spec.
  - destruct (current_block (timing s)) eqn:Eb.
    + intros E. apply checkout_spec in E as (? & _); [done..|congruence].
    + unfold insert_checkout. intros (t & s0 & [= <- <-] & E)%bind_ok. rewrite Eb in E. by injection E as <-.
  - destruct (current_block (timing s)) eqn:Eb.
    + intros E. apply commit_spec in E as (H1 & H2 & _ & B & O & C); [|congruence].
      apply (thread_ok_keeps s); [done| |done..]. intros table. destruct (decide (table = Blocks)) as [->|Hne].
      * rewrite H1. pose proof (keeps_update (db s) (commit_info (timing s) ci ct) (block_id (timing s)) Blocks) as K.
        cbn in K. done.
      * rewrite H2 by done. split; [done|]. intros r Hr. by exists r.
    + unfold insert_commit. intros (t & s0 & [= <- <-] & E)%bind_ok. rewrite Eb in E. by injection E as <-.
  - destruct (current_block (timing s)) eqn:Eb.
    + intros E. apply action_spec in E as (T1 & K & B & _); [|congruence].
      apply (thread_ok_keeps s); [done..| |]; rewrite T1; unfold action_timing; by destruct (key a).
    + unfold insert_action. intros (t & s0 & [= <- <-] & E)%bind_ok. rewrite Eb in E. by injection E as <-.
  - by intros [= <-].
Qed.

(** As long as the database accepts what it is given, whatever messages arrive:
    ids and hashes stay unique in every table, and the current block, operation and
    context are rows of their tables, with the id and the hash the thread keeps. *)
Theorem timing_rows (msgs : list TimingMessage) (s s' : Thread) :
  thread_ok s -> for_each process_msg msgs s = (Ok tt, s') -> thread_ok s'.
Proof.
  revert s. induction msgs as [|msg msgs IH]; intros s Hs; cbn [for_each]; [by intros [= <-]|].
  intros ([] & s1 & E1 & E2)%bind_ok. eapply IH; [|exact E2]. by eapply process_msg_ok.
Qed.

(** The messages of a block. *)
Definition block_messages (h : bytes) (timestamp : option Z) (instant : Z) (c : bytes)
  (ti t2 : option f64) (l : list Action) (ci ct : option f64) : list TimingMessage :=
  [SetBlock (Some h) timestamp instant; Checkout c ti t2] ++ map TimeAction l ++ [Commit ci ct].

Lemma nactions_fold l : fold_left (fun n _ => usize_add n 1) l 0 = saturated (length (l : list Action)).
Proof.
  induction l as [|a l IH] using rev_ind; [done|]. rewrite fold_left_app, length_app. cbn [fold_left length].
  by rewrite IH, saturated_S, Nat.add_1_r.
Qed.

(** The rows of statistics of a block. *)
Lemma stats_rows_spec (id : option string) (l : list Action) :
  let new := map (fun rs => (rs.1, id, rs.2)) (map_iter (stats_compute_mean <$> fold_left block_entry l ∅)) in
  NoDup (map (fun x => x.1.1) new) /\
  (forall root, (exists id' st, (root, id', st) ∈ new) <-> exists a, a ∈ l /\ head (key a) = Some root) /\
  forall root id' st, (root, id', st) ∈ new -> id' = id /\
    summed tezedge_time root l (tezedge st) /\ summed irmin_time root l (irmin st) /\
    h_mean_time (tezedge st) = mean (h_total_time (tezedge st)) (h_count (tezedge st)) /\
    h_mean_time (irmin st) = mean (h_total_time (irmin st)) (h_count (irmin st)).
Proof.
  intros new. assert (Hnew : forall root id' st, (root, id', st) ∈ new <->
    id' = id /\ (stats_compute_mean <$> fold_left block_entry l ∅) !! root = Some st).
  { intros root id' st. unfold new. rewrite list_elem_of_fmap. split.
    - intros ([r st'] & [= -> -> ->] & Hin). split; [done|].
      rewrite map_iter_perm in Hin. by apply elem_of_map_to_list in Hin.
    - intros [-> Hin]. exists (root, st). split; [done|]. rewrite map_iter_perm. by apply elem_of_map_to_list. }
  split_and!.
  - unfold new. rewrite map_map. cbn. rewrite map_iter_perm. apply NoDup_fst_map_to_list.
  - intros root. pose proof (block_entries_spec l root) as Hsp. setoid_rewrite Hnew. rewrite lookup_fmap.
    destruct (fold_left block_entry l ∅ !! root) as [st|]; cbn.
    + destruct Hsp as [Ha _]. split; [done|]. intros _. by eexists _, _.
    + split; [by intros (? & ? & _ & ?)|]. intros (a & Ha & Ea). by destruct (Hsp a Ha).
  - intros root id' st Hin. apply Hnew in Hin as [-> Hl]. rewrite lookup_fmap in Hl.
    pose proof (block_entries_spec l root) as Hsp.
    destruct (fold_left block_entry l ∅ !! root) as [st'|]; [|done]. injection Hl as <-.
    by destruct Hsp as (_ & H1 & H5).
Qed.

(** (C25) After the messages of a block, the database has the block's row, and only
    one: with the number of actions and the times of checkout and commit.  It has
    one new row of statistics for every root with an action, which belongs to that
    block and counts, sums and bounds the times of the actions below that root, for
    both contexts, with their mean. *)
Theorem block_is_recorded (h : bytes) (timestamp : option Z) (instant : Z) (c : bytes)
  (ti t2 : option f64) (l : list Action) (ci ct : option f64) (s s' : Thread) :
  thread_ok s -> for_each process_msg (block_messages h timestamp instant c ti t2 l ci ct) s = (Ok tt, s') ->
  exists r new, r ∈ hash_rows (db s') Blocks /\ row_hash r = hash_to_string h /\
    (exists time, row_info r = mkInfo (Some (saturated (length l))) ti t2 ci ct time) /\
    NoDup (map row_hash (hash_rows (db s') Blocks)) /\
    block_stats_rows (db s') = block_stats_rows (db s) ++ new /\ NoDup (map (fun x => x.1.1) new) /\
    (forall root, (exists id st, (root, id, st) ∈ new) <-> exists a, a ∈ l /\ head (key a) = Some root) /\
    forall root id st, (root, id, st) ∈ new -> id = Some (pretty (row_id r)) /\
      summed tezedge_time root l (tezedge st) /\ summed irmin_time root l (irmin st) /\
      h_mean_time (tezedge st) = mean (h_total_time (tezedge st)) (h_count (tezedge st)) /\
      h_mean_time (irmin st) = mean (h_total_time (irmin st)) (h_count (irmin st)).
Proof.
  intros Hs E. apply for_each_app in E as (s2 & E12 & E). cbn [for_each] in E12.
  apply bind_ok in E12 as ([] & s1 & E1 & E2). apply bind_ok in E2 as ([] & s2' & E2 & [= ->]).
  cbn [process_msg] in E1, E2.
  apply set_block_spec in E1 as (Hs1 & B1 & N1 & M1 & R1); [|done].
  assert (Hc1 : current_block (timing s1) <> None) by (intros Hn; by rewrite Hn in B1).
  apply checkout_spec in E2 as (Hs2 & (B2 & H2 & R2) & N2 & M2 & C2); [|done..].
  apply for_each_app in E as (s3 & E3 & E4).
  apply actions_spec in E3 as (Hs3 & (B3 & H3 & R3) & N3 & C3 & M3); [|done|congruence].
  cbn [for_each] in E4. apply bind_ok in E4 as ([] & s4 & E4 & [= ->]). cbn [process_msg] in E4.
  pose proof (process_msg_ok (Commit ci ct) s3 s' Hs3 E4) as Hs'.
  apply commit_spec in E4 as (H4 & _ & R4 & _); [|congruence].
  rewrite C2 in C3. rewrite M2, M1 in M3. rewrite N2, N1, nactions_fold in N3.
  destruct (current_block (timing s3)) as [[id h']|] eqn:E3; [|congruence].
  assert (h' = h) as -> by (rewrite B2 in B3; rewrite <- B3 in B1; by injection B1).
  pose proof (ok_block s3 Hs3) as Hb. rewrite E3 in Hb. destruct Hb as (r0 & Hr0 & Hid & Hh).
  unfold block_id in H4, R4. rewrite E3 in H4, R4. cbn [fmap option_fmap option_map fst] in H4, R4.
  rewrite M3 in R4. destruct (stats_rows_spec (Some id) l) as (Hdup & Hroots & Hrows).
  eexists (mkRow (row_id r0) (row_hash r0) (commit_info (timing s3) ci ct (row_info r0))), _.
  split_and!; [| | | | |exact Hdup|exact Hroots|].
  - rewrite H4. unfold update_block. apply list_elem_of_fmap. exists r0. rewrite bool_decide_true by by rewrite Hid. done.
  - done.
  - exists (b_time (row_info r0)). cbn. unfold commit_info. by rewrite N3, C3.
  - apply (ok_rows s' Hs' Blocks).
  - by rewrite R4, R3, R2, R1.
  - intros root id' st Hin. apply Hrows in Hin as [-> Hin]. by rewrite <- Hid.
Qed.
End Thread.

(** ** Examples: a database that never fails *)
Definition empty_tables : Tables := mkTables (fun _ => []) [] [] [].

#[export] Instance reference_sqlite : Rusqlite.
Proof.
  refine {| Connection := Tables; SQLError := unit; NoRows := tt; tables c := c;
    execute st c := (Ok tt, apply_statement st c);
    query_hash table h c := (Ok (find_hash h (hash_rows c table)), c);
    query_key k c := (Ok (find_key k (key_rows c)), c);
    begin_transaction c := (Ok tt, c); commit_transaction c := (Ok tt, c) |}.
  - by intros st c c' [= <-].
  - by intros st c e c' [=].
  - intros table h c r c' [= <- <-]. split; [done|]. by intros o [= <-].
  - intros k c r c' [= <- <-]. split; [done|]. by intros o [= <-].
  - by intros c r c' [= _ <-].
  - by intros c c' [= <-].
Defined.

#[export] Instance reference_map_order : MapOrder.
Proof. refine {| map_iter := fun A m => map_to_list m |}. done. Defined.

Definition first_thread : Thread := mkThread Timing_new empty_tables false.

Lemma first_thread_ok : thread_ok first_thread.
Proof. split; [|done..]. intros table. split; apply NoDup_nil_2. Qed.

Lemma succeeded {S} (p : result unit unit * S) : p.1 = Ok tt -> p = (Ok tt, p.2).
Proof. by destruct p as [r s]; cbn; intros ->. Qed.

Definition sample_actions : list Action :=
  [mkAction Mem ["data"; "a"]%string (Some (f64_of 1)) (Some (f64_of 2));
   mkAction Add ["data"; "b"]%string None (Some (f64_of 3)); mkAction Find [] None (Some (f64_of 5))].
Definition sample_messages : list TimingMessage :=
  block_messages (repeat 1 32) (Some 7) 0 (repeat 2 32) None (Some (f64_of 1)) sample_actions None (Some (f64_of 9)).

Lemma timing_rows_witness : thread_ok (for_each process_msg sample_messages first_thread).2.
Proof.
  apply (timing_rows sample_messages first_thread); [exact first_thread_ok|].
  apply succeeded. by vm_compute.
Defined.

Lemma block_is_recorded_witness :
  exists r, r ∈ hash_rows (db (for_each process_msg sample_messages first_thread).2) Blocks /\
    row_hash r = hash_to_string (repeat 1 32) /\ b_actions_count (row_info r) = Some 3.
Proof.
  destruct (block_is_recorded (repeat 1 32) (Some 7) 0 (repeat 2 32) None (Some (f64_of 1)) sample_actions
    None (Some (f64_of 9)) first_thread (for_each process_msg sample_messages first_thread).2 first_thread_ok)
    as (r & new & Hr & Hh & (time & Hi) & _).
  - apply succeeded. by vm_compute.
  - exists r. rewrite Hi. done.
Defined.
