(* ===== verification/TimingChannel.v ===== *)
(** * The channel of the timing thread
    ([tezos/timing/src/lib.rs], [new_context/src/ffi.rs])

    OCaml calls the exported functions, each of which sends one message through a
    channel with room for 10000; the thread takes messages out one at a time, first
    until one that says where the database is, then for good.  Sending waits for
    room.  The functions, the opening of the database, and the channel as a step
    relation: what the thread has done at any moment is [start_timing] of a prefix
    of what was sent, and a full channel does not stay full. *)

From Stdlib Require Import ZArith Lia List Bool String SpecFloat.
From stdpp Require Import base option list numbers strings gmap.
From S2P Require Import Prelude Environment Timing.

Set Warnings "-register-all".
Local Open Scope string_scope.
Local Open Scope list_scope.
Local Open Scope Z_scope.

(** ** The exported functions: the message that is sent, if any *)
Definition tezedge_timing_set_block (now_since_epoch instant : Z) (block_hash : option bytes) : option TimingMessage :=
  Some (set_block now_since_epoch instant block_hash).
Definition tezedge_timing_checkout (context_hash : bytes) (irmin_time tezedge_time : f64) : option TimingMessage :=
  Some (checkout context_hash irmin_time tezedge_time).
Definition tezedge_timing_set_operation (operation_hash : option bytes) : option TimingMessage :=
  Some (set_operation operation_hash).
Definition tezedge_timing_commit (new_context_hash : bytes) (irmin_time tezedge_time : f64) : option TimingMessage :=
  Some (commit new_context_hash irmin_time tezedge_time).
Definition tezedge_timing_context_action (action_name : string) (key : list string) (irmin_time tezedge_time : f64)
  : option TimingMessage := context_action action_name key irmin_time tezedge_time.
Definition tezedge_timing_init (db_path : string) : option TimingMessage := Some (init_timing db_path).

Section Channel.
Context `{Rusqlite, MapOrder}.

(** ** [init_sqlite]

    The failures of creating the directory and of removing an old file are ignored;
    the schema is a list of statements, each prepared and executed. *)
Class SqliteFiles : Type := {
  Disk : Type;
  is_dir : string -> Disk -> bool;
  create_dir_all : string -> Disk -> Disk;
  remove_file : string -> Disk -> Disk;
  open : string -> Disk -> result SQLError Connection;
  open_in_memory : result SQLError Connection;
  schema : list string;
  execute_schema : string -> Connection -> result SQLError Connection;
}.

Fixpoint execute_all `{SqliteFiles} (statements : list string) (c : Connection) : result SQLError Connection :=
  match statements with
  | [] => Ok c
  | st :: statements => c ← execute_schema st c; execute_all statements c
  end.

Definition init_sqlite `{SqliteFiles} (disk : Disk) (db_path : option string) : result SQLError Connection :=
  connection ←
    match db_path with
    | Some path =>
        let disk := if is_dir path disk then disk else create_dir_all path disk in
        let path := path_join path FILENAME_DB in
        open path (remove_file path disk)
    | None => open_in_memory
    end;
  execute_all schema connection.

(** ** [TIMING_CHANNEL] *)
Definition CHANNEL_SIZE : Z := 10000.

Context (initialize : option string -> result SQLError Connection).

(** What the thread is doing: waiting for the path, processing, or gone because the
    database could not be opened. *)
Inductive Phase : Type := Waiting | Processing (t : Thread) | Gone.

Definition receive (msg : TimingMessage) (p : Phase) : Phase :=
  match p with
  | Waiting =>
      match msg with
      | InitTiming path =>
          match initialize path with
          | Ok c => Processing (mkThread Timing_new c false)
          | Err _ => Gone
          end
      | _ => Waiting
      end
  | Processing t => Processing (process_msg msg t).2
  | Gone => Gone
  end.

Record Channel : Type := mkChannel { buffer : list TimingMessage; phase : Phase }.

(** Once the thread is gone its end of the channel is dropped, and a send fails. *)
Inductive channel_step : list TimingMessage -> Channel -> Channel -> Prop :=
| step_send msg c : phase c <> Gone -> zlen (buffer c) < CHANNEL_SIZE ->
    channel_step [msg] c (mkChannel (buffer c ++ [msg]) (phase c))
| step_send_fails msg c : phase c = Gone -> channel_step [msg] c c
| step_receive msg rest p : p <> Gone ->
    channel_step [] (mkChannel (msg :: rest) p) (mkChannel rest (receive msg p)).

(** Steps, with everything that was sent. *)
Inductive channel_steps : list TimingMessage -> Channel -> Channel -> Prop :=
| steps_refl c : channel_steps [] c c
| steps_step l k c1 c2 c3 : channel_steps l c1 c2 -> channel_step k c2 c3 -> channel_steps (l ++ k) c1 c3.

Definition first_channel : Channel := mkChannel [] Waiting.

(** What the thread makes of the messages it has received. *)
Definition received (msgs : list TimingMessage) : Phase := fold_left (fun p m => receive m p) msgs Waiting.

Lemma received_snoc msgs m : received (msgs ++ [m]) = receive m (received msgs).
Proof. unfold received. by rewrite fold_left_app. Qed.

Lemma processing_all msgs t : fold_left (fun p m => receive m p) msgs (Processing t) = Processing (process_all msgs t).
Proof. revert t. induction msgs as [|m msgs IH]; intros t; [done|]. exact (IH _). Qed.

Lemma gone_stays msgs : fold_left (fun p m => receive m p) msgs Gone = Gone.
Proof. induction msgs as [|m msgs IH]; [done|]. exact IH. Qed.

(** Whether a message says where the database is. *)
Definition is_init (m : TimingMessage) : bool := match m with InitTiming _ => true | _ => false end.

(** That is [start_timing], once such a message has come. *)
Lemma received_start msgs :
  received msgs =
    if existsb is_init msgs
    then match start_timing initialize msgs with Some t => Processing t | None => Gone end
    else Waiting.
Proof.
  unfold received, start_timing. induction msgs as [|m msgs IH]; [done|].
  destruct m; cbn [fold_left existsb is_init orb drop_until_init receive]; try exact IH.
  destruct (initialize _) as [c|e]; [apply processing_all|apply gone_stays].
Qed.

Lemma channel_invariant l c : channel_steps l first_channel c ->
  exists taken, phase c = received taken /\ zlen (buffer c) <= CHANNEL_SIZE /\
    (phase c <> Gone -> l = taken ++ buffer c) /\ exists rest, l = taken ++ rest.
Proof.
  remember first_channel as c0 eqn:E0. induction 1 as [c|l k c1 c2 c3 Hs IH Hk].
  - subst c. exists []. split; [done|]. split; [by vm_compute|]. by split; [|exists []].
  - destruct (IH E0) as (taken & Hp & Hz & Hl & rest & Hr). destruct Hk as [msg c Hg Hroom|msg c Hg|msg tl p Hg].
    + exists taken. cbn [phase buffer]. split; [done|]. split; [rewrite zlen_app; change (zlen [msg]) with 1; lia|].
      rewrite (Hl Hg), <- app_assoc. split; [done|]. by eexists.
    + exists taken. split; [done|]. split; [done|]. split; [done|]. exists (rest ++ [msg]). by rewrite Hr, app_assoc.
    + exists (taken ++ [msg]). cbn [phase buffer] in *. rewrite received_snoc, <- Hp, app_nil_r.
      split; [done|]. rewrite zlen_cons in Hz. split; [lia|]. rewrite (Hl Hg), <- app_assoc.
      split; [done|]. exists tl. by rewrite <- app_assoc.
Qed.

(** At any moment the thread has done what [start_timing] does with the messages
    sent so far, in the order in which they were sent, up to those still in the
    channel, of which there are never more than it has room for. *)
Theorem timing_in_order l c t : channel_steps l first_channel c -> phase c = Processing t ->
  exists taken, l = taken ++ buffer c /\ start_timing initialize taken = Some t /\
    zlen (buffer c) <= CHANNEL_SIZE.
Proof.
  intros Hs Ht. destruct (channel_invariant l c Hs) as (taken & Hp & Hz & Hl & _).
  exists taken. split; [apply Hl; by rewrite Ht|]. split; [|done].
  rewrite Ht, received_start in Hp. destruct (existsb is_init taken); [|done].
  destruct (start_timing initialize taken); [|done]. by injection Hp as <-.
Qed.

(** A sender never waits for good: a step of the thread makes room. *)
Lemma full_channel_moves c : phase c <> Gone -> zlen (buffer c) = CHANNEL_SIZE ->
  exists c', channel_step [] c c' /\ zlen (buffer c') < CHANNEL_SIZE.
Proof.
  destruct c as [[|m rest] p]; cbn [phase buffer]; intros Hg Hz; [done|].
  eexists. split; [by apply step_receive|]. cbn. rewrite zlen_cons in Hz. lia.
Qed.
End Channel.
