(* ===== verification/Identity.v ===== *)
(** * The identity of a node ([tezos/identity/src/lib.rs], [identity_tool])

    An identity is a pair of keys, the hash of the public one, and a proof of work
    for it; it is kept as a JSON object of texts.  The JSON library, the file system
    and the source of random keys are parameters. *)

From Stdlib Require Import ZArith Lia List Bool String.
From stdpp Require Import base option list numbers strings gmap.
From S2P Require Import Prelude Extern CryptoHash Nonce NomReader ExternRef PublicKeys.

Local Open Scope Z_scope.

(** ** Third-party code *)

(** [serde_json] on maps: the values of a parsed map that are strings, and the text
    of a map of strings.  Writing such a map does not fail, and reading it back
    gives it. *)
Class MapJson : Type := {
  json_value : Type;
  json_as_str : json_value -> option bytes;
  map_from_str : bytes -> option (gmap string json_value);
  map_to_string : gmap string bytes -> option bytes;
  map_to_string_ok m : exists text m', map_to_string m = Some text /\ map_from_str text = Some m' /\
    forall k, (m' !! k) ≫= json_as_str = m !! k;
}.

(** [fs::read_to_string] and [fs::write]; [None] is an I/O error.  What was written
    is read. *)
Class TextFiles : Type := {
  files : Type;
  read_to_string : string -> files -> option bytes;
  write_file : string -> bytes -> files -> option files;
  write_read path text f f' : write_file path text f = Some f' -> read_to_string path f' = Some text;
}.

(** ** [crypto_box.rs], [proof_of_work.rs]: keys and stamps from text *)
Inductive FromHex : Type := HexError (e : FromHexError) | SizeError (e : CryptoError).

Definition key_from_hex `{HexCrate} (hex : bytes) : result FromHex bytes :=
  bs ← map_err HexError (hex_decode hex);
  map_err SizeError (ensure_crypto_key_bytes bs).

Definition stamp_from_hex `{HexCrate} (hex : bytes) : result FromHex bytes :=
  bs ← map_err HexError (hex_decode hex);
  if negb (zlen bs =? Pow.POW_SIZE) then Err (SizeError (InvalidKeySize Pow.POW_SIZE (zlen bs))) else Ok bs.

(** [random_keypair]; [keypair] is what sodium draws. *)
Definition random_keypair `{Sodium} (keypair : bytes * bytes) : result PublicKeyError (bytes * bytes * bytes) :=
  let (pk, sk) := keypair in
  pkh ← public_key_hash pk;
  Ok (sk, pk, pkh).

(** ** [Identity] *)

(** The texts of an [IdentityFieldError]: [Missing 'f'], [Missing valid 'f'], and the
    latter with a cause. *)
Inductive FieldReason : Type :=
| Missing (field : string)
| NotText (field : string)
| InvalidHash (field : string) (e : FromBase58CheckError)
| InvalidHex (field : string) (e : FromHex).

Inductive IdentityError : Type :=
| IdIoError
| IdentitySerdeError
| IdentityFieldError (reason : FieldReason)
| InvalidPeerIdError
| IdPublicKeyError (e : PublicKeyError)
(** The [unreachable!] of [to_base58_check]. *)
| IdPanicked.

Module Identity.
Record t : Type := mk {
  peer_id : bytes;
  public_key : bytes;
  secret_key : bytes;
  proof_of_work_stamp : bytes;
}.

Section Ops.
Context `{Base58Crate, Sodium, BigUintCrate, HexCrate, !HexEncode, MapJson}.

(** [None] when the proof of work is not found within [rounds]. *)
Definition generate (rounds : nat) (keypair : bytes * bytes) (random : bytes) (expected_pow : Pow.target)
  : option (result PublicKeyError t) :=
  match random_keypair keypair with
  | Err e => Some (Err e)
  | Ok (sk, pk, peer_id) =>
      pow ← Pow.generate rounds pk random expected_pow;
      Some (Ok (mk peer_id pk sk pow))
  end.

Definition check_peer_id (self : t) : result IdentityError unit :=
  h ← map_err IdPublicKeyError (public_key_hash (public_key self));
  if bool_decide (peer_id self = h) then Ok tt else Err InvalidPeerIdError.

(** [identity.get(f).ok_or(..)?.as_str().ok_or(..)?]. *)
Definition text_field (field : string) (m : gmap string json_value) : result IdentityError bytes :=
  v ← ok_or (m !! field) (IdentityFieldError (Missing field));
  ok_or (json_as_str v) (IdentityFieldError (NotText field)).

Definition from_json (json : bytes) : result IdentityError t :=
  identity ← ok_or (map_from_str json) IdentitySerdeError;
  peer_id_str ← text_field "peer_id" identity;
  peer_id ← map_err (fun e => IdentityFieldError (InvalidHash "peer_id" e))
    (b58check_to_hash CryptoboxPublicKeyHash peer_id_str);
  public_key_str ← text_field "public_key" identity;
  public_key ← map_err (fun e => IdentityFieldError (InvalidHex "public_key" e)) (key_from_hex public_key_str);
  secret_key_str ← text_field "secret_key" identity;
  secret_key ← map_err (fun e => IdentityFieldError (InvalidHex "secret_key" e)) (key_from_hex secret_key_str);
  proof_of_work_stamp_str ← text_field "proof_of_work_stamp" identity;
  proof_of_work_stamp ← map_err (fun e => IdentityFieldError (InvalidHex "proof_of_work_stamp" e))
    (stamp_from_hex proof_of_work_stamp_str);
  Ok (mk peer_id public_key secret_key proof_of_work_stamp).

Definition as_json (self : t) : result IdentityError bytes :=
  peer ← ok_or (to_base58_check CryptoboxPublicKeyHash (peer_id self)) IdPanicked;
  let identity : gmap string bytes :=
    <["proof_of_work_stamp" := hex_encode (proof_of_work_stamp self)]>
      (<["secret_key" := hex_encode (secret_key self)]>
         (<["public_key" := hex_encode (public_key self)]> (<["peer_id" := peer]> ∅))) in
  ok_or (map_to_string identity) IdentitySerdeError.

Definition load_identity `{TextFiles} (path : string) (f : files) : result IdentityError t :=
  contents ← ok_or (read_to_string path f) IdIoError;
  from_json contents.

Definition store_identity `{TextFiles} (path : string) (identity : t) (f : files) : result IdentityError files :=
  identity_json ← as_json identity;
  ok_or (write_file path identity_json f) IdIoError.
End Ops.
End Identity.

(** ** [identity_tool]

    How many identities each part of [main] prints: sixteen tasks, the rest, and the
    last one, which has no comma after it.  [num - 1] wraps, as in a release build. *)
Definition identity_tool (number : option Z) : list Z :=
  let num := default 1 number in
  let num := uwrap 64 (num - 1) in
  repeat (num / 16) 16 ++ [num mod 16; 1].

(** ** Facts *)

(** An identity with parts of the right sizes. *)
Definition sized (i : Identity.t) : Prop :=
  zlen (Identity.peer_id i) = hash_size CryptoboxPublicKeyHash /\
  (zlen (Identity.public_key i) = 32 /\ are_bytes (Identity.public_key i)) /\
  (zlen (Identity.secret_key i) = 32 /\ are_bytes (Identity.secret_key i)) /\
  zlen (Identity.proof_of_work_stamp i) = 24 /\ are_bytes (Identity.proof_of_work_stamp i).

Section Facts.
Context `{Base58Crate, Sodium, BigUintCrate, HexCrate, !HexEncode, MapJson}.

Lemma key_from_hex_encode bs : zlen bs = 32 -> are_bytes bs -> key_from_hex (hex_encode bs) = Ok bs.
Proof.
  intros Hl Hb. unfold key_from_hex. rewrite hex_decode_encode by done. cbn.
  unfold ensure_crypto_key_bytes. by rewrite Hl.
Qed.

Lemma stamp_from_hex_encode bs : zlen bs = 24 -> are_bytes bs -> stamp_from_hex (hex_encode bs) = Ok bs.
Proof.
  intros Hl Hb. unfold stamp_from_hex. rewrite hex_decode_encode by done. cbn. by rewrite Hl.
Qed.

Lemma text_field_of (m : gmap string bytes) (m' : gmap string json_value) field s :
  (forall k, (m' !! k) ≫= json_as_str = m !! k) -> m !! field = Some s ->
  Identity.text_field field m' = Ok s.
Proof.
  intros Hm Hs. specialize (Hm field). rewrite Hs in Hm. unfold Identity.text_field.
  destruct (m' !! field) as [v|]; [|done]. cbn in *. by rewrite Hm.
Qed.

Lemma as_json_reads i : sized i ->
  exists text, Identity.as_json i = Ok text /\ Identity.from_json text = Ok i.
Proof.
  intros (Hp & [Hk Hkb] & [Hs Hsb] & Hw & Hwb). unfold Identity.as_json, to_base58_check.
  destruct (b58check_to_hash_of CryptoboxPublicKeyHash CryptoboxPublicKeyHash (Identity.peer_id i))
    as (peer & -> & Epeer); [done..|]. cbn [ok_or mbind result_bind].
  match goal with |- context [map_to_string ?m] => destruct (map_to_string_ok m) as (text & m' & -> & Em & Hm) end.
  exists text. split; [done|]. unfold Identity.from_json. rewrite Em. cbn [ok_or mbind result_bind].
  rewrite (text_field_of _ _ "peer_id" peer Hm) by by simplify_map_eq. cbn [mbind result_bind].
  rewrite Epeer. cbn [map_err mbind result_bind].
  rewrite (text_field_of _ _ "public_key" (hex_encode (Identity.public_key i)) Hm) by by simplify_map_eq.
  cbn [mbind result_bind]. rewrite key_from_hex_encode by done. cbn [map_err mbind result_bind].
  rewrite (text_field_of _ _ "secret_key" (hex_encode (Identity.secret_key i)) Hm) by by simplify_map_eq.
  cbn [mbind result_bind]. rewrite key_from_hex_encode by done. cbn [map_err mbind result_bind].
  rewrite (text_field_of _ _ "proof_of_work_stamp" (hex_encode (Identity.proof_of_work_stamp i)) Hm)
    by by simplify_map_eq.
  cbn [mbind result_bind]. rewrite stamp_from_hex_encode by done. cbn. by destruct i.
Qed.

(** Whatever the search returns passes the check. *)
Lemma generate_checked rounds key n target pow : length key = 32%nat -> 0 <= n < 2 ^ 192 ->
  Pow.generate_loop rounds (key ++ be_bytes 24 n) target = Some pow ->
  zlen pow = 24 /\ are_bytes pow /\ Pow.check_proof_of_work_inner (key ++ pow) target = Ok tt.
Proof.
  intros Hk. revert n. induction rounds as [|rounds IH]; intros n Hn; cbn [Pow.generate_loop]; [done|].
  destruct (Pow.check_proof_of_work_inner (key ++ be_bytes 24 n) target) as [[]|e] eqn:E.
  - intros [= <-]. change (Z.to_nat CRYPTO_KEY_SIZE) with 32%nat. rewrite <- Hk at 1 2. rewrite !drop_app_len.
    split_and!; [unfold zlen; by rewrite be_bytes_length|apply be_bytes_are_bytes|].
    rewrite <- Hk. by rewrite drop_app_len.
  - rewrite increment_counts by done. apply IH, Z.mod_pos_bound. lia.
Qed.

(** Searching from any nonce reaches a good one. *)
Lemma generate_total key random target good : length key = 32%nat ->
  length random = 24%nat -> are_bytes random -> length good = 24%nat -> are_bytes good ->
  Pow.check good key target = Ok tt ->
  exists rounds pow, Pow.generate rounds key random target = Some pow /\ zlen pow = 24 /\ are_bytes pow /\
    Pow.check pow key target = Ok tt.
Proof.
  intros Hk Hr Hrb Hg Hgb Hc. pose proof (be_val_bound random Hrb) as Hn. pose proof (be_val_bound good Hgb) as Hm.
  unfold zlen in Hn, Hm. rewrite Hr in Hn. rewrite Hg in Hm. change (256 ^ Z.of_nat 24) with (2 ^ 192) in *.
  pose proof (be_bytes_be_val random Hrb) as Er. pose proof (be_bytes_be_val good Hgb) as Eg.
  rewrite Hr in Er. rewrite Hg in Eg.
  pose proof (Z.mod_pos_bound (be_val good - be_val random) (2 ^ 192)) as Hd.
  destruct (generate_reaches key (Pow.make_target target) Hk
    (Z.to_nat ((be_val good - be_val random) mod 2 ^ 192)) (be_val random) Hn) as (j & m & _ & _ & Hgen & _).
  - rewrite Z2Nat.id by lia. rewrite Zplus_mod_idemp_r.
    replace (be_val random + (be_val good - be_val random)) with (be_val good) by lia.
    rewrite Z.mod_small, Eg by done. exact Hc.
  - exists (S j), (be_bytes 24 m). unfold Pow.generate. rewrite <- Er at 1. split; [exact Hgen|].
    exact (generate_checked (S j) key (be_val random) (Pow.make_target target) _ Hk Hn Hgen).
Qed.

(** (C26) Whatever keys and random bytes are drawn, if some stamp meets the target
    then generating an identity ends with one: its peer id is that of its key, its
    stamp passes the check, and a file it is stored in gives it back, with every
    field. *)
Theorem identity_generated `{TextFiles} (pk sk random good : bytes) (target : Pow.target) :
  length pk = 32%nat -> are_bytes pk -> length sk = 32%nat -> are_bytes sk ->
  length random = 24%nat -> are_bytes random ->
  length good = 24%nat -> are_bytes good -> Pow.check good pk target = Ok tt ->
  exists rounds i, Identity.generate rounds (pk, sk) random target = Some (Ok i) /\
    Identity.check_peer_id i = Ok tt /\
    Pow.check (Identity.proof_of_work_stamp i) (Identity.public_key i) target = Ok tt /\
    forall path f, Identity.store_identity path i f = Err IdIoError \/
      exists f', Identity.store_identity path i f = Ok f' /\ Identity.load_identity path f' = Ok i.
Proof.
  intros Hk Hkb Hs Hsb Hr Hrb Hg Hgb Hc.
  destruct (generate_total pk random target good) as (rounds & pow & Eg & Hl & Hb & Hp); [done..|].
  destruct (digest_ok pk 16) as (h & Hd & Hh & _); [lia|].
  assert (Epk : public_key_hash pk = Ok h).
  { unfold public_key_hash, digest_128. rewrite Hd. cbn. unfold hash_from_bytes. by rewrite Hh. }
  exists rounds, (Identity.mk h pk sk pow).
  assert (Hz : sized (Identity.mk h pk sk pow)).
  { unfold sized, zlen in *. cbn. split_and!; try done; lia. }
  destruct (as_json_reads _ Hz) as (text & Et & Ef). split_and!; [|..|done|].
  - unfold Identity.generate, random_keypair. rewrite Epk. cbn. by rewrite Eg.
  - unfold Identity.check_peer_id. cbn. rewrite Epk. cbn. by rewrite bool_decide_true.
  - intros path f. unfold Identity.store_identity, Identity.load_identity. rewrite Et. cbn.
    destruct (write_file path text f) as [f'|] eqn:Ew; [|by left]. right. exists f'. split; [done|].
    by rewrite (write_read _ _ _ _ Ew).
Qed.
End Facts.

(** The tool prints as many identities as asked for; asked for none, it does not
    stop for 2^64 of them. *)
Lemma identity_tool_total number : 1 <= default 1 number < 2 ^ 64 ->
  foldr Z.add 0 (identity_tool number) = default 1 number.
Proof.
  intros Hn. unfold identity_tool, uwrap. set (num := default 1 number) in *.
  rewrite (Z.mod_small (num - 1)) by lia. pose proof (Z.div_mod (num - 1) 16). cbn. lia.
Qed.

Lemma identity_tool_none : foldr Z.add 0 (identity_tool (Some 0)) = 2 ^ 64.
Proof. by vm_compute. Qed.

(** ** Examples *)
#[export] Instance reference_map_json : MapJson.
Proof.
  refine {| json_value := bytes; json_as_str v := Some v;
    map_from_str t := decode (Z.to_pos (be_val t));
    map_to_string m := Some (be_bytes (byte_count (Z.pos (encode m))) (Z.pos (encode m))) |}.
  intros m. eexists _, m. split; [done|]. split.
  - rewrite be_val_be_bytes_small by (apply byte_count_bound; lia). apply decode_encode.
  - intros k. by destruct (m !! k).
Defined.

#[export] Instance reference_files : TextFiles.
Proof.
  refine {| files := gmap string bytes; read_to_string path f := f !! path;
            write_file path text f := Some (<[path := text]> f) |}.
  intros path text f f' [= <-]. apply lookup_insert_eq.
Defined.

Lemma identity_generated_witness :
  exists rounds i, Identity.generate rounds (repeat 1 32, repeat 2 32) (repeat 255 24) (Pow.mkTarget true 0 0) =
      Some (Ok i) /\ Identity.check_peer_id i = Ok tt /\
    Pow.check (Identity.proof_of_work_stamp i) (Identity.public_key i) (Pow.mkTarget true 0 0) = Ok tt /\
    forall path f, Identity.store_identity path i f = Err IdIoError \/
      exists f', Identity.store_identity path i f = Ok f' /\ Identity.load_identity path f' = Ok i.
Proof.
  apply (identity_generated (repeat 1 32) (repeat 2 32) (repeat 255 24) (repeat 7 24)); try reflexivity.
  all: repeat constructor; unfold is_byte; lia.
Defined.
