(* ===== verification/Rights.v ===== *)
(** * Rights, votes and counters for the RPC ([tezos/messages/src/protocol/*],
    [base/rpc_support.rs])

    The records of baking and endorsing rights, which every protocol declares anew
    with the same text, their JSON maps, and how a [UniversalValue] is written as
    JSON. *)

From Stdlib Require Import ZArith Lia List Bool String.
From stdpp Require Import base option list numbers strings gmap pretty.
From S2P Require Import Prelude Extern CryptoHash NomReader ExternRef PublicKeys Types Serializer BinaryWriter NomCrate DeriveMake Derive Messages BinaryMessage ProtocolConstants.

Set Warnings "-register-all".
Local Open Scope Z_scope.

(** ** Writing a [UniversalValue]

    What the serializer is given: numbers, strings and sequences.  [ts_to_rfc3339]
    is chrono's text of a time. *)
Inductive Json : Type := JNumber (z : Z) | JString (s : bytes) | JSeq (l : list Json).

Class ChronoText : Type := { ts_to_rfc3339 : Z -> bytes }.

Fixpoint serialize `{ChronoText} (v : UniversalValue) : Json :=
  match v with
  | BigNumber z => JString (lit (pretty z))
  | Number z => JNumber z
  | NumberI64 z => JString (lit (pretty z))
  | Text s => JString s
  | TimestampRfc3339 ts => JString (ts_to_rfc3339 ts)
  | ListOf l => JSeq (map serialize l)
  end.

(** [num_list] at [u16]. *)
Definition num_list (l : list Z) : UniversalValue := ListOf (map Number l).

(** ** [rights.rs] *)
Module EndorsingRight.
Record t : Type := new {
  level : Z; delegate : PublicKeyHash.t; slots : list Z; estimated_time : option Z;
}.
Definition as_map `{Base58Crate, Sodium} (self : t) : option RpcJsonMap :=
  delegate ← PublicKeyHash.to_string_representation (delegate self);
  let ret : RpcJsonMap := <["slots" := num_list (slots self)]>
    (<["delegate" := Text delegate]> (<["level" := Number (level self)]> ∅)) in
  Some match estimated_time self with
       | Some ts => <["estimated_time" := TimestampRfc3339 ts]> ret
       | None => ret
       end.
End EndorsingRight.

Module BakingRights.
Record t : Type := new {
  level : Z; delegate : PublicKeyHash.t; priority : Z; estimated_time : option Z;
}.
Definition as_map `{Base58Crate, Sodium} (self : t) : option RpcJsonMap :=
  delegate ← PublicKeyHash.to_string_representation (delegate self);
  let ret : RpcJsonMap := <["priority" := Number (priority self)]>
    (<["delegate" := Text delegate]> (<["level" := Number (level self)]> ∅)) in
  Some match estimated_time self with
       | Some ts => <["estimated_time" := TimestampRfc3339 ts]> ret
       | None => ret
       end.
End BakingRights.

(** *** The files of the protocols

    Each protocol declares the two records anew, with the same text. *)
Record RightsFile `{Base58Crate, Sodium} : Type := mkRightsFile {
  endorsing_as_map : EndorsingRight.t -> option RpcJsonMap;
  baking_as_map : BakingRights.t -> option RpcJsonMap;
}.

Section Files.
Context `{Base58Crate, Sodium}.
Definition proto_001_rights : RightsFile := mkRightsFile _ _ EndorsingRight.as_map BakingRights.as_map.
Definition proto_002_rights : RightsFile := mkRightsFile _ _ EndorsingRight.as_map BakingRights.as_map.
Definition proto_003_rights : RightsFile := mkRightsFile _ _ EndorsingRight.as_map BakingRights.as_map.
Definition proto_004_rights : RightsFile := mkRightsFile _ _ EndorsingRight.as_map BakingRights.as_map.
Definition proto_005_rights : RightsFile := mkRightsFile _ _ EndorsingRight.as_map BakingRights.as_map.
Definition proto_005_2_rights : RightsFile := mkRightsFile _ _ EndorsingRight.as_map BakingRights.as_map.
Definition proto_006_rights : RightsFile := mkRightsFile _ _ EndorsingRight.as_map BakingRights.as_map.
Definition proto_007_rights : RightsFile := mkRightsFile _ _ EndorsingRight.as_map BakingRights.as_map.
Definition proto_008_rights : RightsFile := mkRightsFile _ _ EndorsingRight.as_map BakingRights.as_map.
Definition proto_008_2_rights : RightsFile := mkRightsFile _ _ EndorsingRight.as_map BakingRights.as_map.
Definition rights_files : list RightsFile :=
  [proto_001_rights; proto_002_rights; proto_003_rights; proto_004_rights; proto_005_rights;
   proto_005_2_rights; proto_006_rights; proto_007_rights; proto_008_rights; proto_008_2_rights].
End Files.

(** ** [votes.rs], [contract.rs] *)
Record VoteListings : Type := mkVoteListings { pkh : string; rolls : Z }.
Record Counter : Type := mkCounter { counter : Z }.
Definition to_numeric_string (c : Counter) : bytes := lit (pretty (counter c)).

(** ** Numbers in JSON

    Readers of JSON keep numbers as doubles: what may exceed 32 bits is a string. *)
Fixpoint numbers (j : Json) : list Z :=
  match j with JNumber z => [z] | JString _ => [] | JSeq l => concat (map numbers l) end.

(** The integers at their Rust types. *)
Fixpoint typed (v : UniversalValue) : Prop :=
  match v with
  | Number z => in_s 32 z
  | NumberI64 z | TimestampRfc3339 z => in_s 64 z
  | ListOf l => (fix all l := match l with [] => True | v :: l => typed v /\ all l end) l
  | BigNumber _ | Text _ => True
  end.

Lemma numbers_fit `{ChronoText} v : typed v -> Forall (in_s 32) (numbers (serialize v)).
Proof.
  revert v. fix IH 1. intros [z|z|z|l|s|z] Hv; cbn; try constructor; try done; try constructor.
  induction l as [|v l IHl]; cbn; [constructor|]. destruct Hv as [Hv Hl].
  apply Forall_app. split; [by apply IH|by apply IHl].
Qed.

(** The map of a right whose delegate was read from a text is made, and written
    without a number beyond 32 bits. *)
Lemma endorsing_map_fits `{Base58Crate, Sodium, ChronoText} (r : EndorsingRight.t) :
  zlen (PublicKeyHash.hash (EndorsingRight.delegate r)) =
    hash_size (PublicKeyHash.hash_type (EndorsingRight.delegate r)) ->
  in_s 32 (EndorsingRight.level r) -> Forall (in_u 16) (EndorsingRight.slots r) ->
  exists m, EndorsingRight.as_map r = Some m /\
    forall k v, m !! k = Some v -> Forall (in_s 32) (numbers (serialize v)).
Proof.
  intros Hd Hl Hs. unfold EndorsingRight.as_map, PublicKeyHash.to_string_representation, to_base58_check.
  destruct (hash_to_b58check_text _ _ Hd) as (s & -> & _). cbn [mbind option_bind]. eexists. split; [done|].
  assert (Hslots : Forall (in_s 32) (numbers (serialize (num_list (EndorsingRight.slots r))))).
  { apply numbers_fit. cbn. induction Hs as [|z zs Hz _ IH]; cbn; [done|]. split; [|done].
    unfold in_u, in_s in *. lia. }
  intros k v. destruct (EndorsingRight.estimated_time r) as [ts|]; rewrite ?lookup_insert_Some, ?lookup_empty.
  - intros [[_ <-]|[_ [[_ <-]|[_ [[_ <-]|[_ [[_ <-]|[_ ?]]]]]]]]; first [exact Hslots | apply Forall_singleton; exact Hl | constructor | done].
  - intros [[_ <-]|[_ [[_ <-]|[_ [[_ <-]|[_ ?]]]]]]; first [exact Hslots | apply Forall_singleton; exact Hl | constructor | done].
Qed.

Lemma baking_map_fits `{Base58Crate, Sodium, ChronoText} (r : BakingRights.t) :
  zlen (PublicKeyHash.hash (BakingRights.delegate r)) =
    hash_size (PublicKeyHash.hash_type (BakingRights.delegate r)) ->
  in_s 32 (BakingRights.level r) -> in_u 16 (BakingRights.priority r) ->
  exists m, BakingRights.as_map r = Some m /\
    forall k v, m !! k = Some v -> Forall (in_s 32) (numbers (serialize v)).
Proof.
  intros Hd Hl Hp. unfold BakingRights.as_map, PublicKeyHash.to_string_representation, to_base58_check.
  destruct (hash_to_b58check_text _ _ Hd) as (s & -> & _). cbn [mbind option_bind]. eexists. split; [done|].
  assert (Hpr : in_s 32 (BakingRights.priority r)) by (unfold in_u, in_s in *; lia).
  intros k v. destruct (BakingRights.estimated_time r) as [ts|]; rewrite ?lookup_insert_Some, ?lookup_empty.
  - intros [[_ <-]|[_ [[_ <-]|[_ [[_ <-]|[_ [[_ <-]|[_ ?]]]]]]]];
      first [done | apply Forall_singleton; assumption | constructor].
  - intros [[_ <-]|[_ [[_ <-]|[_ [[_ <-]|[_ ?]]]]]]; first [done | apply Forall_singleton; assumption | constructor].
Qed.

(** The same of every protocol. *)
Lemma rights_fit `{Base58Crate, Sodium, ChronoText} : Forall (fun f : RightsFile =>
  (forall r, zlen (PublicKeyHash.hash (EndorsingRight.delegate r)) =
     hash_size (PublicKeyHash.hash_type (EndorsingRight.delegate r)) ->
   in_s 32 (EndorsingRight.level r) -> Forall (in_u 16) (EndorsingRight.slots r) ->
   exists m, endorsing_as_map f r = Some m /\
     forall k v, m !! k = Some v -> Forall (in_s 32) (numbers (serialize v))) /\
  (forall r, zlen (PublicKeyHash.hash (BakingRights.delegate r)) =
     hash_size (PublicKeyHash.hash_type (BakingRights.delegate r)) ->
   in_s 32 (BakingRights.level r) -> in_u 16 (BakingRights.priority r) ->
   exists m, baking_as_map f r = Some m /\
     forall k v, m !! k = Some v -> Forall (in_s 32) (numbers (serialize v)))) rights_files.
Proof. repeat constructor; intros r; first [apply endorsing_map_fits | apply baking_map_fits]. Qed.
