(* ===== verification/PeerWorker.v ===== *)
(** * Workers of the P2P fuzzer ([p2p_fuzzer/src/bin/p2p_fuzzer.rs])

    [worker] runs sessions one after another with one generator: an error ends a
    session and the next one starts from what the generator was left as; only a
    panic ends the worker.  [main] reads the identities and the profile and starts
    the workers.  The files and their JSON are a class.  Every session has sockets
    of its own, so the network is a function of the number of sessions left. *)

From Stdlib Require Import ZArith Lia List Bool String.
From stdpp Require Import base option list numbers strings gmap.
From S2P Require Import Prelude Extern BitUtils CryptoHash Nonce Types Serializer BinaryWriter WriterSpec NomCrate NomReader DeriveMake Derive RoundTrip DerivedCodec MerklePath Messages BinaryMessage ExternRef Zarith ChunkStream PublicKeys MessageFits MessageTypes MessageRead Generator GeneratorFacts PeerFuzz PeerFuzzFacts Identity.

Set Warnings "-register-all".

(** ** The configuration *)

(** The texts of an identity in the file of identities. *)
Record Credentials : Type := mkCredentials {
  cr_peer_id : bytes; cr_public_key : bytes; cr_secret_key : bytes; cr_proof_of_work_stamp : bytes;
}.

(** [serde_json] at the two types, and [fdlimit::raise_fd_limit]. *)
Class FuzzerFiles `{RandCrate} : Type := {
  credentials_from_str : bytes -> option (list Credentials);
  profile_from_str : bytes -> option Profile;
  raise_fd_limit : option Z;
}.

Section Main.
Context `{RandValues, IterOrder, Sodium, BytesCrate, BitVecCrate, HexCrate, UnicodeTables, BigIntCrate, NomCrate, SynCrate}.
Context `{BigUintCrate, BoxCrate, !HexEncode, TcpCrate, KeyExchange, Base58Crate}.

Definition unwrap_result {E A} (r : result E A) : result stop A := map_err (fun _ => StopPanicked) r.

(** The closure of [main]; the peer id is read and not used. *)
Definition identity_of (x : Credentials) : result stop PeerFuzz.Identity :=
  _ ← unwrap_result (b58check_to_hash CryptoboxPublicKeyHash (cr_peer_id x));
  pk ← unwrap_result (key_from_hex (cr_public_key x));
  sk ← unwrap_result (key_from_hex (cr_secret_key x));
  pow ← unwrap_result (stamp_from_hex (cr_proof_of_work_stamp x));
  Ok (mkIdentity pk sk pow).

Fixpoint identities_of (l : list Credentials) : result stop (list PeerFuzz.Identity) :=
  match l with
  | [] => Ok []
  | x :: l => i ← identity_of x; ids ← identities_of l; Ok (i :: ids)
  end.

Definition with_threads (n : Z) (p : Profile) : Profile :=
  mkProfile (peer p) (prng_seed p) (profile_max_chunk_size p) n (handshake_fuzzing p) (peer_message_fuzzing p).

(** What the tasks share: the identities and the profile. *)
Definition load `{!FuzzerFiles} (config identities : bytes) : result stop (list PeerFuzz.Identity * Profile) :=
  cs ← ok_or (credentials_from_str identities) StopPanicked;
  ids ← identities_of cs;
  max_fd ← ok_or raise_fd_limit StopPanicked;
  profile ← ok_or (profile_from_str config) StopPanicked;
  Ok (ids, with_threads (Z.min (threads profile) max_fd) profile).

(** ** [worker] *)

(** Whether the loop goes on after an error. *)
Definition survivable (e : stop) : bool :=
  match e with IoError | UnexpectedEof | DecryptError => true | StopPanicked | OutOfFuel => false end.

(** One turn of the loop. *)
Definition worker_turn (net : TcpSocket) (fuel : nat) (identities : list PeerFuzz.Identity) (profile : Profile)
  (g : RandomState) : result stop RandomState :=
  match fuzz fuel identities profile g with
  | Ok g => Ok g
  | Err (e, g) => if survivable e then Ok g else Err e
  end.

Fixpoint worker_turns (n : nat) (net : nat -> TcpSocket) (fuel : nat) (identities : list PeerFuzz.Identity)
  (profile : Profile) (g : RandomState) : result stop RandomState :=
  match n with
  | O => Ok g
  | S n => g ← worker_turn (net n) fuel identities profile g; worker_turns n net fuel identities profile g
  end.

Definition worker (n : nat) (net : nat -> TcpSocket) (fuel : nat) (identities : list PeerFuzz.Identity)
  (profile : Profile) (task_id : Z) : result stop RandomState :=
  g ← worker_state profile task_id;
  worker_turns n net fuel identities profile g.

(** The tasks of [main]: numbers from 0 to [threads]. *)
Definition task_ids (profile : Profile) : list Z := Z.of_nat <$> seq 0 (Z.to_nat (threads profile)).
End Main.

(** ** The generator over the sessions of a worker

    [gkeeps] and [keeps] are the invariants of the computations of the generator and
    of a session: from a sound generator they end with a sound one, also where they
    stop with an error that the worker survives.  With a peer whose messages are
    usable this holds for every session ([worker_stays_sound]), so that whatever
    number of sessions has failed, everything the generator makes can be written. *)
Section Keeps.
Context `{RandValues, IterOrder, Sodium, BytesCrate, BitVecCrate, HexCrate, UnicodeTables, BigIntCrate, NomCrate, SynCrate}.
Context `{BigUintCrate, BoxCrate, !HexEncode, TcpCrate, KeyExchange}.

(** ** The generator *)
Definition gkeeps {A} (m : G A) : Prop := forall s, session_ok s ->
  match m s with Ok (_, s') => session_ok s' | Err e => survivable e = false end.

Lemma session_rng r s : session_ok s -> session_ok (with_rng r s).
Proof. intros [Hp Hs]. split; [done|]. exact (sound_rng _ r s Hs). Qed.

Lemma gkeeps_ret {A} (a : A) : gkeeps (mret a).
Proof. by intros s Hs. Qed.
Lemma gkeeps_bind {A B} (m : G A) (f : A -> G B) : gkeeps m -> (forall a, gkeeps (f a)) -> gkeeps (m ≫= f).
Proof.
  intros Hm Hf s Hs. specialize (Hm s Hs). unfold mbind, G_bind.
  destruct (m s) as [[a s']|e]; [by apply Hf|done].
Qed.
Lemma gkeeps_panic {A} : gkeeps (panic (A := A)).
Proof. by intros s Hs. Qed.
Lemma gkeeps_unwrap {E A} (r : result E A) : gkeeps (unwrap r).
Proof. intros s Hs. by destruct r. Qed.
Lemma gkeeps_draw {A} (f : rng -> option (A * rng)) : gkeeps (draw f).
Proof. intros s Hs. unfold draw. destruct (f (rng_state s)) as [[a r]|]; [by apply session_rng|done]. Qed.
Lemma gkeeps_gens {A} (m : G A) (P : Peers -> A -> Prop) : (forall p, peers_usable p -> gens p m (P p)) -> gkeeps m.
Proof.
  intros Hm s [Hp Hs]. destruct (Hm _ Hp s Hs) as (a & s' & E & Hs' & _). rewrite E.
  pose proof Hs' as [Ep _]. unfold session_ok. by rewrite Ep.
Qed.
Lemma gkeeps_if {A} (b : bool) (m n : G A) : gkeeps m -> gkeeps n -> gkeeps (if b then m else n).
Proof. by destruct b. Qed.
Lemma gkeeps_repeat {A} n (g : G A) : gkeeps g -> gkeeps (repeat_gen n g).
Proof.
  intros Hg. induction n as [|n IH]; [apply gkeeps_ret|]. cbn [repeat_gen].
  apply gkeeps_bind; [done|]. intros a. apply gkeeps_bind; [done|]. intros l. apply gkeeps_ret.
Qed.

Lemma gkeeps_range lo hi : gkeeps (gen_range lo hi).
Proof. apply gkeeps_draw. Qed.
Lemma gkeeps_bool q : gkeeps (gen_bool q).
Proof. apply gkeeps_draw. Qed.

(** A name that is not one of the declared ones panics. *)
Lemma gkeeps_named name : gkeeps (gen_named name).
Proof.
  destruct (decide (name ∈ message_names)) as [Hn|Hn].
  - eapply gkeeps_gens. intros p Hp. by apply gens_named.
  - unfold gen_named, message_names in *. rewrite !not_elem_of_cons in Hn. destruct_and! Hn.
    repeat (rewrite (proj2 (String.eqb_neq _ _)) by done). apply gkeeps_panic.
Qed.

Lemma gkeeps_push messages : gkeeps (gen_push messages).
Proof.
  unfold gen_push. apply gkeeps_bind; [apply gkeeps_range|]. intros i.
  destruct (messages !! Z.to_nat i); [|apply gkeeps_panic].
  apply gkeeps_bind; [apply gkeeps_named|]. intros m. apply gkeeps_unwrap.
Qed.

Lemma gkeeps_batch messages count : gkeeps (gen_batch messages count).
Proof.
  apply gkeeps_bind; [apply gkeeps_repeat, gkeeps_push|]. intros l. apply gkeeps_ret.
Qed.

Lemma gkeeps_hear m : heard_usable m -> gkeeps (hear m).
Proof. intros Hm s Hs. destruct (hear_ok m s Hm Hs) as (s' & -> & Hs'). done. Qed.

Lemma gkeeps_get_block h : gkeeps (get_block h).
Proof. by intros s Hs. Qed.

Lemma gkeeps_local_address : gkeeps gen_local_address.
Proof. repeat (apply gkeeps_bind; [apply gkeeps_range|]; intros ?). apply gkeeps_ret. Qed.

Lemma gkeeps_connection options identity : gkeeps (gen_connection_message options identity).
Proof.
  unfold gen_connection_message.
  repeat (apply gkeeps_bind; [first [apply gkeeps_bool | apply gkeeps_if; [|apply gkeeps_ret]]|intros ?]).
  - eapply gkeeps_gens. intros p _. apply gens_version.
  - eapply gkeeps_gens. intros p _. apply gens_public_key.
  - eapply gkeeps_gens. intros p _. apply gens_pow.
  - apply gkeeps_bind; [eapply gkeeps_gens; intros p _; apply gens_u16|]. intros port.
    apply gkeeps_bind; [eapply gkeeps_gens; intros p _; apply gens_gen_nonce|]. intros n.
    apply gkeeps_unwrap.
Qed.

(** The messages that answer a peer or belong to the handshake. *)
Lemma gkeeps_advertise : gkeeps gen_advertise.
Proof. eapply gkeeps_gens. intros p Hp. by apply gens_advertise. Qed.
Lemma gkeeps_current_head : gkeeps gen_current_head.
Proof. eapply gkeeps_gens. intros p Hp. by apply gens_current_head. Qed.
Lemma gkeeps_branch_message : gkeeps gen_current_branch_message.
Proof. eapply gkeeps_gens. intros p Hp. by apply gens_branch_message. Qed.
Lemma gkeeps_path : gkeeps gen_path.
Proof. eapply gkeeps_gens. intros p Hp. apply gens_path. Qed.
Lemma gkeeps_operations : gkeeps gen_operations.
Proof. eapply gkeeps_gens. intros p Hp. by apply gens_operations. Qed.
Lemma gkeeps_metadata : gkeeps gen_metadata.
Proof. eapply gkeeps_gens. intros p Hp. by apply gens_metadata. Qed.
Lemma gkeeps_nack : gkeeps gen_nack.
Proof. eapply gkeeps_gens. intros p Hp. by apply gens_nack. Qed.
End Keeps.

Create HintDb gkeeps.
#[export] Hint Resolve gkeeps_ret gkeeps_panic gkeeps_unwrap gkeeps_range gkeeps_bool gkeeps_named gkeeps_batch gkeeps_hear gkeeps_get_block gkeeps_advertise gkeeps_current_head gkeeps_branch_message gkeeps_path gkeeps_operations gkeeps_metadata gkeeps_nack : gkeeps.

(** ** Peers *)
Section Peer.
Context `{RandValues, IterOrder, Sodium, BytesCrate, BitVecCrate, HexCrate, UnicodeTables, BigIntCrate, NomCrate, SynCrate}.
Context `{BigUintCrate, BoxCrate, !HexEncode, TcpCrate, KeyExchange}.

(** A predicate on what a session reads from (buffer, key, nonce and socket) that
    writing does not break, that every message read leads back to, and under which
    every peer message that is read is usable. *)
Definition read_invariant (fuel : nat) (P : ChunkBuffer.t -> bytes -> Nonce.t -> stream -> Prop) : Prop :=
  (forall b key n s bs s', P b key n s -> tcp_write_all bs s = Some s' -> P b key n s') /\
  (forall b key n s name pm v b' n' s', P b key n s ->
     read_msg fuel (impl_of name) key pm b n s = Ok (v, b', n', s') ->
     P b' key n' s' /\
     (name = "PeerMessageResponse"%string -> forall m, response_of v = Some m -> heard_usable m)).

(** The peer at the other end only ever sends usable messages. *)
Definition usable_peer (fuel : nat) (b : ChunkBuffer.t) (key : bytes) (n : Nonce.t) (s : stream) : Prop :=
  exists P, P b key n s /\ read_invariant fuel P.

Lemma usable_wrote fuel b key n s bs s' :
  usable_peer fuel b key n s -> tcp_write_all bs s = Some s' -> usable_peer fuel b key n s'.
Proof. intros (P & HP & HI) E. exists P. split; [|done]. exact (proj1 HI _ _ _ _ _ _ HP E). Qed.

Lemma usable_read fuel b key n s name pm v b' n' s' :
  usable_peer fuel b key n s -> read_msg fuel (impl_of name) key pm b n s = Ok (v, b', n', s') ->
  usable_peer fuel b' key n' s' /\
  (name = "PeerMessageResponse"%string -> forall m, response_of v = Some m -> heard_usable m).
Proof.
  intros (P & HP & HI) E. destruct (proj2 HI _ _ _ _ _ _ _ _ _ _ HP E) as [HP' Hm].
  split; [by exists P|done].
Qed.

Lemma ok_bind {E A B} (m : result E A) (f : A -> result E B) b :
  (m ≫= f) = Ok b -> exists a, m = Ok a /\ f a = Ok b.
Proof. destruct m as [a|]; [|done]. eauto. Qed.
Lemma ok_or_ok {E A} (o : option A) (e : E) a : ok_or o e = Ok a -> o = Some a.
Proof. destruct o; [|done]. by intros [= ->]. Qed.
Lemma at_rng_ok {A} r (m : result stop A) a : at_rng r m = Ok a -> m = Ok a.
Proof. destruct m; [|done]. by intros [= ->]. Qed.

(** What holds of a socket after any number of writes. *)
Section Writes.
Context (Q : stream -> Prop) (HQ : forall bs s s', Q s -> tcp_write_all bs s = Some s' -> Q s').

Lemma pieces_write options inc ps : forall r s r' s',
  write_pieces options inc ps r s = Ok (r', s') -> Q s -> Q s'.
Proof.
  induction ps as [|x ps IH]; intros r s r' s' E Hs; [by injection E as _ <-|].
  cbn [write_pieces] in E. apply ok_bind in E as (s1 & E1 & E). apply at_rng_ok, ok_or_ok in E1.
  destruct inc; [injection E as _ <-; eauto|]. apply ok_bind in E as (br & _ & E). eauto.
Qed.

Lemma bytes_write options bs r s r' s' : write_bytes options bs r s = Ok (r', s') -> Q s -> Q s'.
Proof.
  intros E. unfold write_bytes in E. apply ok_bind in E as (br & _ & E). apply ok_bind in E as (pr & _ & E).
  apply ok_bind in E as (ir & _ & E). by eapply pieces_write.
Qed.

Lemma chunks_write options cs : forall r s r' s', write_chunks options cs r s = Ok (r', s') -> Q s -> Q s'.
Proof.
  induction cs as [|c cs IH]; intros r s r' s' E Hs; [by injection E as _ <-|]. cbn [write_chunks] in E.
  apply ok_bind in E as ([r1 s1] & E1 & E). eapply IH; [exact E|]. by eapply bytes_write.
Qed.

Lemma encrypted_write max options bs key n r s n' r' s' :
  write_bytes_encrypted max options bs key n r s = Ok (n', r', s') -> Q s -> Q s'.
Proof.
  intros E. unfold write_bytes_encrypted in E. apply ok_bind in E as (br & _ & E).
  apply ok_bind in E as (fr & _ & E). apply ok_bind in E as (sr & _ & E). apply ok_bind in E as (cnr & _ & E).
  apply ok_bind in E as ([r1 s1] & E1 & E). injection E as _ _ <-. by eapply chunks_write.
Qed.
End Writes.

(** ** Sessions *)
Context (fuel : nat).

Definition good (c : Conn) : Prop := usable_peer fuel (c_buffer c) (c_key c) (c_remote c) (c_stream c).

(** From a sound generator and a usable peer a computation ends in the same, also
    where it stops with an error the worker survives. *)
Definition keeps {A} (m : F A) : Prop := forall c, good c -> session_ok (c_gen c) ->
  match m c with
  | Ok (_, c') => good c' /\ session_ok (c_gen c')
  | Err (e, g) => survivable e = true -> session_ok g
  end.

Lemma keeps_ret {A} (a : A) : keeps (mret a).
Proof. by intros c Hc Hg. Qed.
Lemma keeps_stop {A} e : keeps (stop_with (A := A) e).
Proof. intros c Hc Hg. by cbn. Qed.
Lemma keeps_bind {A B} (m : F A) (f : A -> F B) : keeps m -> (forall a, keeps (f a)) -> keeps (m ≫= f).
Proof.
  intros Hm Hf c Hc Hg. specialize (Hm c Hc Hg). unfold mbind, F_bind.
  destruct (m c) as [[a c']|[e g]]; [|done]. destruct Hm as [Hc' Hg']. by apply Hf.
Qed.
Lemma keeps_if {A} (b : bool) (m n : F A) : keeps m -> keeps n -> keeps (if b then m else n).
Proof. by destruct b. Qed.
Lemma keeps_gen {A} (m : G A) : gkeeps m -> keeps (on_gen m).
Proof.
  intros Hm c Hc Hg. specialize (Hm _ Hg). unfold on_gen.
  destruct (m (c_gen c)) as [[a g]|e]; [done|]. by rewrite Hm.
Qed.

(** A write that stops leaves the generator with other random numbers. *)
Lemma keeps_write (w : result (stop * rng) (Nonce.t * rng * stream)) c :
  good c -> session_ok (c_gen c) ->
  (forall n r s, w = Ok (n, r, s) -> usable_peer fuel (c_buffer c) (c_key c) (c_remote c) s) ->
  match (nrs ← at_write (c_gen c) w;
         Ok (tt, mkConn (with_rng nrs.1.2 (c_gen c)) nrs.2 (c_buffer c) (c_key c) nrs.1.1 (c_remote c))) with
  | Ok (_, c') => good c' /\ session_ok (c_gen c')
  | Err (e, g) => survivable e = true -> session_ok g
  end.
Proof.
  intros Hc Hg Hw. destruct w as [[[n r] s]|[e r]]; cbn.
  - split; [by eapply Hw|by apply session_rng].
  - intros _. by apply session_rng.
Qed.

Lemma keeps_encrypted options bs : keeps (send_encrypted options bs).
Proof.
  intros c Hc Hg. apply keeps_write; [done|done|]. intros n r s E.
  eapply (encrypted_write (usable_peer fuel _ _ _)); [|exact E|exact Hc]. intros bs' s1 s2. by apply usable_wrote.
Qed.

Lemma keeps_send options name msg : keeps (send_msg options name msg).
Proof.
  intros c Hc Hg. apply keeps_write; [done|done|]. intros n r s E.
  unfold write_msg in E. apply ok_bind in E as (bs & _ & E).
  eapply (encrypted_write (usable_peer fuel _ _ _)); [|exact E|exact Hc]. intros bs' s1 s2. by apply usable_wrote.
Qed.

Lemma keeps_receive {A} name pm (k : rval -> F A) :
  (forall v, (name = "PeerMessageResponse"%string -> forall m, response_of v = Some m -> heard_usable m) ->
     keeps (k v)) -> keeps (v ← receive fuel name pm; k v).
Proof.
  intros Hk c Hc Hg. unfold mbind, F_bind, receive.
  destruct (read_msg _ _ _ _ _ _ _) as [[[[v b] n] s]|e] eqn:E; cbn; [|done].
  destruct (usable_read _ _ _ _ _ _ _ _ _ _ _ Hc E) as [Hc' Hv]. by apply Hk.
Qed.

Lemma keeps_reply options m : keeps (reply options m).
Proof. apply keeps_send. Qed.

Lemma keeps_probability q m : keeps m -> keeps (with_probability q m).
Proof.
  intros Hm. apply keeps_bind; [apply keeps_gen, gkeeps_bool|]. intros b.
  apply keeps_if; [done|apply keeps_ret].
Qed.
End Peer.

Create HintDb keeps.
#[export] Hint Resolve keeps_ret keeps_stop keeps_bind keeps_if keeps_gen keeps_encrypted keeps_send keeps_reply keeps_probability : keeps.
#[export] Hint Extern 1 (gkeeps _) => solve [auto with gkeeps] : keeps.

Section Session.
Context `{RandValues, IterOrder, Sodium, BytesCrate, BitVecCrate, HexCrate, UnicodeTables, BigIntCrate, NomCrate, SynCrate}.
Context `{BigUintCrate, BoxCrate, !HexEncode, TcpCrate, KeyExchange}.
Context (fuel : nat).

Lemma keeps_headers options hashes : keeps fuel (reply_headers options hashes).
Proof.
  induction hashes as [|h hashes IH]; cbn [reply_headers]; [auto with keeps|].
  apply keeps_bind; [auto with keeps|]. intros o. apply keeps_bind; [destruct o; auto with keeps|done].
Qed.

Lemma keeps_operations options l : keeps fuel (reply_operations options l).
Proof.
  induction l as [|o l IH]; cbn [reply_operations]; [auto with keeps|].
  apply keeps_bind; [apply keeps_gen, gkeeps_path|]. intros path.
  apply keeps_bind; [apply keeps_gen, gkeeps_operations|]. intros ops. auto with keeps.
Qed.

Hint Resolve keeps_headers keeps_operations : keeps.

Lemma keeps_answer {A} (m : G A) options (f : A -> PeerMessage.t) :
  gkeeps m -> keeps fuel (a ← on_gen m; reply options (f a)).
Proof. auto with keeps. Qed.

Lemma keeps_gens {A B} (m : G A) (n : G B) : gkeeps (_ ← m; n) -> keeps fuel (_ ← on_gen m; on_gen n).
Proof.
  intros Hm c Hc Hg. specialize (Hm _ Hg). unfold mbind, F_bind, G_bind, on_gen in *.
  destruct (m (c_gen c)) as [[a g]|e]; cbn in *; [|by rewrite Hm].
  destruct (n g) as [[b g']|e]; cbn in *; [done|by rewrite Hm].
Qed.
Hint Resolve keeps_gens : keeps.

(** [respond] hears first. *)
Lemma keeps_respond options ro m : heard_usable m -> keeps fuel (respond options ro m).
Proof.
  intros Hm. pose proof (gkeeps_hear m Hm) as Hh.
  destruct m; cbn [respond hear] in *; try (by auto with keeps);
    try (apply keeps_bind; [by auto with keeps|intros _]); try apply keeps_probability;
    try (by auto with keeps);
    first [apply keeps_answer, gkeeps_advertise | apply keeps_answer, gkeeps_current_head
          | apply keeps_answer, gkeeps_branch_message | idtac].
  all: try by auto with keeps.
Qed.
Hint Resolve keeps_respond : keeps.

Lemma keeps_handle options : keeps fuel (handle_response fuel options).
Proof.
  unfold handle_response. destruct (reply_options options) as [ro|]; [|apply keeps_ret].
  apply keeps_receive. intros v Hv. destruct (response_of v) eqn:E; auto with keeps.
Qed.

Lemma keeps_push n options : forall left, keeps fuel (push_loop n options left).
Proof. induction n as [|n IH]; intros left; cbn [push_loop]; auto 8 with keeps. Qed.

Lemma keeps_burst options : keeps fuel (fuzz_peer_messages fuel options).
Proof. apply keeps_bind; [auto with keeps|]. intros n. apply keeps_push. Qed.

Lemma keeps_exchange rounds options : keeps fuel (exchange rounds fuel options).
Proof.
  induction rounds as [|n IH]; cbn [exchange]; [auto with keeps|].
  apply keeps_bind; [apply keeps_handle|]. intros _. by apply keeps_bind; [apply keeps_burst|].
Qed.

Lemma keeps_heard name pm : keeps fuel (_ ← receive fuel name pm; mret tt).
Proof. apply keeps_receive. auto with keeps. Qed.
Hint Resolve keeps_heard : keeps.

Lemma keeps_finish options : keeps fuel (finish_handshake fuel options).
Proof.
  unfold finish_handshake. apply keeps_bind; [auto with keeps|]. intros b.
  apply keeps_bind; [apply keeps_if; [apply keeps_gen, gkeeps_metadata|auto with keeps]|]. intros m.
  apply keeps_bind; [auto with keeps|]. intros _. apply keeps_bind; [auto with keeps|]. intros r.
  auto with keeps.
Qed.

Lemma keeps_acknowledge options : keeps fuel (acknowledge fuel options).
Proof.
  unfold acknowledge. do 2 (apply keeps_bind; [auto with keeps|]; intros ?).
  apply keeps_bind; [|auto 8 with keeps].
  apply keeps_if; [|auto with keeps]. apply keeps_bind; [auto with keeps|]. intros old.
  apply keeps_if; [auto with keeps|]. apply keeps_bind; [apply keeps_gen, gkeeps_nack|]. auto with keeps.
Qed.

(** ** What is left when a session ends *)
Definition leaves (r : result (stop * RandomState) RandomState) : Prop :=
  match r with Ok g => session_ok g | Err (e, g) => survivable e = true -> session_ok g end.

(** The rest of a session after a computation on the connection. *)
Lemma leaves_bind {A} (m : F A) (k : A * Conn -> result (stop * RandomState) RandomState) c :
  keeps fuel m -> good fuel c -> session_ok (c_gen c) ->
  (forall a c', good fuel c' -> session_ok (c_gen c') -> leaves (k (a, c'))) -> leaves (m c ≫= k).
Proof.
  intros Hm Hc Hg Hk. specialize (Hm c Hc Hg). destruct (m c) as [[a c']|[e g]]; [|done].
  destruct Hm. by apply Hk.
Qed.

(** The rest after a method of the generator, and after what does not touch it. *)
Lemma leaves_gen {A} (m : G A) (k : A * RandomState -> result (stop * RandomState) RandomState) g :
  gkeeps m -> session_ok g -> (forall a g', session_ok g' -> leaves (k (a, g'))) ->
  leaves (at_gen g (m g) ≫= k).
Proof.
  intros Hm Hg Hk. specialize (Hm g Hg). destruct (m g) as [[a g']|e]; cbn in *; [by apply Hk|by rewrite Hm].
Qed.
Lemma leaves_other {A} (m : result stop A) (k : A -> result (stop * RandomState) RandomState) g :
  session_ok g -> (forall a, m = Ok a -> leaves (k a)) -> leaves (at_gen g m ≫= k).
Proof. intros Hg Hk. destruct m as [a|e]; cbn; [by apply Hk|done]. Qed.
Lemma leaves_panic {E A} (m : result E A) (k : A -> result (stop * RandomState) RandomState) g :
  (forall a, m = Ok a -> leaves (k a)) -> leaves (map_err (fun _ => (StopPanicked, g)) m ≫= k).
Proof. intros Hk. destruct m as [a|e]; cbn; [by apply Hk|done]. Qed.

(** A peer that, once [initiator] is sent to it, answers with a connection message
    and then only with usable messages. *)
Definition usable_answer (identity : PeerFuzz.Identity) (initiator : bytes) (s : stream) : Prop :=
  forall responder b s' v pk pk' nonces,
    ChunkBuffer.read_chunk fuel 0 ChunkBuffer.default s = Ok (responder, b, s') ->
    from_bytes (impl_of "ConnectionMessage") (content responder) = Ok v -> public_key_of v = Some pk ->
    ensure_crypto_key_bytes pk = Ok pk' -> generate_nonces initiator (raw responder) false = Ok nonces ->
    usable_peer fuel b (precompute pk' (secret_key identity)) (remote nonces) s'.

(** A network on which every connection leads to such a peer. *)
Definition usable_network (identities : list PeerFuzz.Identity) (net : TcpSocket) : Prop :=
  forall to sock s options initiator r r' s' identity,
    tcp_connect to sock = Some s -> write_bytes options initiator r s = Ok (r', s') ->
    identity ∈ identities -> usable_answer identity initiator s'.

Lemma connected_leaves profile options identity initiator g s :
  usable_answer identity (raw initiator) s -> session_ok g ->
  leaves (connected fuel profile options identity initiator g s).
Proof.
  intros Ha Hg. unfold connected. apply leaves_other; [done|]. intros [[responder b] s'] E1.
  apply leaves_panic. intros v E2. destruct (public_key_of v) as [pk|] eqn:E3; [|done]. cbn [ok_or mbind result_bind].
  apply leaves_panic. intros pk' E4. apply leaves_panic. intros nonces E5.
  pose proof (Ha _ _ _ _ _ _ _ E1 E2 E3 E4 E5) as Hu.
  apply leaves_bind; [apply keeps_finish|exact Hu|done|]. intros u1 c1 Hc1 Hg1.
  apply leaves_bind; [auto with keeps|done|done|]. intros b' c2 Hc2 Hg2.
  cbn [fst snd]. destruct b'; [done|].
  apply leaves_bind; [apply keeps_acknowledge|done|done|]. intros u3 c3 Hc3 Hg3.
  destruct (peer_message_fuzzing profile) as [pm|]; [|done].
  by apply leaves_bind; [apply keeps_exchange|..].
Qed.

(** One session, whatever happens to it. *)
Lemma fuzz_leaves (net : TcpSocket) identities profile g :
  usable_network identities net -> session_ok g -> leaves (fuzz fuel identities profile g).
Proof.
  intros Hn Hg. unfold fuzz. apply leaves_other; [done|]. intros sock _.
  apply leaves_gen; [apply gkeeps_local_address|done|]. intros a g1 Hg1.
  apply leaves_other; [done|]. intros sock' _. apply leaves_other; [done|]. intros to _.
  apply leaves_other; [done|]. intros s Es%ok_or_ok.
  apply leaves_gen; [auto with gkeeps|done|]. intros i g2 Hg2.
  apply leaves_other; [done|]. intros identity Hi%ok_or_ok%list_elem_of_lookup_2.
  apply leaves_gen; [auto with gkeeps|done|]. intros ab g3 Hg3. cbn [fst snd]. destruct ab; [done|].
  apply leaves_gen; [auto with gkeeps|done|]. intros sl g4 Hg4.
  apply leaves_gen; [apply gkeeps_connection|done|]. intros m g5 Hg5.
  apply leaves_other; [done|]. intros bs _. apply leaves_other; [done|]. intros initiator _.
  destruct (write_bytes _ _ _ s) as [[r s']|[e r]] eqn:Ew; cbn [at_write map_err mbind result_bind fst snd] in *;
    [|intros _; by apply session_rng].
  apply leaves_gen; [auto with gkeeps|by apply session_rng|]. intros ab g6 Hg6. cbn [fst snd]. destruct ab; [done|].
  apply leaves_gen; [auto with gkeeps|done|]. intros sl' g7 Hg7.
  apply connected_leaves; [|done]. by eapply Hn.
Qed.

Lemma worker_turn_keeps (net : TcpSocket) identities profile g g' :
  usable_network identities net -> session_ok g ->
  worker_turn net fuel identities profile g = Ok g' -> session_ok g'.
Proof.
  intros Hn Hg E. pose proof (fuzz_leaves net identities profile g Hn Hg) as Hl. unfold worker_turn in E.
  destruct (fuzz _ _ _ _) as [g1|[e g1]]; cbn [leaves] in Hl; [by injection E as <-|].
  destruct (survivable e); [|done]. injection E as <-. auto.
Qed.

Lemma worker_turns_keep n (net : nat -> TcpSocket) identities profile : forall g g',
  (forall k, usable_network identities (net k)) -> session_ok g ->
  worker_turns n net fuel identities profile g = Ok g' -> session_ok g'.
Proof.
  induction n as [|n IH]; intros g g' Hn Hg E; [by injection E as <-|].
  cbn [worker_turns] in E. apply ok_bind in E as (g1 & E1 & E).
  eapply IH; [done| |exact E]. by eapply worker_turn_keeps.
Qed.
End Session.

(** ** Workers *)

(** (C11) However many sessions a worker has been through, and however each of them ended
    (connection refused, closed early, undecryptable messages, writes that failed
    halfway), its generator is sound for the next one as long as the peers send
    usable messages: every message it can push is still generated without a panic. *)
Theorem worker_stays_sound
  `{RandValues, IterOrder, Sodium, BytesCrate, BitVecCrate, HexCrate, UnicodeTables, BigIntCrate, NomCrate, SynCrate, BigUintCrate, BoxCrate, !HexEncode, TcpCrate, KeyExchange}
  (n fuel : nat) (net : nat -> TcpSocket) (identities : list PeerFuzz.Identity) (profile : Profile)
  (g0 g : RandomState) :
  fresh g0 -> (forall k, usable_network fuel identities (net k)) ->
  worker_turns n net fuel identities profile g0 = Ok g ->
  session_ok g /\ forall name, name ∈ message_names ->
    exists m g', gen_named name g = Ok (m, g') /\ PeerMessage.ok m /\ session_ok g'.
Proof.
  intros Hf%fresh_ok Hn E.
  pose proof (worker_turns_keep fuel n net identities profile g0 g Hn Hf E) as Hg. split; [done|].
  intros name Hname. pose proof Hg as [Hp Hs].
  destruct (gens_named _ Hp name Hname g Hs) as (m & g' & Eg & _ & Hok & _).
  exists m, g'. split; [done|]. split; [done|]. pose proof (gkeeps_named name g Hg) as Hk. by rewrite Eg in Hk.
Qed.

(** *** Peers that close *)
Section Closed.
Context `{RandValues, IterOrder, Sodium, BytesCrate, BitVecCrate, HexCrate, UnicodeTables, BigIntCrate, NomCrate, SynCrate}.
Context `{BigUintCrate, BoxCrate, !HexEncode, TcpCrate, KeyExchange}.

(** Nothing is buffered and nothing will arrive. *)
Definition closed (b : ChunkBuffer.t) (s : stream) : Prop :=
  buffer_ok b /\ contents b = [] /\ healthy s /\ pending s = [].

Lemma closed_reads_nothing fuel : forall retry b s r, closed b s -> ChunkBuffer.read_chunk fuel retry b s <> Ok r.
Proof.
  induction fuel as [|fuel IH]; intros retry b s r (Hb & Hc & Hs & Hp); [done|].
  cbn [ChunkBuffer.read_chunk]. rewrite take_chunk_none; [|done|rewrite Hc; left; by vm_compute].
  destruct (tcp_read_none (BUFFER_SIZE - ChunkBuffer.len b) s Hs (or_intror Hp)) as (s' & E & Hp' & Hs' & _).
  rewrite E. cbn [ok_or mbind result_bind fst snd].
  destruct (store_ok b [] Hb) as [Hb' Hc']; [destruct Hb as [_ Hb]; change (zlen []) with 0; lia|].
  assert (Hcl : closed (ChunkBuffer.store b []) s').
  { split; [done|]. split; [by rewrite Hc', Hc|]. split; [done|]. by rewrite Hp'. }
  destruct (_ =? 0); [destruct (2 <? retry); [done|]|]; by apply IH.
Qed.

Lemma closed_usable fuel b key n s : closed b s -> usable_peer fuel b key n s.
Proof.
  intros Hc. exists (fun b _ _ s => closed b s). split; [done|]. split.
  - intros b1 k1 n1 s1 bs s2 (Hb & Hc1 & Hs & Hp) E.
    destruct (tcp_write_ok bs s1 Hs) as (s3 & E3 & _ & Hs3 & Hp3). rewrite E in E3. injection E3 as <-.
    split; [done|]. split; [done|]. split; [done|]. by rewrite Hp3.
  - intros b1 k1 n1 s1 name pm v b2 n2 s2 Hc1 E. unfold read_msg in E. destruct fuel as [|fuel']; [done|].
    cbn [read_msg_loop] in E. apply ok_bind in E as (x & E & _). by apply closed_reads_nothing in E.
Qed.

(** A peer that sends one chunk and closes. *)
Lemma one_chunk_answer fuel identity initiator s body :
  healthy s -> pending s = be_bytes 2 (zlen body) ++ body -> zlen body + 2 <= BUFFER_SIZE ->
  (length (pending s) < fuel)%nat -> usable_answer fuel identity initiator s.
Proof.
  intros Hs Hp Hz Hf responder b s' v pk pk' nonces E _ _ _ _. apply closed_usable.
  destruct (read_chunk_gets fuel 0 ChunkBuffer.default s body [] default_ok Hs) as (b1 & s1 & E1 & Hb & Hs1 & Hc & _);
    [by rewrite Hp, app_nil_r|done|done|].
  rewrite E in E1. injection E1 as _ <- <-. apply app_eq_nil in Hc as [Hc Hp1]. done.
Qed.
End Closed.

(** The first message of a handshake. *)
Definition hello_body : bytes :=
  [0; 7] ++ repeat 1 56 ++ repeat 7 24 ++ [0; 0; 0; 13] ++ lit "TEZOS_MAINNET" ++ [0; 0; 0; 1].
Definition hello : bytes := be_bytes 2 (zlen hello_body) ++ hello_body.

#[local] Instance closing_socket : TcpSocket :=
  {| tcp_socket := unit; tcp_new_v4 := Some tt; tcp_bind _ s := Some s;
     parse_peer _ := Some (mkSocketAddr (V4 127 0 0 1) 9732); tcp_connect _ _ := Some (socket hello) |}.

Lemma closing_usable : usable_network 200 [sample_identity] closing_socket.
Proof.
  intros to sock s options initiator r r' s' identity [= <-] E _.
  apply (one_chunk_answer 200 identity initiator s' hello_body).
  - done.
  - eapply (bytes_write (fun s : @stream reference_tcp => pending s = hello)); [|exact E|done].
    intros bs s1 s2 Hs1 [= <-]. exact Hs1.
  - by vm_compute.
  - erewrite (bytes_write (fun s : @stream reference_tcp => pending s = hello)); [by apply Nat.ltb_lt| |exact E|done].
    intros bs s1 s2 Hs1 [= <-]. exact Hs1.
Qed.

Definition closing_profile : Profile := @mkProfile reference_rand [] 1 65519 1 None (Some sample_options).
Lemma worker_stays_sound_witness :
  exists g, worker_turns 2 (fun _ => closing_socket) 200 [sample_identity] closing_profile sample_state = Ok g /\
  session_ok g /\ forall name, name ∈ message_names ->
    exists m g', gen_named name g = Ok (m, g') /\ PeerMessage.ok m /\ session_ok g'.
Proof.
  eexists. split; [vm_compute; reflexivity|].
  apply (worker_stays_sound 2 200 (fun _ => closing_socket) [sample_identity] closing_profile sample_state).
  - exact sample_fresh.
  - intros _. exact closing_usable.
  - vm_compute; reflexivity.
Defined.

(** ** The identities of the tool *)
Section Credentials.
Context `{Sodium, !HexCrate, !HexEncode, !Base58Crate}.

(** The fields of [as_json]. *)
Definition credentials (i : Identity.t) : option Credentials :=
  peer ← to_base58_check CryptoboxPublicKeyHash (Identity.peer_id i);
  Some (mkCredentials peer (hex_encode (Identity.public_key i)) (hex_encode (Identity.secret_key i))
          (hex_encode (Identity.proof_of_work_stamp i))).

Definition session_identity (i : Identity.t) : PeerFuzz.Identity :=
  mkIdentity (Identity.public_key i) (Identity.secret_key i) (Identity.proof_of_work_stamp i).

Lemma identity_loads i : sized i -> exists c, credentials i = Some c /\ identity_of c = Ok (session_identity i).
Proof.
  intros (Hp & [Hk Hkb] & [Hs Hsb] & Hw & Hwb). unfold credentials, to_base58_check.
  destruct (b58check_to_hash_of CryptoboxPublicKeyHash CryptoboxPublicKeyHash (Identity.peer_id i))
    as (peer & -> & Epeer); [done..|].
  eexists. split; [reflexivity|]. unfold identity_of. cbn [cr_peer_id cr_public_key cr_secret_key cr_proof_of_work_stamp].
  rewrite Epeer, !key_from_hex_encode, stamp_from_hex_encode by done. done.
Qed.

(** What the identity tool stores is what the workers start with, and each first
    message they send from it can be read ([first_message_readable]). *)
Lemma identities_load l : Forall sized l ->
  exists cs, mapM credentials l = Some cs /\ identities_of cs = Ok (map session_identity l) /\
    Forall (fun i => key_ok 32 (PeerFuzz.public_key i) /\ key_ok 24 (PeerFuzz.proof_of_work_stamp i))
      (map session_identity l).
Proof.
  induction 1 as [|i l Hi Hl (cs & Em & El & Hf)]; [by exists []|].
  destruct (identity_loads i Hi) as (c & Ec & Ei). exists (c :: cs). cbn [mapM identities_of map].
  rewrite Ec, Em, Ei, El. split; [done|]. split; [done|]. constructor; [|done].
  destruct Hi as (_ & [Hk Hkb] & _ & Hw & Hwb). done.
Qed.
End Credentials.
