(* ===== verification/BuildScript.v ===== *)
(** * The build script of [tezos-sys] ([tezos/sys/build.rs])

    Before the crates that call OCaml are linked, the script puts [libtezos] and the
    two parameter files of Sapling into [OUT_DIR]: copied from a local build of
    Tezos, or downloaded and compared with the SHA-256 that is published next to
    them.  The world is the files by path; the commands it starts ([curl], [gunzip],
    [cp]) and the crates ([os_type], [serde_json], [sha2], [fs_extra]) are classes
    with what their documentation says.  A panic is [None].  [println!] is left out. *)

From Stdlib Require Import ZArith Lia List Bool String Ascii.
From stdpp Require Import base option list numbers strings gmap.
From S2P Require Import Prelude Extern BitUtils CryptoHash Types Serializer BinaryWriter NomReader ExternRef PublicKeys Generator ApiTypes Environment.

Set Warnings "-register-all".
Local Open Scope string_scope.

(** ** The world *)

(** Files by path, the directories, and the paths the process may not change. *)
Record World : Type := mkWorld {
  w_files : gmap string bytes;
  w_dirs : gset string;
  w_denied : gset string;
}.

Definition with_files (f : gmap string bytes -> gmap string bytes) (w : World) : World :=
  mkWorld (f (w_files w)) (w_dirs w) (w_denied w).

(** [Path::exists], [fs::read] and [File::open], [fs::remove_dir_all],
    [fs::create_dir_all]. *)
Definition path_exists (p : string) (w : World) : bool :=
  bool_decide (is_Some (w_files w !! p)) || bool_decide (p ∈ w_dirs w).
Definition read_file (p : string) (w : World) : option bytes := w_files w !! p.
(** Whether a file is below a directory. *)
Definition below (d p : string) : bool := String.prefix (d ++ "/") p.
Definition remove_dir_all (d : string) (w : World) : option World :=
  if bool_decide (d ∈ w_denied w) then None
  else Some (mkWorld (filter (fun x => below d x.1 = false) (w_files w))
               (filter (fun x => x <> d /\ below d x = false) (w_dirs w)) (w_denied w)).
Definition create_dir_all (d : string) (w : World) : option World :=
  if bool_decide (d ∈ w_denied w) then None
  else Some (mkWorld (w_files w) ({[d]} ∪ w_dirs w) (w_denied w)).

(** [Path::file_name]; the files directly in a directory ([fs::read_dir] and
    [is_file]). *)
Definition base_name (p : string) : string := List.last (split_on "/" p) "".
Definition directly_in (d p : string) : bool := String.eqb p (d ++ "/" ++ base_name p).
Definition dir_files (d : string) (w : World) : option (list string) :=
  if bool_decide (d ∈ w_dirs w)
  then Some (filter (fun p => directly_in d p = true) (map fst (map_to_list (w_files w))))
  else None.

(** ** Third-party code *)

(** Commands: [None] when the command cannot be started; its exit status is never
    looked at.  [curl] writes to the file it is told to, [cp] to its destination,
    [gunzip] replaces a file by the one without its suffix. *)
Class Commands : Type := {
  curl_to : string -> string -> World -> option World;
  curl_stdout : string -> World -> option bytes;
  gunzip : string -> World -> option World;
  cp_f : string -> string -> World -> option World;
  curl_to_other url p w w' q : curl_to url p w = Some w' -> q <> p -> w_files w' !! q = w_files w !! q;
  gunzip_other p w w' q : gunzip (p ++ ".gz") w = Some w' -> q <> p -> q <> p ++ ".gz" ->
    w_files w' !! q = w_files w !! q;
  cp_f_other a b w w' q : cp_f a b w = Some w' -> q <> b -> w_files w' !! q = w_files w !! q;
}.

(** [os_type::current_platform]: the system and the characters of its version. *)
Inductive OSType : Type := OSX | Ubuntu | Debian | OpenSUSE | CentOS | OtherOS.
Record Platform : Type := mkPlatform { os_type : OSType; version : list Z }.

Record Artifact : Type := mkArtifact { name : string; url : string }.

Class BuildCrates : Type := {
  current_platform : Platform;
  artifacts_from_str : bytes -> option (list Artifact);
  sha2_256 : bytes -> bytes;
  (** [char::is_numeric] *)
  is_numeric : Z -> bool;
  (** [copy_items] copies each file under its name and gives the bytes copied. *)
  copy_items : list string -> string -> World -> option (Z * World);
  copy_items_copied items out w n w' p c : copy_items items out w = Some (n, w') ->
    p ∈ items -> (forall p', p' ∈ items -> base_name p' = base_name p -> p' = p) ->
    w_files w !! p = Some c -> w_files w' !! path_join out (base_name p) = Some c;
}.

(** ** Constants and data *)
Definition GIT_RELEASE_DISTRIBUTIONS_FILE : string := "lib_tezos/libtezos-ffi-distribution-summary.json".
Definition LIBTEZOS_BUILD_NAME : string := "libtezos-ffi.so".
Definition ARTIFACTS_DIR : string := "lib_tezos/artifacts".
Definition ZCASH_PARAM_SAPLING_SPEND_FILE_NAME : string := "sapling-spend.params".
Definition ZCASH_PARAM_SAPLING_OUTPUT_FILE_NAME : string := "sapling-output.params".
Definition ZCASH_PARAM_SAPLING_FILES_TEZOS_PATH : string := "_opam/share/zcash-params".

Record RemoteFile : Type := mkRemoteFile { file_url : string; sha256_checksum_url : string }.
Inductive BuildChain : Type := Remote | Local (tezos_base_dir : string).

(** ** Which library *)
Section Build.
Context `{Commands, BuildCrates, HexCrate}.

Definition find_artifact (n : string) (artifacts : list Artifact) : option Artifact :=
  List.find (fun a => String.eqb (name a) n) artifacts.

(** [None] inside: no such artifact; [None] outside: the panic where an artifact has
    no checksum. *)
Definition get_remote_file (artifact_name : string) (artifacts : list Artifact) : option (option RemoteFile) :=
  match find_artifact artifact_name artifacts with
  | None => Some None
  | Some artifact =>
      artifact_sha256 ← find_artifact (artifact_name ++ ".sha256") artifacts;
      Some (Some (mkRemoteFile (url artifact) (url artifact_sha256)))
  end.

(** Versions are compared as characters; [str::len] counts bytes. *)
Definition is_version (v : list Z) (l : list string) : bool :=
  existsb (fun s => bool_decide (v = lit s)) l.
Definition version_starts (v : list Z) (s : string) : bool :=
  bool_decide (take (String.length s) v = lit s).
Definition version_len (v : list Z) : Z := zlen (concat (map utf8_char v)).

(** [None] outside is the panic of [chars().next().unwrap()]. *)
Definition artifact_for_platform (platform : Platform) : option (option string) :=
  let v := version platform in
  match os_type platform with
  | OSX => Some (Some "libtezos-ffi-macos.dylib.gz")
  | Ubuntu => Some (
      if is_version v ["16.04"] then Some "libtezos-ffi-ubuntu16.so.gz"
      else if is_version v ["18.04"; "18.10"] then Some "libtezos-ffi-ubuntu18.so.gz"
      else if is_version v ["19.04"; "19.10"] then Some "libtezos-ffi-ubuntu19.so.gz"
      else if is_version v ["20.04"; "20.10"] then Some "libtezos-ffi-ubuntu20.so.gz"
      else if is_version v ["21.04"; "21.10"] then Some "libtezos-ffi-ubuntu21.so.gz"
      else None)
  | Debian => Some (
      if is_version v ["9"] then Some "libtezos-ffi-debian9.so.gz"
      else if version_starts v "9." then Some "libtezos-ffi-debian9.so.gz"
      else if is_version v ["10"] then Some "libtezos-ffi-debian10.so.gz"
      else if version_starts v "10." then Some "libtezos-ffi-debian10.so.gz"
      else None)
  | OpenSUSE => Some (
      if is_version v ["15.1"; "15.2"] then Some "libtezos-ffi-opensuse15.1.so.gz"
      else if (version_len v =? 8)%Z && forallb is_numeric v then Some "libtezos-ffi-opensuse_tumbleweed.so.gz"
      else None)
  | CentOS =>
      c ← head v;
      Some (if (c =? 54)%Z then None
            else if (c =? 55)%Z then Some "libtezos-ffi-centos7.so.gz"
            else if (c =? 56)%Z then Some "libtezos-ffi-centos8.so.gz"
            else None)
  | OtherOS => Some None
  end.

Definition get_remote_lib (artifacts : list Artifact) : option RemoteFile :=
  artifact ← artifact_for_platform current_platform;
  artifact ← artifact;
  remote ← get_remote_file artifact artifacts;
  remote.

(** ** Downloads *)

(** The checksum is read as text and decoded as it is; the file is hashed from disk. *)
Definition download_remote_file_and_check_sha256 (remote_file : RemoteFile) (dest_path : string) (w : World)
  : option World :=
  w ← curl_to (file_url remote_file) dest_path w;
  stdout ← curl_stdout (sha256_checksum_url remote_file) w;
  text ← (if utf8_valid stdout then Some stdout else None);
  match hex_decode text with
  | Err _ => None
  | Ok remote_file_sha256 =>
      file ← read_file dest_path w;
      if bool_decide (sha2_256 file = remote_file_sha256) then Some w else None
  end.

Definition download_remote_file_and_check_sha256_and_uncompress (remote_file : RemoteFile) (dest_path : string)
  (w : World) : option World :=
  w ← download_remote_file_and_check_sha256 remote_file (dest_path ++ ".gz") w;
  gunzip (dest_path ++ ".gz") w.

Definition libtezos_filename : string :=
  match os_type current_platform with OSX => "libtezos.dylib" | _ => "libtezos.so" end.

Definition current_release_distributions_artifacts (w : World) : option (list Artifact) :=
  output ← read_file GIT_RELEASE_DISTRIBUTIONS_FILE w;
  artifacts_from_str output.

(** ** [run_builder] *)
Definition libtezos_ffi_dst_path : string := path_join ARTIFACTS_DIR libtezos_filename.
Definition zcash_params_spend_dest_path : string := path_join ARTIFACTS_DIR ZCASH_PARAM_SAPLING_SPEND_FILE_NAME.
Definition zcash_params_output_dest_path : string := path_join ARTIFACTS_DIR ZCASH_PARAM_SAPLING_OUTPUT_FILE_NAME.

Definition run_local (tezos_base_dir : string) (w : World) : option World :=
  let libtezos_ffi_src_path := path_join tezos_base_dir LIBTEZOS_BUILD_NAME in
  let zcash := path_join tezos_base_dir ZCASH_PARAM_SAPLING_FILES_TEZOS_PATH in
  let zcash_params_spend_src_path := path_join zcash ZCASH_PARAM_SAPLING_SPEND_FILE_NAME in
  let zcash_params_output_src_path := path_join zcash ZCASH_PARAM_SAPLING_OUTPUT_FILE_NAME in
  if negb (path_exists tezos_base_dir w) then None
  else if negb (path_exists libtezos_ffi_src_path w) then None
  else if negb (path_exists zcash_params_spend_src_path w) then None
  else if negb (path_exists zcash_params_output_src_path w) then None
  else
    w ← cp_f libtezos_ffi_src_path libtezos_ffi_dst_path w;
    w ← cp_f zcash_params_spend_src_path zcash_params_spend_dest_path w;
    cp_f zcash_params_output_src_path zcash_params_output_dest_path w.

Definition download_params (file : string) (artifacts : list Artifact) (w : World) : option World :=
  remote ← get_remote_file file artifacts;
  remote ← remote;
  download_remote_file_and_check_sha256 remote (path_join ARTIFACTS_DIR file) w.

Definition run_remote (w : World) : option World :=
  artifacts ← current_release_distributions_artifacts w;
  lib ← get_remote_lib artifacts;
  w ← download_remote_file_and_check_sha256_and_uncompress lib libtezos_ffi_dst_path w;
  w ← download_params ZCASH_PARAM_SAPLING_SPEND_FILE_NAME artifacts w;
  download_params ZCASH_PARAM_SAPLING_OUTPUT_FILE_NAME artifacts w.

Definition run_builder (build_chain : BuildChain) (w : World) : option World :=
  match build_chain with
  | Local tezos_base_dir => run_local tezos_base_dir w
  | Remote => run_remote w
  end.

(** ** [main] *)
Definition build_chain (env : string -> option string) : BuildChain :=
  let tezos_base_dir := default "" (env "TEZOS_BASE_DIR") in
  if String.eqb tezos_base_dir "" then Remote else Local tezos_base_dir.

Definition main (env : string -> option string) (w : World) : option World :=
  w ← (if path_exists ARTIFACTS_DIR w then remove_dir_all ARTIFACTS_DIR w else Some w);
  w ← create_dir_all ARTIFACTS_DIR w;
  w ← run_builder (build_chain env) w;
  out_dir ← env "OUT_DIR";
  artifacts_dir_items ← dir_files ARTIFACTS_DIR w;
  nw ← copy_items artifacts_dir_items out_dir w;
  if (nw.1 =? 0)%Z then None else Some nw.2.

(** ** What is verified *)

(** A file whose content has the SHA-256 that was published. *)
Definition verified (file : string) (artifacts : list Artifact) (content : bytes) : Prop :=
  exists checksum w stdout, find_artifact (file ++ ".sha256") artifacts = Some checksum /\
    curl_stdout (url checksum) w = Some stdout /\ hex_decode stdout = Ok (sha2_256 content).

Lemma download_checked r p w w' : download_remote_file_and_check_sha256 r p w = Some w' ->
  (exists w1 stdout content, curl_stdout (sha256_checksum_url r) w1 = Some stdout /\
     hex_decode stdout = Ok (sha2_256 content) /\ w_files w' !! p = Some content) /\
  (forall q, q <> p -> w_files w' !! q = w_files w !! q).
Proof.
  unfold download_remote_file_and_check_sha256. intros E. simplify_option_eq.
  destruct (hex_decode _) as [h|] eqn:Eh; [|done]. simplify_option_eq. split.
  - match goal with E : (if utf8_valid _ then _ else None) = Some _ |- _ => destruct (utf8_valid _); [|done]; injection E as <- end.
    do 3 eexists. eauto.
  - intros q Hq. by eapply curl_to_other.
Qed.

Lemma params_checked file artifacts w w' : download_params file artifacts w = Some w' ->
  (exists content, verified file artifacts content /\ w_files w' !! path_join ARTIFACTS_DIR file = Some content) /\
  (forall q, q <> path_join ARTIFACTS_DIR file -> w_files w' !! q = w_files w !! q).
Proof.
  unfold download_params, get_remote_file. intros E.
  destruct (find_artifact file artifacts) as [a|]; [|done]. simplify_option_eq.
  destruct (download_checked _ _ _ _ E) as [(w1 & stdout & content & E1 & E2 & E3) Ho].
  split; [|done]. exists content. split; [|done]. eexists _, w1, stdout. eauto.
Qed.

Lemma lib_untouched r w w' q : download_remote_file_and_check_sha256_and_uncompress r libtezos_ffi_dst_path w = Some w' ->
  q <> libtezos_ffi_dst_path -> q <> libtezos_ffi_dst_path ++ ".gz" -> w_files w' !! q = w_files w !! q.
Proof.
  unfold download_remote_file_and_check_sha256_and_uncompress. intros E Hq Hg. simplify_option_eq.
  erewrite gunzip_other by eauto. by eapply download_checked.
Qed.

(** The parameter files after a remote build. *)
Lemma remote_checked w w' file : run_remote w = Some w' ->
  file ∈ [ZCASH_PARAM_SAPLING_SPEND_FILE_NAME; ZCASH_PARAM_SAPLING_OUTPUT_FILE_NAME] ->
  exists summary artifacts content, w_files w !! GIT_RELEASE_DISTRIBUTIONS_FILE = Some summary /\
    artifacts_from_str summary = Some artifacts /\ verified file artifacts content /\
    w_files w' !! path_join ARTIFACTS_DIR file = Some content.
Proof.
  unfold run_remote, current_release_distributions_artifacts, read_file. intros E Hf. simplify_option_eq.
  do 2 eexists. match goal with Hs : download_params _ _ _ = Some ?x, Ho : download_params _ _ ?x = Some _ |- _ =>
    destruct (params_checked _ _ _ _ Hs) as [(c1 & V1 & F1) _];
    destruct (params_checked _ _ _ _ Ho) as [(c2 & V2 & F2) Hother] end.
  apply elem_of_cons in Hf as [->|Hf]; [|apply list_elem_of_singleton in Hf as ->].
  - exists c1. split; [done|]. split; [done|]. split; [done|]. by rewrite Hother.
  - by exists c2.
Qed.

(** Files of one directory have different names. *)
Lemma dir_files_names d w l p p' : dir_files d w = Some l -> p ∈ l -> p' ∈ l ->
  base_name p' = base_name p -> p' = p.
Proof.
  unfold dir_files. destruct (bool_decide _); [|done]. intros [= <-]. rewrite !list_elem_of_filter.
  unfold directly_in. rewrite !String.eqb_eq. intros [Hp _] [Hp' _] Hb. by rewrite Hp, Hp', Hb.
Qed.

Lemma dir_files_in d w l p c : dir_files d w = Some l -> w_files w !! p = Some c -> directly_in d p = true -> p ∈ l.
Proof.
  unfold dir_files. destruct (bool_decide _); [|done]. intros [= <-] Hp Hd. apply list_elem_of_filter.
  split; [done|]. apply list_elem_of_fmap. exists (p, c). split; [done|]. by apply elem_of_map_to_list.
Qed.
End Build.

(** (C27) After a remote build, the parameter files of Sapling in [OUT_DIR] have the
    SHA-256 that was downloaded from where the distribution summary says: whatever
    [curl] wrote, and although no exit status is looked at. *)
Theorem params_verified `{Commands, BuildCrates, HexCrate} (env : string -> option string) (w w' : World)
  (out file : string) :
  build_chain env = Remote -> env "OUT_DIR" = Some out -> main env w = Some w' ->
  file ∈ [ZCASH_PARAM_SAPLING_SPEND_FILE_NAME; ZCASH_PARAM_SAPLING_OUTPUT_FILE_NAME] ->
  exists summary artifacts content, w_files w !! GIT_RELEASE_DISTRIBUTIONS_FILE = Some summary /\
    artifacts_from_str summary = Some artifacts /\ verified file artifacts content /\
    w_files w' !! path_join out file = Some content.
Proof.
  intros Hr Ho E Hf. unfold main in E. rewrite Hr, Ho in E.
  destruct (if path_exists ARTIFACTS_DIR w then _ else _) as [w1|] eqn:E1; [|done]. cbn [mbind option_bind] in E.
  assert (H1s : forall c, w_files w1 !! GIT_RELEASE_DISTRIBUTIONS_FILE = Some c ->
    w_files w !! GIT_RELEASE_DISTRIBUTIONS_FILE = Some c).
  { intros c. destruct (path_exists ARTIFACTS_DIR w); [|by simplify_eq]. unfold remove_dir_all in E1.
    destruct (bool_decide _); [done|]. injection E1 as <-. cbn [w_files]. rewrite map_lookup_filter_Some. by intros []. }
  destruct (create_dir_all ARTIFACTS_DIR w1) as [w2|] eqn:E2; [|done]. cbn [mbind option_bind run_builder] in E.
  unfold create_dir_all in E2. destruct (bool_decide _); [done|]. injection E2 as <-.
  destruct (run_remote _) as [w3|] eqn:E3; [|done]. cbn [mbind option_bind] in E.
  destruct (dir_files _ w3) as [l|] eqn:E4; [|done]. cbn [mbind option_bind] in E.
  destruct (copy_items _ _ _) as [[n w4]|] eqn:E5; [|done]. cbn [mbind option_bind fst snd] in E.
  destruct (n =? 0)%Z; [done|]. injection E as <-.
  destruct (remote_checked _ _ _ E3 Hf) as (summary & artifacts & content & Hs & Ha & Hv & Hc).
  exists summary, artifacts, content. split; [by apply H1s|]. split; [done|]. split; [done|].
  assert (Hb : base_name (path_join ARTIFACTS_DIR file) = file /\
    directly_in ARTIFACTS_DIR (path_join ARTIFACTS_DIR file) = true).
  { apply elem_of_cons in Hf as [->|Hf]; [by vm_compute|]. apply list_elem_of_singleton in Hf as ->. by vm_compute. }
  destruct Hb as [Hb Hd]. rewrite <- Hb at 1. eapply copy_items_copied; [exact E5| | |exact Hc].
  - by eapply dir_files_in.
  - intros p' Hp'. eapply dir_files_names; [exact E4| |done]. by eapply dir_files_in.
Qed.

(** ** The platforms *)

(** The names of the artifacts in the distribution summary of the repository. *)
Definition shipped_names : list string :=
  ["libtezos-ffi-centos8.so.gz"; "libtezos-ffi-centos8.so.gz.sha256"; "libtezos-ffi-debian10.so.gz";
   "libtezos-ffi-debian10.so.gz.sha256"; "libtezos-ffi-debian9.so.gz"; "libtezos-ffi-debian9.so.gz.sha256";
   "libtezos-ffi-headers.tar.gz"; "libtezos-ffi-headers.tar.gz.sha256"; "libtezos-ffi-macos.dylib.gz";
   "libtezos-ffi-macos.dylib.gz.sha256"; "libtezos-ffi-opensuse15.1.so.gz";
   "libtezos-ffi-opensuse15.1.so.gz.sha256"; "libtezos-ffi-ubuntu16.so.gz";
   "libtezos-ffi-ubuntu16.so.gz.sha256"; "libtezos-ffi-ubuntu18.so.gz"; "libtezos-ffi-ubuntu18.so.gz.sha256";
   "libtezos-ffi-ubuntu19.so.gz"; "libtezos-ffi-ubuntu19.so.gz.sha256"; "libtezos-ffi-ubuntu20.so.gz";
   "libtezos-ffi-ubuntu20.so.gz.sha256"; "sapling-output.params"; "sapling-output.params.sha256";
   "sapling-spend.params"; "sapling-spend.params.sha256"; "tezos-admin-client-centos8.gz";
   "tezos-admin-client-centos8.gz.sha256"; "tezos-admin-client-debian10.gz";
   "tezos-admin-client-debian10.gz.sha256"; "tezos-admin-client-debian9.gz";
   "tezos-admin-client-debian9.gz.sha256"; "tezos-admin-client-macos.gz";
   "tezos-admin-client-macos.gz.sha256"; "tezos-admin-client-opensuse15.1.gz";
   "tezos-admin-client-opensuse15.1.gz.sha256"; "tezos-admin-client-ubuntu16.gz.sha256";
   "tezos-admin-client-ubuntu18.gz"; "tezos-admin-client-ubuntu18.gz.sha256";
   "tezos-admin-client-ubuntu19.gz"; "tezos-admin-client-ubuntu19.gz.sha256";
   "tezos-admin-client-ubuntu20.gz"; "tezos-admin-client-ubuntu20.gz.sha256"; "tezos-client-centos8.gz";
   "tezos-client-centos8.gz.sha256"; "tezos-client-debian10.gz"; "tezos-client-debian10.gz.sha256";
   "tezos-client-debian9.gz"; "tezos-client-debian9.gz.sha256"; "tezos-client-macos.gz";
   "tezos-client-macos.gz.sha256"; "tezos-client-opensuse15.1.gz"; "tezos-client-opensuse15.1.gz.sha256";
   "tezos-client-ubuntu16.gz"; "tezos-client-ubuntu16.gz.sha256"; "tezos-client-ubuntu18.gz";
   "tezos-client-ubuntu18.gz.sha256"; "tezos-client-ubuntu19.gz"; "tezos-client-ubuntu19.gz.sha256";
   "tezos-client-ubuntu20.gz"; "tezos-client-ubuntu20.gz.sha256"].

Definition unshipped : list string :=
  ["libtezos-ffi-ubuntu21.so.gz"; "libtezos-ffi-opensuse_tumbleweed.so.gz"; "libtezos-ffi-centos7.so.gz"].

Lemma find_artifact_names n artifacts : is_Some (find_artifact n artifacts) <-> n ∈ map name artifacts.
Proof.
  induction artifacts as [|a l IH]; cbn [find_artifact List.find map].
  - split; [by intros []|by intros ?%not_elem_of_nil].
  - rewrite elem_of_cons. destruct (String.eqb_spec (name a) n) as [<-|Hne]; [split; [by left|by eexists]|].
    fold (find_artifact n l). rewrite IH. naive_solver.
Qed.

Definition known_libraries : list string :=
  ["libtezos-ffi-macos.dylib.gz"; "libtezos-ffi-ubuntu16.so.gz"; "libtezos-ffi-ubuntu18.so.gz";
   "libtezos-ffi-ubuntu19.so.gz"; "libtezos-ffi-ubuntu20.so.gz"; "libtezos-ffi-debian9.so.gz";
   "libtezos-ffi-debian10.so.gz"; "libtezos-ffi-opensuse15.1.so.gz"; "libtezos-ffi-centos8.so.gz"] ++ unshipped.

Lemma library_known `{BuildCrates} platform a :
  artifact_for_platform platform = Some (Some a) -> a ∈ known_libraries.
Proof.
  unfold artifact_for_platform. intros E. apply (bool_decide_unpack _).
  destruct (os_type platform); [..|done]; try destruct (head (version platform)) as [c|]; cbn [mbind option_bind] in E;
    repeat match type of E with context [if ?b then _ else _] => destruct b end; try done;
    injection E as <-; by vm_compute.
Qed.

(** With the artifacts of the repository, a platform that the script knows a library
    for has one to download unless it is Ubuntu 21, openSUSE Tumbleweed or CentOS 7,
    where the build panics. *)
Lemma library_available `{BuildCrates} (artifacts : list Artifact) (a : string) :
  map name artifacts = shipped_names -> artifact_for_platform current_platform = Some (Some a) ->
  (is_Some (get_remote_lib artifacts) <-> a ∉ unshipped).
Proof.
  intros Hn Ha. unfold get_remote_lib. rewrite Ha. cbn [mbind option_bind].
  assert (Hin : a ∉ unshipped <-> a ∈ shipped_names /\ a ++ ".sha256" ∈ shipped_names).
  { pose proof (library_known _ _ Ha) as Hk. clear Ha. revert a Hk. apply Forall_forall.
    apply (bool_decide_unpack _). by vm_compute. }
  rewrite Hin, <- Hn, <- !find_artifact_names. unfold get_remote_file.
  destruct (find_artifact a artifacts) as [x|]; cbn.
  - destruct (find_artifact _ artifacts) as [y|]; cbn; naive_solver.
  - naive_solver.
Qed.

(** ** Reference implementations *)

(** [curl] writes the address itself; [gunzip] fails and leaves everything as it is. *)
#[local] Instance failing_gunzip : Commands.
Proof.
  refine {| curl_to u p w := Some (with_files (insert p (lit u)) w); curl_stdout _ _ := Some (repeat 48 64);
            gunzip _ w := Some w;
            cp_f a b w := Some (match w_files w !! a with Some c => with_files (insert b c) w | None => w end) |}.
  - intros u p w w' q [= <-] Hq. cbn. by rewrite lookup_insert_ne.
  - by intros p w w' q [= <-].
  - intros a b w w' q [= <-] Hq. destruct (w_files w !! a); [|done]. cbn. by rewrite lookup_insert_ne.
Defined.

(** Copies one after another, where no two have the same destination. *)
Definition copied (out : string) (m : gmap string bytes) (items : list string) : gmap string bytes :=
  foldr (fun p acc => match m !! p with Some c => <[path_join out (base_name p) := c]> acc | None => acc end) m items.

Lemma copied_lookup out m items p c : NoDup (map (fun p => path_join out (base_name p)) items) ->
  p ∈ items -> m !! p = Some c -> copied out m items !! path_join out (base_name p) = Some c.
Proof.
  induction items as [|p0 items IH]; intros Hn Hp Hc; [by apply not_elem_of_nil in Hp|].
  cbn [map] in Hn. apply NoDup_cons in Hn as [Hn0 Hn]. cbn [copied foldr]. fold (copied out m items).
  apply elem_of_cons in Hp as [<-|Hp]; [rewrite Hc; by rewrite lookup_insert_eq|].
  destruct (m !! p0) as [c0|]; [|by apply IH]. rewrite lookup_insert_ne; [by apply IH|].
  intros Heq. apply Hn0. rewrite Heq. apply list_elem_of_fmap. by exists p.
Qed.

Definition summary_artifacts : list Artifact :=
  [mkArtifact "libtezos-ffi-ubuntu20.so.gz" "lib"; mkArtifact "libtezos-ffi-ubuntu20.so.gz.sha256" "lib.sha256";
   mkArtifact "sapling-spend.params" "spend"; mkArtifact "sapling-spend.params.sha256" "spend.sha256";
   mkArtifact "sapling-output.params" "output"; mkArtifact "sapling-output.params.sha256" "output.sha256"].

#[local] Instance reference_build (platform : Platform) : BuildCrates.
Proof.
  refine {| current_platform := platform; artifacts_from_str _ := Some summary_artifacts;
            sha2_256 _ := repeat 0%Z 32; is_numeric c := (48 <=? c)%Z && (c <=? 57)%Z;
            copy_items items out w :=
              if decide (NoDup (map (fun p => path_join out (base_name p)) items))
              then Some (zlen items, with_files (fun m => copied out m items) w) else None |}.
  intros items out w n w' p c E Hp _ Hc. destruct (decide _) as [Hn|]; [|done]. injection E as _ <-.
  by apply copied_lookup.
Defined.

Definition ubuntu : Platform := mkPlatform Ubuntu (lit "20.04").
Definition build_env (v : string) : option string := if String.eqb v "OUT_DIR" then Some "out" else None.
Definition build_world : World :=
  mkWorld {[ GIT_RELEASE_DISTRIBUTIONS_FILE := []; "lib_tezos/artifacts/old" := [1%Z] ]} {[ ARTIFACTS_DIR ]} ∅.

Lemma params_verified_witness :
  exists w', @main _ (reference_build ubuntu) _ build_env build_world = Some w' /\
    exists summary artifacts content, w_files build_world !! GIT_RELEASE_DISTRIBUTIONS_FILE = Some summary /\
      @artifacts_from_str (reference_build ubuntu) summary = Some artifacts /\
      @verified _ (reference_build ubuntu) _ ZCASH_PARAM_SAPLING_SPEND_FILE_NAME artifacts content /\
      w_files w' !! path_join "out" ZCASH_PARAM_SAPLING_SPEND_FILE_NAME = Some content.
Proof.
  eexists. split; [vm_compute; reflexivity|].
  apply (@params_verified _ (reference_build ubuntu) _ build_env build_world _ "out").
  - reflexivity.
  - reflexivity.
  - vm_compute; reflexivity.
  - left.
Defined.

(** The exit status of [gunzip] is not looked at: where it fails, the build succeeds
    without the library. *)
Lemma gunzip_failure_unnoticed :
  exists w', @main _ (reference_build ubuntu) _ build_env build_world = Some w' /\
    w_files w' !! path_join "out" (@libtezos_filename (reference_build ubuntu)) = None.
Proof. eexists. split; vm_compute; reflexivity. Qed.
