(* ===== verification/Codec.v ===== *)
(** * Keys and values of a store ([tezos/new_context/src/persistent/codec.rs], [mod.rs])

    A schema is a type of keys and a type of values with a [Codec] each: hashes and
    strings are their bytes, numbers are big-endian at their width, and anything else
    goes through bincode, which is a class.  The class [CodecLaws] is what a store
    relies on; every codec has an instance of it. *)

From Stdlib Require Import ZArith Lia List Bool String.
From stdpp Require Import base option list numbers gmap.
From S2P Require Import Prelude CryptoHash NomReader ContextStore.

Local Open Scope Z_scope.

Module Schema.
Inductive SchemaError : Type :=
| EncodeError
| DecodeError
| DecodeValidationError (s : string).

Definition from_bytes_error (_ : FromBytesError) : SchemaError := DecodeError.

(** [Encoder] and [Decoder]. *)
Class Codec (A : Type) : Type := {
  encode : A -> result SchemaError bytes;
  decode : bytes -> result SchemaError A;
}.

(** ** The codecs *)

(** [Hash] is a [Vec<u8>]. *)
Definition Hash : Type := bytes.
#[export] Instance hash_codec : Codec Hash := {| encode := Ok; decode := Ok |}.

(** [hash_codec!]: a typed hash is its bytes. *)
Definition typed_hash (t : HashType) : Type := bytes.
#[export] Instance typed_hash_codec t : Codec (typed_hash t) := {|
  encode h := Ok h;
  decode bs := map_err (fun _ => DecodeError) (hash_from_bytes t bs);
|}.

(** A [String] is its bytes in UTF-8. *)
Record utf8_string : Type := mkUtf8 { utf8_bytes : bytes }.
#[export] Instance string_codec : Codec utf8_string := {|
  encode s := Ok (utf8_bytes s);
  decode bs := ok_or (mkUtf8 <$> from_utf8 bs) DecodeError;
|}.

(** [num_codec!]. *)
Inductive NumType : Type := u8 | i16 | u16 | i64 | u64 | i32 | u32 | usize.

Definition size_of (t : NumType) : nat :=
  match t with u8 => 1 | i16 | u16 => 2 | i32 | u32 => 4 | i64 | u64 | usize => 8 end.
Definition is_signed (t : NumType) : bool :=
  match t with i16 | i64 | i32 => true | _ => false end.

Definition num (t : NumType) : Type := Z.
Definition width (t : NumType) : Z := 8 * Z.of_nat (size_of t).
Definition in_num (t : NumType) (z : Z) : Prop := if is_signed t then in_s (width t) z else in_u (width t) z.

(** [to_be_bytes] and [from_be_bytes]. *)
Definition to_be_bytes (t : NumType) (z : Z) : bytes := be_bytes (size_of t) z.
Definition from_be_bytes (t : NumType) (bs : bytes) : Z :=
  if is_signed t then swrap (width t) (be_val bs) else be_val bs.

#[export] Instance num_codec t : Codec (num t) := {|
  encode z := Ok (to_be_bytes t z);
  decode bs := if zlen bs =? Z.of_nat (size_of t) then Ok (from_be_bytes t bs) else Err DecodeError;
|}.

(** [num_from_slice!]; [None] is the panic of a slice out of range. *)
Definition num_from_slice (buf : bytes) (from_idx : Z) (t : NumType) : option Z :=
  if from_idx + Z.of_nat (size_of t) <=? zlen buf
  then Some (from_be_bytes t (take (size_of t) (drop (Z.to_nat from_idx) buf)))
  else None.

(** [BincodeEncoded], with [bincode] at the type.  Its instances in the source are
    maps and the unit type; serializing can fail. *)
Class BincodeEncoded (A : Type) : Type := {
  serialize : A -> option bytes;
  deserialize : bytes -> option A;
  deserialize_serialize a bs : serialize a = Some bs -> deserialize bs = Some a;
}.
#[export] Instance bincode_codec `{BincodeEncoded A} : Codec A := {|
  encode a := ok_or (serialize a) EncodeError;
  decode bs := ok_or (deserialize bs) DecodeError;
|}.

(** ** [persistent/mod.rs] *)
Class KeyValueSchema (Key Value : Type) : Type := {
  key_codec :: Codec Key;
  value_codec :: Codec Value;
}.

Inductive StorageError : Type :=
| DBFailure (error : DBError)
| HashFailure (error : FromBytesError)
| HashDecodeFailure (error : FromBase58CheckError).
Definition storage_of_schema (_ : SchemaError) : StorageError := DBFailure ContextStore.SchemaError.

(** ** What a store relies on

    [valid] are the values of the Rust type. *)
Class CodecLaws (A : Type) `{Codec A} (valid : A -> Prop) : Prop := {
  decode_encode a bs : valid a -> encode a = Ok bs -> decode bs = Ok a;
  decode_valid bs a : are_bytes bs -> decode bs = Ok a -> valid a;
}.

(** Codecs that accept only what they write and never fail to write. *)
Class Canonical (A : Type) `{Codec A} (valid : A -> Prop) : Prop := {
  canonical_laws :: CodecLaws A valid;
  encode_decode bs a : are_bytes bs -> decode bs = Ok a -> encode a = Ok bs;
  encode_total a : is_ok (encode a) = true;
}.

Lemma width_pos t : 0 < width t.
Proof. by destruct t. Qed.
Lemma be_val_width t bs : are_bytes bs -> zlen bs = Z.of_nat (size_of t) -> 0 <= be_val bs < 2 ^ width t.
Proof.
  intros Hb Hl. pose proof (be_val_bound bs Hb) as B. rewrite Hl in B.
  unfold width. rewrite Z.pow_mul_r by lia. exact B.
Qed.

Lemma from_to_be_bytes t z : in_num t z -> from_be_bytes t (to_be_bytes t z) = z.
Proof.
  unfold in_num, from_be_bytes, to_be_bytes. rewrite be_val_be_bytes.
  replace (256 ^ Z.of_nat (size_of t)) with (2 ^ width t)
    by (unfold width; rewrite Z.pow_mul_r by lia; done).
  destruct (is_signed t); intros Hz; [|by apply Z.mod_small].
  apply swrap_id; [apply width_pos|done].
Qed.

Lemma swrap_mod w z : 0 < w -> swrap w z mod 2 ^ w = z mod 2 ^ w.
Proof.
  intros Hw. unfold swrap. assert (0 < 2 ^ w) by (apply Z.pow_pos_nonneg; lia).
  destruct (_ <? _); [by apply Z.mod_mod; lia|].
  rewrite <- (Z.mul_1_l (2 ^ w)) at 2. rewrite <- (Z.mod_add (_ - _) 1) by lia.
  rewrite Z.sub_add. apply Z.mod_mod. lia.
Qed.

Lemma swrap_in_s w z : 0 < w -> in_s w (swrap w z).
Proof.
  intros Hw. unfold swrap, in_s. assert (0 < 2 ^ (w - 1)) by (apply Z.pow_pos_nonneg; lia).
  assert (Hp : 2 ^ w = 2 * 2 ^ (w - 1)) by (rewrite <- Z.pow_succ_r by lia; f_equal; lia).
  pose proof (Z.mod_pos_bound z (2 ^ w)).
  destruct (Z.ltb_spec (z mod 2 ^ w) (2 ^ (w - 1))); lia.
Qed.

Lemma to_from_be_bytes t bs :
  are_bytes bs -> zlen bs = Z.of_nat (size_of t) -> to_be_bytes t (from_be_bytes t bs) = bs.
Proof.
  intros Hb Hl. assert (Hn : length bs = size_of t) by (unfold zlen in Hl; lia).
  assert (E : be_bytes (size_of t) (be_val bs) = bs) by (rewrite <- Hn; by apply be_bytes_be_val).
  unfold to_be_bytes, from_be_bytes. destruct (is_signed t); [|done]. rewrite <- E at 2.
  rewrite <- (be_bytes_mod _ (swrap _ _)), <- (be_bytes_mod _ (be_val bs)).
  replace (256 ^ Z.of_nat (size_of t)) with (2 ^ width t)
    by (unfold width; rewrite Z.pow_mul_r by lia; done).
  f_equal. apply swrap_mod. apply width_pos.
Qed.

#[export] Instance num_canonical t : Canonical (num t) (in_num t).
Proof.
  split; [split|..]; cbn; [intros z bs Hz [= <-]|intros bs z Hb..|done].
  - unfold to_be_bytes. rewrite zlen_be_bytes, Z.eqb_refl. f_equal. by apply from_to_be_bytes.
  - destruct (Z.eqb_spec (zlen bs) (Z.of_nat (size_of t))) as [Hl|]; [|done]. intros [= <-].
    unfold in_num, from_be_bytes.
    destruct (is_signed t); [apply swrap_in_s; apply width_pos|by apply be_val_width].
  - destruct (Z.eqb_spec (zlen bs) (Z.of_nat (size_of t))) as [Hl|]; [|done]. intros [= <-].
    f_equal. by apply to_from_be_bytes.
Qed.

#[export] Instance typed_hash_canonical t :
  Canonical (typed_hash t) (fun h => zlen h = hash_size t).
Proof.
  split; [split|..]; cbn; unfold hash_from_bytes; [intros h bs Hh [= <-]|intros bs h _..|done].
  - by rewrite Hh, Z.eqb_refl.
  - destruct (Z.eqb_spec (zlen bs) (hash_size t)); [|done]. by intros [= <-].
  - destruct (_ =? _); [|done]. by intros [= <-].
Qed.

#[export] Instance string_canonical : Canonical utf8_string (fun s => utf8_valid (utf8_bytes s) = true).
Proof.
  split; [split|..]; cbn; unfold from_utf8; [intros [s] bs Hs [= <-]|intros bs s _..|done].
  - cbn in *. by rewrite Hs.
  - destruct (utf8_valid bs) eqn:E; [|done]. by intros [= <-].
  - destruct (utf8_valid bs) eqn:E; [|done]. by intros [= <-].
Qed.

#[export] Instance bincode_laws `{BincodeEncoded A} : CodecLaws A (fun _ => True).
Proof.
  split; [|done]. intros a bs _. cbn. destruct (serialize a) as [b|] eqn:E; [|done].
  intros [= <-]. by rewrite (deserialize_serialize _ _ E).
Qed.

(** Different keys are stored under different bytes. *)
Lemma encode_inj `{CodecLaws A valid} a b bs :
  valid a -> valid b -> encode a = Ok bs -> encode b = Ok bs -> a = b.
Proof.
  intros Ha Hb Ea Eb. pose proof (decode_encode _ _ Ha Ea) as Da.
  rewrite (decode_encode _ _ Hb Eb) in Da. by injection Da as ->.
Qed.

(** ** Order

    A store that orders its keys by their bytes orders unsigned numbers by their
    values, and signed ones with the negative numbers last. *)
Fixpoint lex_lt (l k : bytes) : bool :=
  match l, k with
  | a :: l, b :: k => (a <? b) || ((a =? b) && lex_lt l k)
  | [], _ :: _ => true
  | _, [] => false
  end.

Lemma lex_lt_be_val l k :
  length l = length k -> are_bytes l -> are_bytes k -> lex_lt l k = (be_val l <? be_val k).
Proof.
  revert k. induction l as [|a l IH]; intros [|b k] Hl Hbl Hbk; try done.
  injection Hl as Hl. inversion Hbl as [|? ? Ha Hl']; inversion Hbk as [|? ? Hb Hk']; subst.
  cbn [lex_lt]. rewrite !be_val_cons, (IH k Hl Hl' Hk').
  pose proof (be_val_bound l Hl') as Bl. pose proof (be_val_bound k Hk') as Bk.
  assert (Hz : zlen l = zlen k) by (unfold zlen; lia). rewrite Hz in *.
  assert (0 < 256 ^ zlen k) by (apply Z.pow_pos_nonneg; [lia|apply zlen_nonneg]).
  apply eq_bool_prop_intro. destruct (Z.ltb_spec a b), (Z.eqb_spec a b), (Z.ltb_spec (be_val l) (be_val k));
    cbn; rewrite ?Is_true_true, ?Z.ltb_lt; split; try done; nia.
Qed.

Lemma num_order t x y :
  in_num t x -> in_num t y ->
  lex_lt (to_be_bytes t x) (to_be_bytes t y) =
    (if is_signed t && negb (Bool.eqb (x <? 0) (y <? 0)) then y <? x else x <? y).
Proof.
  intros Hx Hy. unfold to_be_bytes.
  rewrite lex_lt_be_val by (rewrite ?be_bytes_length; done || apply be_bytes_are_bytes).
  rewrite !be_val_be_bytes.
  replace (256 ^ Z.of_nat (size_of t)) with (2 ^ width t)
    by (unfold width; rewrite Z.pow_mul_r by lia; done).
  unfold in_num in *. destruct (is_signed t) eqn:Es; cbn [andb].
  - assert (Hw : 0 < width t) by apply width_pos. unfold in_s in *.
    assert (Hp : 2 ^ width t = 2 * 2 ^ (width t - 1)) by (rewrite <- Z.pow_succ_r by lia; f_equal; lia).
    assert (Hm : forall z, - 2 ^ (width t - 1) <= z < 2 ^ (width t - 1) ->
      z mod 2 ^ width t = if z <? 0 then z + 2 ^ width t else z).
    { intros z Hz. destruct (Z.ltb_spec z 0); [|apply Z.mod_small; lia].
      rewrite <- (Z.mod_add _ 1) by lia. rewrite Z.mul_1_l. apply Z.mod_small. lia. }
    rewrite !Hm by done. apply eq_bool_prop_intro.
    destruct (Z.ltb_spec x 0), (Z.ltb_spec y 0); cbn; rewrite !Is_true_true, !Z.ltb_lt; lia.
  - unfold in_u in *. by rewrite !Z.mod_small.
Qed.

(** Reading one of several numbers written one after another. *)
Lemma num_from_slice_app t pre z post :
  in_num t z -> num_from_slice (pre ++ to_be_bytes t z ++ post) (zlen pre) t = Some z.
Proof.
  intros Hz. unfold num_from_slice, to_be_bytes. rewrite !zlen_app, zlen_be_bytes.
  rewrite (proj2 (Z.leb_le _ _)) by (pose proof (zlen_nonneg post); lia).
  unfold zlen at 1. rewrite Nat2Z.id, drop_app_length.
  rewrite take_app_length' by (by rewrite be_bytes_length). f_equal. by apply from_to_be_bytes.
Qed.
End Schema.
