(* ===== verification/ContextStats.v ===== *)
(** * Statistics of the context ([working_tree/working_tree_stats.rs], [kv_store/stats.rs]
    of [tezos/new_context/src])

    Latencies of the operations on a context, over all paths and per path below
    [data], the time each block took, and the memory a store uses.  Sums wrap at
    their widths, as in a release build.  The clock and the capacities of
    containers are arguments. *)

From Stdlib Require Import ZArith Lia List Bool String.
From stdpp Require Import base option list numbers strings gmap.
From S2P Require Import Prelude Timing.

Local Open Scope Z_scope.

Module Stats.
(** ** Data *)
Record OperationLatencies : Type := mkLatencies {
  cumul_op_exec_time : Z;
  op_exec_times : Z;
  avg_exec_time : f64;
  op_exec_time_min : Z;
  op_exec_time_max : Z;
}.
Definition U128_MAX : Z := 2 ^ 128 - 1.
Definition default_latencies : OperationLatencies := mkLatencies 0 0 f64_zero U128_MAX 0.

Record BlockLatencies : Type := mkBlocks { latencies : list Z; current : Z }.

Inductive MerkleStorageAction : Type :=
| Set_ | Get | GetByPrefix | GetKeyValuesByPrefix | GetContextTreeByPrefix | GetHistory | Mem | DirMem
| Copy | Delete | DeleteRecursively | Commit | Checkout | BlockApplied.

#[export] Instance MerkleStorageAction_eq_dec : EqDecision MerkleStorageAction.
Proof. solve_decision. Defined.

(** [Display]. *)
Definition display (a : MerkleStorageAction) : string :=
  match a with
  | Set_ => "Set" | Get => "Get" | GetByPrefix => "GetByPrefix"
  | GetKeyValuesByPrefix => "GetKeyValuesByPrefix" | GetContextTreeByPrefix => "GetContextTreeByPrefix"
  | GetHistory => "GetHistory" | Mem => "Mem" | DirMem => "DirMem" | Copy => "Copy"
  | Delete => "Delete" | DeleteRecursively => "DeleteRecursively" | Commit => "Commit"
  | Checkout => "Checkout" | BlockApplied => "GC"
  end.
Definition actions : list MerkleStorageAction :=
  [Set_; Get; GetByPrefix; GetKeyValuesByPrefix; GetContextTreeByPrefix; GetHistory; Mem; DirMem;
   Copy; Delete; DeleteRecursively; Commit; Checkout; BlockApplied].

(** The texts tell the actions apart. *)
#[export] Instance MerkleStorageAction_countable : Countable MerkleStorageAction.
Proof.
  refine (inj_countable display (fun s => List.find (fun a => String.eqb (display a) s) actions) _).
  by intros [].
Defined.

Abbreviation OperationLatencyStats := (gmap MerkleStorageAction OperationLatencies).

Record TezedgeContextStatistics : Type := mkStatistics {
  global : OperationLatencyStats;
  perpath : gmap string OperationLatencyStats;
  block_latencies : BlockLatencies;
}.
Definition no_statistics : TezedgeContextStatistics := mkStatistics ∅ ∅ (mkBlocks [] 0).

(** ** [BlockLatencies] *)
Definition update (latency : Z) (b : BlockLatencies) : BlockLatencies :=
  mkBlocks (latencies b) (uwrap 64 (current b + latency)).
Definition end_block (b : BlockLatencies) : BlockLatencies :=
  mkBlocks (latencies b ++ [current b]) 0.
Definition get (offset_from_last_applied : Z) (b : BlockLatencies) : option Z :=
  index ← checked_sub (zlen (latencies b)) (uwrap 64 (offset_from_last_applied + 1));
  latencies b !! Z.to_nat index.

(** ** [StatUpdater] *)
Record StatUpdater : Type := mkUpdater {
  timer : Z;
  action : MerkleStorageAction;
  key : option string;
}.

Definition new (a : MerkleStorageAction) (action_key : option (list string)) (now : Z) : StatUpdater :=
  mkUpdater now a
    match action_key with
    | Some (first :: second :: _) => if String.eqb first "data" then Some second else None
    | _ => None
    end.

(** What happens to the entry of an action, here and per path. *)
Definition add_time (exec_time_nanos : Z) (entry : OperationLatencies) : OperationLatencies :=
  let cumul := uwrap 128 (cumul_op_exec_time entry + exec_time_nanos) in
  let times := uwrap 128 (op_exec_times entry + 1) in
  mkLatencies cumul times (f64_div (f64_of cumul) (f64_of times))
    (Z.min exec_time_nanos (op_exec_time_min entry)) (Z.max exec_time_nanos (op_exec_time_max entry)).

Definition add_to (exec_time_nanos : Z) (a : MerkleStorageAction) (m : OperationLatencyStats)
  : OperationLatencyStats :=
  <[a := add_time exec_time_nanos (default default_latencies (m !! a))]> m.

Definition update_execution_stats (self : StatUpdater) (now : Z) (stats : TezedgeContextStatistics)
  : TezedgeContextStatistics :=
  let exec_time_nanos := Z.max 0 (now - timer self) in
  let blocks := update (uwrap 64 exec_time_nanos) (block_latencies stats) in
  let blocks := match action self with BlockApplied => end_block blocks | _ => blocks end in
  mkStatistics (add_to exec_time_nanos (action self) (global stats))
    match key self with
    | Some path => <[path := add_to exec_time_nanos (action self) (default ∅ (perpath stats !! path))]> (perpath stats)
    | None => perpath stats
    end blocks.

(** ** What the statistics are

    The operations that were measured, with the times they took. *)
Record Measured : Type := mkMeasured { m_action : MerkleStorageAction; m_key : option string; m_time : Z }.
Definition measured (u : StatUpdater * Z) : Measured :=
  mkMeasured (action u.1) (key u.1) (Z.max 0 (u.2 - timer u.1)).

Definition total_of (l : list Z) : Z := foldr Z.add 0 l.

Definition summary (times : list Z) : OperationLatencies :=
  let cumul := uwrap 128 (total_of times) in
  let n := uwrap 128 (zlen times) in
  mkLatencies cumul n (f64_div (f64_of cumul) (f64_of n)) (foldr Z.min U128_MAX times) (foldr Z.max 0 times).
Definition summarized (times : list Z) : option OperationLatencies :=
  match times with [] => None | _ => Some (summary times) end.

Definition times_of (a : MerkleStorageAction) (l : list Measured) : list Z :=
  m_time <$> filter (fun m => m_action m = a) l.
Definition below (path : string) (l : list Measured) : list Measured :=
  filter (fun m => m_key m = Some path) l.

(** The times between the ends of blocks: of the finished ones, and of the rest. *)
Definition block_sums (l : list Measured) : list Z * Z :=
  fold_left (fun acc m =>
    let t := uwrap 64 (acc.2 + m_time m) in
    if decide (m_action m = BlockApplied) then (acc.1 ++ [t], 0) else (acc.1, t)) l ([], 0).

Definition run (us : list (StatUpdater * Z)) : TezedgeContextStatistics :=
  fold_left (fun s u => update_execution_stats u.1 u.2 s) us no_statistics.

Lemma total_of_app l k : total_of (l ++ k) = total_of l + total_of k.
Proof. unfold total_of. induction l as [|x l IH]; cbn; [done|]. rewrite IH. lia. Qed.

Lemma foldr_snoc (f : Z -> Z -> Z) d l x :
  (forall a b, f a b = f b a) -> (forall a b c, f a (f b c) = f (f a b) c) ->
  foldr f d (l ++ [x]) = f x (foldr f d l).
Proof.
  intros Hc Ha. induction l as [|y l IH]; cbn; [done|]. rewrite IH, !Ha. f_equal. apply Hc.
Qed.

Lemma add_time_summary t times :
  add_time t (default default_latencies (summarized times)) = summary (times ++ [t]).
Proof.
  assert (E : forall a b, uwrap 128 (uwrap 128 a + b) = uwrap 128 (a + b)).
  { intros a b. unfold uwrap. by rewrite Zplus_mod_idemp_l. }
  unfold summary. rewrite total_of_app, zlen_app. change (zlen [t]) with 1. cbn [total_of foldr]. rewrite Z.add_0_r.
  rewrite !(foldr_snoc _ _ _ _) by lia.
  destruct times as [|t0 times]; [done|]. cbn [summarized default]. unfold add_time, summary, id.
  cbn [cumul_op_exec_time op_exec_times op_exec_time_min op_exec_time_max]. by rewrite !E.
Qed.

Lemma summarized_snoc times t : summarized (times ++ [t]) = Some (summary (times ++ [t])).
Proof. by destruct times. Qed.

Lemma times_of_snoc a l m :
  times_of a (l ++ [m]) = if decide (m_action m = a) then times_of a l ++ [m_time m] else times_of a l.
Proof.
  unfold times_of. rewrite filter_app, fmap_app, filter_cons.
  destruct (decide (m_action m = a)); cbn; [done|by rewrite app_nil_r].
Qed.

(** Statistics [m] of the operations [l]. *)
Definition summarizes (l : list Measured) (m : OperationLatencyStats) : Prop :=
  forall a, m !! a = summarized (times_of a l).

Lemma add_to_summarizes l st x :
  summarizes l st -> summarizes (l ++ [x]) (add_to (m_time x) (m_action x) st).
Proof.
  intros Hm a. unfold add_to. rewrite times_of_snoc.
  destruct (decide (m_action x = a)) as [->|Hne].
  - by rewrite lookup_insert_eq, Hm, add_time_summary, summarized_snoc.
  - by rewrite lookup_insert_ne, Hm.
Qed.

Lemma run_snoc us u : run (us ++ [u]) = update_execution_stats u.1 u.2 (run us).
Proof. unfold run. by rewrite fold_left_app. Qed.

Lemma measured_snoc us u : measured <$> us ++ [u] = (measured <$> us) ++ [measured u].
Proof. by rewrite fmap_app. Qed.

Lemma below_snoc path l m :
  below path (l ++ [m]) = if decide (m_key m = Some path) then below path l ++ [m] else below path l.
Proof.
  unfold below. rewrite filter_app, filter_cons.
  destruct (decide (m_key m = Some path)); [done|]. by rewrite app_nil_r.
Qed.

Lemma global_spec us : summarizes (measured <$> us) (global (run us)).
Proof.
  induction us as [|u us IH] using rev_ind; [by intros a|].
  rewrite run_snoc, measured_snoc. cbn [update_execution_stats global].
  exact (add_to_summarizes _ _ (measured u) IH).
Qed.

(** A path has statistics when something below it was measured, and only of that. *)
Lemma perpath_spec us path :
  match perpath (run us) !! path with
  | Some m => below path (measured <$> us) <> [] /\ summarizes (below path (measured <$> us)) m
  | None => below path (measured <$> us) = []
  end.
Proof.
  induction us as [|u us IH] using rev_ind; [done|].
  rewrite run_snoc, measured_snoc, below_snoc.
  cbn [update_execution_stats perpath measured m_key]. destruct (key u.1) as [p|]; [|by rewrite decide_False].
  destruct (decide (p = path)) as [->|Hne].
  - rewrite lookup_insert_eq, decide_True by done. split; [by destruct (below _ _)|].
    apply (add_to_summarizes _ _ (measured u)).
    destruct (perpath (run us) !! path) as [m|]; [exact (proj2 IH)|]. rewrite IH. by intros a.
  - rewrite lookup_insert_ne by done. rewrite decide_False; [done|]. congruence.
Qed.

Lemma blocks_spec us :
  (latencies (block_latencies (run us)), current (block_latencies (run us))) = block_sums (measured <$> us).
Proof.
  induction us as [|u us IH] using rev_ind; [done|].
  rewrite run_snoc, measured_snoc. unfold block_sums in *. rewrite fold_left_app, <- IH.
  cbn [fold_left measured m_action m_time fst snd update_execution_stats block_latencies].
  assert (E : forall a b, uwrap 64 (a + uwrap 64 b) = uwrap 64 (a + b)).
  { intros a b. unfold uwrap. by rewrite Zplus_mod_idemp_r. }
  destruct (action u.1); cbn; by rewrite E.
Qed.

(** Everything measured is in the statistics, and nothing else: over all paths and
    per path, the number, sum, least, largest and mean of the times of each action;
    and the time of each block. *)
Theorem statistics_complete us :
  (forall a, global (run us) !! a = summarized (times_of a (measured <$> us))) /\
  (forall path a, (m ← perpath (run us) !! path; m !! a) =
     summarized (times_of a (below path (measured <$> us)))) /\
  (latencies (block_latencies (run us)), current (block_latencies (run us))) = block_sums (measured <$> us).
Proof.
  split; [apply global_spec|]. split; [|apply blocks_spec]. intros path a.
  pose proof (perpath_spec us path) as Hp.
  destruct (perpath (run us) !! path) as [m|]; [apply Hp|]. by rewrite Hp.
Qed.

(** [get 0] is the block applied last. *)
Lemma get_last b t l : latencies b = l ++ [t] -> zlen l < 2 ^ 63 -> get 0 b = Some t.
Proof.
  intros E Hl. unfold get. rewrite E, zlen_app. change (uwrap 64 (0 + 1)) with 1. change (zlen [t]) with 1.
  unfold checked_sub. rewrite (proj2 (Z.leb_le _ _)) by (pose proof (zlen_nonneg l); lia). cbn.
  replace (Z.to_nat (zlen l + 1 - 1)) with (length l) by (unfold zlen; lia).
  by apply list_lookup_middle.
Qed.

(** ** [StorageBackendStats] *)
Record StorageBackendStats : Type := mkStorage { key_bytes : Z; value_bytes : Z; reused_keys_bytes : Z }.
Definition no_storage : StorageBackendStats := mkStorage 0 0 0.

Definition ENTRY_HASH_SIZE : Z := 32.
Definition VEC_SIZE : Z := 24.

Definition update_reused_keys (capacity : Z) (s : StorageBackendStats) : StorageBackendStats :=
  mkStorage (key_bytes s) (value_bytes s) (uwrap 64 (capacity * ENTRY_HASH_SIZE)).
Definition total_as_bytes (s : StorageBackendStats) : Z :=
  uwrap 64 (key_bytes s + value_bytes s + reused_keys_bytes s).
Definition stats_add (s o : StorageBackendStats) : StorageBackendStats :=
  mkStorage (uwrap 64 (key_bytes s + key_bytes o)) (uwrap 64 (value_bytes s + value_bytes o))
    (uwrap 64 (reused_keys_bytes s + reused_keys_bytes o)).
Definition stats_sub (s o : StorageBackendStats) : StorageBackendStats :=
  mkStorage (uwrap 64 (key_bytes s - key_bytes o)) (uwrap 64 (value_bytes s - value_bytes o))
    (uwrap 64 (reused_keys_bytes s - reused_keys_bytes o)).
Definition stats_sum (l : list StorageBackendStats) : StorageBackendStats := fold_left stats_add l no_storage.
(** [size_of_vec] of bytes. *)
Definition size_of_vec (capacity : Z) : Z := uwrap 64 (VEC_SIZE + capacity).
Definition of_entry (capacity : Z) : StorageBackendStats := mkStorage ENTRY_HASH_SIZE (size_of_vec capacity) 0.

Definition stored (s : StorageBackendStats) : Prop :=
  in_u 64 (key_bytes s) /\ in_u 64 (value_bytes s) /\ in_u 64 (reused_keys_bytes s).

(** Taking away what was added gives back the statistics, also past the width. *)
Lemma stats_add_sub s o : stored s -> stats_sub (stats_add s o) o = s.
Proof.
  destruct s as [k v r]. intros (Hk & Hv & Hr). unfold stats_sub, stats_add. cbn in *.
  assert (E : forall a b, in_u 64 a -> uwrap 64 (uwrap 64 (a + b) - b) = a).
  { intros a b Ha. unfold uwrap. rewrite Zminus_mod_idemp_l, Z.add_simpl_r. by apply Z.mod_small. }
  by rewrite !E.
Qed.

(** Summing entries counts them: the keys are 32 bytes each. *)
Lemma stats_sum_keys l :
  key_bytes (stats_sum (of_entry <$> l)) = uwrap 64 (ENTRY_HASH_SIZE * zlen l).
Proof.
  unfold stats_sum. induction l as [|c l IH] using rev_ind; [done|].
  rewrite fmap_app, fold_left_app. cbn [fold_left fmap list_fmap stats_add key_bytes of_entry].
  rewrite IH, zlen_app. change (zlen [c]) with 1. unfold uwrap. rewrite Zplus_mod_idemp_l. f_equal. lia.
Qed.
End Stats.
