(* ===== verification/OcamlConv.v ===== *)
(** * Values of the OCaml runtime ([tezos/api/src/ocaml_conv])

    The calls of [Interop.v] pass their arguments and results through conversions
    between Rust structures and OCaml values.  OCaml's values and the macros that
    allocate and read them are the crate [ocaml-interop], a class here: immediate
    integers, boxed integers, bytes and tagged blocks, with the representation of
    lists, options and booleans of the OCaml manual.  A record is a block with the
    tag 0 and its fields in the declared order; the constructors of a variant are
    numbered in the declared order, those without and those with arguments apart.
    A conversion that panics is [None].  Texts are their bytes. *)

From Stdlib Require Import ZArith Lia List Bool String Ascii.
From stdpp Require Import base option list numbers strings.
From S2P Require Import Prelude CryptoHash MerklePath MessageTypes ApiTypes Interop.

Local Open Scope Z_scope.

Class OCamlInterop : Type := {
  ocaml : Type;
  ml_int : Z -> ocaml;
  ml_int32 : Z -> ocaml;
  ml_int64 : Z -> ocaml;
  ml_bytes : bytes -> ocaml;
  ml_block : nat -> list ocaml -> ocaml;
  int_val : ocaml -> Z;
  int32_val : ocaml -> Z;
  int64_val : ocaml -> Z;
  bytes_val : ocaml -> bytes;
  is_long : ocaml -> bool;
  tag : ocaml -> nat;
  field : nat -> ocaml -> ocaml;
  list_val : ocaml -> list ocaml;
  int_val_int z : in_s 63 z -> int_val (ml_int z) = z;
  int32_val_int32 z : in_s 32 z -> int32_val (ml_int32 z) = z;
  int64_val_int64 z : in_s 64 z -> int64_val (ml_int64 z) = z;
  bytes_val_bytes bs : bytes_val (ml_bytes bs) = bs;
  is_long_int z : is_long (ml_int z) = true;
  is_long_block t l : is_long (ml_block t l) = false;
  tag_block t l : tag (ml_block t l) = t;
  field_block t l i v : l !! i = Some v -> field i (ml_block t l) = v;
  list_val_nil : list_val (ml_int 0) = [];
  list_val_cons v l : list_val (ml_block 0 [v; l]) = v :: list_val l;
}.

Section Conversions.
Context `{OCamlInterop}.

(** ** The crate's own conversions *)
Definition ToOCaml (A : Type) : Type := A -> ocaml.
Definition FromOCaml (A : Type) : Type := ocaml -> option A.

Definition to_bool : ToOCaml bool := fun b => ml_int (if b then 1 else 0).
Definition from_bool : FromOCaml bool := fun v => Some (negb (int_val v =? 0)).
Definition to_string : ToOCaml string := fun s => ml_bytes (str_bytes s).
Definition from_string : FromOCaml string := fun v => Some (bytes_str (bytes_val v)).
Definition from_bytes : FromOCaml bytes := fun v => Some (bytes_val v).
(** [OCamlInt] read as an [i32]. *)
Definition from_int : FromOCaml Z := fun v => Some (swrap 32 (int_val v)).
Definition from_int32 : FromOCaml Z := fun v => Some (int32_val v).

Definition to_option {A} (f : ToOCaml A) : ToOCaml (option A) := fun o =>
  match o with None => ml_int 0 | Some a => ml_block 0 [f a] end.
Definition from_option {A} (f : FromOCaml A) : FromOCaml (option A) := fun v =>
  if is_long v then Some None else Some <$> f (field 0 v).
Fixpoint to_list {A} (f : ToOCaml A) (l : list A) : ocaml :=
  match l with [] => ml_int 0 | a :: l => ml_block 0 [f a; to_list f l] end.
Definition from_list {A} (f : FromOCaml A) : FromOCaml (list A) := fun v => mapM f (list_val v).
Definition to_pair {A B} (f : ToOCaml A) (g : ToOCaml B) : ToOCaml (A * B) := fun p => ml_block 0 [f p.1; g p.2].

(** ** Hashes *)
Inductive TaggedHash : Type := TagHash (h : bytes).
Definition to_tagged_hash : ToOCaml TaggedHash := fun h => match h with TagHash h => ml_block 0 [ml_bytes h] end.
(** [to_ocaml_hash!]. *)
Definition to_hash : ToOCaml bytes := fun h => to_tagged_hash (TagHash h).
(** [from_ocaml_hash!] and [from_ocaml_typed_hash!]. *)
Definition from_hash : FromOCaml bytes := fun v => from_bytes (field 0 v).
Definition from_typed_hash (t : HashType) : FromOCaml bytes := fun v =>
  vec ← from_bytes (field 0 v);
  match hash_from_bytes t vec with Ok h => Some h | Err _ => None end.
(** A chain id has no block around it. *)
Definition to_chain_id : ToOCaml bytes := ml_bytes.
Definition from_chain_id : FromOCaml bytes := fun v =>
  vec ← from_bytes v;
  match hash_from_bytes ChainId vec with Ok h => Some h | Err _ => None end.

(** ** [to_ocaml.rs] *)
Definition to_irmin : ToOCaml TezosContextIrminStorageConfiguration := fun c => ml_block 0 [to_string (data_dir c)].
Definition to_kv_store : ToOCaml ContextKvStoreConfiguration := fun c =>
  match c with ReadOnlyIpc => ml_int 0 | InMem => ml_int 1 end.
Definition to_tezedge : ToOCaml TezosContextTezEdgeStorageConfiguration := fun c =>
  ml_block 0 [to_kv_store (backend c); to_option to_string (ipc_socket_path c)].
Definition to_storage : ToOCaml TezosContextStorageConfiguration := fun c =>
  match c with
  | IrminOnly cfg => ml_block 0 [to_irmin cfg]
  | TezEdgeOnly cfg => ml_block 1 [to_tezedge cfg]
  | Both irmin tezedge => ml_block 2 [to_irmin irmin; to_tezedge tezedge]
  end.
Definition to_genesis : ToOCaml GenesisChain := fun g =>
  ml_block 0 [to_string (genesis_time_text g); to_string (genesis_block g); to_string (genesis_protocol_text g)].
Definition to_overrides : ToOCaml ProtocolOverrides := fun o =>
  ml_block 0 [to_list (to_pair ml_int32 to_string) (user_activated_upgrades o);
              to_list (to_pair to_string to_string) (user_activated_protocol_overrides o)].
Definition to_configuration : ToOCaml TezosContextConfiguration := fun c =>
  ml_block 0 [to_storage (cfg_storage c); to_genesis (cfg_genesis c); to_overrides (cfg_protocol_overrides c);
              to_bool (cfg_commit_genesis c); to_bool (cfg_enable_testchain c); to_bool (cfg_readonly c);
              to_option (fun pc => to_pair to_string to_string (patch_key pc, patch_json pc))
                (cfg_sandbox_json_patch_context c);
              to_option to_string (cfg_context_stats_db_path c)].

(** The borrowed structures of [mod.rs]. *)
Record FfiBlockHeaderShellHeader : Type := mkFfiShell {
  sh_level : Z; sh_proto_level : Z; sh_predecessor : TaggedHash; sh_timestamp : Z; sh_validation_passes : Z;
  sh_operations_hash : TaggedHash; sh_fitness : list bytes; sh_context : TaggedHash;
}.
Record FfiBlockHeader : Type := mkFfiHeader { fh_shell : FfiBlockHeaderShellHeader; fh_protocol_data : bytes }.
Record FfiOperation : Type := mkFfiOperation { fo_branch : TaggedHash; fo_data : bytes }.

Definition shell_of_header (h : BlockHeader.t) : FfiBlockHeaderShellHeader :=
  mkFfiShell (BlockHeader.level h) (BlockHeader.proto h) (TagHash (BlockHeader.predecessor h))
    (BlockHeader.timestamp h) (BlockHeader.validation_pass h) (TagHash (BlockHeader.operations_hash h))
    (BlockHeader.fitness h) (TagHash (BlockHeader.context h)).
Definition ffi_of_header (h : BlockHeader.t) : FfiBlockHeader :=
  mkFfiHeader (shell_of_header h) (BlockHeader.protocol_data h).
Definition ffi_of_operation (o : Operation.t) : FfiOperation :=
  mkFfiOperation (TagHash (Operation.branch o)) (Operation.data o).

Definition to_shell : ToOCaml FfiBlockHeaderShellHeader := fun s =>
  ml_block 0 [ml_int32 (sh_level s); ml_int (sh_proto_level s); to_tagged_hash (sh_predecessor s);
              ml_int64 (sh_timestamp s); ml_int (sh_validation_passes s); to_tagged_hash (sh_operations_hash s);
              to_list ml_bytes (sh_fitness s); to_tagged_hash (sh_context s)].
Definition to_ffi_header : ToOCaml FfiBlockHeader := fun h =>
  ml_block 0 [to_shell (fh_shell h); ml_bytes (fh_protocol_data h)].
Definition to_ffi_operation : ToOCaml FfiOperation := fun o =>
  ml_block 0 [ml_block 0 [to_tagged_hash (fo_branch o)]; ml_bytes (fo_data o)].
Definition to_header : ToOCaml BlockHeader.t := fun h => to_ffi_header (ffi_of_header h).
Definition to_operation : ToOCaml Operation.t := fun o => to_ffi_operation (ffi_of_operation o).

Definition to_apply_block_request : ToOCaml ApplyBlockRequest := fun r =>
  ml_block 0 [to_chain_id (ab_chain_id r); to_header (ab_block_header r); to_header (ab_pred_header r);
              ml_int (ab_max_operations_ttl r); to_list (to_list to_operation) (ab_operations r);
              to_option to_hash (ab_predecessor_block_metadata_hash r);
              to_option to_hash (ab_predecessor_ops_metadata_hash r)].
Definition to_forking_testchain : ToOCaml ForkingTestchainData := fun d =>
  ml_block 0 [to_hash (forking_block_hash d); to_chain_id (test_chain_id d)].
Definition to_apply_block_response : ToOCaml ApplyBlockResponse := fun r =>
  ml_block 0 [to_string (validation_result_message r); to_hash (context_hash r); to_hash (protocol_hash r);
              to_hash (next_protocol_hash r); to_string (block_header_proto_json r);
              ml_bytes (block_header_proto_metadata_bytes r);
              to_list (to_list ml_bytes) (operations_proto_metadata_bytes r);
              ml_int (max_operations_ttl r); ml_int32 (last_allowed_fork_level r);
              to_bool (forking_testchain r); to_option to_forking_testchain (forking_testchain_data r);
              to_option to_hash (block_metadata_hash r);
              to_option (to_list (to_list to_hash)) (ops_metadata_hashes r);
              to_option to_hash (ops_metadata_hash r)].
Definition to_begin_application : ToOCaml BeginApplicationRequest := fun r =>
  ml_block 0 [to_chain_id (ba_chain_id r); to_header (ba_pred_header r); to_header (ba_block_header r)].
Definition to_begin_construction : ToOCaml BeginConstructionRequest := fun r =>
  ml_block 0 [to_chain_id (bc_chain_id r); to_header (bc_predecessor r); to_option ml_bytes (bc_protocol_data r)].
Definition to_prevalidator : ToOCaml PrevalidatorWrapper := fun p =>
  ml_block 0 [to_chain_id (pv_chain_id p); to_hash (pv_protocol p);
              to_option (to_list ml_bytes) (pv_context_fitness p)].
Definition to_validate_operation : ToOCaml ValidateOperationRequest := fun r =>
  ml_block 0 [to_prevalidator (vo_prevalidator r); to_operation (vo_operation r)].
Definition to_meth : ToOCaml RpcMethod := fun m =>
  ml_int match m with DELETE => 0 | GET => 1 | PATCH => 2 | POST => 3 | PUT => 4 end.
Definition to_rpc_request : ToOCaml RpcRequest := fun r =>
  ml_block 0 [to_string (rpc_body r); to_string (context_path r); to_meth (meth r);
              to_option to_string (content_type r); to_option to_string (accept r)].
Definition to_protocol_rpc : ToOCaml ProtocolRpcRequest := fun r =>
  ml_block 0 [to_header (pr_block_header r); to_chain_id (pr_chain_id r); to_string (chain_arg r);
              to_rpc_request (rpc_request r)].
Definition to_preapply_block : ToOCaml HelpersPreapplyBlockRequest := fun r =>
  ml_block 0 [to_protocol_rpc (hp_protocol_rpc_request r);
              to_option to_hash (hp_predecessor_block_metadata_hash r);
              to_option to_hash (hp_predecessor_ops_metadata_hash r)].

(** ** [from_ocaml.rs] *)
Definition from_kv_store : FromOCaml ContextKvStoreConfiguration := fun v =>
  if is_long v then
    match int_val v with 0 => Some ReadOnlyIpc | 1 => Some InMem | _ => None end
  else None.
Definition from_tezedge : FromOCaml TezosContextTezEdgeStorageConfiguration := fun v =>
  b ← from_kv_store (field 0 v); p ← from_option from_string (field 1 v); Some (mkTezEdge b p).
Definition from_forking_testchain : FromOCaml ForkingTestchainData := fun v =>
  b ← from_typed_hash BlockHash (field 0 v); c ← from_chain_id (field 1 v); Some (mkForkingTestchainData b c).
Definition from_apply_block_response : FromOCaml ApplyBlockResponse := fun v =>
  msg ← from_string (field 0 v);
  ctx ← from_typed_hash ContextHash (field 1 v);
  proto ← from_typed_hash ProtocolHash (field 2 v);
  next ← from_typed_hash ProtocolHash (field 3 v);
  json ← from_string (field 4 v);
  meta ← from_bytes (field 5 v);
  ops ← from_list (from_list from_bytes) (field 6 v);
  ttl ← from_int (field 7 v);
  fork ← from_int32 (field 8 v);
  testchain ← from_bool (field 9 v);
  data ← from_option from_forking_testchain (field 10 v);
  bmh ← from_option (from_typed_hash BlockMetadataHash) (field 11 v);
  omhs ← from_option (from_list (from_list (from_typed_hash OperationMetadataHash))) (field 12 v);
  omh ← from_option (from_typed_hash OperationMetadataListListHash) (field 13 v);
  Some (mkApplyBlockResponse msg ctx proto next json meta ops ttl fork testchain data bmh omhs omh).
Definition from_begin_application : FromOCaml BeginApplicationResponse := fun v =>
  r ← from_string (field 0 v); Some (mkBeginApplicationResponse r).
Definition from_prevalidator : FromOCaml PrevalidatorWrapper := fun v =>
  c ← from_chain_id (field 0 v); p ← from_typed_hash ProtocolHash (field 1 v);
  f ← from_option (from_list from_bytes) (field 2 v); Some (mkPrevalidator c p f).
Definition from_applied : FromOCaml Applied := fun v =>
  h ← from_typed_hash OperationHash (field 0 v); j ← from_string (field 1 v); Some (mkApplied h j).
Definition from_json_with_error : FromOCaml OperationProtocolDataJsonWithErrorListJson := fun v =>
  d ← from_string (field 0 v); e ← from_string (field 1 v); Some (mkJsonWithError d e).
Definition from_errored : FromOCaml Errored := fun v =>
  h ← from_typed_hash OperationHash (field 0 v); e ← from_option from_bool (field 1 v);
  j ← from_json_with_error (field 2 v); Some (mkErrored h e j).
Definition from_validate_result : FromOCaml ValidateOperationResult := fun v =>
  a ← from_list from_applied (field 0 v); r ← from_list from_errored (field 1 v);
  b ← from_list from_errored (field 2 v); d ← from_list from_errored (field 3 v);
  Some (mkValidateResult a r b d).
Definition from_validate_response : FromOCaml ValidateOperationResponse := fun v =>
  p ← from_prevalidator (field 0 v); r ← from_validate_result (field 1 v); Some (mkValidateResponse p r).
Definition from_preapply : FromOCaml HelpersPreapplyResponse := fun v =>
  b ← from_string (field 0 v); Some (mkHelpersPreapplyResponse b).
Definition from_error_trace : FromOCaml TezosErrorTrace := fun v =>
  i ← from_string (field 0 v); t ← from_string (field 1 v); Some (mkTrace i t).
Definition from_meth : FromOCaml RpcMethod := fun v =>
  if is_long v then
    match int_val v with
    | 0 => Some DELETE | 1 => Some GET | 2 => Some PATCH | 3 => Some POST | 4 => Some PUT | _ => None
    end
  else None.
Definition from_rpc_response : FromOCaml ProtocolRpcResponse := fun v =>
  let body := from_option from_string (field 0 v) in
  if is_long v then
    match int_val v with 0 => Some RPCNoContent | 1 => Some RPCUnauthorized | _ => None end
  else
    match tag v with
    | 0 => RPCConflict <$> body
    | 1 => RPCCreated <$> body
    | 2 => RPCError <$> body
    | 3 => RPCForbidden <$> body
    | 4 => RPCGone <$> body
    | 5 => RPCNotFound <$> body
    | 6 => RPCOk <$> from_string (field 0 v)
    | _ => None
    end%nat.
Definition from_arg_desc : FromOCaml RpcArgDesc := fun v =>
  n ← from_string (field 0 v); d ← from_option from_string (field 1 v); Some (mkRpcArgDesc n d).
Definition from_rpc_error : FromOCaml ProtocolRpcError.t := fun v =>
  if is_long v then
    match int_val v with 0 => Some ProtocolRpcError.RPCErrorServiceNotFound | _ => None end
  else
    match tag v with
    | 0 => ProtocolRpcError.RPCErrorCannotParseBody <$> from_string (field 0 v)
    | 1 => p ← from_list from_string (field 0 v); d ← from_arg_desc (field 1 v); s ← from_string (field 2 v);
           Some (ProtocolRpcError.RPCErrorCannotParsePath p d s)
    | 2 => ProtocolRpcError.RPCErrorCannotParseQuery <$> from_string (field 0 v)
    | 3 => ProtocolRpcError.RPCErrorInvalidMethodString <$> from_string (field 0 v)
    | 4 => ProtocolRpcError.RPCErrorMethodNotAllowed <$> from_list from_meth (field 0 v)
    | _ => None
    end%nat.

(** A path is as deep as the tree of operations; [None] also when [n] is too small. *)
Fixpoint from_path (n : nat) : FromOCaml FfiPath := fun v =>
  match n with
  | O => None
  | S n =>
      if is_long v then match int_val v with 0 => Some FfiOp | _ => None end
      else
        match tag v with
        | 0 => p ← from_path n (field 0 v); r ← from_hash (field 1 v); Some (FfiLeft p r)
        | 1 => l ← from_hash (field 0 v); p ← from_path n (field 1 v); Some (FfiRight l p)
        | _ => None
        end%nat
  end.
End Conversions.
