(* ===== verification/OcamlConvFacts.v ===== *)
(** * Conversions to and from OCaml keep everything

    [returns ok to from]: what [to] makes of a valid value, [from] reads back.
    [determined ok to]: different valid values are different in OCaml.  Both are
    proved along the structure of the types, for the structures that cross the
    border in both directions and for the requests, which only go one way. *)

From Stdlib Require Import ZArith Lia List Bool String Ascii.
From stdpp Require Import base option list numbers strings.
From S2P Require Import Prelude CryptoHash MerklePath MessageTypes ApiTypes Interop OcamlConv.

Local Open Scope Z_scope.

Lemma bytes_str_str_bytes s : bytes_str (str_bytes s) = s.
Proof.
  unfold bytes_str, str_bytes. rewrite <- list_fmap_compose.
  rewrite <- (string_of_list_ascii_of_string s) at 2. f_equal.
  rewrite <- (list_fmap_id (list_ascii_of_string s)) at 2. apply list_fmap_ext. intros _ a _.
  unfold compose. by rewrite N2Z.id, ascii_N_embedding.
Qed.

Section Facts.
Context `{OCamlInterop}.

Definition returns {A} (ok : A -> Prop) (to : ToOCaml A) (from : FromOCaml A) : Prop :=
  forall a, ok a -> from (to a) = Some a.
Definition determined {A} (ok : A -> Prop) (to : ToOCaml A) : Prop :=
  forall a b, ok a -> ok b -> to a = to b -> a = b.

Definition always {A} (_ : A) : Prop := True.
Definition if_some {A} (ok : A -> Prop) (o : option A) : Prop := match o with Some a => ok a | None => True end.
Definition hash_of (t : HashType) (h : bytes) : Prop := zlen h = hash_size t.

Lemma returns_determined {A} ok to (from : FromOCaml A) : returns ok to from -> determined ok to.
Proof.
  intros Hr a b Ha Hb E. pose proof (Hr a Ha) as Ea. rewrite E, (Hr b Hb) in Ea. by injection Ea.
Qed.

(** ** Blocks *)
Lemma block_inj t l k : length l = length k -> ml_block t l = ml_block t k -> l = k.
Proof.
  intros Hl E. apply list_eq. intros i.
  destruct (l !! i) as [x|] eqn:Ex.
  - destruct (lookup_lt_is_Some_2 k i) as [y Ey]; [rewrite <- Hl; by eapply lookup_lt_Some|].
    rewrite Ey. f_equal. by rewrite <- (field_block t l i x Ex), E, (field_block t k i y Ey).
  - symmetry. apply lookup_ge_None. rewrite <- Hl. by apply lookup_ge_None.
Qed.

Lemma block_not_int t l z : ml_block t l <> ml_int z.
Proof. intros E. pose proof (is_long_block t l) as Hb. by rewrite E, is_long_int in Hb. Qed.

Lemma tag_inj t t' l l' : ml_block t l = ml_block t' l' -> t = t'.
Proof. intros E. by rewrite <- (tag_block t l), E, tag_block. Qed.

(** ** The parts *)
Lemma small_int z : (0 <=? z) && (z <? 256) = true -> in_s 63 z.
Proof. intros Hz. unfold in_s. lia. Qed.

Lemma returns_bool : returns always to_bool from_bool.
Proof. intros [] _; unfold from_bool, to_bool; by rewrite int_val_int by by apply small_int. Qed.
Lemma returns_string : returns always to_string from_string.
Proof. intros s _. unfold from_string, to_string. by rewrite bytes_val_bytes, bytes_str_str_bytes. Qed.
Lemma returns_bytes : returns always ml_bytes from_bytes.
Proof. intros bs _. unfold from_bytes. by rewrite bytes_val_bytes. Qed.
Lemma returns_int : returns (in_s 32) ml_int from_int.
Proof.
  intros z Hz. unfold from_int. rewrite int_val_int by (unfold in_s in *; lia). f_equal.
  pose proof (swrap_id 32 z ltac:(lia) Hz) as E. unfold swrap in *. by rewrite Z.mod_mod in E by lia.
Qed.
Lemma returns_int32 : returns (in_s 32) ml_int32 from_int32.
Proof. intros z Hz. unfold from_int32. by rewrite int32_val_int32. Qed.
Lemma returns_hash t : returns (hash_of t) to_hash (from_typed_hash t).
Proof.
  intros h Hh. unfold from_typed_hash, to_hash, to_tagged_hash.
  rewrite (field_block 0 [ml_bytes h] 0 (ml_bytes h) eq_refl), returns_bytes by done. cbn.
  unfold hash_from_bytes. by rewrite Hh, Z.eqb_refl.
Qed.
Lemma returns_chain_id : returns (hash_of ChainId) to_chain_id from_chain_id.
Proof.
  intros h Hh. unfold from_chain_id, to_chain_id. rewrite returns_bytes by done. cbn.
  unfold hash_from_bytes. by rewrite Hh, Z.eqb_refl.
Qed.
Lemma returns_option {A} ok to (from : FromOCaml A) :
  returns ok to from -> returns (if_some ok) (to_option to) (from_option from).
Proof.
  intros Hr [a|] Ha; unfold from_option, to_option.
  - by rewrite is_long_block, (field_block 0 [to a] 0 (to a) eq_refl), Hr.
  - by rewrite is_long_int.
Qed.
Lemma returns_list {A} ok to (from : FromOCaml A) :
  returns ok to from -> returns (Forall ok) (to_list to) (from_list from).
Proof.
  intros Hr l Hl. unfold from_list.
  assert (E : list_val (to_list to l) = to <$> l).
  { clear Hl. induction l as [|a l IH]; cbn; [apply list_val_nil|]. by rewrite list_val_cons, IH. }
  rewrite E. clear E. apply mapM_Some. induction Hl as [|a l Ha _ IH]; cbn; constructor; auto.
Qed.
Lemma returns_kv_store : returns always to_kv_store from_kv_store.
Proof. intros [] _; unfold from_kv_store, to_kv_store; by rewrite is_long_int, int_val_int by by apply small_int. Qed.
Lemma returns_meth : returns always to_meth from_meth.
Proof. intros [] _; unfold from_meth, to_meth; by rewrite is_long_int, int_val_int by by apply small_int. Qed.
Lemma determined_int64 : determined (in_s 64) ml_int64.
Proof. apply (returns_determined _ _ (fun v => Some (int64_val v))). intros z Hz. by rewrite int64_val_int64. Qed.
Lemma determined_option {A} ok (to : ToOCaml A) : determined ok to -> determined (if_some ok) (to_option to).
Proof.
  intros Hd [a|] [b|] Ha Hb E; cbn in *; [|by apply block_not_int in E|symmetry in E; by apply block_not_int in E|done].
  apply block_inj in E; [|done]. injection E as E. f_equal. by apply Hd.
Qed.
Lemma determined_list {A} ok (to : ToOCaml A) : determined ok to -> determined (Forall ok) (to_list to).
Proof.
  intros Hd l k Hl. revert k. induction Hl as [|a l Ha _ IH]; intros [|b k] Hk E; cbn in E; [done| | |].
  - symmetry in E. by apply block_not_int in E.
  - by apply block_not_int in E.
  - inversion Hk; subst. apply block_inj in E; [|done]. injection E as E1 E2.
    f_equal; [by apply Hd|by apply IH].
Qed.
Lemma determined_pair {A B} ok ok' (to : ToOCaml A) (to' : ToOCaml B) :
  determined ok to -> determined ok' to' ->
  determined (fun p => ok p.1 /\ ok' p.2) (to_pair to to').
Proof.
  intros Hd Hd' [a b] [a' b'] [Ha Hb] [Ha' Hb'] E. apply block_inj in E; [|done]. cbn in E.
  injection E as E1 E2. f_equal; [by apply Hd|by apply Hd'].
Qed.
Lemma determined_hash : determined always to_hash.
Proof. intros h k _ _ E. apply block_inj in E; [|done]. injection E as E. by apply (returns_determined _ _ _ returns_bytes). Qed.

(** ** Structures that go both ways *)
#[local] Arguments from_typed_hash : simpl never.
#[local] Arguments to_hash : simpl never.
#[local] Arguments from_chain_id : simpl never.
#[local] Arguments to_chain_id : simpl never.
#[local] Arguments from_string : simpl never.
#[local] Arguments to_string : simpl never.
#[local] Arguments from_bytes : simpl never.
#[local] Arguments from_int : simpl never.
#[local] Arguments from_int32 : simpl never.
#[local] Arguments from_bool : simpl never.
#[local] Arguments to_bool : simpl never.
#[local] Arguments to_option : simpl never.
#[local] Arguments from_option : simpl never.
#[local] Arguments to_list : simpl never.
#[local] Arguments from_list : simpl never.
#[local] Arguments from_kv_store : simpl never.
#[local] Arguments to_kv_store : simpl never.
#[local] Arguments to_meth : simpl never.
#[local] Arguments from_meth : simpl never.
#[local] Arguments from_forking_testchain : simpl never.
#[local] Arguments to_forking_testchain : simpl never.

(** Reads the fields of a block, each by the lemma of its type. *)
Ltac read_block := repeat (erewrite field_block by reflexivity).

Definition forking_ok (d : ForkingTestchainData) : Prop :=
  hash_of BlockHash (forking_block_hash d) /\ hash_of ChainId (test_chain_id d).
Definition prevalidator_ok (p : PrevalidatorWrapper) : Prop :=
  hash_of ChainId (pv_chain_id p) /\ hash_of ProtocolHash (pv_protocol p).
Definition response_ok (r : ApplyBlockResponse) : Prop :=
  hash_of ContextHash (context_hash r) /\ hash_of ProtocolHash (protocol_hash r) /\
  hash_of ProtocolHash (next_protocol_hash r) /\
  in_s 32 (max_operations_ttl r) /\ in_s 32 (last_allowed_fork_level r) /\
  if_some forking_ok (forking_testchain_data r) /\ if_some (hash_of BlockMetadataHash) (block_metadata_hash r) /\
  if_some (Forall (Forall (hash_of OperationMetadataHash))) (ops_metadata_hashes r) /\
  if_some (hash_of OperationMetadataListListHash) (ops_metadata_hash r).

Lemma Forall_always {A} (l : list A) : Forall always l.
Proof. by apply Forall_forall. Qed.
Lemma Forall2_always {A} (l : list (list A)) : Forall (Forall always) l.
Proof. apply Forall_forall. intros x _. apply Forall_always. Qed.
Lemma if_some_always {A} (o : option A) : if_some always o.
Proof. by destruct o. Qed.
Lemma if_some_Forall {A} (o : option (list A)) : if_some (Forall always) o.
Proof. destruct o; cbn; [apply Forall_always|done]. Qed.

Lemma returns_tezedge : returns always to_tezedge from_tezedge.
Proof.
  intros [b p] _. unfold from_tezedge, to_tezedge. read_block. cbn.
  rewrite returns_kv_store by done. cbn.
  by rewrite (returns_option _ _ _ returns_string) by apply if_some_always.
Qed.
Lemma returns_forking : returns forking_ok to_forking_testchain from_forking_testchain.
Proof.
  intros [b c] [Hb Hc]. unfold from_forking_testchain, to_forking_testchain. read_block. cbn in *.
  rewrite returns_hash by done. cbn. by rewrite returns_chain_id.
Qed.
Lemma returns_prevalidator : returns prevalidator_ok to_prevalidator from_prevalidator.
Proof.
  intros [c p f] [Hc Hp]. unfold from_prevalidator, to_prevalidator. read_block. cbn in *.
  rewrite returns_chain_id by done. cbn. rewrite returns_hash by done. cbn.
  by rewrite (returns_option _ _ _ (returns_list _ _ _ returns_bytes)) by apply if_some_Forall.
Qed.
Lemma returns_response : returns response_ok to_apply_block_response from_apply_block_response.
Proof.
  intros [] (H1 & H2 & H3 & H4 & H5 & H6 & H7 & H8 & H9).
  unfold from_apply_block_response, to_apply_block_response. read_block. cbn in *.
  rewrite !returns_string by done. cbn. rewrite !returns_hash by done. cbn. rewrite !returns_bytes by done. cbn.
  rewrite (returns_list _ _ _ (returns_list _ _ _ returns_bytes)) by apply Forall2_always. cbn.
  rewrite returns_int by done. cbn. rewrite returns_int32 by done. cbn. rewrite returns_bool by done. cbn.
  rewrite (returns_option _ _ _ returns_forking) by done. cbn.
  rewrite !(returns_option _ _ _ (returns_hash _)) by done. cbn.
  by rewrite (returns_option _ _ _ (returns_list _ _ _ (returns_list _ _ _ (returns_hash _)))) by done.
Qed.

(** (C37) What the node gives to OCaml and takes back is unchanged: the answer to a block
    with every optional hash, the prevalidator that travels with each operation, the
    storage configuration and the method of a request. *)
Theorem ocaml_returns :
  returns response_ok to_apply_block_response from_apply_block_response /\
  returns prevalidator_ok to_prevalidator from_prevalidator /\
  returns always to_tezedge from_tezedge /\
  returns always to_meth from_meth /\
  forall t, returns (hash_of t) to_hash (from_typed_hash t).
Proof.
  ssplit; [apply returns_response|apply returns_prevalidator|apply returns_tezedge|apply returns_meth|].
  apply returns_hash.
Qed.

(** ** Requests *)
Lemma determined_bytes : determined always ml_bytes.
Proof. exact (returns_determined _ _ _ returns_bytes). Qed.
Lemma determined_string : determined always to_string.
Proof. exact (returns_determined _ _ _ returns_string). Qed.
Lemma determined_bool : determined always to_bool.
Proof. exact (returns_determined _ _ _ returns_bool). Qed.
Lemma determined_int : determined (in_s 32) ml_int.
Proof. exact (returns_determined _ _ _ returns_int). Qed.
Lemma determined_int32 : determined (in_s 32) ml_int32.
Proof. exact (returns_determined _ _ _ returns_int32). Qed.
Lemma determined_u8 : determined (in_u 8) ml_int.
Proof. intros a b Ha Hb. apply determined_int; unfold in_s, in_u in *; lia. Qed.
Lemma determined_opt_hash : determined always (to_option to_hash).
Proof. intros a b _ _. apply (determined_option _ _ determined_hash); apply if_some_always. Qed.
Lemma determined_opt_bytes : determined always (to_option ml_bytes).
Proof. intros a b _ _. apply (determined_option _ _ determined_bytes); apply if_some_always. Qed.
Lemma determined_opt_string : determined always (to_option to_string).
Proof. intros a b _ _. apply (determined_option _ _ determined_string); apply if_some_always. Qed.

(** The two blocks of an equation have equal fields. *)
Ltac same_fields E := apply block_inj in E; [|done]; injection E; clear E; intros.

Lemma determined_header : determined BlockHeader.ok to_header.
Proof.
  intros [l p pr t v o f c d] [l' p' pr' t' v' o' f' c' d']
    (Hl & Hp & _ & Ht & Hv & _) (Hl' & Hp' & _ & Ht' & Hv' & _) E. cbn in *.
  unfold to_header, to_ffi_header, to_shell in E. same_fields E.
  match goal with E : ml_block _ _ = _ |- _ => same_fields E end. cbn in *.
  f_equal; [by apply determined_int32|by apply determined_u8|by apply determined_hash|by apply determined_int64
    |by apply determined_u8|by apply determined_hash| |by apply determined_hash|by apply determined_bytes].
  apply (determined_list _ _ determined_bytes); [apply Forall_always..|done].
Qed.

Lemma determined_operation : determined always to_operation.
Proof.
  intros [b d] [b' d'] _ _ E. unfold to_operation, to_ffi_operation in E. same_fields E.
  match goal with E : ml_block _ _ = _ |- _ => same_fields E end.
  f_equal; [by apply determined_hash|by apply determined_bytes].
Qed.

Definition apply_request_ok (r : ApplyBlockRequest) : Prop :=
  BlockHeader.ok (ab_block_header r) /\ BlockHeader.ok (ab_pred_header r) /\ in_s 32 (ab_max_operations_ttl r).

Lemma determined_apply_block : determined apply_request_ok to_apply_block_request.
Proof.
  intros [c h p m o x y] [c' h' p' m' o' x' y'] (H1 & H2 & H3) (H1' & H2' & H3') E. cbn in *. same_fields E.
  f_equal; [by apply determined_bytes|by apply determined_header|by apply determined_header|by apply determined_int| |
    by apply determined_opt_hash|by apply determined_opt_hash].
  apply (determined_list _ _ (determined_list _ _ determined_operation)); [apply Forall2_always..|done].
Qed.

Lemma determined_begin_application :
  determined (fun r => BlockHeader.ok (ba_pred_header r) /\ BlockHeader.ok (ba_block_header r)) to_begin_application.
Proof.
  intros [c h p] [c' h' p'] (H1 & H2) (H1' & H2') E. cbn in *. same_fields E.
  f_equal; [by apply determined_bytes|by apply determined_header|by apply determined_header].
Qed.

Lemma determined_begin_construction :
  determined (fun r => BlockHeader.ok (bc_predecessor r)) to_begin_construction.
Proof.
  intros [c h p] [c' h' p'] H1 H1' E. cbn in *. same_fields E.
  f_equal; [by apply determined_bytes|by apply determined_header|by apply determined_opt_bytes].
Qed.

Lemma determined_prevalidator : determined always to_prevalidator.
Proof.
  intros [c p f] [c' p' f'] _ _ E. same_fields E.
  f_equal; [by apply determined_bytes|by apply determined_hash|].
  apply (determined_option _ _ (determined_list _ _ determined_bytes)); [apply if_some_Forall..|done].
Qed.

Lemma determined_validate_operation : determined always to_validate_operation.
Proof.
  intros [p o] [p' o'] _ _ E. same_fields E.
  f_equal; [by apply determined_prevalidator|by apply determined_operation].
Qed.

Lemma determined_rpc_request : determined always to_rpc_request.
Proof.
  intros [b c m t a] [b' c' m' t' a'] _ _ E. same_fields E.
  f_equal; [by apply determined_string|by apply determined_string|
    by apply (returns_determined _ _ _ returns_meth)|by apply determined_opt_string|by apply determined_opt_string].
Qed.

Lemma determined_protocol_rpc : determined (fun r => BlockHeader.ok (pr_block_header r)) to_protocol_rpc.
Proof.
  intros [h c i r] [h' c' i' r'] H1 H1' E. cbn in *. same_fields E.
  f_equal; [by apply determined_header|by apply determined_string|by apply determined_bytes|
    by apply determined_rpc_request].
Qed.

Lemma determined_preapply_block :
  determined (fun r => BlockHeader.ok (pr_block_header (hp_protocol_rpc_request r))) to_preapply_block.
Proof.
  intros [r x y] [r' x' y'] H1 H1' E. cbn in *. same_fields E.
  f_equal; [by apply determined_protocol_rpc|by apply determined_opt_hash|by apply determined_opt_hash].
Qed.

Lemma determined_irmin : determined always to_irmin.
Proof. intros [d] [d'] _ _ E. same_fields E. f_equal. by apply determined_string. Qed.

Lemma determined_storage : determined always to_storage.
Proof.
  pose proof (returns_determined _ _ _ returns_tezedge) as Ht.
  intros [i|t|i t] [i'|t'|i' t'] _ _ E; cbn in E; try (by apply tag_inj in E); same_fields E;
    f_equal; first [by apply determined_irmin|by apply Ht].
Qed.

Lemma determined_genesis : determined always to_genesis.
Proof.
  intros [t b p] [t' b' p'] _ _ E. same_fields E. f_equal; by apply determined_string.
Qed.

Definition overrides_ok (o : ProtocolOverrides) : Prop :=
  Forall (fun u => in_s 32 u.1 /\ always u.2) (user_activated_upgrades o).
Lemma determined_overrides : determined overrides_ok to_overrides.
Proof.
  intros [u p] [u' p'] Hu Hu' E. same_fields E. f_equal.
  - by apply (determined_list _ _ (determined_pair _ _ _ _ determined_int32 determined_string)).
  - eapply (determined_list _ _ (determined_pair _ _ _ _ determined_string determined_string)); [..|done];
      by apply Forall_forall.
Qed.

Lemma determined_configuration :
  determined (fun c => overrides_ok (cfg_protocol_overrides c)) to_configuration.
Proof.
  intros [s g o a b c p d] [s' g' o' a' b' c' p' d'] Ho Ho' E. cbn in Ho, Ho'. same_fields E.
  f_equal; [by apply determined_storage|by apply determined_genesis|by apply determined_overrides|
    by apply determined_bool|by apply determined_bool|by apply determined_bool| |by apply determined_opt_string].
  eapply (determined_option always); [|apply if_some_always..|done].
  intros [k j] [k' j'] _ _ E. same_fields E. f_equal; by apply determined_string.
Qed.

(** OCaml sees every request whole: two valid requests that arrive as the same OCaml
    value are the same request, for each of the calls and for the configuration of
    the context. *)
Theorem requests_determined :
  determined apply_request_ok to_apply_block_request /\
  determined (fun r => BlockHeader.ok (ba_pred_header r) /\ BlockHeader.ok (ba_block_header r)) to_begin_application /\
  determined (fun r => BlockHeader.ok (bc_predecessor r)) to_begin_construction /\
  determined always to_validate_operation /\
  determined (fun r => BlockHeader.ok (pr_block_header r)) to_protocol_rpc /\
  determined (fun r => BlockHeader.ok (pr_block_header (hp_protocol_rpc_request r))) to_preapply_block /\
  determined (fun c => overrides_ok (cfg_protocol_overrides c)) to_configuration.
Proof.
  ssplit; [apply determined_apply_block|apply determined_begin_application|apply determined_begin_construction|
    apply determined_validate_operation|apply determined_protocol_rpc|apply determined_preapply_block|].
  apply determined_configuration.
Qed.

(** ** Paths

    OCaml's value of a path, and that reading it needs no more than its depth. *)
Fixpoint ml_path (p : FfiPath) : ocaml :=
  match p with
  | FfiLeft p r => ml_block 0 [ml_path p; to_hash r]
  | FfiRight l p => ml_block 1 [to_hash l; ml_path p]
  | FfiOp => ml_int 0
  end.
Fixpoint path_depth (p : FfiPath) : nat :=
  match p with FfiLeft p _ | FfiRight _ p => S (path_depth p) | FfiOp => 0 end.

Lemma from_hash_to h : from_hash (to_hash h) = Some h.
Proof.
  unfold from_hash, to_hash, to_tagged_hash. rewrite (field_block 0 [ml_bytes h] 0 (ml_bytes h) eq_refl).
  by apply returns_bytes.
Qed.
#[local] Arguments from_hash : simpl never.

Lemma from_path_ml n p : (path_depth p < n)%nat -> from_path n (ml_path p) = Some p.
Proof.
  revert n. induction p as [l p IH|p IH r|]; intros [|n] Hn; cbn in Hn |- *; try lia.
  - rewrite is_long_block, tag_block. read_block. rewrite from_hash_to. cbn. by rewrite IH by lia.
  - rewrite is_long_block, tag_block. read_block. rewrite IH by lia. cbn. by rewrite from_hash_to.
  - by rewrite is_long_int, int_val_int by by apply small_int.
Qed.
End Facts.

(** ** OCaml's values as a tree *)
Inductive tree : Type :=
| TInt (z : Z) | TInt32 (z : Z) | TInt64 (z : Z) | TBytes (bs : bytes) | TBlock (t : nat) (l : list tree).

Fixpoint tree_list (v : tree) : list tree :=
  match v with TBlock 0 [h; t] => h :: tree_list t | _ => [] end.

#[export] Instance reference_ocaml : OCamlInterop.
Proof.
  refine {|
    ocaml := tree; ml_int := TInt; ml_int32 := TInt32; ml_int64 := TInt64; ml_bytes := TBytes; ml_block := TBlock;
    int_val v := match v with TInt z => z | _ => 0 end;
    int32_val v := match v with TInt32 z => z | _ => 0 end;
    int64_val v := match v with TInt64 z => z | _ => 0 end;
    bytes_val v := match v with TBytes bs => bs | _ => [] end;
    is_long v := match v with TInt _ => true | _ => false end;
    tag v := match v with TBlock t _ => t | _ => O end;
    field i v := match v with TBlock _ l => default (TInt 0) (l !! i) | _ => TInt 0 end;
    list_val := tree_list;
  |}; try done.
  intros t l i v E. by rewrite E.
Defined.

(** A wrong size from OCaml is a panic, not an error. *)
Example wrong_size_panics : from_typed_hash BlockHash (to_hash [1; 2; 3]) = None.
Proof. reflexivity. Qed.
